(* ===== verification/_CoqProject ===== *)
-Q . S2P
Prelude.v
PyStr.v
PyNum.v
FloatFacts.v
Json.v
JsonFacts.v
Uuid.v
AuthorityRow.v
AuthorityDb.v
AuthorityRefine.v
AuthorityTheorems.v
ProcFs.v
LifecycleState.v
Protocol.v
Output.v
OutputFacts.v
Capture.v
OutputTheorems.v
OutputRuns.v
SupervisorCodec.v
SupervisorTheorems.v
Durable.v
DurableFacts.v
DurableOps.v
DurableTheorems.v
StatePaths.v
Store.v
StoreRefine.v
Mission.v
RecordFiles.v
MissionTheorems.v
SupervisorFiles.v
ControlRequests.v
SupervisorFilesFacts.v
GenerationTheorems.v
Calm.v
Promotion.v
Programs.v
Daemon.v
DaemonWorkers.v
DaemonObligations.v
DaemonSpawn.v
DaemonTick.v
DaemonRuns.v
DaemonFence.v
DaemonPublication.v
DaemonSignals.v
DaemonTheorems.v
DaemonCycle.v
WorkerSettings.v
JobQueue.v
JobQueueFacts.v
JobQueueTheorems.v
JobQueueServers.v
JobQueueCollection.v
JobQueueExamples.v
WorkerWorld.v
WorkerGroups.v
WorkerJobs.v
WorkerStarts.v
WorkerLeases.v
WorkerFinalization.v
WorkerLoop.v
WorkerRuns.v
WorkerGate.v
WorkerSignals.v
WorkerRecovery.v
WorkerLeaseSafety.v
WorkerFuture.v
WorkerSpawn.v
WorkerMachine.v
HealthSnapshot.v
HealthBuild.v
HealthLiveness.v
HealthVerdicts.v
HealthFiles.v
Deploy.v
DeployMissions.v
DeployRules.v
DeployTheorems.v
