(* ===== verification/Prelude.v ===== *)
(** Lubko: a verified model of its lifecycle authority, job queue, worker, durable
    files, supervisor and deployments.

    Lubko runs queued shell jobs from a PostgreSQL table.  A worker
    ([src/lubko/worker.py]) claims jobs, drains their pipes and publishes bounded
    output; a supervisor daemon ([supervisor.py], [supervise.py]) keeps exactly
    one worker alive; a deployment ([deployctl.py]) replaces the worker under a
    mission that can be rolled back; commands ([lifecycle.py], [cli.py]) drive
    both.  What keeps two workers from consuming the queue at once is a set of
    durable records and the discipline of changing them, and that is what this
    library models first.

    ** Files of the library

    Foundations.
    - [Prelude]: exceptions and results ([exn], [res]), the tactics [res_step],
      [res_inv], [bool_z], the hint database [lubko].
    - [PyStr], [PyNum], [Json], [JsonFacts], [Uuid]: the part of Python the sources
      rely on: code points and UTF-8, unbounded integers and binary64 floats with
      their text, [json.dumps]/[json.loads], [uuid].  [FloatFacts]: the order of the
      floats that are numbers.

    The lifecycle authority row ([lifecycle_authority.py]).
    - [AuthorityRow]: the row, its canonical text, strict parsing, the version 1
      migration.
    - [AuthorityDb]: each operation as a program of SQL statements; daemons that
      interleave statement by statement and lose connections.
    - [AuthorityRefine]: the atomic specification [astep] and the proof that the
      programs implement it.
    - [AuthorityTheorems]: refinement, monotone fencing epochs, inert superseded
      claims, stable consumer identity, hand-over, migration, round trip.

    Processes and decisions.
    - [ProcFs] ([_exact_signal.py], [_process_group.py], the identity helpers of
      [lifecycle.py] and [supervise.py]): identity from /proc, and a kernel process
      table on which the parsers are exact.
    - [LifecycleState] ([lifecycle_state.py]): reconciled facts, phase, invariants,
      authorization guards, failpoints.

    Jobs and their output.
    - [Protocol] ([protocol.py], [protocol_versioning.py]): builders and validating
      parsers of job payloads.
    - [Output], [Capture] ([worker.py]): decoding, alignment, windows, chunks,
      publication, trimming; draining a pipe into the bounded spool.
      [OutputFacts], [OutputTheorems], [OutputRuns] hold their theorems.

    The job queue ([worker.py], "Database operations").
    - [WorkerSettings]: the worker's settings and their validation, the deadline of a
      turn's database work, the classes of database errors.
    - [JobQueue]: the table of JSON rows and every statement on it, each an atomic
      change of the rows it selects.
    - [JobQueueFacts]: the keys a chain of [jsonb_set] leaves, the changes a row may
      see ([row_change]), histories of operations ([perform_all]), what a selection
      under locks and a limit returns.
    - [JobQueueTheorems]: the life of a job and its refinement, one execution,
      cancellation, the immutable request; [JobQueueServers]: isolation of servers,
      the order of claims, the version policy;
      [JobQueueCollection]: which rows are ever removed, and the collector's
      progress; [JobQueueExamples]: the theorems at a table of jobs.

    The worker ([Supervisor] of [worker.py]).
    - [WorkerWorld]: a job, what the worker remembers, the questions ([call]) its
      methods ask; [WorkerGroups]: process groups, proofs of membership, signals
      through pidfds, the recovery of a dead worker's groups; [WorkerJobs]: stopping,
      observing, draining and releasing one job; [WorkerStarts]: gated starts, their
      aborts, their futures; [WorkerLeases]: leases, cancellations, retries;
      [WorkerFinalization]: publication and the terminal write; [WorkerLoop]: claims,
      starts, a turn, the outage, the shutdown, [run].
    - [WorkerRuns]: what a method keeps for every monitor that does not mind its
      questions, for every method; the tactic [walk], the hint database [worker].
    - [WorkerGate], [WorkerSignals], [WorkerLeaseSafety], [WorkerFuture],
      [WorkerSpawn], [WorkerRecovery]: along every trace, no gate released without a
      record, no process signalled without a proof, no lease counted from after its
      statement or outlived, no start cared for twice, no descriptor or child left by
      a failed start, no group of a dead worker left out of the report.
    - [WorkerMachine]: a machine that answers, on which a job is claimed, started,
      cancelled and finished, the theorems at its runs, and what failing statements do.

    The worker's health ([health.py], the health methods of [worker.py] and
    [supervisor.py]).
    - [HealthSnapshot]: the snapshot, its strict codec, its file, what survives
      the file and what escapes; [HealthBuild]: what the worker puts in it,
      its lease margin; [HealthLiveness]: what readers and the supervisor conclude;
      [HealthVerdicts]: exactly when, from the worker's jobs to the verdict.
    - [HealthFiles]: the stable links, published or as they were; the bounded evidence
      of earlier incarnations; a snapshot is written whole or dropped.

    Durable files.
    - [Durable] ([durable.py]): the primitives as programs of system calls over a
      file system that separates what is visible from what a crash may leave.
      [DurableFacts] is their program logic, [DurableOps] the specifications,
      [DurableTheorems] atomicity and survival.
    - [Store]: the level above, whole files replaced atomically, with locks, failing
      calls and other processes; [StoreRefine] derives its write from [Durable].

    The supervisor's records and files.
    - [SupervisorCodec], [SupervisorTheorems] ([supervise.py]): the records' codecs.
    - [StatePaths] ([state.py], paths of [supervise.py]): where files live.
    - [Mission], [MissionTheorems] ([deployctl.RollbackState],
      [lifecycle.WorkerMeta]): the durable mission.  [RecordFiles]: records survive
      their files.
    - [SupervisorFiles] ([supervise.py]), [ControlRequests] ([supervisor.py],
      [control_socket.py]): the operations on the files and the handlers of control
      requests.
    - [SupervisorFilesFacts], [GenerationTheorems]: the generation space under
      interference.  [Calm], [Promotion]: the
      run intent, the blocking authority, the pending request.

    Programs that ask the world.
    - [Programs]: a [method] changes its memory, asks the world a question and goes on
      with the answer ([tree]); [zoom] runs one on a part of a larger memory; the
      traces of a method ([runs]), monitors that accept or refuse
      them ([accepts]), the rules of [watched], and worlds that answer ([drive]).

    The supervisor daemon ([SupervisorDaemon] of [supervisor.py]).
    - [Daemon]: settings, decisions, what the daemon remembers and asks.
    - [DaemonWorkers], [DaemonObligations], [DaemonSpawn], [DaemonTick]: the methods,
      in the order they call each other, up to [reconcile], one cycle.
    - [DaemonRuns]: the monitors of the daemon's traces and the hint database
      [daemon]; what each method keeps for every monitor that does not mind its
      questions.
    - [DaemonFence], [DaemonPublication], [DaemonSignals]: no worker started outside
      the fence, published unproven, or stopped unnamed, along every trace of a
      cycle; [DaemonTheorems]: the decisions, the backoff and its overflow, the end
      of polling; [DaemonCycle]: a machine that answers, on which a run request
      starts and publishes a worker.

    Deployments ([deployctl.py]).
    - [Deploy]: what a command asks ([dcall]), when a mission is confirmed or due to be
      rolled back, the settlement with the supervisor, the two rollbacks;
      [DeployMissions]: preparing, publishing and handing over, confirmation, status,
      the helper of a job's checkout, the watchdog.
    - [DeployRules]: rules over the history of a run (locks, writes of the mission,
      promotion) and the parts that keep them; [DeployTheorems]: every request, helper
      and watchdog obeys them, a legacy candidate is seen dead first, the watchdog
      stays until the mission is over; a deployment that is confirmed, one that is
      rolled back, and what failing calls do.

    ** How state and effects are represented

    A fallible computation returns [res A]; an exception is its class, messages are
    dropped.  Operations on shared state are never atomic by decree: a database
    operation is a program whose statements interleave with those of other daemons
    ([AuthorityDb]), a durable write one whose system calls do ([Durable]), a file
    operation one between any two calls of which other processes may change the
    files they are not locked out of ([Store.io]).  Integers are unbounded, as in
    Python; floats are [spec_float] values of binary64.

    ** What the theorems show

    Each property carries its number C<n> in its doc comment.  For every component
    the properties come in this order: safety and invariants along every
    interleaving, refinement of an abstract specification, exact results on each
    branch, round trips and bounds, errors.  A property with hypotheses is followed
    by a [_witness] that meets them on concrete data.

    ** Fuel

    Loops of the sources that are not structural take fuel and answer [OutOfFuel]
    when it runs out: the JSON parser (as much as the text is long), the windows
    and chunks of captured output (the bytes left).  Lemmas of [JsonFacts],
    [OutputFacts] and [Capture] show the fuel given is enough, so no theorem speaks
    of a run that stops early.  The daemon's polling loops take fuel too; their
    safety holds for every amount of it, and [identity_wait_ends] shows the wait for
    an identity stops by itself once the clock has passed its deadline.  The loop of
    [_settle_unproven_spawn] has no deadline in the source either.  So do the worker's
    loops that wait for a process or a clock (a spawn's session, an abort, the
    termination of a group, the drain of a shutdown) and [run] itself; the bounded
    cycle of a completed job counts the source's own 100000 turns.

    ** Not modelled

    Git, virtual environments, the control socket's framing, argument parsing and
    logging; of a deployment git and validation, the gated spawns, the sealed command
    line, the fork of the helper and its pipe; of the worker the thread that runs the collection, the queue of
    the spawn pool, the handlers of its log, [main]; of the daemon its
    startup, its handoff to a newer supervisor, the cold migration, the startup
    artifacts and the status snapshot, which a cycle asks for as questions: they are calls into PostgreSQL, the kernel or other
    programs, and what the sources decide around them is listed, component by
    component, as later work.  Exception messages, log output and statistics are
    left out everywhere. *)

From Stdlib Require Export ZArith Lia List.
From stdpp Require Export base tactics option list numbers decidable.
From stdpp Require Export strings.
Export ListNotations.

#[export] Set Default Goal Selector "!".

Open Scope Z_scope.

Declare Scope py_scope.
Delimit Scope py_scope with py.

(** ** Python exceptions and results

    A call either returns a value or raises.  Exception messages are not
    modelled; exception classes are, because the callers dispatch on them. *)
Inductive exn :=
  | AuthorityError
  | AuthorityUnavailableError
  | AuthorityInvariantError
  | ProtocolError
  | JSONDecodeError
  | UnicodeEncodeError
  | ValueError
  | TypeError
  | KeyError
  | IndexError
  | SupervisorStateTokenError
  | FailpointError
  | DeployCtlError
  | OSError
  | FileNotFoundError
  | UnicodeDecodeError
  | DurabilityError
  | ConsumerLockTimeoutError
  | GenerationLockTimeoutError
  | PendingRequestLockTimeoutError
  | DesiredIntentError
  | MissionAuthorityError
  | DesiredAuthorityConflictError
  | MalformedSupervisorIdentityError
  | PidfileIdentityMismatchError
  | StartupContractError
  | WorkerMetadataError
  | SpoolCaptureError
  | DbOperationDeadlineError
  | OverflowError
  | AttributeError
  (** [psycopg.Error] *)
  | DatabaseError
  | OwnedGroupRecoveryError
  | TimeoutExpired
  | SubprocessError
  | ChildProcessError
  | CliError
  | LockTimeoutError
  | ProcessLookupError
  (** [queue.Full] *)
  | QueueFull
  | SchemaInvariantError
  | OtherError
  (** not a Python exception: a fuelled model function was given too little fuel *)
  | OutOfFuel.

#[export] Instance exn_eq_dec : EqDecision exn.
Proof. solve_decision. Defined.

Inductive res (A : Type) :=
  | Ok (a : A)
  | Raise (e : exn).
Arguments Ok {A} _.
Arguments Raise {A} _.

#[export] Instance res_eq_dec {A} `{EqDecision A} : EqDecision (res A).
Proof. solve_decision. Defined.

#[export] Instance res_ret : MRet res := fun A a => Ok a.
#[export] Instance res_bind : MBind res := fun A B f m =>
  match m with Ok a => f a | Raise e => Raise e end.
#[export] Instance res_fmap : FMap res := fun A B f m =>
  match m with Ok a => Ok (f a) | Raise e => Raise e end.

(** [try m except e: h]. *)
Definition catch {A} (m : res A) (e : exn) (h : res A) : res A :=
  match m with
  | Ok a => Ok a
  | Raise e' => if decide (e' = e) then h else Raise e'
  end.

Section res.
Context {A B : Type}.
Implicit Types (m : res A) (f : A -> res B).

Lemma bind_Ok m f b : (m ≫= f) = Ok b <-> exists a, m = Ok a /\ f a = Ok b.
Proof. destruct m; simpl; split; intros H; [eauto| |done|]; destruct H as (?&?&?); by simplify_eq. Qed.

Lemma bind_Raise m f e :
  (m ≫= f) = Raise e <-> m = Raise e \/ exists a, m = Ok a /\ f a = Raise e.
Proof.
  destruct m; simpl; split; intros H; eauto.
  - destruct H as [|(?&?&?)]; by simplify_eq.
  - left; by simplify_eq.
  - destruct H as [|(?&?&?)]; by simplify_eq.
Qed.
End res.

(** ** Proof automation *)

(** Case analysis on the scrutinee of a match or conditional in a hypothesis
    or the goal, keeping the equation. *)
Ltac case_match_hyp H :=
  match type of H with
  | context [ match ?x with _ => _ end ] =>
      lazymatch x with
      | context [ match _ with _ => _ end ] => fail
      | _ => let E := fresh "E" in destruct x eqn:E; simpl in H; try discriminate H
      end
  end.

(** Take a monadic computation that succeeded apart, one bind at a time. *)
Ltac res_step H :=
  match type of H with
  | (_ ≫= _) = Ok _ =>
      let a := fresh "a" in let H1 := fresh "B" in
      apply bind_Ok in H as (a & H1 & H); cbv beta in H
  | Ok _ = Ok _ => injection H as H
  | Raise _ = Ok _ => discriminate H
  | Ok _ = Raise _ => discriminate H
  end.
Ltac res_inv H := repeat res_step H.

Create HintDb lubko.
#[export] Hint Resolve Forall_nil_2 Forall_cons_2 : lubko.

(** ** Integers and lists *)

(** Python slices [l[a:b]] with non-negative bounds. *)
Definition slice {A} (a b : nat) (l : list A) : list A := take (b - a) (drop a l).

Lemma slice_length {A} a b (l : list A) :
  (a <= b)%nat -> (b <= length l)%nat -> length (slice a b l) = (b - a)%nat.
Proof. intros. unfold slice. rewrite length_take, length_drop. lia. Qed.

Lemma slice_full {A} (l : list A) : slice 0 (length l) l = l.
Proof. unfold slice. rewrite drop_0, Nat.sub_0_r. apply firstn_all. Qed.

Lemma slice_app {A} a b c (l : list A) :
  (a <= b)%nat -> (b <= c)%nat -> slice a b l ++ slice b c l = slice a c l.
Proof.
  intros. unfold slice.
  replace (c - a)%nat with ((b - a) + (c - b))%nat by lia.
  rewrite <- take_take_drop. f_equal. f_equal. rewrite drop_drop. f_equal. lia.
Qed.
