(* ===== verification/PyStr.v ===== *)
(** Python [str] and [bytes], and the UTF-8 codec the sources rely on.

    A [str] is a list of code points, a [bytes] object a list of integers in
    [0, 256).  [utf8_encode] is [str.encode("utf-8")] (strict: a lone
    surrogate raises [UnicodeEncodeError]); [utf8_decode] is
    [bytes.decode("utf-8", errors="replace")], which substitutes U+FFFD for
    each maximal ill-formed subpart, as CPython's decoder does. *)

From S2P Require Import Prelude.

Abbreviation pystr := (list Z).
Abbreviation pybytes := (list Z).

(** ASCII literals of the source. *)
Fixpoint py (s : string) : pystr :=
  match s with
  | EmptyString => []
  | String a s => Z.of_N (Ascii.N_of_ascii a) :: py s
  end.

Fixpoint str_eqb (a b : pystr) : bool :=
  match a, b with
  | [], [] => true
  | x :: a, y :: b => (x =? y) && str_eqb a b
  | _, _ => false
  end.

(** Evaluate the ASCII literals of the goal. *)
Ltac eval_py :=
  repeat match goal with
  | |- context [py ?s] => let v := eval vm_compute in (py s) in change (py s) with v
  end.

Lemma str_eqb_spec a b : reflect (a = b) (str_eqb a b).
Proof.
  revert b; induction a as [|x a IH]; intros [|y b]; simpl; try (constructor; congruence).
  destruct (Z.eqb_spec x y); simpl; [|constructor; congruence].
  destruct (IH b); constructor; congruence.
Qed.

Lemma str_eqb_refl a : str_eqb a a = true.
Proof. by destruct (str_eqb_spec a a). Qed.

Lemma str_eqb_eq a b : str_eqb a b = true <-> a = b.
Proof. destruct (str_eqb_spec a b); naive_solver. Qed.

(** Python's ordering of strings: by code point, then by length. *)
Fixpoint str_ltb (a b : pystr) : bool :=
  match a, b with
  | _, [] => false
  | [], _ :: _ => true
  | x :: a, y :: b => (x <? y) || ((x =? y) && str_ltb a b)
  end.

(** The rest of [s] after the prefix [p]. *)
Fixpoint strip_prefix (p s : pystr) : option pystr :=
  match p, s with
  | [], _ => Some s
  | a :: p, b :: s => if a =? b then strip_prefix p s else None
  | _ :: _, [] => None
  end.

(** ** Code points *)

Definition is_surrogate (c : Z) : bool := (0xD800 <=? c) && (c <=? 0xDFFF).
Definition is_high_surrogate (c : Z) : bool := (0xD800 <=? c) && (c <=? 0xDBFF).
Definition is_low_surrogate (c : Z) : bool := (0xDC00 <=? c) && (c <=? 0xDFFF).

(** A Unicode scalar value: what the UTF-8 codec can carry. *)
Definition is_scalar (c : Z) : bool := (0 <=? c) && (c <=? 0x10FFFF) && negb (is_surrogate c).

Definition scalar_str (s : pystr) : Prop := Forall (fun c => is_scalar c = true) s.

(** ** Encoding *)

Definition utf8_encode_cp (c : Z) : res pybytes :=
  if c <? 0x80 then Ok [c]
  else if c <? 0x800 then Ok [0xC0 + c / 64; 0x80 + c mod 64]
  else if is_surrogate c then Raise UnicodeEncodeError
  else if c <? 0x10000 then
    Ok [0xE0 + c / 4096; 0x80 + c / 64 mod 64; 0x80 + c mod 64]
  else
    Ok [0xF0 + c / 262144; 0x80 + c / 4096 mod 64; 0x80 + c / 64 mod 64; 0x80 + c mod 64].

Fixpoint utf8_encode (s : pystr) : res pybytes :=
  match s with
  | [] => Ok []
  | c :: s => b ← utf8_encode_cp c; bs ← utf8_encode s; Ok (b ++ bs)
  end.

(** [len(text.encode("utf-8"))] *)
Definition utf8_byte_length (s : pystr) : res Z :=
  bs ← utf8_encode s; Ok (Z.of_nat (length bs)).

(** The number of bytes a scalar occupies, as a total function. *)
Definition cp_len (c : Z) : Z :=
  if c <? 0x80 then 1 else if c <? 0x800 then 2 else if c <? 0x10000 then 3 else 4.
Definition str_len8 (s : pystr) : Z := fold_right (fun c n => cp_len c + n) 0 s.

(** ** Decoding with replacement *)

Definition REPLACEMENT : Z := 0xFFFD.

Definition is_cont (b : Z) : bool := (0x80 <=? b) && (b <=? 0xBF).

(** Whether [b1] may follow the lead byte [b0] of a three- or four-byte
    sequence: a continuation byte that makes the sequence neither overlong,
    nor a surrogate, nor above U+10FFFF. *)
Definition second_ok (b0 b1 : Z) : bool :=
  is_cont b1
  && negb ((b0 =? 0xE0) && (b1 <? 0xA0)) && negb ((b0 =? 0xED) && (0xA0 <=? b1))
  && negb ((b0 =? 0xF0) && (b1 <? 0x90)) && negb ((b0 =? 0xF4) && (0x90 <=? b1)).

Fixpoint utf8_decode (l : pybytes) : pystr :=
  match l with
  | [] => []
  | b0 :: r =>
      if b0 <? 0x80 then b0 :: utf8_decode r
      else if b0 <? 0xC2 then REPLACEMENT :: utf8_decode r
      else if b0 <? 0xE0 then
        match r with
        | b1 :: r1 =>
            if is_cont b1 then (b0 - 0xC0) * 64 + (b1 - 0x80) :: utf8_decode r1
            else REPLACEMENT :: utf8_decode r
        | [] => [REPLACEMENT]
        end
      else if b0 <? 0xF0 then
        match r with
        | b1 :: r1 =>
            if second_ok b0 b1 then
              match r1 with
              | b2 :: r2 =>
                  if is_cont b2 then
                    (b0 - 0xE0) * 4096 + (b1 - 0x80) * 64 + (b2 - 0x80) :: utf8_decode r2
                  else REPLACEMENT :: utf8_decode r1
              | [] => [REPLACEMENT]
              end
            else REPLACEMENT :: utf8_decode r
        | [] => [REPLACEMENT]
        end
      else if b0 <? 0xF5 then
        match r with
        | b1 :: r1 =>
            if second_ok b0 b1 then
              match r1 with
              | b2 :: r2 =>
                  if is_cont b2 then
                    match r2 with
                    | b3 :: r3 =>
                        if is_cont b3 then
                          (b0 - 0xF0) * 262144 + (b1 - 0x80) * 4096 + (b2 - 0x80) * 64 + (b3 - 0x80)
                            :: utf8_decode r3
                        else REPLACEMENT :: utf8_decode r2
                    | [] => [REPLACEMENT]
                    end
                  else REPLACEMENT :: utf8_decode r1
              | [] => [REPLACEMENT]
              end
            else REPLACEMENT :: utf8_decode r
        | [] => [REPLACEMENT]
        end
      else REPLACEMENT :: utf8_decode r
  end.

(** ** Lemmas *)

(** Turn the Boolean tests on integers of a goal into arithmetic. *)
Ltac bool_z :=
  repeat match goal with
  | H : _ && _ = true |- _ => apply andb_true_iff in H as [? ?]
  | H : _ || _ = false |- _ => apply orb_false_iff in H as [? ?]
  | H : negb _ = true |- _ => apply negb_true_iff in H
  | H : negb _ = false |- _ => apply negb_false_iff in H
  | H : (_ <? _) = true |- _ => apply Z.ltb_lt in H
  | H : (_ <? _) = false |- _ => apply Z.ltb_ge in H
  | H : (_ <=? _) = true |- _ => apply Z.leb_le in H
  | H : (_ <=? _) = false |- _ => apply Z.leb_gt in H
  | H : (_ =? _) = true |- _ => apply Z.eqb_eq in H
  | H : (_ =? _) = false |- _ => apply Z.eqb_neq in H
  end.

(** Case analysis on the first conditional of the goal. *)
Ltac case_if :=
  match goal with
  | |- context [if ?b then _ else _] => let E := fresh "E" in destruct b eqn:E; bool_z
  end.

Lemma is_scalar_spec c :
  is_scalar c = true <-> 0 <= c <= 0x10FFFF /\ ~ (0xD800 <= c <= 0xDFFF).
Proof. unfold is_scalar, is_surrogate. lia. Qed.

Lemma is_cont_spec b : is_cont b = true <-> 0x80 <= b <= 0xBF.
Proof. unfold is_cont. lia. Qed.

Lemma cp_len_bounds c : 1 <= cp_len c <= 4.
Proof. unfold cp_len. repeat case_match; lia. Qed.

Lemma str_len8_nonneg s : 0 <= str_len8 s.
Proof. induction s as [|c s IH]; simpl; [lia|]. pose proof (cp_len_bounds c). lia. Qed.

Lemma str_len8_app a b : str_len8 (a ++ b) = str_len8 a + str_len8 b.
Proof. induction a; simpl; lia. Qed.

Lemma utf8_encode_cp_scalar c :
  is_scalar c = true -> exists b, utf8_encode_cp c = Ok b /\ Z.of_nat (length b) = cp_len c.
Proof.
  rewrite is_scalar_spec. intros [? ?]. unfold utf8_encode_cp, cp_len, is_surrogate.
  repeat case_match; bool_z; try lia; eexists; (split; [done|]); reflexivity.
Qed.

Lemma utf8_byte_length_scalar s :
  scalar_str s -> utf8_byte_length s = Ok (str_len8 s).
Proof.
  unfold utf8_byte_length. induction 1 as [|c s Hc Hs IH]; [done|].
  destruct (utf8_encode_cp_scalar c Hc) as (b & Hb & Hl). simpl. rewrite Hb. simpl in *.
  apply bind_Ok in IH as (bs & Hbs & [= IH]). rewrite Hbs. simpl.
  rewrite length_app, Nat2Z.inj_add. f_equal. lia.
Qed.

(** The encoder raises exactly on text that holds a surrogate. *)
Lemma utf8_encode_raise s e : utf8_encode s = Raise e -> e = UnicodeEncodeError.
Proof.
  induction s as [|c s IH]; simpl; [done|].
  intros [H|(b & _ & H)]%bind_Raise.
  - unfold utf8_encode_cp in H. repeat case_match; congruence.
  - apply bind_Raise in H as [H|(? & _ & H)]; [auto|done].
Qed.

(** Bytes objects. *)
Definition bytes_ok (l : pybytes) : Prop := Forall (fun b => 0 <= b < 256) l.

Lemma REPLACEMENT_scalar : is_scalar REPLACEMENT = true.
Proof. done. Qed.

(** A turn that consumes [n] bytes. *)
Local Ltac turn n :=
  eexists _, n; split; [reflexivity|]; split; [simpl; lia|];
  rewrite is_scalar_spec; unfold REPLACEMENT, cp_len; repeat case_match; bool_z; lia.

(** One turn of the decoder: it emits a scalar [c] for the next [n] bytes, and
    [c] never occupies fewer bytes than it stands for. *)
Lemma utf8_decode_turn b0 r :
  bytes_ok (b0 :: r) ->
  exists c n, utf8_decode (b0 :: r) = c :: utf8_decode (drop n (b0 :: r))
    /\ (1 <= n <= length (b0 :: r))%nat /\ is_scalar c = true
    /\ Z.of_nat n <= cp_len c
    /\ (c = REPLACEMENT \/ Z.of_nat n = cp_len c).
Proof.
  intros [Hb0 _]%Forall_cons. cbn [utf8_decode].
  unfold second_ok, is_cont.
  repeat (match goal with
  | |- context [if ?b then _ else _] => let E := fresh in destruct b eqn:E
  | |- context [match ?l with [] => _ | _ :: _ => _ end] => destruct l
  end; bool_z); first [turn 1%nat | turn 2%nat | turn 3%nat | turn 4%nat].
Qed.

Lemma bytes_ok_drop n l : bytes_ok l -> bytes_ok (drop n l).
Proof. apply Forall_drop. Qed.

Lemma bytes_ok_take n l : bytes_ok l -> bytes_ok (take n l).
Proof. apply Forall_take. Qed.

Lemma bytes_ok_app a b : bytes_ok (a ++ b) <-> bytes_ok a /\ bytes_ok b.
Proof. apply Forall_app. Qed.

#[export] Hint Resolve bytes_ok_drop bytes_ok_take REPLACEMENT_scalar : lubko.

(** Induction along the decoder's turns. *)
Lemma decode_ind (P : pybytes -> Prop) :
  P [] ->
  (forall l c n, bytes_ok l -> l <> [] -> utf8_decode l = c :: utf8_decode (drop n l) ->
     (1 <= n <= length l)%nat -> is_scalar c = true -> Z.of_nat n <= cp_len c ->
     (c = REPLACEMENT \/ Z.of_nat n = cp_len c) -> P (drop n l) -> P l) ->
  forall l, bytes_ok l -> P l.
Proof.
  intros Hnil Hstep l. remember (length l) as k eqn:Hk. revert l Hk.
  induction k as [k IH] using lt_wf_ind; intros [|b0 r] Hk Hb; [done|].
  destruct (utf8_decode_turn b0 r Hb) as (c & n & Hd & Hn & Hc & Hl & Ho).
  apply (Hstep _ c n); auto.
  apply (IH (length (drop n (b0 :: r)))); [rewrite length_drop; lia|done|].
  by apply bytes_ok_drop.
Qed.

Lemma utf8_decode_scalar l : bytes_ok l -> scalar_str (utf8_decode l).
Proof.
  revert l. apply decode_ind; [constructor|].
  intros l c n _ _ -> _ Hc _ _ IH. by constructor.
Qed.

(** Replacement never shrinks the text: the decoded text re-encodes to at
    least as many bytes as were decoded. *)
Lemma utf8_decode_nonshrink l :
  bytes_ok l -> Z.of_nat (length l) <= str_len8 (utf8_decode l).
Proof.
  revert l. apply decode_ind; [done|].
  intros l c n _ _ -> Hn _ Hl _ IH. rewrite length_drop in IH. simpl. lia.
Qed.

(** ... and expands each byte to at most three. *)
Lemma utf8_decode_expand l :
  bytes_ok l -> str_len8 (utf8_decode l) <= 3 * Z.of_nat (length l).
Proof.
  revert l. apply decode_ind; [done|].
  intros l c n _ _ -> Hn _ Hl Ho IH. rewrite length_drop in IH. simpl.
  assert (cp_len REPLACEMENT = 3) by done.
  destruct Ho as [->|Ho]; lia.
Qed.

(** Decoding undoes encoding. *)
Lemma split64 c : exists q m, c / 64 = q /\ c mod 64 = m /\ c = 64 * q + m /\ 0 <= m < 64.
Proof. exists (c / 64), (c mod 64). pose proof (Z.div_mod c 64).
  pose proof (Z.mod_pos_bound c 64). lia. Qed.

(** Resolve the conditional at the head of the goal by arithmetic. *)
Ltac head_if :=
  match goal with
  | |- (if ?b then _ else _) = _ =>
      let E := fresh in destruct b eqn:E; bool_z; try (exfalso; lia)
  end.

Lemma decode2 b0 b1 r :
  0xC2 <= b0 < 0xE0 -> 0x80 <= b1 < 0xC0 ->
  utf8_decode (b0 :: b1 :: r) = (b0 - 0xC0) * 64 + (b1 - 0x80) :: utf8_decode r.
Proof. intros. cbn [utf8_decode]. unfold is_cont. repeat head_if; done. Qed.

Lemma decode3 b0 b1 b2 r :
  0xE0 <= b0 < 0xF0 -> second_ok b0 b1 = true -> 0x80 <= b2 < 0xC0 ->
  utf8_decode (b0 :: b1 :: b2 :: r)
  = (b0 - 0xE0) * 4096 + (b1 - 0x80) * 64 + (b2 - 0x80) :: utf8_decode r.
Proof.
  intros ? Hs ?. cbn [utf8_decode]. rewrite Hs. unfold is_cont. repeat head_if; done.
Qed.

Lemma decode4 b0 b1 b2 b3 r :
  0xF0 <= b0 < 0xF5 -> second_ok b0 b1 = true -> 0x80 <= b2 < 0xC0 -> 0x80 <= b3 < 0xC0 ->
  utf8_decode (b0 :: b1 :: b2 :: b3 :: r)
  = (b0 - 0xF0) * 262144 + (b1 - 0x80) * 4096 + (b2 - 0x80) * 64 + (b3 - 0x80) :: utf8_decode r.
Proof.
  intros ? Hs ? ?. cbn [utf8_decode]. rewrite Hs. unfold is_cont. repeat head_if; done.
Qed.

Lemma second_ok_spec b0 b1 :
  second_ok b0 b1 = true <->
  0x80 <= b1 <= 0xBF /\ (b0 = 0xE0 -> 0xA0 <= b1) /\ (b0 = 0xED -> b1 < 0xA0)
  /\ (b0 = 0xF0 -> 0x90 <= b1) /\ (b0 = 0xF4 -> b1 < 0x90).
Proof. unfold second_ok, is_cont. lia. Qed.

Lemma utf8_decode_encode_cp c b r :
  is_scalar c = true -> utf8_encode_cp c = Ok b -> utf8_decode (b ++ r) = c :: utf8_decode r.
Proof.
  rewrite is_scalar_spec. intros [Hc Hs]. unfold utf8_encode_cp, is_surrogate.
  change 4096 with (64 * 64). change 262144 with (64 * 64 * 64).
  rewrite <- !Z.div_div by lia.
  destruct (split64 c) as (q & m & -> & -> & Hqm & ?).
  destruct (split64 q) as (q' & m' & -> & -> & Hqm' & ?).
  destruct (split64 q') as (q2 & m2 & -> & -> & Hqm2 & ?).
  repeat case_match; intros [= <-]; bool_z; try lia; cbn [app].
  - cbn [utf8_decode]. head_if. done.
  - rewrite decode2 by lia. f_equal. lia.
  - rewrite decode3; [f_equal; lia|lia|apply second_ok_spec; lia|lia].
  - rewrite decode4; [f_equal; lia|lia|apply second_ok_spec; lia|lia|lia].
Qed.

Theorem utf8_decode_encode s b :
  scalar_str s -> utf8_encode s = Ok b -> utf8_decode b = s.
Proof.
  intros Hs. revert b. induction Hs as [|c s Hc Hs IH]; simpl; intros b H.
  - by injection H as <-.
  - res_inv H. subst b. rewrite (utf8_decode_encode_cp c) by done. f_equal. auto.
Qed.

Lemma utf8_encode_cp_bytes c b : is_scalar c = true -> utf8_encode_cp c = Ok b -> bytes_ok b.
Proof.
  rewrite is_scalar_spec. intros [Hc Hs]. unfold utf8_encode_cp, bytes_ok.
  change 4096 with (64 * 64). change 262144 with (64 * 64 * 64).
  rewrite <- !Z.div_div by lia.
  destruct (split64 c) as (q & m & -> & -> & Hqm & ?).
  destruct (split64 q) as (q' & m' & -> & -> & Hqm' & ?).
  destruct (split64 q') as (q2 & m2 & -> & -> & Hqm2 & ?).
  repeat case_match; intros [= <-]; bool_z; repeat apply Forall_cons_2; try apply Forall_nil_2; lia.
Qed.

Lemma utf8_encode_bytes s b : scalar_str s -> utf8_encode s = Ok b -> bytes_ok b.
Proof.
  intros Hs. revert b. induction Hs as [|c s Hc Hs IH]; simpl; intros b H.
  - injection H as <-. constructor.
  - res_inv H. subst b. apply bytes_ok_app. eauto using utf8_encode_cp_bytes.
Qed.
