(* ===== verification/PyNum.v ===== *)
(** Python numbers as [json] reads and writes them.

    Integers are unbounded, printed in decimal ([int_repr]); a conversion of
    more than 4300 digits in either direction raises [ValueError], as CPython
    does by default.  Floats are IEEE binary64 values, represented by the
    standard library's [spec_float]; [float_of_decimal] rounds a decimal
    literal to nearest-even and [float_repr] is the shortest text that reads
    back as the same value. *)

From S2P Require Import Prelude PyStr.
From Corelib Require Import SpecFloat.

Definition is_digit (c : Z) : bool := (48 <=? c) && (c <=? 57).

(** ** Integers *)

Fixpoint dec_digits (fuel : nat) (n : Z) (acc : pystr) : pystr :=
  match fuel with
  | O => acc
  | S fuel =>
      let acc := (48 + n mod 10) :: acc in
      if n <? 10 then acc else dec_digits fuel (n / 10) acc
  end.

(** Decimal digits of a non-negative integer. *)
Definition nat_repr (n : Z) : pystr := dec_digits (S (Z.to_nat (Z.log2 n))) n [].

(** [int.__repr__] *)
Definition int_repr (z : Z) : pystr :=
  if z <? 0 then 45 :: nat_repr (- z) else nat_repr z.

(** The value of a string of ASCII digits. *)
Definition digits_val (l : pystr) : Z := fold_left (fun a d => a * 10 + (d - 48)) l 0.

Definition INT_MAX_STR_DIGITS : nat := 4300.

(** Whether [int.__repr__] succeeds. *)
Definition int_repr_ok (z : Z) : bool := (length (nat_repr (Z.abs z)) <=? INT_MAX_STR_DIGITS)%nat.

(** ** Floats *)

Abbreviation pyfloat := spec_float.

Definition float_prec : Z := 53.
Definition float_emax : Z := 1024.

(** The binary64 value nearest to [num / den]. *)
Definition float_of_ratio (neg : bool) (num den : positive) : pyfloat :=
  let '(q, e, l) := SFdiv_core_binary float_prec float_emax (Zpos num) 0 (Zpos den) 0 in
  binary_round_aux float_prec float_emax neg q e l.

(** The binary64 value nearest to [m * 10 ^ e]; exponents far outside the
    binary64 range are decided without computing the power. *)
Definition float_of_decimal (neg : bool) (m e : Z) : pyfloat :=
  match m with
  | Zpos p =>
      let mag := Z.of_nat (length (nat_repr m)) + e in
      if 310 <? mag then S754_infinity neg
      else if mag <? -330 then S754_zero neg
      else match e with
           | Zneg k => float_of_ratio neg p (Z.to_pos (10 ^ Zpos k))
           | _ => float_of_ratio neg (Z.to_pos (m * 10 ^ e)) 1
           end
  | _ => S754_zero neg
  end.

(** Exact comparison of a float with an integer ([f == n]). *)
Definition float_eq_int (f : pyfloat) (n : Z) : bool :=
  match f with
  | S754_zero _ => n =? 0
  | S754_finite s m e =>
      let v := if s then - n else n in
      match e with
      | Zneg k => v * 2 ^ Zpos k =? Zpos m
      | _ => v =? Zpos m * 2 ^ e
      end
  | _ => false
  end.

Definition is_finite (f : pyfloat) : bool :=
  match f with S754_zero _ | S754_finite _ _ _ => true | _ => false end.

(** [float(z)]; infinite where Python raises [OverflowError]. *)
Definition float_of_int (z : Z) : pyfloat :=
  match z with
  | Z0 => S754_zero false
  | Zpos p => float_of_ratio false p 1
  | Zneg p => float_of_ratio true p 1
  end.

Definition zero : pyfloat := S754_zero false.

Definition float_ltb (a b : pyfloat) : bool := SFltb a b.
Definition float_leb (a b : pyfloat) : bool := SFleb a b.
Definition float_add (a b : pyfloat) : pyfloat := SFadd float_prec float_emax a b.
Definition float_sub (a b : pyfloat) : pyfloat := SFsub float_prec float_emax a b.
Definition float_mul (a b : pyfloat) : pyfloat := SFmul float_prec float_emax a b.

(** [min(a, b)], [max(a, b)] *)
Definition float_min (a b : pyfloat) : pyfloat := if float_ltb b a then b else a.
Definition float_max (a b : pyfloat) : pyfloat := if float_ltb a b then b else a.

(** [round_half_even (a / b)] on non-negative [a], positive [b]. *)
Definition div_round (a b : Z) : Z :=
  let q := a / b in let r := a mod b in
  if 2 * r <? b then q else if b <? 2 * r then q + 1 else if Z.even q then q else q + 1.

(** [v = num / den] scaled to [nd] significant digits with decimal point [k]. *)
Definition scaled (num den nd k : Z) : Z :=
  if 0 <=? nd - k then div_round (num * 10 ^ (nd - k)) den
  else div_round num (den * 10 ^ (k - nd)).

(** The decimal point position: least [k] with [num / den < 10 ^ k]. *)
Fixpoint dec_point (fuel : nat) (num den k : Z) : Z :=
  match fuel with
  | O => k
  | S fuel =>
      let below := if 0 <=? k then num <? den * 10 ^ k else num * 10 ^ (- k) <? den in
      if below then dec_point fuel num den (k - 1) else k + 1
  end.

Fixpoint shortest (fuel : nat) (num den k nd : Z) (f : pyfloat) : Z * Z :=
  let d := scaled num den nd k in
  match fuel with
  | O => (d, k - nd)
  | S fuel =>
      if SFeqb (float_of_decimal false d (k - nd)) f then (d, k - nd)
      else shortest fuel num den k (nd + 1) f
  end.

Fixpoint strip_zeros (fuel : nat) (d e : Z) : Z * Z :=
  match fuel with
  | O => (d, e)
  | S fuel => if (d mod 10 =? 0) && negb (d =? 0) then strip_zeros fuel (d / 10) (e + 1) else (d, e)
  end.

Definition zeros (n : Z) : pystr := repeat 48 (Z.to_nat n).

Definition float_layout (digits : pystr) (decpt : Z) : pystr :=
  let nd := Z.of_nat (length digits) in
  if (decpt <=? -4) || (16 <? decpt) then
    let e := decpt - 1 in
    let es := nat_repr (Z.abs e) in
    take 1 digits ++ (if nd =? 1 then [] else 46 :: drop 1 digits)
    ++ [101; if e <? 0 then 45 else 43] ++ (if Z.abs e <? 10 then 48 :: es else es)
  else if decpt <=? 0 then 48 :: 46 :: zeros (- decpt) ++ digits
  else if nd <=? decpt then digits ++ zeros (decpt - nd) ++ [46; 48]
  else take (Z.to_nat decpt) digits ++ 46 :: drop (Z.to_nat decpt) digits.

(** [float.__repr__], with the spellings [json] uses for the specials. *)
Definition float_repr (f : pyfloat) : pystr :=
  match f with
  | S754_zero s => (if s then [45] else []) ++ py "0.0"
  | S754_infinity s => (if s then [45] else []) ++ py "Infinity"
  | S754_nan => py "NaN"
  | S754_finite s m e =>
      let '(num, den) := match e with Zneg k => (Zpos m, 2 ^ Zpos k) | _ => (Zpos m * 2 ^ e, 1) end in
      let k := dec_point 10 num den ((Z.log2 num - Z.log2 den) * 30103 / 100000 + 2) in
      let '(d, e10) := shortest 17 num den k 1 (S754_finite false m e) in
      let '(d, e10) := strip_zeros 20 d e10 in
      let digits := nat_repr d in
      (if s then [45] else []) ++ float_layout digits (Z.of_nat (length digits) + e10)
  end.

Example float_repr_tenth : float_repr (float_of_decimal false 1 (-1)) = py "0.1".
Proof. vm_compute. reflexivity. Qed.
Example float_repr_third : float_repr (float_of_decimal true 3333333333333333333 (-19)) = py "-0.3333333333333333".
Proof. vm_compute. reflexivity. Qed.
Example float_repr_big : float_repr (float_of_decimal false 17 21) = py "1.7e+22".
Proof. vm_compute. reflexivity. Qed.
Example float_repr_min : float_repr (float_of_decimal false 5 (-324)) = py "5e-324".
Proof. vm_compute. reflexivity. Qed.
Example float_repr_time : float_repr (float_of_decimal false 17234567891234567 (-7)) = py "1723456789.1234567".
Proof. vm_compute. reflexivity. Qed.

(** ** Decimal digits read back *)

Lemma dec_digits_acc fuel n acc :
  dec_digits fuel n acc = dec_digits fuel n [] ++ acc.
Proof.
  revert n acc; induction fuel as [|fuel IH]; intros n acc; simpl; [done|].
  destruct (n <? 10); [done|].
  rewrite IH, (IH _ [_]), <- app_assoc. done.
Qed.

Lemma dec_digits_S fuel n :
  dec_digits (S fuel) n [] =
  (if n <? 10 then [] else dec_digits fuel (n / 10) []) ++ [48 + n mod 10].
Proof. simpl. destruct (n <? 10); [done|]. by rewrite dec_digits_acc. Qed.

Lemma digits_val_app a d : digits_val (a ++ [d]) = digits_val a * 10 + (d - 48).
Proof. unfold digits_val. by rewrite fold_left_app. Qed.

Lemma dec_digits_val fuel n : 0 <= n < 2 ^ Z.of_nat fuel -> digits_val (dec_digits fuel n []) = n.
Proof.
  revert n; induction fuel as [|fuel IH]; intros n Hn.
  { simpl in *. unfold digits_val. simpl. lia. }
  rewrite dec_digits_S, digits_val_app. rewrite Nat2Z.inj_succ, Z.pow_succ_r in Hn by lia.
  pose proof (Z.div_mod n 10). pose proof (Z.mod_pos_bound n 10).
  destruct (Z.ltb_spec n 10).
  - rewrite Z.mod_small by lia. unfold digits_val. simpl. lia.
  - rewrite IH; [lia|]. split; [lia|]. apply Z.div_lt_upper_bound; lia.
Qed.

Lemma dec_digits_digits fuel n : 0 <= n -> Forall (fun c => is_digit c = true) (dec_digits fuel n []).
Proof.
  revert n; induction fuel as [|fuel IH]; intros n Hn; [constructor|].
  rewrite dec_digits_S. pose proof (Z.mod_pos_bound n 10).
  apply Forall_app; split.
  - destruct (n <? 10); [constructor|]. apply IH. apply Z.div_pos; lia.
  - repeat constructor. unfold is_digit. lia.
Qed.

(** No leading zero, except in the text of zero itself. *)
Lemma dec_digits_lead fuel n :
  0 < n < 2 ^ Z.of_nat fuel ->
  exists d r, dec_digits fuel n [] = d :: r /\ 49 <= d <= 57.
Proof.
  revert n; induction fuel as [|fuel IH]; intros n Hn.
  { simpl in *. lia. }
  rewrite dec_digits_S. rewrite Nat2Z.inj_succ, Z.pow_succ_r in Hn by lia.
  pose proof (Z.div_mod n 10). pose proof (Z.mod_pos_bound n 10).
  destruct (Z.ltb_spec n 10).
  - rewrite Z.mod_small by lia. eexists _, _. split; [done|]. lia.
  - destruct (IH (n / 10)) as (d & r & -> & Hd).
    { split; [lia|]. apply Z.div_lt_upper_bound; lia. }
    eexists _, _. split; [done|]. done.
Qed.

Lemma log2_fuel n : 0 <= n -> n < 2 ^ Z.of_nat (S (Z.to_nat (Z.log2 n))).
Proof.
  intros Hn. rewrite Nat2Z.inj_succ, Z2Nat.id by apply Z.log2_nonneg.
  destruct (Z.eq_dec n 0) as [->|]; [done|]. apply Z.log2_spec. lia.
Qed.

Lemma nat_repr_val n : 0 <= n -> digits_val (nat_repr n) = n.
Proof. intros. apply dec_digits_val. eauto using log2_fuel. Qed.

Lemma nat_repr_digits n : 0 <= n -> Forall (fun c => is_digit c = true) (nat_repr n).
Proof. apply dec_digits_digits. Qed.

Lemma nat_repr_lead n : 0 < n -> exists d r, nat_repr n = d :: r /\ 49 <= d <= 57.
Proof. intros. apply dec_digits_lead. split; [done|]. apply log2_fuel. lia. Qed.

Lemma nat_repr_zero : nat_repr 0 = [48].
Proof. done. Qed.

(** ** Integers that print *)

Lemma dec_digits_length fuel n acc : (length (dec_digits fuel n acc) <= fuel + length acc)%nat.
Proof.
  revert n acc. induction fuel as [|fuel IH]; intros n acc; cbn [dec_digits]; [lia|].
  case_if; [cbn; lia|]. specialize (IH (n / 10) ((48 + n mod 10) :: acc)). cbn [length] in IH. lia.
Qed.

(** Non-negative integers of at most 4300 bits have at most as many digits. *)
Definition printable (z : Z) : Prop := 0 <= z < 2 ^ 4300.

Lemma printable_ok z : printable z -> int_repr_ok z = true.
Proof.
  intros [Hz Hlt]. unfold int_repr_ok, nat_repr, INT_MAX_STR_DIGITS. rewrite Z.abs_eq by done.
  apply Nat.leb_le. etransitivity; [apply dec_digits_length|]. cbn [length].
  assert (Z.log2 z < 4300); [|lia].
  destruct (Z.eq_dec z 0) as [->|]; [done|]. apply Z.log2_lt_pow2; [lia|exact Hlt].
Qed.

Lemma printable_le z w : 0 <= z <= w -> printable w -> printable z.
Proof. intros [Hz Hle] [_ Hw]. split; [exact Hz|]. by eapply Z.le_lt_trans. Qed.
