(* ===== verification/FloatFacts.v ===== *)
(** The order of the floats that are numbers: comparison follows a lexicographic key,
    so it is total and transitive, and the smaller of two is below both. *)

From S2P Require Import Prelude PyStr PyNum.
From Corelib Require Import SpecFloat.
From Stdlib Require Import Lia.

#[local] Open Scope Z_scope.

Definition is_number (f : pyfloat) : bool := match f with S754_nan => false | _ => true end.

(** The class of a float, then its exponent, then its mantissa. *)
Definition order_key (f : pyfloat) : Z * Z * Z :=
  match f with
  | S754_infinity true => (-2, 0, 0)
  | S754_finite true m e => (-1, - e, Zneg m)
  | S754_zero _ | S754_nan => (0, 0, 0)
  | S754_finite false m e => (1, e, Zpos m)
  | S754_infinity false => (2, 0, 0)
  end.

Definition key_lt (a b : Z * Z * Z) : Prop :=
  a.1.1 < b.1.1 \/ a.1.1 = b.1.1 /\ (a.1.2 < b.1.2 \/ a.1.2 = b.1.2 /\ a.2 < b.2).

Lemma key_lt_trans a b c : key_lt a b -> key_lt b c -> key_lt a c.
Proof. destruct a as [[? ?] ?], b as [[? ?] ?], c as [[? ?] ?]. unfold key_lt. cbn. lia. Qed.

Lemma key_total a b : key_lt a b \/ a = b \/ key_lt b a.
Proof.
  destruct a as [[x1 x2] x3], b as [[y1 y2] y3]. unfold key_lt. cbn.
  assert (x1 < y1 \/ y1 < x1 \/ x1 = y1) as [?|[?| ->]] by lia; [lia|lia|].
  assert (x2 < y2 \/ y2 < x2 \/ x2 = y2) as [?|[?| ->]] by lia; [lia|lia|].
  assert (x3 < y3 \/ y3 < x3 \/ x3 = y3) as [?|[?| ->]] by lia; auto; lia.
Qed.

Lemma key_irrefl a : ~ key_lt a a.
Proof. unfold key_lt. lia. Qed.

Lemma compare_key a b : is_number a = true -> is_number b = true ->
  match SFcompare a b with
  | Some Lt => key_lt (order_key a) (order_key b)
  | Some Eq => order_key a = order_key b
  | Some Gt => key_lt (order_key b) (order_key a)
  | None => False
  end.
Proof.
  intros Ha Hb. unfold key_lt, SFcompare.
  destruct a as [[]|[]| |[] m e], b as [[]|[]| |[] m' e']; try done; cbn; try lia;
    destruct (Z.compare_spec e e') as [->| |]; cbn; try lia;
    change (PosDef.Pos.compare_cont Eq m m') with (Pos.compare m m'); destruct (Pos.compare_spec m m') as [->| |]; cbn; try done; lia.
Qed.

Lemma float_ltb_key a b : is_number a = true -> is_number b = true -> float_ltb a b = true <-> key_lt (order_key a) (order_key b).
Proof.
  intros Ha Hb. pose proof (compare_key a b Ha Hb) as H. unfold float_ltb, SFltb. destruct (SFcompare a b) as [[]|]; try done.
  - rewrite H. split; [done|]. by intros ?%key_irrefl.
  - split; [done|]. intros H'. destruct (key_irrefl _ (key_lt_trans _ _ _ H H')).
Qed.

Lemma float_leb_key a b : is_number a = true -> is_number b = true -> float_leb a b = true <-> ~ key_lt (order_key b) (order_key a).
Proof.
  intros Ha Hb. pose proof (compare_key a b Ha Hb) as H. unfold float_leb, SFleb. destruct (SFcompare a b) as [[]|]; try done.
  - rewrite H. split; [|done]. intros _. apply key_irrefl.
  - split; [|done]. intros _ H'. destruct (key_irrefl _ (key_lt_trans _ _ _ H H')).
Qed.

Lemma float_ltb_number a b : float_ltb a b = true -> is_number a = true /\ is_number b = true.
Proof. by destruct a as [[]|[]| |[]], b as [[]|[]| |[]]. Qed.

Lemma float_leb_number a b : float_leb a b = true -> is_number a = true /\ is_number b = true.
Proof. by destruct a as [[]|[]| |[]], b as [[]|[]| |[]]. Qed.

Lemma finite_number f : is_finite f = true -> is_number f = true.
Proof. by destruct f. Qed.

Lemma float_leb_total a b : is_number a = true -> is_number b = true -> float_ltb b a = false -> float_leb a b = true.
Proof. intros Ha Hb Hf. apply float_leb_key; [done..|]. rewrite <-float_ltb_key by done. by rewrite Hf. Qed.

Lemma float_ltb_leb a b : float_ltb a b = true -> float_leb a b = true.
Proof.
  intros H. destruct (float_ltb_number _ _ H) as [Ha Hb]. apply float_leb_key; [done..|]. apply float_ltb_key in H; [|done..].
  intros H'. destruct (key_irrefl _ (key_lt_trans _ _ _ H H')).
Qed.

Lemma float_leb_refl a : is_number a = true -> float_leb a a = true.
Proof. intros Ha. apply float_leb_key; [done..|]. apply key_irrefl. Qed.

Lemma float_leb_trans a b c : float_leb a b = true -> float_leb b c = true -> float_leb a c = true.
Proof.
  intros H1 H2. destruct (float_leb_number _ _ H1) as [Ha Hb], (float_leb_number _ _ H2) as [_ Hc].
  apply float_leb_key in H1, H2; [|done..]. apply float_leb_key; [done..|]. intros H.
  destruct (key_total (order_key a) (order_key b)) as [H'|[H'|H']]; [|rewrite H' in *|]; try done.
  apply H2. by eapply key_lt_trans.
Qed.

Lemma float_leb_ltb_trans a b c : float_leb a b = true -> float_ltb b c = true -> float_ltb a c = true.
Proof.
  intros H1 H2. destruct (float_leb_number _ _ H1) as [Ha Hb], (float_ltb_number _ _ H2) as [_ Hc].
  apply float_leb_key in H1; [|done..]. apply float_ltb_key in H2; [|done..]. apply float_ltb_key; [done..|].
  destruct (key_total (order_key a) (order_key b)) as [H'|[H'|H']]; [by eapply key_lt_trans|by rewrite H'|done].
Qed.

Lemma float_min_below a b : is_number a = true -> is_number b = true ->
  float_leb (float_min a b) a = true /\ float_leb (float_min a b) b = true.
Proof.
  intros Ha Hb. unfold float_min. destruct (float_ltb b a) eqn:Hab.
  - split; [by apply float_ltb_leb|by apply float_leb_refl].
  - split; [by apply float_leb_refl|by apply float_leb_total].
Qed.
