(* ===== verification/Json.v ===== *)
(** Python's [json] module: the values it produces, [json.dumps] with and
    without [sort_keys], and [json.loads].

    A decoded JSON document is a Python object; the same type serves for the
    [object]-typed arguments of the payload parsers, whose [isinstance] tests
    become matches on its constructors.  Dicts keep insertion order.  The
    parser is CPython's: strict strings, [NaN] and [Infinity] accepted,
    surrogate escapes joined, the last of duplicate keys winning, and
    [ValueError] (not [JSONDecodeError]) for an integer of more than 4300
    digits.  The interpreter's recursion limit is not modelled. *)

From S2P Require Import Prelude PyStr PyNum.

#[local] Set Warnings "-register-all".

Inductive json :=
  | JNull
  | JBool (b : bool)
  | JInt (z : Z)
  | JFloat (f : pyfloat)
  | JStr (s : pystr)
  | JArr (l : list json)
  | JObj (d : list (pystr * json)).

(** ** Dicts *)

Abbreviation dict := (list (pystr * json)).

Fixpoint dict_lookup (k : pystr) (d : dict) : option json :=
  match d with
  | [] => None
  | (k', v) :: d => if str_eqb k k' then Some v else dict_lookup k d
  end.

(** [d.get(k)] *)
Definition dict_get (d : dict) (k : pystr) : json :=
  match dict_lookup k d with Some v => v | None => JNull end.

(** [k in d] *)
Definition dict_mem (d : dict) (k : pystr) : bool :=
  match dict_lookup k d with Some _ => true | None => false end.

(** [d[k] = v] *)
Fixpoint dict_set (d : dict) (k : pystr) (v : json) : dict :=
  match d with
  | [] => [(k, v)]
  | (k', v') :: d => if str_eqb k k' then (k', v) :: d else (k', v') :: dict_set d k v
  end.

(** [dict(sorted(d.items()))]: keys are distinct, so values never compare. *)
Fixpoint dict_insert_sorted (k : pystr) (v : json) (d : dict) : dict :=
  match d with
  | [] => [(k, v)]
  | (k', v') :: r => if str_ltb k k' then (k, v) :: d else (k', v') :: dict_insert_sorted k v r
  end.

Fixpoint dict_sort (d : dict) : dict :=
  match d with
  | [] => []
  | (k, v) :: d => dict_insert_sorted k v (dict_sort d)
  end.

(** [f(a)], or [None] for [None]. *)
Definition json_opt {A} (f : A -> json) (o : option A) : json :=
  match o with Some a => f a | None => JNull end.

(** ** [json.dumps] *)

Definition hex_digit (n : Z) : Z := if n <? 10 then 48 + n else 87 + n.

Definition hex4 (n : Z) : pystr :=
  [hex_digit (n / 4096 mod 16); hex_digit (n / 256 mod 16);
   hex_digit (n / 16 mod 16); hex_digit (n mod 16)].

(** [\uXXXX] *)
Definition u_escape (n : Z) : pystr := 92 :: 117 :: hex4 n.

(** One character of [py_encode_basestring_ascii]. *)
Definition escape_char (c : Z) : pystr :=
  if c =? 34 then [92; 34]
  else if c =? 92 then [92; 92]
  else if c =? 10 then [92; 110]
  else if c =? 13 then [92; 114]
  else if c =? 9 then [92; 116]
  else if c =? 12 then [92; 102]
  else if c =? 8 then [92; 98]
  else if (32 <=? c) && (c <=? 126) then [c]
  else if c <? 0x10000 then u_escape c
  else u_escape (0xD800 + (c - 0x10000) / 1024) ++ u_escape (0xDC00 + (c - 0x10000) mod 1024).

Definition dump_str (s : pystr) : pystr := 34 :: flat_map escape_char s ++ [34].

Fixpoint join (sep : pystr) (parts : list pystr) : pystr :=
  match parts with
  | [] => []
  | [p] => p
  | p :: ps => p ++ sep ++ join sep ps
  end.

(** The default item separator. *)
Definition SEP : pystr := [44; 32].

(** The text of a value whose dicts are already in output order. *)
Fixpoint dump_text (v : json) : pystr :=
  match v with
  | JNull => py "null"
  | JBool true => py "true"
  | JBool false => py "false"
  | JInt z => int_repr z
  | JFloat f => float_repr f
  | JStr s => dump_str s
  | JArr l => 91 :: join SEP (map dump_text l) ++ [93]
  | JObj d => 123 :: join SEP (map (fun '(k, v) => dump_str k ++ [58; 32] ++ dump_text v) d) ++ [125]
  end.

Fixpoint sort_keys (v : json) : json :=
  match v with
  | JArr l => JArr (map sort_keys l)
  | JObj d => JObj (dict_sort (map (fun '(k, v) => (k, sort_keys v)) d))
  | _ => v
  end.

(** Whether every integer converts to text. *)
Fixpoint ints_ok (v : json) : bool :=
  match v with
  | JInt z => int_repr_ok z
  | JArr l => forallb ints_ok l
  | JObj d => forallb (fun '(_, v) => ints_ok v) d
  | _ => true
  end.

(** [json.dumps(v)] and [json.dumps(v, sort_keys=True)] *)
Definition json_dumps (v : json) : res pystr :=
  if ints_ok v then Ok (dump_text v) else Raise ValueError.
Definition json_dumps_sorted (v : json) : res pystr :=
  if ints_ok v then Ok (dump_text (sort_keys v)) else Raise ValueError.

(** ** [json.loads] *)

Definition is_ws (c : Z) : bool := (c =? 32) || (c =? 9) || (c =? 10) || (c =? 13).

Fixpoint skip_ws (s : pystr) : pystr :=
  match s with
  | c :: r => if is_ws c then skip_ws r else s
  | [] => []
  end.

Definition hex_val (c : Z) : option Z :=
  if (48 <=? c) && (c <=? 57) then Some (c - 48)
  else if (97 <=? c) && (c <=? 102) then Some (c - 87)
  else if (65 <=? c) && (c <=? 70) then Some (c - 55)
  else None.

(** Four hex digits. *)
Definition scan_hex4 (s : pystr) : option (Z * pystr) :=
  match s with
  | a :: b :: c :: d :: r =>
      match hex_val a, hex_val b, hex_val c, hex_val d with
      | Some a, Some b, Some c, Some d => Some (a * 4096 + b * 256 + c * 16 + d, r)
      | _, _, _, _ => None
      end
  | _ => None
  end.

(** The code point of a [\uXXXX] escape and the text after it: a high
    surrogate directly followed by the escape of a low one is joined. *)
Definition scan_u (s : pystr) : option (Z * pystr) :=
  match scan_hex4 s with
  | Some (c, r) =>
      match r with
      | 92 :: 117 :: r' =>
          if is_high_surrogate c then
            match scan_hex4 r' with
            | Some (c2, r2) =>
                if is_low_surrogate c2
                then Some (0x10000 + (c - 0xD800) * 1024 + (c2 - 0xDC00), r2)
                else Some (c, r)
            | None => None
            end
          else Some (c, r)
      | _ => Some (c, r)
      end
  | None => None
  end.

Definition simple_escape (c : Z) : option Z :=
  if c =? 34 then Some 34 else if c =? 92 then Some 92 else if c =? 47 then Some 47
  else if c =? 98 then Some 8 else if c =? 102 then Some 12 else if c =? 110 then Some 10
  else if c =? 114 then Some 13 else if c =? 116 then Some 9 else None.

(** [scanstring(s, idx, strict=True)] from just after the opening quote. *)
Fixpoint scan_string (fuel : nat) (s : pystr) : res (pystr * pystr) :=
  match fuel with
  | O => Raise OutOfFuel
  | S fuel =>
      match s with
      | [] => Raise JSONDecodeError
      | c :: r =>
          if c =? 34 then Ok ([], r)
          else if c =? 92 then
            match r with
            | [] => Raise JSONDecodeError
            | e :: r' =>
                if e =? 117 then
                  match scan_u r' with
                  | Some (c, r2) => '(t, rest) ← scan_string fuel r2; Ok (c :: t, rest)
                  | None => Raise JSONDecodeError
                  end
                else
                  match simple_escape e with
                  | Some c => '(t, rest) ← scan_string fuel r'; Ok (c :: t, rest)
                  | None => Raise JSONDecodeError
                  end
            end
          else if c <? 32 then Raise JSONDecodeError
          else '(t, rest) ← scan_string fuel r; Ok (c :: t, rest)
      end
  end.

Fixpoint span_digits (s : pystr) : pystr * pystr :=
  match s with
  | c :: r => if is_digit c then let '(d, rest) := span_digits r in (c :: d, rest) else ([], s)
  | [] => ([], [])
  end.

(** The optional fraction: [.] and at least one digit. *)
Definition scan_frac (s : pystr) : option pystr * pystr :=
  match s with
  | c :: r =>
      if c =? 46 then
        match span_digits r with
        | ([], _) => (None, s)
        | (d, rest) => (Some d, rest)
        end
      else (None, s)
  | [] => (None, s)
  end.

(** The optional exponent. *)
Definition scan_exp (s : pystr) : option Z * pystr :=
  match s with
  | c :: r =>
      if (c =? 101) || (c =? 69) then
        let '(neg, r) :=
          match r with
          | c' :: r' => if c' =? 45 then (true, r') else if c' =? 43 then (false, r') else (false, r)
          | [] => (false, r)
          end in
        match span_digits r with
        | ([], _) => (None, s)
        | (d, rest) => (Some (if neg then - digits_val d else digits_val d), rest)
        end
      else (None, s)
  | [] => (None, s)
  end.

(** [_match_number] after the optional sign: an integer or a float. *)
Definition scan_unsigned (neg : bool) (s : pystr) : res (json * pystr) :=
  let '(d, r) :=
    match s with
    | c :: r => if c =? 48 then ([48], r) else span_digits s
    | [] => ([], [])
    end in
  match d with
  | [] => Raise JSONDecodeError
  | _ =>
      let '(fr, r1) := scan_frac r in
      let '(ex, r2) := scan_exp r1 in
      match fr, ex with
      | None, None =>
          if (length d <=? INT_MAX_STR_DIGITS)%nat
          then Ok (JInt (if neg then - digits_val d else digits_val d), r2)
          else Raise ValueError
      | _, _ =>
          let fd := match fr with Some fd => fd | None => [] end in
          let e := match ex with Some e => e | None => 0 end in
          Ok (JFloat (float_of_decimal neg (digits_val (d ++ fd)) (e - Z.of_nat (length fd))), r2)
      end
  end.

Definition scan_number (s : pystr) : res (json * pystr) :=
  match s with
  | c :: r => if c =? 45 then scan_unsigned true r else scan_unsigned false s
  | [] => Raise JSONDecodeError
  end.

(** The literal constants of the scanner, in its order. *)
Definition scan_const (s : pystr) : option (json * pystr) :=
  match strip_prefix (py "null") s with
  | Some r => Some (JNull, r)
  | None =>
  match strip_prefix (py "true") s with
  | Some r => Some (JBool true, r)
  | None =>
  match strip_prefix (py "false") s with
  | Some r => Some (JBool false, r)
  | None =>
  match strip_prefix (py "NaN") s with
  | Some r => Some (JFloat SpecFloat.S754_nan, r)
  | None =>
  match strip_prefix (py "Infinity") s with
  | Some r => Some (JFloat (SpecFloat.S754_infinity false), r)
  | None =>
  match strip_prefix (py "-Infinity") s with
  | Some r => Some (JFloat (SpecFloat.S754_infinity true), r)
  | None => None
  end end end end end end.

(** [scan_once] with its array and object loops. *)
Fixpoint scan_once (fuel : nat) (s : pystr) : res (json * pystr) :=
  match fuel with
  | O => Raise OutOfFuel
  | S fuel =>
      match s with
      | [] => Raise JSONDecodeError
      | c :: r =>
          if c =? 34 then '(t, rest) ← scan_string (S (length r)) r; Ok (JStr t, rest)
          else if c =? 123 then
            match skip_ws r with
            | c' :: r' =>
                if c' =? 125 then Ok (JObj [], r') else scan_members fuel (c' :: r') []
            | [] => Raise JSONDecodeError
            end
          else if c =? 91 then
            match skip_ws r with
            | c' :: r' => if c' =? 93 then Ok (JArr [], r') else scan_elems fuel (c' :: r') []
            | [] => Raise JSONDecodeError
            end
          else
            match scan_const s with
            | Some vr => Ok vr
            | None => scan_number s
            end
      end
  end
with scan_elems (fuel : nat) (s : pystr) (acc : list json) : res (json * pystr) :=
  match fuel with
  | O => Raise OutOfFuel
  | S fuel =>
      '(v, r) ← scan_once fuel s;
      match skip_ws r with
      | c :: r' =>
          if c =? 93 then Ok (JArr (acc ++ [v]), r')
          else if c =? 44 then scan_elems fuel (skip_ws r') (acc ++ [v])
          else Raise JSONDecodeError
      | [] => Raise JSONDecodeError
      end
  end
with scan_members (fuel : nat) (s : pystr) (acc : dict) : res (json * pystr) :=
  match fuel with
  | O => Raise OutOfFuel
  | S fuel =>
      match s with
      | c :: r =>
          if c =? 34 then
            '(k, r1) ← scan_string (S (length r)) r;
            match skip_ws r1 with
            | c1 :: r2 =>
                if c1 =? 58 then
                  '(v, r3) ← scan_once fuel (skip_ws r2);
                  match skip_ws r3 with
                  | c4 :: r4 =>
                      if c4 =? 125 then Ok (JObj (dict_set acc k v), r4)
                      else if c4 =? 44 then scan_members fuel (skip_ws r4) (dict_set acc k v)
                      else Raise JSONDecodeError
                  | [] => Raise JSONDecodeError
                  end
                else Raise JSONDecodeError
            | [] => Raise JSONDecodeError
            end
          else Raise JSONDecodeError
      | [] => Raise JSONDecodeError
      end
  end.

(** [json.loads(text)] *)
Definition json_loads (s : pystr) : res json :=
  match s with
  | 0xFEFF :: _ => Raise JSONDecodeError
  | _ =>
      '(v, rest) ← scan_once (2 * length s + 2) (skip_ws s);
      match skip_ws rest with
      | [] => Ok v
      | _ :: _ => Raise JSONDecodeError
      end
  end.

