(* ===== verification/JsonFacts.v ===== *)
(** Facts about the [json] model: [json.loads] undoes [json.dumps], the
    parser needs no more fuel than it is given, which exceptions it raises,
    and what every parsed document satisfies. *)

From S2P Require Import Prelude PyStr PyNum Json.

(** ** Induction over nested values *)

Section json_ind.
Context (P : json -> Prop).
Context (Hnull : P JNull) (Hbool : forall b, P (JBool b)) (Hint : forall z, P (JInt z))
  (Hfloat : forall f, P (JFloat f)) (Hstr : forall s, P (JStr s))
  (Harr : forall l, Forall P l -> P (JArr l))
  (Hobj : forall d, Forall (fun kv => P (snd kv)) d -> P (JObj d)).

Fixpoint json_nested_ind (v : json) : P v :=
  match v with
  | JNull => Hnull
  | JBool b => Hbool b
  | JInt z => Hint z
  | JFloat f => Hfloat f
  | JStr s => Hstr s
  | JArr l => Harr l ((fix go l : Forall P l :=
      match l with [] => Forall_nil_2 _ | x :: l => Forall_cons_2 _ _ _ (json_nested_ind x) (go l) end) l)
  | JObj d => Hobj d ((fix go d : Forall (fun kv => P (snd kv)) d :=
      match d with
      | [] => Forall_nil_2 _
      | (k, x) :: d => Forall_cons_2 (fun kv => P (snd kv)) (k, x) _ (json_nested_ind x) (go d)
      end) d)
  end.
End json_ind.

(** ** Well-formed strings and values *)

(** No high surrogate directly before a low one: such a pair would be read
    back as one code point. *)
Fixpoint paired (s : pystr) : bool :=
  match s with
  | c1 :: r =>
      match r with
      | c2 :: _ => negb (is_high_surrogate c1 && is_low_surrogate c2) && paired r
      | [] => true
      end
  | [] => true
  end.

Definition str_wf (s : pystr) : bool :=
  forallb (fun c => (0 <=? c) && (c <=? 0x10FFFF)) s && paired s.

Definition keys (d : dict) : list pystr := map fst d.

Fixpoint mem_str (k : pystr) (l : list pystr) : bool :=
  match l with [] => false | x :: l => str_eqb k x || mem_str k l end.
Fixpoint nodup_str (l : list pystr) : bool :=
  match l with [] => true | x :: l => negb (mem_str x l) && nodup_str l end.

#[export] Instance pyfloat_eq_dec : EqDecision pyfloat.
Proof. solve_decision. Defined.

(** The text of the float reads back as the same float.  (Python documents
    [float(repr(x)) == x]; here it is evaluated for the float at hand.) *)
Definition float_plain (f : pyfloat) : bool :=
  match scan_number (float_repr f) with
  | Ok (JFloat g, []) => bool_decide (g = f) && forallb (fun c => (32 <=? c) && (c <=? 126)) (float_repr f)
  | _ => false
  end.

(** Values that survive a round trip unchanged: well-formed strings, floats
    that read back, distinct keys in every dict. *)
Fixpoint json_plain (v : json) : bool :=
  match v with
  | JFloat f => float_plain f
  | JStr s => str_wf s
  | JArr l => forallb json_plain l
  | JObj d => nodup_str (map fst d) && forallb (fun '(k, v) => str_wf k && json_plain v) d
  | _ => true
  end.

Lemma mem_str_In k l : mem_str k l = true <-> In k l.
Proof. induction l as [|x l IH]; simpl; [done|]. rewrite orb_true_iff, str_eqb_eq, IH. firstorder congruence. Qed.

Lemma nodup_str_NoDup l : nodup_str l = true <-> List.NoDup l.
Proof.
  induction l as [|x l IH]; simpl; [split; [constructor|done]|].
  rewrite andb_true_iff, negb_true_iff, IH, <- not_true_iff_false, mem_str_In, List.NoDup_cons_iff. done.
Qed.

Lemma str_wf_cons c s : str_wf (c :: s) = true ->
  0 <= c <= 0x10FFFF /\ str_wf s = true
  /\ (is_high_surrogate c = true -> match s with c2 :: _ => is_low_surrogate c2 = false | [] => True end).
Proof.
  unfold str_wf. cbn [forallb paired]. rewrite !andb_true_iff, !Z.leb_le. intros [[Hc Hf] Hp].
  split; [done|]. rewrite Hf. destruct s as [|c2 s]; [done|].
  apply andb_true_iff in Hp as [Hp ->]. split; [done|].
  intros Hh. rewrite Hh in Hp. by apply negb_true_iff in Hp.
Qed.

Lemma scalar_str_wf s : scalar_str s -> str_wf s = true.
Proof.
  intros Hs. unfold str_wf. rewrite andb_true_iff. split.
  - apply forallb_forall. intros c Hc. eapply List.Forall_forall in Hs; [|done].
    apply is_scalar_spec in Hs. lia.
  - induction Hs as [|c s Hc Hs IH]; [done|]. simpl. destruct s as [|c2 s]; [done|].
    rewrite IH, andb_true_r. unfold is_scalar, is_surrogate, is_high_surrogate in *. lia.
Qed.

(** ** Strings read back *)

Lemma hex_val_digit n : 0 <= n < 16 -> hex_val (hex_digit n) = Some n.
Proof.
  intros. unfold hex_val, hex_digit. destruct (Z.ltb_spec n 10).
  - replace ((48 <=? 48 + n) && (48 + n <=? 57)) with true by lia. f_equal; lia.
  - replace ((48 <=? 87 + n) && (87 + n <=? 57)) with false by lia.
    replace ((97 <=? 87 + n) && (87 + n <=? 102)) with true by lia. f_equal; lia.
Qed.

Lemma scan_hex4_u n r :
  0 <= n < 65536 ->
  scan_hex4 (hex4 n ++ r) = Some (n, r).
Proof.
  intros. unfold hex4. cbn [scan_hex4 app]. rewrite !hex_val_digit by (apply Z.mod_pos_bound; lia).
  do 2 f_equal. Z.to_euclidean_division_equations. lia.
Qed.

(** The text of the rest of a string, from some character on. *)
Definition string_tail (s rest : pystr) : pystr := flat_map escape_char s ++ 34 :: rest.

Lemma string_tail_cons c s rest : string_tail (c :: s) rest = escape_char c ++ string_tail s rest.
Proof. unfold string_tail. simpl. by rewrite <- app_assoc. Qed.

(** What may follow a lone high surrogate never reads as a low one. *)
Lemma string_tail_no_low s rest r' :
  str_wf s = true -> (match s with c2 :: _ => is_low_surrogate c2 = false | [] => True end) ->
  string_tail s rest = 92 :: 117 :: r' ->
  exists c2 r2, scan_hex4 r' = Some (c2, r2) /\ is_low_surrogate c2 = false.
Proof.
  destruct s as [|c s]; [done|]. intros (Hc & Hs & _)%str_wf_cons Hlow.
  rewrite string_tail_cons. unfold escape_char.
  repeat (case_if; [cbn [app]; intros [=]; lia|]).
  case_if; rewrite <- ?app_assoc; unfold u_escape; cbn [app];
    (match goal with
     | |- _ :: _ :: ?x = _ -> _ => intros Er; assert (r' = x) as -> by (by injection Er as <-)
     end);
    (eexists _, _; rewrite scan_hex4_u; [split; [done|]|]).
  - done.
  - lia.
  - unfold is_low_surrogate. Z.to_euclidean_division_equations. lia.
  - Z.to_euclidean_division_equations. lia.
Qed.

Lemma scan_u_bmp c s rest :
  0 <= c < 65536 -> str_wf s = true ->
  (is_high_surrogate c = true -> match s with c2 :: _ => is_low_surrogate c2 = false | [] => True end) ->
  scan_u (hex4 c ++ string_tail s rest) = Some (c, string_tail s rest).
Proof.
  intros Hc Hs Hl. unfold scan_u, u_escape. cbn [app]. rewrite scan_hex4_u by done.
  destruct (string_tail s rest) as [|c1 [|c2 r']] eqn:E; [done|by repeat case_match|].
  destruct (Z.eq_dec c1 92) as [->|]; [|repeat case_match; congruence].
  destruct (Z.eq_dec c2 117) as [->|]; [|repeat case_match; congruence].
  destruct (is_high_surrogate c) eqn:Hh; [|done].
  destruct (string_tail_no_low s rest r' Hs (Hl eq_refl) E) as (c2 & r2 & -> & ->). done.
Qed.

Lemma scan_u_astral c r :
  0x10000 <= c <= 0x10FFFF ->
  scan_u (hex4 (0xD800 + (c - 0x10000) / 1024)
          ++ u_escape (0xDC00 + (c - 0x10000) mod 1024) ++ r) = Some (c, r).
Proof.
  intros Hc. unfold scan_u, u_escape. cbn [app].
  rewrite scan_hex4_u by (Z.to_euclidean_division_equations; lia).
  replace (is_high_surrogate _) with true
    by (unfold is_high_surrogate; Z.to_euclidean_division_equations; lia).
  rewrite scan_hex4_u by (Z.to_euclidean_division_equations; lia).
  replace (is_low_surrogate _) with true
    by (unfold is_low_surrogate; Z.to_euclidean_division_equations; lia).
  do 2 f_equal. Z.to_euclidean_division_equations. lia.
Qed.

Lemma scan_string_dump s rest fuel :
  str_wf s = true -> (length s < fuel)%nat ->
  scan_string fuel (string_tail s rest) = Ok (s, rest).
Proof.
  revert s; induction fuel as [|fuel IH]; intros s Hs Hf; [lia|].
  destruct s as [|c s]; [done|]. simpl in Hf.
  apply str_wf_cons in Hs as (Hc & Hs & Hl). rewrite string_tail_cons. unfold escape_char.
  repeat (case_if;
    [subst; cbn [app scan_string]; simpl (_ =? _); cbn [simple_escape];
     repeat head_if; cbn; rewrite IH by (done || lia); done|]).
  case_if.
  - change (u_escape c ++ string_tail s rest) with (92 :: 117 :: hex4 c ++ string_tail s rest).
    cbn -[scan_u hex4 string_tail]. rewrite scan_u_bmp by (done || lia). rewrite IH by (done || lia). done.
  - rewrite <- app_assoc. pose proof (scan_u_astral c (string_tail s rest)) as Hsc.
    set (h := 0xD800 + _) in *. set (t := u_escape (0xDC00 + _) ++ _) in *. clearbody h t.
    change (u_escape h ++ t) with (92 :: 117 :: hex4 h ++ t).
    cbn -[scan_u hex4 string_tail]. rewrite Hsc by lia. rewrite IH by (done || lia). done.
Qed.

(** ** Numbers read back *)

(** What follows a number must not extend it. *)
Definition num_end (rest : pystr) : bool :=
  match rest with
  | [] => true
  | c :: _ => negb (is_digit c || (c =? 46) || (c =? 101) || (c =? 69))
  end.

Lemma span_digits_app d rest :
  Forall (fun c => is_digit c = true) d -> num_end rest = true -> span_digits (d ++ rest) = (d, rest).
Proof.
  intros Hd Hr. induction Hd as [|c d Hc Hd IH]; simpl.
  - destruct rest as [|c r]; [done|]. simpl in *. destruct (is_digit c); [done|]. done.
  - by rewrite Hc, IH.
Qed.

Lemma num_end_frac rest : num_end rest = true -> scan_frac rest = (None, rest).
Proof.
  destruct rest as [|c r]; [done|]. simpl. rewrite negb_true_iff, !orb_false_iff.
  by intros [[[_ ->] _] _].
Qed.

Lemma num_end_exp rest : num_end rest = true -> scan_exp rest = (None, rest).
Proof.
  destruct rest as [|c r]; [done|]. simpl. rewrite negb_true_iff, !orb_false_iff.
  by intros [[_ ->] ->].
Qed.

(** The text of a non-negative integer: [0], or digits without leading zero. *)
Lemma nat_repr_shape n :
  0 <= n -> nat_repr n = [48] \/ exists d r, nat_repr n = d :: r /\ 49 <= d <= 57.
Proof. intros. destruct (Z.eq_dec n 0) as [->|]; [by left|right]. apply nat_repr_lead. lia. Qed.

Lemma scan_unsigned_nat neg n rest :
  0 <= n -> (length (nat_repr n) <=? INT_MAX_STR_DIGITS)%nat = true -> num_end rest = true ->
  scan_unsigned neg (nat_repr n ++ rest) = Ok (JInt (if neg then - n else n), rest).
Proof.
  intros Hn Hl Hr. pose proof (nat_repr_val n Hn) as Hv. pose proof (nat_repr_digits n Hn) as Hd.
  unfold scan_unsigned.
  destruct (nat_repr_shape n Hn) as [E|(d & r & E & Hdr)]; rewrite E in *.
  - cbn. rewrite num_end_frac, num_end_exp by done. by rewrite <- Hv.
  - rewrite span_digits_app by done. cbn [app]. replace (d =? 48) with false by lia.
    rewrite num_end_frac, num_end_exp by done. by rewrite Hl, Hv.
Qed.

Lemma scan_number_int z rest :
  int_repr_ok z = true -> num_end rest = true ->
  scan_number (int_repr z ++ rest) = Ok (JInt z, rest).
Proof.
  unfold int_repr_ok, int_repr. intros Hz Hr. destruct (Z.ltb_spec z 0).
  - cbn [app scan_number]. change (45 =? 45) with true. cbv iota.
    rewrite scan_unsigned_nat; [do 3 f_equal; lia|lia| |done].
    by rewrite Z.abs_neq in Hz by lia.
  - rewrite Z.abs_eq in Hz by lia. pose proof (scan_unsigned_nat false z rest) as Hu.
    unfold scan_number.
    destruct (nat_repr_shape z) as [E|(d & r & E & Hdr)]; [done| |]; rewrite E in *; cbn [app] in *.
    + by apply Hu.
    + replace (d =? 45) with false by lia. by apply Hu.
Qed.

(** A number that is read whole is read alike before anything that ends it. *)
Lemma span_digits_ext s d r rest :
  span_digits s = (d, r) -> num_end rest = true -> span_digits (s ++ rest) = (d, r ++ rest).
Proof.
  intros H Hr. revert d r H. induction s as [|c s IH]; intros d r H; cbn [span_digits app] in *.
  - injection H as <- <-. destruct rest as [|c r]; [done|]. cbn in *. by destruct (is_digit c).
  - destruct (is_digit c); [|by injection H as <- <-]. destruct (span_digits s) as [d' r'].
    injection H as <- <-. by rewrite (IH d' r' eq_refl).
Qed.

Lemma scan_frac_ext s fr r rest :
  scan_frac s = (fr, r) -> num_end rest = true -> scan_frac (s ++ rest) = (fr, r ++ rest).
Proof.
  intros H Hr. destruct s as [|c s]; [injection H as <- <-; by apply num_end_frac|].
  cbn [scan_frac app] in *. destruct (c =? 46); [|by injection H as <- <-].
  destruct (span_digits s) as [d r'] eqn:E. rewrite (span_digits_ext _ _ _ rest E Hr).
  destruct d; by injection H as <- <-.
Qed.

Lemma scan_exp_ext s ex rest :
  scan_exp s = (ex, []) -> num_end rest = true -> scan_exp (s ++ rest) = (ex, rest).
Proof.
  intros H Hr. destruct s as [|c s]; [injection H as <-; by apply num_end_exp|].
  cbn [scan_exp app] in *. destruct ((c =? 101) || (c =? 69)); [|done].
  assert (Hd : forall (neg : bool) s', (let '(d, r) := span_digits s' in
      match d with [] => (None, c :: s) | _ => (Some (if neg then - digits_val d else digits_val d), r) end) = (ex, []) ->
    (let '(d, r) := span_digits (s' ++ rest) in
      match d with [] => (None, c :: s ++ rest) | _ => (Some (if neg then - digits_val d else digits_val d), r) end) = (ex, rest)).
  { intros neg s' H'. destruct (span_digits s') as [d r] eqn:E. rewrite (span_digits_ext _ _ _ rest E Hr).
    destruct d; [done|]. by injection H' as <- ->. }
  destruct s as [|c' s]; [done|]. cbn [app]. destruct (c' =? 45); [by apply (Hd true s)|].
  destruct (c' =? 43); [by apply (Hd false s)|]. by apply (Hd false (c' :: s)).
Qed.

Lemma scan_unsigned_ext neg s v rest :
  scan_unsigned neg s = Ok (v, []) -> num_end rest = true -> scan_unsigned neg (s ++ rest) = Ok (v, rest).
Proof.
  intros H Hr. unfold scan_unsigned in *.
  assert (Hd : exists d r, (match s with c :: r => if c =? 48 then ([48], r) else span_digits s | [] => ([], []) end) = (d, r)
    /\ d <> [] /\ (match s ++ rest with c :: r => if c =? 48 then ([48], r) else span_digits (s ++ rest) | [] => ([], []) end) = (d, r ++ rest)).
  { destruct s as [|c s]; [done|]. cbn [app]. destruct (c =? 48); [by exists [48], s|].
    destruct (span_digits (c :: s)) as [d r] eqn:E. exists d, r. split; [done|]. split; [by destruct d|].
    by apply (span_digits_ext (c :: s)). }
  destruct Hd as (d & r & E & Hd & E'). rewrite E in H. rewrite E'. destruct d as [|d0 d]; [done|].
  destruct (scan_frac r) as [fr r1] eqn:Ef. rewrite (scan_frac_ext _ _ _ rest Ef Hr).
  destruct (scan_exp r1) as [ex r2] eqn:Ee.
  assert (r2 = []) as -> by (by repeat case_match; simplify_eq). rewrite (scan_exp_ext _ _ rest Ee Hr).
  repeat case_match; by simplify_eq.
Qed.

Lemma scan_number_ext s v rest :
  scan_number s = Ok (v, []) -> num_end rest = true -> scan_number (s ++ rest) = Ok (v, rest).
Proof.
  intros H Hr. unfold scan_number in *. destruct s as [|c s]; [done|]. cbn [app].
  destruct (c =? 45); [by apply scan_unsigned_ext|]. by apply (scan_unsigned_ext false (c :: s)).
Qed.

Lemma scan_unsigned_head neg s v r : scan_unsigned neg s = Ok (v, r) -> exists d s', s = d :: s' /\ 48 <= d <= 57.
Proof.
  unfold scan_unsigned. intros H. destruct s as [|c s]; [done|]. exists c, s. split; [done|].
  destruct (Z.eqb_spec c 48); [lia|]. cbn [span_digits] in H. destruct (is_digit c) eqn:E; [|done].
  unfold is_digit in E. lia.
Qed.

(** A number's text starts with a digit, after an optional sign. *)
Lemma scan_number_head s v r :
  scan_number s = Ok (v, r) -> exists neg d s', s = (if neg : bool then [45] else []) ++ d :: s' /\ 48 <= d <= 57.
Proof.
  unfold scan_number. intros H. destruct s as [|c s]; [done|]. destruct (Z.eqb_spec c 45) as [->|].
  - apply scan_unsigned_head in H as (d & s' & -> & Hd). by exists true, d, s'.
  - apply scan_unsigned_head in H as (d & s' & [= -> ->] & Hd). by exists false, d, s'.
Qed.

Lemma float_plain_spec f :
  float_plain f = true -> scan_number (float_repr f) = Ok (JFloat f, []) /\ Forall (fun c => 32 <= c <= 126) (float_repr f).
Proof.
  unfold float_plain. intros H. destruct (scan_number (float_repr f)) as [[[] [|]]|] eqn:E; try done.
  apply andb_true_iff in H as [->%bool_decide_eq_true Ha]. split; [done|].
  apply List.Forall_forall. intros c Hc. rewrite forallb_forall in Ha. specialize (Ha c Hc). lia.
Qed.

(** ** Values read back *)

(** The first character of a plain value's text. *)
Definition value_head (c : Z) : bool :=
  negb (is_ws c) && negb (c =? 93) && negb (c =? 125) && negb (c =? 0xFEFF).

Lemma int_repr_head z : exists c r, int_repr z = c :: r /\ (c = 45 \/ 48 <= c <= 57).
Proof.
  unfold int_repr. destruct (Z.ltb_spec z 0); [eexists _, _; split; [done|]; by left|].
  destruct (nat_repr_shape z) as [->|(d & r & -> & ?)]; [done| |]; eexists _, _; (split; [done|lia]).
Qed.

Lemma dump_head v :
  json_plain v = true -> exists c r, dump_text v = c :: r /\ value_head c = true.
Proof.
  intros Hp. destruct v as [|[]|z|f|s|l|d]; try done; try (eexists _, _; split; reflexivity).
  - destruct (int_repr_head z) as (c & r & E & Hc). simpl. rewrite E.
    eexists _, _. split; [done|]. unfold value_head, is_ws. lia.
  - apply float_plain_spec in Hp as [(neg & d & s & E & Hd)%scan_number_head _]. simpl. rewrite E.
    destruct neg; (eexists _, _; split; [done|]); [done|]. unfold value_head, is_ws. lia.
Qed.

Lemma skip_ws_head c r : is_ws c = false -> skip_ws (c :: r) = c :: r.
Proof. simpl. by intros ->. Qed.

Lemma strip_prefix_ne a p b s : (a =? b) = false -> strip_prefix (a :: p) (b :: s) = None.
Proof. simpl. by intros ->. Qed.

Lemma scan_const_digit neg d r :
  48 <= d <= 57 -> scan_const ((if neg : bool then [45] else []) ++ d :: r) = None.
Proof.
  intros Hd. unfold scan_const. eval_py. destruct neg; cbn -[Z.eqb];
  repeat match goal with
  | |- context [?a =? ?b] =>
      first [replace (a =? b) with false by lia | replace (a =? b) with true by lia]; cbv iota
  end; done.
Qed.

Lemma scan_const_int z rest : scan_const (int_repr z ++ rest) = None.
Proof.
  unfold int_repr. destruct (Z.ltb_spec z 0).
  - destruct (nat_repr_shape (- z)) as [->|(d & r & -> & ?)]; [lia| |]; apply (scan_const_digit true); lia.
  - destruct (nat_repr_shape z) as [->|(d & r & -> & ?)]; [done| |]; apply (scan_const_digit false); lia.
Qed.

Lemma length_string_tail s rest : (length s + 1 <= length (string_tail s rest))%nat.
Proof.
  unfold string_tail. induction s as [|c s IH]; simpl; [lia|].
  rewrite <- app_assoc, length_app. unfold escape_char, u_escape in *.
  repeat case_if; cbn [length app] in *; lia.
Qed.

Lemma dump_str_tail s rest : dump_str s ++ rest = 34 :: string_tail s rest.
Proof. unfold dump_str, string_tail. cbn [app]. by rewrite <- app_assoc. Qed.

(** What the parser must do on the text of [v]. *)
Definition reads_back (v : json) : Prop :=
  forall fuel rest, (length (dump_text v) <= fuel)%nat -> num_end rest = true ->
  scan_once fuel (dump_text v ++ rest) = Ok (v, rest).

Lemma value_head_ws c : value_head c = true -> is_ws c = false /\ c <> 93 /\ c <> 125.
Proof. unfold value_head. destruct (is_ws c); [done|]. lia. Qed.

(** Step over literal whitespace and separators up to the head [c]. *)
Ltac eval_ws Hws :=
  repeat (progress (
    cbn -[is_ws scan_elems scan_members scan_once app]; rewrite ?Hws;
    change (is_ws 44) with false; change (is_ws 58) with false; change (is_ws 32) with true;
    change (is_ws 93) with false; change (is_ws 125) with false; cbv iota)).

Lemma join_cons p q ps : join SEP (p :: q :: ps) = p ++ 44 :: 32 :: join SEP (q :: ps).
Proof. done. Qed.

(** A non-empty list of texts starts like its first one. *)
Lemma join_head c r ps : exists t, join SEP ((c :: r) :: ps) = c :: t.
Proof. destruct ps; cbn; eauto. Qed.

Lemma scan_elems_dump l acc fuel rest :
  l <> [] -> Forall reads_back l -> forallb json_plain l = true ->
  (length (join SEP (map dump_text l)) < fuel)%nat ->
  scan_elems fuel (join SEP (map dump_text l) ++ 93 :: rest) acc = Ok (JArr (acc ++ l), rest).
Proof.
  revert acc fuel; induction l as [|v l IH]; intros acc fuel Hne Hl Hp Hf; [done|].
  apply Forall_cons in Hl as [Hv Hl]. cbn [forallb] in Hp. apply andb_true_iff in Hp as [Hpv Hpl].
  destruct fuel as [|fuel]; [lia|]. destruct l as [|w l].
  - cbn [map join scan_elems] in *. rewrite Hv by (done || lia). done.
  - cbn [map] in *. rewrite join_cons in *. rewrite <- app_assoc. rewrite length_app in Hf.
    destruct (dump_head w) as (c & r & Hw & Hh).
    { by apply andb_true_iff in Hpl as [? _]. }
    destruct (join_head c r (map dump_text l)) as (t & Ht). rewrite <- Hw in Ht.
    rewrite Ht in *. apply value_head_ws in Hh as (Hws & _). cbn [length] in Hf.
    cbn [app scan_elems]. rewrite Hv by (done || lia). eval_ws Hws.
    cbn [app] in IH. rewrite IH by (done || (cbn [length]; lia)). by rewrite <- app_assoc.
Qed.

Lemma dict_set_fresh d k v : ~ In k (map fst d) -> dict_set d k v = d ++ [(k, v)].
Proof.
  induction d as [|[k' v'] d IH]; simpl; [done|]. intros Hk.
  destruct (str_eqb_spec k k') as [->|]; [naive_solver|]. rewrite IH; naive_solver.
Qed.

Definition member_text (kv : pystr * json) : pystr :=
  dump_str (fst kv) ++ [58; 32] ++ dump_text (snd kv).

Lemma dump_obj d : dump_text (JObj d) = 123 :: join SEP (map member_text d) ++ [125].
Proof.
  cbn [dump_text]. do 3 f_equal. induction d as [|[k v] d IH]; [done|]. cbn [map]. by rewrite IH.
Qed.

(** One turn of the object loop on the text of a member. *)
Lemma scan_members_step fuel k v c4 r4 acc :
  reads_back v -> str_wf k = true -> json_plain v = true ->
  (length (member_text (k, v)) <= fuel)%nat -> num_end (c4 :: r4) = true -> is_ws c4 = false ->
  scan_members (S fuel) (member_text (k, v) ++ c4 :: r4) acc
  = if c4 =? 125 then Ok (JObj (dict_set acc k v), r4)
    else if c4 =? 44 then scan_members fuel (skip_ws r4) (dict_set acc k v)
    else Raise JSONDecodeError.
Proof.
  intros Hv Hk Hp Hf Hr H4. unfold member_text in *. cbn [fst snd] in *.
  rewrite <- app_assoc, dump_str_tail. cbn [scan_members]. change (34 =? 34) with true. cbv iota.
  rewrite scan_string_dump; [|done|eapply Nat.lt_le_trans; [|apply le_S, length_string_tail]; lia].
  destruct (dump_head v Hp) as (c & r & Hw & Hh). apply value_head_ws in Hh as (Hws & _).
  specialize (Hv fuel (c4 :: r4)). rewrite Hw in *. cbn [app] in *. eval_ws Hws.
  rewrite Hv; [|rewrite !length_app in Hf; cbn in *; lia|done].
  cbn -[is_ws scan_members]. by rewrite H4.
Qed.

Lemma member_head kv : exists r, member_text kv = 34 :: r.
Proof. destruct kv. eexists. reflexivity. Qed.

Lemma scan_members_dump d acc fuel rest :
  d <> [] -> Forall (fun kv => reads_back (snd kv)) d ->
  forallb (fun '(k, v) => str_wf k && json_plain v) d = true ->
  List.NoDup (map fst (acc ++ d)) ->
  (length (join SEP (map member_text d)) < fuel)%nat ->
  scan_members fuel (join SEP (map member_text d) ++ 125 :: rest) acc = Ok (JObj (acc ++ d), rest).
Proof.
  revert acc fuel; induction d as [|[k v] d IH]; intros acc fuel Hne Hl Hp Hnd Hf; [done|].
  apply Forall_cons in Hl as [Hv Hl]. cbn [forallb] in Hp.
  apply andb_true_iff in Hp as [[Hk Hpv]%andb_true_iff Hpl].
  assert (Hfresh : ~ In k (map fst acc)).
  { rewrite map_app in Hnd. cbn in Hnd. apply NoDup_remove_2 in Hnd. rewrite in_app_iff in Hnd. tauto. }
  destruct fuel as [|fuel]; [lia|]. destruct d as [|kv d].
  - cbn [map join] in *. rewrite scan_members_step by (done || lia). by rewrite dict_set_fresh.
  - cbn [map] in *. rewrite join_cons in *. rewrite <- app_assoc. rewrite length_app in Hf.
    cbn [app length] in Hf |- *. rewrite scan_members_step by (done || lia).
    destruct (member_head kv) as (r & Hm).
    destruct (join_head 34 r (map member_text d)) as (t & Ht). rewrite <- Hm in Ht. rewrite Ht in *.
    rewrite dict_set_fresh by done. eval_ws Ht. cbn [app] in *.
    rewrite IH; [by rewrite <- app_assoc|done|done|done|by rewrite <- app_assoc|cbn in *; lia].
Qed.

Lemma plain_reads_back v : json_plain v = true -> ints_ok v = true -> reads_back v.
Proof.
  induction v as [|b|z|f|s|l IH|d IH] using json_nested_ind; intros Hp Hi fuel rest Hf Hr.
  - destruct fuel; [cbn in Hf; lia|done].
  - destruct fuel; [destruct b; cbn in Hf; lia|by destruct b].
  - cbn [dump_text] in *. destruct (int_repr_head z) as (c & r & E & Hc).
    destruct fuel; [rewrite E in Hf; cbn in Hf; lia|].
    pose proof (scan_const_int z rest) as Hsc. pose proof (scan_number_int z rest Hi Hr) as Hsn.
    rewrite E in *. cbn [app scan_once] in *. repeat head_if. by rewrite Hsc.
  - apply float_plain_spec in Hp as [Hs _]. pose proof (scan_number_head _ _ _ Hs) as (neg & d & s & E & Hd).
    cbn [dump_text] in *. pose proof (scan_number_ext _ _ rest Hs Hr) as Hsn.
    pose proof (scan_const_digit neg d (s ++ rest) Hd) as Hsc. rewrite E in *.
    destruct fuel; [destruct neg; cbn in Hf; lia|]. rewrite <- app_assoc in *. cbn [app] in *.
    destruct neg; cbn [app scan_once] in *; repeat head_if; by rewrite Hsc.
  - destruct fuel; [cbn in Hf; lia|]. cbn [dump_text json_plain] in *. rewrite dump_str_tail.
    cbn [scan_once]. change (34 =? 34) with true. cbv iota.
    by rewrite scan_string_dump; [|done|eapply Nat.lt_le_trans; [|apply le_S, length_string_tail]; lia].
  - destruct l as [|v l]; [destruct fuel; [cbn in Hf; lia|done]|].
    cbn [json_plain ints_ok] in Hp, Hi.
    assert (Hrb : Forall reads_back (v :: l)).
    { apply List.Forall_forall. intros x Hx. rewrite List.Forall_forall in IH.
      apply IH; [done|by eapply forallb_forall in Hp|by eapply forallb_forall in Hi]. }
    destruct fuel; [cbn in Hf; lia|].
    change (dump_text (JArr (v :: l))) with (91 :: join SEP (map dump_text (v :: l)) ++ [93]) in *.
    pose proof (scan_elems_dump (v :: l) [] fuel rest ltac:(done) Hrb Hp) as He.
    cbn [forallb] in Hp. apply andb_true_iff in Hp as [Hpv _].
    destruct (dump_head v Hpv) as (c & r & Hw & Hh).
    cbn [map] in *. destruct (join_head c r (map dump_text l)) as (t & Ht). rewrite <- Hw in Ht.
    rewrite Ht in *. cbn [length] in Hf. rewrite length_app in Hf. cbn in Hf.
    apply value_head_ws in Hh as (Hws & Hc & _).
    rewrite <- app_comm_cons, <- app_assoc. cbn [app scan_once].
    repeat head_if. cbn [skip_ws]. rewrite Hws. replace (c =? 93) with false by lia.
    apply He. cbn. lia.
  - destruct d as [|[k v] d]; [destruct fuel; [cbn in Hf; lia|done]|].
    cbn [json_plain ints_ok] in Hp, Hi. apply andb_true_iff in Hp as [Hnd Hp].
    assert (Hrb : Forall (fun kv => reads_back (snd kv)) ((k, v) :: d)).
    { apply List.Forall_forall. intros [k' x] Hx. rewrite List.Forall_forall in IH.
      eapply forallb_forall in Hp; [|done]. eapply forallb_forall in Hi; [|done].
      apply andb_true_iff in Hp as [_ Hp]. by apply (IH (k', x)). }
    destruct fuel; [cbn in Hf; lia|]. rewrite dump_obj in *.
    pose proof (scan_members_dump ((k, v) :: d) [] fuel rest ltac:(done) Hrb Hp) as He.
    specialize (He (proj1 (nodup_str_NoDup _) Hnd)).
    destruct (member_head (k, v)) as (r & Hm).
    cbn [map] in *. destruct (join_head 34 r (map member_text d)) as (t & Ht). rewrite <- Hm in Ht.
    rewrite Ht in *. cbn [length] in Hf. rewrite length_app in Hf. cbn in Hf.
    rewrite <- app_comm_cons, <- app_assoc. cbn [app scan_once].
    repeat head_if. cbn [skip_ws]. apply He. cbn. lia.
Qed.

(** [json.loads(json.dumps(v)) == v] *)
Theorem json_loads_dumps v text :
  json_plain v = true -> json_dumps v = Ok text -> json_loads text = Ok v.
Proof.
  unfold json_dumps. destruct (ints_ok v) eqn:Hi; [|done]. intros Hp [= <-].
  pose proof (plain_reads_back v Hp Hi (2 * length (dump_text v) + 2)%nat []) as Hr.
  rewrite app_nil_r in Hr. destruct (dump_head v Hp) as (c & r & Hw & Hh).
  unfold value_head in Hh. unfold json_loads. rewrite Hw in *.
  replace (skip_ws (c :: r)) with (c :: r)
    by (symmetry; apply skip_ws_head; destruct (is_ws c); [done|done]).
  rewrite Hr by (done || lia). repeat case_match; done || lia.
Qed.

(** ** Sorting keys *)

Lemma dict_insert_sorted_perm k v d : Permutation (dict_insert_sorted k v d) ((k, v) :: d).
Proof.
  induction d as [|[k' v'] d IH]; simpl; [done|]. case_if; [done|].
  rewrite IH. constructor.
Qed.

Lemma dict_sort_perm d : Permutation (dict_sort d) d.
Proof. induction d as [|[k v] d IH]; simpl; [done|]. by rewrite dict_insert_sorted_perm, IH. Qed.

Lemma forallb_perm {A} (f : A -> bool) l l' : Permutation l l' -> forallb f l = forallb f l'.
Proof. induction 1; simpl; try congruence; auto. by rewrite !andb_assoc, (andb_comm (f y)). Qed.

Lemma nodup_str_perm l l' : Permutation l l' -> nodup_str l = true -> nodup_str l' = true.
Proof. rewrite !nodup_str_NoDup. apply Permutation_NoDup. Qed.

Lemma map_snd_fst {A B C} (f : B -> C) (d : list (A * B)) :
  map fst (map (fun '(k, v) => (k, f v)) d) = map fst d.
Proof. induction d as [|[k v] d IH]; simpl; congruence. Qed.

Lemma sort_keys_plain v : json_plain v = true -> json_plain (sort_keys v) = true.
Proof.
  induction v as [| | | | |l IH|d IH] using json_nested_ind; simpl; auto; intros Hp.
  - rewrite forallb_forall in Hp |- *. intros x (y & <- & Hy)%in_map_iff.
    rewrite List.Forall_forall in IH. auto.
  - apply andb_true_iff in Hp as [Hnd Hp]. set (d' := map _ d).
    rewrite (forallb_perm _ _ _ (dict_sort_perm d')). apply andb_true_iff; split.
    + eapply nodup_str_perm; [apply Permutation_map; symmetry; apply dict_sort_perm|].
      unfold d'. by rewrite map_snd_fst.
    + rewrite forallb_forall in Hp |- *. intros [k x] ([k' y] & [= <- <-] & Hy)%in_map_iff.
      rewrite List.Forall_forall in IH. specialize (IH _ Hy). specialize (Hp _ Hy). simpl in *.
      apply andb_true_iff in Hp as [-> Hp]. auto.
Qed.

Lemma sort_keys_ints v : ints_ok (sort_keys v) = ints_ok v.
Proof.
  induction v as [| | | | |l IH|d IH] using json_nested_ind; simpl; auto.
  - induction IH as [|x l Hx IH IHl]; simpl; congruence.
  - rewrite (forallb_perm _ _ _ (dict_sort_perm _)).
    induction IH as [|[k x] d Hx IH IHd]; simpl in *; congruence.
Qed.

(** [json.loads(json.dumps(v, sort_keys=True))] is [v] with its keys sorted. *)
Theorem json_loads_dumps_sorted v text :
  json_plain v = true -> json_dumps_sorted v = Ok text -> json_loads text = Ok (sort_keys v).
Proof.
  intros Hp Hd. apply json_loads_dumps; [by apply sort_keys_plain|].
  unfold json_dumps, json_dumps_sorted in *. by rewrite sort_keys_ints.
Qed.

Lemma dict_lookup_In d k v : nodup_str (map fst d) = true -> dict_lookup k d = Some v <-> In (k, v) d.
Proof.
  induction d as [|[k' v'] d IH]; simpl; [done|]. intros [Hk Hnd]%andb_true_iff.
  apply negb_true_iff in Hk. rewrite <- not_true_iff_false, mem_str_In in Hk.
  destruct (str_eqb_spec k k') as [->|Hne].
  - split; [intros [= ->]; auto|]. intros [[= ->]|Hin]; [done|].
    destruct Hk. apply in_map_iff. by exists (k', v).
  - rewrite IH by done. split; [auto|]. intros [[= -> _]|]; done.
Qed.

Lemma dict_lookup_perm d d' k :
  Permutation d d' -> nodup_str (map fst d) = true -> dict_lookup k d = dict_lookup k d'.
Proof.
  intros Hp Hnd. assert (Hnd' : nodup_str (map fst d') = true).
  { eapply nodup_str_perm; [|done]. by apply Permutation_map. }
  apply option_eq. intros v. rewrite !dict_lookup_In by done.
  split; apply Permutation_in; [done|by symmetry].
Qed.

(** Sorting does not change what a dict maps. *)
Lemma sort_keys_lookup d k :
  nodup_str (map fst d) = true ->
  dict_lookup k (match sort_keys (JObj d) with JObj d' => d' | _ => [] end)
  = sort_keys <$> dict_lookup k d.
Proof.
  intros Hnd. simpl. rewrite <- (dict_lookup_perm _ _ _ (symmetry (dict_sort_perm _))).
  - clear Hnd. induction d as [|[k' v'] d IH]; simpl; [done|]. by destruct (str_eqb k k').
  - by rewrite map_snd_fst.
Qed.

(** ** What the parser raises, and that its fuel suffices *)

Lemma scan_hex4_len s c r : scan_hex4 s = Some (c, r) -> length s = (4 + length r)%nat /\ 0 <= c < 65536.
Proof.
  unfold scan_hex4. destruct s as [|a [|b [|d [|e s]]]]; try done.
  assert (Hx : forall x y, hex_val x = Some y -> 0 <= y < 16).
  { intros x y. unfold hex_val. repeat case_if; intros [= <-]; lia. }
  destruct (hex_val a) eqn:Ea, (hex_val b) eqn:Eb, (hex_val d) eqn:Ed, (hex_val e) eqn:Ee; try done.
  apply Hx in Ea, Eb, Ed, Ee. intros [= <- <-]. simpl. lia.
Qed.

(** Conclude from the fact [Hplain] about an unpaired escape. *)
Local Ltac keep Hplain H :=
  let A := fresh in let B := fresh in let C := fresh in
  destruct (Hplain _ _ H) as (A & B & C); refine (conj A (conj B (conj C _))); injection H as <- <-.

Lemma scan_u_shape s c r : scan_u s = Some (c, r) ->
  (exists n, r = drop n s /\ (n <= length s)%nat) /\ 0 <= c <= 0x10FFFF
  /\ (is_low_surrogate c = true -> exists r0, scan_hex4 s = Some (c, r0))
  /\ (is_high_surrogate c = true -> forall r', r = 92 :: 117 :: r' ->
        forall c2 r2, scan_hex4 r' = Some (c2, r2) -> is_low_surrogate c2 = false).
Proof.
  unfold scan_u. destruct (scan_hex4 s) as [[c1 r1]|] eqn:E1; [|done].
  pose proof (scan_hex4_len _ _ _ E1) as [Hl Hc1].
  assert (Hr1 : r1 = drop 4 s).
  { unfold scan_hex4 in E1. repeat case_match; simplify_eq. done. }
  assert (Hplain : forall cc rr, Some (c1, r1) = Some (cc, rr) ->
    (exists n, rr = drop n s /\ (n <= length s)%nat) /\ 0 <= cc <= 0x10FFFF
    /\ (is_low_surrogate cc = true -> exists r0, Some (c1, r1) = Some (cc, r0))).
  { intros cc rr [= <- <-]. split; [exists 4%nat; split; [done|lia]|]. split; [lia|]. eauto. }
  destruct r1 as [|a [|b r']] eqn:Er.
  - intros H. keep Hplain H. done.
  - intros H. assert (H' : Some (c1, [a]) = Some (c, r)) by (repeat case_match; done).
    keep Hplain H'. done.
  - destruct (decide (a = 92 /\ b = 117)) as [[-> ->]|Hab].
    + destruct (is_high_surrogate c1) eqn:Hh; [|intros H; keep Hplain H; congruence].
      destruct (scan_hex4 r') as [[c2 r2]|] eqn:E2; [|done].
      pose proof (scan_hex4_len _ _ _ E2) as [Hl2 Hc2].
      destruct (is_low_surrogate c2) eqn:Hlo.
      * intros [= <- <-]. unfold is_high_surrogate, is_low_surrogate in *. bool_z.
        split; [|split; [lia|split; lia]].
        exists 10%nat. split; [|simpl in *; lia].
        assert (r2 = drop 4 r') as -> by (unfold scan_hex4 in E2; repeat case_match; by simplify_eq).
        assert (r' = drop 6 s) as ->.
        { change 6%nat with (4 + 2)%nat. rewrite <- drop_drop, <- Hr1. done. }
        rewrite drop_drop. done.
      * intros H. keep Hplain H. intros _ r'' [= <-] c3 r3. rewrite E2. intros [= <- _]. done.
    + intros H. assert (H' : Some (c1, a :: b :: r') = Some (c, r)).
      { repeat case_match; try done; tauto. }
      keep Hplain H'. intros _ r'' Hr2. destruct Hab. by injection Hr2 as -> -> _.
Qed.

(** Outcome of a scanner: on success it consumed at least one character, and
    it raises only what [allowed] permits. *)
Definition scans {A} (s : pystr) (m : res (A * pystr)) (allowed : exn -> Prop) : Prop :=
  match m with
  | Ok (_, rest) => exists n, (1 <= n <= length s)%nat /\ rest = drop n s
  | Raise e => allowed e
  end.

Lemma scans_mono {A} s s' (m : res (A * pystr)) (P Q : exn -> Prop) n :
  scans s m P -> s = drop n s' -> (n <= length s')%nat -> (forall e, P e -> Q e) -> scans s' m Q.
Proof.
  unfold scans. intros Hm -> Hn HPQ. destruct m as [[a rest]|e]; [|auto].
  destruct Hm as (k & Hk & ->). rewrite length_drop in Hk.
  exists (n + k)%nat. split; [lia|]. by rewrite drop_drop.
Qed.

Lemma scans_map {A B} s (m : res (A * pystr)) (f : A -> B) P :
  scans s m P -> scans s ('(a, r) ← m; Ok (f a, r)) P.
Proof. unfold scans. destruct m as [[a r]|e]; done. Qed.

Lemma scan_string_scans fuel s :
  (length s < fuel)%nat -> scans s (scan_string fuel s) (eq JSONDecodeError).
Proof.
  revert s; induction fuel as [|fuel IH]; intros s Hf; [lia|].
  assert (Hrec : forall n c, (1 <= n <= length s)%nat ->
    scans s ('(t, rest) ← scan_string fuel (drop n s); Ok (c :: t, rest)) (eq JSONDecodeError)).
  { intros n c Hn. apply (scans_map _ _ (cons c)).
    eapply (scans_mono (drop n s)); [apply IH; rewrite length_drop; lia|done|lia|done]. }
  destruct s as [|c r]; [done|]. cbn [scan_string]. cbn [length] in *.
  case_if; [exists 1%nat; split; [cbn; lia|done]|].
  case_if; [|case_if; [done|]; apply (Hrec 1%nat); cbn; lia].
  destruct r as [|e r]; [done|]. cbn [length] in *. case_if.
  - destruct (scan_u r) as [[c2 r2]|] eqn:Eu; [|done].
    apply scan_u_shape in Eu as ((n & -> & Hn) & _). apply (Hrec (S (S n))). cbn; lia.
  - destruct (simple_escape e); [|done]. apply (Hrec 2%nat). cbn; lia.
Qed.

Lemma span_digits_drop s d r : span_digits s = (d, r) -> r = drop (length d) s /\ (length d <= length s)%nat.
Proof.
  revert d r; induction s as [|c s IH]; simpl; intros d r.
  - by intros [= <- <-].
  - case_if; [|intros [= <- <-]; simpl; split; [done|lia]].
    destruct (span_digits s) as [d' r'] eqn:Es. intros [= <- <-].
    destruct (IH _ _ eq_refl) as [-> ?]. simpl. split; [done|lia].
Qed.

Lemma scan_frac_drop s o r : scan_frac s = (o, r) -> exists n, r = drop n s /\ (n <= length s)%nat.
Proof.
  unfold scan_frac. destruct s as [|c s]; [intros [= <- <-]; by exists 0%nat|].
  case_if; [|intros [= <- <-]; exists 0%nat; split; [done|lia]].
  destruct (span_digits s) as [d r'] eqn:Es. apply span_digits_drop in Es as [-> Hd].
  destruct d; intros [= <- <-]; [exists 0%nat; split; [done|lia]|].
  exists (S (length (z :: d))). split; [done|cbn in *; lia].
Qed.

Lemma scan_exp_drop s o r : scan_exp s = (o, r) -> exists n, r = drop n s /\ (n <= length s)%nat.
Proof.
  unfold scan_exp. destruct s as [|c s]; [intros [= <- <-]; by exists 0%nat|].
  case_if; [|intros [= <- <-]; exists 0%nat; split; [done|lia]].
  set (p := match s with [] => _ | _ :: _ => _ end).
  assert (Hp : exists neg k, p = (neg, drop k s) /\ (k <= length s)%nat).
  { unfold p. destruct s as [|c' s']; [exists false, 0%nat; split; [done|cbn; lia]|].
    repeat case_if; [exists true, 1%nat|exists false, 1%nat|exists false, 0%nat]; split; done || (cbn; lia). }
  destruct Hp as (neg & k & -> & Hk).
  destruct (span_digits (drop k s)) as [d r'] eqn:Es. apply span_digits_drop in Es as [-> Hd].
  rewrite length_drop in Hd.
  destruct d; intros [= <- <-]; [exists 0%nat; split; [done|lia]|].
  exists (S (k + length (z :: d))). split; [cbn [drop]; by rewrite drop_drop|cbn in *; lia].
Qed.

Lemma skip_ws_drop s : exists n, skip_ws s = drop n s /\ (n <= length s)%nat.
Proof.
  induction s as [|c s (n & IH & Hn)]; [by exists 0%nat|]. simpl. case_if.
  - exists (S n). split; [done|cbn; lia].
  - exists 0%nat. split; [done|lia].
Qed.

Lemma strip_prefix_drop p s r : strip_prefix p s = Some r -> r = drop (length p) s /\ (length p <= length s)%nat.
Proof.
  revert s r; induction p as [|a p IH]; intros s r; simpl; [intros [= <-]; split; [done|lia]|].
  destruct s as [|b s]; [done|]. case_if; [|done]. intros [-> ?]%IH. cbn. split; [done|lia].
Qed.

Lemma scan_const_drop s v r : scan_const s = Some (v, r) ->
  exists n, (1 <= n <= length s)%nat /\ r = drop n s.
Proof.
  unfold scan_const. intros H.
  repeat match type of H with
  | context [strip_prefix ?p s] =>
      let E := fresh "E" in destruct (strip_prefix p s) eqn:E;
      [injection H as <- <-; apply strip_prefix_drop in E as [-> E];
       exists (length p); split; [split; [cbn; lia|done]|done]|]
  end. done.
Qed.

Definition number_errors (s : pystr) (e : exn) : Prop :=
  e = JSONDecodeError \/ (e = ValueError /\ (INT_MAX_STR_DIGITS < length s)%nat).

Lemma scan_unsigned_scans neg s : scans s (scan_unsigned neg s) (number_errors s).
Proof.
  unfold scan_unsigned.
  set (p := match s with [] => _ | _ :: _ => _ end). destruct p as [d r] eqn:Ep.
  assert (Hp : r = drop (length d) s /\ (length d <= length s)%nat).
  { subst p. destruct s as [|c s']; [by simplify_eq|]. revert Ep. case_if.
    - intros [= <- <-]. cbn. split; [done|lia].
    - apply span_digits_drop. }
  destruct Hp as [-> Hd]. destruct d as [|c d]; [by left|].
  destruct (scan_frac _) as [fr r1] eqn:Ef. apply scan_frac_drop in Ef as (n1 & -> & Hn1).
  destruct (scan_exp _) as [ex r2] eqn:Ee. apply scan_exp_drop in Ee as (n2 & -> & Hn2).
  rewrite !drop_drop. rewrite !length_drop in *. cbn [length] in *.
  assert (Hend : forall (v : json) k, (1 <= k <= length s)%nat -> scans s (Ok (v, drop k s)) (number_errors s)).
  { intros v k Hk. by exists k. }
  destruct fr, ex; try (apply Hend; lia). case_if; [apply Hend; lia|].
  right. split; [done|]. apply Nat.leb_gt in E. cbn [length] in E. lia.
Qed.

Lemma scan_number_scans s : scans s (scan_number s) (number_errors s).
Proof.
  unfold scan_number. destruct s as [|c r]; [by left|]. case_if; [|apply scan_unsigned_scans].
  eapply (scans_mono r _ _ _ _ 1); [apply scan_unsigned_scans|done|cbn; lia|].
  intros e [->|[-> ?]]; [by left|right; split; [done|cbn; lia]].
Qed.

Definition scan_errors (need fuel : nat) (s : pystr) (e : exn) : Prop :=
  number_errors s e \/ (e = OutOfFuel /\ (fuel < need)%nat).

Lemma scan_errors_drop n s e need need' fuel :
  scan_errors need fuel (drop n s) e -> (need < need')%nat -> scan_errors need' (S fuel) s e.
Proof.
  unfold scan_errors, number_errors. rewrite length_drop. intros [[->|[-> ?]]|[-> ?]] ?.
  - by left; left.
  - left; right. split; [done|lia].
  - right. split; [done|lia].
Qed.

Lemma drop_cons_inv {A} (c : A) r m s :
  drop m s = c :: r -> r = drop (S m) s /\ (S m <= length s)%nat.
Proof.
  intros H. split.
  - change r with (drop 1 (c :: r)). rewrite <- H, drop_drop. f_equal. lia.
  - apply (f_equal length) in H. rewrite length_drop in H. cbn in H. lia.
Qed.

(** A suffix of [s] that starts at least [n] characters in. *)
Definition suffix_from (n : nat) (s r : pystr) : Prop :=
  exists m, (n <= m)%nat /\ r = drop m s /\ (m <= length s)%nat.

Lemma suffix_skip_ws n s r : suffix_from n s r -> suffix_from n s (skip_ws r).
Proof.
  intros (m & Hm & -> & Hl). destruct (skip_ws_drop (drop m s)) as (k & -> & Hk).
  rewrite length_drop in Hk. rewrite drop_drop. exists (m + k)%nat. split_and!; done || lia.
Qed.

Lemma suffix_cons n s c r : suffix_from n s (c :: r) -> suffix_from (S n) s r.
Proof.
  intros (m & Hm & H & Hl). symmetry in H. apply drop_cons_inv in H as [-> ?].
  exists (S m). split_and!; done || lia.
Qed.

Lemma suffix_ok {A} n s r (a : A) P : suffix_from (S n) s r -> scans s (Ok (a, r)) P.
Proof. intros (m & Hm & -> & Hl). exists m. split; [lia|done]. Qed.

Lemma suffix_scans {A} n s r (m : res (A * pystr)) need fuel need' :
  suffix_from n s r -> scans r m (scan_errors need fuel r) -> (need < need')%nat ->
  scans s m (scan_errors need' (S fuel) s).
Proof.
  intros (k & Hk & -> & Hl) Hm Hneed. eapply scans_mono; [exact Hm|done|done|].
  intros e He. by eapply scan_errors_drop.
Qed.

Lemma suffix_len n s r : suffix_from n s r -> (length r + n <= length s)%nat.
Proof. intros (m & Hm & -> & Hl). rewrite length_drop. lia. Qed.

Lemma suffix_of_scans {A} s (m : res (A * pystr)) P a r : scans s m P -> m = Ok (a, r) -> suffix_from 1 s r.
Proof. intros H ->. destruct H as (n & Hn & ->). exists n. split_and!; done || lia. Qed.

Lemma suffix_trans n m s r t : suffix_from n s r -> suffix_from m r t -> suffix_from (n + m) s t.
Proof.
  intros (k & Hk & -> & Hl) (j & Hj & -> & Hl'). rewrite length_drop in Hl'.
  exists (k + j)%nat. rewrite drop_drop. split_and!; done || lia.
Qed.

Lemma suffix_refl s : suffix_from 0 s s.
Proof. exists 0%nat. split_and!; done || lia. Qed.

Lemma suffix_tail c r : suffix_from 1 (c :: r) r.
Proof. eapply suffix_cons, suffix_refl. Qed.

Create HintDb suffix.
#[export] Hint Resolve suffix_skip_ws suffix_cons suffix_refl suffix_tail suffix_trans : suffix.

Section scan_step.
Context (fuel : nat).
Context (IHo : forall s, scans s (scan_once fuel s) (scan_errors (2 * length s + 1) fuel s)).
Context (IHe : forall s acc, scans s (scan_elems fuel s acc) (scan_errors (2 * length s + 2) fuel s)).
Context (IHm : forall s acc, scans s (scan_members fuel s acc) (scan_errors (2 * length s + 2) fuel s)).

Lemma scans_json_error {A} s need : scans s (@Raise (A * pystr) JSONDecodeError) (scan_errors need (S fuel) s).
Proof. by left; left. Qed.

(** The body of a bracketed value, after its opening character. *)
Lemma scans_bracket close empty (loop : pystr -> res (json * pystr)) c r :
  (forall s, scans s (loop s) (scan_errors (2 * length s + 2) fuel s)) ->
  scans (c :: r)
    (match skip_ws r with
     | c' :: r' => if c' =? close then Ok (empty, r') else loop (c' :: r')
     | [] => Raise JSONDecodeError
     end) (scan_errors (2 * length (c :: r) + 1) (S fuel) (c :: r)).
Proof.
  intros Hloop. assert (Hs : suffix_from 1 (c :: r) (skip_ws r)) by auto with suffix.
  destruct (skip_ws r) as [|c' r']; [apply scans_json_error|]. case_if.
  - eapply suffix_ok, suffix_cons, Hs.
  - eapply suffix_scans; [exact Hs|apply Hloop|]. apply suffix_len in Hs. cbn in *. lia.
Qed.

Lemma scan_once_scans s : scans s (scan_once (S fuel) s) (scan_errors (2 * length s + 1) (S fuel) s).
Proof.
  destruct s as [|c r]; [apply scans_json_error|]. cbn [scan_once]. case_if.
  { apply (scans_map _ _ JStr). eapply (scans_mono r _ _ _ _ 1);
      [apply scan_string_scans; lia|done|cbn; lia|]. intros e <-. by left; left. }
  case_if; [apply (scans_bracket 125 _ (fun s => scan_members fuel s [])); auto|].
  case_if; [apply (scans_bracket 93 _ (fun s => scan_elems fuel s [])); auto|].
  destruct (scan_const (c :: r)) as [[v rest]|] eqn:Ec; [by apply scan_const_drop in Ec|].
  eapply (scans_mono (c :: r) _ _ _ _ 0); [apply scan_number_scans|done|lia|]. by left.
Qed.

Lemma scan_elems_scans s acc : scans s (scan_elems (S fuel) s acc) (scan_errors (2 * length s + 2) (S fuel) s).
Proof.
  cbn [scan_elems]. pose proof (IHo s) as Ho.
  destruct (scan_once fuel s) as [[v r]|e] eqn:Es; cbn.
  - assert (Hr : suffix_from 1 s (skip_ws r)) by eauto using suffix_of_scans with suffix.
    destruct (skip_ws r) as [|c r']; [apply scans_json_error|]. apply suffix_cons in Hr.
    case_if; [by eapply suffix_ok|]. case_if; [|apply scans_json_error].
    apply suffix_skip_ws in Hr. eapply suffix_scans; [exact Hr|apply IHe|].
    apply suffix_len in Hr. lia.
  - eapply (scan_errors_drop 0 s); [exact Ho|lia].
Qed.

Lemma scan_members_scans s acc :
  scans s (scan_members (S fuel) s acc) (scan_errors (2 * length s + 2) (S fuel) s).
Proof.
  destruct s as [|c r]; [apply scans_json_error|]. cbn [scan_members].
  case_if; [|apply scans_json_error]. pose proof (scan_string_scans (S (length r)) r) as Hk.
  destruct (scan_string (S (length r)) r) as [[k r1]|e] eqn:Ek; cbn [mbind res_bind];
    [|cbn in Hk; rewrite <- Hk by lia; apply scans_json_error].
  assert (Hr1 : suffix_from 2 (c :: r) (skip_ws r1)).
  { apply suffix_skip_ws, (suffix_trans 1 1 _ r); eauto using suffix_of_scans with suffix. }
  destruct (skip_ws r1) as [|c1 r2]; [apply scans_json_error|]. apply suffix_cons in Hr1.
  case_if; [|apply scans_json_error]. apply suffix_skip_ws in Hr1.
  pose proof (suffix_len _ _ _ Hr1) as Hl1. cbn [length] in Hl1.
  pose proof (IHo (skip_ws r2)) as Ho.
  destruct (scan_once fuel (skip_ws r2)) as [[v r3]|e] eqn:Ev; cbn [mbind res_bind].
  - assert (Hr3 : suffix_from 4 (c :: r) (skip_ws r3)).
    { apply suffix_skip_ws, (suffix_trans 3 1 _ (skip_ws r2)); eauto using suffix_of_scans. }
    destruct (skip_ws r3) as [|c4 r4]; [apply scans_json_error|]. apply suffix_cons in Hr3.
    case_if; [by eapply suffix_ok|]. case_if; [|apply scans_json_error].
    apply suffix_skip_ws in Hr3. eapply suffix_scans; [exact Hr3|apply IHm|].
    apply suffix_len in Hr3. cbn [length] in *. lia.
  - eapply suffix_scans; [exact Hr1|exact Ho|cbn [length]; lia].
Qed.
End scan_step.

Lemma scan_all_scans fuel :
  (forall s, scans s (scan_once fuel s) (scan_errors (2 * length s + 1) fuel s))
  /\ (forall s acc, scans s (scan_elems fuel s acc) (scan_errors (2 * length s + 2) fuel s))
  /\ (forall s acc, scans s (scan_members fuel s acc) (scan_errors (2 * length s + 2) fuel s)).
Proof.
  induction fuel as [|fuel (IHo & IHe & IHm)].
  - split_and!; intros s; try intros acc; right; (split; [done|lia]).
  - split_and!; auto using scan_once_scans, scan_elems_scans, scan_members_scans.
Qed.

(** [json.loads] either succeeds, or raises [JSONDecodeError], or raises
    [ValueError] on a text long enough to hold a 4301-digit integer; the
    model's fuel never runs out. *)
Theorem json_loads_errors s e : json_loads s = Raise e -> number_errors s e.
Proof.
  unfold json_loads. destruct (skip_ws_drop s) as (n & Hn & Hl).
  assert (Hs : scans (skip_ws s) (scan_once (2 * length s + 2) (skip_ws s))
    (scan_errors (2 * length (skip_ws s) + 1) (2 * length s + 2) (skip_ws s))) by apply scan_all_scans.
  assert (Hbody : ('(v, rest) ← scan_once (2 * length s + 2) (skip_ws s);
    match skip_ws rest with [] => Ok v | _ :: _ => Raise JSONDecodeError end) = Raise e -> number_errors s e).
  { rewrite Hn in *. intros [H|([v rest] & H & He)]%bind_Raise.
    - rewrite H in Hs. destruct Hs as [[->|[-> Hlen]]|[-> Hlen]]; rewrite ?length_drop in *.
      + by left.
      + right. split; [done|lia].
      + lia.
    - case_match; by simplify_eq; left. }
  intros H. destruct s as [|c s']; [auto|]. repeat case_match; auto; by simplify_eq; left.
Qed.

(** ** What a parsed document satisfies *)

(** Every string value (not key) of the document is well-formed. *)
Fixpoint strs_wf (v : json) : bool :=
  match v with
  | JStr s => str_wf s
  | JArr l => forallb strs_wf l
  | JObj d => forallb (fun '(_, v) => strs_wf v) d
  | _ => true
  end.

Lemma suffix_scalar n s r : suffix_from n s r -> scalar_str s -> scalar_str r.
Proof. intros (m & _ & -> & _). apply Forall_drop. Qed.

Lemma str_wf_cons_intro c s :
  0 <= c <= 0x10FFFF -> str_wf s = true ->
  (is_high_surrogate c = true -> match s with c2 :: _ => is_low_surrogate c2 = false | [] => True end) ->
  str_wf (c :: s) = true.
Proof.
  unfold str_wf. cbn [forallb paired]. intros Hc [-> Hp]%andb_true_iff Hh.
  replace ((0 <=? c) && (c <=? 1114111)) with true by lia. cbn.
  destruct s as [|c2 s]; [done|]. rewrite Hp, andb_true_r, negb_true_iff.
  destruct (is_high_surrogate c); [|done]. by rewrite Hh.
Qed.

(** A parsed string is well-formed, and starts with a low surrogate only when
    its text starts with the escape of that surrogate. *)
Lemma scan_string_wf fuel s t r :
  scalar_str s -> scan_string fuel s = Ok (t, r) ->
  str_wf t = true /\
  match t with
  | c2 :: _ => is_low_surrogate c2 = true ->
      exists r' r2, s = 92 :: 117 :: r' /\ scan_hex4 r' = Some (c2, r2)
  | [] => True
  end.
Proof.
  revert s t r; induction fuel as [|fuel IH]; intros s t r Hs; [done|].
  destruct s as [|c s]; [done|]. apply Forall_cons in Hs as [Hc Hs]. cbn [scan_string].
  case_if; [by intros [= <- <-]|].
  case_if; [|case_if; [done|]].
  - destruct s as [|e s]; [done|]. apply Forall_cons in Hs as [_ Hs]. case_if.
    + destruct (scan_u s) as [[c2 r2]|] eqn:Eu; [|done].
      apply scan_u_shape in Eu as ((n & -> & Hn) & Hr & Hlow & Hhigh). intros H. res_inv H.
      destruct a as [t' r']. injection H as <- <-.
      assert (Hd : scalar_str (drop n s)) by by apply Forall_drop.
      destruct (IH _ _ _ Hd B) as [Hwf Hlo]. split.
      * apply str_wf_cons_intro; [done|done|]. intros Hh. destruct t' as [|c3 t']; [done|].
        destruct (is_low_surrogate c3) eqn:E3; [|done].
        destruct (Hlo eq_refl) as (r3 & r4 & Heq & Hx). specialize (Hhigh Hh _ Heq _ _ Hx). congruence.
      * intros Hl. destruct (Hlow Hl) as (r0 & Hr0). subst. eauto.
    + destruct (simple_escape e) as [c2|] eqn:Ese; [|done]. intros H. res_inv H.
      destruct a as [t' r']. injection H as <- <-. destruct (IH _ _ _ Hs B) as [Hwf _].
      assert (0 <= c2 < 128) by (unfold simple_escape in Ese; repeat case_match; by simplify_eq).
      split; [apply str_wf_cons_intro; [lia|done|]|]; unfold is_high_surrogate, is_low_surrogate; lia.
  - intros H. res_inv H. destruct a as [t' r']. injection H as <- <-. destruct (IH _ _ _ Hs B) as [Hwf _].
    apply is_scalar_spec in Hc.
    split; [apply str_wf_cons_intro; [lia|done|]|]; unfold is_high_surrogate, is_low_surrogate; lia.
Qed.

Lemma dict_set_strs_wf d k v :
  forallb (fun '(_, v) => strs_wf v) d = true -> strs_wf v = true ->
  forallb (fun '(_, v) => strs_wf v) (dict_set d k v) = true.
Proof.
  induction d as [|[k' v'] d IH]; simpl; [by intros _ ->|]. intros [Hv' Hd]%andb_true_iff Hv.
  case_if; simpl; [by rewrite Hv, Hd|by rewrite Hv', IH].
Qed.

Lemma scan_number_wf s v r : scan_number s = Ok (v, r) -> strs_wf v = true.
Proof.
  unfold scan_number, scan_unsigned. intros H.
  repeat case_match; simplify_eq; done.
Qed.

Lemma scan_const_wf s v r : scan_const s = Some (v, r) -> strs_wf v = true.
Proof. unfold scan_const. intros H. repeat case_match; simplify_eq; done. Qed.

Lemma scan_all_wf fuel :
  (forall s v r, scalar_str s -> scan_once fuel s = Ok (v, r) -> strs_wf v = true)
  /\ (forall s acc v r, scalar_str s -> forallb strs_wf acc = true ->
        scan_elems fuel s acc = Ok (v, r) -> strs_wf v = true)
  /\ (forall s acc v r, scalar_str s -> forallb (fun '(_, v) => strs_wf v) acc = true ->
        scan_members fuel s acc = Ok (v, r) -> strs_wf v = true).
Proof.
  induction fuel as [|fuel (IHo & IHe & IHm)]; [done|].
  destruct (scan_all_scans fuel) as (Ho & _ & _). split_and!.
  - intros [|c r] v r' Hs; [done|]. cbn [scan_once].
    assert (Hws : scalar_str (skip_ws r)).
    { eapply suffix_scalar; [|exact Hs]. by apply suffix_skip_ws, suffix_tail. }
    case_if; [|repeat case_if].
    + intros H. res_inv H. destruct a as [t rest]. injection H as <- <-.
      apply Forall_cons in Hs as [_ Hs]. by apply scan_string_wf in B as [? _].
    + destruct (skip_ws r); [done|]. case_if; [by intros [= <- <-]|]. by apply IHm.
    + destruct (skip_ws r); [done|]. case_if; [by intros [= <- <-]|]. by apply IHe.
    + destruct (scan_const _) as [[v0 r0]|] eqn:Ec; [|apply scan_number_wf].
      intros [= <- <-]. by eapply scan_const_wf.
  - intros s acc v r Hs Hacc. cbn [scan_elems]. intros H. res_inv H. destruct a as [x r1].
    assert (Hx : strs_wf x = true) by eauto.
    assert (Hacc' : forallb strs_wf (acc ++ [x]) = true) by (rewrite forallb_app, Hacc; cbn; by rewrite Hx).
    assert (Hr1 : scalar_str (skip_ws r1)).
    { eapply suffix_scalar; [apply suffix_skip_ws; by eapply suffix_of_scans; [apply Ho|]|done]. }
    destruct (skip_ws r1) as [|c r2]; [done|]. apply Forall_cons in Hr1 as [_ Hr2].
    revert H. case_if; [by intros [= <- <-]|]. case_if; [|done].
    apply IHe; [|done]. eapply suffix_scalar; [apply suffix_skip_ws, suffix_refl|done].
  - intros [|c s] acc v r Hs Hacc; [done|]. cbn [scan_members]. case_if; [|done]. intros H. res_inv H.
    destruct a as [k r1]. apply Forall_cons in Hs as [_ Hs].
    assert (Hr1 : scalar_str (skip_ws r1)).
    { eapply suffix_scalar; [apply suffix_skip_ws; eapply suffix_of_scans; [|exact B]|done].
      apply scan_string_scans; lia. }
    destruct (skip_ws r1) as [|c1 r2]; [done|]. apply Forall_cons in Hr1 as [_ Hr2].
    revert H. case_if; [|done]. intros H. res_inv H. destruct a as [x r3].
    assert (Hr2' : scalar_str (skip_ws r2)) by (eapply suffix_scalar; [apply suffix_skip_ws, suffix_refl|done]).
    assert (Hacc' : forallb (fun '(_, v) => strs_wf v) (dict_set acc k x) = true).
    { apply dict_set_strs_wf; [done|]. eauto. }
    assert (Hr3 : scalar_str (skip_ws r3)).
    { eapply suffix_scalar; [apply suffix_skip_ws; by eapply suffix_of_scans; [apply Ho|]|done]. }
    destruct (skip_ws r3) as [|c4 r4]; [done|]. apply Forall_cons in Hr3 as [_ Hr4].
    revert H. case_if; [by intros [= <- <-]|]. case_if; [|done].
    apply IHm; [|done]. eapply suffix_scalar; [apply suffix_skip_ws, suffix_refl|done].
Qed.

Lemma json_loads_strs_wf s v : scalar_str s -> json_loads s = Ok v -> strs_wf v = true.
Proof.
  intros Hs H. assert (Hbody : ('(v, rest) ← scan_once (2 * length s + 2) (skip_ws s);
    match skip_ws rest with [] => Ok v | _ :: _ => Raise JSONDecodeError end) = Ok v).
  { unfold json_loads in H. destruct s; [done|]. repeat case_match; done. }
  res_inv Hbody. destruct a as [v' rest]. destruct (skip_ws rest); [|done]. injection Hbody as <-.
  eapply (proj1 (scan_all_wf _)); [|exact B].
  eapply suffix_scalar; [apply suffix_skip_ws, suffix_refl|done].
Qed.

Lemma dict_get_strs_wf d k : strs_wf (JObj d) = true -> strs_wf (dict_get d k) = true.
Proof.
  unfold dict_get. simpl. induction d as [|[k' v] d IH]; simpl; [done|].
  intros [Hv Hd]%andb_true_iff. case_if; auto.
Qed.

(** ** Dumped text is printable ASCII *)

Definition ascii_text (s : pystr) : Prop := Forall (fun c => 32 <= c <= 126) s.

Lemma ascii_scalar s : ascii_text s -> scalar_str s.
Proof. intros Hs. eapply Forall_impl; [exact Hs|]. intros c. rewrite is_scalar_spec. lia. Qed.

Lemma hex4_ascii n : ascii_text (hex4 n).
Proof.
  unfold hex4, ascii_text.
  assert (Hd : forall d, 32 <= hex_digit (d mod 16) <= 126).
  { intros d. pose proof (Z.mod_pos_bound d 16). unfold hex_digit. case_if; lia. }
  by repeat apply Forall_cons_2; [..|apply Forall_nil_2].
Qed.

Lemma u_escape_ascii n : ascii_text (u_escape n).
Proof. unfold u_escape. apply Forall_cons_2; [lia|]. apply Forall_cons_2; [lia|]. apply hex4_ascii. Qed.

Lemma escape_char_ascii c : ascii_text (escape_char c).
Proof.
  unfold escape_char. repeat case_if;
    try (apply Forall_app_2; apply u_escape_ascii); try apply u_escape_ascii;
    repeat apply Forall_cons_2; try apply Forall_nil_2; lia.
Qed.

Lemma dump_str_ascii s : ascii_text (dump_str s).
Proof.
  unfold dump_str. apply Forall_cons_2; [lia|]. apply Forall_app_2; [|apply Forall_cons_2; [lia|apply Forall_nil_2]].
  induction s as [|c s IH]; simpl; [apply Forall_nil_2|]. apply Forall_app_2; [apply escape_char_ascii|done].
Qed.

Lemma join_ascii l : Forall ascii_text l -> ascii_text (join SEP l).
Proof.
  induction 1 as [|p l Hp Hl IH]; [apply Forall_nil_2|]. destruct l; [done|]. rewrite join_cons.
  apply Forall_app_2; [done|]. apply Forall_cons_2; [lia|]. by apply Forall_cons_2; [lia|].
Qed.

Lemma int_repr_ascii z : ascii_text (int_repr z).
Proof.
  assert (Hd : forall n, 0 <= n -> ascii_text (nat_repr n)).
  { intros n Hn. eapply Forall_impl; [by apply nat_repr_digits|]. unfold is_digit. intros c. lia. }
  unfold int_repr. case_if; [apply Forall_cons_2; [lia|]|]; apply Hd; lia.
Qed.

Lemma dump_text_ascii v : json_plain v = true -> ascii_text (dump_text v).
Proof.
  induction v as [|b|z|f|s|l IH|d IH] using json_nested_ind; intros Hp.
  - unfold ascii_text. cbn. repeat apply Forall_cons_2; try apply Forall_nil_2; vm_compute; split; congruence.
  - unfold ascii_text. destruct b; cbn; repeat apply Forall_cons_2; try apply Forall_nil_2; vm_compute; split; congruence.
  - apply int_repr_ascii.
  - by apply float_plain_spec in Hp as [_ Ha].
  - apply dump_str_ascii.
  - cbn [dump_text json_plain] in *. apply Forall_cons_2; [lia|].
    apply Forall_app_2; [|apply Forall_cons_2; [lia|apply Forall_nil_2]]. apply join_ascii.
    apply List.Forall_forall. intros t (v & <- & Hv)%in_map_iff.
    rewrite List.Forall_forall in IH. rewrite forallb_forall in Hp. auto.
  - rewrite dump_obj. cbn [json_plain] in Hp. apply andb_true_iff in Hp as [_ Hp].
    apply Forall_cons_2; [lia|]. apply Forall_app_2; [|apply Forall_cons_2; [lia|apply Forall_nil_2]].
    apply join_ascii. apply List.Forall_forall. intros t ([k v] & <- & Hv)%in_map_iff.
    rewrite List.Forall_forall in IH. rewrite forallb_forall in Hp.
    specialize (Hp _ Hv). apply andb_true_iff in Hp as [_ Hp]. specialize (IH _ Hv Hp).
    unfold member_text. cbn [fst snd] in *. apply Forall_app_2; [apply dump_str_ascii|].
    apply Forall_app_2; [repeat apply Forall_cons_2; try apply Forall_nil_2; lia|done].
Qed.

Lemma json_dumps_sorted_ascii v text :
  json_plain v = true -> json_dumps_sorted v = Ok text -> ascii_text text.
Proof.
  unfold json_dumps_sorted. intros Hp. case_if; [|done]. intros [= <-].
  by apply dump_text_ascii, sort_keys_plain.
Qed.

(** ** Dicts with literal keys *)

Lemma dict_get_eq k v d : dict_get ((k, v) :: d) k = v.
Proof. unfold dict_get. simpl. by rewrite str_eqb_refl. Qed.

Lemma dict_get_ne k k' v d : str_eqb k k' = false -> dict_get ((k', v) :: d) k = dict_get d k.
Proof. unfold dict_get. simpl. by intros ->. Qed.

Lemma dict_get_nil k : dict_get [] k = JNull.
Proof. done. Qed.

(** Look literal keys up in an explicit dict. *)
Ltac eval_get :=
  repeat first [ rewrite dict_get_eq | rewrite dict_get_nil
               | rewrite dict_get_ne by (vm_compute; reflexivity) ].

Lemma dict_mem_eq k v d : dict_mem ((k, v) :: d) k = true.
Proof. unfold dict_mem. simpl. by rewrite str_eqb_refl. Qed.

Lemma dict_mem_ne k k' v d : str_eqb k k' = false -> dict_mem ((k', v) :: d) k = dict_mem d k.
Proof. unfold dict_mem. simpl. by intros ->. Qed.

Lemma dict_mem_nil k : dict_mem [] k = false.
Proof. done. Qed.

Lemma dict_mem_absent d k : dict_mem d k = false -> dict_get d k = JNull.
Proof. unfold dict_mem, dict_get. by destruct (dict_lookup k d). Qed.

(** Test literal keys for presence in an explicit dict. *)
Ltac eval_mem :=
  repeat first [ rewrite dict_mem_eq | rewrite dict_mem_nil
               | rewrite dict_mem_ne by (vm_compute; reflexivity) ].

Abbreviation plain_dict := (forallb (fun '(k, v) => str_wf k && json_plain v)).

Lemma plain_dict_cons k v d :
  str_wf k = true -> json_plain v = true -> plain_dict d = true -> plain_dict ((k, v) :: d) = true.
Proof. cbn [forallb]. by intros -> -> ->. Qed.

(** An explicit dict with literal keys, up to its non-trivial values. *)
Ltac plain_members :=
  repeat (apply plain_dict_cons; [vm_compute; reflexivity|try done|]); try reflexivity.

(** ** What a JSON file holds after it is written *)

(** The dict read back from its text with sorted keys. *)
Definition sorted_dict (d : dict) : dict := dict_sort (map (fun '(k, v) => (k, sort_keys v)) d).

Lemma dict_get_sorted d k :
  nodup_str (map fst d) = true -> dict_get (sorted_dict d) k = sort_keys (dict_get d k).
Proof.
  intros Hnd. pose proof (sort_keys_lookup d k Hnd) as H. unfold dict_get, sorted_dict.
  cbn [sort_keys] in H. rewrite H. by destruct (dict_lookup k d).
Qed.

Lemma dict_mem_sorted d k :
  nodup_str (map fst d) = true -> dict_mem (sorted_dict d) k = dict_mem d k.
Proof.
  intros Hnd. pose proof (sort_keys_lookup d k Hnd) as H. unfold dict_mem, sorted_dict.
  cbn [sort_keys] in H. rewrite H. by destruct (dict_lookup k d).
Qed.

Lemma json_loads_dumps_line v text :
  json_plain v = true -> json_dumps v = Ok text -> json_loads (text ++ [10]) = Ok v.
Proof.
  unfold json_dumps. destruct (ints_ok v) eqn:Hi; [|done]. intros Hp [= <-].
  pose proof (plain_reads_back v Hp Hi (2 * length (dump_text v ++ [10%Z]) + 2)%nat [10]) as Hr.
  destruct (dump_head v Hp) as (c & r & Hw & Hh).
  unfold value_head in Hh. unfold json_loads. rewrite Hw in *. cbn [app] in *.
  replace (skip_ws (c :: r ++ [10])) with (c :: r ++ [10])
    by (symmetry; apply skip_ws_head; destruct (is_ws c); [done|done]).
  rewrite Hr; [|cbn [length]; rewrite !length_app; cbn; lia|done].
  repeat case_match; done || lia.
Qed.

(** [json.loads(json.dumps(d, sort_keys=True) + "\n")] *)
Lemma json_loads_dumps_sorted_line d text :
  json_plain (JObj d) = true -> json_dumps_sorted (JObj d) = Ok text -> json_loads (text ++ [10]) = Ok (JObj (sorted_dict d)).
Proof.
  intros Hp Hd. apply (json_loads_dumps_line (sort_keys (JObj d))); [by apply sort_keys_plain|].
  unfold json_dumps, json_dumps_sorted in *. by rewrite sort_keys_ints.
Qed.
