(* ===== verification/Uuid.v ===== *)
(** Python's [uuid] module as the sources use it: [UUID(text)], [str(u)] and
    [uuid5], with the SHA-1 digest the latter is built on.

    A UUID is its 128-bit integer.  [uuid_of_text] follows [UUID.__init__] and
    [int(text, 16)], including the spellings the latter accepts (surrounding
    whitespace, a sign, a [0x] prefix, underscores, non-ASCII decimal digits
    of Unicode 15.0, the version of CPython 3.12). *)

From S2P Require Import Prelude PyStr PyNum Json JsonFacts.

(** ** SHA-1 *)

Definition w32 (x : Z) : Z := Z.land x 0xFFFFFFFF.
Definition rotl32 (x n : Z) : Z := w32 (Z.lor (Z.shiftl x n) (Z.shiftr x (32 - n))).

Fixpoint be_bytes (n : nat) (v : Z) : pybytes :=
  match n with
  | O => []
  | S n => Z.shiftr v (8 * Z.of_nat n) mod 256 :: be_bytes n v
  end.

Definition be_value (l : pybytes) : Z := fold_left (fun a b => a * 256 + b) l 0.

Definition sha1_pad (msg : pybytes) : pybytes :=
  let len := Z.of_nat (length msg) in
  msg ++ [0x80] ++ repeat 0 (Z.to_nat ((55 - len) mod 64)) ++ be_bytes 8 (8 * len).

Fixpoint words_of (n : nat) (l : pybytes) : list Z :=
  match n with
  | O => []
  | S n => be_value (take 4 l) :: words_of n (drop 4 l)
  end.

(** The message schedule, newest word first. *)
Fixpoint sha1_schedule (n : nat) (rw : list Z) : list Z :=
  match n with
  | O => rw
  | S n =>
      let w i := nth i rw 0 in
      sha1_schedule n
        (rotl32 (Z.lxor (Z.lxor (w 2%nat) (w 7%nat)) (Z.lxor (w 13%nat) (w 15%nat))) 1 :: rw)
  end.

Definition sha1_fk (t : Z) (b c d : Z) : Z * Z :=
  if t <? 20 then (Z.lor (Z.land b c) (Z.land (Z.lxor b 0xFFFFFFFF) d), 0x5A827999)
  else if t <? 40 then (Z.lxor (Z.lxor b c) d, 0x6ED9EBA1)
  else if t <? 60 then (Z.lor (Z.lor (Z.land b c) (Z.land b d)) (Z.land c d), 0x8F1BBCDC)
  else (Z.lxor (Z.lxor b c) d, 0xCA62C1D6).

Fixpoint sha1_rounds (t : Z) (ws : list Z) (a b c d e : Z) : Z * Z * Z * Z * Z :=
  match ws with
  | [] => (a, b, c, d, e)
  | w :: ws =>
      let '(f, k) := sha1_fk t b c d in
      sha1_rounds (t + 1) ws (w32 (rotl32 a 5 + f + e + k + w)) a (rotl32 b 30) c d
  end.

Fixpoint sha1_blocks (n : nat) (msg : pybytes) (h : Z * Z * Z * Z * Z) : Z * Z * Z * Z * Z :=
  match n with
  | O => h
  | S n =>
      let ws := rev (sha1_schedule 64 (rev (words_of 16 msg))) in
      let '(h0, h1, h2, h3, h4) := h in
      let '(a, b, c, d, e) := sha1_rounds 0 ws h0 h1 h2 h3 h4 in
      sha1_blocks n (drop 64 msg) (w32 (h0 + a), w32 (h1 + b), w32 (h2 + c), w32 (h3 + d), w32 (h4 + e))
  end.

Definition sha1 (msg : pybytes) : pybytes :=
  let p := sha1_pad msg in
  let '(a, b, c, d, e) :=
    sha1_blocks (Nat.div (length p) 64) p (0x67452301, 0xEFCDAB89, 0x98BADCFE, 0x10325476, 0xC3D2E1F0) in
  be_bytes 4 a ++ be_bytes 4 b ++ be_bytes 4 c ++ be_bytes 4 d ++ be_bytes 4 e.

Example sha1_abc : be_value (sha1 (py "abc")) = 0xa9993e364706816aba3e25717850c26c9cd0d89d.
Proof. vm_compute. reflexivity. Qed.

(** ** [uuid5] *)

Definition clear_bits (v mask : Z) : Z := Z.ldiff v mask.

(** [UUID(bytes=hash[:16], version=5).int] *)
Definition uuid_of_hash (hash : pybytes) : Z :=
  let v := be_value (take 16 hash) in
  let v := Z.lor (clear_bits v (Z.shiftl 0xc000 48)) (Z.shiftl 0x8000 48) in
  Z.lor (clear_bits v (Z.shiftl 0xf000 64)) (Z.shiftl 5 76).

(** [uuid5(namespace, name)] *)
Definition uuid5 (namespace : Z) (name : pystr) : res Z :=
  bs ← utf8_encode name; Ok (uuid_of_hash (sha1 (be_bytes 16 namespace ++ bs))).

Example uuid5_dns : uuid5 0x6ba7b8109dad11d180b400c04fd430c8 (py "python.org")
  = Ok 0x886313e13b8a53729b900c9aee199e5d.
Proof. vm_compute. reflexivity. Qed.

(** ** [str(u)] *)

Fixpoint hex_fixed (n : nat) (v : Z) : pystr :=
  match n with
  | O => []
  | S n => hex_digit (v / 16 ^ Z.of_nat n mod 16) :: hex_fixed n v
  end.

Definition uuid_str (u : Z) : pystr :=
  let h := hex_fixed 32 u in
  slice 0 8 h ++ [45] ++ slice 8 12 h ++ [45] ++ slice 12 16 h ++ [45]
  ++ slice 16 20 h ++ [45] ++ slice 20 32 h.

(** ** [UUID(text)] *)

(** [s.replace(p, "")] *)
Fixpoint remove_sub (fuel : nat) (p s : pystr) : pystr :=
  match fuel with
  | O => s
  | S fuel =>
      match strip_prefix p s with
      | Some r => remove_sub fuel p r
      | None => match s with [] => [] | c :: r => c :: remove_sub fuel p r end
      end
  end.
Definition replace_empty (p s : pystr) : pystr := remove_sub (S (length s)) p s.

Fixpoint lstrip (f : Z -> bool) (s : pystr) : pystr :=
  match s with [] => [] | c :: r => if f c then lstrip f r else s end.
(** [s.strip(chars)] *)
Definition strip (f : Z -> bool) (s : pystr) : pystr := rev (lstrip f (rev (lstrip f s))).

(** First code points of the runs of ten non-ASCII decimal digits. *)
Definition decimal_starts : list Z :=
  [0x660; 0x6f0; 0x7c0; 0x966; 0x9e6; 0xa66; 0xae6; 0xb66; 0xbe6; 0xc66; 0xce6; 0xd66; 0xde6;
   0xe50; 0xed0; 0xf20; 0x1040; 0x1090; 0x17e0; 0x1810; 0x1946; 0x19d0; 0x1a80; 0x1a90; 0x1b50;
   0x1bb0; 0x1c40; 0x1c50; 0xa620; 0xa8d0; 0xa900; 0xa9d0; 0xa9f0; 0xaa50; 0xabf0; 0xff10;
   0x104a0; 0x10d30; 0x11066; 0x110f0; 0x11136; 0x111d0; 0x112f0; 0x11450; 0x114d0; 0x11650;
   0x116c0; 0x11730; 0x118e0; 0x11950; 0x11c50; 0x11d50; 0x11da0; 0x11f50; 0x16a60; 0x16ac0;
   0x16b50; 0x1d7ce; 0x1d7d8; 0x1d7e2; 0x1d7ec; 0x1d7f6; 0x1e140; 0x1e2f0; 0x1e4f0; 0x1e950; 0x1fbf0].

Definition unicode_spaces : list Z :=
  [0x85; 0xa0; 0x1680; 0x2000; 0x2001; 0x2002; 0x2003; 0x2004; 0x2005; 0x2006; 0x2007; 0x2008;
   0x2009; 0x200a; 0x2028; 0x2029; 0x202f; 0x205f; 0x3000].

(** [_PyUnicode_TransformDecimalAndSpaceToASCII], one character. *)
Definition to_ascii (c : Z) : Z :=
  if c <? 128 then c
  else if existsb (Z.eqb c) unicode_spaces then 32
  else match find (fun s => (s <=? c) && (c <? s + 10)) decimal_starts with
       | Some s => 48 + (c - s)
       | None => 63
       end.

Definition c_isspace (c : Z) : bool := (c =? 32) || ((9 <=? c) && (c <=? 13)).

(** Hex digits with single underscores between them. *)
Fixpoint hex_run (s : pystr) (acc : Z) : option Z :=
  match s with
  | [] => Some acc
  | c :: r =>
      match hex_val c with
      | Some v => hex_run r (acc * 16 + v)
      | None =>
          if c =? 95 then
            match r with
            | c' :: r' => match hex_val c' with Some v => hex_run r' (acc * 16 + v) | None => None end
            | [] => None
            end
          else None
      end
  end.

(** [int(s, 16)] *)
Definition int_base16 (s : pystr) : option Z :=
  let s := strip c_isspace (map to_ascii s) in
  let '(neg, s) :=
    match s with
    | c :: r => if c =? 45 then (true, r) else if c =? 43 then (false, r) else (false, s)
    | [] => (false, s)
    end in
  let s :=
    match s with
    | a :: b :: r =>
        if (a =? 48) && ((b =? 120) || (b =? 88))
        then match r with c :: r' => if c =? 95 then r' else r | [] => r end
        else s
    | _ => s
    end in
  match s with
  | c :: r =>
      match hex_val c with
      | Some v => (fun z => if neg : bool then - z else z) <$> hex_run r v
      | None => None
      end
  | [] => None
  end.

(** [UUID(text)]; [None] stands for [ValueError]. *)
Definition uuid_of_text (text : pystr) : option Z :=
  let h := replace_empty (py "uuid:") (replace_empty (py "urn:") text) in
  let h := replace_empty [45] (strip (fun c => (c =? 123) || (c =? 125)) h) in
  if (length h =? 32)%nat then
    match int_base16 h with
    | Some v => if (0 <=? v) && (v <? 2 ^ 128) then Some v else None
    | None => None
    end
  else None.

(** ** [UUID(str(u)) == u] *)

Lemma hex_digit_spec n : 0 <= n < 16 ->
  (48 <= hex_digit n <= 57 \/ 97 <= hex_digit n <= 102) /\ hex_val (hex_digit n) = Some n.
Proof. intros. split; [unfold hex_digit; case_if; lia|by apply hex_val_digit]. Qed.

Definition lower_hex (c : Z) : Prop := 48 <= c <= 57 \/ 97 <= c <= 102.

Lemma hex_fixed_lower n v : Forall lower_hex (hex_fixed n v).
Proof.
  induction n as [|n IH]; simpl; constructor; [|done].
  apply hex_digit_spec. apply Z.mod_pos_bound. lia.
Qed.

Lemma hex_fixed_length n v : length (hex_fixed n v) = n.
Proof. induction n; simpl; congruence. Qed.

Lemma hex_run_fixed n v acc : 0 <= v ->
  hex_run (hex_fixed n v) acc = Some (acc * 16 ^ Z.of_nat n + v mod 16 ^ Z.of_nat n).
Proof.
  intros Hv. revert acc; induction n as [|n IH]; intros acc.
  - cbn. rewrite Z.mod_1_r. f_equal. lia.
  - cbn [hex_fixed hex_run].
    assert (Hd : 0 <= v / 16 ^ Z.of_nat n mod 16 < 16) by (apply Z.mod_pos_bound; lia).
    rewrite (proj2 (hex_digit_spec _ Hd)), IH. f_equal.
    rewrite Nat2Z.inj_succ, Z.pow_succ_r by lia.
    rewrite (Z.mul_comm 16), Z.rem_mul_r by lia. lia.
Qed.

Lemma replace_empty_absent p s : p <> [] -> (exists c, In c p /\ ~ In c s) -> replace_empty p s = s.
Proof.
  intros Hp (c & Hcp & Hcs). unfold replace_empty.
  assert (Hn : forall r, ~ In c r -> strip_prefix p r = None).
  { clear Hcs s Hp. induction p as [|a p IH]; [done|]. intros [|b r] Hr; [done|]. simpl.
    case_if; [subst|done]. destruct Hcp as [->|Hcp]; [exfalso; apply Hr; by left|].
    apply IH; [done|]. intros ?. apply Hr. by right. }
  generalize (S (length s)). intros fuel. revert s Hcs. induction fuel as [|fuel IH]; intros s Hcs; [done|].
  simpl. rewrite Hn by done. destruct s as [|x s]; [done|]. f_equal. apply IH.
  intros ?. apply Hcs. by right.
Qed.

Lemma remove_char_skip c s fuel :
  (length s < fuel)%nat -> remove_sub fuel [c] s = List.filter (fun x => negb (c =? x)) s.
Proof.
  revert s; induction fuel as [|fuel IH]; intros s Hf; [lia|]. destruct s as [|x s]; [done|].
  cbn [length] in Hf. simpl. destruct (c =? x); simpl; [|f_equal]; apply IH; lia.
Qed.

Lemma strip_none f s : Forall (fun c => f c = false) s -> strip f s = s.
Proof.
  intros Hs. assert (Hl : forall l, Forall (fun c => f c = false) l -> lstrip f l = l).
  { intros [|c l]; [done|]. intros [Hc _]%Forall_cons. simpl. by rewrite Hc. }
  unfold strip. rewrite (Hl s) by done. rewrite Hl by by apply Forall_rev. apply rev_involutive.
Qed.

Lemma lower_hex_filter s : Forall lower_hex s -> List.filter (fun x => negb (45 =? x)) s = s.
Proof.
  induction 1 as [|c s Hc Hs IH]; [done|]. unfold lower_hex in Hc. cbn [List.filter].
  replace (45 =? c) with false by lia. cbn [negb]. by rewrite IH.
Qed.

Lemma pow_16_32 : 16 ^ Z.of_nat 32 = 2 ^ 128.
Proof. vm_compute. reflexivity. Qed.

Lemma int_base16_digits hs u :
  Forall lower_hex hs -> hs <> [] -> hex_run hs 0 = Some u -> int_base16 hs = Some u.
Proof.
  intros Hlow Hne Hrun. unfold int_base16.
  assert (Hm : map to_ascii hs = hs).
  { clear Hrun Hne. induction Hlow as [|c s Hc Hs IH]; [done|]. cbn [map]. rewrite IH. f_equal.
    unfold to_ascii, lower_hex in *. by replace (c <? 128) with true by lia. }
  rewrite Hm, strip_none; cycle 1.
  { eapply Forall_impl; [exact Hlow|]. unfold lower_hex, c_isspace. intros c. lia. }
  destruct hs as [|a r]; [done|]. apply Forall_cons in Hlow as [Ha Hr]. unfold lower_hex in *.
  replace (a =? 45) with false by lia. replace (a =? 43) with false by lia.
  assert (Hx : match r with
    | b :: r' => if (a =? 48) && ((b =? 120) || (b =? 88))
        then match r' with c :: r'' => if c =? 95 then r'' else r' | [] => r' end else a :: r
    | [] => a :: r end = a :: r).
  { destruct r as [|b r']; [done|]. apply Forall_cons in Hr as [Hb _].
    replace ((b =? 120) || (b =? 88)) with false by lia. by rewrite andb_false_r. }
  rewrite Hx. cbn [hex_run] in Hrun.
  destruct (hex_val a) as [v|] eqn:Ev; [change (0 * 16 + v) with v in Hrun; by rewrite Hrun|].
  by replace (a =? 95) with false in Hrun by lia.
Qed.

Lemma int_base16_fixed u : 0 <= u < 2 ^ 128 -> int_base16 (hex_fixed 32 u) = Some u.
Proof.
  intros Hu. apply int_base16_digits; [apply hex_fixed_lower|done|].
  rewrite hex_run_fixed, pow_16_32, Z.mul_0_l, Z.add_0_l, Z.mod_small by lia. done.
Qed.

Lemma uuid_of_text_str u : 0 <= u < 2 ^ 128 -> uuid_of_text (uuid_str u) = Some u.
Proof.
  intros Hu. pose proof (hex_fixed_lower 32 u) as Hlow. pose proof (hex_fixed_length 32 u) as Hlen.
  assert (Hin : forall c, In c (uuid_str u) -> c = 45 \/ lower_hex c).
  { unfold uuid_str, slice. intros c. rewrite !in_app_iff. cbn [In].
    assert (Hs : forall a b, In c (take a (drop b (hex_fixed 32 u))) -> lower_hex c).
    { intros a b Hc. eapply List.Forall_forall; [|exact Hc]. by apply Forall_take, Forall_drop. }
    intros [H|[[H|[]]|[H|[[H|[]]|[H|[[H|[]]|[H|[[H|[]]|H]]]]]]]]; eauto. }
  assert (Hf : List.filter (fun x => negb (45 =? x)) (uuid_str u) = hex_fixed 32 u).
  { unfold uuid_str. rewrite !List.filter_app, !(lower_hex_filter (slice _ _ _)) by by apply Forall_take, Forall_drop.
    cbn [List.filter Z.eqb negb app].
    rewrite <- (slice_full (hex_fixed 32 u)) at 6. rewrite Hlen.
    rewrite <- (slice_app 0 8 32), <- (slice_app 8 12 32), <- (slice_app 12 16 32), <- (slice_app 16 20 32) by lia.
    done. }
  assert (Hcolon : forall p, p <> [] -> In 58 p -> replace_empty p (uuid_str u) = uuid_str u).
  { intros p Hp Hc. apply replace_empty_absent; [done|]. exists 58. split; [done|].
    intros [|]%Hin; unfold lower_hex in *; lia. }
  unfold uuid_of_text. rewrite !Hcolon; try done; [|vm_compute; tauto..].
  rewrite strip_none; [|apply List.Forall_forall; intros c [->|Hc]%Hin; [done|unfold lower_hex in *; lia]].
  unfold replace_empty. rewrite remove_char_skip, Hf, Hlen by lia. cbn [Nat.eqb].
  rewrite int_base16_fixed by done. by replace ((0 <=? u) && (u <? 2 ^ 128)) with true by lia.
Qed.
