(* ===== verification/AuthorityRow.v ===== *)
(** The lifecycle authority row and its payload codec
    ([src/lubko/lifecycle_authority.py]): the row's sections, their
    validation, canonical serialization within the byte bound, strict parsing
    of version 2, and the pure part of the version 1 migration. *)

From S2P Require Import Prelude PyStr PyNum Json JsonFacts Uuid.

#[local] Arguments py : simpl never.

(** ** Data *)

Record AuthorityOwner := mkOwner {
  ow_pid : Z;
  ow_start_time_ticks : Z;
  ow_boot_id : pystr;
}.

Record SpawnObligation := mkSpawn {
  sp_token : pystr;
  sp_commit : pystr;
  sp_creator_pid : Z;
  sp_creator_start_time_ticks : Z;
  sp_boot_id : option pystr;
  sp_pid : option Z;
  sp_start_time_ticks : option Z;
  sp_parent_death_signal : bool;
}.

Record WorkerRecord := mkWorker {
  wk_token : pystr;
  wk_commit : pystr;
  wk_pid : Z;
  wk_pgid : Z;
  wk_sid : Z;
  wk_start_time_ticks : Z;
  wk_worker_id : pystr;
}.

Record AuthorityRow := mkRow {
  row_server : pystr;
  row_epoch : Z;
  row_generation : Z;
  row_owner : option AuthorityOwner;
  row_spawn : option SpawnObligation;
  row_worker : option WorkerRecord;
}.

Record AuthorityClaim := mkClaim {
  cl_server : pystr;
  cl_epoch : Z;
  cl_pid : Z;
  cl_start_time_ticks : Z;
  cl_boot_id : pystr;
}.

Record V1LegacyEvidence := mkEvidence {
  ev_live_worker : option WorkerRecord;
  ev_worker_ambiguous : bool;
  ev_spawn : option SpawnObligation;
  ev_spawn_ambiguous : bool;
}.

#[export] Instance owner_eq_dec : EqDecision AuthorityOwner.
Proof. solve_decision. Defined.
#[export] Instance spawn_eq_dec : EqDecision SpawnObligation.
Proof. solve_decision. Defined.
#[export] Instance worker_eq_dec : EqDecision WorkerRecord.
Proof. solve_decision. Defined.
#[export] Instance claim_eq_dec : EqDecision AuthorityClaim.
Proof. solve_decision. Defined.
#[export] Instance row_eq_dec : EqDecision AuthorityRow.
Proof. solve_decision. Defined.

(** ** Constants *)

Definition AUTHORITY_TYPE : pystr := py "lifecycle_authority".
Definition AUTHORITY_VERSION : Z := 2.
Definition LEGACY_AUTHORITY_VERSION : Z := 1.
Definition AUTHORITY_MAX_BYTES : Z := 4096.
Definition AUTHORITY_NAMESPACE : Z := 0x24b16c6372104b879bc609583150835d.

(** ** Python comparisons on decoded values *)

(** [v == s] for a string [s]. *)
Definition json_eq_str (v : json) (s : pystr) : bool :=
  match v with JStr t => str_eqb t s | _ => false end.

(** [v == n] for an integer [n]: a float or a bool can equal an integer. *)
Definition json_eq_int (v : json) (n : Z) : bool :=
  match v with
  | JInt z => z =? n
  | JBool b => (if b then 1 else 0) =? n
  | JFloat f => float_eq_int f n
  | _ => false
  end.

Definition is_bool (v : json) : bool := match v with JBool _ => true | _ => false end.

(** ** Field validation *)

Definition _require_server_identity (value : json) : res pystr :=
  match value with
  | JStr (c :: s) => Ok (c :: s)
  | _ => Raise AuthorityError
  end.

Definition authority_row_id (server : pystr) : res Z :=
  validated_server ← _require_server_identity (JStr server);
  uuid5 AUTHORITY_NAMESPACE validated_server.

Definition _check_non_negative_int (value : json) : res Z :=
  match value with
  | JInt z => if z <? 0 then Raise AuthorityError else Ok z
  | _ => Raise AuthorityError
  end.

Definition _check_positive_int (value : json) : res Z :=
  match value with
  | JInt z => if z <=? 0 then Raise AuthorityError else Ok z
  | _ => Raise AuthorityError
  end.

(** [if not isinstance(v, str) or not v: raise AuthorityError] *)
Definition check_nonempty_str (value : json) : res pystr :=
  match value with
  | JStr (c :: s) => Ok (c :: s)
  | _ => Raise AuthorityError
  end.

(** [None] when the value is null, otherwise the checked value. *)
Definition check_optional {A} (check : json -> res A) (value : json) : res (option A) :=
  match value with
  | JNull => Ok None
  | _ => a ← check value; Ok (Some a)
  end.

(** ** Owner section *)

Definition _parse_owner (raw : json) : res (option AuthorityOwner) :=
  match raw with
  | JNull => Ok None
  | JObj d =>
      pid ← _check_positive_int (dict_get d (py "pid"));
      ticks ← _check_non_negative_int (dict_get d (py "start_time_ticks"));
      boot_id ← check_nonempty_str (dict_get d (py "boot_id"));
      Ok (Some (mkOwner pid ticks boot_id))
  | _ => Raise AuthorityError
  end.

Definition owner_mapping (o : AuthorityOwner) : json :=
  JObj [(py "pid", JInt (ow_pid o)); (py "start_time_ticks", JInt (ow_start_time_ticks o));
        (py "boot_id", JStr (ow_boot_id o))].

(** ** Spawn section *)

Definition _build_spawn_mapping (spawn : option SpawnObligation) : res json :=
  match spawn with
  | None => Ok JNull
  | Some sp =>
      token ← check_nonempty_str (JStr (sp_token sp));
      commit ← check_nonempty_str (JStr (sp_commit sp));
      creator_pid ← _check_non_negative_int (JInt (sp_creator_pid sp));
      creator_ticks ← _check_non_negative_int (JInt (sp_creator_start_time_ticks sp));
      boot_id ← check_optional check_nonempty_str (json_opt JStr (sp_boot_id sp));
      pid ← check_optional _check_non_negative_int (json_opt JInt (sp_pid sp));
      ticks ← check_optional _check_non_negative_int (json_opt JInt (sp_start_time_ticks sp));
      Ok (JObj [(py "token", JStr token); (py "commit", JStr commit);
                (py "creator_pid", JInt creator_pid);
                (py "creator_start_time_ticks", JInt creator_ticks);
                (py "boot_id", json_opt JStr boot_id); (py "pid", json_opt JInt pid);
                (py "start_time_ticks", json_opt JInt ticks);
                (py "parent_death_signal", JBool (sp_parent_death_signal sp))])
  end.

Definition _parse_spawn (raw : json) : res (option SpawnObligation) :=
  match raw with
  | JNull => Ok None
  | JObj d =>
      token ← check_nonempty_str (dict_get d (py "token"));
      commit ← check_nonempty_str (dict_get d (py "commit"));
      creator_pid ← _check_non_negative_int (dict_get d (py "creator_pid"));
      creator_ticks ← _check_non_negative_int (dict_get d (py "creator_start_time_ticks"));
      boot_id ← check_optional check_nonempty_str (dict_get d (py "boot_id"));
      pid ← check_optional _check_non_negative_int (dict_get d (py "pid"));
      ticks ← check_optional _check_non_negative_int (dict_get d (py "start_time_ticks"));
      match dict_get d (py "parent_death_signal") with
      | JBool flag =>
          Ok (Some (mkSpawn token commit creator_pid creator_ticks boot_id pid ticks flag))
      | _ => Raise AuthorityError
      end
  | _ => Raise AuthorityError
  end.

(** ** Worker section *)

Definition _build_worker_mapping (worker : option WorkerRecord) : res json :=
  match worker with
  | None => Ok JNull
  | Some wk =>
      token ← check_nonempty_str (JStr (wk_token wk));
      commit ← check_nonempty_str (JStr (wk_commit wk));
      worker_id ← check_nonempty_str (JStr (wk_worker_id wk));
      pid ← _check_positive_int (JInt (wk_pid wk));
      pgid ← _check_non_negative_int (JInt (wk_pgid wk));
      sid ← _check_non_negative_int (JInt (wk_sid wk));
      ticks ← _check_non_negative_int (JInt (wk_start_time_ticks wk));
      Ok (JObj [(py "token", JStr token); (py "commit", JStr commit); (py "pid", JInt pid);
                (py "pgid", JInt pgid); (py "sid", JInt sid);
                (py "start_time_ticks", JInt ticks); (py "worker_id", JStr worker_id)])
  end.

Definition _parse_worker (raw : json) : res (option WorkerRecord) :=
  match raw with
  | JNull => Ok None
  | JObj d =>
      token ← check_nonempty_str (dict_get d (py "token"));
      commit ← check_nonempty_str (dict_get d (py "commit"));
      worker_id ← check_nonempty_str (dict_get d (py "worker_id"));
      pid ← _check_positive_int (dict_get d (py "pid"));
      pgid ← _check_non_negative_int (dict_get d (py "pgid"));
      sid ← _check_non_negative_int (dict_get d (py "sid"));
      ticks ← _check_non_negative_int (dict_get d (py "start_time_ticks"));
      Ok (Some (mkWorker token commit pid pgid sid ticks worker_id))
  | _ => Raise AuthorityError
  end.

(** ** The whole payload *)

Definition build_authority_payload (server : pystr) (epoch generation : Z)
    (owner : option AuthorityOwner) : res dict :=
  validated_server ← _require_server_identity (JStr server);
  epoch ← _check_non_negative_int (JInt epoch);
  generation ← _check_non_negative_int (JInt generation);
  owner_map ←
    match owner with
    | None => Ok JNull
    | Some o =>
        parsed ← _parse_owner (owner_mapping o);
        match parsed with
        | None => Raise AuthorityError
        | Some p => Ok (owner_mapping p)
        end
    end;
  Ok [(py "v", JInt AUTHORITY_VERSION); (py "type", JStr AUTHORITY_TYPE);
      (py "server", JStr validated_server); (py "epoch", JInt epoch);
      (py "generation", JInt generation); (py "owner", owner_map);
      (py "spawn", JNull); (py "worker", JNull)].

Definition serialize_authority_payload (payload : dict) : res pystr :=
  text ← json_dumps_sorted (JObj payload);
  n ← utf8_byte_length text;
  if AUTHORITY_MAX_BYTES <? n then Raise AuthorityError else Ok text.

Definition canonical_row_text (row : AuthorityRow) : res pystr :=
  payload ← build_authority_payload (row_server row) (row_epoch row) (row_generation row) (row_owner row);
  spawn ← _build_spawn_mapping (row_spawn row);
  let payload := dict_set payload (py "spawn") spawn in
  worker ← _build_worker_mapping (row_worker row);
  let payload := dict_set payload (py "worker") worker in
  serialize_authority_payload payload.

(** Decode stored text, or pass an already decoded value through. *)
Definition decode_bounded (data : json) : res json :=
  match data with
  | JStr text =>
      n ← utf8_byte_length text;
      if AUTHORITY_MAX_BYTES <? n then Raise AuthorityError
      else catch (json_loads text) JSONDecodeError (Raise AuthorityError)
  | _ => Ok data
  end.

(** The fields shared by both versions, after the version check. *)
Definition parse_sections (d : dict) (server : pystr) : res AuthorityRow :=
  epoch ← _check_non_negative_int (dict_get d (py "epoch"));
  generation ← _check_non_negative_int (dict_get d (py "generation"));
  owner ← _parse_owner (dict_get d (py "owner"));
  spawn ← _parse_spawn (dict_get d (py "spawn"));
  worker ← _parse_worker (dict_get d (py "worker"));
  match spawn, worker with
  | Some _, Some _ => Raise AuthorityError
  | _, _ => Ok (mkRow server epoch generation owner spawn worker)
  end.

Definition parse_authority_payload (data : json) (server : pystr) : res AuthorityRow :=
  data ← decode_bounded data;
  match data with
  | JObj d =>
      let version := dict_get d (py "v") in
      if negb (json_eq_int version AUTHORITY_VERSION) || is_bool version then Raise AuthorityError
      else if negb (json_eq_str (dict_get d (py "type")) AUTHORITY_TYPE) then Raise AuthorityError
      else if negb (json_eq_str (dict_get d (py "server")) server) then Raise AuthorityError
      else if negb (dict_mem d (py "spawn")) || negb (dict_mem d (py "worker")) then Raise AuthorityError
      else parse_sections d server
  | _ => Raise AuthorityError
  end.

Definition _neutral_payload (server : pystr) : res pystr :=
  s ← _require_server_identity (JStr server);
  canonical_row_text (mkRow s 0 0 None None None).

(** ** Version 1 *)

Definition _parse_v1_payload (data : json) (server : pystr) : res AuthorityRow :=
  data ← decode_bounded data;
  match data with
  | JObj d =>
      let version := dict_get d (py "v") in
      if negb (json_eq_int version LEGACY_AUTHORITY_VERSION) || is_bool version then Raise AuthorityError
      else if negb (json_eq_str (dict_get d (py "type")) AUTHORITY_TYPE) then Raise AuthorityError
      else if negb (json_eq_str (dict_get d (py "server")) server) then Raise AuthorityError
      else parse_sections d server
  | _ => Raise AuthorityError
  end.

Definition _check_migration_evidence (proven : V1LegacyEvidence) : res unit :=
  if ev_worker_ambiguous proven || ev_spawn_ambiguous proven then Raise AuthorityError
  else match ev_live_worker proven, ev_spawn proven with
       | Some _, Some _ => Raise AuthorityError
       | _, _ => Ok tt
       end.

Definition opt_or {A} (a b : option A) : option A := match a with Some _ => a | None => b end.

(** Both present and different. *)
Definition disagree {A} `{EqDecision A} (a b : option A) : bool :=
  match a, b with Some x, Some y => negb (bool_decide (x = y)) | _, _ => false end.

Definition _resolve_migration_sections (legacy : AuthorityRow) (proven : V1LegacyEvidence)
    : res (option SpawnObligation * option WorkerRecord) :=
  let spawn := opt_or (row_spawn legacy) (ev_spawn proven) in
  let worker := opt_or (row_worker legacy) (ev_live_worker proven) in
  if disagree (row_spawn legacy) (ev_spawn proven) then Raise AuthorityError
  else if disagree (row_worker legacy) (ev_live_worker proven) then Raise AuthorityError
  else match spawn, worker with
       | Some _, Some _ => Raise AuthorityError
       | _, _ => Ok (spawn, worker)
       end.

(** ** Validity *)

(** What every stored row satisfies, section by section. *)
Definition owner_ok (o : AuthorityOwner) : Prop :=
  0 < ow_pid o /\ 0 <= ow_start_time_ticks o /\ ow_boot_id o <> [] /\ str_wf (ow_boot_id o) = true.

Definition opt_all {A} (P : A -> Prop) (o : option A) : Prop :=
  match o with Some a => P a | None => True end.

Definition spawn_ok (s : SpawnObligation) : Prop :=
  (sp_token s <> [] /\ str_wf (sp_token s) = true)
  /\ (sp_commit s <> [] /\ str_wf (sp_commit s) = true)
  /\ 0 <= sp_creator_pid s /\ 0 <= sp_creator_start_time_ticks s
  /\ opt_all (fun b => b <> [] /\ str_wf b = true) (sp_boot_id s)
  /\ opt_all (fun p => 0 <= p) (sp_pid s) /\ opt_all (fun t => 0 <= t) (sp_start_time_ticks s).

Definition worker_ok (w : WorkerRecord) : Prop :=
  (wk_token w <> [] /\ str_wf (wk_token w) = true)
  /\ (wk_commit w <> [] /\ str_wf (wk_commit w) = true)
  /\ (wk_worker_id w <> [] /\ str_wf (wk_worker_id w) = true)
  /\ 0 < wk_pid w /\ 0 <= wk_pgid w /\ 0 <= wk_sid w /\ 0 <= wk_start_time_ticks w.

Definition exclusive (r : AuthorityRow) : Prop := row_spawn r = None \/ row_worker r = None.

Record row_ok (r : AuthorityRow) : Prop := {
  ok_server : row_server r <> [] /\ str_wf (row_server r) = true;
  ok_epoch : 0 <= row_epoch r;
  ok_generation : 0 <= row_generation r;
  ok_owner : opt_all owner_ok (row_owner r);
  ok_spawn : opt_all spawn_ok (row_spawn r);
  ok_worker : opt_all worker_ok (row_worker r);
  ok_exclusive : exclusive r;
}.

(** Validation does not look below the top level, so sorting is invisible to it. *)
Lemma check_non_negative_sorted v : _check_non_negative_int (sort_keys v) = _check_non_negative_int v.
Proof. by destruct v. Qed.
Lemma check_positive_sorted v : _check_positive_int (sort_keys v) = _check_positive_int v.
Proof. by destruct v. Qed.
Lemma check_nonempty_sorted v : check_nonempty_str (sort_keys v) = check_nonempty_str v.
Proof. by destruct v. Qed.
Lemma check_optional_sorted {A} (f : json -> res A) v :
  (forall v, f (sort_keys v) = f v) -> check_optional f (sort_keys v) = check_optional f v.
Proof. intros Hf. specialize (Hf v). destruct v; cbn in *; rewrite ?Hf; done. Qed.
Lemma json_eq_str_sorted v s : json_eq_str (sort_keys v) s = json_eq_str v s.
Proof. by destruct v. Qed.
Lemma json_eq_int_sorted v n : json_eq_int (sort_keys v) n = json_eq_int v n.
Proof. by destruct v. Qed.
Lemma is_bool_sorted v : is_bool (sort_keys v) = is_bool v.
Proof. by destruct v. Qed.

Definition keys_nodup (v : json) : bool :=
  match v with JObj d => nodup_str (map fst d) | _ => true end.

Lemma parse_owner_sorted v : keys_nodup v = true -> _parse_owner (sort_keys v) = _parse_owner v.
Proof.
  destruct v as [| | | | | |d]; try done. intros Hnd. cbn [sort_keys _parse_owner].
  fold (sorted_dict d). rewrite !dict_get_sorted by done.
  by rewrite check_positive_sorted, check_non_negative_sorted, check_nonempty_sorted.
Qed.

Lemma parse_spawn_sorted v : keys_nodup v = true -> _parse_spawn (sort_keys v) = _parse_spawn v.
Proof.
  destruct v as [| | | | | |d]; try done. intros Hnd. cbn [sort_keys _parse_spawn].
  fold (sorted_dict d). rewrite !dict_get_sorted by done.
  rewrite !check_nonempty_sorted, !check_non_negative_sorted.
  rewrite !check_optional_sorted by auto using check_nonempty_sorted, check_non_negative_sorted.
  by destruct (dict_get d (py "parent_death_signal")).
Qed.

Lemma parse_worker_sorted v : keys_nodup v = true -> _parse_worker (sort_keys v) = _parse_worker v.
Proof.
  destruct v as [| | | | | |d]; try done. intros Hnd. cbn [sort_keys _parse_worker].
  fold (sorted_dict d). rewrite !dict_get_sorted by done.
  by rewrite !check_nonempty_sorted, !check_non_negative_sorted, check_positive_sorted.
Qed.

(** ** Sections read back *)

Lemma check_nonempty_Ok v s : check_nonempty_str v = Ok s <-> v = JStr s /\ s <> [].
Proof.
  split.
  - destruct v as [| | | |[|c t]| |]; try done. cbn. by intros [= <-].
  - intros [-> Hs]. by destruct s.
Qed.
Lemma check_non_negative_Ok v z : _check_non_negative_int v = Ok z <-> v = JInt z /\ 0 <= z.
Proof.
  split.
  - destruct v; try done. cbn. case_if; [done|]. by intros [= <-].
  - intros [-> Hz]. cbn. by replace (z <? 0) with false by lia.
Qed.
Lemma check_positive_Ok v z : _check_positive_int v = Ok z <-> v = JInt z /\ 0 < z.
Proof.
  split.
  - destruct v; try done. cbn. case_if; [done|]. by intros [= <-].
  - intros [-> Hz]. cbn. by replace (z <=? 0) with false by lia.
Qed.
Lemma check_optional_Ok {A} (f : json -> res A) v o :
  f JNull = Raise AuthorityError ->
  check_optional f v = Ok o <-> match o with None => v = JNull | Some a => f v = Ok a end.
Proof.
  intros Hn. destruct v; cbn; rewrite ?bind_Ok; destruct o; split; intros H; try done;
    try (destruct H as (? & H & [= <-]); done); try (by exists a); congruence.
Qed.

(** Well-formedness of the strings a caller puts in a section. *)
Definition owner_strs (o : AuthorityOwner) : Prop := str_wf (ow_boot_id o) = true.
Definition spawn_strs (s : SpawnObligation) : Prop :=
  str_wf (sp_token s) = true /\ str_wf (sp_commit s) = true
  /\ opt_all (fun b => str_wf b = true) (sp_boot_id s).
Definition worker_strs (w : WorkerRecord) : Prop :=
  str_wf (wk_token w) = true /\ str_wf (wk_commit w) = true /\ str_wf (wk_worker_id w) = true.
Definition row_strs (r : AuthorityRow) : Prop :=
  str_wf (row_server r) = true /\ opt_all owner_strs (row_owner r)
  /\ opt_all spawn_strs (row_spawn r) /\ opt_all worker_strs (row_worker r).

(** Take a successful validation apart into facts about the fields. *)
Ltac checks :=
  repeat match goal with
  | H : check_nonempty_str _ = Ok _ |- _ => apply check_nonempty_Ok in H as [? ?]
  | H : _check_non_negative_int _ = Ok _ |- _ => apply check_non_negative_Ok in H as [? ?]
  | H : _check_positive_int _ = Ok _ |- _ => apply check_positive_Ok in H as [? ?]
  end; simplify_eq.

Lemma check_nonempty_intro s : s <> [] -> check_nonempty_str (JStr s) = Ok s.
Proof. by destruct s. Qed.
Lemma check_non_negative_intro z : 0 <= z -> _check_non_negative_int (JInt z) = Ok z.
Proof. intros. by apply check_non_negative_Ok. Qed.
Lemma check_positive_intro z : 0 < z -> _check_positive_int (JInt z) = Ok z.
Proof. intros. by apply check_positive_Ok. Qed.

(** Run validations of fields known to be valid. *)
Ltac recheck :=
  repeat first
    [ rewrite check_nonempty_intro by assumption
    | rewrite check_non_negative_intro by assumption
    | rewrite check_positive_intro by assumption
    | progress cbn [mbind res_bind] ].

Lemma check_optional_str o o' :
  check_optional check_nonempty_str (json_opt JStr o) = Ok o' -> o' = o /\ opt_all (fun b => b <> []) o.
Proof. destruct o as [[|c b]|]; cbn; [done| |]; by intros [= <-]. Qed.

Lemma check_optional_int o o' :
  check_optional _check_non_negative_int (json_opt JInt o) = Ok o' -> o' = o /\ opt_all (fun p => 0 <= p) o.
Proof. destruct o as [z|]; cbn; [case_if; [done|]|]; by intros [= <-]. Qed.

Lemma check_optional_str_intro o :
  opt_all (fun b => b <> []) o -> check_optional check_nonempty_str (json_opt JStr o) = Ok o.
Proof. destruct o as [[|c b]|]; done. Qed.

Lemma check_optional_int_intro o :
  opt_all (fun p => 0 <= p) o -> check_optional _check_non_negative_int (json_opt JInt o) = Ok o.
Proof. destruct o as [z|]; [|done]. cbn. intros. by replace (z <? 0) with false by lia. Qed.

Lemma build_spawn_inv s v :
  _build_spawn_mapping s = Ok v ->
  _parse_spawn v = Ok s /\ keys_nodup v = true
  /\ (opt_all spawn_strs s -> json_plain v = true /\ opt_all spawn_ok s).
Proof.
  destruct s as [[tok com cp ct bo pi ti fl]|]; cbn [_build_spawn_mapping]; intros H.
  2: { injection H as <-. done. }
  res_inv H. cbn [sp_token sp_commit sp_creator_pid sp_creator_start_time_ticks sp_boot_id sp_pid
    sp_start_time_ticks sp_parent_death_signal] in *. checks.
  apply check_optional_str in B3 as [-> Hbo]. apply check_optional_int in B4 as [-> Hpi].
  apply check_optional_int in B5 as [-> Hti]. subst. split; [|split].
  - cbn [_parse_spawn]. eval_get. recheck. rewrite check_optional_str_intro by done. recheck.
    rewrite !check_optional_int_intro by done. done.
  - vm_compute. reflexivity.
  - intros (Ht & Hc & Hb). split.
    + cbn [json_plain]. apply andb_true_iff; split; [vm_compute; reflexivity|].
      plain_members; [destruct bo|destruct pi|destruct ti]; done.
    + repeat split; try done. destruct bo; done.
Qed.

Lemma build_worker_inv w v :
  _build_worker_mapping w = Ok v ->
  _parse_worker v = Ok w /\ keys_nodup v = true
  /\ (opt_all worker_strs w -> json_plain v = true /\ opt_all worker_ok w).
Proof.
  destruct w as [[tok com pi pg si ti wi]|]; cbn [_build_worker_mapping]; intros H.
  2: { injection H as <-. done. }
  res_inv H. cbn [wk_token wk_commit wk_pid wk_pgid wk_sid wk_start_time_ticks wk_worker_id] in *.
  checks. subst. split; [|split].
  - cbn [_parse_worker]. eval_get. recheck. done.
  - vm_compute. reflexivity.
  - intros (Ht & Hc & Hb). split.
    + cbn [json_plain]. apply andb_true_iff; split; [vm_compute; reflexivity|].
      plain_members.
    + repeat split; done.
Qed.

Lemma build_owner_inv o v :
  (match o with
   | None => Ok JNull
   | Some o => parsed ← _parse_owner (owner_mapping o);
       match parsed with None => Raise AuthorityError | Some p => Ok (owner_mapping p) end
   end) = Ok v ->
  _parse_owner v = Ok o /\ keys_nodup v = true
  /\ (opt_all owner_strs o -> json_plain v = true /\ opt_all owner_ok o).
Proof.
  destruct o as [[pi ti bo]|]; intros H; [|injection H as <-; done].
  res_inv H. unfold owner_mapping in B. cbn [_parse_owner ow_pid ow_start_time_ticks ow_boot_id] in B.
  revert B. eval_get. intros B. res_inv B. subst a. checks. split; [|split].
  - cbn [owner_mapping _parse_owner ow_pid ow_start_time_ticks ow_boot_id]. eval_get. recheck. done.
  - vm_compute. reflexivity.
  - intros Hs. split; [|repeat split; done].
    cbn [owner_mapping json_plain]. apply andb_true_iff; split; [vm_compute; reflexivity|]. plain_members.
Qed.

(** The dict behind a canonical text. *)
Definition row_dict (r : AuthorityRow) (owner spawn worker : json) : dict :=
  [(py "v", JInt AUTHORITY_VERSION); (py "type", JStr AUTHORITY_TYPE);
   (py "server", JStr (row_server r)); (py "epoch", JInt (row_epoch r));
   (py "generation", JInt (row_generation r)); (py "owner", owner);
   (py "spawn", spawn); (py "worker", worker)].

Lemma canonical_row_text_inv r text :
  canonical_row_text r = Ok text ->
  exists ow sp wk,
    (row_server r <> [] /\ 0 <= row_epoch r /\ 0 <= row_generation r)
    /\ (_parse_owner ow = Ok (row_owner r) /\ keys_nodup ow = true
        /\ (opt_all owner_strs (row_owner r) -> json_plain ow = true /\ opt_all owner_ok (row_owner r)))
    /\ (_parse_spawn sp = Ok (row_spawn r) /\ keys_nodup sp = true
        /\ (opt_all spawn_strs (row_spawn r) -> json_plain sp = true /\ opt_all spawn_ok (row_spawn r)))
    /\ (_parse_worker wk = Ok (row_worker r) /\ keys_nodup wk = true
        /\ (opt_all worker_strs (row_worker r) -> json_plain wk = true /\ opt_all worker_ok (row_worker r)))
    /\ json_dumps_sorted (JObj (row_dict r ow sp wk)) = Ok text
    /\ exists n, utf8_byte_length text = Ok n /\ n <= AUTHORITY_MAX_BYTES.
Proof.
  unfold canonical_row_text, build_authority_payload. intros H. res_inv H. res_inv B.
  unfold serialize_authority_payload in H. res_inv H. subst a.
  change _require_server_identity with check_nonempty_str in *. checks.
  apply build_owner_inv in B5. apply build_spawn_inv in B0. apply build_worker_inv in B1.
  exists a5, a0, a1. split; [done|]. split; [done|]. split; [done|]. split; [done|].
  case_match; [done|]. injection H as <-. bool_z.
  split; [|by eexists]. by rewrite <- B6.
Qed.

Lemma row_dict_nodup r ow sp wk : nodup_str (map fst (row_dict r ow sp wk)) = true.
Proof. vm_compute. reflexivity. Qed.

Lemma json_eq_str_refl s : json_eq_str (JStr s) s = true.
Proof. apply str_eqb_refl. Qed.

(** A decoded canonical dict, keys sorted, parses to its row. *)
Lemma parse_row_dict r ow sp wk :
  0 <= row_epoch r -> 0 <= row_generation r -> exclusive r ->
  _parse_owner ow = Ok (row_owner r) -> keys_nodup ow = true ->
  _parse_spawn sp = Ok (row_spawn r) -> keys_nodup sp = true ->
  _parse_worker wk = Ok (row_worker r) -> keys_nodup wk = true ->
  parse_authority_payload (sort_keys (JObj (row_dict r ow sp wk))) (row_server r) = Ok r.
Proof.
  intros He Hg Hx Ho Hon Hs Hsn Hw Hwn. unfold parse_authority_payload, parse_sections.
  cbn [sort_keys decode_bounded mbind res_bind]. fold (sorted_dict (row_dict r ow sp wk)).
  rewrite !dict_get_sorted, !dict_mem_sorted by apply row_dict_nodup.
  rewrite json_eq_int_sorted, is_bool_sorted, !json_eq_str_sorted, !check_non_negative_sorted.
  unfold row_dict. eval_get. rewrite !json_eq_str_refl.
  rewrite parse_owner_sorted, parse_spawn_sorted, parse_worker_sorted by done.
  rewrite Ho, Hs, Hw. cbn [json_eq_int is_bool AUTHORITY_VERSION Z.eqb Pos.eqb negb orb].
  change (negb (dict_mem _ (py "spawn")) || negb (dict_mem _ (py "worker"))) with false. cbv iota.
  recheck. destruct r as [se ep ge ow' sp' wk']. cbn in *.
  destruct Hx as [Hx|Hx]; cbn in Hx; subst; [by destruct wk'|by destruct sp'].
Qed.

Lemma decode_bounded_text text n v :
  utf8_byte_length text = Ok n -> n <= AUTHORITY_MAX_BYTES -> json_loads text = Ok v ->
  decode_bounded (JStr text) = Ok v.
Proof.
  intros Hn Hle Hv. unfold decode_bounded. rewrite Hn. cbn [mbind res_bind].
  replace (AUTHORITY_MAX_BYTES <? n) with false by lia. by rewrite Hv.
Qed.

Lemma sort_keys_obj d : exists d', sort_keys (JObj d) = JObj d'.
Proof. by eexists. Qed.

(** Canonical text parses to the row it was built from, and that row is valid. *)
Lemma parse_canonical r text :
  row_strs r -> exclusive r -> canonical_row_text r = Ok text ->
  parse_authority_payload (JStr text) (row_server r) = Ok r /\ row_ok r /\ scalar_str text.
Proof.
  intros (Hss & Hso & Hsp & Hsw) Hx H.
  apply canonical_row_text_inv in H as (ow & sp & wk & (Hne & He & Hg) & (Ho & Hon & Hop)
    & (Hs & Hsn & Hspp) & (Hw & Hwn & Hwp) & Hd & n & Hn & Hle).
  destruct (Hop Hso) as [Hop' ?]. destruct (Hspp Hsp) as [Hspp' ?]. destruct (Hwp Hsw) as [Hwp' ?].
  assert (Hplain : json_plain (JObj (row_dict r ow sp wk)) = true).
  { cbn [json_plain]. rewrite row_dict_nodup. cbn [andb]. unfold row_dict. plain_members. }
  pose proof (json_loads_dumps_sorted _ _ Hplain Hd) as Hl.
  split; [|split; [by split|]]; [|apply ascii_scalar; by eapply json_dumps_sorted_ascii].
  pose proof (parse_row_dict r ow sp wk He Hg Hx Ho Hon Hs Hsn Hw Hwn) as Hp.
  unfold parse_authority_payload in *. rewrite (decode_bounded_text text n _ Hn Hle Hl).
  destruct (sort_keys_obj (row_dict r ow sp wk)) as (d' & E). rewrite E in *. exact Hp.
Qed.

(** ** What parsing guarantees *)

Lemma check_optional_parsed {A} (f : json -> res A) v o :
  check_optional f v = Ok o -> opt_all (fun a => f v = Ok a) o.
Proof. destruct v; cbn; intros H; try (by injection H as <-); by res_inv H; subst o. Qed.

Lemma parsed_str v s : strs_wf v = true -> check_nonempty_str v = Ok s -> s <> [] /\ str_wf s = true.
Proof. intros Hv [-> Hs]%check_nonempty_Ok. done. Qed.

Lemma parse_owner_ok v o : strs_wf v = true -> _parse_owner v = Ok o -> opt_all owner_ok o.
Proof.
  destruct v as [| | | | | |d]; try done; cbn [_parse_owner]; intros Hv H; [by injection H as <-|].
  res_inv H. subst o. apply parsed_str in B1 as [? ?]; [|by apply dict_get_strs_wf]. checks. by repeat split.
Qed.

Lemma parse_spawn_ok v s : strs_wf v = true -> _parse_spawn v = Ok s -> opt_all spawn_ok s.
Proof.
  destruct v as [| | | | | |d]; try done; cbn [_parse_spawn]; intros Hv H; [by injection H as <-|].
  res_inv H. case_match; try done. injection H as <-.
  apply parsed_str in B as [? ?]; [|by apply dict_get_strs_wf].
  apply parsed_str in B0 as [? ?]; [|by apply dict_get_strs_wf].
  apply check_optional_parsed in B3, B4, B5.
  assert (opt_all (fun b => b <> [] /\ str_wf b = true) a3).
  { destruct a3; [|done]. eapply parsed_str; [|exact B3]. by apply dict_get_strs_wf. }
  assert (opt_all (fun p => 0 <= p) a4) by (destruct a4; cbn in *; checks; done).
  assert (opt_all (fun p => 0 <= p) a5) by (destruct a5; cbn in *; checks; done).
  checks. by repeat split.
Qed.

Lemma parse_worker_ok v w : strs_wf v = true -> _parse_worker v = Ok w -> opt_all worker_ok w.
Proof.
  destruct v as [| | | | | |d]; try done; cbn [_parse_worker]; intros Hv H; [by injection H as <-|].
  res_inv H. subst w. apply parsed_str in B as [? ?]; [|by apply dict_get_strs_wf].
  apply parsed_str in B0 as [? ?]; [|by apply dict_get_strs_wf].
  apply parsed_str in B1 as [? ?]; [|by apply dict_get_strs_wf].
  checks. by repeat split.
Qed.

Lemma parse_sections_ok d server r :
  strs_wf (JObj d) = true -> str_wf server = true -> server <> [] ->
  parse_sections d server = Ok r -> row_ok r /\ row_server r = server.
Proof.
  unfold parse_sections. intros Hd Hs Hne H. res_inv H.
  apply parse_owner_ok in B1; [|by apply dict_get_strs_wf].
  apply parse_spawn_ok in B2; [|by apply dict_get_strs_wf].
  apply parse_worker_ok in B3; [|by apply dict_get_strs_wf].
  checks. repeat case_match; try done; injection H as <-; (split; [|done]); split;
    try done; by (left + right).
Qed.

Lemma decode_bounded_strs_wf text v :
  scalar_str text -> decode_bounded (JStr text) = Ok v -> strs_wf v = true.
Proof.
  unfold decode_bounded. intros Hs H. res_inv H. case_match; [done|].
  unfold catch in H. case_match; [|by case_match]. injection H as <-. by eapply json_loads_strs_wf.
Qed.

(** A stored text that parses names the requested server and a valid row. *)
Lemma parse_authority_ok text server r :
  scalar_str text -> str_wf server = true -> server <> [] ->
  parse_authority_payload (JStr text) server = Ok r -> row_ok r /\ row_server r = server.
Proof.
  unfold parse_authority_payload. intros Ht Hs Hne H. res_inv H.
  apply decode_bounded_strs_wf in B; [|done].
  repeat case_match; try done. by apply parse_sections_ok in H.
Qed.

Lemma parse_v1_ok text server r :
  scalar_str text -> str_wf server = true -> server <> [] ->
  _parse_v1_payload (JStr text) server = Ok r -> row_ok r /\ row_server r = server.
Proof.
  unfold _parse_v1_payload. intros Ht Hs Hne H. res_inv H.
  apply decode_bounded_strs_wf in B; [|done].
  repeat case_match; try done. by apply parse_sections_ok in H.
Qed.

(** ** Failing closed *)

(** A computation that raises nothing but [AuthorityError]. *)
Definition fails_closed {A} (m : res A) : Prop := forall e, m = Raise e -> e = AuthorityError.

Lemma fails_closed_bind {A B} (m : res A) (f : A -> res B) :
  fails_closed m -> (forall a, m = Ok a -> fails_closed (f a)) -> fails_closed (m ≫= f).
Proof. intros Hm Hf e [H|(a & Ha & H)]%bind_Raise; [auto|]. by eapply Hf. Qed.

Lemma fails_closed_Ok {A} (a : A) : fails_closed (Ok a).
Proof. done. Qed.
Lemma fails_closed_Raise {A} : fails_closed (@Raise A AuthorityError).
Proof. by intros e [= <-]. Qed.
Lemma fails_closed_nonempty v : fails_closed (check_nonempty_str v).
Proof. intros e. destruct v as [| | | |[|c s]| |]; cbn; by intros [= <-]. Qed.
Lemma fails_closed_non_negative v : fails_closed (_check_non_negative_int v).
Proof. intros e. destruct v; cbn; try case_if; by intros [= <-]. Qed.
Lemma fails_closed_positive v : fails_closed (_check_positive_int v).
Proof. intros e. destruct v; cbn; try case_if; by intros [= <-]. Qed.
Lemma fails_closed_optional {A} (f : json -> res A) v :
  (forall v, fails_closed (f v)) -> fails_closed (check_optional f v).
Proof. intros Hf. unfold check_optional. destruct v; try done; by apply fails_closed_bind. Qed.

#[export] Hint Resolve fails_closed_Ok fails_closed_Raise fails_closed_nonempty fails_closed_non_negative
  fails_closed_positive fails_closed_optional : lubko.

(** Prove that a chain of validations fails closed. *)
Ltac fails_closed_tac :=
  repeat first [ solve [auto with lubko]
               | apply fails_closed_bind; [|intros ? ?]
               | case_match ].

Lemma fails_closed_parse_owner v : fails_closed (_parse_owner v).
Proof. unfold _parse_owner. fails_closed_tac. Qed.
Lemma fails_closed_parse_spawn v : fails_closed (_parse_spawn v).
Proof. unfold _parse_spawn. fails_closed_tac. Qed.
Lemma fails_closed_parse_worker v : fails_closed (_parse_worker v).
Proof. unfold _parse_worker. fails_closed_tac. Qed.
#[export] Hint Resolve fails_closed_parse_owner fails_closed_parse_spawn fails_closed_parse_worker : lubko.

Lemma fails_closed_sections d server : fails_closed (parse_sections d server).
Proof. unfold parse_sections. fails_closed_tac. Qed.
#[export] Hint Resolve fails_closed_sections : lubko.

Lemma length_le_str_len8 s : Z.of_nat (length s) <= str_len8 s.
Proof. induction s as [|c s IH]; cbn [length str_len8 fold_right]; [done|]. pose proof (cp_len_bounds c). unfold str_len8 in *. lia. Qed.

Lemma fails_closed_decode text : scalar_str text -> fails_closed (decode_bounded (JStr text)).
Proof.
  intros Hs e. unfold decode_bounded. rewrite utf8_byte_length_scalar by done. cbn [mbind res_bind].
  case_if; [by intros [= <-]|]. unfold catch. destruct (json_loads text) as [v|e'] eqn:El; [done|].
  apply json_loads_errors in El as [->|[-> Hl]].
  - cbn. by intros [= <-].
  - pose proof (length_le_str_len8 text). unfold AUTHORITY_MAX_BYTES, INT_MAX_STR_DIGITS in *. lia.
Qed.

Lemma fails_closed_parse text server :
  scalar_str text -> fails_closed (parse_authority_payload (JStr text) server).
Proof.
  intros Hs. unfold parse_authority_payload. apply fails_closed_bind; [by apply fails_closed_decode|].
  intros v _. fails_closed_tac.
Qed.

Lemma fails_closed_parse_v1 text server :
  scalar_str text -> fails_closed (_parse_v1_payload (JStr text) server).
Proof.
  intros Hs. unfold _parse_v1_payload. apply fails_closed_bind; [by apply fails_closed_decode|].
  intros v _. fails_closed_tac.
Qed.
