(* ===== verification/AuthorityDb.v ===== *)
(** Database operations on the authority row
    ([src/lubko/lifecycle_authority.py]) as programs over the transport table.

    An operation is a sequence of SQL statements, each of which may be
    interleaved with the statements of every other daemon and may fail with
    [psycopg.Error]; a lost connection leaves the caller without an answer
    whether or not the statement took effect.  [INSERT] and [SELECT] of the
    bootstrap transaction are separate steps: under READ COMMITTED the second
    statement sees rows committed after the first, and treating the pair as
    non-atomic only adds behaviours. *)

From stdpp Require Import gmap.
From S2P Require Import Prelude PyStr PyNum Json JsonFacts Uuid AuthorityRow.

(** ** Programs over [lubko.jobs] *)

(** The continuation receives [None] when the statement raised [psycopg.Error]. *)
Inductive prog (A : Type) :=
  | Ret (a : A)
  | Throw (e : exn)
  | Select (id : Z) (k : option (option pystr) -> prog A)
  | Insert (id : Z) (payload : pystr) (k : option unit -> prog A)
  | Update (id : Z) (payload expected : pystr) (k : option bool -> prog A).
Arguments Ret {A} _.
Arguments Throw {A} _.
Arguments Select {A} _ _.
Arguments Insert {A} _ _ _.
Arguments Update {A} _ _ _ _.

#[export] Instance prog_ret : MRet prog := fun A a => Ret a.
#[export] Instance prog_bind : MBind prog := fun A B f =>
  fix go p :=
    match p with
    | Ret a => f a
    | Throw e => Throw e
    | Select i k => Select i (fun o => go (k o))
    | Insert i t k => Insert i t (fun o => go (k o))
    | Update i t x k => Update i t x (fun o => go (k o))
    end.

(** [try: p except AuthorityError: h] *)
Fixpoint pcatch {A} (p : prog A) (h : prog A) : prog A :=
  match p with
  | Ret a => Ret a
  | Throw e => if decide (e = AuthorityError) then h else Throw e
  | Select i k => Select i (fun o => pcatch (k o) h)
  | Insert i t k => Insert i t (fun o => pcatch (k o) h)
  | Update i t x k => Update i t x (fun o => pcatch (k o) h)
  end.

Definition lift {A} (m : res A) : prog A := match m with Ok a => Ret a | Raise e => Throw e end.

(** [except psycopg.Error: raise AuthorityUnavailableError] *)
Definition reached {A} (o : option A) : prog A :=
  match o with Some a => Ret a | None => Throw AuthorityUnavailableError end.

(** [_READ_ROW_SQL], [_BOOTSTRAP_INSERT_SQL] and [_CAS_ROW_SQL], one transaction each. *)
Definition _READ_ROW_SQL (id : Z) : prog (option pystr) := Select id reached.
Definition _BOOTSTRAP_INSERT_SQL (id : Z) (payload : pystr) : prog unit := Insert id payload reached.
Definition _CAS_ROW_SQL (id : Z) (payload expected : pystr) : prog bool := Update id payload expected reached.

(** ** Operations *)

Definition read_authority (server : pystr) : prog (option AuthorityRow) :=
  row_id ← lift (authority_row_id server);
  fetched ← _READ_ROW_SQL row_id;
  match fetched with
  | None => Ret None
  | Some stored => r ← lift (parse_authority_payload (JStr stored) server); Ret (Some r)
  end.

Definition bootstrap_authority (server : pystr) : prog AuthorityRow :=
  row_id ← lift (authority_row_id server);
  payload ← lift (_neutral_payload server);
  _ ← _BOOTSTRAP_INSERT_SQL row_id payload;
  fetched ← _READ_ROW_SQL row_id;
  match fetched with
  | None => Throw AuthorityUnavailableError
  | Some stored => lift (parse_authority_payload (JStr stored) server)
  end.

Definition _read_observed (server : pystr) : prog (pystr * option AuthorityRow) :=
  row_id ← lift (authority_row_id server);
  fetched ← _READ_ROW_SQL row_id;
  match fetched with
  | None => Ret ([], None)
  | Some stored => r ← lift (parse_authority_payload (JStr stored) server); Ret (stored, Some r)
  end.

Definition _compare_and_swap (server expected candidate : pystr) : prog bool :=
  row_id ← lift (authority_row_id server);
  _CAS_ROW_SQL row_id candidate expected.

Definition set_owner (r : AuthorityRow) (epoch : Z) (o : AuthorityOwner) : AuthorityRow :=
  mkRow (row_server r) epoch (row_generation r) (Some o) (row_spawn r) (row_worker r).
Definition set_sections (r : AuthorityRow) (o : AuthorityOwner)
    (sp : option SpawnObligation) (wk : option WorkerRecord) : AuthorityRow :=
  mkRow (row_server r) (row_epoch r) (row_generation r) (Some o) sp wk.

Definition take_authority (server : pystr) (owner : AuthorityOwner) : prog (option AuthorityRow) :=
  '(expected, current) ← _read_observed server;
  match current with
  | None => Throw AuthorityError
  | Some current =>
      if decide (row_owner current = Some owner) then Ret (Some current)
      else
        let updated := set_owner current (row_epoch current + 1) owner in
        candidate ← lift (canonical_row_text updated);
        won ← _compare_and_swap server expected candidate;
        if won : bool then Ret (Some updated) else Ret None
  end.

Definition _claim_owner (claim : AuthorityClaim) (current : AuthorityRow) : res AuthorityOwner :=
  if negb (row_epoch current =? cl_epoch claim) then Raise AuthorityError
  else match row_owner current with
       | None => Raise AuthorityError
       | Some owner =>
           if negb (ow_pid owner =? cl_pid claim)
              || negb (ow_start_time_ticks owner =? cl_start_time_ticks claim)
              || negb (str_eqb (ow_boot_id owner) (cl_boot_id claim))
           then Raise AuthorityError
           else Ok owner
       end.

Definition commit_spawn_obligation (claim : AuthorityClaim) (spawn : SpawnObligation) : prog bool :=
  '(expected, current) ← _read_observed (cl_server claim);
  match current with
  | None => Throw AuthorityError
  | Some current =>
      owner ← lift (_claim_owner claim current);
      match row_spawn current, row_worker current with
      | None, None =>
          candidate ← lift (canonical_row_text (set_sections current owner (Some spawn) None));
          _compare_and_swap (cl_server claim) expected candidate
      | _, _ => Ret false
      end
  end.

(** [try: expected, current = _read_observed(...) except AuthorityError: return False] *)
Definition observed_or_none (server : pystr) : prog (pystr * option AuthorityRow) :=
  pcatch (_read_observed server) (Ret ([], None)).

Definition clear_spawn_obligation (claim : AuthorityClaim) : prog bool :=
  '(expected, current) ← observed_or_none (cl_server claim);
  match current with
  | None => Ret false
  | Some current =>
      match _claim_owner claim current with
      | Raise _ => Ret false
      | Ok owner =>
          match row_spawn current with
          | None => Ret true
          | Some _ =>
              candidate ← lift (canonical_row_text (set_sections current owner None (row_worker current)));
              _compare_and_swap (cl_server claim) expected candidate
          end
      end
  end.

Definition publish_worker (claim : AuthorityClaim) (spawn_token : pystr) (worker : WorkerRecord)
    : prog bool :=
  '(expected, current) ← _read_observed (cl_server claim);
  match current with
  | None => Throw AuthorityError
  | Some current =>
      match _claim_owner claim current with
      | Raise _ => Ret false
      | Ok owner =>
          match row_spawn current with
          | None => Ret false
          | Some sp =>
              if negb (str_eqb (sp_token sp) spawn_token) then Ret false
              else match row_worker current with
                   | Some _ => Ret false
                   | None =>
                       if negb (str_eqb (wk_token worker) spawn_token) then Throw AuthorityError
                       else
                         candidate ← lift (canonical_row_text (set_sections current owner None (Some worker)));
                         _compare_and_swap (cl_server claim) expected candidate
                   end
          end
      end
  end.

Definition clear_worker (claim : AuthorityClaim) (token : pystr) : prog bool :=
  '(expected, current) ← observed_or_none (cl_server claim);
  match current with
  | None => Ret false
  | Some current =>
      match _claim_owner claim current with
      | Raise _ => Ret false
      | Ok owner =>
          match row_worker current with
          | None => Ret true
          | Some w =>
              if negb (str_eqb (wk_token w) token) then Ret false
              else
                candidate ← lift (canonical_row_text (set_sections current owner (row_spawn current) None));
                _compare_and_swap (cl_server claim) expected candidate
          end
      end
  end.

Definition confirm_authority (claim : AuthorityClaim) : prog bool :=
  row ← pcatch (read_authority (cl_server claim)) (Ret None);
  match row with
  | None => Ret false
  | Some row =>
      if negb (row_epoch row =? cl_epoch claim) then Ret false
      else match row_owner row with
           | None => Ret false
           | Some owner =>
               Ret ((ow_pid owner =? cl_pid claim)
                    && (ow_start_time_ticks owner =? cl_start_time_ticks claim)
                    && str_eqb (ow_boot_id owner) (cl_boot_id claim))
           end
  end.

Definition read_stored_payload (server : pystr) : prog (option pystr) :=
  row_id ← lift (authority_row_id server);
  _READ_ROW_SQL row_id.

Definition migrate_v1_to_v2 (server : pystr) (evidence : option V1LegacyEvidence) : prog bool :=
  let proven := match evidence with Some e => e | None => mkEvidence None false None false end in
  _ ← lift (_check_migration_evidence proven);
  row_id ← lift (authority_row_id server);
  fetched ← _READ_ROW_SQL row_id;
  match fetched with
  | None => Throw AuthorityError
  | Some stored =>
      match parse_authority_payload (JStr stored) server with
      | Ok _ => Ret true
      | Raise e =>
          if decide (e = AuthorityError) then
            legacy ← lift (_parse_v1_payload (JStr stored) server);
            '(spawn, worker) ← lift (_resolve_migration_sections legacy proven);
            candidate ← lift (canonical_row_text
              (mkRow server (row_epoch legacy) (row_generation legacy) (row_owner legacy) spawn worker));
            _compare_and_swap server stored candidate
          else Throw e
      end
  end.

(** ** Execution *)

Abbreviation store := (gmap Z pystr).

(** How the connection behaves for one statement. *)
Inductive fault := NoFault | LostBefore | LostAfter.

(** [INSERT ... ON CONFLICT (id) DO NOTHING] *)
Definition insert_row (st : store) (id : Z) (payload : pystr) : store :=
  match st !! id with Some _ => st | None => <[id := payload]> st end.

(** [UPDATE ... WHERE id = ... AND payload = expected], with the row count as a test. *)
Definition cas_row (st : store) (id : Z) (payload expected : pystr) : store * bool :=
  match st !! id with
  | Some stored => if str_eqb stored expected then (<[id := payload]> st, true) else (st, false)
  | None => (st, false)
  end.

Definition exec {A} (f : fault) (st : store) (p : prog A) : option (store * prog A) :=
  match p with
  | Ret _ | Throw _ => None
  | Select i k =>
      Some (st, match f with NoFault => k (Some (st !! i)) | _ => k None end)
  | Insert i t k =>
      Some (match f with
            | NoFault => (insert_row st i t, k (Some tt))
            | LostBefore => (st, k None)
            | LostAfter => (insert_row st i t, k None)
            end)
  | Update i t x k =>
      let '(st', won) := cas_row st i t x in
      Some (match f with
            | NoFault => (st', k (Some won))
            | LostBefore => (st, k None)
            | LostAfter => (st', k None)
            end)
  end.

(** Run a program alone, without faults. *)
Fixpoint run {A} (st : store) (p : prog A) : store * res A :=
  match p with
  | Ret a => (st, Ok a)
  | Throw e => (st, Raise e)
  | Select i k => run st (k (Some (st !! i)))
  | Insert i t k => run (insert_row st i t) (k (Some tt))
  | Update i t x k => let '(st', won) := cas_row st i t x in run st' (k (Some won))
  end.
