(* ===== verification/AuthorityRefine.v ===== *)
(** The authority protocol as an atomic state machine, and the proof that the
    interleaved database operations of [AuthorityDb] implement it.

    [astep] is the abstract specification: one atomic transition per
    operation, guarded by the caller's claim.  [safe] says of a program that
    every statement it may issue against the row of one server is justified by
    such a transition; it is closed under sequencing, so it holds of any
    daemon written with the operations.  The compare-and-swap on the exact
    observed text is what makes the justification independent of what other
    daemons did in between. *)

From stdpp Require Import gmap.
From S2P Require Import Prelude PyStr PyNum Json JsonFacts Uuid AuthorityRow AuthorityDb.

#[local] Arguments py : simpl never.
#[local] Arguments parse_authority_payload : simpl never.
#[local] Arguments _parse_v1_payload : simpl never.
#[local] Arguments canonical_row_text : simpl never.
#[local] Arguments _claim_owner : simpl never.
#[local] Arguments authority_row_id : simpl never.

(** ** Abstract states and transitions *)

Inductive astate :=
  | Absent
  | Untrusted
  | V1 (r : AuthorityRow)
  | V2 (r : AuthorityRow).

Inductive label :=
  | LBootstrap
  | LTake (o : AuthorityOwner)
  | LCommitSpawn (c : AuthorityClaim) (s : SpawnObligation)
  | LClearSpawn (c : AuthorityClaim)
  | LPublish (c : AuthorityClaim) (w : WorkerRecord)
  | LClearWorker (c : AuthorityClaim) (token : pystr)
  | LMigrate.

Definition neutral_row (server : pystr) : AuthorityRow := mkRow server 0 0 None None None.

(** The claim names the row's epoch and exact owner. *)
Definition claim_holds (c : AuthorityClaim) (r : AuthorityRow) : Prop :=
  row_epoch r = cl_epoch c
  /\ row_owner r = Some (mkOwner (cl_pid c) (cl_start_time_ticks c) (cl_boot_id c)).

Definition with_sections (r : AuthorityRow) (sp : option SpawnObligation) (wk : option WorkerRecord)
    : AuthorityRow :=
  mkRow (row_server r) (row_epoch r) (row_generation r) (row_owner r) sp wk.

Inductive astep (server : pystr) : label -> astate -> astate -> Prop :=
  | A_bootstrap :
      astep server LBootstrap Absent (V2 (neutral_row server))
  | A_take r o :
      row_owner r <> Some o -> owner_ok o ->
      astep server (LTake o) (V2 r) (V2 (set_owner r (row_epoch r + 1) o))
  | A_commit_spawn r c s :
      claim_holds c r -> row_spawn r = None -> row_worker r = None -> spawn_ok s ->
      astep server (LCommitSpawn c s) (V2 r) (V2 (with_sections r (Some s) None))
  | A_clear_spawn r c s :
      claim_holds c r -> row_spawn r = Some s ->
      astep server (LClearSpawn c) (V2 r) (V2 (with_sections r None (row_worker r)))
  | A_publish r c s w :
      claim_holds c r -> row_spawn r = Some s -> row_worker r = None -> wk_token w = sp_token s ->
      worker_ok w ->
      astep server (LPublish c w) (V2 r) (V2 (with_sections r None (Some w)))
  | A_clear_worker r c w :
      claim_holds c r -> row_worker r = Some w ->
      astep server (LClearWorker c (wk_token w)) (V2 r) (V2 (with_sections r (row_spawn r) None))
  | A_migrate r sp wk :
      (row_spawn r <> None -> sp = row_spawn r) -> (row_worker r <> None -> wk = row_worker r) ->
      sp = None \/ wk = None ->
      astep server LMigrate (V1 r) (V2 (with_sections r sp wk)).

(** The abstract state a stored text represents. *)
Definition abs_text (server text : pystr) : astate :=
  match parse_authority_payload (JStr text) server with
  | Ok r => V2 r
  | Raise _ =>
      match _parse_v1_payload (JStr text) server with
      | Ok r => V1 r
      | Raise _ => Untrusted
      end
  end.

Definition abs (server : pystr) (id : Z) (st : store) : astate :=
  match st !! id with Some text => abs_text server text | None => Absent end.

(** ** Helper facts *)

Lemma authority_row_id_nonempty server id : authority_row_id server = Ok id -> server <> [].
Proof. by intros H ->. Qed.

Lemma claim_owner_holds c r o :
  _claim_owner c r = Ok o -> claim_holds c r /\ row_owner r = Some o.
Proof.
  unfold _claim_owner, claim_holds. intros H. destruct (row_epoch r =? cl_epoch c) eqn:E; [|done]. bool_z.
  cbn [negb] in H. destruct (row_owner r) as [[p t b]|]; [|done]. cbn in H.
  destruct (p =? cl_pid c) eqn:?, (t =? cl_start_time_ticks c) eqn:?, (str_eqb b (cl_boot_id c)) eqn:Eb;
    try done. bool_z. apply str_eqb_eq in Eb. subst. by injection H as <-.
Qed.

Lemma set_sections_same r o sp wk :
  row_owner r = Some o -> set_sections r o sp wk = with_sections r sp wk.
Proof. unfold set_sections, with_sections. by intros ->. Qed.

Lemma owner_ok_strs o : owner_ok o -> owner_strs o.
Proof. by intros (?&?&?&?). Qed.
Lemma spawn_ok_strs s : spawn_ok s -> spawn_strs s.
Proof. intros ([? ?] & [? ?] & _ & _ & Hb & _). split_and!; try done. by destruct (sp_boot_id s); [destruct Hb|]. Qed.
Lemma worker_ok_strs w : worker_ok w -> worker_strs w.
Proof. by intros ([? ?] & [? ?] & [? ?] & _). Qed.
Lemma opt_all_impl {A} (P Q : A -> Prop) o : (forall a, P a -> Q a) -> opt_all P o -> opt_all Q o.
Proof. destruct o; cbn; auto. Qed.
Lemma row_ok_strs r : row_ok r -> row_strs r.
Proof.
  intros [[? ?] ? ? Ho Hs Hw ?]. split_and!; [done|..].
  - eapply opt_all_impl; [apply owner_ok_strs|done].
  - eapply opt_all_impl; [apply spawn_ok_strs|done].
  - eapply opt_all_impl; [apply worker_ok_strs|done].
Qed.

#[export] Hint Resolve owner_ok_strs spawn_ok_strs worker_ok_strs row_ok_strs : lubko.

(** ** Safe programs *)

Section safe.
Context (server : pystr) (id : Z).

(** Replacing [old] by [new] is a transition of the specification. *)
Definition justified (new old : pystr) : Prop :=
  scalar_str new /\ exists l, astep server l (abs_text server old) (abs_text server new).

(** The neutral row's text. *)
Definition neutral_text (payload : pystr) : Prop :=
  scalar_str payload /\ abs_text server payload = V2 (neutral_row server).

Fixpoint safe {A} (p : prog A) : Prop :=
  match p with
  | Ret _ | Throw _ => True
  | Select i k => forall o, (i = id -> opt_all (opt_all scalar_str) o) -> safe (k o)
  | Insert i t k => (i = id -> neutral_text t) /\ forall o, safe (k o)
  | Update i t x k => (i = id -> justified t x) /\ forall o, safe (k o)
  end.

Lemma safe_bind {A B} (p : prog A) (f : A -> prog B) :
  safe p -> (forall a, safe (f a)) -> safe (p ≫= f).
Proof. intros Hp Hf. induction p; cbn in *; auto; destruct Hp; auto. Qed.

Lemma safe_pcatch {A} (p h : prog A) : safe p -> safe h -> safe (pcatch p h).
Proof. intros Hp Hh. induction p; cbn in *; try case_decide; auto; destruct Hp; auto. Qed.

Lemma safe_lift {A} (m : res A) : safe (lift m).
Proof. by destruct m. Qed.

Lemma safe_lift_bind {A B} (m : res A) (f : A -> prog B) :
  (forall a, m = Ok a -> safe (f a)) -> safe (lift m ≫= f).
Proof. destruct m; cbn; auto. Qed.

Lemma safe_reached {A} (o : option A) : safe (reached o).
Proof. by destruct o. Qed.

(** *** Statements of the operations *)

(** Servers are told apart by their row id. *)
Definition no_collision (s : pystr) : Prop := authority_row_id s = Ok id -> s = server.

Lemma safe_cas s expected candidate :
  (authority_row_id s = Ok id -> justified candidate expected) ->
  safe (_compare_and_swap s expected candidate).
Proof.
  intros H. unfold _compare_and_swap. apply safe_lift_bind. intros i Hi. cbn.
  split; [intros ->; auto|]. intros o. apply safe_reached.
Qed.

Lemma safe_read {A} s (f : option pystr -> prog A) :
  safe (f None) -> (forall text, (authority_row_id s = Ok id -> scalar_str text) -> safe (f (Some text))) ->
  safe (row_id ← lift (authority_row_id s); fetched ← _READ_ROW_SQL row_id; f fetched).
Proof.
  intros Hn Hs. apply safe_lift_bind. intros i Hi. cbn. intros o Ho.
  destruct o as [[text|]|]; cbn; [|done|done]. apply Hs. rewrite Hi. intros [= ->]. by apply Ho.
Qed.

Lemma safe_observed_bind {A} s (f : pystr * option AuthorityRow -> prog A) :
  safe (f ([], None)) ->
  (forall text r, (authority_row_id s = Ok id -> scalar_str text) ->
     parse_authority_payload (JStr text) s = Ok r -> safe (f (text, Some r))) ->
  safe (_read_observed s ≫= f).
Proof.
  intros Hn Hs. unfold _read_observed. destruct (authority_row_id s) as [i|e] eqn:Hi; [|done].
  cbn. intros o Ho. destruct o as [[text|]|]; cbn; [|done|done].
  destruct (parse_authority_payload (JStr text) s) as [r|e] eqn:Hp; cbn; [|done].
  apply Hs; [|done]. intros [= ->]. by apply Ho.
Qed.

Lemma safe_observed_or_none_bind {A} s (f : pystr * option AuthorityRow -> prog A) :
  safe (f ([], None)) ->
  (forall text r, (authority_row_id s = Ok id -> scalar_str text) ->
     parse_authority_payload (JStr text) s = Ok r -> safe (f (text, Some r))) ->
  safe (observed_or_none s ≫= f).
Proof.
  intros Hn Hs. unfold observed_or_none, _read_observed.
  assert (Hh : forall e, safe (pcatch (Throw e) (Ret ([], None)) ≫= f)).
  { intros e. cbn. by case_decide. }
  destruct (authority_row_id s) as [i|e] eqn:Hi; [|apply Hh]. cbn. intros o Ho.
  destruct o as [[text|]|]; cbn; [|done|done].
  destruct (parse_authority_payload (JStr text) s) as [r|e] eqn:Hp; cbn; [|by case_decide].
  apply Hs; [|done]. intros [= ->]. by apply Ho.
Qed.

Context (Hserver : scalar_str server).

(** A candidate built from an observed row replaces exactly that row. *)
Lemma justify_update s old new r updated :
  no_collision s -> authority_row_id s = Ok id -> (authority_row_id s = Ok id -> scalar_str old) ->
  parse_authority_payload (JStr old) s = Ok r ->
  row_server updated = row_server r ->
  (row_ok r -> row_strs updated /\ exclusive updated) ->
  canonical_row_text updated = Ok new ->
  (row_ok r -> row_ok updated -> exists l, astep server l (V2 r) (V2 updated)) ->
  justified new old.
Proof.
  intros Hnc Hid Hold Hp Hsrv Hstr Hnew Hstep. specialize (Hold Hid). apply Hnc in Hid as Hs. subst s.
  destruct (parse_authority_ok old server r) as [Hr Hrs];
    [done|by apply scalar_str_wf|by eapply authority_row_id_nonempty|done|].
  destruct (Hstr Hr) as [Hst Hx].
  destruct (parse_canonical updated new Hst Hx Hnew) as (Hpn & Hok & Hsc).
  destruct (Hstep Hr Hok) as [l Hl]. split; [done|]. exists l. unfold abs_text.
  rewrite Hsrv, Hrs in Hpn. by rewrite Hp, Hpn.
Qed.

(** *** Operations *)

Lemma safe_read_authority s : safe (read_authority s).
Proof.
  unfold read_authority. apply safe_read; [done|]. intros text _. apply safe_lift_bind. done.
Qed.

Lemma safe_read_stored_payload s : safe (read_stored_payload s).
Proof. unfold read_stored_payload. apply safe_lift_bind. intros i _. cbn. intros o _. apply safe_reached. Qed.

Lemma safe_confirm c : safe (confirm_authority c).
Proof.
  apply safe_bind; [apply safe_pcatch; [apply safe_read_authority|done]|].
  intros [r|]; [|done]. repeat case_match; done.
Qed.

Lemma neutral_payload_text s t :
  no_collision s -> authority_row_id s = Ok id -> _neutral_payload s = Ok t -> neutral_text t.
Proof.
  intros Hnc Hid H. apply Hnc in Hid as Hs. subst s. unfold _neutral_payload in H. res_inv H.
  destruct server as [|c srv] eqn:E; [done|]. cbn in B. injection B as <-. rewrite <- E in *.
  apply parse_canonical in H as (Hp & _ & Hsc).
  - split; [done|]. unfold abs_text. cbn [row_server] in Hp. by rewrite Hp.
  - split_and!; try done. by apply scalar_str_wf.
  - by left.
Qed.

Lemma safe_bootstrap s : no_collision s -> safe (bootstrap_authority s).
Proof.
  intros Hnc. unfold bootstrap_authority. apply safe_lift_bind. intros i Hi.
  apply safe_lift_bind. intros t Ht. cbn. split; [intros ->; by eapply neutral_payload_text|].
  intros [[]|]; [|done]. cbn. intros o _. destruct o as [[text|]|]; cbn; try done. apply safe_lift.
Qed.

Lemma safe_take s o : no_collision s -> owner_strs o -> safe (take_authority s o).
Proof.
  intros Hnc Ho. apply safe_observed_bind; [done|]. intros text r Ht Hp. case_decide as Hne; [done|].
  apply safe_lift_bind. intros new Hnew. apply safe_bind; [|by intros []].
  apply safe_cas. intros Hid. eapply justify_update; [done|done|done|done|..|exact Hnew|]; [done|..].
  - intros Hr. split; [|by apply (ok_exclusive _ Hr)]. destruct (row_ok_strs _ Hr) as (?&_&?&?).
    by split_and!.
  - intros Hr Hok. eexists. constructor; [done|]. apply (ok_owner _ Hok).
Qed.

Lemma safe_commit_spawn c sp :
  no_collision (cl_server c) -> spawn_strs sp -> safe (commit_spawn_obligation c sp).
Proof.
  intros Hnc Hsp. apply safe_observed_bind; [done|]. intros text r Ht Hp.
  apply safe_lift_bind. intros o [Hc Ho]%claim_owner_holds.
  destruct (row_spawn r) eqn:Es; [done|]. destruct (row_worker r) eqn:Ew; [done|].
  apply safe_lift_bind. intros new Hnew. rewrite set_sections_same in Hnew by done.
  apply safe_cas. intros Hid. eapply justify_update; [done|done|done|done|..|exact Hnew|]; [done|..].
  - intros Hr. split; [|by right]. destruct (row_ok_strs _ Hr) as (?&?&_&_). by split_and!.
  - intros Hr Hok. eexists. apply A_commit_spawn; [done..|]. apply (ok_spawn _ Hok).
Qed.

Lemma safe_clear_spawn c : no_collision (cl_server c) -> safe (clear_spawn_obligation c).
Proof.
  intros Hnc. apply safe_observed_or_none_bind; [done|]. intros text r Ht Hp.
  destruct (_claim_owner c r) as [o|] eqn:Hc; [|done]. apply claim_owner_holds in Hc as [Hc Ho].
  destruct (row_spawn r) eqn:Es; [|done].
  apply safe_lift_bind. intros new Hnew. rewrite set_sections_same in Hnew by done.
  apply safe_cas. intros Hid. eapply justify_update; [done|done|done|done|..|exact Hnew|]; [done|..].
  - intros Hr. split; [|by left]. destruct (row_ok_strs _ Hr) as (?&?&_&?). by split_and!.
  - intros Hr Hok. eexists. by eapply A_clear_spawn.
Qed.

Lemma safe_publish c t w :
  no_collision (cl_server c) -> worker_strs w -> safe (publish_worker c t w).
Proof.
  intros Hnc Hw. apply safe_observed_bind; [done|]. intros text r Ht Hp.
  destruct (_claim_owner c r) as [o|] eqn:Hc; [|done]. apply claim_owner_holds in Hc as [Hc Ho].
  destruct (row_spawn r) as [sp|] eqn:Es; [|done].
  destruct (str_eqb_spec (sp_token sp) t) as [Hts|]; [|done]. cbn [negb].
  destruct (row_worker r) eqn:Ew; [done|].
  destruct (str_eqb_spec (wk_token w) t) as [Htw|]; [|done]. cbn [negb].
  apply safe_lift_bind. intros new Hnew. rewrite set_sections_same in Hnew by done.
  apply safe_cas. intros Hid. eapply justify_update; [done|done|done|done|..|exact Hnew|]; [done|..].
  - intros Hr. split; [|by left]. destruct (row_ok_strs _ Hr) as (?&?&_&_). by split_and!.
  - intros Hr Hok. eexists. eapply A_publish; [done..|congruence|]. apply (ok_worker _ Hok).
Qed.

Lemma safe_clear_worker c t : no_collision (cl_server c) -> safe (clear_worker c t).
Proof.
  intros Hnc. apply safe_observed_or_none_bind; [done|]. intros text r Ht Hp.
  destruct (_claim_owner c r) as [o|] eqn:Hc; [|done]. apply claim_owner_holds in Hc as [Hc Ho].
  destruct (row_worker r) as [w|] eqn:Ew; [|done].
  destruct (str_eqb_spec (wk_token w) t) as [Htw|]; [|done]. cbn [negb].
  apply safe_lift_bind. intros new Hnew. rewrite set_sections_same in Hnew by done.
  apply safe_cas. intros Hid. eapply justify_update; [done|done|done|done|..|exact Hnew|]; [done|..].
  - intros Hr. split; [|by right]. destruct (row_ok_strs _ Hr) as (?&?&?&_). by split_and!.
  - intros Hr Hok. eexists. by eapply A_clear_worker.
Qed.

Definition evidence_strs (e : V1LegacyEvidence) : Prop :=
  opt_all worker_strs (ev_live_worker e) /\ opt_all spawn_strs (ev_spawn e).

Lemma resolve_sections_inv r e sp wk :
  _resolve_migration_sections r e = Ok (sp, wk) ->
  sp = opt_or (row_spawn r) (ev_spawn e) /\ wk = opt_or (row_worker r) (ev_live_worker e)
  /\ (sp = None \/ wk = None).
Proof.
  unfold _resolve_migration_sections. intros H. repeat case_match; try done; injection H as <- <-; auto.
Qed.

Lemma safe_migrate s ev :
  no_collision s -> opt_all evidence_strs ev -> safe (migrate_v1_to_v2 s ev).
Proof.
  intros Hnc Hev. unfold migrate_v1_to_v2.
  set (e := match ev with Some e => e | None => _ end).
  assert (He : evidence_strs e) by (subst e; by destruct ev).
  apply safe_lift_bind. intros _ _. apply safe_read; [done|]. intros text Ht.
  destruct (parse_authority_payload (JStr text) s) as [r2|e2] eqn:Hp; [done|]. case_decide; [|done].
  apply safe_lift_bind. intros r Hr. apply safe_lift_bind. intros [sp wk] Hres.
  apply safe_lift_bind. intros new Hnew. apply safe_cas. intros Hid.
  specialize (Ht Hid). apply Hnc in Hid as Hs. subst s.
  destruct (parse_v1_ok text server r) as [Hrok Hrs];
    [done|by apply scalar_str_wf|by eapply authority_row_id_nonempty|done|].
  apply resolve_sections_inv in Hres as (Hsp & Hwk & Hx).
  destruct (row_ok_strs _ Hrok) as (H1 & H2 & H3 & H4). destruct He as [He1 He2].
  apply parse_canonical in Hnew as (Hpn & _ & Hsc); [| |done].
  2: { split_and!; cbn; [by rewrite <- Hrs|done| |].
       - subst sp. by destruct (row_spawn r).
       - subst wk. by destruct (row_worker r). }
  split; [done|]. exists LMigrate. unfold abs_text. rewrite Hp, Hr. cbn [row_server] in Hpn. rewrite Hpn.
  replace (mkRow server _ _ _ sp wk) with (with_sections r sp wk) by (unfold with_sections; by rewrite Hrs).
  constructor; [| |done].
  - intros Hn. subst sp. by destruct (row_spawn r).
  - intros Hn. subst wk. by destruct (row_worker r).
Qed.
End safe.

(** ** Daemons *)

(** A request to the authority interface and its answer. *)
Inductive request :=
  | RRead (s : pystr)
  | RReadStored (s : pystr)
  | RBootstrap (s : pystr)
  | RTake (s : pystr) (o : AuthorityOwner)
  | RCommitSpawn (c : AuthorityClaim) (sp : SpawnObligation)
  | RClearSpawn (c : AuthorityClaim)
  | RPublish (c : AuthorityClaim) (token : pystr) (w : WorkerRecord)
  | RClearWorker (c : AuthorityClaim) (token : pystr)
  | RConfirm (c : AuthorityClaim)
  | RMigrate (s : pystr) (ev : option V1LegacyEvidence).

Inductive answer :=
  | ARow (r : option AuthorityRow)
  | AText (t : option pystr)
  | ABool (b : bool).

Definition answering {A} (f : A -> answer) (p : prog A) : prog answer := a ← p; Ret (f a).

Definition perform (r : request) : prog answer :=
  match r with
  | RRead s => answering ARow (read_authority s)
  | RReadStored s => answering AText (read_stored_payload s)
  | RBootstrap s => answering (fun r => ARow (Some r)) (bootstrap_authority s)
  | RTake s o => answering ARow (take_authority s o)
  | RCommitSpawn c sp => answering ABool (commit_spawn_obligation c sp)
  | RClearSpawn c => answering ABool (clear_spawn_obligation c)
  | RPublish c t w => answering ABool (publish_worker c t w)
  | RClearWorker c t => answering ABool (clear_worker c t)
  | RConfirm c => answering ABool (confirm_authority c)
  | RMigrate s ev => answering ABool (migrate_v1_to_v2 s ev)
  end.

(** Any exception becomes a value, for the daemon to act on. *)
Fixpoint attempt {A} (p : prog A) : prog (res A) :=
  match p with
  | Ret a => Ret (Ok a)
  | Throw e => Ret (Raise e)
  | Select i k => Select i (fun o => attempt (k o))
  | Insert i t k => Insert i t (fun o => attempt (k o))
  | Update i t x k => Update i t x (fun o => attempt (k o))
  end.

Section system.
Context (server : pystr) (id : Z).

(** Requests a fleet may make: servers with distinct row ids, and text that
    JSON carries faithfully. *)
Definition request_ok (r : request) : Prop :=
  match r with
  | RRead _ | RReadStored _ | RConfirm _ => True
  | RBootstrap s => no_collision server id s
  | RTake s o => no_collision server id s /\ owner_strs o
  | RCommitSpawn c sp => no_collision server id (cl_server c) /\ spawn_strs sp
  | RClearSpawn c | RClearWorker c _ => no_collision server id (cl_server c)
  | RPublish c _ w => no_collision server id (cl_server c) /\ worker_strs w
  | RMigrate s ev => no_collision server id s /\ opt_all evidence_strs ev
  end.

(** A daemon makes requests, each depending on the answers so far, forever
    or until it stops. *)
Inductive daemon : prog unit -> Prop :=
  | D_stop : daemon (Ret tt)
  | D_request r k :
      request_ok r -> (forall a, daemon (k a)) -> daemon (attempt (perform r) ≫= k).

(** Steps of the whole fleet: one statement of one daemon under some fault,
    the start or death of a daemon, or traffic on other rows of the table. *)
Inductive sys_step : store * list (prog unit) -> store * list (prog unit) -> Prop :=
  | S_exec st pool i f p st' p' :
      pool !! i = Some p -> exec f st p = Some (st', p') ->
      sys_step (st, pool) (st', <[i := p']> pool)
  | S_start st pool p :
      daemon p -> sys_step (st, pool) (st, pool ++ [p])
  | S_kill st pool i :
      sys_step (st, pool) (st, delete i pool)
  | S_env st st' pool :
      st' !! id = st !! id -> sys_step (st, pool) (st', pool).

Definition text_ok (st : store) : Prop := forall t, st !! id = Some t -> scalar_str t.

Definition sys_inv (s : store * list (prog unit)) : Prop :=
  text_ok (fst s) /\ Forall (fun p => safe server id p) (snd s).

Lemma safe_attempt {A} (p : prog A) : safe server id p -> safe server id (attempt p).
Proof. intros Hp. induction p; cbn in *; auto; destruct Hp; auto. Qed.

Lemma safe_answering {A} (f : A -> answer) p : safe server id p -> safe server id (answering f p).
Proof. intros Hp. by apply safe_bind. Qed.

Context (Hserver : scalar_str server).

Lemma safe_perform r : request_ok r -> safe server id (perform r).
Proof.
  destruct r; cbn [perform request_ok]; intros Hr; apply safe_answering;
    auto using safe_read_authority, safe_read_stored_payload, safe_confirm, safe_bootstrap,
      safe_clear_spawn, safe_clear_worker; destruct Hr;
    auto using safe_take, safe_commit_spawn, safe_publish, safe_migrate.
Qed.

Lemma daemon_safe p : daemon p -> safe server id p.
Proof.
  induction 1 as [|r k Hr Hk IH]; [done|]. apply safe_bind; [|auto].
  by apply safe_attempt, safe_perform.
Qed.

(** The row is untouched, or moved by one transition of the specification. *)
Definition row_step (st st' : store) : Prop :=
  st' !! id = st !! id \/ exists l, astep server l (abs server id st) (abs server id st').

Lemma row_step_abs st st' :
  row_step st st' ->
  abs server id st' = abs server id st \/ exists l, astep server l (abs server id st) (abs server id st').
Proof. intros [He|?]; [left|by right]. unfold abs. by rewrite He. Qed.

Lemma insert_row_step st i t :
  (i = id -> neutral_text server t) -> text_ok st ->
  text_ok (insert_row st i t) /\ row_step st (insert_row st i t).
Proof.
  intros Ht Hst. unfold insert_row. destruct (st !! i) eqn:Hi; [by split; [|left]|].
  destruct (decide (i = id)) as [->|Hne].
  - destruct (Ht eq_refl) as [Hsc Habs]. split.
    + intros t'. rewrite lookup_insert_eq. by intros [= <-].
    + right. exists LBootstrap. unfold abs. rewrite lookup_insert_eq, Hi, Habs. constructor.
  - split; [intros t'|left]; rewrite lookup_insert_ne by done; [apply Hst|done].
Qed.

Lemma cas_row_step st i t x st' won :
  (i = id -> justified server t x) -> text_ok st -> cas_row st i t x = (st', won) ->
  text_ok st' /\ row_step st st'.
Proof.
  intros Ht Hst. unfold cas_row. destruct (st !! i) as [old|] eqn:Hi.
  2: { intros [= <- <-]. by split; [|left]. }
  destruct (str_eqb_spec old x) as [->|]; intros [= <- <-]; [|by split; [|left]].
  destruct (decide (i = id)) as [->|Hne].
  - destruct (Ht eq_refl) as [Hsc [l Hl]]. split.
    + intros t'. rewrite lookup_insert_eq. by intros [= <-].
    + right. exists l. unfold abs. by rewrite lookup_insert_eq, Hi.
  - split; [intros t'|left]; rewrite lookup_insert_ne by done; [apply Hst|done].
Qed.

Lemma exec_step {A} f st (p : prog A) st' p' :
  text_ok st -> safe server id p -> exec f st p = Some (st', p') ->
  safe server id p' /\ text_ok st' /\ row_step st st'.
Proof.
  intros Hst Hp He. destruct p as [| |i k|i t k|i t x k]; cbn in He; try done.
  - injection He as <- <-. split; [|by split; [|left]].
    destruct f; apply Hp; cbn; try done. intros ->. destruct (st !! id) eqn:E; cbn; auto.
  - destruct Hp as [Ht Hk]. pose proof (insert_row_step st i t Ht Hst) as [? ?].
    injection He as He. destruct f; injection He as <- <-; split; auto. split; [done|by left].
  - destruct Hp as [Ht Hk]. destruct (cas_row st i t x) as [st2 won] eqn:Ec.
    pose proof (cas_row_step st i t x st2 won Ht Hst Ec) as [? ?].
    injection He as He. destruct f; injection He as <- <-; split; auto. split; [done|by left].
Qed.

Lemma sys_step_inv s s' :
  sys_inv s -> sys_step s s' ->
  sys_inv s' /\ row_step (fst s) (fst s').
Proof.
  intros [Hst Hp] Hs. destruct Hs as [st pool i f p st' p' Hi He|st pool p Hd|st pool i|st st' pool He];
    cbn [fst snd] in *.
  - assert (Hsp : safe server id p) by by eapply Forall_lookup_1 in Hp.
    destruct (exec_step f st p st' p' Hst Hsp He) as (? & ? & ?).
    split; [split; [done|]|done]. by apply Forall_insert.
  - split; [|by left]. split; [done|]. apply Forall_app_2; [done|].
    apply Forall_cons_2; [by apply daemon_safe|apply Forall_nil_2].
  - split; [|by left]. split; [done|]. by apply Forall_delete.
  - split; [split|].
    + intros t. cbn. rewrite He. apply Hst.
    + done.
    + by left.
Qed.

(** Atomic transitions between the abstract states of a run. *)
Definition asteps : relation astate := rtc (fun a a' => exists l, astep server l a a').

Lemma sys_steps_refine s s' :
  rtc sys_step s s' -> sys_inv s ->
  sys_inv s' /\ asteps (abs server id (fst s)) (abs server id (fst s')).
Proof.
  induction 1 as [s|s1 s2 s3 Hs _ IH]; intros Hi; [split; [done|constructor]|].
  destruct (sys_step_inv _ _ Hi Hs) as [Hi2 Ha]. destruct (IH Hi2) as [Hi3 Hr].
  split; [done|]. destruct (row_step_abs _ _ Ha) as [Heq|Hst]; [by rewrite <- Heq|by eapply rtc_l].
Qed.
End system.
