(* ===== verification/AuthorityTheorems.v ===== *)
(** Properties of the lifecycle authority: what any interleaving of daemons
    over the shared row guarantees, what each operation does when it runs
    undisturbed, and what the payload codec promises. *)

From stdpp Require Import gmap.
From S2P Require Import Prelude PyStr PyNum Json JsonFacts Uuid AuthorityRow AuthorityDb AuthorityRefine.

#[local] Arguments py : simpl never.
#[local] Arguments parse_authority_payload : simpl never.
#[local] Arguments _parse_v1_payload : simpl never.
#[local] Arguments canonical_row_text : simpl never.
#[local] Arguments _claim_owner : simpl never.
#[local] Arguments authority_row_id : simpl never.

(** ** Consequences of the abstract specification *)

Lemma astep_v2 server l r a :
  astep server l (V2 r) a ->
  exists r', a = V2 r' /\ row_server r' = row_server r /\ row_generation r' = row_generation r
    /\ row_epoch r <= row_epoch r' /\ (row_epoch r = row_epoch r' -> row_owner r = row_owner r').
Proof. intros H. inversion H; subst; eexists; (split; [done|]); cbn; split_and!; try done; lia. Qed.

Lemma asteps_v2 server r a :
  asteps server (V2 r) a ->
  exists r', a = V2 r' /\ row_server r' = row_server r /\ row_generation r' = row_generation r
    /\ row_epoch r <= row_epoch r' /\ (row_epoch r = row_epoch r' -> row_owner r = row_owner r').
Proof.
  intros H. remember (V2 r) as a0 eqn:E. revert r E.
  induction H as [a|a b c [l Hs] _ IH]; intros r ->; [by exists r|].
  apply astep_v2 in Hs as (r1 & -> & ? & ? & ? & ?).
  destruct (IH r1 eq_refl) as (r2 & -> & ? & ? & ? & ?). exists r2. split_and!; try congruence; try lia.
  intros. assert (row_epoch r = row_epoch r1) by lia. assert (row_epoch r1 = row_epoch r2) by lia.
  transitivity (row_owner r1); auto.
Qed.

(** The lifecycle token of the one consumer a row stands for: a spawn not yet
    resolved, or the published worker. *)
Definition consumer_token (r : AuthorityRow) : option pystr :=
  match row_worker r with
  | Some w => Some (wk_token w)
  | None => sp_token <$> row_spawn r
  end.

Definition occupied (a : astate) : Prop := exists r, a = V2 r /\ consumer_token r <> None.

Lemma astep_occupied server l r a :
  exclusive r -> astep server l (V2 r) a -> consumer_token r <> None -> occupied a ->
  exists r', a = V2 r' /\ consumer_token r' = consumer_token r.
Proof.
  unfold consumer_token. intros Hx H Hc Ho. inversion H; subst; cbn in *; (eexists; split; [done|]); cbn.
  - done.
  - repeat match goal with H : row_spawn r = _ |- _ => rewrite H in * | H : row_worker r = _ |- _ => rewrite H in * end. done.
  - destruct Ho as (r' & [= <-] & Ho). unfold consumer_token in Ho. cbn in *.
    destruct Hx as [Hx|Hx]; [congruence|]. rewrite Hx in *. done.
  - repeat match goal with H : row_spawn r = _ |- _ => rewrite H in * | H : row_worker r = _ |- _ => rewrite H in * end.
    cbn. by f_equal.
  - destruct Ho as (r' & [= <-] & Ho). unfold consumer_token in Ho. cbn in *.
    destruct Hx as [Hx|Hx]; [|congruence]. rewrite Hx in *. done.
Qed.

Section fleet.
Context (server : pystr) (id : Z).
Context (Hserver : scalar_str server) (Hid : authority_row_id server = Ok id).

Lemma abs_row_ok st r : text_ok id st -> abs server id st = V2 r -> row_ok r /\ row_server r = server.
Proof.
  intros Hst. unfold abs, abs_text. destruct (st !! id) as [t|] eqn:E; [|done].
  destruct (parse_authority_payload (JStr t) server) eqn:Hp; [|by case_match].
  intros [= <-]. eapply parse_authority_ok; [by apply Hst|by apply scalar_str_wf| |done].
  by eapply authority_row_id_nonempty.
Qed.

Lemma pool_safe pool : Forall (daemon server id) pool -> Forall (fun p => safe server id p) pool.
Proof. intros H. eapply Forall_impl; [exact H|]. intros p. by apply daemon_safe. Qed.

Lemma fleet_refines st pool s' :
  text_ok id st -> Forall (daemon server id) pool -> rtc (sys_step server id) (st, pool) s' ->
  sys_inv server id s' /\ asteps server (abs server id st) (abs server id (fst s')).
Proof.
  intros Hst Hp Hs. apply (sys_steps_refine server id Hserver _ _ Hs).
  split; [done|by apply pool_safe].
Qed.
End fleet.

(** ** Reachable fleets *)

Section reachable.
Context (server : pystr) (id : Z).

Definition reachable (s : store * list (prog unit)) : Prop :=
  exists st pool, text_ok id st /\ Forall (daemon server id) pool /\ rtc (sys_step server id) (st, pool) s.

Context (Hserver : scalar_str server).

Lemma reachable_inv s : reachable s -> sys_inv server id s.
Proof. intros (st & pool & Hst & Hp & Hs). by apply (fleet_refines server id Hserver st pool). Qed.

Lemma reachable_later s s' :
  reachable s -> rtc (sys_step server id) s s' ->
  reachable s' /\ asteps server (abs server id (fst s)) (abs server id (fst s')).
Proof.
  intros Hr Hs. split.
  - destruct Hr as (st & pool & ? & ? & ?). exists st, pool. split_and!; [done|done|]. by etransitivity.
  - by apply (sys_steps_refine server id Hserver _ _ Hs), reachable_inv.
Qed.

Lemma reachable_v2 s s' r :
  reachable s -> rtc (sys_step server id) s s' -> abs server id (fst s) = V2 r ->
  exists r', abs server id (fst s') = V2 r' /\ row_server r' = row_server r
    /\ row_generation r' = row_generation r /\ row_epoch r <= row_epoch r'
    /\ (row_epoch r = row_epoch r' -> row_owner r = row_owner r').
Proof.
  intros Hr Hs Ha. destruct (reachable_later s s' Hr Hs) as [_ Hsteps]. rewrite Ha in Hsteps.
  by apply asteps_v2 in Hsteps.
Qed.

(** Programs that only ever replace rows the claim [c] held. *)
Fixpoint claimed {A} (c : AuthorityClaim) (p : prog A) : Prop :=
  match p with
  | Ret _ | Throw _ => True
  | Select _ k => forall o, claimed c (k o)
  | Insert _ _ _ => False
  | Update i t x k =>
      (i = id -> exists r, parse_authority_payload (JStr x) server = Ok r /\ claim_holds c r)
      /\ forall o, claimed c (k o)
  end.

Lemma claimed_bind {A B} c (p : prog A) (f : A -> prog B) :
  claimed c p -> (forall a, claimed c (f a)) -> claimed c (p ≫= f).
Proof. intros Hp Hf. induction p; cbn in *; auto; destruct Hp; auto. Qed.

Lemma claimed_lift_bind {A B} c (m : res A) (f : A -> prog B) :
  (forall a, m = Ok a -> claimed c (f a)) -> claimed c (lift m ≫= f).
Proof. destruct m; cbn; auto. Qed.

Lemma claimed_observed {A} c (f : pystr * option AuthorityRow -> prog A) (obs : prog (pystr * option AuthorityRow)) :
  obs = _read_observed (cl_server c) \/ obs = observed_or_none (cl_server c) ->
  claimed c (f ([], None)) ->
  (forall text r, parse_authority_payload (JStr text) (cl_server c) = Ok r -> claimed c (f (text, Some r))) ->
  claimed c (obs ≫= f).
Proof.
  intros Hobs Hn Hs. destruct Hobs as [-> | ->]; unfold observed_or_none, _read_observed;
    destruct (authority_row_id (cl_server c)) as [i|e]; cbn; try done; try (by case_decide);
    intros [[text|]|]; cbn; try done;
    destruct (parse_authority_payload (JStr text) (cl_server c)) as [r|e] eqn:Hp; cbn; try done; auto;
    by case_decide.
Qed.

Lemma claimed_swap c text r r' :
  no_collision server id (cl_server c) -> parse_authority_payload (JStr text) (cl_server c) = Ok r ->
  claim_holds c r ->
  claimed c (candidate ← lift (canonical_row_text r'); _compare_and_swap (cl_server c) text candidate).
Proof.
  intros Hnc Hp Hc. apply claimed_lift_bind. intros new _. unfold _compare_and_swap.
  apply claimed_lift_bind. intros i Hi. cbn. split; [|by intros []].
  intros ->. rewrite <- (Hnc Hi). eauto.
Qed.

Definition request_claim (r : request) : option AuthorityClaim :=
  match r with
  | RCommitSpawn c _ | RClearSpawn c | RPublish c _ _ | RClearWorker c _ => Some c
  | _ => None
  end.

Lemma claimed_perform req c :
  request_claim req = Some c -> no_collision server id (cl_server c) -> claimed c (perform req).
Proof.
  intros Hreq Hnc. destruct req; cbn in Hreq; try done; injection Hreq as ->; apply claimed_bind; try done;
    (apply claimed_observed; [by auto|done|]); intros text r Hp;
    destruct (_claim_owner c r) as [o|e] eqn:Ho; try done;
    apply claim_owner_holds in Ho as [Hc _];
    repeat case_match; try done; by eapply claimed_swap.
Qed.

(** One statement of a program, in any store and under any fault. *)
Definition progress {A} (p p' : prog A) : Prop := exists f st st', exec f st p = Some (st', p').

Lemma claimed_exec {A} c f st (p : prog A) st' p' :
  claimed c p -> exec f st p = Some (st', p') -> claimed c p'.
Proof.
  intros Hp He. destruct p as [| |i k|i t k|i t x k]; cbn in *; try done.
  - destruct f; injection He as <- <-; auto.
  - destruct Hp. destruct (cas_row st i t x). destruct f; injection He as <- <-; auto.
Qed.

Lemma claimed_progress {A} c (p p' : prog A) : claimed c p -> rtc progress p p' -> claimed c p'.
Proof.
  intros Hp H. induction H as [|p1 p2 p3 (f & st & st' & He) _ IH]; [done|].
  apply IH. by eapply claimed_exec.
Qed.

(** A program of a superseded claim leaves the row alone. *)
Lemma claimed_stale {A} c f st (p : prog A) st' p' r :
  claimed c p -> exec f st p = Some (st', p') -> abs server id st = V2 r -> cl_epoch c < row_epoch r ->
  st' !! id = st !! id.
Proof.
  intros Hp He Ha Hlt. destruct p as [| |i k|i t k|i t x k]; cbn in *; try done.
  - destruct f; by injection He as <- <-.
  - assert (Hc : (cas_row st i t x).1 !! id = st !! id).
    { unfold cas_row. destruct (st !! i) as [old|] eqn:Hi; [|done].
      destruct (str_eqb_spec old x) as [->|]; [|done].
      destruct (decide (i = id)) as [->|Hne]; [|cbn; by rewrite lookup_insert_ne].
      destruct (proj1 Hp eq_refl) as (rx & Hx & He' & _). unfold abs, abs_text in Ha.
      rewrite Hi, Hx in Ha. injection Ha as ->. lia. }
    destruct (cas_row st i t x) as [st2 won]. destruct f; by injection He as <- <-.
Qed.

Lemma step_occupied s s' r :
  reachable s -> authority_row_id server = Ok id -> sys_step server id s s' ->
  abs server id (fst s) = V2 r -> consumer_token r <> None -> occupied (abs server id (fst s')) ->
  exists r', abs server id (fst s') = V2 r' /\ consumer_token r' = consumer_token r.
Proof.
  intros Hr Hid Hs Ha Hc Ho. destruct (reachable_inv s Hr) as [Ht Hp].
  destruct (sys_step_inv server id Hserver s s' (conj Ht Hp) Hs) as [_ [Heq|[l Hl]]%row_step_abs].
  - rewrite Heq, Ha. eauto.
  - rewrite Ha in Hl. destruct (abs_row_ok server id Hserver Hid _ _ Ht Ha) as [Hok _].
    eapply astep_occupied; [apply (ok_exclusive _ Hok)|done..].
Qed.
End reachable.

(** ** Undisturbed runs *)

Lemma run_bind {A B} st (p : prog A) (f : A -> prog B) :
  run st (p ≫= f) =
    let '(st', m) := run st p in
    match m with Ok a => run st' (f a) | Raise e => (st', Raise e) end.
Proof.
  revert st. induction p as [a|e|i k IH|i t k IH|i t x k IH]; intros st; cbn; try done.
  destruct (cas_row st i t x). apply IH.
Qed.

Lemma run_pcatch {A} st (p : prog A) (h : A) :
  run st (pcatch p (Ret h)) =
    let '(st', m) := run st p in
    (st', match m with Raise AuthorityError => Ok h | _ => m end).
Proof.
  revert st. induction p as [a|e|i k IH|i t k IH|i t x k IH]; intros st; cbn; try done.
  - case_decide as He; [by subst|]. by destruct e.
  - destruct (cas_row st i t x). apply IH.
Qed.

Lemma run_lift {A} st (m : res A) : run st (lift m) = (st, m).
Proof. by destruct m. Qed.

Lemma cas_row_same st id t new :
  st !! id = Some t -> cas_row st id new t = (<[id := new]> st, true).
Proof. unfold cas_row. intros ->. by rewrite str_eqb_refl. Qed.

(** A claim is honoured exactly when it holds of the row. *)
Definition claim_of (server : pystr) (r : AuthorityRow) (o : AuthorityOwner) : AuthorityClaim :=
  mkClaim server (row_epoch r) (ow_pid o) (ow_start_time_ticks o) (ow_boot_id o).

#[export] Instance claim_holds_dec c r : Decision (claim_holds c r).
Proof. unfold claim_holds. apply _. Defined.

Lemma claim_owner_dec c r :
  _claim_owner c r =
    if decide (claim_holds c r)
    then Ok (mkOwner (cl_pid c) (cl_start_time_ticks c) (cl_boot_id c)) else Raise AuthorityError.
Proof.
  unfold _claim_owner. case_decide as H.
  - destruct H as [He Ho]. rewrite He, Ho, Z.eqb_refl. cbn. by rewrite !Z.eqb_refl, str_eqb_refl.
  - destruct (row_epoch r =? cl_epoch c) eqn:E; [|done]. bool_z. cbn.
    destruct (row_owner r) as [[p t b]|] eqn:Ho; [|done]. cbn.
    destruct (p =? cl_pid c) eqn:?, (t =? cl_start_time_ticks c) eqn:?, (str_eqb b (cl_boot_id c)) eqn:Eb;
      try done. exfalso. apply H. bool_z. apply str_eqb_eq in Eb. subst. by split.
Qed.

Section alone.
Context (server : pystr) (id : Z) (st : store).
Context (Hid : authority_row_id server = Ok id).

Lemma abs_V2_text r :
  abs server id st = V2 r ->
  exists text, st !! id = Some text /\ parse_authority_payload (JStr text) server = Ok r.
Proof.
  unfold abs, abs_text. destruct (st !! id) as [t|] eqn:E; [|done].
  destruct (parse_authority_payload (JStr t) server) eqn:Hp; [|by case_match].
  intros [= <-]. eauto.
Qed.

Lemma run_observed r :
  abs server id st = V2 r ->
  exists text, st !! id = Some text /\ run st (_read_observed server) = (st, Ok (text, Some r)).
Proof.
  intros (text & Ht & Hp)%abs_V2_text. exists text. split; [done|].
  unfold _read_observed. rewrite Hid. cbn. rewrite Ht. cbn. by rewrite Hp.
Qed.

Lemma run_cas text new :
  st !! id = Some text -> run st (_compare_and_swap server text new) = (<[id := new]> st, Ok true).
Proof. intros Ht. unfold _compare_and_swap. rewrite Hid. cbn. by rewrite (cas_row_same _ _ text). Qed.

Lemma run_confirm r c :
  abs server id st = V2 r -> cl_server c = server ->
  run st (confirm_authority c) = (st, Ok (bool_decide (claim_holds c r))).
Proof.
  intros (text & Ht & Hp)%abs_V2_text Hs. unfold confirm_authority. rewrite Hs, run_bind, run_pcatch.
  unfold read_authority. rewrite Hid. cbn. rewrite Ht. cbn. rewrite Hp. cbn.
  pose proof (claim_owner_dec c r) as Hc. unfold _claim_owner in Hc. rewrite (bool_decide_decide).
  destruct (row_epoch r =? cl_epoch c); cbn in *; [|by destruct (decide _)].
  destruct (row_owner r) as [o|]; [|by destruct (decide _)].
  destruct (ow_pid o =? cl_pid c), (ow_start_time_ticks o =? cl_start_time_ticks c),
    (str_eqb (ow_boot_id o) (cl_boot_id c)); cbn in *; by destruct (decide _).
Qed.

(** Storing the canonical text of a row makes it the row. *)
Lemma abs_store r new :
  row_server r = server -> row_strs r -> exclusive r -> canonical_row_text r = Ok new ->
  abs server id (<[id := new]> st) = V2 r /\ text_ok id (<[id := new]> st) /\ row_ok r.
Proof.
  intros Hs Hr Hx Hc. destruct (parse_canonical r new Hr Hx Hc) as (Hp & ? & ?).
  split; [|split; [|done]].
  - unfold abs, abs_text. by rewrite lookup_insert_eq, <- Hs, Hp.
  - intros t. rewrite lookup_insert_eq. by intros [= <-].
Qed.

Lemma run_take r o :
  abs server id st = V2 r -> row_owner r <> Some o ->
  run st (take_authority server o) =
    let r' := set_owner r (row_epoch r + 1) o in
    match canonical_row_text r' with
    | Ok new => (<[id := new]> st, Ok (Some r'))
    | Raise e => (st, Raise e)
    end.
Proof.
  intros Ha Hne. destruct (run_observed r Ha) as (text & Ht & Hr). unfold take_authority.
  rewrite run_bind, Hr. cbn. rewrite decide_False by done. rewrite run_bind, run_lift.
  destruct (canonical_row_text _); [|done]. rewrite run_bind. by rewrite (run_cas _ _ Ht).
Qed.

(** Store a row in place of the observed one, or fail to encode it. *)
Definition stored (r : AuthorityRow) : store * res bool :=
  match canonical_row_text r with
  | Ok new => (<[id := new]> st, Ok true)
  | Raise e => (st, Raise e)
  end.

Lemma run_swap text r :
  st !! id = Some text ->
  run st (candidate ← lift (canonical_row_text r); _compare_and_swap server text candidate) = stored r.
Proof.
  intros Ht. rewrite run_bind, run_lift. unfold stored.
  destruct (canonical_row_text r); [|done]. by rewrite (run_cas _ _ Ht).
Qed.

Lemma run_commit_spawn r c sp :
  abs server id st = V2 r -> cl_server c = server ->
  run st (commit_spawn_obligation c sp) =
    if decide (claim_holds c r) then
      match row_spawn r, row_worker r with
      | None, None => stored (with_sections r (Some sp) None)
      | _, _ => (st, Ok false)
      end
    else (st, Raise AuthorityError).
Proof.
  intros Ha Hs. destruct (run_observed r Ha) as (text & Ht & Hr). unfold commit_spawn_obligation.
  rewrite Hs, run_bind, Hr. cbn. rewrite claim_owner_dec. case_decide as Hc; [|done]. cbn.
  destruct (row_spawn r); [done|]. destruct (row_worker r); [done|].
  destruct Hc as [_ Ho]. rewrite (set_sections_same r _ _ _ Ho). by apply run_swap.
Qed.

Lemma run_publish r c token w :
  abs server id st = V2 r -> cl_server c = server ->
  run st (publish_worker c token w) =
    if decide (claim_holds c r) then
      match row_spawn r, row_worker r with
      | Some sp, None =>
          if decide (sp_token sp = token) then
            if decide (wk_token w = token) then stored (with_sections r None (Some w))
            else (st, Raise AuthorityError)
          else (st, Ok false)
      | _, _ => (st, Ok false)
      end
    else (st, Ok false).
Proof.
  intros Ha Hs. destruct (run_observed r Ha) as (text & Ht & Hr). unfold publish_worker.
  rewrite Hs, run_bind, Hr. cbn. rewrite claim_owner_dec. case_decide as Hc; [|done].
  destruct (row_spawn r) as [sp|]; [|done].
  destruct (str_eqb_spec (sp_token sp) token); cbn [negb];
    [rewrite (decide_True _ _ e)|rewrite (decide_False _ _ n); by destruct (row_worker r)].
  destruct (row_worker r); [done|].
  destruct (str_eqb_spec (wk_token w) token); cbn [negb];
    [rewrite (decide_True _ _ e0)|by rewrite (decide_False _ _ n)].
  destruct Hc as [_ Ho]. rewrite (set_sections_same r _ _ _ Ho). by apply run_swap.
Qed.

Lemma run_observed_or_none r :
  abs server id st = V2 r ->
  exists text, st !! id = Some text /\ run st (observed_or_none server) = (st, Ok (text, Some r)).
Proof.
  intros (text & Ht & Hr)%run_observed. exists text. split; [done|].
  unfold observed_or_none. by rewrite run_pcatch, Hr.
Qed.

Lemma run_clear_spawn r c :
  abs server id st = V2 r -> cl_server c = server ->
  run st (clear_spawn_obligation c) =
    if decide (claim_holds c r) then
      match row_spawn r with
      | None => (st, Ok true)
      | Some _ => stored (with_sections r None (row_worker r))
      end
    else (st, Ok false).
Proof.
  intros Ha Hs. destruct (run_observed_or_none r Ha) as (text & Ht & Hr). unfold clear_spawn_obligation.
  rewrite Hs, run_bind, Hr. cbn. rewrite claim_owner_dec. case_decide as Hc; [|done].
  destruct (row_spawn r); [|done].
  destruct Hc as [_ Ho]. rewrite (set_sections_same r _ _ _ Ho). by apply run_swap.
Qed.

Lemma run_clear_worker r c token :
  abs server id st = V2 r -> cl_server c = server ->
  run st (clear_worker c token) =
    if decide (claim_holds c r) then
      match row_worker r with
      | None => (st, Ok true)
      | Some w =>
          if decide (wk_token w = token) then stored (with_sections r (row_spawn r) None)
          else (st, Ok false)
      end
    else (st, Ok false).
Proof.
  intros Ha Hs. destruct (run_observed_or_none r Ha) as (text & Ht & Hr). unfold clear_worker.
  rewrite Hs, run_bind, Hr. cbn. rewrite claim_owner_dec. case_decide as Hc; [|done].
  destruct (row_worker r) as [w|]; [|done].
  destruct (str_eqb_spec (wk_token w) token); cbn [negb];
    [rewrite (decide_True _ _ e)|by rewrite (decide_False _ _ n)].
  destruct Hc as [_ Ho]. rewrite (set_sections_same r _ _ _ Ho). by apply run_swap.
Qed.
End alone.

(** Execute up to [n] statements of the one daemon of a pool, without faults. *)
Fixpoint drive (n : nat) (st : store) (p : prog unit) : store * prog unit :=
  match n with
  | O => (st, p)
  | S n => match exec NoFault st p with Some (st', p') => drive n st' p' | None => (st, p) end
  end.

Lemma drive_steps server id n st p :
  rtc (sys_step server id) (st, [p]) (fst (drive n st p), [snd (drive n st p)]).
Proof.
  revert st p. induction n as [|n IH]; intros st p; cbn [drive]; [constructor|].
  destruct (exec NoFault st p) as [[st' p']|] eqn:E; [|constructor].
  eapply rtc_l; [|apply IH]. by apply (S_exec _ _ _ [p] 0%nat NoFault p).
Qed.

Definition runs {A} (st : store) (p : prog A) : bool :=
  match exec NoFault st p with Some _ => true | None => false end.
Definition after {A} (st : store) (p : prog A) : store * prog A := default (st, p) (exec NoFault st p).

Lemma after_exec {A} st (p : prog A) : runs st p = true -> exec NoFault st p = Some (fst (after st p), snd (after st p)).
Proof. unfold runs, after. by destruct (exec NoFault st p) as [[]|]. Qed.

(** A concrete fleet: one server, two successive owners. *)
Module Scenario.
Definition srv : pystr := py "srv".
Definition srv_id : Z := Eval vm_compute in match authority_row_id srv with Ok i => i | Raise _ => 0 end.
Definition o1 : AuthorityOwner := mkOwner 101 5000 (py "boot-1").
Definition o2 : AuthorityOwner := mkOwner 202 9000 (py "boot-2").
Definition c1 : AuthorityClaim := mkClaim srv 1 101 5000 (py "boot-1").
Definition c2 : AuthorityClaim := mkClaim srv 2 202 9000 (py "boot-2").
Definition sp : SpawnObligation := mkSpawn (py "tok") (py "c0ffee") 101 5000 (Some (py "boot-1")) None None true.
Definition wk : WorkerRecord := mkWorker (py "tok") (py "c0ffee") 300 300 300 7000 (py "w-1").
Definition plan (rs : list request) : prog unit :=
  foldr (fun r k => attempt (perform r) ≫= fun _ => k) (Ret tt) rs.
Definition starting : prog unit :=
  plan [RBootstrap srv; RTake srv o1; RCommitSpawn c1 sp; RPublish c1 (py "tok") wk].
(** A daemon that is superseded between committing a spawn and publishing it. *)
Definition takeover : prog unit :=
  plan [RBootstrap srv; RTake srv o1; RCommitSpawn c1 sp; RTake srv o2; RPublish c2 (py "tok") wk].
Definition at_step (n : nat) : store * list (prog unit) :=
  (fst (drive n ∅ takeover), [snd (drive n ∅ takeover)]).
Definition later (n : nat) (s : store * list (prog unit)) : store * list (prog unit) :=
  match snd s with
  | p :: _ => (fst (drive n (fst s) p), [snd (drive n (fst s) p)])
  | [] => s
  end.
Definition row (epoch : Z) o sp wk : AuthorityRow := mkRow srv epoch 0 o sp wk.

Lemma srv_scalar : scalar_str srv.
Proof. repeat constructor; vm_compute; congruence. Qed.
Lemma srv_row : authority_row_id srv = Ok srv_id.
Proof. vm_compute. reflexivity. Qed.
Lemma empty_ok : text_ok srv_id ∅.
Proof. intros t. by rewrite lookup_empty. Qed.

Lemma plan_daemon rs : Forall (request_ok srv srv_id) rs -> daemon srv srv_id (plan rs).
Proof. induction 1; cbn; constructor; auto. Qed.

Lemma no_collision_srv : no_collision srv srv_id srv.
Proof. intros _; reflexivity. Qed.

Ltac request_ok_tac :=
  repeat apply Forall_cons_2; try apply Forall_nil_2; cbn [request_ok cl_server c1 c2];
  try (split; [apply no_collision_srv|repeat split; vm_compute; reflexivity]); apply no_collision_srv.

Lemma starting_daemon : Forall (daemon srv srv_id) [starting].
Proof. apply Forall_cons_2; [|apply Forall_nil_2]. apply plan_daemon. request_ok_tac. Qed.

Lemma takeover_daemon : Forall (daemon srv srv_id) [takeover].
Proof. apply Forall_cons_2; [|apply Forall_nil_2]. apply plan_daemon. request_ok_tac. Qed.

Lemma start_reachable st : text_ok srv_id st -> reachable srv srv_id (st, [takeover]).
Proof. intros Ht. exists st, [takeover]. split_and!; [exact Ht|apply takeover_daemon|constructor]. Qed.

Lemma at_step_reachable n : reachable srv srv_id (at_step n).
Proof.
  exists ∅, [takeover]. split_and!; [apply empty_ok|apply takeover_daemon|apply drive_steps].
Qed.

Lemma later_steps n m : rtc (sys_step srv srv_id) (at_step n) (later m (at_step n)).
Proof. apply (drive_steps _ _ m). Qed.

Definition occupiedb (a : astate) : bool :=
  match a with V2 r => match consumer_token r with Some _ => true | None => false end | _ => false end.
Lemma occupiedb_spec a : occupiedb a = true -> occupied a.
Proof. destruct a as [| | |r]; try done. cbn. intros H. exists r. split; [done|]. by destruct (consumer_token r). Qed.

Fixpoint stays_occupied (n : nat) (st : store) (p : prog unit) : bool :=
  match n with
  | O => true
  | S n =>
      match exec NoFault st p with
      | Some (st', p') => occupiedb (abs srv srv_id st') && stays_occupied n st' p'
      | None => true
      end
  end.

Lemma stays_occupied_steps n st p :
  stays_occupied n st p = true ->
  rtc (fun a b => sys_step srv srv_id a b /\ occupied (abs srv srv_id (fst b)))
    (st, [p]) (fst (drive n st p), [snd (drive n st p)]).
Proof.
  revert st p. induction n as [|n IH]; intros st p; cbn [drive stays_occupied]; [constructor|].
  destruct (exec NoFault st p) as [[st' p']|] eqn:E; [|constructor].
  intros [Ho Hr]%andb_true_iff. eapply rtc_l; [|by apply IH]. split.
  - by apply (S_exec _ _ _ [p] 0%nat NoFault p).
  - by apply occupiedb_spec.
Qed.
End Scenario.

(** ** The fleet *)

(** C4: Any interleaving of daemons over the authority row, with statements
    failing before or after taking effect, daemons starting and dying at any
    point and other traffic on the table, moves the row of a server only
    through the atomic transitions of the specification; and every version 2
    row on the way is well formed, with at most one of spawn and worker. *)
Theorem fleet_refines_spec server id st pool s' :
  scalar_str server -> authority_row_id server = Ok id -> text_ok id st ->
  Forall (daemon server id) pool -> rtc (sys_step server id) (st, pool) s' ->
  asteps server (abs server id st) (abs server id (fst s'))
  /\ (forall r, abs server id (fst s') = V2 r -> row_ok r /\ row_server r = server).
Proof.
  intros Hs Hid Hst Hp Hsteps. destruct (fleet_refines server id Hs st pool s' Hst Hp Hsteps) as [[Hok _] Ha].
  split; [done|]. intros r Hr. by eapply abs_row_ok.
Qed.

Lemma fleet_refines_spec_witness :
  asteps Scenario.srv Absent (abs Scenario.srv Scenario.srv_id (fst (drive 20 ∅ Scenario.starting)))
  /\ abs Scenario.srv Scenario.srv_id (fst (drive 20 ∅ Scenario.starting))
     = V2 (Scenario.row 1 (Some Scenario.o1) None (Some Scenario.wk)).
Proof.
  split; [|vm_compute; reflexivity].
  exact (proj1 (fleet_refines_spec Scenario.srv Scenario.srv_id ∅ [Scenario.starting] _
    Scenario.srv_scalar Scenario.srv_row Scenario.empty_ok Scenario.starting_daemon
    (drive_steps _ _ 20 ∅ Scenario.starting))).
Defined.

(** C5: Ownership is fenced by the epoch.  Once the row is a version 2 row it
    stays one with the same server and generation; its epoch never decreases,
    and within one epoch its owner never changes, whatever the daemons do. *)
Theorem fencing_epoch_monotone server id s s' r :
  scalar_str server -> reachable server id s -> rtc (sys_step server id) s s' ->
  abs server id (fst s) = V2 r ->
  exists r', abs server id (fst s') = V2 r' /\ row_server r' = row_server r
    /\ row_generation r' = row_generation r /\ row_epoch r <= row_epoch r'
    /\ (row_epoch r = row_epoch r' -> row_owner r = row_owner r').
Proof. intros Hs. by apply reachable_v2. Qed.

Lemma fencing_epoch_monotone_witness :
  abs Scenario.srv Scenario.srv_id (fst (Scenario.at_step 6))
    = V2 (Scenario.row 1 (Some Scenario.o1) (Some Scenario.sp) None)
  /\ exists r', abs Scenario.srv Scenario.srv_id (fst (Scenario.later 4 (Scenario.at_step 6))) = V2 r'
       /\ 1 <= row_epoch r' /\ row_owner r' = Some Scenario.o2.
Proof.
  split; [vm_compute; reflexivity|].
  destruct (fencing_epoch_monotone Scenario.srv Scenario.srv_id _ _
    (Scenario.row 1 (Some Scenario.o1) (Some Scenario.sp) None) Scenario.srv_scalar
    (Scenario.at_step_reachable 6) (Scenario.later_steps 6 4)) as (r' & Ha & _ & _ & Hle & _);
    [vm_compute; reflexivity|].
  exists r'. split; [exact Ha|]. split; [exact Hle|].
  revert Ha. vm_compute. intros [= <-]. reflexivity.
Defined.

(** C6: A superseded claim never takes effect.  Once some reachable row has
    an epoch above the claim's, no statement of an operation made under the
    claim changes the row, however far the operation had progressed (it may
    have read the row before it was superseded) and whatever fault strikes. *)
Theorem superseded_claim_inert server id s s' r c req p f st' p' :
  scalar_str server -> reachable server id s -> rtc (sys_step server id) s s' ->
  abs server id (fst s) = V2 r -> cl_epoch c < row_epoch r ->
  request_claim req = Some c -> no_collision server id (cl_server c) ->
  rtc progress (perform req) p -> exec f (fst s') p = Some (st', p') ->
  st' !! id = fst s' !! id.
Proof.
  intros Hs Hr Hss Ha Hlt Hreq Hnc Hp He.
  destruct (reachable_v2 server id Hs s s' r Hr Hss Ha) as (r' & Ha' & _ & _ & Hle & _).
  apply (claimed_stale server id c f (fst s') p st' p' r'); [|done|done|lia].
  eapply claimed_progress; [by apply claimed_perform|exact Hp].
Qed.

(** The first daemon has read the row to publish its worker when the second
    takes over: its compare-and-swap is issued against the new row. *)
Lemma superseded_claim_inert_witness :
  let req := RPublish Scenario.c1 (py "tok") Scenario.wk in
  let p := snd (after (fst (Scenario.at_step 6)) (perform req)) in
  let s' := Scenario.later 0 (Scenario.at_step 8) in
  runs (fst s') p = true
  /\ fst (after (fst s') p) !! Scenario.srv_id = fst s' !! Scenario.srv_id.
Proof.
  intros req p s'. assert (Hp : runs (fst s') p = true) by (vm_compute; reflexivity).
  split; [exact Hp|].
  apply (superseded_claim_inert Scenario.srv Scenario.srv_id (Scenario.at_step 8) s'
    (Scenario.row 2 (Some Scenario.o2) (Some Scenario.sp) None) Scenario.c1 req p NoFault _ (snd (after (fst s') p))).
  - apply Scenario.srv_scalar.
  - apply Scenario.at_step_reachable.
  - apply Scenario.later_steps.
  - vm_compute. reflexivity.
  - vm_compute. reflexivity.
  - reflexivity.
  - apply Scenario.no_collision_srv.
  - apply rtc_once. exists NoFault, (fst (Scenario.at_step 6)), (fst (after (fst (Scenario.at_step 6)) (perform req))).
    apply after_exec. vm_compute. reflexivity.
  - apply after_exec. exact Hp.
Defined.

(** The consumer a row stands for keeps its identity.  Along any run in
    which the row stays occupied, by a spawn not yet resolved or by a published
    worker, the lifecycle token does not change: a second consumer can only be
    admitted after the row was seen empty. *)
Theorem consumer_identity_stable server id s s' r :
  scalar_str server -> authority_row_id server = Ok id -> reachable server id s ->
  abs server id (fst s) = V2 r -> consumer_token r <> None ->
  rtc (fun a b => sys_step server id a b /\ occupied (abs server id (fst b))) s s' ->
  exists r', abs server id (fst s') = V2 r' /\ consumer_token r' = consumer_token r.
Proof.
  intros Hs Hid Hr Ha Hc Hst. revert r Hr Ha Hc.
  induction Hst as [s|s1 s2 s3 [Hstep Hocc] _ IH]; intros r Hr Ha Hc; [eauto|].
  destruct (step_occupied server id Hs s1 s2 r Hr Hid Hstep Ha Hc Hocc) as (r2 & Ha2 & Ht2).
  destruct (IH r2) as (r3 & Ha3 & Ht3); [|done|congruence|exists r3; split; congruence].
  apply (reachable_later server id Hs s1 s2 Hr). by apply rtc_once.
Qed.

Lemma consumer_identity_stable_witness :
  exists r', abs Scenario.srv Scenario.srv_id (fst (Scenario.later 4 (Scenario.at_step 6))) = V2 r'
    /\ consumer_token r' = Some (py "tok") /\ row_worker r' = Some Scenario.wk.
Proof.
  destruct (consumer_identity_stable Scenario.srv Scenario.srv_id (Scenario.at_step 6) (Scenario.later 4 (Scenario.at_step 6))
    (Scenario.row 1 (Some Scenario.o1) (Some Scenario.sp) None)) as (r' & Ha & Ht).
  - apply Scenario.srv_scalar.
  - apply Scenario.srv_row.
  - apply Scenario.at_step_reachable.
  - vm_compute. reflexivity.
  - discriminate.
  - apply Scenario.stays_occupied_steps. vm_compute. reflexivity.
  - exists r'. split; [exact Ha|]. split; [exact Ht|].
    revert Ha. vm_compute. intros [= <-]. reflexivity.
Defined.

(** A row the daemons cannot trust (malformed, oversized, of an unknown
    version or for another server) is never rewritten by any of them. *)
Theorem untrusted_row_never_rewritten server id s s' :
  scalar_str server -> reachable server id s -> rtc (sys_step server id) s s' ->
  abs server id (fst s) = Untrusted -> fst s' !! id = fst s !! id.
Proof.
  intros Hs Hr Hss. induction Hss as [s|s1 s2 s3 Hstep _ IH]; intros Ha; [done|].
  destruct (sys_step_inv server id Hs s1 s2 (reachable_inv server id Hs s1 Hr) Hstep) as [_ [He|[l Hl]]].
  - rewrite IH; [done| |unfold abs; by rewrite He].
    apply (reachable_later server id Hs s1 s2 Hr). by apply rtc_once.
  - rewrite Ha in Hl. inversion Hl.
Qed.

Lemma untrusted_row_never_rewritten_witness :
  let st : store := <[Scenario.srv_id := py "not json"]> ∅ in
  abs Scenario.srv Scenario.srv_id st = Untrusted
  /\ fst (drive 20 st Scenario.takeover) !! Scenario.srv_id = Some (py "not json").
Proof.
  intros st. assert (Ha : abs Scenario.srv Scenario.srv_id st = Untrusted) by (vm_compute; reflexivity).
  split; [exact Ha|]. transitivity (st !! Scenario.srv_id); [|vm_compute; reflexivity].
  apply (untrusted_row_never_rewritten Scenario.srv Scenario.srv_id (st, [Scenario.takeover]) (_, [_])
    Scenario.srv_scalar) with (2 := drive_steps _ _ 20 st Scenario.takeover); [|exact Ha].
  apply Scenario.start_reachable. intros t. unfold st. rewrite lookup_insert_eq. intros [= <-].
  apply (bool_decide_unpack _). vm_compute. exact I.
Defined.

(** ** Operations run alone *)

(** Taking authority from another owner either fails to encode the new row
    and changes nothing, or installs the new owner one epoch later with the
    spawn and worker sections intact; the new owner's claim is then confirmed,
    and every claim of the old epoch is refused by every operation without
    touching the table. *)
Theorem takeover_fences server id st r o :
  scalar_str server -> authority_row_id server = Ok id -> text_ok id st ->
  abs server id st = V2 r -> row_owner r <> Some o -> owner_strs o ->
  (exists e, run st (take_authority server o) = (st, Raise e)
     /\ canonical_row_text (set_owner r (row_epoch r + 1) o) = Raise e)
  \/ exists st', let r' := set_owner r (row_epoch r + 1) o in
       run st (take_authority server o) = (st', Ok (Some r'))
       /\ abs server id st' = V2 r'
       /\ run st' (confirm_authority (claim_of server r' o)) = (st', Ok true)
       /\ forall c, cl_server c = server -> cl_epoch c <= row_epoch r ->
            run st' (confirm_authority c) = (st', Ok false)
            /\ (forall sp, run st' (commit_spawn_obligation c sp) = (st', Raise AuthorityError))
            /\ (forall t w, run st' (publish_worker c t w) = (st', Ok false))
            /\ run st' (clear_spawn_obligation c) = (st', Ok false)
            /\ (forall t, run st' (clear_worker c t) = (st', Ok false)).
Proof.
  intros Hs Hid Hst Ha Hne Ho. destruct (abs_row_ok server id Hs Hid st r Hst Ha) as [Hok Hsrv].
  rewrite (run_take server id st Hid r o Ha Hne). cbv zeta.
  set (r' := set_owner r (row_epoch r + 1) o).
  destruct (canonical_row_text r') as [new|e] eqn:Hc; [right|by left; exists e].
  exists (<[id := new]> st). split; [done|].
  assert (Hr' : abs server id (<[id := new]> st) = V2 r').
  { apply abs_store; [done| |apply (ok_exclusive _ Hok)|done].
    destruct (row_ok_strs _ Hok) as (? & _ & ? & ?). by split_and!. }
  split; [done|]. split.
  - rewrite (run_confirm _ _ _ Hid r') by done. rewrite bool_decide_true; [done|]. by destruct o.
  - intros c Hcs Hce.
    assert (Hn : ~ claim_holds c r') by (intros [He _]; cbn in He; lia).
    rewrite (run_confirm _ _ _ Hid r') by done. rewrite bool_decide_false by done.
    split_and!; [done|intros; rewrite (run_commit_spawn _ _ _ Hid r') by done
      |intros; rewrite (run_publish _ _ _ Hid r') by done|rewrite (run_clear_spawn _ _ _ Hid r') by done
      |intros; rewrite (run_clear_worker _ _ _ Hid r') by done]; by rewrite decide_False.
Qed.

Lemma takeover_fences_witness :
  let st := fst (Scenario.at_step 6) in
  let r := Scenario.row 1 (Some Scenario.o1) (Some Scenario.sp) None in
  exists st',
    run st (take_authority Scenario.srv Scenario.o2)
      = (st', Ok (Some (Scenario.row 2 (Some Scenario.o2) (Some Scenario.sp) None)))
    /\ run st' (publish_worker Scenario.c1 (py "tok") Scenario.wk) = (st', Ok false).
Proof.
  intros st r.
  destruct (takeover_fences Scenario.srv Scenario.srv_id st r Scenario.o2) as [(e & _ & He)|(st' & Hr & _ & _ & Hc)].
  - apply Scenario.srv_scalar.
  - apply Scenario.srv_row.
  - apply (reachable_inv _ _ Scenario.srv_scalar _ (Scenario.at_step_reachable 6)).
  - vm_compute. reflexivity.
  - vm_compute. congruence.
  - vm_compute. reflexivity.
  - exfalso. revert He. vm_compute. discriminate.
  - exists st'. split; [exact Hr|]. apply (Hc Scenario.c1); [reflexivity|vm_compute; congruence].
Defined.

(** A claimant hands a spawn over to its worker and retires it: with
    encodable rows, committing the obligation, publishing the worker under the
    same token and clearing it each succeed and leave exactly the section they
    announce; a second commit while the row is occupied is refused, and so is
    clearing a worker under another token. *)
Theorem worker_handover server id st r c sp w :
  scalar_str server -> authority_row_id server = Ok id -> text_ok id st ->
  abs server id st = V2 r -> cl_server c = server -> claim_holds c r ->
  row_spawn r = None -> row_worker r = None -> wk_token w = sp_token sp ->
  spawn_strs sp -> worker_strs w ->
  (forall s' w', (s', w') = (Some sp, None) \/ (s', w') = (None, Some w) \/ (s', w') = (None, None) ->
     exists t, canonical_row_text (with_sections r s' w') = Ok t) ->
  exists st1 st2 st3,
    run st (commit_spawn_obligation c sp) = (st1, Ok true)
    /\ abs server id st1 = V2 (with_sections r (Some sp) None)
    /\ (forall sp2, run st1 (commit_spawn_obligation c sp2) = (st1, Ok false))
    /\ run st1 (publish_worker c (sp_token sp) w) = (st2, Ok true)
    /\ abs server id st2 = V2 (with_sections r None (Some w))
    /\ (forall t, t <> wk_token w -> run st2 (clear_worker c t) = (st2, Ok false))
    /\ run st2 (clear_worker c (wk_token w)) = (st3, Ok true)
    /\ abs server id st3 = V2 (with_sections r None None).
Proof.
  intros Hs Hid Hst Ha Hcs Hc Hsp Hwk Htok Hss Hws Henc.
  destruct (abs_row_ok server id Hs Hid st r Hst Ha) as [Hok Hsrv].
  destruct (row_ok_strs _ Hok) as (? & ? & _ & _).
  destruct (Henc (Some sp) None) as [t1 E1]; [auto|].
  destruct (Henc None (Some w)) as [t2 E2]; [auto|].
  destruct (Henc None None) as [t3 E3]; [auto|].
  assert (A1 : abs server id (<[id := t1]> st) = V2 (with_sections r (Some sp) None))
    by (apply abs_store; [done|by split_and!|by right|done]).
  assert (A2 : abs server id (<[id := t2]> (<[id := t1]> st)) = V2 (with_sections r None (Some w)))
    by (apply abs_store; [done|by split_and!|by left|done]).
  assert (A3 : abs server id (<[id := t3]> (<[id := t2]> (<[id := t1]> st))) = V2 (with_sections r None None))
    by (apply abs_store; [done|by split_and!|by left|done]).
  eexists _, _, _. split_and!; [| exact A1 | | | exact A2 | | | exact A3].
  - rewrite (run_commit_spawn _ _ _ Hid r) by done. rewrite decide_True, Hsp, Hwk by done.
    unfold stored. by rewrite E1.
  - intros sp2. rewrite (run_commit_spawn _ _ _ Hid _ _ _ A1) by done. by rewrite decide_True.
  - rewrite (run_publish _ _ _ Hid _ _ _ _ A1) by done. rewrite decide_True by done.
    cbn [row_spawn row_worker with_sections]. rewrite !decide_True by done. unfold stored.
    change (with_sections (with_sections r (Some sp) None) None (Some w)) with (with_sections r None (Some w)).
    by rewrite E2.
  - intros t Ht. rewrite (run_clear_worker _ _ _ Hid _ _ _ A2) by done. rewrite decide_True by done.
    cbn [row_worker with_sections]. by rewrite decide_False.
  - rewrite (run_clear_worker _ _ _ Hid _ _ _ A2) by done. rewrite decide_True by done.
    cbn [row_worker with_sections]. rewrite decide_True by done. unfold stored.
    change (with_sections (with_sections r None (Some w)) _ None) with (with_sections r None None).
    by rewrite E3.
Qed.

Lemma worker_handover_witness :
  let st := fst (Scenario.at_step 4) in
  let r := Scenario.row 1 (Some Scenario.o1) None None in
  exists st1 st2 st3,
    run st (commit_spawn_obligation Scenario.c1 Scenario.sp) = (st1, Ok true)
    /\ run st1 (publish_worker Scenario.c1 (py "tok") Scenario.wk) = (st2, Ok true)
    /\ run st2 (clear_worker Scenario.c1 (py "tok")) = (st3, Ok true)
    /\ abs Scenario.srv Scenario.srv_id st3 = V2 r.
Proof.
  intros st r.
  destruct (worker_handover Scenario.srv Scenario.srv_id st r Scenario.c1 Scenario.sp Scenario.wk)
    as (st1 & st2 & st3 & H1 & _ & _ & H2 & _ & _ & H3 & A3).
  - apply Scenario.srv_scalar.
  - apply Scenario.srv_row.
  - apply (reachable_inv _ _ Scenario.srv_scalar _ (Scenario.at_step_reachable 4)).
  - vm_compute. reflexivity.
  - reflexivity.
  - split; reflexivity.
  - reflexivity.
  - reflexivity.
  - reflexivity.
  - repeat split; vm_compute; reflexivity.
  - repeat split; vm_compute; reflexivity.
  - intros s' w' [[= -> ->]|[[= -> ->]|[= -> ->]]]; eexists; vm_compute; reflexivity.
  - exists st1, st2, st3. split_and!; [exact H1|exact H2|exact H3|exact A3].
Defined.

(** *** Migration *)

Lemma migrate_alone server id st e :
  authority_row_id server = Ok id -> scalar_str server -> text_ok id st ->
  run st (migrate_v1_to_v2 server (Some e)) =
    match _check_migration_evidence e with
    | Raise x => (st, Raise x)
    | Ok _ =>
        match abs server id st with
        | V2 _ => (st, Ok true)
        | V1 r =>
            match _resolve_migration_sections r e with
            | Raise x => (st, Raise x)
            | Ok (sp, wk) => stored id st (with_sections r sp wk)
            end
        | _ => (st, Raise AuthorityError)
        end
    end.
Proof.
  intros Hid Hs Hst. unfold migrate_v1_to_v2. rewrite run_bind, run_lift.
  destruct (_check_migration_evidence e) as [[]|x]; [|done]. rewrite Hid. cbn.
  unfold abs, abs_text. destruct (st !! id) as [text|] eqn:Ht; [|done]. cbn.
  destruct (parse_authority_payload (JStr text) server) as [r2|x] eqn:Hp; [done|].
  apply fails_closed_parse in Hp as ->; [|by apply Hst]. rewrite decide_True by done.
  rewrite run_bind, run_lift. destruct (_parse_v1_payload (JStr text) server) as [r|x] eqn:Hv.
  2: { by apply fails_closed_parse_v1 in Hv as ->; [|by apply Hst]. }
  destruct (parse_v1_ok text server r) as [_ Hrs];
    [by apply Hst|by apply scalar_str_wf|by eapply authority_row_id_nonempty|done|].
  rewrite run_bind, run_lift. destruct (_resolve_migration_sections r e) as [[sp wk]|x]; [|done].
  unfold with_sections. rewrite Hrs. by apply run_swap.
Qed.

Lemma check_evidence_inv e :
  _check_migration_evidence e = Ok tt -> ev_worker_ambiguous e = false /\ ev_spawn_ambiguous e = false.
Proof. unfold _check_migration_evidence. by destruct (ev_worker_ambiguous e), (ev_spawn_ambiguous e). Qed.

Lemma disagree_false {A} `{EqDecision A} (a b : option A) :
  disagree a b = false -> b <> None -> opt_or a b = b.
Proof. destruct a, b; cbn; try done. intros H%negb_false_iff. by apply bool_decide_eq_true in H as ->. Qed.

Lemma resolve_sections_agree r e sp wk :
  _resolve_migration_sections r e = Ok (sp, wk) ->
  sp = opt_or (row_spawn r) (ev_spawn e) /\ wk = opt_or (row_worker r) (ev_live_worker e)
  /\ (sp = None \/ wk = None)
  /\ (ev_spawn e <> None -> sp = ev_spawn e) /\ (ev_live_worker e <> None -> wk = ev_live_worker e).
Proof.
  intros H. destruct (resolve_sections_inv r e sp wk H) as (-> & -> & Hx). split_and!; try done.
  - intros Hn. apply disagree_false; [|done]. revert H. unfold _resolve_migration_sections.
    destruct (disagree (row_spawn r) (ev_spawn e)); [|done]. by repeat case_match.
  - intros Hn. apply disagree_false; [|done]. revert H. unfold _resolve_migration_sections.
    destruct (disagree (row_worker r) (ev_live_worker e)); [|done]. by repeat case_match.
Qed.

Lemma abs_V1_ok server id st r :
  authority_row_id server = Ok id -> scalar_str server -> text_ok id st -> abs server id st = V1 r ->
  row_ok r /\ row_server r = server.
Proof.
  intros Hid Hs Hst. unfold abs, abs_text. destruct (st !! id) as [t|] eqn:E; [|done].
  destruct (parse_authority_payload (JStr t) server); [done|].
  destruct (_parse_v1_payload (JStr t) server) eqn:Hp; [|done].
  intros [= <-]. eapply parse_v1_ok; [by apply Hst|by apply scalar_str_wf| |done].
  by eapply authority_row_id_nonempty.
Qed.

(** Migrating a version 1 row either changes nothing and raises, or
    produces a version 2 row with the same epoch, generation and owner that
    keeps every recorded obligation: a section the legacy row had is carried
    over exactly, a missing one comes from the caller's evidence, evidence that
    is ambiguous or that disagrees with the row is never accepted, and the
    result never carries both a spawn and a worker. *)
Theorem migration_preserves_obligations server id st r e :
  authority_row_id server = Ok id -> scalar_str server -> text_ok id st ->
  abs server id st = V1 r -> evidence_strs e ->
  match run st (migrate_v1_to_v2 server (Some e)) with
  | (st', Raise _) => st' = st
  | (st', Ok b) =>
      b = true /\ ev_worker_ambiguous e = false /\ ev_spawn_ambiguous e = false
      /\ exists r', abs server id st' = V2 r' /\ row_epoch r' = row_epoch r
           /\ row_generation r' = row_generation r /\ row_owner r' = row_owner r /\ exclusive r'
           /\ row_spawn r' = opt_or (row_spawn r) (ev_spawn e)
           /\ row_worker r' = opt_or (row_worker r) (ev_live_worker e)
           /\ (ev_spawn e <> None -> row_spawn r' = ev_spawn e)
           /\ (ev_live_worker e <> None -> row_worker r' = ev_live_worker e)
  end.
Proof.
  intros Hid Hs Hst Ha He. rewrite (migrate_alone server id st e Hid Hs Hst), Ha.
  destruct (_check_migration_evidence e) as [[]|x] eqn:Hev; [|done].
  destruct (_resolve_migration_sections r e) as [[sp wk]|x] eqn:Hres; [|done].
  apply check_evidence_inv in Hev as [Hamb1 Hamb2].
  destruct (resolve_sections_agree r e sp wk Hres) as (Hsp & Hwk & Hx & Hspe & Hwke).
  unfold stored. destruct (canonical_row_text _) as [new|x] eqn:Hc; [|done].
  destruct (abs_V1_ok server id st r Hid Hs Hst Ha) as [Hok Hrs].
  destruct (row_ok_strs _ Hok) as (H1 & H2 & H3 & H4). destruct He as [He1 He2].
  split_and!; [done..|]. exists (with_sections r sp wk). split_and!; try done.
  apply abs_store; [done| |done|done]. split_and!; [done|done| |].
  - subst sp. cbn. by destruct (row_spawn r).
  - subst wk. cbn. by destruct (row_worker r).
Qed.

Module Legacy.
Import Scenario.
Definition text : pystr :=
  match json_dumps (JObj [(py "v", JInt 1); (py "type", JStr AUTHORITY_TYPE); (py "server", JStr srv);
                          (py "epoch", JInt 3); (py "generation", JInt 0); (py "owner", owner_mapping o1)]) with
  | Ok t => t
  | Raise _ => []
  end.
Definition st : store := <[srv_id := text]> ∅.
Definition evidence : V1LegacyEvidence := mkEvidence (Some wk) false None false.
End Legacy.

Lemma migration_preserves_obligations_witness :
  abs Scenario.srv Scenario.srv_id Legacy.st = V1 (Scenario.row 3 (Some Scenario.o1) None None)
  /\ exists st', run Legacy.st (migrate_v1_to_v2 Scenario.srv (Some Legacy.evidence)) = (st', Ok true)
       /\ exists r', abs Scenario.srv Scenario.srv_id st' = V2 r' /\ row_worker r' = Some Scenario.wk.
Proof.
  assert (Ha : abs Scenario.srv Scenario.srv_id Legacy.st = V1 (Scenario.row 3 (Some Scenario.o1) None None))
    by (vm_compute; reflexivity).
  split; [exact Ha|].
  assert (Ht : text_ok Scenario.srv_id Legacy.st).
  { intros t. unfold Legacy.st. rewrite lookup_insert_eq. intros [= <-].
    apply (bool_decide_unpack _). vm_compute. exact I. }
  pose proof (migration_preserves_obligations Scenario.srv Scenario.srv_id Legacy.st _ Legacy.evidence
    Scenario.srv_row Scenario.srv_scalar Ht Ha) as H.
  assert (Hok : exists st', run Legacy.st (migrate_v1_to_v2 Scenario.srv (Some Legacy.evidence)) = (st', Ok true)).
  { eexists. vm_compute. reflexivity. }
  destruct Hok as [st' Hr]. rewrite Hr in H.
  destruct H as (_ & _ & _ & r' & Ha' & _ & _ & _ & _ & _ & Hw & _ & _).
  { repeat split; vm_compute; reflexivity. }
  exists st'. split; [exact Hr|]. exists r'. split; [exact Ha'|exact Hw].
Defined.

(** ** The codec *)

Lemma json_eq_str_unique v s t : json_eq_str v s = true -> json_eq_str v t = true -> s = t.
Proof. destruct v; try done. cbn. by intros <-%str_eqb_eq <-%str_eqb_eq. Qed.

(** A text is accepted for one server only. *)
Lemma parse_one_server text s t r :
  scalar_str text -> parse_authority_payload (JStr text) s = Ok r -> t <> s ->
  parse_authority_payload (JStr text) t = Raise AuthorityError.
Proof.
  intros Hsc Hp Hne. destruct (parse_authority_payload (JStr text) t) as [r'|e] eqn:Ht.
  2: { by apply fails_closed_parse in Ht as ->. }
  exfalso. apply Hne. unfold parse_authority_payload in Hp, Ht. res_inv Hp. rewrite B in Ht. cbn in Ht.
  repeat case_match; try done. eapply json_eq_str_unique; by apply negb_false_iff.
Qed.

(** Encoding a row and parsing the stored text gives the row back.  The
    text fits the 4096-byte bound, the row read back is well formed, and the
    same text is refused for any other server. *)
Theorem canonical_row_round_trip r text :
  row_strs r -> exclusive r -> canonical_row_text r = Ok text ->
  parse_authority_payload (JStr text) (row_server r) = Ok r
  /\ row_ok r
  /\ (exists n, utf8_byte_length text = Ok n /\ n <= 4096)
  /\ (forall s, s <> row_server r -> parse_authority_payload (JStr text) s = Raise AuthorityError).
Proof.
  intros Hs Hx Hc. destruct (parse_canonical r text Hs Hx Hc) as (Hp & Hok & Hsc).
  split_and!; [done|done| |intros s Hne; by eapply parse_one_server].
  apply canonical_row_text_inv in Hc as (ow & sp & wk & _ & _ & _ & _ & _ & Hn). done.
Qed.

Lemma canonical_row_round_trip_witness :
  exists text, canonical_row_text (Scenario.row 7 (Some Scenario.o1) (Some Scenario.sp) None) = Ok text
    /\ parse_authority_payload (JStr text) Scenario.srv = Ok (Scenario.row 7 (Some Scenario.o1) (Some Scenario.sp) None)
    /\ parse_authority_payload (JStr text) (py "other") = Raise AuthorityError.
Proof.
  destruct (canonical_row_text (Scenario.row 7 (Some Scenario.o1) (Some Scenario.sp) None)) as [text|] eqn:E;
    [|exfalso; revert E; vm_compute; discriminate].
  exists text.
  destruct (canonical_row_round_trip (Scenario.row 7 (Some Scenario.o1) (Some Scenario.sp) None) text)
    as (Hp & _ & _ & Ho); [repeat split; vm_compute; reflexivity|right; reflexivity|exact E|].
  split; [reflexivity|]. split; [exact Hp|]. apply Ho. vm_compute. discriminate.
Defined.

(** C40: Parsing fails closed.  Whatever text is stored, the parser returns a
    row that satisfies every field constraint, with no more than one of spawn
    and worker, for exactly the requested server, or raises [AuthorityError];
    a text over the byte bound is always refused. *)
Theorem parse_authority_total text server :
  scalar_str text -> scalar_str server -> server <> [] ->
  (parse_authority_payload (JStr text) server = Raise AuthorityError
   \/ exists r, parse_authority_payload (JStr text) server = Ok r /\ row_ok r /\ row_server r = server)
  /\ (4096 < str_len8 text -> parse_authority_payload (JStr text) server = Raise AuthorityError).
Proof.
  intros Ht Hs Hne. split.
  - destruct (parse_authority_payload (JStr text) server) as [r|e] eqn:Hp.
    + right. exists r. split; [done|]. apply (parse_authority_ok text); auto using scalar_str_wf.
    + left. by apply fails_closed_parse in Hp as ->.
  - intros Hlen. unfold parse_authority_payload, decode_bounded.
    rewrite utf8_byte_length_scalar by done. cbn.
    destruct (Z.ltb_spec AUTHORITY_MAX_BYTES (str_len8 text)) as [|Hge]; [done|]. unfold AUTHORITY_MAX_BYTES in *. lia.
Qed.

Lemma parse_authority_total_witness :
  parse_authority_payload (JStr (py "[1, 2]")) Scenario.srv = Raise AuthorityError.
Proof.
  destruct (parse_authority_total (py "[1, 2]") Scenario.srv) as [[H|(r & H & _)] _].
  - apply (bool_decide_unpack _). vm_compute. exact I.
  - apply Scenario.srv_scalar.
  - vm_compute. discriminate.
  - exact H.
  - exfalso. revert H. vm_compute. discriminate.
Defined.
