(* ===== verification/ProcFs.v ===== *)
(** Exact process identity from [/proc] ([src/lubko/_exact_signal.py],
    [src/lubko/_process_group.py] and the identity helpers of
    [src/lubko/lifecycle.py] and [src/lubko/supervise.py]).

    The sources read [/proc/<pid>/stat], [status] and [environ] and call
    [getpgid] and [getsid]; [procfs] is one snapshot of what those reads
    return.  The second half states what a kernel process table looks like
    through [/proc] and proves the parsers exact on it. *)

From stdpp Require Import gmap.
From S2P Require Import Prelude PyStr PyNum Uuid.

#[local] Arguments py : simpl never.

(** ** Observations *)

Inductive read_result :=
  | ReadOk (data : pybytes)
  | ReadNotFound
  | ReadError.

#[export] Instance read_result_eq_dec : EqDecision read_result.
Proof. solve_decision. Defined.

Record procfs := mkProcfs {
  pf_stat : Z -> read_result;
  pf_status : Z -> read_result;
  pf_environ : Z -> read_result;
  (** [None] stands for [ProcessLookupError]. *)
  pf_getpgid : Z -> option Z;
  pf_getsid : Z -> option Z;
  pf_getpid : Z;
  (** [Path("/proc").iterdir()], by name; [None] when [/proc] is no directory. *)
  pf_entries : option (list pystr);
}.

(** ** Python operations on bytes *)

(** [s.rfind(c)] *)
Fixpoint rfind (c : Z) (s : pybytes) : Z :=
  match s with
  | [] => -1
  | x :: r =>
      let k := rfind c r in
      if 0 <=? k then k + 1 else if x =? c then 0 else -1
  end.

(** [s.split()]: runs of ASCII whitespace separate the fields. *)
Fixpoint split_ws_from (cur : pybytes) (s : pybytes) : list pybytes :=
  match s with
  | [] => match cur with [] => [] | _ => [rev cur] end
  | c :: r =>
      if c_isspace c
      then match cur with [] => split_ws_from [] r | _ => rev cur :: split_ws_from [] r end
      else split_ws_from (c :: cur) r
  end.
Definition split_ws (s : pybytes) : list pybytes := split_ws_from [] s.

(** [s.split(sep)] for a one-byte separator. *)
Fixpoint split_on_from (sep : Z) (cur : pybytes) (s : pybytes) : list pybytes :=
  match s with
  | [] => [rev cur]
  | c :: r => if c =? sep then rev cur :: split_on_from sep [] r else split_on_from sep (c :: cur) r
  end.
Definition split_on (sep : Z) (s : pybytes) : list pybytes := split_on_from sep [] s.

(** [s.splitlines()] on bytes: line feeds, carriage returns and their pair. *)
Fixpoint splitlines_from (cur : pybytes) (s : pybytes) : list pybytes :=
  match s with
  | [] => match cur with [] => [] | _ => [rev cur] end
  | 13 :: ((10 :: r) as r') => rev cur :: splitlines_from [] r
  | c :: r =>
      if (c =? 10) || (c =? 13) then rev cur :: splitlines_from [] r else splitlines_from (c :: cur) r
  end.
Definition splitlines (s : pybytes) : list pybytes := splitlines_from [] s.

(** Decimal digits with single underscores between them; also counts digits. *)
Fixpoint dec_run (s : pybytes) (acc : Z) (n : nat) : option (Z * nat) :=
  match s with
  | [] => Some (acc, n)
  | c :: r =>
      if is_digit c then dec_run r (acc * 10 + (c - 48)) (S n)
      else if c =? 95 then
        match r with
        | c' :: r' => if is_digit c' then dec_run r' (acc * 10 + (c' - 48)) (S n) else None
        | [] => None
        end
      else None
  end.

(** [int(s)] for bytes; [None] stands for [ValueError]. *)
Definition int_bytes (s : pybytes) : option Z :=
  let s := strip c_isspace s in
  let '(neg, s) :=
    match s with
    | c :: r => if c =? 45 then (true, r) else if c =? 43 then (false, r) else (false, s)
    | [] => (false, s)
    end in
  match s with
  | c :: r =>
      if is_digit c then
        match dec_run r (c - 48) 1 with
        | Some (z, n) => if (n <=? INT_MAX_STR_DIGITS)%nat then Some (if neg : bool then - z else z) else None
        | None => None
        end
      else None
  | [] => None
  end.

(** [s.decode("ascii", "replace")] *)
Definition decode_ascii (s : pybytes) : pystr := map (fun c => if c <? 128 then c else 0xFFFD) s.

Definition opt_eqb (a b : option Z) : bool :=
  match a, b with Some x, Some y => x =? y | None, None => true | _, _ => false end.

(** ** [_exact_signal] *)

Definition STAT_MIN_FIELDS : nat := 20.
Definition STAT_STATE_FIELD_INDEX : nat := 0.
Definition STAT_PPID_FIELD_INDEX : nat := 1.
Definition STAT_PGRP_FIELD_INDEX : nat := 2.
Definition STAT_UTIME_FIELD_INDEX : nat := 11.
Definition STAT_STIME_FIELD_INDEX : nat := 12.
Definition STAT_STARTTIME_FIELD_INDEX : nat := 19.

Definition _read_proc_stat (pf : procfs) (pid : Z) : option pybytes :=
  match pf_stat pf pid with ReadOk data => Some data | ReadNotFound | ReadError => None end.

Definition _split_stat_fields (stat : pybytes) : option (list pybytes) :=
  let close_paren := rfind 41 stat in
  if close_paren =? -1 then None
  else
    let fields := split_ws (drop (Z.to_nat (close_paren + 2)) stat) in
    if (length fields <? STAT_MIN_FIELDS)%nat then None else Some fields.

(** The fields of a process, when its stat entry is readable and well formed. *)
Definition stat_of (pf : procfs) (pid : Z) : option (list pybytes) :=
  stat ← _read_proc_stat pf pid; _split_stat_fields stat.

Definition proc_start_ticks (pf : procfs) (pid : Z) : option Z :=
  fields ← stat_of pf pid;
  field ← fields !! STAT_STARTTIME_FIELD_INDEX;
  int_bytes field.

Definition process_state_char (pf : procfs) (pid : Z) : option pystr :=
  fields ← stat_of pf pid;
  field ← fields !! STAT_STATE_FIELD_INDEX;
  Some (decode_ascii field).

(** [state in {"Z", "X"}] *)
Definition dead_state (state : pystr) : bool := str_eqb state (py "Z") || str_eqb state (py "X").

Definition process_is_zombie (pf : procfs) (pid : Z) : bool :=
  match process_state_char pf pid with
  | None => true
  | Some state => dead_state state
  end.

Definition process_ppid (pf : procfs) (pid : Z) : option Z :=
  fields ← stat_of pf pid;
  field ← fields !! STAT_PPID_FIELD_INDEX;
  int_bytes field.

Definition process_pgrp (pf : procfs) (pid : Z) : option Z :=
  fields ← stat_of pf pid;
  state ← fields !! STAT_STATE_FIELD_INDEX;
  if dead_state (decode_ascii state) then None
  else field ← fields !! STAT_PGRP_FIELD_INDEX; int_bytes field.

(** Total ticks; the conversion to seconds divides by [SC_CLK_TCK]. *)
Definition proc_cpu_ticks (pf : procfs) (pid : Z) : option Z :=
  fields ← stat_of pf pid;
  utime ← fields !! STAT_UTIME_FIELD_INDEX;
  stime ← fields !! STAT_STIME_FIELD_INDEX;
  u ← int_bytes utime;
  s ← int_bytes stime;
  Some (u + s).

(** ** [_process_group] *)

(** [name.isdigit()], for the ASCII names the kernel uses. *)
Definition isdigit (name : pystr) : bool :=
  match name with [] => false | _ => forallb is_digit name end.

Definition group_has_members (pf : procfs) (pgid : Z) : bool :=
  match pf_entries pf with
  | Some entries =>
      existsb (fun name => isdigit name && opt_eqb (process_pgrp pf (digits_val name)) (Some pgid)) entries
  | None => match pf_getpgid pf pgid with Some _ => true | None => false end
  end.

(** ** Worker identity ([lifecycle]) *)

Record ProcessIdentity := mkIdentity {
  id_pid : Z;
  id_pgid : Z;
  id_sid : Z;
  id_start_time_ticks : Z;
}.

Definition STATE_RUNNING : pystr := py "running".
Definition LIFECYCLE_MARKER_VAR : pystr := py "LUBKO_LIFECYCLE_TOKEN".

Record WorkerMeta := mkMeta {
  meta_schema_version : Z;
  meta_state : pystr;
  meta_pid : option Z;
  meta_pgid : option Z;
  meta_sid : option Z;
  meta_start_time_ticks : option Z;
  meta_token : option pystr;
  meta_repo : pystr;
  meta_git_commit : option pystr;
  meta_worker_id : option pystr;
  meta_log_path : pystr;
  meta_started_at : option pyfloat;
  meta_stopped_at : option pyfloat;
}.

Definition process_identity (pf : procfs) (pid : Z) : option ProcessIdentity :=
  if process_is_zombie pf pid then None
  else
    start_time_ticks ← proc_start_ticks pf pid;
    pgid ← pf_getpgid pf pid;
    sid ← pf_getsid pf pid;
    Some (mkIdentity pid pgid sid start_time_ticks).

(** A token that UTF-8 cannot encode raises [UnicodeEncodeError]. *)
Definition process_has_token (pf : procfs) (pid : Z) (token : pystr) : res bool :=
  expected ← utf8_encode (LIFECYCLE_MARKER_VAR ++ py "=" ++ token);
  match pf_environ pf pid with
  | ReadOk environ => Ok (existsb (fun entry => str_eqb entry expected) (split_on 0 environ))
  | ReadNotFound | ReadError => Ok false
  end.

(** [recorded is not None and recorded != observed] *)
Definition differs (recorded : option Z) (observed : Z) : bool :=
  match recorded with Some r => negb (r =? observed) | None => false end.

Definition identity_matches (meta : WorkerMeta) (ident : ProcessIdentity) : bool :=
  match meta_pid meta with
  | None => false
  | Some pid =>
      match meta_start_time_ticks meta with
      | None => false
      | Some t =>
          if negb (t =? id_start_time_ticks ident) then false
          else if differs (meta_pgid meta) (id_pgid ident) then false
          else if differs (meta_sid meta) (id_sid ident) then false
          else pid =? id_pid ident
      end
  end.

Definition worker_alive (pf : procfs) (meta : WorkerMeta) : res bool :=
  match meta_pid meta with
  | None => Ok false
  | Some pid =>
      match process_identity pf pid with
      | None => Ok false
      | Some ident =>
          if negb (identity_matches meta ident) then Ok false
          else match meta_token meta with
               | None => Ok true
               | Some token => process_has_token pf pid token
               end
      end
  end.

Definition process_absence_proven (pf : procfs) (pid : Z) (start_time_ticks : option Z) : bool :=
  match pf_stat pf pid with
  | ReadNotFound => true
  | ReadError => false
  | ReadOk stat =>
      let close_paren := rfind 41 stat in
      let fields := if negb (close_paren =? -1) then split_ws (drop (Z.to_nat (close_paren + 2)) stat) else [] in
      if (length fields <? STAT_MIN_FIELDS)%nat then false
      else if dead_state (nth STAT_STATE_FIELD_INDEX fields []) then true
      else match int_bytes (nth STAT_STARTTIME_FIELD_INDEX fields []), start_time_ticks with
           | Some observed_start, Some t => negb (observed_start =? t)
           | _, _ => false
           end
  end.

(** ** Worker child ([supervise]) *)

Record WorkerChild := mkChild {
  ch_pid : Z;
  ch_pgid : Z;
  ch_sid : Z;
  ch_start_time_ticks : Z;
  ch_token : pystr;
  ch_worker_id : pystr;
  ch_spawned_at : pyfloat;
}.

Definition child_alive (pf : procfs) (child : WorkerChild) : bool :=
  if process_is_zombie pf (ch_pid child) then false
  else opt_eqb (proc_start_ticks pf (ch_pid child)) (Some (ch_start_time_ticks child)).

(** The first line that starts with [PPid:] decides. *)
Fixpoint status_ppid_is (self : Z) (lines : list pybytes) : bool :=
  match lines with
  | [] => false
  | raw :: rest =>
      match strip_prefix (py "PPid:") raw with
      | Some _ =>
          match split_ws raw !! 1%nat with
          | Some field => opt_eqb (int_bytes field) (Some self)
          | None => false
          end
      | None => status_ppid_is self rest
      end
  end.

Definition child_is_our_direct_child (pf : procfs) (child : WorkerChild) : bool :=
  if negb (child_alive pf child) then false
  else match pf_status pf (ch_pid child) with
       | ReadOk status => status_ppid_is (pf_getpid pf) (splitlines status)
       | ReadNotFound | ReadError => false
       end.

(** ** The kernel's side *)

(** A process as [/proc/<pid>/stat] describes it.  [pr_mid] are the fields
    between the session and the start time, [pr_rest] those after it. *)
Record process := mkProcess {
  pr_comm : pybytes;
  pr_state : Z;
  pr_ppid : Z;
  pr_pgrp : Z;
  pr_session : Z;
  pr_mid : list Z;
  pr_start : Z;
  pr_rest : list Z;
}.

Definition stat_fields (p : process) : list pybytes :=
  [pr_state p] :: map int_repr ([pr_ppid p; pr_pgrp p; pr_session p] ++ pr_mid p ++ [pr_start p] ++ pr_rest p).

(** [%d (%s) %c %d ...], the fields separated by one space. *)
Definition render_stat (pid : Z) (p : process) : pybytes :=
  int_repr pid ++ py " (" ++ pr_comm p ++ py ")"
    ++ concat (map (fun f => 32 :: f) (stat_fields p)) ++ [10].

Definition word_byte (c : Z) : bool := negb (c_isspace c) && negb (c =? 41).

Record process_wf (p : process) : Prop := {
  wf_state : word_byte (pr_state p) = true /\ pr_state p < 128;
  wf_mid : length (pr_mid p) = 15%nat;
  wf_ints : Forall (fun z => int_repr_ok z = true)
              ([pr_ppid p; pr_pgrp p; pr_session p] ++ pr_mid p ++ [pr_start p] ++ pr_rest p);
}.

Definition running (p : process) : Prop := pr_state p <> 90 /\ pr_state p <> 88.

(** *** Parsing what the kernel prints *)

Lemma rfind_bounds c s : -1 <= rfind c s < Z.of_nat (length s).
Proof. induction s as [|x s IH]; simpl; [lia|]. repeat case_match; bool_z; lia. Qed.

Lemma rfind_app_last c a b :
  Forall (fun x => x <> c) b -> rfind c (a ++ c :: b) = Z.of_nat (length a).
Proof.
  intros Hb. assert (Hn : rfind c b = -1).
  { induction Hb as [|x b Hx Hb IH]; [done|]. simpl. rewrite IH. simpl. case_match; [bool_z; done|done]. }
  induction a as [|x a IH]; simpl.
  - rewrite Hn. simpl. by rewrite Z.eqb_refl.
  - rewrite IH. case_match; bool_z; lia.
Qed.

Definition word (f : pybytes) : Prop := f <> [] /\ Forall (fun c => word_byte c = true) f.

Lemma split_ws_word f cur r :
  Forall (fun c => word_byte c = true) f ->
  split_ws_from cur (f ++ r) = split_ws_from (rev f ++ cur) r.
Proof.
  intros Hf. revert cur. induction Hf as [|c f Hc _ IH]; intros cur; [done|].
  cbn [app split_ws_from]. unfold word_byte in Hc. apply andb_true_iff in Hc as [Hc _].
  apply negb_true_iff in Hc. rewrite Hc, IH. simpl. by rewrite <- app_assoc.
Qed.

Lemma split_ws_flush f r :
  word f -> split_ws_from (rev f) (32 :: r) = f :: split_ws_from [] (32 :: r).
Proof.
  intros [Hne Hf]. cbn. destruct (rev f) eqn:E; [|by rewrite <- E, rev_involutive].
  by rewrite <- (rev_involutive f), E in Hne.
Qed.

Lemma split_ws_concat f fs :
  word f -> Forall word fs ->
  split_ws_from (rev f) (concat (map (fun f => 32 :: f) fs) ++ [10]) = f :: fs.
Proof.
  intros Hf Hfs. revert f Hf. induction Hfs as [|g fs Hg _ IH]; intros f Hf.
  - destruct Hf as [Hne _]. cbn. destruct (rev f) eqn:E; [by rewrite <- (rev_involutive f), E in Hne|].
    by rewrite <- E, rev_involutive.
  - cbn [map concat app]. rewrite split_ws_flush by done. cbn. f_equal.
    rewrite <- app_assoc, split_ws_word by apply Hg. rewrite app_nil_r. by apply IH.
Qed.

Lemma digit_word c : is_digit c = true -> word_byte c = true.
Proof.
  unfold is_digit, word_byte, c_isspace. intros H. bool_z.
  destruct (c =? 32) eqn:?, (9 <=? c) eqn:?, (c <=? 13) eqn:?, (c =? 41) eqn:?; try done; bool_z; lia.
Qed.

Lemma nat_repr_word z : 0 <= z -> word (nat_repr z).
Proof.
  intros Hz. split.
  - destruct (Z.eq_dec z 0) as [->|Hne]; [done|]. destruct (nat_repr_lead z) as (d & r & -> & _); [lia|done].
  - eapply Forall_impl; [by apply nat_repr_digits|]. apply digit_word.
Qed.

Lemma int_repr_word z : word (int_repr z).
Proof.
  unfold int_repr. destruct (z <? 0) eqn:E; bool_z; [|apply nat_repr_word; lia].
  split; [done|]. apply Forall_cons_2; [done|]. apply nat_repr_word. lia.
Qed.

Lemma dec_run_digits l acc n :
  Forall (fun c => is_digit c = true) l ->
  dec_run l acc n = Some (fold_left (fun a d => a * 10 + (d - 48)) l acc, (n + length l)%nat).
Proof.
  intros Hl. revert acc n. induction Hl as [|c l Hc _ IH]; intros acc n; cbn; [by rewrite Nat.add_0_r|].
  rewrite Hc, IH. do 2 f_equal. lia.
Qed.

Lemma word_strip f : word f -> strip c_isspace f = f.
Proof.
  intros [_ Hf]. apply strip_none. eapply Forall_impl; [exact Hf|]. intros c Hc.
  unfold word_byte in Hc. apply andb_true_iff in Hc as [Hc _]. by apply negb_true_iff.
Qed.

Lemma int_bytes_repr z : int_repr_ok z = true -> int_bytes (int_repr z) = Some z.
Proof.
  intros Hok. unfold int_bytes. rewrite word_strip by apply int_repr_word.
  set (n := Z.abs z) in *. assert (Hn : 0 <= n) by lia.
  assert (Hd : exists c r, nat_repr n = c :: r /\ is_digit c = true /\ Forall (fun c => is_digit c = true) r
            /\ fold_left (fun a d => a * 10 + (d - 48)) r (c - 48) = n /\ (S (length r) <= INT_MAX_STR_DIGITS)%nat).
  { pose proof (nat_repr_digits n Hn) as Hds. pose proof (nat_repr_val n Hn) as Hv.
    destruct (nat_repr_word n Hn) as [Hne _]. unfold int_repr_ok in Hok. fold n in Hok.
    destruct (nat_repr n) as [|c r]; [done|]. apply Forall_cons in Hds as [Hc Hr].
    exists c, r. split_and!; [done|done|done|exact Hv|by apply Nat.leb_le in Hok]. }
  destruct Hd as (c & r & Er & Hc & Hr & Hv & Hlen).
  assert (Hcs : (c =? 45) = false /\ (c =? 43) = false).
  { unfold is_digit in Hc. bool_z. destruct (c =? 45) eqn:?, (c =? 43) eqn:?; bool_z; lia. }
  destruct Hcs as [H45 H43]. apply Nat.leb_le in Hlen.
  unfold int_repr. destruct (Z.ltb_spec z 0).
  - replace (- z) with n by lia. rewrite Er. cbn -[is_digit dec_run Nat.leb INT_MAX_STR_DIGITS].
    rewrite Hc, dec_run_digits by done. rewrite Hv. cbn [Nat.add]. rewrite Hlen. f_equal. lia.
  - replace n with z in Er by lia. rewrite Er, H45, H43. cbn -[is_digit dec_run Nat.leb INT_MAX_STR_DIGITS].
    rewrite Hc, dec_run_digits by done. rewrite Hv.
    cbn [Nat.add]. rewrite Hlen. f_equal. lia.
Qed.

Lemma stat_fields_words p : process_wf p -> Forall word (stat_fields p).
Proof.
  intros [[Hs _] _ _]. apply Forall_cons_2.
  - split; [done|]. by apply Forall_cons_2; [|apply Forall_nil_2].
  - apply Forall_forall. intros f Hf. apply list_elem_of_In, in_map_iff in Hf as (z & <- & _). apply int_repr_word.
Qed.

Lemma word_no_paren f : word f -> Forall (fun x => x <> 41) f.
Proof.
  intros [_ Hf]. eapply Forall_impl; [exact Hf|]. intros c Hc -> . done.
Qed.

Lemma concat_no_paren fs :
  Forall word fs -> Forall (fun x => x <> 41) (concat (map (fun f => 32 :: f) fs) ++ [10]).
Proof.
  induction 1 as [|f fs Hf _ IH]; cbn [map concat app]; [by apply Forall_cons_2; [|apply Forall_nil_2]|].
  apply Forall_cons_2; [done|]. rewrite <- app_assoc. apply Forall_app_2; [by apply word_no_paren|done].
Qed.

(** Everything before the parenthesis that closes the command name. *)
Definition stat_prefix (pid : Z) (p : process) : pybytes := int_repr pid ++ py " (" ++ pr_comm p.

Lemma render_stat_prefix pid p :
  render_stat pid p =
    stat_prefix pid p ++ 41 :: concat (map (fun f => 32 :: f) (stat_fields p)) ++ [10].
Proof. unfold render_stat, stat_prefix. by rewrite <- !app_assoc. Qed.

Lemma render_stat_rfind pid p :
  process_wf p -> rfind 41 (render_stat pid p) = Z.of_nat (length (stat_prefix pid p)).
Proof.
  intros Hp. rewrite render_stat_prefix. apply rfind_app_last. by apply concat_no_paren, stat_fields_words.
Qed.

Lemma render_stat_fields pid p :
  process_wf p ->
  split_ws (drop (Z.to_nat (rfind 41 (render_stat pid p) + 2)) (render_stat pid p)) = stat_fields p.
Proof.
  intros Hp. rewrite render_stat_rfind, render_stat_prefix by done.
  replace (Z.to_nat (Z.of_nat (length (stat_prefix pid p)) + 2)) with (length (stat_prefix pid p) + 2)%nat by lia.
  rewrite drop_app_add. pose proof (stat_fields_words p Hp) as Hw. unfold split_ws.
  change (stat_fields p) with ([pr_state p] :: tail (stat_fields p)) in *.
  apply Forall_cons in Hw as [Hf Hfs]. cbn [map concat app drop].
  change (pr_state p :: ?x) with ([pr_state p] ++ x). rewrite split_ws_word by apply Hf.
  exact (split_ws_concat [pr_state p] _ Hf Hfs).
Qed.

Lemma render_stat_found pid p : process_wf p -> (rfind 41 (render_stat pid p) =? -1) = false.
Proof. intros Hp. rewrite render_stat_rfind by done. apply Z.eqb_neq. lia. Qed.

Lemma stat_fields_length p : process_wf p -> (STAT_MIN_FIELDS <= length (stat_fields p))%nat.
Proof.
  intros [_ Hm _]. unfold stat_fields, STAT_MIN_FIELDS. cbn [length].
  rewrite length_map, !length_app, Hm. cbn [length]. lia.
Qed.

Lemma stat_fields_state p : stat_fields p !! STAT_STATE_FIELD_INDEX = Some [pr_state p].
Proof. done. Qed.
Lemma stat_fields_ppid p : stat_fields p !! STAT_PPID_FIELD_INDEX = Some (int_repr (pr_ppid p)).
Proof. done. Qed.
Lemma stat_fields_pgrp p : stat_fields p !! STAT_PGRP_FIELD_INDEX = Some (int_repr (pr_pgrp p)).
Proof. done. Qed.
Lemma stat_fields_start p :
  process_wf p -> stat_fields p !! STAT_STARTTIME_FIELD_INDEX = Some (int_repr (pr_start p)).
Proof.
  intros [_ Hm _]. unfold stat_fields, STAT_STARTTIME_FIELD_INDEX.
  change (([pr_state p] :: ?l) !! 19%nat) with (l !! 18%nat). rewrite map_app.
  change ((map int_repr [?a; ?b; ?c] ++ ?l) !! 18%nat) with (l !! 15%nat).
  rewrite map_app, lookup_app_r by (rewrite length_map; lia). rewrite length_map, Hm. done.
Qed.

Lemma wf_int p z :
  process_wf p -> In z ([pr_ppid p; pr_pgrp p; pr_session p] ++ pr_mid p ++ [pr_start p] ++ pr_rest p) ->
  int_bytes (int_repr z) = Some z.
Proof.
  intros [_ _ Hi] Hz. apply int_bytes_repr. rewrite Forall_forall in Hi. by apply Hi, list_elem_of_In.
Qed.

Lemma dead_state_running p : process_wf p -> dead_state (decode_ascii [pr_state p]) = false <-> running p.
Proof.
  intros [[_ Hs] _ _]. unfold decode_ascii, dead_state, running. cbn [map].
  replace (pr_state p <? 128) with true by lia. eval_py. cbn.
  destruct (Z.eqb_spec (pr_state p) 90), (Z.eqb_spec (pr_state p) 88); cbn; split; try done; tauto.
Qed.

Lemma dead_state_bytes p : process_wf p -> dead_state [pr_state p] = dead_state (decode_ascii [pr_state p]).
Proof. intros [[_ Hs] _ _]. unfold decode_ascii. cbn [map]. by replace (pr_state p <? 128) with true by lia. Qed.

(** *** A snapshot of a process table *)

Record describes (pf : procfs) (t : gmap Z process) : Prop := {
  d_present : forall pid p, t !! pid = Some p ->
    process_wf p /\ (pf_stat pf pid = ReadOk (render_stat pid p) \/ pf_stat pf pid = ReadError);
  d_absent : forall pid, t !! pid = None -> pf_stat pf pid = ReadNotFound;
  d_entries : exists entries, pf_entries pf = Some entries
    /\ (forall pid p, t !! pid = Some p -> In (int_repr pid) entries);
  d_pids : forall pid p, t !! pid = Some p -> 0 < pid;
}.

(** A running process with this exact identity. *)
Definition runs_as (t : gmap Z process) (pid start : Z) : Prop :=
  exists p, t !! pid = Some p /\ running p /\ pr_start p = start.

Section table.
Context (pf : procfs) (t : gmap Z process) (Hd : describes pf t).

Lemma stat_of_present pid p :
  t !! pid = Some p -> pf_stat pf pid <> ReadError -> stat_of pf pid = Some (stat_fields p).
Proof.
  intros Hp Hr. destruct (d_present _ _ Hd pid p Hp) as [Hw [Hs|]]; [|done].
  unfold stat_of, _read_proc_stat. rewrite Hs. cbn. unfold _split_stat_fields.
  rewrite render_stat_found, render_stat_fields by done.
  destruct (Nat.ltb_spec (length (stat_fields p)) STAT_MIN_FIELDS) as [Hlt|]; [|done].
  pose proof (stat_fields_length p Hw). lia.
Qed.

Lemma stat_of_inv pid fields :
  stat_of pf pid = Some fields ->
  exists p, t !! pid = Some p /\ process_wf p /\ fields = stat_fields p /\ pf_stat pf pid <> ReadError.
Proof.
  intros H. destruct (t !! pid) as [p|] eqn:Hp.
  - destruct (d_present _ _ Hd pid p Hp) as [Hw [Hs|Hs]].
    + exists p. split_and!; [done..| |congruence]. rewrite (stat_of_present pid p Hp) in H; [congruence|congruence].
    + unfold stat_of, _read_proc_stat in H. by rewrite Hs in H.
  - unfold stat_of, _read_proc_stat in H. by rewrite (d_absent _ _ Hd pid Hp) in H.
Qed.

Lemma proc_start_ticks_exact pid p :
  t !! pid = Some p -> pf_stat pf pid <> ReadError -> proc_start_ticks pf pid = Some (pr_start p).
Proof.
  intros Hp Hr. destruct (d_present _ _ Hd pid p Hp) as [Hw _]. unfold proc_start_ticks.
  rewrite (stat_of_present pid p Hp Hr). cbn -[lookup stat_fields]. rewrite stat_fields_start by done.
  cbn. apply (wf_int p); [done|]. rewrite !in_app_iff. cbn. tauto.
Qed.

Lemma process_is_zombie_exact pid p :
  t !! pid = Some p -> pf_stat pf pid <> ReadError -> process_is_zombie pf pid = false <-> running p.
Proof.
  intros Hp Hr. destruct (d_present _ _ Hd pid p Hp) as [Hw _]. unfold process_is_zombie, process_state_char.
  rewrite (stat_of_present pid p Hp Hr). cbn -[lookup stat_fields dead_state decode_ascii].
  rewrite stat_fields_state. cbn -[dead_state decode_ascii]. by apply dead_state_running.
Qed.

Lemma not_zombie_inv pid :
  process_is_zombie pf pid = false ->
  exists p, t !! pid = Some p /\ running p /\ pf_stat pf pid <> ReadError.
Proof.
  intros H. destruct (stat_of pf pid) as [fields|] eqn:E.
  - destruct (stat_of_inv pid fields E) as (p & Hp & Hw & _ & Hr). exists p. split_and!; [done| |done].
    by apply (process_is_zombie_exact pid p).
  - unfold process_is_zombie, process_state_char in H. by rewrite E in H.
Qed.
End table.

Section exact.
Context (pf : procfs) (t : gmap Z process) (Hd : describes pf t).

Lemma absence_present pid p start :
  t !! pid = Some p -> pf_stat pf pid <> ReadError ->
  process_absence_proven pf pid start = true <->
    ~ running p \/ exists s, start = Some s /\ pr_start p <> s.
Proof.
  intros Hp Hr. destruct (d_present _ _ Hd pid p Hp) as [Hw [Hs|]]; [|done].
  unfold process_absence_proven. rewrite Hs, render_stat_found by done. cbn [negb].
  rewrite render_stat_fields by done.
  destruct (Nat.ltb_spec (length (stat_fields p)) STAT_MIN_FIELDS) as [Hlt|_];
    [pose proof (stat_fields_length p Hw); lia|].
  change (nth STAT_STATE_FIELD_INDEX (stat_fields p) []) with [pr_state p].
  pose proof (dead_state_running p Hw) as Hrun. rewrite <- dead_state_bytes in Hrun by done.
  destruct (dead_state [pr_state p]).
  { split; [|done]. intros _. left. intros Hn. by apply Hrun in Hn. }
  assert (running p) by by apply Hrun.
  rewrite (nth_lookup_Some _ _ _ _ (stat_fields_start p Hw)), (wf_int p) by
    (done || rewrite !in_app_iff; cbn; tauto).
  destruct start as [s|].
  - rewrite negb_true_iff, Z.eqb_neq. split; [eauto|]. by intros [?|(? & [= <-] & ?)].
  - split; [done|]. by intros [?|(? & ? & _)].
Qed.

Lemma absence_sound pid start :
  process_absence_proven pf pid (Some start) = true -> ~ runs_as t pid start.
Proof.
  intros H (p & Hp & Hrun & Hst). destruct (decide (pf_stat pf pid = ReadError)) as [He|Hr].
  - unfold process_absence_proven in H. by rewrite He in H.
  - destruct (proj1 (absence_present pid p _ Hp Hr) H) as [?|(s & [= <-] & ?)]; done.
Qed.

Lemma absence_complete pid start :
  pf_stat pf pid <> ReadError -> ~ runs_as t pid start -> process_absence_proven pf pid (Some start) = true.
Proof.
  intros Hr Hn. destruct (t !! pid) as [p|] eqn:Hp.
  - apply (absence_present pid p _ Hp Hr).
    destruct (decide (pr_start p = start)); [left|right; eauto]. intros Hrun. apply Hn. by exists p.
  - unfold process_absence_proven. by rewrite (d_absent _ _ Hd pid Hp).
Qed.

Lemma child_alive_runs c : child_alive pf c = true -> runs_as t (ch_pid c) (ch_start_time_ticks c).
Proof.
  unfold child_alive. destruct (process_is_zombie pf (ch_pid c)) eqn:Hz; [done|].
  destruct (not_zombie_inv pf t Hd _ Hz) as (p & Hp & Hrun & Hr).
  rewrite (proc_start_ticks_exact pf t Hd _ p Hp Hr). cbn. intros H%Z.eqb_eq. by exists p.
Qed.

Lemma runs_child_alive c :
  pf_stat pf (ch_pid c) <> ReadError -> runs_as t (ch_pid c) (ch_start_time_ticks c) -> child_alive pf c = true.
Proof.
  intros Hr (p & Hp & Hrun & Hst). unfold child_alive.
  rewrite (proj2 (process_is_zombie_exact pf t Hd _ p Hp Hr)) by done.
  rewrite (proc_start_ticks_exact pf t Hd _ p Hp Hr). cbn. by apply Z.eqb_eq.
Qed.

Lemma worker_alive_runs meta :
  worker_alive pf meta = Ok true ->
  exists pid start, meta_pid meta = Some pid /\ meta_start_time_ticks meta = Some start /\ runs_as t pid start.
Proof.
  unfold worker_alive, process_identity, identity_matches. intros H.
  destruct (meta_pid meta) as [pid|]; [|done]. destruct (process_is_zombie pf pid) eqn:Hz; [done|].
  destruct (not_zombie_inv pf t Hd _ Hz) as (p & Hp & Hrun & Hr).
  rewrite (proc_start_ticks_exact pf t Hd _ p Hp Hr) in H. cbn in H.
  destruct (pf_getpgid pf pid), (pf_getsid pf pid); cbn in H; try done.
  destruct (meta_start_time_ticks meta) as [start|]; [|done]. cbn in H.
  destruct (Z.eqb_spec start (pr_start p)) as [Heq|]; [|done]. exists pid, start.
  split_and!; [done|done|by exists p].
Qed.

Lemma process_pgrp_exact pid p g :
  t !! pid = Some p -> pf_stat pf pid <> ReadError ->
  process_pgrp pf pid = Some g <-> running p /\ pr_pgrp p = g.
Proof.
  intros Hp Hr. destruct (d_present _ _ Hd pid p Hp) as [Hw _]. unfold process_pgrp.
  rewrite (stat_of_present pf t Hd pid p Hp Hr). cbn -[lookup stat_fields dead_state decode_ascii].
  rewrite stat_fields_state, stat_fields_pgrp. cbn -[dead_state decode_ascii].
  pose proof (dead_state_running p Hw) as Hrun.
  destruct (dead_state (decode_ascii [pr_state p])).
  - split; [done|]. intros [H _]. by apply Hrun in H.
  - rewrite (wf_int p) by (done || rewrite !in_app_iff; cbn; tauto). split.
    + intros [= <-]. split; [by apply Hrun|done].
    + by intros [_ <-].
Qed.

Lemma process_pgrp_inv pid g :
  process_pgrp pf pid = Some g -> exists p, t !! pid = Some p /\ running p /\ pr_pgrp p = g.
Proof.
  intros H. destruct (stat_of pf pid) as [fields|] eqn:E.
  - destruct (stat_of_inv pf t Hd pid fields E) as (p & Hp & _ & _ & Hr). exists p. split; [done|].
    by apply (process_pgrp_exact pid p g).
  - unfold process_pgrp in H. by rewrite E in H.
Qed.

Lemma group_members_exact g :
  (group_has_members pf g = true -> exists pid p, t !! pid = Some p /\ running p /\ pr_pgrp p = g)
  /\ ((exists pid p, t !! pid = Some p /\ pf_stat pf pid <> ReadError /\ running p /\ pr_pgrp p = g) ->
      group_has_members pf g = true).
Proof.
  destruct (d_entries _ _ Hd) as (entries & He & Hall). unfold group_has_members. rewrite He. split.
  - intros (name & _ & H)%existsb_exists. apply andb_true_iff in H as [_ H].
    destruct (process_pgrp pf (digits_val name)) as [g'|] eqn:Hg; [|done]. cbn in H. apply Z.eqb_eq in H as ->.
    apply process_pgrp_inv in Hg. eauto.
  - intros (pid & p & Hp & Hr & Hrun & Hg). apply existsb_exists. exists (int_repr pid).
    split; [by eapply Hall|]. pose proof (d_pids _ _ Hd pid p Hp) as Hpos.
    unfold int_repr. replace (pid <? 0) with false by lia. rewrite nat_repr_val by lia.
    rewrite (proj2 (process_pgrp_exact pid p g Hp Hr) (conj Hrun Hg)). cbn [opt_eqb]. rewrite Z.eqb_refl, andb_true_r.
    destruct (nat_repr_lead pid Hpos) as (d & r & Hn & _). unfold isdigit.
    pose proof (nat_repr_digits pid ltac:(lia)) as Hdig. rewrite Hn in *. apply forallb_forall.
    intros c Hc. rewrite Forall_forall in Hdig. by apply Hdig, list_elem_of_In.
Qed.
End exact.

(** An environment block: its entries, each terminated by a NUL. *)
Definition render_environ (entries : list pybytes) : pybytes := concat (map (fun e => e ++ [0]) entries).

Lemma split_on_from_entry e cur r :
  ~ In 0 e -> split_on_from 0 cur (e ++ 0 :: r) = (rev cur ++ e) :: split_on_from 0 [] r.
Proof.
  revert cur. induction e as [|c e IH]; intros cur He; cbn; [by rewrite app_nil_r|].
  destruct (Z.eqb_spec c 0) as [->|]; [exfalso; apply He; by left|].
  rewrite IH by (intros ?; apply He; by right). cbn. by rewrite <- app_assoc.
Qed.

Lemma split_on_environ entries :
  Forall (fun e => ~ In 0 e) entries -> split_on 0 (render_environ entries) = entries ++ [[]].
Proof.
  unfold split_on, render_environ. induction 1 as [|e es He _ IH]; [done|]. cbn [map concat].
  rewrite <- app_assoc. cbn [app]. rewrite split_on_from_entry by done. cbn [rev app]. by rewrite IH.
Qed.

(** A table with a worker whose command name tries to confuse the parser, and
    a zombie. *)
Module ProcExample.
Definition p_live : process := mkProcess (py "w) Z 1 (x") 83 1 300 300 (repeat 0 15) 7000 [1; -2].
Definition p_zombie : process := mkProcess (py "old") 90 1 300 300 (repeat 0 15) 6000 [].
Definition table : gmap Z process := <[300 := p_live]> (<[301 := p_zombie]> ∅).
Definition pf : procfs := mkProcfs
  (fun pid => match table !! pid with Some p => ReadOk (render_stat pid p) | None => ReadNotFound end)
  (fun _ => ReadNotFound)
  (fun _ => ReadOk (render_environ [py "A=LUBKO_LIFECYCLE_TOKEN=tok"; py "LUBKO_LIFECYCLE_TOKEN=tok2"]))
  (fun pid => pr_pgrp <$> table !! pid) (fun pid => pr_session <$> table !! pid) 1
  (Some [py "self"; py "300"; py "301"]).
Definition child : WorkerChild := mkChild 300 300 300 7000 (py "tok2") (py "w-1") SpecFloat.S754_nan.
Definition meta : WorkerMeta :=
  mkMeta 1 (py "running") (Some 300) (Some 300) (Some 300) (Some 7000) (Some (py "tok2")) (py "/r") None None
    (py "/l") None None.

Lemma readable pid : pf_stat pf pid <> ReadError.
Proof. cbn. by destruct (table !! pid). Qed.

Lemma table_cases pid p : table !! pid = Some p -> (pid = 300 /\ p = p_live) \/ (pid = 301 /\ p = p_zombie).
Proof.
  unfold table. rewrite !lookup_insert_Some, lookup_empty. intros [[<- <-]|[_ [[<- <-]|[_ ?]]]]; [auto|auto|done].
Qed.

Lemma pf_describes : describes pf table.
Proof.
  split.
  - intros pid p Hp. split; [|left; cbn; by rewrite Hp].
    apply table_cases in Hp as [[_ ->]|[_ ->]]; (split; [done|done|]);
      apply (bool_decide_unpack _); vm_compute; exact I.
  - intros pid Hp. cbn. by rewrite Hp.
  - eexists. split; [done|]. intros pid p [[-> _]|[-> _]]%table_cases; cbn; auto.
  - intros pid p [[-> _]|[-> _]]%table_cases; lia.
Qed.
End ProcExample.

(** ** Properties *)

(** C35: The absence proof is exact.  Against any process table seen through
    [/proc], whatever a command name contains, a recorded process is proven
    absent only if no running process has its pid and start time; an unreadable
    entry proves nothing; and when the entry can be read, a process that is
    gone, dead or replaced under its pid is proven absent. *)
Theorem absence_proof_exact pf t pid start :
  describes pf t ->
  (process_absence_proven pf pid (Some start) = true -> ~ runs_as t pid start)
  /\ (pf_stat pf pid = ReadError -> process_absence_proven pf pid (Some start) = false)
  /\ (pf_stat pf pid <> ReadError -> ~ runs_as t pid start ->
      process_absence_proven pf pid (Some start) = true).
Proof.
  intros Hd. split_and!.
  - by apply absence_sound.
  - intros He. unfold process_absence_proven. by rewrite He.
  - by apply absence_complete.
Qed.

Lemma absence_proof_exact_witness :
  ~ runs_as ProcExample.table 301 6000 /\ process_absence_proven ProcExample.pf 300 (Some 6999) = true.
Proof.
  split.
  - apply (absence_proof_exact ProcExample.pf); [apply ProcExample.pf_describes|vm_compute; reflexivity].
  - apply (absence_proof_exact ProcExample.pf ProcExample.table); [apply ProcExample.pf_describes|apply ProcExample.readable|].
    intros (p & Hp & _ & Hs). apply ProcExample.table_cases in Hp as [[_ ->]|[? _]]; discriminate.
Defined.

(** Liveness is exact.  A worker or child reported alive is a running
    process with the recorded pid and start time, so it is never also proven
    absent; and a running child whose entry can be read is reported alive. *)
Theorem liveness_exact pf t c meta :
  describes pf t ->
  (child_alive pf c = true ->
     runs_as t (ch_pid c) (ch_start_time_ticks c)
     /\ process_absence_proven pf (ch_pid c) (Some (ch_start_time_ticks c)) = false)
  /\ (pf_stat pf (ch_pid c) <> ReadError -> runs_as t (ch_pid c) (ch_start_time_ticks c) ->
      child_alive pf c = true)
  /\ (child_is_our_direct_child pf c = true -> child_alive pf c = true)
  /\ (worker_alive pf meta = Ok true ->
      exists pid start, meta_pid meta = Some pid /\ meta_start_time_ticks meta = Some start
        /\ runs_as t pid start /\ process_absence_proven pf pid (Some start) = false).
Proof.
  intros Hd.
  assert (Hex : forall pid start, runs_as t pid start -> process_absence_proven pf pid (Some start) = false).
  { intros pid start Hr. destruct (process_absence_proven pf pid (Some start)) eqn:E; [|done].
    by apply (absence_sound pf t Hd) in E. }
  split_and!.
  - intros H%(child_alive_runs pf t Hd). auto.
  - by apply runs_child_alive.
  - unfold child_is_our_direct_child. by destruct (child_alive pf c).
  - intros (pid & start & ? & ? & ?)%(worker_alive_runs pf t Hd). exists pid, start. auto.
Qed.

Lemma liveness_exact_witness :
  child_alive ProcExample.pf ProcExample.child = true
  /\ worker_alive ProcExample.pf ProcExample.meta = Ok true
  /\ runs_as ProcExample.table 300 7000
  /\ process_absence_proven ProcExample.pf 300 (Some 7000) = false.
Proof.
  assert (Ha : child_alive ProcExample.pf ProcExample.child = true) by (vm_compute; reflexivity).
  split; [exact Ha|]. split; [vm_compute; reflexivity|].
  exact (proj1 (liveness_exact ProcExample.pf ProcExample.table ProcExample.child ProcExample.meta
    ProcExample.pf_describes) Ha).
Defined.

(** A process group has members exactly when some running process of the
    table belongs to it; dead and zombie members do not count. *)
Theorem group_membership_exact pf t g :
  describes pf t -> (forall pid, pf_stat pf pid <> ReadError) ->
  group_has_members pf g = true <-> exists pid p, t !! pid = Some p /\ running p /\ pr_pgrp p = g.
Proof.
  intros Hd Hr. destruct (group_members_exact pf t Hd g) as [H1 H2]. split; [done|].
  intros (pid & p & ? & ? & ?). apply H2. exists pid, p. auto.
Qed.

Lemma group_membership_exact_witness : group_has_members ProcExample.pf 300 = true.
Proof.
  apply (group_membership_exact ProcExample.pf ProcExample.table 300 ProcExample.pf_describes ProcExample.readable).
  exists 300, ProcExample.p_live. split; [vm_compute; reflexivity|]. split; [split; discriminate|reflexivity].
Defined.

(** The lifecycle token is matched exactly: a process carries a token
    only if one whole entry of its environment is the marker assignment, never
    because the marker is part of another variable. *)
Theorem token_match_exact pf pid token expected entries :
  utf8_encode (LIFECYCLE_MARKER_VAR ++ py "=" ++ token) = Ok expected ->
  pf_environ pf pid = ReadOk (render_environ entries) -> Forall (fun e => ~ In 0 e) entries ->
  exists b, process_has_token pf pid token = Ok b /\ (b = true <-> In expected entries).
Proof.
  intros He Hr Hn. unfold process_has_token. rewrite He, Hr. cbn [mbind res_bind].
  eexists. split; [done|]. rewrite split_on_environ by done. rewrite existsb_exists. split.
  - intros (e & Hin & ->%str_eqb_eq). apply in_app_or in Hin as [?|[<-|[]]]; [done|].
    exfalso. change LIFECYCLE_MARKER_VAR with (76 :: tail LIFECYCLE_MARKER_VAR) in He.
    cbn [app utf8_encode] in He. change (utf8_encode_cp 76) with (Ok [76] : res pybytes) in He.
    res_inv He. by simplify_eq.
  - intros Hin. exists expected. split; [apply in_or_app; by left|apply str_eqb_refl].
Qed.

Lemma token_match_exact_witness :
  process_has_token ProcExample.pf 300 (py "tok2") = Ok true
  /\ process_has_token ProcExample.pf 300 (py "tok") = Ok false.
Proof.
  assert (Hn : Forall (fun e => ~ In 0 e) [py "A=LUBKO_LIFECYCLE_TOKEN=tok"; py "LUBKO_LIFECYCLE_TOKEN=tok2"]).
  { repeat (apply Forall_cons_2; [vm_compute; intuition discriminate|]). apply Forall_nil_2. }
  split.
  - destruct (token_match_exact ProcExample.pf 300 (py "tok2") (py "LUBKO_LIFECYCLE_TOKEN=tok2") _ eq_refl eq_refl Hn)
      as (b & Hb & Hiff).
    rewrite Hb. f_equal. apply Hiff. right. left. reflexivity.
  - destruct (token_match_exact ProcExample.pf 300 (py "tok") (py "LUBKO_LIFECYCLE_TOKEN=tok") _ eq_refl eq_refl Hn)
      as (b & Hb & Hiff).
    rewrite Hb. f_equal. destruct b; [|reflexivity].
    destruct (proj1 Hiff eq_refl) as [H|[H|[]]]; vm_compute in H; discriminate.
Defined.
