(* ===== verification/LifecycleState.v ===== *)
(** The lifecycle decision layer ([src/lubko/lifecycle_state.py]): the
    reconciled authority facts, the phase derived from them, the authority
    invariants, the authorization guards, and the failpoint registry.

    The durable sources the facts are reconciled from are read by other
    modules; [sources] holds the outcome of those reads (a parsed record, an
    absence or an exception), with the fields of each record that are used
    here.  Process liveness is computed from [/proc] as modelled in [ProcFs]. *)

From stdpp Require Import gmap.
From S2P Require Import Prelude PyStr PyNum Uuid ProcFs.

#[local] Arguments py : simpl never.

(** ** Failpoints *)

(** [_FailpointSpec.exc] by boundary name: the exception to raise, or [None]
    for [FailpointError]. *)
Abbreviation failpoints := (gmap pystr (option exn)).

Definition arm_failpoint (reg : failpoints) (name : pystr) (exc : option exn) : failpoints :=
  <[name := exc]> reg.

Definition disarm_failpoints (reg : failpoints) : failpoints := ∅.

Definition failpoint (reg : failpoints) (name : pystr) : res unit :=
  match reg !! name with
  | Some (Some exc) => Raise exc
  | Some None => Raise FailpointError
  | None => Ok tt
  end.

(** [with armed_failpoint(name, exc=exc): body], the body threading the registry. *)
Definition armed_failpoint {A} (name : pystr) (exc : option exn)
    (body : failpoints -> res A * failpoints) (reg : failpoints) : res A * failpoints :=
  let '(r, reg') := body (arm_failpoint reg name exc) in
  (r, disarm_failpoints reg').

(** ** Phases and facts *)

Inductive LifecyclePhase :=
  | UNMANAGED | OWNERSHIP_PENDING | SPAWN_OBLIGATION | SPAWNING | RUNNING | RETIRING | STOPPED
  | RECOVERING | MISSION_PENDING | CONFIRMED | ROLLED_BACK.

#[export] Instance phase_eq_dec : EqDecision LifecyclePhase.
Proof. solve_decision. Defined.

Record AuthorityFacts := mkFacts {
  desired_generation : Z;
  applied_generation : Z;
  mission_status : option pystr;
  mission_generation : option Z;
  mission_commit : option pystr;
  owned_worker_pid : option Z;
  owned_worker_commit : option pystr;
  owned_worker_identity_proven : bool;
  pre_spawn_obligation : bool;
  unresolved_child : bool;
  candidate_ready : bool;
  rollback_pending : bool;
  durable_malformed : bool;
  supervisor_child_present : bool;
  current_child_identity_proven : bool;
  ownership_hold_malformed : bool;
  unresolved_hold_malformed : bool;
  spawning_hold_malformed : bool;
  identity_observation_unknown : bool;
}.

Definition live_consumers (f : AuthorityFacts) : Z :=
  let roles := [owned_worker_identity_proven f || supervisor_child_present f; unresolved_child f] in
  fold_left (fun n (role : bool) => if role then n + 1 else n) roles 0.

(** ** Sources *)

(** The fields of [deployctl.RollbackState] read here. *)
Record Mission := mkMission {
  ms_status : pystr;
  ms_generation : Z;
  ms_commit : pystr;
}.

(** The fields of [supervise.SupervisorState] read here; the obligations are
    only tested for presence. *)
Record SupervisorView := mkSupervisorView {
  sv_applied_generation : Z;
  sv_child : option WorkerChild;
  sv_unresolved_child : bool;
  sv_ownership_hold_malformed : bool;
  sv_unresolved_hold_malformed : bool;
  sv_spawning : bool;
  sv_spawning_hold_malformed : bool;
  sv_ready : bool;
}.

Record sources := mkSources {
  src_proc : procfs;
  (** [lifecycle.read_meta_strict()] *)
  src_meta : res (option WorkerMeta);
  (** [deployctl.read_rollback_state()] *)
  src_mission : res (option Mission);
  (** [read_desired_client()], the generation of the intent *)
  src_desired : res (option Z);
  (** [read_state_client()] *)
  src_state : res SupervisorView;
}.

Definition PENDING : pystr := py "pending".
Definition CONFIRMED_STATUS : pystr := py "confirmed".
Definition ROLLED_BACK_STATUS : pystr := py "rolled_back".

(** [try: v = read() except Exception: v = None; malformed = True] *)
Definition read_closed {A} (m : res (option A)) : option A * bool :=
  match m with Ok a => (a, false) | Raise _ => (None, true) end.

(** What the recorded worker contributes: pid, proven alive, liveness unknown. *)
Definition observe_worker (pf : procfs) (meta : option WorkerMeta) : res (option Z * bool * bool) :=
  match meta with
  | None => Ok (None, false, false)
  | Some meta =>
      owned_proven ← worker_alive pf meta;
      let unknown :=
        if negb owned_proven && str_eqb (meta_state meta) STATE_RUNNING then
          match meta_pid meta with
          | None => true
          | Some pid => negb (process_absence_proven pf pid (meta_start_time_ticks meta))
          end
        else false in
      Ok (meta_pid meta, owned_proven, unknown)
  end.

Definition reconcile_authority_facts (src : sources) : res AuthorityFacts :=
  let pf := src_proc src in
  let '(meta, malformed) := read_closed (src_meta src) in
  '(owned_pid, owned_proven, unknown) ← observe_worker pf meta;
  '(mission, malformed) ←
    match src_mission src with
    | Ok m => Ok (m, malformed)
    | Raise DeployCtlError => Ok (None, true)
    | Raise e => Raise e
    end;
  let '(desired_intent, malformed) :=
    match src_desired src with Ok d => (d, malformed) | Raise _ => (None, true) end in
  let desired := match desired_intent with Some g => g | None => 0 end in
  let '(state, malformed) :=
    match src_state src with Ok s => (Some s, malformed) | Raise _ => (None, true) end in
  let malformed :=
    match state with
    | Some s => malformed || (sv_ownership_hold_malformed s || sv_unresolved_hold_malformed s
                              || sv_spawning_hold_malformed s)
    | None => malformed
    end in
  let child := s ← state; sv_child s in
  let flag (g : SupervisorView -> bool) := match state with Some s => g s | None => false end in
  let child_present := match child with Some c => child_alive pf c | None => false end in
  let unknown :=
    match child with
    | Some c =>
        if negb child_present
        then unknown || negb (process_absence_proven pf (ch_pid c) (Some (ch_start_time_ticks c)))
        else unknown
    | None => unknown
    end in
  let child_proven := match child with Some c => child_is_our_direct_child pf c | None => false end in
  Ok (mkFacts desired
        (match state with Some s => sv_applied_generation s | None => 0 end)
        (ms_status <$> mission) (ms_generation <$> mission) (ms_commit <$> mission)
        owned_pid (m ← meta; meta_git_commit m) owned_proven
        (flag sv_spawning) (flag sv_unresolved_child) (flag sv_ready)
        (match mission with Some m => str_eqb (ms_status m) PENDING | None => false end)
        malformed child_present child_proven
        (flag sv_ownership_hold_malformed) (flag sv_unresolved_hold_malformed)
        (flag sv_spawning_hold_malformed) unknown).

(** [facts.mission_status == s] *)
Definition status_is (f : AuthorityFacts) (s : pystr) : bool :=
  match mission_status f with Some t => str_eqb t s | None => false end.

Definition ordered_phases (f : AuthorityFacts) : list (bool * LifecyclePhase) :=
  [(durable_malformed f || identity_observation_unknown f || ownership_hold_malformed f
      || unresolved_hold_malformed f || spawning_hold_malformed f, OWNERSHIP_PENDING);
   (status_is f PENDING, MISSION_PENDING);
   (status_is f CONFIRMED_STATUS, CONFIRMED);
   (status_is f ROLLED_BACK_STATUS, ROLLED_BACK);
   (supervisor_child_present f || owned_worker_identity_proven f, RUNNING);
   (pre_spawn_obligation f, SPAWN_OBLIGATION);
   (unresolved_child f, SPAWNING)].

Fixpoint first_phase (l : list (bool * LifecyclePhase)) : LifecyclePhase :=
  match l with
  | [] => UNMANAGED
  | (true, phase) :: _ => phase
  | (false, _) :: l => first_phase l
  end.

Definition phase_from_facts (f : AuthorityFacts) : LifecyclePhase := first_phase (ordered_phases f).

Definition current_phase (src : sources) : res LifecyclePhase :=
  f ← reconcile_authority_facts src; Ok (phase_from_facts f).

(** ** Invariants *)

Inductive invariant_code :=
  | SINGLE_CONSUMER
  | GENERATION_MONOTONIC
  | MALFORMED_NEVER_ERASED
  | NO_REPLACEMENT_WHILE_UNRESOLVED
  | NO_SIGNAL_WITHOUT_PROOF
  | CRASH_CONVERGES_TO_ONE_OR_ZERO
  | NO_LIVE_CONSUMER_WITHOUT_AUTHORITY.

Definition _generation_monotonic_violations (f : AuthorityFacts) : list invariant_code :=
  if applied_generation f <? 0 then [GENERATION_MONOTONIC]
  else
    let trusted_generation := desired_generation f in
    let trusted_generation :=
      match mission_generation f with
      | Some g => if status_is f PENDING then Z.max trusted_generation g else trusted_generation
      | None => trusted_generation
      end in
    if applied_generation f >? trusted_generation then [GENERATION_MONOTONIC] else [].

Definition _authority_violations (f : AuthorityFacts) : list invariant_code :=
  let live_owned := owned_worker_identity_proven f || supervisor_child_present f in
  (if live_consumers f >? 1 then [SINGLE_CONSUMER; CRASH_CONVERGES_TO_ONE_OR_ZERO] else [])
  ++ _generation_monotonic_violations f
  ++ (if durable_malformed f then
        let blocking := pre_spawn_obligation f || unresolved_child f || ownership_hold_malformed f
                        || unresolved_hold_malformed f || spawning_hold_malformed f in
        if negb blocking && negb live_owned then [MALFORMED_NEVER_ERASED] else []
      else [])
  ++ (if unresolved_child f && (pre_spawn_obligation f || supervisor_child_present f)
      then [NO_REPLACEMENT_WHILE_UNRESOLVED] else [])
  ++ (if supervisor_child_present f
         && match owned_worker_pid f with Some _ => true | None => false end
         && negb (owned_worker_identity_proven f)
      then [NO_SIGNAL_WITHOUT_PROOF] else [])
  ++ (if live_owned && durable_malformed f then [NO_LIVE_CONSUMER_WITHOUT_AUTHORITY] else []).

Definition check_authority_invariants (f : AuthorityFacts) : list invariant_code := _authority_violations f.

(** [AuthorityInvariantError], carrying the code and the facts, on the left. *)
Definition assert_authority_invariants (f : AuthorityFacts) : (invariant_code * AuthorityFacts) + unit :=
  match _authority_violations f with
  | v :: _ => inl (v, f)
  | [] => inr tt
  end.

(** ** Guards *)

Definition authorize_spawn (f : AuthorityFacts) : bool :=
  if durable_malformed f || identity_observation_unknown f then false
  else if pre_spawn_obligation f || unresolved_child f then false
  else if owned_worker_identity_proven f || supervisor_child_present f then false
  else live_consumers f =? 0.

Definition authorize_recovery (f : AuthorityFacts) : bool :=
  if durable_malformed f || identity_observation_unknown f then false
  else if negb (unresolved_child f) then false
  else match check_authority_invariants f with [] => true | _ => false end.

Definition authorize_retirement (f : AuthorityFacts) : bool :=
  if durable_malformed f then false else current_child_identity_proven f.

Record SupervisorConvergenceFacts := mkConvergence {
  cv_target_commit : pystr;
  cv_minimum_generation : Z;
  cv_desired_commit : pystr;
  cv_desired_generation : Z;
  cv_applied_commit : option pystr;
  cv_applied_generation : Z;
  cv_ready : option bool;
  cv_holding : bool;
  cv_live_child : bool;
}.

Definition authorize_supervisor_convergence (c : SupervisorConvergenceFacts) : bool :=
  if cv_minimum_generation c <? 0 then false
  else if negb (str_eqb (cv_desired_commit c) (cv_target_commit c))
          || negb (match cv_applied_commit c with Some a => str_eqb a (cv_target_commit c) | None => false end)
  then false
  else if cv_desired_generation c <? cv_minimum_generation c then false
  else if negb ((cv_minimum_generation c <=? cv_applied_generation c)
                && (cv_applied_generation c <=? cv_desired_generation c)) then false
  else match cv_ready c with Some true => true | _ => false end && negb (cv_holding c) && cv_live_child c.

Definition authorize_mission_publish (f : AuthorityFacts) : bool :=
  if durable_malformed f then false else negb (status_is f PENDING).

Definition authorize_mission_confirm (f : AuthorityFacts) : bool :=
  if durable_malformed f then false
  else if status_is f CONFIRMED_STATUS then true
  else status_is f PENDING && candidate_ready f.

Definition authorize_mission_rollback (f : AuthorityFacts) : bool :=
  if durable_malformed f then false
  else if status_is f ROLLED_BACK_STATUS then true
  else status_is f PENDING.

(** ** Mutation blocker *)

(** The refusal, with what its message interpolates. *)
Inductive blocker :=
  | StateUnreadable
  | CheckoutPending (commit : pystr) (generation : Z)
  | UnknownStatus (status : pystr).

Definition mutation_blocker_reason (mission : res (option Mission)) : res (option blocker) :=
  match mission with
  | Raise DeployCtlError => Ok (Some StateUnreadable)
  | Raise e => Raise e
  | Ok None => Ok None
  | Ok (Some m) =>
      if str_eqb (ms_status m) PENDING then Ok (Some (CheckoutPending (ms_commit m) (ms_generation m)))
      else if negb (str_eqb (ms_status m) CONFIRMED_STATUS || str_eqb (ms_status m) ROLLED_BACK_STATUS)
      then Ok (Some (UnknownStatus (ms_status m)))
      else Ok None
  end.

Definition mutation_blocked (mission : res (option Mission)) : res bool :=
  reason ← mutation_blocker_reason mission;
  Ok (match reason with Some _ => true | None => false end).

Definition refuses_version_change {A} (previous : option A) (commit : pystr) (git_commit : option pystr) : bool :=
  match previous with
  | None => false
  | Some _ => negb (match git_commit with Some g => str_eqb g commit | None => false end)
  end.

(** ** What the invariants say *)

(** The seven invariants as a condition on the facts. *)
Record sound (f : AuthorityFacts) : Prop := {
  (** 1 and 6 *)
  snd_single : unresolved_child f = true ->
    owned_worker_identity_proven f = false /\ supervisor_child_present f = false;
  (** 2 *)
  snd_generation : 0 <= applied_generation f
    /\ (applied_generation f <= desired_generation f
        \/ (mission_status f = Some PENDING
            /\ exists g, mission_generation f = Some g /\ applied_generation f <= g));
  (** 3 and 7 *)
  snd_malformed : durable_malformed f = true ->
    owned_worker_identity_proven f = false /\ supervisor_child_present f = false
    /\ (pre_spawn_obligation f = true \/ unresolved_child f = true \/ ownership_hold_malformed f = true
        \/ unresolved_hold_malformed f = true \/ spawning_hold_malformed f = true);
  (** 4 *)
  snd_unresolved : unresolved_child f = true -> pre_spawn_obligation f = false;
  (** 5 *)
  snd_proof : supervisor_child_present f = true -> owned_worker_pid f <> None ->
    owned_worker_identity_proven f = true;
}.

Lemma live_consumers_cases f :
  live_consumers f = (if owned_worker_identity_proven f || supervisor_child_present f then 1 else 0)
                     + (if unresolved_child f then 1 else 0).
Proof. unfold live_consumers. cbn. by repeat case_match. Qed.

Lemma status_is_eq f s : status_is f s = true <-> mission_status f = Some s.
Proof. unfold status_is. destruct (mission_status f); [rewrite str_eqb_eq|]; naive_solver. Qed.

Lemma generation_violations_nil f :
  _generation_monotonic_violations f = [] <->
  0 <= applied_generation f
    /\ (applied_generation f <= desired_generation f
        \/ (mission_status f = Some PENDING
            /\ exists g, mission_generation f = Some g /\ applied_generation f <= g)).
Proof.
  unfold _generation_monotonic_violations. pose proof (status_is_eq f PENDING) as Hst.
  rewrite Z.gtb_ltb. destruct (Z.ltb_spec (applied_generation f) 0); [split; [done|lia]|].
  destruct (mission_generation f) as [g|], (status_is f PENDING) eqn:Es.
  - destruct (Z.ltb_spec (Z.max (desired_generation f) g) (applied_generation f)); split; try done.
    + intros [_ [?|(_ & g' & [= <-] & ?)]]; lia.
    + intros _. split; [done|]. destruct (Z.le_gt_cases (applied_generation f) (desired_generation f)); [auto|].
      right. split; [by apply Hst|]. exists g. split; [done|lia].
  - destruct (Z.ltb_spec (desired_generation f) (applied_generation f)); split; try done.
    + intros [_ [?|(Hp & _)]]; [lia|]. by apply Hst in Hp.
    + auto.
  - destruct (Z.ltb_spec (desired_generation f) (applied_generation f)); split; try done.
    + intros [_ [?|(_ & g & ? & _)]]; [lia|done].
    + auto.
  - destruct (Z.ltb_spec (desired_generation f) (applied_generation f)); split; try done.
    + intros [_ [?|(_ & g & ? & _)]]; [lia|done].
    + auto.
Qed.

Lemma app_nil_iff {A} (a b : list A) : a ++ b = [] <-> a = [] /\ b = [].
Proof. split; [apply app_eq_nil|by intros [-> ->]]. Qed.

Lemma if_nil {A} (b : bool) (x : A) l : (if b then x :: l else []) = [] <-> b = false.
Proof. by destruct b. Qed.

(** The single-consumer test in terms of the roles. *)
Lemma consumers_le_one (o c u : bool) :
  ((if o || c then 1 else 0) + (if u then 1 else 0) >? 1) = false <-> (u = true -> o = false /\ c = false).
Proof. destruct o, c, u; cbn; naive_solver. Qed.

(** The malformed tests, with [b] for a remaining block and [l] for a live consumer. *)
Lemma malformed_tests (d b o c : bool) :
  (if d then if negb b && negb (o || c) then [MALFORMED_NEVER_ERASED] else [] else []) = []
    /\ (o || c) && d = false
  <-> (d = true -> o = false /\ c = false /\ b = true).
Proof. destruct d, b, o, c; cbn; intuition congruence. Qed.

Lemma violations_nil f : _authority_violations f = [] <-> sound f.
Proof.
  unfold _authority_violations.
  rewrite !app_nil_iff, generation_violations_nil, live_consumers_cases, !if_nil, consumers_le_one.
  set (b := pre_spawn_obligation f || _ || _ || _ || _).
  pose proof (malformed_tests (durable_malformed f) b (owned_worker_identity_proven f)
    (supervisor_child_present f)) as Hmal.
  assert (Hb : b = true <-> pre_spawn_obligation f = true \/ unresolved_child f = true
    \/ ownership_hold_malformed f = true \/ unresolved_hold_malformed f = true
    \/ spawning_hold_malformed f = true) by (unfold b; rewrite !orb_true_iff; tauto).
  split.
  - intros (H1 & H2 & H3 & H4 & H5 & H6). destruct Hmal as [Hmal _]. specialize (Hmal (conj H3 H6)).
    split; [exact H1|exact H2|rewrite <- Hb; exact Hmal| |].
    + intros Hu. rewrite Hu in H4. by apply orb_false_iff in H4 as [? _].
    + intros Hc Hp. rewrite Hc in H5. destruct (owned_worker_pid f); [|done].
      by destruct (owned_worker_identity_proven f).
  - intros [H1 H2 H3 H4 H5]. rewrite <- Hb in H3. apply Hmal in H3 as [H3 H6].
    refine (conj H1 (conj H2 (conj H3 (conj _ (conj _ H6))))).
    + destruct (unresolved_child f) eqn:Hu; [|done]. destruct H1 as [_ ->]; [done|]. by rewrite H4.
    + destruct (supervisor_child_present f), (owned_worker_pid f); try done. by rewrite H5.
Qed.

(** ** What reconciliation reports *)

Definition is_raise {A} (m : res A) : bool := match m with Raise _ => true | Ok _ => false end.

(** A durable source could not be read, or holds a malformed obligation. *)
Definition source_failed (src : sources) : bool :=
  is_raise (src_meta src) || is_raise (src_mission src) || is_raise (src_desired src)
  || match src_state src with
     | Raise _ => true
     | Ok s => sv_ownership_hold_malformed s || sv_unresolved_hold_malformed s || sv_spawning_hold_malformed s
     end.

Lemma reconcile_malformed src f :
  reconcile_authority_facts src = Ok f -> durable_malformed f = source_failed src.
Proof.
  unfold reconcile_authority_facts, source_failed.
  destruct (src_meta src) as [m|e1]; cbn [read_closed].
  all: destruct (observe_worker _ _) as [[[o p] u]|]; cbn [mbind res_bind]; [|done].
  all: destruct (src_mission src) as [ms|[]]; cbn [mbind res_bind]; try done.
  all: destruct (src_desired src) as [d|e3]; destruct (src_state src) as [s|e4]; by intros [= <-].
Qed.

Lemma absence_sound_any pf t pid :
  describes pf t -> process_absence_proven pf pid None = true -> forall p, t !! pid = Some p -> ~ running p.
Proof.
  intros Hd H p Hp Hrun. destruct (decide (pf_stat pf pid = ReadError)) as [He|Hr].
  - unfold process_absence_proven in H. by rewrite He in H.
  - destruct (proj1 (absence_present pf t Hd pid p None Hp Hr) H) as [?|(? & ? & _)]; done.
Qed.

(** The recorded worker, when recorded as running, has no running process. *)
Definition worker_gone (t : gmap Z process) (meta : WorkerMeta) : Prop :=
  meta_state meta = STATE_RUNNING ->
  exists pid, meta_pid meta = Some pid
    /\ match meta_start_time_ticks meta with
       | Some start => ~ runs_as t pid start
       | None => forall p, t !! pid = Some p -> ~ running p
       end.

Lemma observe_worker_gone pf t meta pid :
  describes pf t -> observe_worker pf (Some meta) = Ok (pid, false, false) -> worker_gone t meta.
Proof.
  intros Hd H Hrun. cbn [observe_worker] in H. apply bind_Ok in H as (a & _ & H).
  rewrite Hrun, str_eqb_refl, andb_true_r in H. injection H as _ -> H. cbn [negb] in H.
  destruct (meta_pid meta) as [p|]; [|done]. exists p. split; [done|].
  destruct (process_absence_proven pf p (meta_start_time_ticks meta)) eqn:Ha; [|done].
  destruct (meta_start_time_ticks meta); [by apply (absence_sound pf t Hd)|by apply (absence_sound_any pf t)].
Qed.

Lemma authorize_spawn_inv f :
  authorize_spawn f = true ->
  durable_malformed f = false /\ identity_observation_unknown f = false /\ pre_spawn_obligation f = false
  /\ unresolved_child f = false /\ owned_worker_identity_proven f = false /\ supervisor_child_present f = false.
Proof.
  unfold authorize_spawn.
  destruct (durable_malformed f), (identity_observation_unknown f), (pre_spawn_obligation f),
    (unresolved_child f), (owned_worker_identity_proven f), (supervisor_child_present f); done.
Qed.

(** Leaving an inner armed block disarms the enclosing one as well. *)
Lemma inner_block_disarms_outer (outer inner : pystr) reg :
  armed_failpoint outer None
    (fun reg => let '(_, reg') := armed_failpoint inner None (fun r => (Ok tt, r)) reg in
                (failpoint reg' outer, reg')) reg
  = (Ok tt, ∅).
Proof. unfold armed_failpoint, failpoint, disarm_failpoints. by rewrite lookup_empty. Qed.

(** ** A supervisor with a recorded worker that is gone *)

Module FactsExample.
Definition child : WorkerChild := mkChild 301 300 300 6000 (py "tok") (py "w-1") SpecFloat.S754_nan.
Definition meta : WorkerMeta :=
  mkMeta 1 (py "running") (Some 300) (Some 300) (Some 300) (Some 6999) (Some (py "tok")) (py "/r")
    (Some (py "c0ffee")) None (py "/l") None None.
Definition view (c : option WorkerChild) (unresolved malformed : bool) : SupervisorView :=
  mkSupervisorView 3 c unresolved malformed false false false true.
Definition src (c : option WorkerChild) (unresolved malformed : bool) : sources :=
  mkSources ProcExample.pf (Ok (Some meta)) (Ok None) (Ok (Some 3)) (Ok (view c unresolved malformed)).
Definition facts (proven_pid : option Z) (unresolved malformed : bool) : AuthorityFacts :=
  mkFacts 3 3 None None None proven_pid (Some (py "c0ffee")) false false unresolved true false malformed
    false false malformed false false false.
Definition gone : AuthorityFacts := facts (Some 300) false false.
End FactsExample.

(** A rollback is authorized while the supervisor child still runs. *)
Lemma rollback_beside_live_child :
  exists f, supervisor_child_present f = true /\ mission_status f = Some PENDING
    /\ authorize_mission_rollback f = true.
Proof.
  exists (mkFacts 1 1 (Some PENDING) (Some 1) None None None false false false false true false true true
            false false false false).
  vm_compute. auto.
Qed.

(** ** Properties *)

(** C16: A spawn is authorized only when no earlier consumer can still run.
    When the reconciled facts authorize a spawn, every durable source was
    readable and held no malformed obligation, no spawn or unresolved child is
    outstanding, and, for the process table seen through [/proc], neither the
    child recorded by the supervisor nor a worker recorded as running has a
    running process with its identity. *)
Theorem spawn_requires_proven_absence src t f :
  describes (src_proc src) t -> reconcile_authority_facts src = Ok f -> authorize_spawn f = true ->
  source_failed src = false
  /\ (forall meta, src_meta src = Ok (Some meta) -> worker_gone t meta)
  /\ exists s, src_state src = Ok s /\ sv_spawning s = false /\ sv_unresolved_child s = false
       /\ (forall c, sv_child s = Some c -> ~ runs_as t (ch_pid c) (ch_start_time_ticks c)).
Proof.
  intros Hd Hrec Hsp. apply authorize_spawn_inv in Hsp as (Hm & Hu & Hpre & Hun & How & Hch).
  rewrite (reconcile_malformed src f Hrec) in Hm. split; [done|].
  unfold source_failed in Hm. unfold reconcile_authority_facts in Hrec.
  destruct (src_meta src) as [m|e1]; [|done]. cbn [read_closed] in Hrec.
  destruct (observe_worker (src_proc src) m) as [[[o p] u]|] eqn:Ew; cbn [mbind res_bind] in Hrec; [|done].
  destruct (src_mission src) as [ms|]; [|done]. cbn [mbind res_bind] in Hrec.
  destruct (src_desired src) as [d|e3]; [|done]. destruct (src_state src) as [s|e4]; [|done].
  injection Hrec as <-. cbn in *. subst p. split.
  - intros meta [= ->]. destruct u; [|by eapply observe_worker_gone].
    by destruct (sv_child s) as [c|]; [destruct (child_alive _ c)|].
  - exists s. split_and!; [done..|]. intros c Hc. rewrite Hc in *. rewrite Hch in Hu. cbn in Hu.
    apply orb_false_iff in Hu as [_ Hu]. apply negb_false_iff in Hu. by apply (absence_sound _ t Hd).
Qed.

Lemma spawn_requires_proven_absence_witness :
  authorize_spawn FactsExample.gone = true
  /\ ~ runs_as ProcExample.table 301 6000 /\ worker_gone ProcExample.table FactsExample.meta.
Proof.
  assert (Ha : authorize_spawn FactsExample.gone = true) by (vm_compute; reflexivity).
  split; [exact Ha|].
  destruct (spawn_requires_proven_absence (FactsExample.src (Some FactsExample.child) false false)
    ProcExample.table FactsExample.gone) as (_ & Hm & s & Hs & _ & _ & Hc).
  - apply ProcExample.pf_describes.
  - vm_compute. reflexivity.
  - exact Ha.
  - split; [|apply Hm; reflexivity]. injection Hs as <-. apply (Hc FactsExample.child). reflexivity.
Defined.

(** Reconciliation fails closed.  If any durable source cannot be read, or
    holds a malformed obligation, the facts are malformed, the phase is
    [OWNERSHIP_PENDING], and no guard authorizes anything. *)
Theorem failed_source_blocks_everything src f :
  source_failed src = true -> reconcile_authority_facts src = Ok f ->
  phase_from_facts f = OWNERSHIP_PENDING
  /\ authorize_spawn f = false /\ authorize_recovery f = false /\ authorize_retirement f = false
  /\ authorize_mission_publish f = false /\ authorize_mission_confirm f = false
  /\ authorize_mission_rollback f = false.
Proof.
  intros Hs Hf. rewrite <- (reconcile_malformed src f Hf) in Hs.
  unfold phase_from_facts, ordered_phases, authorize_spawn, authorize_recovery, authorize_retirement,
    authorize_mission_publish, authorize_mission_confirm, authorize_mission_rollback. by rewrite Hs.
Qed.

Lemma failed_source_blocks_everything_witness :
  authorize_mission_publish (FactsExample.facts (Some 300) false true) = false.
Proof.
  apply (failed_source_blocks_everything (FactsExample.src None false true)); vm_compute; reflexivity.
Defined.

(** The invariant check is exact: it reports no violation precisely for
    the facts that satisfy all seven invariants, and the assertion raises,
    with the first reported code and the facts, precisely for the others. *)
Theorem invariant_check_exact f :
  (check_authority_invariants f = [] <-> sound f)
  /\ (assert_authority_invariants f = inr tt <-> sound f)
  /\ (forall code g, assert_authority_invariants f = inl (code, g) ->
        g = f /\ exists rest, check_authority_invariants f = code :: rest).
Proof.
  pose proof (violations_nil f) as Hv. unfold check_authority_invariants, assert_authority_invariants.
  destruct (_authority_violations f) as [|v vs]; split_and!; try done.
  - by rewrite <- Hv.
  - by rewrite <- Hv.
  - intros code g [= -> ->]. eauto.
Qed.

(** Recovery is authorized only for an unresolved child with no competing
    consumer: no proven worker, no supervisor child, no spawn obligation, sound
    generations and trusted observations.  It is never authorized together with
    a spawn. *)
Theorem recovery_excludes_competitors f :
  authorize_recovery f = true ->
  sound f /\ durable_malformed f = false /\ identity_observation_unknown f = false
  /\ unresolved_child f = true /\ owned_worker_identity_proven f = false
  /\ supervisor_child_present f = false /\ pre_spawn_obligation f = false
  /\ live_consumers f = 1 /\ authorize_spawn f = false.
Proof.
  unfold authorize_recovery, check_authority_invariants. intros H.
  destruct (durable_malformed f) eqn:Hm; [done|]. destruct (identity_observation_unknown f) eqn:Hi; [done|].
  destruct (unresolved_child f) eqn:Hu; [|done]. cbn in H.
  assert (Hs : sound f) by (apply violations_nil; by destruct (_authority_violations f)).
  destruct (snd_single f Hs Hu) as [Ho Hc]. pose proof (snd_unresolved f Hs Hu) as Hp.
  split_and!; try done; [by rewrite live_consumers_cases, Ho, Hc, Hu|].
  unfold authorize_spawn. by rewrite Hm, Hi, Hp, Hu.
Qed.

Lemma recovery_excludes_competitors_witness :
  authorize_recovery (FactsExample.facts (Some 300) true false) = true
  /\ live_consumers (FactsExample.facts (Some 300) true false) = 1.
Proof.
  assert (Ha : authorize_recovery (FactsExample.facts (Some 300) true false) = true)
    by (vm_compute; reflexivity).
  split; [exact Ha|]. apply (recovery_excludes_competitors _ Ha).
Defined.

(** Convergence is accepted exactly when desired and applied authority
    select the target commit, the applied generation lies between the caller's
    minimum and the desired generation, and the worker is ready, live and not
    held. *)
Theorem convergence_exact c :
  authorize_supervisor_convergence c = true <->
  0 <= cv_minimum_generation c <= cv_applied_generation c
  /\ cv_applied_generation c <= cv_desired_generation c
  /\ cv_desired_commit c = cv_target_commit c /\ cv_applied_commit c = Some (cv_target_commit c)
  /\ cv_ready c = Some true /\ cv_holding c = false /\ cv_live_child c = true.
Proof.
  unfold authorize_supervisor_convergence.
  destruct (Z.ltb_spec (cv_minimum_generation c) 0); [split; [done|lia]|].
  destruct (str_eqb_spec (cv_desired_commit c) (cv_target_commit c)) as [Hd|]; cbn; [|naive_solver].
  destruct (cv_applied_commit c) as [a|]; cbn; [|naive_solver].
  destruct (str_eqb_spec a (cv_target_commit c)) as [->|]; cbn; [|naive_solver].
  destruct (Z.ltb_spec (cv_desired_generation c) (cv_minimum_generation c)); [split; [done|lia]|].
  destruct (Z.leb_spec (cv_minimum_generation c) (cv_applied_generation c)),
    (Z.leb_spec (cv_applied_generation c) (cv_desired_generation c)); cbn; try (split; [done|lia]).
  destruct (cv_ready c) as [[]|], (cv_holding c), (cv_live_child c); cbn; naive_solver.
Qed.

(** The mission guards follow the mission's life cycle.  With trusted
    authority, a mission is published only when none is pending; it is settled
    only from pending, confirmation also requiring a ready candidate; settling
    again the same way is allowed, and a mission settled one way is never
    settled the other. *)
Theorem mission_guards f :
  durable_malformed f = false ->
  (authorize_mission_publish f = true <-> mission_status f <> Some PENDING)
  /\ (authorize_mission_confirm f = true <->
        mission_status f = Some CONFIRMED_STATUS
        \/ (mission_status f = Some PENDING /\ candidate_ready f = true))
  /\ (authorize_mission_rollback f = true <->
        mission_status f = Some ROLLED_BACK_STATUS \/ mission_status f = Some PENDING).
Proof.
  intros Hm. unfold authorize_mission_publish, authorize_mission_confirm, authorize_mission_rollback.
  rewrite Hm. rewrite <- !status_is_eq. split_and!.
  - rewrite negb_true_iff. by destruct (status_is f PENDING).
  - destruct (status_is f CONFIRMED_STATUS), (status_is f PENDING), (candidate_ready f); naive_solver.
  - destruct (status_is f ROLLED_BACK_STATUS), (status_is f PENDING); naive_solver.
Qed.

Lemma mission_guards_witness :
  authorize_mission_publish FactsExample.gone = true.
Proof.
  apply (mission_guards FactsExample.gone);
    [vm_compute; reflexivity|vm_compute; discriminate].
Defined.

(** The phase is consistent with the guards and the facts: a running phase
    has a live consumer and no open or settled mission, every phase that stands
    for an outstanding or untrusted consumer refuses a spawn, and an unmanaged
    phase has neither consumer nor obligation. *)
Theorem phase_consistent f :
  match phase_from_facts f with
  | OWNERSHIP_PENDING => durable_malformed f = true \/ identity_observation_unknown f = true
      \/ ownership_hold_malformed f = true \/ unresolved_hold_malformed f = true \/ spawning_hold_malformed f = true
  | MISSION_PENDING => mission_status f = Some PENDING /\ authorize_mission_publish f = false
  | CONFIRMED => mission_status f = Some CONFIRMED_STATUS
  | ROLLED_BACK => mission_status f = Some ROLLED_BACK_STATUS
  | RUNNING => 1 <= live_consumers f /\ authorize_spawn f = false
  | SPAWN_OBLIGATION => pre_spawn_obligation f = true /\ authorize_spawn f = false
  | SPAWNING => unresolved_child f = true /\ authorize_spawn f = false
  | UNMANAGED => live_consumers f = 0 /\ pre_spawn_obligation f = false /\ durable_malformed f = false
      /\ identity_observation_unknown f = false
  | RETIRING | STOPPED | RECOVERING => False
  end.
Proof.
  unfold phase_from_facts, ordered_phases. cbn [first_phase]. rewrite live_consumers_cases.
  pose proof (status_is_eq f) as Hs.
  destruct (durable_malformed f || _ || _ || _ || _) eqn:E0; [rewrite !orb_true_iff in E0; tauto|].
  rewrite !orb_false_iff in E0. destruct E0 as ((((Hm & Hi) & _) & _) & _).
  destruct (status_is f PENDING) eqn:E1; [unfold authorize_mission_publish; rewrite E1, Hm; naive_solver|].
  destruct (status_is f CONFIRMED_STATUS) eqn:E2; [by apply Hs|].
  destruct (status_is f ROLLED_BACK_STATUS) eqn:E3; [by apply Hs|].
  rewrite (orb_comm (supervisor_child_present f)).
  destruct (owned_worker_identity_proven f || supervisor_child_present f) eqn:E4.
  { split; [by case_match; lia|]. unfold authorize_spawn. rewrite Hm, Hi, E4. by repeat case_match. }
  unfold authorize_spawn. rewrite Hm, Hi, E4.
  destruct (pre_spawn_obligation f); [done|]. by destruct (unresolved_child f).
Qed.

(** Mutation is blocked exactly while the mission state is unreadable,
    pending, or of an unknown status; it proceeds only with no mission or a
    settled one. *)
Theorem mutation_blocked_exact m :
  (forall e, m = Raise e -> e = DeployCtlError) ->
  exists b, mutation_blocked m = Ok b
    /\ (b = false <->
          m = Ok None \/ exists ms, m = Ok (Some ms)
            /\ (ms_status ms = CONFIRMED_STATUS \/ ms_status ms = ROLLED_BACK_STATUS)).
Proof.
  intros He. unfold mutation_blocked, mutation_blocker_reason.
  destruct m as [[ms|]|e].
  - destruct (str_eqb_spec (ms_status ms) PENDING) as [Hp|_].
    + eexists. split; [done|]. split; [done|].
      intros [?|(x & Hx & Hst)]; [done|]. injection Hx as <-. rewrite Hp in Hst. by destruct Hst.
    + destruct (str_eqb_spec (ms_status ms) CONFIRMED_STATUS) as [Hc|Hc],
        (str_eqb_spec (ms_status ms) ROLLED_BACK_STATUS) as [Hr|Hr]; cbn; eexists; (split; [done|]);
        split; try done; try (intros _; right; by eauto).
      intros [?|(x & Hx & Hst)]; [done|]. injection Hx as <-. by destruct Hst.
  - eexists. split; [done|]. split; [by left|done].
  - rewrite (He e eq_refl). eexists. split; [done|]. split; [done|]. by intros [?|(? & ? & _)].
Qed.

Lemma mutation_blocked_exact_witness :
  exists b, mutation_blocked (Ok (Some (mkMission (py "limbo") 4 (py "c0ffee")))) = Ok b /\ b = true.
Proof.
  destruct (mutation_blocked_exact (Ok (Some (mkMission (py "limbo") 4 (py "c0ffee"))))) as (b & Hb & Hiff);
    [discriminate|].
  exists b. split; [exact Hb|]. destruct b; [reflexivity|].
  destruct (proj1 Hiff eq_refl) as [H|(ms & H & [H'|H'])]; [discriminate| |];
    injection H as <-; vm_compute in H'; discriminate.
Defined.

(** An armed boundary crashes before its side effect and nothing else
    does: a failpoint raises exactly when its own name is armed, and leaving an
    armed block restores the default whatever the block did, exceptions
    included. *)
Theorem failpoint_scope {A} (name : pystr) (exc : option exn) (body : failpoints -> res A * failpoints) reg :
  failpoint (arm_failpoint reg name exc) name = Raise (default FailpointError exc)
  /\ (forall other, other <> name -> failpoint (arm_failpoint reg name exc) other = failpoint reg other)
  /\ fst (armed_failpoint name exc body reg) = fst (body (arm_failpoint reg name exc))
  /\ (forall any, failpoint (snd (armed_failpoint name exc body reg)) any = Ok tt).
Proof.
  split_and!.
  - unfold failpoint, arm_failpoint. rewrite lookup_insert_eq. by destruct exc.
  - intros other Ho. unfold failpoint, arm_failpoint. by rewrite lookup_insert_ne.
  - unfold armed_failpoint. by destruct (body _).
  - intros any. unfold armed_failpoint. destruct (body _). cbn. unfold failpoint, disarm_failpoints.
    by rewrite lookup_empty.
Qed.
