(* ===== verification/Protocol.v ===== *)
(** The versioned payload binding ([src/lubko/protocol_versioning.py] and
    [src/lubko/protocol.py]): the version policy, the builders and the
    validating parsers of command jobs, live output windows and immutable
    output chunks.

    An [object]-typed argument is a decoded JSON value.  A lone surrogate makes
    [_utf8_byte_length] raise [UnicodeEncodeError], and an unhashable job type
    makes the membership test raise [TypeError]; both are modelled. *)

From S2P Require Import Prelude PyStr PyNum Json JsonFacts Uuid.

#[local] Arguments py : simpl never.

(** ** Version policy *)

Definition CURRENT_PROTOCOL_VERSION : Z := 4.
Definition PROTOCOL_VERSION : Z := 4.

Inductive JobVersionDisposition := CLAIMABLE | FAIL_CLOSED.

Definition version_supported (version : Z) : bool := version =? CURRENT_PROTOCOL_VERSION.

(** The diagnostic names the version in decimal, which fails for an integer of
    more than 4300 digits. *)
Definition unsupported_version_diagnostic (version : Z) : res (option pystr) :=
  if version_supported version then Ok None
  else if negb (int_repr_ok version) then Raise ValueError
  else if version <? CURRENT_PROTOCOL_VERSION then
    Ok (Some (py "protocol version " ++ int_repr version ++ py " is below the current supported version "
              ++ int_repr CURRENT_PROTOCOL_VERSION ++ py "; the job targets a retired generation "
              ++ py "and must not be executed"))
  else
    Ok (Some (py "protocol version " ++ int_repr version ++ py " is above the current supported version "
              ++ int_repr CURRENT_PROTOCOL_VERSION ++ py "; the job targets a newer generation than "
              ++ py "this daemon understands and must not be executed")).

Definition classify_job_version (version : Z) : JobVersionDisposition :=
  if version_supported version then CLAIMABLE else FAIL_CLOSED.

Definition reaper_disposition (version : Z) : JobVersionDisposition :=
  if version <? CURRENT_PROTOCOL_VERSION then FAIL_CLOSED else CLAIMABLE.

(** ** Data *)

Definition JOB_TYPE_COMMAND : pystr := py "command".
Definition JOB_TYPE_OUTPUT_CHUNK : pystr := py "output_chunk".
Definition KNOWN_JOB_TYPES : list pystr := [JOB_TYPE_COMMAND; JOB_TYPE_OUTPUT_CHUNK].

Definition STATUS_PENDING : pystr := py "pending".
Definition STATUS_RUNNING : pystr := py "running".
Definition STATUS_SUCCEEDED : pystr := py "succeeded".
Definition STATUS_FAILED : pystr := py "failed".
Definition STATUS_CANCELLED : pystr := py "cancelled".
Definition KNOWN_STATUSES : list pystr :=
  [STATUS_PENDING; STATUS_RUNNING; STATUS_SUCCEEDED; STATUS_FAILED; STATUS_CANCELLED].

Definition CHUNK_STREAMS : list pystr := [py "stdout"; py "stderr"].
Definition OUTPUT_TAIL_MAX_BYTES : Z := 4000.
Definition OUTPUT_CHUNK_MAX_BYTES : Z := 2000.

Record JobRequest := mkRequest { rq_cwd : pystr; rq_process : list pystr }.

Record OutputWindow := mkWindow {
  win_tail : pystr;
  win_start : Z;
  win_end : Z;
  win_previous : option Z;
}.

Record OutputSection := mkSection { sec_stdout : option OutputWindow; sec_stderr : option OutputWindow }.

Record ResultView := mkResult {
  rv_stdout : pystr;
  rv_stderr : pystr;
  rv_exit_code : option Z;
  rv_cancellation_note : option pystr;
  rv_recovery_note : option pystr;
}.

Record JobPayload := mkPayload {
  jp_version : Z;
  jp_type : pystr;
  jp_server : pystr;
  jp_request : JobRequest;
  jp_status : pystr;
  jp_output : option OutputSection;
  jp_result : option ResultView;
}.

Record OutputChunk := mkChunk {
  ck_server : pystr;
  ck_thread : Z;
  ck_stream : pystr;
  ck_sequence : Z;
  ck_start : Z;
  ck_end : Z;
  ck_value : pystr;
  ck_previous : option Z;
}.

(** ** Field validation *)

(** [v in (a, b, ...)] for strings: any other value is unequal to all. *)
Definition mem_values (v : json) (l : list pystr) : bool :=
  match v with JStr s => mem_str s l | _ => false end.

Definition _utf8_byte_length (text : pystr) : res Z := utf8_byte_length text.

Definition _parse_uuid (value : json) : res (option Z) :=
  match value with
  | JNull => Ok None
  | JStr s => match uuid_of_text s with Some u => Ok (Some u) | None => Raise ProtocolError end
  | _ => Raise ProtocolError
  end.

Definition parse_server (value : json) : res pystr :=
  match value with
  | JStr (c :: s) => Ok (c :: s)
  | _ => Raise ProtocolError
  end.

Definition _validate_cwd (cwd : json) : res pystr :=
  match cwd with
  | JStr [] => Raise ProtocolError
  | JStr s => match strip_prefix (py "/") s with Some _ => Ok s | None => Raise ProtocolError end
  | _ => Raise ProtocolError
  end.

Definition _validate_offsets (start stop : Z) : res unit :=
  if (start <? 0) || (stop <? 0) then Raise ProtocolError
  else if stop <? start then Raise ProtocolError
  else Ok tt.

Definition _validate_stream (stream : json) : res unit :=
  if mem_values stream CHUNK_STREAMS then Ok tt else Raise ProtocolError.

(** [isinstance(part, str) and part] *)
Definition nonempty_str (v : json) : bool := match v with JStr (_ :: _) => true | _ => false end.
Definition str_of (v : json) : pystr := match v with JStr s => s | _ => [] end.

Definition _parse_process (raw : json) : res (list pystr) :=
  match raw with
  | JArr [] => Raise ProtocolError
  | JArr l => if forallb nonempty_str l then Ok (map str_of l) else Raise ProtocolError
  | _ => Raise ProtocolError
  end.

(** An exact integer: [isinstance(v, int) and not isinstance(v, bool)]. *)
Definition exact_int (v : json) : res Z :=
  match v with JInt z => Ok z | _ => Raise ProtocolError end.

(** [isinstance(v, str)] and at most [limit] encoded bytes. *)
Definition bounded_str (v : json) (limit : Z) : res pystr :=
  match v with
  | JStr s => n ← _utf8_byte_length s; if limit <? n then Raise ProtocolError else Ok s
  | _ => Raise ProtocolError
  end.

(** ** Builders *)

(** The version argument of the builders: a positive exact integer. *)
Definition positive_version (version : json) : res Z :=
  v ← exact_int version; if v <? 1 then Raise ProtocolError else Ok v.

Definition build_payload (server cwd process version : json) : res dict :=
  v ← positive_version version;
  validated_server ← parse_server server;
  validated_cwd ← _validate_cwd cwd;
  argv ← _parse_process process;
  Ok [(py "v", JInt v); (py "type", JStr JOB_TYPE_COMMAND); (py "server", JStr validated_server);
      (py "request", JObj [(py "cwd", JStr validated_cwd); (py "process", JArr (map JStr argv))]);
      (py "state", JObj [(py "status", JStr STATUS_PENDING)])].

(** [str(previous)] or [None] *)
Definition uuid_field (u : option Z) : json := json_opt (fun u => JStr (uuid_str u)) u.

Definition build_output_window_payload (tail : pystr) (start stop : Z) (previous : option Z) : res dict :=
  n ← _utf8_byte_length tail;
  if OUTPUT_TAIL_MAX_BYTES <? n then Raise ProtocolError
  else
    _ ← _validate_offsets start stop;
    if OUTPUT_TAIL_MAX_BYTES <? stop - start then Raise ProtocolError
    else Ok [(py "tail", JStr tail); (py "start", JInt start); (py "end", JInt stop);
             (py "previous", uuid_field previous)].

Definition build_output_chunk_payload (server : json) (thread : Z) (stream : json)
    (sequence start stop : Z) (value : pystr) (previous : option Z) (version : json) : res dict :=
  _ ← _validate_stream stream;
  validated_server ← parse_server server;
  v ← positive_version version;
  if sequence <? 0 then Raise ProtocolError
  else
    n ← _utf8_byte_length value;
    if OUTPUT_CHUNK_MAX_BYTES <? n then Raise ProtocolError
    else
      _ ← _validate_offsets start stop;
      if OUTPUT_CHUNK_MAX_BYTES <? stop - start then Raise ProtocolError
      else Ok [(py "v", JInt v); (py "type", JStr JOB_TYPE_OUTPUT_CHUNK); (py "server", JStr validated_server);
               (py "thread", JStr (uuid_str thread)); (py "stream", stream); (py "sequence", JInt sequence);
               (py "start", JInt start); (py "end", JInt stop); (py "value", JStr value);
               (py "previous", uuid_field previous)].

(** ** Parsers *)

Definition _parse_request (raw_request : json) : res JobRequest :=
  match raw_request with
  | JObj d =>
      if dict_mem d (py "command") || dict_mem d (py "args") then Raise ProtocolError
      else
        cwd ← _validate_cwd (dict_get d (py "cwd"));
        process ← _parse_process (dict_get d (py "process"));
        Ok (mkRequest cwd process)
  | _ => Raise ProtocolError
  end.

Definition _parse_status (raw_state : json) : res pystr :=
  match raw_state with
  | JObj d =>
      match dict_get d (py "status") with
      | JStr s => if mem_str s KNOWN_STATUSES then Ok s else Raise ProtocolError
      | _ => Raise ProtocolError
      end
  | _ => Raise ProtocolError
  end.

Definition _parse_window (raw : json) : res OutputWindow :=
  match raw with
  | JObj d =>
      tail ← bounded_str (dict_get d (py "tail")) OUTPUT_TAIL_MAX_BYTES;
      start ← exact_int (dict_get d (py "start"));
      stop ← exact_int (dict_get d (py "end"));
      _ ← _validate_offsets start stop;
      if OUTPUT_TAIL_MAX_BYTES <? stop - start then Raise ProtocolError
      else
        previous ← _parse_uuid (dict_get d (py "previous"));
        Ok (mkWindow tail start stop previous)
  | _ => Raise ProtocolError
  end.

(** [f(v) if v is not None else None] *)
Definition parse_optional {A} (f : json -> res A) (v : json) : res (option A) :=
  match v with JNull => Ok None | _ => a ← f v; Ok (Some a) end.

Definition _parse_output_section (raw : json) : res (option OutputSection) :=
  match raw with
  | JNull => Ok None
  | JObj d =>
      stdout ← parse_optional _parse_window (dict_get d (py "stdout"));
      stderr ← parse_optional _parse_window (dict_get d (py "stderr"));
      Ok (Some (mkSection stdout stderr))
  | _ => Raise ProtocolError
  end.

Definition string_value (v : json) : res pystr :=
  match v with JStr s => Ok s | _ => Raise ProtocolError end.

Definition _parse_result (raw : json) : res (option ResultView) :=
  match raw with
  | JNull => Ok None
  | JObj d =>
      stdout ← bounded_str (dict_get d (py "stdout")) OUTPUT_TAIL_MAX_BYTES;
      stderr ← bounded_str (dict_get d (py "stderr")) OUTPUT_TAIL_MAX_BYTES;
      exit_code ← parse_optional exact_int (dict_get d (py "exit_code"));
      cancellation_note ← parse_optional string_value (dict_get d (py "cancellation_note"));
      recovery_note ← parse_optional string_value (dict_get d (py "recovery_note"));
      Ok (Some (mkResult stdout stderr exit_code cancellation_note recovery_note))
  | _ => Raise ProtocolError
  end.

Definition _decode_payload (data : json) : res dict :=
  data ← match data with
         | JStr text => catch (json_loads text) JSONDecodeError (Raise ProtocolError)
         | _ => Ok data
         end;
  match data with JObj d => Ok d | _ => Raise ProtocolError end.

(** Membership in a frozenset hashes the value first. *)
Definition unhashable (v : json) : bool := match v with JArr _ | JObj _ => true | _ => false end.

Definition _parse_version_and_type (d : dict) : res (Z * pystr) :=
  version ← exact_int (dict_get d (py "v"));
  diagnostic ← unsupported_version_diagnostic version;
  match diagnostic with
  | Some _ => Raise ProtocolError
  | None =>
      let job_type := dict_get d (py "type") in
      if unhashable job_type then Raise TypeError
      else if negb (mem_values job_type KNOWN_JOB_TYPES) then Raise ProtocolError
      else Ok (version, str_of job_type)
  end.

Definition parse_payload (data : json) : res JobPayload :=
  decoded ← _decode_payload data;
  '(version, job_type) ← _parse_version_and_type decoded;
  if negb (str_eqb job_type JOB_TYPE_COMMAND) then Raise ProtocolError
  else
    server ← parse_server (dict_get decoded (py "server"));
    request ← _parse_request (dict_get decoded (py "request"));
    status ← _parse_status (dict_get decoded (py "state"));
    output ← _parse_output_section (dict_get decoded (py "output"));
    result ← _parse_result (dict_get decoded (py "result"));
    Ok (mkPayload version job_type server request status output result).

Definition parse_chunk_payload (data : json) : res OutputChunk :=
  decoded ← _decode_payload data;
  '(_, job_type) ← _parse_version_and_type decoded;
  if negb (str_eqb job_type JOB_TYPE_OUTPUT_CHUNK) then Raise ProtocolError
  else
    thread ← _parse_uuid (dict_get decoded (py "thread"));
    match thread with
    | None => Raise ProtocolError
    | Some thread =>
        _ ← _validate_stream (dict_get decoded (py "stream"));
        let stream := str_of (dict_get decoded (py "stream")) in
        sequence ← exact_int (dict_get decoded (py "sequence"));
        if sequence <? 0 then Raise ProtocolError
        else
          start ← exact_int (dict_get decoded (py "start"));
          stop ← exact_int (dict_get decoded (py "end"));
          _ ← _validate_offsets start stop;
          if OUTPUT_CHUNK_MAX_BYTES <? stop - start then Raise ProtocolError
          else
            value ← bounded_str (dict_get decoded (py "value")) OUTPUT_CHUNK_MAX_BYTES;
            previous ← _parse_uuid (dict_get decoded (py "previous"));
            server ← parse_server (dict_get decoded (py "server"));
            Ok (mkChunk server thread stream sequence start stop value previous)
    end.

(** ** Validation facts *)

Lemma parse_server_Ok v s : parse_server v = Ok s <-> v = JStr s /\ s <> [].
Proof.
  unfold parse_server. split.
  - destruct v as [| | | |[|c l]| |]; try done. by intros [= <-].
  - intros [-> Hs]. by destruct s.
Qed.

Lemma exact_int_Ok v z : exact_int v = Ok z <-> v = JInt z.
Proof. destruct v; cbn; split; intros H; congruence. Qed.

Lemma validate_cwd_Ok v s : _validate_cwd v = Ok s <-> v = JStr s /\ exists r, s = 47 :: r.
Proof.
  unfold _validate_cwd. split.
  - destruct v as [| | | |[|c l]| |]; try done. change (py "/") with [47]. cbn [strip_prefix].
    destruct (Z.eqb_spec 47 c) as [<-|]; [|done]. intros [= <-]. eauto.
  - intros (-> & r & ->). done.
Qed.

Lemma str_of_map l : forallb nonempty_str l = true -> map JStr (map str_of l) = l.
Proof.
  induction l as [|v l IH]; [done|]. cbn. intros [Hv Hl]%andb_true_iff. rewrite (IH Hl).
  by destruct v as [| | | |[|]| |].
Qed.

Lemma nonempty_map p : forallb nonempty_str (map JStr p) = true <-> Forall (fun s => s <> []) p.
Proof.
  induction p as [|s p IH]; [done|]. cbn. rewrite andb_true_iff, IH, Forall_cons. destruct s; naive_solver.
Qed.

Lemma str_of_JStr p : map str_of (map JStr p) = p.
Proof. induction p as [|s p IH]; [done|]. cbn. by rewrite IH. Qed.

Lemma parse_process_Ok v p :
  _parse_process v = Ok p <-> v = JArr (map JStr p) /\ p <> [] /\ Forall (fun s => s <> []) p.
Proof.
  unfold _parse_process. split.
  - destruct v as [| | | | |[|x l]|]; try done. destruct (forallb nonempty_str (x :: l)) eqn:E; [|done].
    intros H. assert (Hp : p = map str_of (x :: l)) by congruence. clear H.
    pose proof (str_of_map _ E) as Hm. rewrite <- Hp in Hm.
    split_and!; [by rewrite Hm|by rewrite Hp|apply nonempty_map; by rewrite Hm].
  - intros (-> & Hne & Hp). destruct p as [|s p]; [done|]. cbn [map].
    change (JStr s :: map JStr p) with (map JStr (s :: p)).
    rewrite (proj2 (nonempty_map _) Hp), str_of_JStr. done.
Qed.

Lemma bounded_str_Ok v limit s :
  bounded_str v limit = Ok s <-> v = JStr s /\ exists n, utf8_byte_length s = Ok n /\ n <= limit.
Proof.
  unfold bounded_str, _utf8_byte_length. split.
  - destruct v; try done. intros H. res_inv H. destruct (Z.ltb_spec limit a); [done|].
    injection H as <-. eauto.
  - intros (-> & n & -> & Hn). cbn. destruct (Z.ltb_spec limit n); [lia|done].
Qed.

Lemma validate_offsets_Ok a b : _validate_offsets a b = Ok tt <-> 0 <= a <= b.
Proof.
  unfold _validate_offsets. destruct (Z.ltb_spec a 0), (Z.ltb_spec b 0), (Z.ltb_spec b a); cbn;
    split; try done; lia.
Qed.

Lemma validate_stream_Ok v :
  _validate_stream v = Ok tt <-> exists s, v = JStr s /\ In s CHUNK_STREAMS.
Proof.
  unfold _validate_stream. split.
  - destruct v; try done. cbn [mem_values]. case_if; [|done]. rewrite mem_str_In in *. eauto.
  - intros (s & -> & Hs). cbn [mem_values]. by apply mem_str_In in Hs as ->.
Qed.

Lemma positive_version_Ok v z : positive_version v = Ok z <-> v = JInt z /\ 1 <= z.
Proof.
  unfold positive_version. split.
  - intros H. res_inv H. apply exact_int_Ok in B as ->. destruct (Z.ltb_spec a 1); [done|].
    by injection H as <-.
  - intros [-> Hz]. cbn. destruct (Z.ltb_spec z 1); [lia|done].
Qed.

Definition uuid_ok (u : option Z) : Prop := match u with Some u => 0 <= u < 2 ^ 128 | None => True end.

Lemma parse_uuid_field u : uuid_ok u -> _parse_uuid (uuid_field u) = Ok u.
Proof.
  destruct u as [u|]; [|done]. intros Hu. cbn [uuid_field json_opt _parse_uuid].
  by rewrite uuid_of_text_str.
Qed.

Lemma version_and_type v t rest :
  v = CURRENT_PROTOCOL_VERSION -> In t KNOWN_JOB_TYPES ->
  _parse_version_and_type ((py "v", JInt v) :: (py "type", JStr t) :: rest) = Ok (v, t).
Proof.
  intros -> Ht. unfold _parse_version_and_type. eval_get.
  cbn -[mem_str KNOWN_JOB_TYPES]. by apply mem_str_In in Ht as ->.
Qed.

Lemma decode_plain d text :
  json_plain (JObj d) = true -> json_dumps (JObj d) = Ok text -> _decode_payload (JStr text) = Ok d.
Proof. intros Hp Hd. unfold _decode_payload. by rewrite (json_loads_dumps _ _ Hp Hd). Qed.

Definition str_ok (s : pystr) : Prop := str_wf s = true.

Lemma uuid_str_wf u : str_wf (uuid_str u) = true.
Proof.
  apply scalar_str_wf. unfold uuid_str, slice.
  pose proof (hex_fixed_lower 32 u) as Hlow.
  assert (Hs : forall a b, scalar_str (take a (drop b (hex_fixed 32 u)))).
  { intros a b. eapply Forall_impl; [apply Forall_take, Forall_drop, Hlow|].
    intros c Hc. apply is_scalar_spec. unfold lower_hex in Hc. lia. }
  repeat (apply Forall_app_2; [apply Hs|apply Forall_cons_2; [done|]]). apply Hs.
Qed.

Lemma uuid_field_plain u : json_plain (uuid_field u) = true.
Proof. destruct u; [apply uuid_str_wf|done]. Qed.

(** ** Inversion of the parsers *)

Record window_ok (w : OutputWindow) : Prop := {
  wo_tail : exists n, utf8_byte_length (win_tail w) = Ok n /\ n <= OUTPUT_TAIL_MAX_BYTES;
  wo_offsets : 0 <= win_start w <= win_end w;
  wo_span : win_end w - win_start w <= OUTPUT_TAIL_MAX_BYTES;
}.

Definition optional_ok {A} (P : A -> Prop) (o : option A) : Prop :=
  match o with Some a => P a | None => True end.

Lemma parse_window_ok v w : _parse_window v = Ok w -> window_ok w.
Proof.
  unfold _parse_window. destruct v; try done. intros H. res_inv H. destruct a2.
  apply validate_offsets_Ok in B2. apply bounded_str_Ok in B as (_ & n & Hn & Hle).
  destruct (Z.ltb_spec OUTPUT_TAIL_MAX_BYTES (a1 - a0)); [done|]. res_inv H. subst w.
  split; cbn; [eauto|done|done].
Qed.

Lemma parse_optional_ok {A} (f : json -> res A) (P : A -> Prop) v o :
  (forall v a, f v = Ok a -> P a) -> parse_optional f v = Ok o -> optional_ok P o.
Proof.
  intros Hf Hv. assert (Hc : o = None \/ exists a, f v = Ok a /\ o = Some a).
  { unfold parse_optional in Hv. destruct v; [left; congruence|..]; right;
      apply bind_Ok in Hv as (a & Ha & Hv); exists a; split; congruence. }
  destruct Hc as [->|(a & Ha & ->)]; [done|]. by eapply Hf.
Qed.

Lemma parse_output_ok v s :
  _parse_output_section v = Ok s ->
  optional_ok (fun s => optional_ok window_ok (sec_stdout s) /\ optional_ok window_ok (sec_stderr s)) s.
Proof.
  unfold _parse_output_section. destruct v; try done; [by intros [= <-]|]. intros H. res_inv H. subst s.
  split; cbn; eapply parse_optional_ok; try done; apply parse_window_ok.
Qed.

Definition result_ok (r : ResultView) : Prop :=
  (exists n, utf8_byte_length (rv_stdout r) = Ok n /\ n <= OUTPUT_TAIL_MAX_BYTES)
  /\ (exists n, utf8_byte_length (rv_stderr r) = Ok n /\ n <= OUTPUT_TAIL_MAX_BYTES).

Lemma parse_result_ok v r : _parse_result v = Ok r -> optional_ok result_ok r.
Proof.
  unfold _parse_result. destruct v; try done; [by intros [= <-]|]. intros H. res_inv H. subst r.
  apply bounded_str_Ok in B as (_ & n & ? & ?), B0 as (_ & m & ? & ?). split; cbn; eauto.
Qed.

Lemma parse_request_ok v r :
  _parse_request v = Ok r ->
  (exists p, rq_cwd r = 47 :: p) /\ rq_process r <> [] /\ Forall (fun s => s <> []) (rq_process r).
Proof.
  unfold _parse_request. destruct v; try done. case_if; [done|]. intros Hr. res_inv Hr. subst r. cbn.
  apply validate_cwd_Ok in B as (_ & ?). apply parse_process_Ok in B0 as (_ & ? & ?). done.
Qed.

Lemma version_type_inv d v t :
  _parse_version_and_type d = Ok (v, t) -> v = CURRENT_PROTOCOL_VERSION /\ In t KNOWN_JOB_TYPES.
Proof.
  unfold _parse_version_and_type, unsupported_version_diagnostic. intros H. res_inv H.
  destruct (version_supported a) eqn:Hs; [|repeat case_match; by simplify_eq].
  apply Z.eqb_eq in Hs as ->. injection B0 as <-. destruct (unhashable _); [done|].
  destruct (mem_values (dict_get d (py "type")) KNOWN_JOB_TYPES) eqn:Hm; [|done]. injection H as <- <-.
  split; [done|]. destruct (dict_get d (py "type")); try done. by apply mem_str_In.
Qed.

(** *** Error classes *)

(** Strings without surrogates, as every text from the database has. *)
Fixpoint scalar_json (v : json) : Prop :=
  match v with
  | JStr s => scalar_str s
  | JArr l => fold_right (fun v P => scalar_json v /\ P) True l
  | JObj d => fold_right (fun '(_, v) P => scalar_json v /\ P) True d
  | _ => True
  end.

Lemma dict_get_scalar d k : scalar_json (JObj d) -> scalar_json (dict_get d k).
Proof.
  unfold dict_get. cbn. induction d as [|[k' v] d IH]; cbn; [done|]. intros [Hv Hd]. case_if; auto.
Qed.

Definition only_protocol {A} (m : res A) : Prop := forall e, m = Raise e -> e = ProtocolError.

Lemma only_protocol_bind {A B} (m : res A) (f : A -> res B) :
  only_protocol m -> (forall a, m = Ok a -> only_protocol (f a)) -> only_protocol (m ≫= f).
Proof. intros Hm Hf e [H|(a & Ha & H)]%bind_Raise; [by apply Hm|by eapply Hf]. Qed.

Lemma only_protocol_Ok {A} (a : A) : only_protocol (Ok a).
Proof. by intros e. Qed.
Lemma only_protocol_Raise {A} : only_protocol (@Raise A ProtocolError).
Proof. by intros e [= <-]. Qed.
Lemma only_protocol_int v : only_protocol (exact_int v).
Proof. destruct v; intros e H; cbn in H; congruence. Qed.
Lemma only_protocol_uuid v : only_protocol (_parse_uuid v).
Proof. unfold _parse_uuid. intros e H. repeat case_match; congruence. Qed.
Lemma only_protocol_server v : only_protocol (parse_server v).
Proof. unfold parse_server. intros e H. repeat case_match; congruence. Qed.
Lemma only_protocol_cwd v : only_protocol (_validate_cwd v).
Proof. unfold _validate_cwd. intros e H. repeat case_match; congruence. Qed.
Lemma only_protocol_process v : only_protocol (_parse_process v).
Proof. unfold _parse_process. intros e H. repeat case_match; congruence. Qed.
Lemma only_protocol_offsets a b : only_protocol (_validate_offsets a b).
Proof. unfold _validate_offsets. intros e H. repeat case_match; congruence. Qed.
Lemma only_protocol_stream v : only_protocol (_validate_stream v).
Proof. unfold _validate_stream. intros e H. repeat case_match; congruence. Qed.
Lemma only_protocol_status v : only_protocol (_parse_status v).
Proof. unfold _parse_status. intros e H. repeat case_match; congruence. Qed.
Lemma only_protocol_string v : only_protocol (string_value v).
Proof. destruct v; intros e H; cbn in H; congruence. Qed.
Lemma only_protocol_bounded v n : scalar_json v -> only_protocol (bounded_str v n).
Proof.
  intros Hv. unfold bounded_str. destruct v; try apply only_protocol_Raise. unfold _utf8_byte_length.
  rewrite utf8_byte_length_scalar by done. cbn. case_if; [apply only_protocol_Raise|apply only_protocol_Ok].
Qed.
Lemma only_protocol_optional {A} (f : json -> res A) v : only_protocol (f v) -> only_protocol (parse_optional f v).
Proof.
  intros H. unfold parse_optional. destruct v; [apply only_protocol_Ok|..];
    (apply only_protocol_bind; [exact H|]; intros; apply only_protocol_Ok).
Qed.
#[export] Hint Resolve only_protocol_bind only_protocol_Ok only_protocol_Raise only_protocol_int only_protocol_uuid
  only_protocol_server only_protocol_cwd only_protocol_process only_protocol_offsets only_protocol_stream
  only_protocol_status only_protocol_string only_protocol_bounded only_protocol_optional dict_get_scalar : lubko.

(** Walk through a validation that only fails with [ProtocolError]. *)
Ltac only_protocol_tac :=
  repeat first
    [ apply only_protocol_bind; [solve [auto 6 with lubko]|intros ? _]
    | match goal with
      | |- only_protocol (match ?x with _ => _ end) => destruct x
      | |- only_protocol (if ?x then _ else _) => destruct x
      end
    | solve [auto with lubko] ].

Lemma only_protocol_window v : scalar_json v -> only_protocol (_parse_window v).
Proof. intros Hv. unfold _parse_window. destruct v; try apply only_protocol_Raise. only_protocol_tac. Qed.
#[export] Hint Resolve only_protocol_window : lubko.

Lemma only_protocol_output v : scalar_json v -> only_protocol (_parse_output_section v).
Proof. intros Hv. unfold _parse_output_section. destruct v; auto with lubko. only_protocol_tac. Qed.

Lemma only_protocol_result v : scalar_json v -> only_protocol (_parse_result v).
Proof. intros Hv. unfold _parse_result. destruct v; auto with lubko. only_protocol_tac. Qed.

Lemma only_protocol_request v : only_protocol (_parse_request v).
Proof. unfold _parse_request. only_protocol_tac. Qed.
#[export] Hint Resolve only_protocol_output only_protocol_result only_protocol_request : lubko.

(** What a decoded object must satisfy for every refusal to be a [ProtocolError]. *)
Definition regular (d : dict) : Prop :=
  scalar_json (JObj d) /\ unhashable (dict_get d (py "type")) = false
  /\ (forall z, dict_get d (py "v") = JInt z -> int_repr_ok z = true).

Lemma only_protocol_version d : regular d -> only_protocol (_parse_version_and_type d).
Proof.
  intros (_ & Ht & Hv). unfold _parse_version_and_type. apply only_protocol_bind; [auto with lubko|].
  intros z Hz. apply exact_int_Ok in Hz. apply only_protocol_bind.
  - unfold unsupported_version_diagnostic. rewrite (Hv z Hz). cbn. only_protocol_tac.
  - intros diag _. rewrite Ht. only_protocol_tac.
Qed.

(** *** Refusals that are not a [ProtocolError] *)

(** A job type that is a list. *)
Lemma unhashable_type_escapes :
  parse_payload (JObj [(py "v", JInt 4); (py "type", JArr [])]) = Raise TypeError.
Proof. vm_compute. reflexivity. Qed.

(** Text with an integer of 4301 digits, in any field. *)
Lemma huge_integer_escapes :
  parse_payload (JStr ([123; 34; 120; 34; 58] ++ repeat 49 4301 ++ [125])) = Raise ValueError.
Proof. vm_compute. reflexivity. Qed.

(** A result whose text has an unpaired surrogate escape. *)
Lemma surrogate_result_escapes :
  _parse_result (JObj [(py "stdout", JStr [0xD800]); (py "stderr", JStr [])]) = Raise UnicodeEncodeError.
Proof. vm_compute. reflexivity. Qed.

(** ** Properties *)

(** A submitted command survives the transport.  Building a payload for
    the current version, storing its JSON text and parsing it back yields the
    same server, working directory and argv, as a pending command with no output
    or result. *)
Theorem command_round_trip server cwd process d text :
  str_ok server -> str_ok cwd -> Forall str_ok process ->
  build_payload (JStr server) (JStr cwd) (JArr (map JStr process)) (JInt PROTOCOL_VERSION) = Ok d ->
  json_dumps (JObj d) = Ok text ->
  parse_payload (JStr text)
    = Ok (mkPayload PROTOCOL_VERSION JOB_TYPE_COMMAND server (mkRequest cwd process) STATUS_PENDING None None).
Proof.
  intros Hs Hc Hp Hb Hd. unfold build_payload in Hb. res_inv Hb.
  apply positive_version_Ok in B as [[= <-] _]. apply parse_server_Ok in B0 as [[= <-] Hne].
  apply validate_cwd_Ok in B1 as [[= <-] Habs]. apply parse_process_Ok in B2 as (Hargv & Hpne & Hpall).
  assert (a2 = process) as ->.
  { injection Hargv as Hargv. rewrite <- (str_of_JStr process), Hargv. symmetry. apply str_of_JStr. }
  subst d. unfold parse_payload. erewrite decode_plain; [|clear Hd|exact Hd].
  - cbn [mbind res_bind]. rewrite version_and_type by (done || by left). cbn -[dict_get py].
    eval_get. rewrite (proj2 (parse_server_Ok _ server)) by done. cbn -[dict_get py _parse_request].
    unfold _parse_request. change (dict_mem _ (py "command") || dict_mem _ (py "args")) with false. cbn iota.
    eval_get. rewrite (proj2 (validate_cwd_Ok _ cwd)) by done. cbn [mbind res_bind].
    rewrite (proj2 (parse_process_Ok _ process)) by done. reflexivity.
  - cbn [json_plain]. apply andb_true_iff; split; [vm_compute; reflexivity|]. plain_members.
    cbn [json_plain]. apply forallb_forall. intros v (x & <- & Hx)%in_map_iff.
    rewrite List.Forall_forall in Hp. by apply Hp.
Qed.

Lemma command_round_trip_witness :
  exists d text,
    build_payload (JStr (py "srv")) (JStr (py "/tmp")) (JArr [JStr (py "ls"); JStr (py "-l")]) (JInt 4) = Ok d
    /\ json_dumps (JObj d) = Ok text
    /\ parse_payload (JStr text)
       = Ok (mkPayload 4 (py "command") (py "srv") (mkRequest (py "/tmp") [py "ls"; py "-l"]) (py "pending") None None).
Proof.
  eexists _, _. split; [vm_compute; reflexivity|]. split; [vm_compute; reflexivity|].
  eapply (command_round_trip (py "srv") (py "/tmp") [py "ls"; py "-l"]).
  - vm_compute. reflexivity.
  - vm_compute. reflexivity.
  - repeat (apply Forall_cons_2; [vm_compute; reflexivity|]). apply Forall_nil_2.
  - vm_compute. reflexivity.
  - vm_compute. reflexivity.
Defined.

Lemma chunk_reads_back server thread stream sequence start stop value previous d text :
  str_ok server -> str_ok value -> uuid_ok (Some thread) -> uuid_ok previous ->
  build_output_chunk_payload (JStr server) thread (JStr stream) sequence start stop value previous
    (JInt PROTOCOL_VERSION) = Ok d ->
  json_dumps (JObj d) = Ok text ->
  parse_chunk_payload (JStr text) = Ok (mkChunk server thread stream sequence start stop value previous).
Proof.
  intros Hs Hv Ht Hpv Hb Hd. unfold build_output_chunk_payload, _utf8_byte_length in Hb. res_inv Hb. destruct a.
  apply positive_version_Ok in B1 as [[= <-] _]. apply parse_server_Ok in B0 as [[= <-] Hne].
  destruct (Z.ltb_spec sequence 0) as [|Hseq]; [done|]. res_inv Hb.
  destruct (Z.ltb_spec OUTPUT_CHUNK_MAX_BYTES a) as [|Hlen]; [done|]. res_inv Hb. destruct a0.
  destruct (Z.ltb_spec OUTPUT_CHUNK_MAX_BYTES (stop - start)) as [|Hspan]; [done|]. injection Hb as <-.
  assert (Hst : str_wf stream = true).
  { apply validate_stream_Ok in B as (s & [= <-] & [<-|[<-|[]]]); vm_compute; reflexivity. }
  unfold parse_chunk_payload. erewrite decode_plain; [|clear Hd|exact Hd].
  - cbn [mbind res_bind]. rewrite version_and_type by (done || by right; left).
    cbn -[dict_get py _parse_uuid _validate_stream exact_int _validate_offsets bounded_str parse_server uuid_str].
    eval_get. change (JStr (uuid_str thread)) with (uuid_field (Some thread)).
    rewrite (parse_uuid_field (Some thread)) by done. cbn [mbind res_bind].
    rewrite B. cbn [mbind res_bind str_of exact_int].
    replace (sequence <? 0) with false by lia. rewrite B1, str_eqb_refl. cbn [mbind res_bind negb].
    replace (OUTPUT_CHUNK_MAX_BYTES <? stop - start) with false by lia.
    rewrite (proj2 (bounded_str_Ok (JStr value) OUTPUT_CHUNK_MAX_BYTES value)) by eauto. cbn [mbind res_bind].
    rewrite parse_uuid_field by done. cbn [mbind res_bind].
    by rewrite (proj2 (parse_server_Ok _ server)).
  - cbn [json_plain]. apply andb_true_iff; split; [vm_compute; reflexivity|]. plain_members.
    + apply uuid_str_wf.
    + apply uuid_field_plain.
Qed.

Lemma chunk_builds server thread stream sequence start stop value previous :
  server <> [] -> In stream CHUNK_STREAMS -> printable sequence -> 0 <= start <= stop -> printable stop ->
  stop - start <= OUTPUT_CHUNK_MAX_BYTES -> scalar_str value -> str_len8 value <= OUTPUT_CHUNK_MAX_BYTES ->
  exists d text,
    build_output_chunk_payload (JStr server) thread (JStr stream) sequence start stop value previous
      (JInt PROTOCOL_VERSION) = Ok d
    /\ json_dumps (JObj d) = Ok text.
Proof.
  intros Hs Hst Hseq Hr Hstop Hspan Hv Hlen. unfold build_output_chunk_payload, _utf8_byte_length.
  rewrite (proj2 (validate_stream_Ok (JStr stream))) by eauto. cbn [mbind res_bind].
  rewrite (proj2 (parse_server_Ok (JStr server) server)) by done. cbn [mbind res_bind].
  rewrite (proj2 (positive_version_Ok (JInt PROTOCOL_VERSION) 4)) by done. cbn [mbind res_bind].
  assert (Hseq0 : 0 <= sequence) by (destruct Hseq; lia). replace (sequence <? 0) with false by lia.
  rewrite utf8_byte_length_scalar by done. cbn [mbind res_bind].
  replace (OUTPUT_CHUNK_MAX_BYTES <? str_len8 value) with false by lia.
  rewrite (proj2 (validate_offsets_Ok start stop)) by lia. cbn [mbind res_bind].
  replace (OUTPUT_CHUNK_MAX_BYTES <? stop - start) with false by lia.
  eexists _, _. split; [done|]. unfold json_dumps. cbn [ints_ok forallb].
  assert (Hp : printable start) by (by eapply printable_le).
  rewrite !printable_ok by done. destruct previous; reflexivity.
Qed.

(** An archived chunk survives the transport: for every non-empty server,
    known stream, ordered offsets at most [OUTPUT_CHUNK_MAX_BYTES] apart and
    text of at most as many bytes, the chunk's payload is built and serialised
    without error, and parsing the text yields every field unchanged. *)
Theorem chunk_round_trip server thread stream sequence start stop value previous :
  str_ok server -> server <> [] -> In stream CHUNK_STREAMS -> uuid_ok (Some thread) -> uuid_ok previous ->
  printable sequence -> 0 <= start <= stop -> printable stop -> stop - start <= OUTPUT_CHUNK_MAX_BYTES ->
  scalar_str value -> str_len8 value <= OUTPUT_CHUNK_MAX_BYTES ->
  exists d text,
    build_output_chunk_payload (JStr server) thread (JStr stream) sequence start stop value previous
      (JInt PROTOCOL_VERSION) = Ok d
    /\ json_dumps (JObj d) = Ok text
    /\ parse_chunk_payload (JStr text) = Ok (mkChunk server thread stream sequence start stop value previous).
Proof.
  intros Hs Hne Hst Ht Hp Hseq Hr Hstop Hspan Hv Hlen.
  destruct (chunk_builds server thread stream sequence start stop value previous) as (d & text & Hd & Htext); try done.
  exists d, text. split; [exact Hd|]. split; [exact Htext|]. eapply chunk_reads_back; try done. by apply scalar_str_wf.
Qed.

Lemma chunk_round_trip_witness :
  exists d text,
    build_output_chunk_payload (JStr (py "srv")) 7 (JStr (py "stdout")) 0 0 5 (py "hello") (Some 9) (JInt 4) = Ok d
    /\ json_dumps (JObj d) = Ok text
    /\ parse_chunk_payload (JStr text) = Ok (mkChunk (py "srv") 7 (py "stdout") 0 0 5 (py "hello") (Some 9)).
Proof.
  apply (chunk_round_trip (py "srv") 7 (py "stdout") 0 0 5 (py "hello") (Some 9)).
  - vm_compute. reflexivity.
  - discriminate.
  - left. reflexivity.
  - cbn. lia.
  - cbn. lia.
  - split; [lia|reflexivity].
  - lia.
  - split; [lia|reflexivity].
  - unfold OUTPUT_CHUNK_MAX_BYTES. lia.
  - apply (bool_decide_unpack _). vm_compute. exact I.
  - vm_compute. discriminate.
Defined.

Lemma window_reads_back tail start stop previous d :
  uuid_ok previous -> build_output_window_payload tail start stop previous = Ok d ->
  _parse_window (JObj d) = Ok (mkWindow tail start stop previous)
  /\ (str_ok tail -> json_plain (JObj d) = true).
Proof.
  intros Hpv Hb. unfold build_output_window_payload, _utf8_byte_length in Hb. res_inv Hb.
  destruct (Z.ltb_spec OUTPUT_TAIL_MAX_BYTES a) as [|Hlen]; [done|]. res_inv Hb. destruct a0.
  destruct (Z.ltb_spec OUTPUT_TAIL_MAX_BYTES (stop - start)) as [|Hspan]; [done|]. injection Hb as <-. split.
  - unfold _parse_window. eval_get.
    rewrite (proj2 (bounded_str_Ok (JStr tail) OUTPUT_TAIL_MAX_BYTES tail)) by eauto. cbn [mbind res_bind exact_int].
    rewrite B0. cbn [mbind res_bind]. replace (OUTPUT_TAIL_MAX_BYTES <? stop - start) with false by lia.
    by rewrite parse_uuid_field.
  - intros Ht. cbn [json_plain]. apply andb_true_iff; split; [vm_compute; reflexivity|]. plain_members.
    apply uuid_field_plain.
Qed.

(** The live windows of both streams survive the transport together: the
    JSON text of an output section built from two windows parses back to
    exactly those windows. *)
Theorem output_section_round_trip w1 w2 d1 d2 text v :
  uuid_ok (win_previous w1) -> uuid_ok (win_previous w2) -> str_ok (win_tail w1) -> str_ok (win_tail w2) ->
  build_output_window_payload (win_tail w1) (win_start w1) (win_end w1) (win_previous w1) = Ok d1 ->
  build_output_window_payload (win_tail w2) (win_start w2) (win_end w2) (win_previous w2) = Ok d2 ->
  json_dumps (JObj [(py "stdout", JObj d1); (py "stderr", JObj d2)]) = Ok text -> json_loads text = Ok v ->
  _parse_output_section v = Ok (Some (mkSection (Some w1) (Some w2))).
Proof.
  intros Hu1 Hu2 Ht1 Ht2 Hb1 Hb2 Hd Hl.
  destruct (window_reads_back _ _ _ _ _ Hu1 Hb1) as [Hw1 Hp1].
  destruct (window_reads_back _ _ _ _ _ Hu2 Hb2) as [Hw2 Hp2].
  apply json_loads_dumps in Hd; [rewrite Hd in Hl; injection Hl as <-|].
  - unfold _parse_output_section. eval_get. unfold parse_optional. rewrite Hw1, Hw2.
    by destruct w1, w2.
  - cbn [json_plain]. apply andb_true_iff; split; [vm_compute; reflexivity|].
    apply plain_dict_cons; [vm_compute; reflexivity|auto|]. apply plain_dict_cons; [vm_compute; reflexivity|auto|done].
Qed.

Lemma output_section_round_trip_witness :
  exists d1 d2 text v,
    build_output_window_payload (py "ab") 3 5 (Some 1) = Ok d1
    /\ build_output_window_payload [] 0 0 None = Ok d2
    /\ json_dumps (JObj [(py "stdout", JObj d1); (py "stderr", JObj d2)]) = Ok text
    /\ json_loads text = Ok v
    /\ _parse_output_section v = Ok (Some (mkSection (Some (mkWindow (py "ab") 3 5 (Some 1))) (Some (mkWindow [] 0 0 None)))).
Proof.
  eexists _, _, _, _. do 4 (split; [vm_compute; reflexivity|]).
  eapply (output_section_round_trip (mkWindow (py "ab") 3 5 (Some 1)) (mkWindow [] 0 0 None)).
  - cbn. lia.
  - exact I.
  - vm_compute. reflexivity.
  - vm_compute. reflexivity.
  - vm_compute. reflexivity.
  - vm_compute. reflexivity.
  - vm_compute. reflexivity.
  - vm_compute. reflexivity.
Defined.

(** Everything a parsed command carries is within the binding: the current
    version, a non-empty server, an absolute working directory, a non-empty
    argv of non-empty strings, a known status, and output windows and results
    within the byte bounds with ordered offsets. *)
Theorem parsed_command_bounded data p :
  parse_payload data = Ok p ->
  jp_version p = 4 /\ jp_type p = JOB_TYPE_COMMAND /\ jp_server p <> []
  /\ (exists path, rq_cwd (jp_request p) = 47 :: path)
  /\ rq_process (jp_request p) <> [] /\ Forall (fun s => s <> []) (rq_process (jp_request p))
  /\ In (jp_status p) KNOWN_STATUSES
  /\ optional_ok (fun s => optional_ok window_ok (sec_stdout s) /\ optional_ok window_ok (sec_stderr s)) (jp_output p)
  /\ optional_ok result_ok (jp_result p).
Proof.
  unfold parse_payload. intros H. res_inv H. destruct a0 as [v t].
  apply version_type_inv in B0 as [-> _]. destruct (str_eqb_spec t JOB_TYPE_COMMAND) as [Ht|]; [|done].
  cbn [negb] in H. res_inv H. subst p. cbn [jp_version jp_type jp_server jp_request jp_status jp_output jp_result].
  apply parse_server_Ok in B0 as [_ ?]. apply parse_request_ok in B1 as (? & ? & ?).
  split_and!; try done.
  - unfold _parse_status in B2. destruct (dict_get a (py "state")); try done.
    destruct (dict_get d (py "status")); try done. destruct (mem_str s KNOWN_STATUSES) eqn:Hm; [|done].
    injection B2 as <-. by apply mem_str_In.
  - by apply parse_output_ok in B3.
  - by apply parse_result_ok in B4.
Qed.

Lemma parsed_command_bounded_witness :
  exists p, parse_payload (JObj [(py "v", JInt 4); (py "type", JStr (py "command")); (py "server", JStr (py "s"));
      (py "request", JObj [(py "cwd", JStr (py "/")); (py "process", JArr [JStr (py "id")])]);
      (py "state", JObj [(py "status", JStr (py "running"))])]) = Ok p
    /\ In (jp_status p) KNOWN_STATUSES.
Proof.
  eexists. split; [vm_compute; reflexivity|].
  eapply (parsed_command_bounded (JObj [(py "v", JInt 4); (py "type", JStr (py "command")); (py "server", JStr (py "s"));
      (py "request", JObj [(py "cwd", JStr (py "/")); (py "process", JArr [JStr (py "id")])]);
      (py "state", JObj [(py "status", JStr (py "running"))])])).
  vm_compute. reflexivity.
Defined.

(** A row of this build's dialect never crashes its reader: for a decoded
    object with a hashable type, a printable version and surrogate-free
    strings, both parsers either succeed or raise [ProtocolError]. *)
Theorem parse_raises_only_protocol_error d :
  regular d ->
  (forall e, parse_payload (JObj d) = Raise e -> e = ProtocolError)
  /\ (forall e, parse_chunk_payload (JObj d) = Raise e -> e = ProtocolError).
Proof.
  intros Hr. pose proof (proj1 Hr) as Hs. pose proof (only_protocol_version d Hr) as Hv. split.
  - unfold parse_payload. cbn [_decode_payload mbind res_bind]. apply only_protocol_bind; [done|].
    intros [v t] _. only_protocol_tac.
  - unfold parse_chunk_payload. cbn [_decode_payload mbind res_bind]. apply only_protocol_bind; [done|].
    intros [v t] _. only_protocol_tac.
Qed.

Lemma parse_raises_only_protocol_error_witness :
  parse_payload (JObj [(py "v", JInt 5)]) = Raise ProtocolError.
Proof.
  destruct (parse_payload (JObj [(py "v", JInt 5)])) eqn:E; [vm_compute in E; discriminate|].
  f_equal. refine (proj1 (parse_raises_only_protocol_error [(py "v", JInt 5)] _) e E).
  split; [cbn; auto|]. split; [vm_compute; reflexivity|]. intros z [= <-]. vm_compute. reflexivity.
Defined.

(** The version policy is consistent: a daemon claims exactly the current
    version, retires exactly the older ones, leaves newer ones alone, never
    does both to one job, and the parsers accept no job it does not claim. *)
Theorem version_policy version :
  (classify_job_version version = CLAIMABLE <-> version = 4)
  /\ (reaper_disposition version = FAIL_CLOSED <-> version < 4)
  /\ ~ (classify_job_version version = CLAIMABLE /\ reaper_disposition version = FAIL_CLOSED)
  /\ (unsupported_version_diagnostic version = Ok None <-> classify_job_version version = CLAIMABLE)
  /\ (forall data p, parse_payload data = Ok p -> classify_job_version (jp_version p) = CLAIMABLE).
Proof.
  unfold classify_job_version, reaper_disposition, unsupported_version_diagnostic, version_supported,
    CURRENT_PROTOCOL_VERSION.
  assert (Hp : forall data p, parse_payload data = Ok p -> (jp_version p =? 4) = true).
  { intros data p Hp. unfold parse_payload in Hp. res_inv Hp. destruct a0 as [v t].
    apply version_type_inv in B0 as [-> _]. destruct (negb _); [done|]. res_inv Hp. by subst p. }
  split_and!; [| | | |by intros data p ->%Hp];
    destruct (Z.eqb_spec version 4), (Z.ltb_spec version 4); try lia; try (by intros [? ?]);
    split; try done; try lia; repeat case_match; done.
Qed.
