(* ===== verification/Output.v ===== *)
(** Captured output ([src/lubko/worker.py]): decoding into text PostgreSQL
    accepts, truncation, code-point alignment, the bounded live tail, the
    immutable chunks, and the publication of both streams of a job.

    Offsets are unbounded Python integers ([Z]); slices follow Python, negative
    bounds included.  The fresh identifiers of chunks come from a supply
    [uuid4], indexed by the number of calls made.  Loops take fuel and report
    [OutOfFuel]; the facts below show the fuel they are given suffices. *)

From S2P Require Import Prelude PyStr PyNum Json JsonFacts Uuid Protocol.

#[local] Arguments py : simpl never.

(** ** Python slices *)

(** [l[a:b]] *)
Definition py_slice {A} (l : list A) (a b : Z) : list A :=
  let n := Z.of_nat (length l) in
  let clip i := if i <? 0 then Z.max 0 (i + n) else Z.min i n in
  take (Z.to_nat (clip b - clip a)) (drop (Z.to_nat (clip a)) l).

(** [l[a:]] *)
Definition py_from {A} (l : list A) (a : Z) : list A := py_slice l a (Z.of_nat (length l)).

(** [data[i]] for an index known to be in range. *)
Definition byte_at (data : pybytes) (i : Z) : Z := nth (Z.to_nat i) data 0.

Definition py_len {A} (l : list A) : Z := Z.of_nat (length l).

(** ** Decoding *)

(** [data.decode("utf-8", errors="replace").replace("\x00", "\ufffd")] *)
Definition pg_safe_decode (data : pybytes) : pystr :=
  map (fun c => if c =? 0 then 0xFFFD else c) (utf8_decode data).

(** ** Truncation *)

(** ["\n... [output truncated] ...\n"] *)
Definition TRUNCATION_MARKER : pybytes := 10 :: py "... [output truncated] ..." ++ [10].

(** Drop characters from [index] on until the encoded length is at most [limit];
    running past the end raises [IndexError]. *)
Fixpoint drop_until (fuel : nat) (result : pystr) (limit encoded_len index : Z) : res Z :=
  if limit <? encoded_len then
    match fuel with
    | O => Raise OutOfFuel
    | S fuel =>
        match result !! Z.to_nat index with
        | None => Raise IndexError
        | Some c =>
            n ← utf8_byte_length [c];
            drop_until fuel result limit (encoded_len - n) (index + 1)
        end
    end
  else Ok index.

Definition truncate_output (data : pybytes) (limit : Z) : res pystr :=
  if limit <? py_len TRUNCATION_MARKER then Raise ValueError
  else
    let truncated := limit <? py_len data in
    let payload :=
      if truncated then
        let budget := limit - py_len TRUNCATION_MARKER in
        let tail := if 0 <? budget then py_from data (- budget) else [] in
        TRUNCATION_MARKER ++ tail
      else data in
    let result := pg_safe_decode payload in
    let body_offset := if truncated then py_len (utf8_decode TRUNCATION_MARKER) else 0 in
    encoded_len ← utf8_byte_length result;
    if limit <? encoded_len then
      index ← drop_until (length result) result limit encoded_len body_offset;
      Ok (py_slice result 0 body_offset ++ py_from result index)
    else Ok result.

(** ** Code-point alignment *)

Definition _is_utf8_continuation_byte (byte : Z) : bool := (0x80 <=? byte) && (byte <=? 0xBF).

Definition _code_point_length (lead : Z) : Z :=
  if (0xC2 <=? lead) && (lead <=? 0xDF) then 2
  else if (0xE0 <=? lead) && (lead <=? 0xEF) then 3
  else if (0xF0 <=? lead) && (lead <=? 0xF4) then 4
  else 0.

Definition _CODE_POINT_MIN_VALUE (length : Z) : Z :=
  if length =? 2 then 0x80 else if length =? 3 then 0x800 else 0x10000.

Definition _code_point_scalar (lead : Z) (cont : pybytes) (length : Z) : option Z :=
  let lead_mask := Z.shiftl 1 (7 - length) - 1 in
  let cp := fold_left (fun cp byte => Z.lor (Z.shiftl cp 6) (Z.land byte 0x3F)) cont (Z.land lead lead_mask) in
  if cp <? _CODE_POINT_MIN_VALUE length then None else Some cp.

Definition _valid_code_point_at (data : pybytes) (start length : Z) : bool :=
  if (length <? 2) || (4 <? length) then false
  else if (start <? 0) || (py_len data <? start + length) then false
  else if negb (_code_point_length (byte_at data start) =? length) then false
  else
    let cont := py_slice data (start + 1) (start + length) in
    if negb (forallb _is_utf8_continuation_byte cont) then false
    else match _code_point_scalar (byte_at data start) cont length with
         | None => false
         | Some cp => negb (0x10FFFF <? cp) && negb ((0xD800 <=? cp) && (cp <=? 0xDFFF))
         end.

(** The [for lead_back in (1, 2, 3)] loop of both alignments: the start and
    length of the valid code point strictly containing [candidate]. *)
Fixpoint enclosing (data : pybytes) (candidate : Z) (lead_backs : list Z) : option (Z * Z) :=
  match lead_backs with
  | [] => None
  | lead_back :: rest =>
      let lead := candidate - lead_back in
      if lead <? 0 then None
      else
        let length := _code_point_length (byte_at data lead) in
        if (length =? 0) || (length <=? lead_back) then enclosing data candidate rest
        else if _valid_code_point_at data lead length then Some (lead, length)
        else enclosing data candidate rest
  end.

Definition align_code_point_start (data : pybytes) (candidate : Z) : Z :=
  let n := py_len data in
  if candidate <=? 0 then 0
  else if n <=? candidate then n
  else match enclosing data candidate [1; 2; 3] with
       | Some (lead, length) => lead + length
       | None => candidate
       end.

Definition align_code_point_end (data : pybytes) (candidate : Z) : Z :=
  let n := py_len data in
  if candidate <=? 0 then 0
  else if n <=? candidate then n
  else match enclosing data candidate [1; 2; 3] with
       | Some (lead, _) => lead
       | None => candidate
       end.

(** ** Bounded text *)

(** [range(a, b)] *)
Definition py_range (a b : Z) : list Z := map (fun k => a + Z.of_nat k) (seq 0 (Z.to_nat (b - a))).

Definition boundaries_from (raw : pybytes) (a : Z) : list Z :=
  List.filter (fun k => align_code_point_end raw k =? k) (py_range a (py_len raw + 1)).

(** [_utf8_byte_length(pg_safe_decode(...)) <= limit]: the decoded text has no
    surrogate, so encoding it cannot fail. *)
Definition decoded_length (raw : pybytes) : Z := str_len8 (pg_safe_decode raw).

(** The binary search of [_bounded_suffix] between the indices [lo] and [hi]. *)
Fixpoint suffix_search (fuel : nat) (raw : pybytes) (limit : Z) (boundaries : list Z) (lo hi keep : Z) : res Z :=
  if lo <=? hi then
    match fuel with
    | O => Raise OutOfFuel
    | S fuel =>
        let mid := (lo + hi) / 2 in
        let k := nth (Z.to_nat mid) boundaries 0 in
        if decoded_length (py_from raw k) <=? limit
        then suffix_search fuel raw limit boundaries lo (mid - 1) k
        else suffix_search fuel raw limit boundaries (mid + 1) hi keep
    end
  else Ok keep.

Definition _bounded_suffix (raw : pybytes) (limit : Z) : res (Z * pystr) :=
  let full := pg_safe_decode raw in
  if decoded_length raw <=? limit then Ok (0, full)
  else
    let boundaries := boundaries_from raw 0 in
    keep ← suffix_search (S (length boundaries)) raw limit boundaries 0 (py_len boundaries - 1) (py_len raw);
    Ok (keep, pg_safe_decode (py_from raw keep)).

Fixpoint prefix_search (fuel : nat) (raw : pybytes) (limit : Z) (boundaries : list Z) (lo hi stop : Z) : res Z :=
  if lo <=? hi then
    match fuel with
    | O => Raise OutOfFuel
    | S fuel =>
        let mid := (lo + hi) / 2 in
        let k := nth (Z.to_nat mid) boundaries 0 in
        if decoded_length (py_slice raw 0 k) <=? limit
        then prefix_search fuel raw limit boundaries (mid + 1) hi k
        else prefix_search fuel raw limit boundaries lo (mid - 1) stop
    end
  else Ok stop.

Definition _bounded_prefix (raw : pybytes) (limit : Z) : res (Z * pystr) :=
  match raw with
  | [] => Ok (0, [])
  | _ =>
      let boundaries := boundaries_from raw 1 in
      stop ← prefix_search (S (length boundaries)) raw limit boundaries 0 (py_len boundaries - 1) 1;
      Ok (stop, pg_safe_decode (py_slice raw 0 stop))
  end.

(** ** Streams *)

(** Capture and publication state of one stream; the diagnostic label [path]
    is left out. *)
Record OutputStream := mkStream {
  os_data : pybytes;
  os_fd : option Z;
  os_eof : bool;
  os_pending : pybytes;
  os_spool_start : Z;
  os_published_size : Z;
  os_published_at : pyfloat;
  os_archived_upto : Z;
  os_last_chunk : option Z;
  os_sequence : Z;
  os_tail_text : pystr;
  os_tail_start : Z;
  os_tail_end : Z;
}.

Definition stream_size (s : OutputStream) : Z := py_len (os_data s).

Definition read_range (s : OutputStream) (start stop : Z) : pybytes := py_slice (os_data s) start stop.

Definition ARCHIVE_MARGIN_CHARS : Z := 2000.

Definition output_window_text (s : OutputStream) (max_chars base : Z) : res (pystr * Z * Z) :=
  let size := stream_size s + base in
  let window := Z.min size max_chars in
  let start := size - window in
  let physical_head := start - base in
  let read_from := Z.max 0 (physical_head - 3) in
  let tail := read_range s read_from (size - base) in
  let local_candidate := physical_head - read_from in
  let aligned_local := align_code_point_start tail local_candidate in
  let aligned_physical := read_from + aligned_local in
  let raw_window := py_from tail aligned_local in
  '(keep, text) ← _bounded_suffix raw_window max_chars;
  Ok (text, aligned_physical + keep + base, size).

Definition archive_target (size : Z) : Z :=
  if size <=? OUTPUT_TAIL_MAX_BYTES then 0 else size - OUTPUT_TAIL_MAX_BYTES + ARCHIVE_MARGIN_CHARS.

(** ** Chunks *)

(** What the archiving loops carry: the planned chunks, how far the stream is
    archived, the newest chunk, the next sequence number and the number of
    identifiers drawn. *)
Record archive := mkArchive {
  ar_chunks : list (Z * pystr);
  ar_upto : Z;
  ar_last : option Z;
  ar_sequence : Z;
  ar_drawn : nat;
}.

Section plan.
Context (uuid4 : nat -> Z).
Context (job_id : Z) (name : pystr) (s : OutputStream) (server : pystr) (version : Z).

(** One turn of either loop: the chunk from [ar_upto] to the aligned
    [candidate], a physical offset, shortened until its text fits. *)
Definition emit_chunk (a : archive) (candidate : Z) : res archive :=
  let chunk_start := ar_upto a in
  let n_from := Z.max 0 (candidate - 3) in
  let neighborhood := read_range s n_from (candidate + 4) in
  let chunk_end := n_from + align_code_point_end neighborhood (candidate - n_from) + os_spool_start s in
  let chunk_bytes := read_range s (chunk_start - os_spool_start s) (chunk_end - os_spool_start s) in
  let value := pg_safe_decode chunk_bytes in
  '(chunk_end, value) ←
    (if OUTPUT_CHUNK_MAX_BYTES <? decoded_length chunk_bytes then
       '(stop, value) ← _bounded_prefix chunk_bytes OUTPUT_CHUNK_MAX_BYTES;
       Ok (chunk_start + stop, value)
     else Ok (chunk_end, value));
  let chunk_id := uuid4 (ar_drawn a) in
  payload ← build_output_chunk_payload (JStr server) job_id (JStr name) (ar_sequence a) chunk_start chunk_end
              value (ar_last a) (JInt version);
  chunk_payload ← json_dumps (JObj payload);
  Ok (mkArchive (ar_chunks a ++ [(chunk_id, chunk_payload)]) chunk_end (Some chunk_id)
        (ar_sequence a + 1) (S (ar_drawn a))).

(** [while target - archived_upto >= OUTPUT_CHUNK_MAX_BYTES] *)
Fixpoint archive_full (fuel : nat) (target : Z) (a : archive) : res archive :=
  if OUTPUT_CHUNK_MAX_BYTES <=? target - ar_upto a then
    match fuel with
    | O => Raise OutOfFuel
    | S fuel =>
        a ← emit_chunk a (ar_upto a + OUTPUT_CHUNK_MAX_BYTES - os_spool_start s);
        archive_full fuel target a
    end
  else Ok a.

(** [while archived_upto < tail_start] *)
Fixpoint archive_rest (fuel : nat) (tail_start : Z) (a : archive) : res archive :=
  if ar_upto a <? tail_start then
    match fuel with
    | O => Raise OutOfFuel
    | S fuel => a ← emit_chunk a (tail_start - os_spool_start s); archive_rest fuel tail_start a
    end
  else Ok a.

(** Every turn advances [ar_upto], so the distances bound the turns. *)
Definition _plan_chunks (tail_end tail_start : Z) (drawn : nat) : res archive :=
  let target := archive_target tail_end in
  let a := mkArchive [] (os_archived_upto s) (os_last_chunk s) (os_sequence s) drawn in
  a ← archive_full (S (Z.to_nat (target - ar_upto a))) target a;
  if target <? tail_start
  then archive_rest (S (Z.to_nat (tail_start - ar_upto a))) tail_start a
  else Ok a.
End plan.

(** ** Publication *)

Inductive stream_name := Stdout | Stderr.

#[export] Instance stream_name_eq_dec : EqDecision stream_name.
Proof. solve_decision. Defined.

Definition OUTPUT_STREAMS : list stream_name := [Stdout; Stderr].
Definition stream_text (n : stream_name) : pystr := match n with Stdout => py "stdout" | Stderr => py "stderr" end.

(** The fields of [ActiveJob] that capture and publication use. *)
Record ActiveJob := mkJob {
  job_id : Z;
  job_version : Z;
  job_stdout : OutputStream;
  job_stderr : OutputStream;
  job_spool_evicted : bool;
}.

(** [getattr(job, name)] and the in-place update of that stream. *)
Definition job_stream (job : ActiveJob) (n : stream_name) : OutputStream :=
  match n with Stdout => job_stdout job | Stderr => job_stderr job end.
Definition set_stream (job : ActiveJob) (n : stream_name) (s : OutputStream) : ActiveJob :=
  match n with
  | Stdout => mkJob (job_id job) (job_version job) s (job_stderr job) (job_spool_evicted job)
  | Stderr => mkJob (job_id job) (job_version job) (job_stdout job) s (job_spool_evicted job)
  end.

Record _StreamPlan := mkPlan {
  pl_size : Z;
  pl_tail_text : pystr;
  pl_tail_start : Z;
  pl_tail_end : Z;
  pl_archived_upto : Z;
  pl_last_chunk : option Z;
  pl_sequence : Z;
  pl_chunks : list (Z * pystr);
  pl_window : dict;
}.

(** A dict keyed by stream name, in insertion order. *)
Abbreviation plans := (list (stream_name * _StreamPlan)).

Fixpoint plan_get (ps : plans) (n : stream_name) : option _StreamPlan :=
  match ps with
  | [] => None
  | (n', p) :: ps => if decide (n = n') then Some p else plan_get ps n
  end.
Fixpoint plan_set (ps : plans) (n : stream_name) (p : _StreamPlan) : plans :=
  match ps with
  | [] => [(n, p)]
  | (n', p') :: ps => if decide (n = n') then (n', p) :: ps else (n', p') :: plan_set ps n p
  end.

Section publish.
Context (uuid4 : nat -> Z).

(** One stream's plan, or [None] when nothing changed; with the identifiers drawn. *)
Definition plan_stream (job : ActiveJob) (n : stream_name) (server : pystr) (force : bool) (drawn : nat)
    : res (option _StreamPlan * nat) :=
  let s := job_stream job n in
  let size := os_spool_start s + stream_size s in
  '(tail_text, tail_start, tail_end) ← output_window_text s OUTPUT_TAIL_MAX_BYTES (os_spool_start s);
  a ← _plan_chunks uuid4 (job_id job) (stream_text n) s server (job_version job) tail_end tail_start drawn;
  if negb force && (size =? os_published_size s) then Ok (None, ar_drawn a)
  else
    window ← build_output_window_payload tail_text tail_start tail_end (ar_last a);
    Ok (Some (mkPlan size tail_text tail_start tail_end (ar_upto a) (ar_last a) (ar_sequence a) (ar_chunks a) window),
        ar_drawn a).

Fixpoint _plan_streams (job : ActiveJob) (names : list stream_name) (server : pystr) (force : bool)
    (ps : plans) (drawn : nat) : res (plans * nat) :=
  match names with
  | [] => Ok (ps, drawn)
  | n :: names =>
      '(p, drawn) ← plan_stream job n server force drawn;
      _plan_streams job names server force (match p with Some p => plan_set ps n p | None => ps end) drawn
  end.

(** The window of one stream: planned, or last published. *)
Definition full_window (job : ActiveJob) (ps : plans) (n : stream_name) : res dict :=
  match plan_get ps n with
  | Some p => Ok (pl_window p)
  | None =>
      let s := job_stream job n in
      build_output_window_payload (os_tail_text s) (os_tail_start s) (os_tail_end s) (os_last_chunk s)
  end.

Definition _full_windows (job : ActiveJob) (ps : plans) : res (dict * dict) :=
  stdout ← full_window job ps Stdout;
  stderr ← full_window job ps Stderr;
  Ok (stdout, stderr).

Definition _apply_plan (s : OutputStream) (p : _StreamPlan) (now : pyfloat) : OutputStream :=
  mkStream (os_data s) (os_fd s) (os_eof s) (os_pending s) (os_spool_start s) (pl_size p) now (pl_archived_upto p) (pl_last_chunk p)
    (pl_sequence p) (pl_tail_text p) (pl_tail_start p) (pl_tail_end p).

(** [del stream.data[:drop]] *)
Definition _drop_head (s : OutputStream) (count : Z) : OutputStream :=
  if count <=? 0 then s
  else mkStream (drop (Z.to_nat count) (os_data s)) (os_fd s) (os_eof s) (os_pending s) (os_spool_start s) (os_published_size s)
         (os_published_at s) (os_archived_upto s) (os_last_chunk s) (os_sequence s) (os_tail_text s)
         (os_tail_start s) (os_tail_end s).

Definition set_spool_start (s : OutputStream) (v : Z) : OutputStream :=
  mkStream (os_data s) (os_fd s) (os_eof s) (os_pending s) v (os_published_size s) (os_published_at s) (os_archived_upto s)
    (os_last_chunk s) (os_sequence s) (os_tail_text s) (os_tail_start s) (os_tail_end s).

Definition trim_stream (s : OutputStream) (p : _StreamPlan) : OutputStream :=
  let count := pl_tail_start p - os_spool_start s in
  if count <=? 0 then s else set_spool_start (_drop_head s count) (pl_tail_start p).

Definition apply_plans (f : OutputStream -> _StreamPlan -> OutputStream) (job : ActiveJob) (ps : plans) : ActiveJob :=
  fold_left (fun job '(n, p) => set_stream job n (f (job_stream job n) p)) ps job.

Definition _trim_published (job : ActiveJob) (ps : plans) : ActiveJob := apply_plans trim_stream job ps.

(** How the publication transaction ended: the root row was gone, everything
    was committed, or an exception rolled everything back. *)
Inductive transaction := RootMissing | Committed | RolledBack.

(** What a committed publication wrote: the chunk rows and the output text. *)
Record written := mkWritten { wr_chunks : list (Z * pystr); wr_output : pystr }.

(** The result, what was committed, the job afterwards and the identifiers drawn. *)
Definition publish_output (job : ActiveJob) (names : list stream_name) (now : pyfloat) (server : pystr)
    (force : bool) (tx : transaction) (drawn : nat) : res bool * option written * ActiveJob * nat :=
  match _plan_streams job names server force [] drawn with
  | Raise e => (Raise e, None, job, drawn)
  | Ok ([], drawn) => (Ok true, None, job, drawn)
  | Ok (ps, drawn) =>
      match _full_windows job ps with
      | Raise e => (Raise e, None, job, drawn)
      | Ok (stdout, stderr) =>
          match tx with
          | RootMissing => (Ok false, None, job, drawn)
          | RolledBack => (Raise OtherError, None, job, drawn)
          | Committed =>
              match json_dumps (JObj [(py "stdout", JObj stdout); (py "stderr", JObj stderr)]) with
              | Raise e => (Raise e, None, job, drawn)
              | Ok output =>
                  let chunk_rows := flat_map (fun '(_, p) => pl_chunks p) ps in
                  let job := apply_plans (fun s p => _apply_plan s p now) job ps in
                  (Ok true, Some (mkWritten chunk_rows output), _trim_published job ps, drawn)
              end
          end
      end
  end.
End publish.

Definition _streams_at_eof (job : ActiveJob) : bool := os_eof (job_stdout job) && os_eof (job_stderr job).

Definition _spool_used_bytes (job : ActiveJob) : Z := stream_size (job_stdout job) + stream_size (job_stderr job).

Definition _spool_shrank (job : ActiveJob) (used_before : option Z) : bool :=
  match used_before with None => false | Some u => _spool_used_bytes job <? u end.
