(* ===== verification/OutputFacts.v ===== *)
(** Facts about captured output: decoding stays within known bounds,
    alignment finds code-point boundaries, and the searches for bounded text
    terminate with text that fits. *)

From Stdlib Require Import Sorted.
From S2P Require Import Prelude PyStr PyNum Json JsonFacts Uuid Protocol Output.

#[local] Arguments py : simpl never.

(** ** Slices *)

Lemma py_slice_nonneg {A} (l : list A) a b :
  0 <= a -> 0 <= b -> py_slice l a b = take (Z.to_nat b - Z.to_nat a) (drop (Z.to_nat a) l).
Proof.
  intros Ha Hb. unfold py_slice. replace (b <? 0) with false by lia. replace (a <? 0) with false by lia.
  destruct (Z.le_gt_cases (Z.of_nat (length l)) a) as [Hl|Hl].
  - rewrite (drop_ge l (Z.to_nat a)) by lia. rewrite drop_ge by lia. by rewrite !take_nil.
  - replace (Z.min a (Z.of_nat (length l))) with a by lia.
    destruct (Z.le_gt_cases b (Z.of_nat (length l))).
    + replace (Z.min b (Z.of_nat (length l))) with b by lia. f_equal. lia.
    + replace (Z.min b (Z.of_nat (length l))) with (Z.of_nat (length l)) by lia.
      rewrite !take_ge; [done|rewrite length_drop; lia..].
Qed.

Lemma py_from_nonneg {A} (l : list A) a : 0 <= a -> py_from l a = drop (Z.to_nat a) l.
Proof.
  intros Ha. unfold py_from. rewrite py_slice_nonneg by lia. apply take_ge. rewrite length_drop. lia.
Qed.

Lemma py_slice_len {A} (l : list A) a b :
  0 <= a <= b -> b <= py_len l -> py_len (py_slice l a b) = b - a.
Proof.
  unfold py_len. intros ? ?. rewrite py_slice_nonneg by lia. rewrite length_take, length_drop. lia.
Qed.

Lemma py_from_len {A} (l : list A) a : 0 <= a <= py_len l -> py_len (py_from l a) = py_len l - a.
Proof. unfold py_len. intros ?. rewrite py_from_nonneg by lia. rewrite length_drop. lia. Qed.

Lemma py_slice_slice {A} (l : list A) a b i j :
  0 <= a -> 0 <= i <= j -> a + j <= b -> py_slice (py_slice l a b) i j = py_slice l (a + i) (a + j).
Proof.
  intros Ha Hi Hj. rewrite !py_slice_nonneg by lia.
  rewrite skipn_firstn_comm, drop_drop, take_take. f_equal; [lia|]. f_equal. lia.
Qed.

Lemma py_slice_app {A} (l : list A) a b c :
  0 <= a <= b -> b <= c -> py_slice l a b ++ py_slice l b c = py_slice l a c.
Proof.
  intros Ha Hb. rewrite !py_slice_nonneg by lia.
  replace (Z.to_nat c - Z.to_nat a)%nat with ((Z.to_nat b - Z.to_nat a) + (Z.to_nat c - Z.to_nat b))%nat by lia.
  rewrite <- take_take_drop, drop_drop. do 3 f_equal. lia.
Qed.

Lemma py_from_slice {A} (l : list A) a : 0 <= a -> py_from l a = py_slice l a (py_len l).
Proof. done. Qed.

Lemma py_from_py_slice {A} (l : list A) a b i :
  0 <= a <= b -> b <= py_len l -> 0 <= i <= b - a -> py_from (py_slice l a b) i = py_slice l (a + i) b.
Proof.
  intros Ha Hb Hi. rewrite py_from_slice by lia. rewrite py_slice_len by lia.
  rewrite py_slice_slice by lia. f_equal. lia.
Qed.

Lemma bytes_ok_slice l a b : bytes_ok l -> bytes_ok (py_slice l a b).
Proof. intros H. unfold py_slice. auto with lubko. Qed.
#[export] Hint Resolve bytes_ok_slice : lubko.

Lemma py_len_nonneg {A} (l : list A) : 0 <= py_len l.
Proof. unfold py_len. lia. Qed.

(** ** Decoding *)

Lemma pg_scalar raw : bytes_ok raw -> scalar_str (pg_safe_decode raw).
Proof.
  intros H%utf8_decode_scalar. unfold pg_safe_decode. apply List.Forall_forall.
  intros c (x & <- & Hx)%in_map_iff. unfold scalar_str in H. rewrite List.Forall_forall in H. case_if; auto.
Qed.

Lemma pg_no_nul raw : ~ In 0 (pg_safe_decode raw).
Proof.
  unfold pg_safe_decode. intros (x & Hx & _)%in_map_iff. destruct (Z.eqb_spec x 0); lia.
Qed.

Lemma str_len8_replace s :
  str_len8 s <= str_len8 (map (fun c => if c =? 0 then 0xFFFD else c) s).
Proof.
  induction s as [|c s IH]; cbn [map str_len8 fold_right]; [lia|].
  fold (str_len8 s). fold (str_len8 (map (fun c => if c =? 0 then 0xFFFD else c) s)).
  destruct (Z.eqb_spec c 0) as [->|]; [change (cp_len 0) with 1; change (cp_len 0xFFFD) with 3|]; lia.
Qed.

Lemma pg_nonshrink raw : bytes_ok raw -> py_len raw <= decoded_length raw.
Proof.
  intros H%utf8_decode_nonshrink. unfold decoded_length, pg_safe_decode, py_len.
  pose proof (str_len8_replace (utf8_decode raw)). lia.
Qed.

Lemma pg_expand raw : bytes_ok raw -> decoded_length raw <= 3 * py_len raw.
Proof.
  unfold decoded_length, pg_safe_decode, py_len. revert raw. apply decode_ind; [done|].
  intros l c n _ _ -> Hn _ Hl Ho IH. rewrite length_drop in IH. cbn [map str_len8 fold_right].
  change (fold_right _ 0 ?l) with (str_len8 l). assert (cp_len REPLACEMENT = 3) by done.
  destruct (Z.eqb_spec c 0) as [->|].
  - change (cp_len 0xFFFD) with 3. lia.
  - destruct Ho as [->|Ho]; lia.
Qed.

Lemma decoded_length_exact raw :
  bytes_ok raw -> utf8_byte_length (pg_safe_decode raw) = Ok (decoded_length raw).
Proof. intros H. by apply utf8_byte_length_scalar, pg_scalar. Qed.

(** ** Truncation *)

Lemma drop_until_spec fuel result limit P i :
  scalar_str result -> P <= limit -> 0 <= i -> (length result - Z.to_nat i <= fuel)%nat ->
  exists j, drop_until fuel result limit (P + str_len8 (drop (Z.to_nat i) result)) i = Ok j
    /\ i <= j /\ P + str_len8 (drop (Z.to_nat j) result) <= limit
    /\ (forall k, i <= k < j -> limit < P + str_len8 (drop (Z.to_nat k) result)).
Proof.
  intros Hs HP. revert i. induction fuel as [|fuel IH]; intros i Hi Hf; cbn [drop_until].
  - assert (Hnil : drop (Z.to_nat i) result = []) by (apply drop_ge; lia). rewrite Hnil. cbn [str_len8 fold_right].
    replace (limit <? P + 0) with false by lia. exists i. rewrite Hnil. cbn. split_and!; try done; lia.
  - destruct (Z.ltb_spec limit (P + str_len8 (drop (Z.to_nat i) result))) as [Hlt|Hge].
    2: { exists i. split_and!; try done; lia. }
    destruct (result !! Z.to_nat i) as [c|] eqn:Hc.
    + assert (Hd : drop (Z.to_nat i) result = c :: drop (Z.to_nat (i + 1)) result).
      { replace (Z.to_nat (i + 1)) with (S (Z.to_nat i)) by lia. by apply drop_S. }
      assert (Hcs : is_scalar c = true).
      { unfold scalar_str in Hs. by apply (Forall_lookup_1 _ _ _ _ Hs Hc). }
      rewrite utf8_byte_length_scalar by (by apply Forall_cons_2; [|apply Forall_nil_2]).
      cbn [mbind res_bind]. rewrite Hd. cbn [str_len8 fold_right].
      change (fold_right _ 0 ?l) with (str_len8 l).
      replace (P + (cp_len c + str_len8 (drop (Z.to_nat (i + 1)) result)) - (cp_len c + 0))
        with (P + str_len8 (drop (Z.to_nat (i + 1)) result)) by lia.
      destruct (IH (i + 1)) as (j & Hj & Hij & Hfit & Hmin); [lia|lia|]. exists j. rewrite Hj.
      split_and!; try done; try lia. intros k Hk. destruct (Z.eq_dec k i) as [->|]; [done|apply Hmin; lia].
    + apply lookup_ge_None in Hc. rewrite drop_ge in Hlt by lia. cbn in Hlt. lia.
Qed.

Lemma utf8_decode_ascii a b :
  Forall (fun c => 0 <= c < 128) a -> utf8_decode (a ++ b) = a ++ utf8_decode b.
Proof.
  induction 1 as [|c a Hc _ IH]; [done|]. cbn [app utf8_decode]. replace (c <? 0x80) with true by lia. by rewrite IH.
Qed.

Lemma marker_ascii : Forall (fun c => 0 < c < 128) TRUNCATION_MARKER.
Proof. apply (bool_decide_unpack _). vm_compute. exact I. Qed.

Lemma marker_decode tail : pg_safe_decode (TRUNCATION_MARKER ++ tail) = TRUNCATION_MARKER ++ pg_safe_decode tail.
Proof.
  unfold pg_safe_decode. rewrite utf8_decode_ascii, map_app.
  - f_equal.
  - eapply Forall_impl; [apply marker_ascii|]. cbn. lia.
Qed.

(** ** Code points *)

(** A whole code point, as the list of its bytes. *)
Definition code_point (l : pybytes) : bool :=
  match l with
  | [] => false
  | lead :: cont =>
      (_code_point_length lead =? py_len l) && forallb _is_utf8_continuation_byte cont
      && match _code_point_scalar lead cont (py_len l) with
         | None => false
         | Some cp => negb (0x10FFFF <? cp) && negb ((0xD800 <=? cp) && (cp <=? 0xDFFF))
         end
  end.

Lemma byte_at_slice data i j : 0 <= i < j -> j <= py_len data -> exists r, py_slice data i j = byte_at data i :: r
  /\ r = py_slice data (i + 1) j.
Proof.
  unfold py_len. intros Hi Hj. exists (py_slice data (i + 1) j). split; [|done].
  rewrite !py_slice_nonneg by lia. unfold byte_at.
  destruct (data !! Z.to_nat i) as [b|] eqn:Hb; [|apply lookup_ge_None in Hb; lia].
  rewrite (drop_S _ _ _ Hb). rewrite (nth_lookup_Some _ _ _ _ Hb).
  replace (Z.to_nat j - Z.to_nat i)%nat with (S (Z.to_nat j - Z.to_nat (i + 1))) by lia.
  cbn [take]. do 3 f_equal. lia.
Qed.

Lemma valid_code_point_iff data l len :
  _valid_code_point_at data l len = true <->
  2 <= len <= 4 /\ 0 <= l /\ l + len <= py_len data /\ code_point (py_slice data l (l + len)) = true.
Proof.
  unfold _valid_code_point_at.
  destruct (Z.ltb_spec len 2), (Z.ltb_spec 4 len); cbn [orb]; try (split; [done|lia]).
  destruct (Z.ltb_spec l 0), (Z.ltb_spec (py_len data) (l + len)); cbn [orb]; try (split; [done|lia]).
  destruct (byte_at_slice data l (l + len)) as (r & Hs & Hr); [lia|lia|].
  assert (Hlen : py_len (byte_at data l :: r) = len).
  { rewrite <- Hs, py_slice_len by lia. lia. }
  rewrite Hs. unfold code_point. rewrite Hlen, <- Hr.
  destruct (_code_point_length (byte_at data l) =? len); cbn [negb andb]; [|split; [done|by intros (_ & _ & _ & ?)]].
  destruct (forallb _is_utf8_continuation_byte r); cbn [negb andb]; [|split; [done|by intros (_ & _ & _ & ?)]].
  split; [intros Hc; split_and!; try done; lia|by intros (_ & _ & _ & ?)].
Qed.

Lemma code_point_cont l i : code_point l = true -> 0 < i < py_len l -> _code_point_length (byte_at l i) = 0.
Proof.
  destruct l as [|lead cont]; [done|]. cbn [code_point]. intros H Hi.
  apply andb_true_iff in H as [H _]. apply andb_true_iff in H as [_ H].
  unfold byte_at. replace (Z.to_nat i) with (S (Z.to_nat (i - 1))) by lia. cbn [nth].
  rewrite forallb_forall in H. unfold py_len in Hi. cbn [length] in Hi.
  specialize (H _ (nth_In cont 0 (n := Z.to_nat (i - 1)) ltac:(lia))).
  unfold _is_utf8_continuation_byte in H. unfold _code_point_length. bool_z.
  repeat case_match; bool_z; try lia.
Qed.

Lemma byte_at_py_slice data a b i :
  0 <= a <= b -> b <= py_len data -> 0 <= i < b - a -> byte_at (py_slice data a b) i = byte_at data (a + i).
Proof.
  unfold py_len, byte_at. intros Ha Hb Hi. rewrite py_slice_nonneg by lia.
  rewrite !nth_lookup, lookup_take, lookup_drop. case_decide; [|lia]. do 2 f_equal. lia.
Qed.

(** The offset lies strictly inside a code point. *)
Definition inside (data : pybytes) (i : Z) : Prop :=
  exists l len, _valid_code_point_at data l len = true /\ l < i < l + len.

Lemma inside_cont data i : inside data i -> _code_point_length (byte_at data i) = 0.
Proof.
  intros (l & len & Hv & Hi). apply valid_code_point_iff in Hv as (Hlen & Hl & Hn & Hc).
  replace i with (l + (i - l)) by lia. rewrite <- (byte_at_py_slice data l (l + len)) by lia.
  apply code_point_cont; [done|]. rewrite py_slice_len by lia. lia.
Qed.

(** Code points do not overlap. *)
Lemma valid_not_inside data l len : _valid_code_point_at data l len = true -> ~ inside data l.
Proof.
  intros Hv Hi%inside_cont. apply valid_code_point_iff in Hv as (Hlen & Hl & Hn & Hc).
  destruct (byte_at_slice data l (l + len)) as (r & Hs & _); [lia|lia|]. rewrite Hs in Hc. cbn [code_point] in Hc.
  rewrite Hi in Hc. rewrite <- Hs in Hc. rewrite py_slice_len in Hc by lia.
  replace (0 =? l + len - l) with false in Hc by lia. done.
Qed.

Lemma valid_end_not_inside data l len : _valid_code_point_at data l len = true -> ~ inside data (l + len).
Proof.
  intros Hv (l2 & len2 & Hv2 & Hi).
  destruct (Z.lt_trichotomy l l2) as [Hlt|[->|Hgt]].
  - apply (valid_not_inside data l2 len2 Hv2). exists l, len. split; [done|].
    apply valid_code_point_iff in Hv2 as (? & _). lia.
  - apply valid_code_point_iff in Hv as (Hlen & Hl & Hn & Hc), Hv2 as (Hlen2 & _ & Hn2 & Hc2).
    destruct (byte_at_slice data l2 (l2 + len)) as (r & Hs & _); [lia|lia|].
    destruct (byte_at_slice data l2 (l2 + len2)) as (r2 & Hs2 & _); [lia|lia|].
    rewrite Hs in Hc. rewrite Hs2 in Hc2. cbn [code_point] in Hc, Hc2.
    rewrite <- Hs, py_slice_len in Hc by lia. rewrite <- Hs2, py_slice_len in Hc2 by lia.
    do 2 (apply andb_true_iff in Hc as [Hc _]). do 2 (apply andb_true_iff in Hc2 as [Hc2 _]). bool_z. lia.
  - apply (valid_not_inside data l len Hv). exists l2, len2. split; [done|].
    apply valid_code_point_iff in Hv as (? & _). lia.
Qed.

(** What the search of the alignments finds. *)
Lemma enclosing_cons data c back rest :
  0 <= c ->
  enclosing data c (back :: rest) =
    if c - back <? 0 then None
    else if (_code_point_length (byte_at data (c - back)) <=? back)
            || negb (_valid_code_point_at data (c - back) (_code_point_length (byte_at data (c - back))))
    then enclosing data c rest
    else Some (c - back, _code_point_length (byte_at data (c - back))).
Proof.
  intros Hc. cbn [enclosing]. destruct (c - back <? 0); [done|].
  set (len := _code_point_length (byte_at data (c - back))).
  assert (Hlen : len = 0 \/ 2 <= len <= 4) by (unfold len, _code_point_length; repeat case_match; lia).
  destruct (_valid_code_point_at data (c - back) len) eqn:Hv.
  - apply valid_code_point_iff in Hv as (? & _). replace (len =? 0) with false by lia. cbn [orb negb].
    by destruct (len <=? back).
  - rewrite orb_true_r. by destruct (len =? 0), (len <=? back).
Qed.

Lemma enclosing_Some data c l len :
  0 <= c -> enclosing data c [1; 2; 3] = Some (l, len) ->
  _valid_code_point_at data l len = true /\ l < c < l + len /\ 0 <= l.
Proof.
  intros Hc. rewrite !enclosing_cons by done. cbn [enclosing].
  repeat match goal with
  | |- (if ?b then _ else _) = _ -> _ => destruct b eqn:?; [try done|]
  end; try done; intros [= <- <-];
  match goal with H : _ || _ = false |- _ => apply orb_false_iff in H as [? ?] end; bool_z;
  (split; [done|lia]).
Qed.

Lemma enclosing_None data c :
  0 < c -> enclosing data c [1; 2; 3] = None -> ~ inside data c.
Proof.
  intros Hc He (l & len & Hv & Hi). pose proof Hv as Hv'.
  apply valid_code_point_iff in Hv' as (Hlen & Hl & Hn & Hcp).
  assert (Hll : _code_point_length (byte_at data l) = len).
  { destruct (byte_at_slice data l (l + len)) as (r & Hs & _); [lia|lia|]. rewrite Hs in Hcp. cbn [code_point] in Hcp.
    rewrite <- Hs, py_slice_len in Hcp by lia. do 2 (apply andb_true_iff in Hcp as [Hcp _]). bool_z. lia. }
  assert (Hback : c - l = 1 \/ c - l = 2 \/ c - l = 3) by lia.
  rewrite !enclosing_cons in He by lia. cbn [enclosing] in He.
  destruct Hback as [Hb|[Hb|Hb]]; [replace (c - 1) with l in He by lia|replace (c - 2) with l in He by lia
    |replace (c - 3) with l in He by lia]; rewrite Hll, Hv in He; cbn [negb] in He; rewrite orb_false_r in He;
    repeat match type of He with context [if ?b then _ else _] => destruct b eqn:?; bool_z; try done; try lia end.
Qed.

(** *** The alignments *)

Lemma align_end_spec data c :
  0 <= c <= py_len data ->
  let r := align_code_point_end data c in
  0 <= r <= c /\ c - 3 <= r /\ ~ inside data r /\ (inside data c \/ r = c).
Proof.
  intros Hc r. subst r. unfold align_code_point_end.
  destruct (Z.leb_spec c 0).
  { assert (c = 0) as -> by lia. split_and!; try lia. intros (l & len & Hv & Hi).
    apply valid_code_point_iff in Hv as (? & ? & _). lia. }
  destruct (Z.leb_spec (py_len data) c).
  { assert (c = py_len data) as -> by lia. split_and!; try lia. intros (l & len & Hv & Hi).
    apply valid_code_point_iff in Hv as (? & ? & ? & _). lia. }
  destruct (enclosing data c [1; 2; 3]) as [[l len]|] eqn:He.
  - apply enclosing_Some in He as (Hv & Hi & Hl); [|lia].
    pose proof (proj1 (valid_code_point_iff _ _ _) Hv) as (Hlen & _).
    split_and!; try lia; [by eapply valid_not_inside|left; by exists l, len].
  - apply enclosing_None in He; [|lia]. split_and!; try lia; done.
Qed.

Lemma align_start_spec data c :
  0 <= c <= py_len data ->
  let r := align_code_point_start data c in
  c <= r <= py_len data /\ r <= c + 3 /\ ~ inside data r
  /\ ((r = c /\ ~ inside data c) \/ exists l, _valid_code_point_at data l (r - l) = true /\ l < c < r).
Proof.
  intros Hc r. subst r. unfold align_code_point_start.
  destruct (Z.leb_spec c 0).
  { assert (c = 0) as -> by lia. assert (~ inside data 0).
    { intros (l & len & Hv & Hi). apply valid_code_point_iff in Hv as (? & ? & _). lia. }
    split_and!; try lia; auto. }
  destruct (Z.leb_spec (py_len data) c).
  { assert (c = py_len data) as -> by lia. assert (~ inside data (py_len data)).
    { intros (l & len & Hv & Hi). apply valid_code_point_iff in Hv as (? & ? & ? & _). lia. }
    split_and!; try lia; auto. }
  destruct (enclosing data c [1; 2; 3]) as [[l len]|] eqn:He.
  - apply enclosing_Some in He as (Hv & Hi & Hl); [|lia].
    pose proof (proj1 (valid_code_point_iff _ _ _) Hv) as (Hlen & _ & Hn & _).
    split_and!; try lia; [by eapply valid_end_not_inside|right].
    exists l. replace (l + len - l) with len by lia. split; [done|lia].
  - apply enclosing_None in He; [|lia]. split_and!; try lia; auto.
Qed.

Lemma align_end_fixed data c :
  0 <= c <= py_len data -> align_code_point_end data c = c <-> ~ inside data c.
Proof.
  intros Hc. destruct (align_end_spec data c Hc) as (_ & _ & Hn & [Hi|He]).
  - split; [by intros <-|done].
  - rewrite He in *. split; auto.
Qed.

(** *** Code points of a part of the data *)

Lemma valid_slice data a b l len :
  0 <= a <= b -> b <= py_len data ->
  _valid_code_point_at (py_slice data a b) l len = true <->
  _valid_code_point_at data (a + l) len = true /\ 0 <= l /\ l + len <= b - a.
Proof.
  intros Ha Hb. rewrite !valid_code_point_iff, py_slice_len by lia. split.
  - intros (Hlen & Hl & Hn & Hc). rewrite py_slice_slice in Hc by lia.
    split_and!; try lia. by rewrite <- Z.add_assoc.
  - intros ((Hlen & Hl' & Hn' & Hc) & Hl & Hn). split_and!; try lia.
    rewrite py_slice_slice by lia. by rewrite Z.add_assoc.
Qed.

Lemma inside_slice data a b i :
  0 <= a <= b -> b <= py_len data ->
  inside (py_slice data a b) i <->
  exists l len, _valid_code_point_at data l len = true /\ l < a + i < l + len /\ a <= l /\ l + len <= b.
Proof.
  intros Ha Hb. split.
  - intros (l & len & Hv & Hi). apply valid_slice in Hv as (Hv & Hl & Hn); [|done|done].
    exists (a + l), len. split_and!; try done; lia.
  - intros (l & len & Hv & Hi & Hl & Hn). exists (l - a), len. split; [|lia].
    apply valid_slice; [done|done|]. replace (a + (l - a)) with l by lia. split_and!; try done; lia.
Qed.

(** With three bytes of context on the left and four on the right, a part
    decides whether an offset is inside a code point of the whole. *)
Lemma inside_context data a b i :
  0 <= a <= b -> b <= py_len data -> 0 <= i <= b - a ->
  (a = 0 \/ 3 <= i) -> (b = py_len data \/ i + 3 <= b - a) ->
  inside (py_slice data a b) i <-> inside data (a + i).
Proof.
  intros Ha Hb Hi Hleft Hright. rewrite inside_slice by done. split.
  - intros (l & len & Hv & Hl & _). by exists l, len.
  - intros (l & len & Hv & Hl). exists l, len.
    pose proof (proj1 (valid_code_point_iff _ _ _) Hv) as (Hlen & Hl0 & Hn & _).
    split_and!; try done; lia.
Qed.

(** A part that starts and ends at boundaries has the code points of the whole. *)
Lemma inside_between data a b i :
  0 <= a <= b -> b <= py_len data -> ~ inside data a -> ~ inside data b -> 0 <= i <= b - a ->
  inside (py_slice data a b) i <-> inside data (a + i).
Proof.
  intros Ha Hb Hna Hnb Hi. rewrite inside_slice by done. split.
  - intros (l & len & Hv & Hl & _). by exists l, len.
  - intros (l & len & Hv & Hl). exists l, len. split_and!; [done|lia|lia|..].
    + destruct (Z.le_gt_cases a l); [done|]. exfalso. apply Hna. exists l, len. split; [done|lia].
    + destruct (Z.le_gt_cases (l + len) b); [done|]. exfalso. apply Hnb. exists l, len. split; [done|lia].
Qed.

(** More data after the end leaves a boundary with three bytes behind it alone. *)
Lemma inside_app data more i :
  i + 3 <= py_len data -> inside (data ++ more) i <-> inside data i.
Proof.
  intros Hi. pose proof (py_len_nonneg data).
  assert (Hs : py_slice (data ++ more) 0 (py_len data) = data).
  { rewrite py_slice_nonneg by lia. cbn. rewrite drop_0, Nat.sub_0_r. unfold py_len. rewrite Nat2Z.id. apply take_app_length. }
  assert (Hlen : py_len data <= py_len (data ++ more)) by (unfold py_len; rewrite length_app; lia).
  rewrite <- Hs at 2. rewrite inside_slice by lia. split.
  - intros (l & len & Hv & Hl). exists l, len.
    pose proof (proj1 (valid_code_point_iff _ _ _) Hv) as (? & ? & ? & _). split_and!; try done; lia.
  - intros (l & len & Hv & Hl & _). by exists l, len.
Qed.

(** ** Bounded text *)

Lemma sorted_nth l : StronglySorted Z.lt l -> forall i j, (i < j < length l)%nat -> nth i l 0 < nth j l 0.
Proof.
  induction 1 as [|x l _ IH Hx]; intros i j Hij; [cbn in Hij; lia|].
  destruct j as [|j]; [lia|]. destruct i as [|i]; cbn [nth length] in *.
  - rewrite List.Forall_forall in Hx. apply Hx, nth_In. lia.
  - apply IH. lia.
Qed.

Lemma filter_sorted f l : StronglySorted Z.lt l -> StronglySorted Z.lt (List.filter f l).
Proof.
  induction 1 as [|x l _ IH Hx]; cbn; [constructor|]. destruct (f x); [|done]. constructor; [done|].
  apply List.Forall_forall. intros y [Hy _]%filter_In. rewrite List.Forall_forall in Hx. auto.
Qed.

Lemma range_sorted a b : StronglySorted Z.lt (py_range a b).
Proof.
  unfold py_range. generalize (Z.to_nat (b - a)) as n. intros n. generalize 0%nat as k.
  induction n as [|n IH]; intros k; cbn; [constructor|]. constructor; [apply IH|].
  apply List.Forall_forall. intros y (x & <- & Hx)%in_map_iff. apply in_seq in Hx. lia.
Qed.

Lemma in_range a b k : In k (py_range a b) <-> a <= k < b.
Proof.
  unfold py_range. rewrite in_map_iff. split.
  - intros (x & <- & Hx%in_seq). lia.
  - intros Hk. exists (Z.to_nat (k - a)). rewrite in_seq. lia.
Qed.

Section boundaries.
Context (raw : pybytes) (a : Z) (Ha : 0 <= a <= py_len raw).
Let bs := boundaries_from raw a.

Lemma boundaries_in k : In k bs <-> a <= k <= py_len raw /\ ~ inside raw k.
Proof.
  unfold bs, boundaries_from. rewrite filter_In, in_range, Z.eqb_eq. split.
  - intros [Hk He]. split; [lia|]. by apply align_end_fixed; [lia|].
  - intros [Hk He]. split; [lia|]. by apply align_end_fixed; [lia|].
Qed.

Lemma boundaries_last : In (py_len raw) bs.
Proof.
  apply boundaries_in. split; [lia|]. intros (l & len & Hv & Hi).
  apply valid_code_point_iff in Hv as (_ & _ & ? & _). lia.
Qed.

Lemma boundaries_nonempty : (0 < length bs)%nat.
Proof. pose proof boundaries_last as H. destruct bs; [done|cbn; lia]. Qed.

Lemma boundaries_nth_in j : 0 <= j < py_len bs -> In (nth (Z.to_nat j) bs 0) bs.
Proof. unfold py_len. intros Hj. apply nth_In. lia. Qed.

(** The elements up to index [j] are the boundaries up to its value. *)
Lemma boundaries_next j b :
  0 <= j < py_len bs -> In b bs -> (j = 0 \/ nth (Z.to_nat (j - 1)) bs 0 < b) -> nth (Z.to_nat j) bs 0 <= b.
Proof.
  unfold py_len. intros Hj Hb Hprev. apply (In_nth _ _ 0) in Hb as (i & Hi & <-).
  assert (Hs : StronglySorted Z.lt bs) by apply filter_sorted, range_sorted.
  destruct (Nat.lt_trichotomy (Z.to_nat j) i) as [Hlt|[->|Hgt]]; [|lia|].
  - pose proof (sorted_nth bs Hs (Z.to_nat j) i ltac:(lia)). lia.
  - destruct Hprev as [->|Hprev]; [lia|].
    destruct (Nat.eq_dec i (Z.to_nat (j - 1))) as [->|Hne]; [lia|].
    pose proof (sorted_nth bs Hs i (Z.to_nat (j - 1)) ltac:(lia)). lia.
Qed.

(** There is a boundary within four bytes after any offset. *)
Lemma boundary_near x : a - 1 <= x < py_len raw -> 0 <= x + 1 -> exists b, In b bs /\ x < b <= x + 4.
Proof.
  intros Hx Hx1. destruct (Z.le_gt_cases (x + 4) (py_len raw)) as [Hle|Hgt].
  - destruct (align_end_spec raw (x + 4)) as (? & ? & Hn & _); [lia|].
    exists (align_code_point_end raw (x + 4)). split; [|lia]. apply boundaries_in. split; [lia|done].
  - exists (py_len raw). split; [apply boundaries_last|lia].
Qed.

Lemma boundaries_nth_range j : 0 <= j < py_len bs -> a <= nth (Z.to_nat j) bs 0 <= py_len raw.
Proof. intros Hj. by apply boundaries_in, boundaries_nth_in. Qed.

Lemma boundaries_gap j :
  0 < j < py_len bs -> nth (Z.to_nat (j - 1)) bs 0 < py_len raw ->
  nth (Z.to_nat j) bs 0 <= nth (Z.to_nat (j - 1)) bs 0 + 4.
Proof.
  intros Hj Hx. pose proof (boundaries_nth_range (j - 1) ltac:(lia)) as Hr.
  destruct (boundary_near (nth (Z.to_nat (j - 1)) bs 0)) as (b & Hb & Hbx); [lia|lia|].
  transitivity b; [|lia]. apply boundaries_next; [lia|done|]. right. lia.
Qed.

Lemma boundaries_max : nth (Z.to_nat (py_len bs - 1)) bs 0 = py_len raw.
Proof.
  pose proof boundaries_last as Hlast. pose proof boundaries_nonempty as Hne.
  apply (In_nth _ _ 0) in Hlast as (i & Hi & Hie).
  pose proof (boundaries_nth_range (py_len bs - 1) ltac:(unfold py_len; lia)).
  destruct (Nat.eq_dec i (Z.to_nat (py_len bs - 1))) as [->|Hii]; [done|].
  assert (Hs : StronglySorted Z.lt bs) by apply filter_sorted, range_sorted.
  pose proof (sorted_nth bs Hs i (Z.to_nat (py_len bs - 1)) ltac:(unfold py_len in *; lia)). lia.
Qed.
End boundaries.

(** *** The newest bytes that fit *)

Definition suffix_fits (raw : pybytes) (limit k : Z) : Prop := decoded_length (py_from raw k) <= limit.

Section suffix_search.
Context (raw : pybytes) (limit : Z) (bs : list Z).
Let at_index j := nth (Z.to_nat j) bs 0.
Context (Hlast : suffix_fits raw limit (at_index (py_len bs - 1))) (Hne : 0 < py_len bs).

(** What the search knows when it looks between [lo] and [hi]. *)
Definition suffix_state (lo hi keep : Z) : Prop :=
  0 <= lo <= hi + 1 /\ hi < py_len bs
  /\ (hi + 1 = py_len bs \/ (keep = at_index (hi + 1) /\ suffix_fits raw limit keep))
  /\ (lo = 0 \/ ~ suffix_fits raw limit (at_index (lo - 1))).

Lemma suffix_search_done lo hi keep :
  suffix_state lo hi keep -> hi < lo ->
  keep = at_index lo /\ 0 <= lo < py_len bs /\ suffix_fits raw limit keep
  /\ (lo = 0 \/ ~ suffix_fits raw limit (at_index (lo - 1))).
Proof.
  intros (Hlo & Hhi & Hk & Hlow) Hgt. assert (hi + 1 = lo) as Heq by lia. rewrite Heq in Hk.
  destruct Hk as [Hk|[Hk Hfit]].
  - destruct Hlow as [Hz|Hz]; [lia|]. rewrite Hk in Hz. done.
  - destruct (Z.eq_dec lo (py_len bs)) as [He|]; [|split_and!; try done; lia].
    destruct Hlow as [Hz|Hz]; [lia|]. rewrite He in Hz. done.
Qed.

Lemma suffix_search_spec fuel : forall lo hi keep,
  suffix_state lo hi keep -> hi - lo + 1 <= Z.of_nat fuel ->
  exists j, suffix_search fuel raw limit bs lo hi keep = Ok (at_index j) /\ 0 <= j < py_len bs
    /\ suffix_fits raw limit (at_index j) /\ (j = 0 \/ ~ suffix_fits raw limit (at_index (j - 1))).
Proof.
  induction fuel as [|fuel IH]; intros lo hi keep Hst Hf; cbn [suffix_search];
    destruct (Z.leb_spec lo hi) as [Hle|Hgt]; try lia.
  1, 3: destruct (suffix_search_done lo hi keep Hst Hgt) as (-> & ? & ? & ?); exists lo; done.
  destruct Hst as (Hlo & Hhi & Hk & Hlow).
  pose proof (Z.div_mod (lo + hi) 2 ltac:(lia)). pose proof (Z.mod_pos_bound (lo + hi) 2 ltac:(lia)).
  set (mid := (lo + hi) / 2) in *. change (nth (Z.to_nat mid) bs 0) with (at_index mid).
  destruct (Z.leb_spec (decoded_length (py_from raw (at_index mid))) limit) as [Hfits|Hno]; apply IH; try lia.
  - split_and!; try done; try lia. right. split; [|done]. f_equal. lia.
  - split_and!; try done; try lia. right. replace (mid + 1 - 1) with mid by lia.
    unfold suffix_fits. lia.
Qed.
End suffix_search.

Lemma inside_zero raw : ~ inside raw 0.
Proof. intros (l & len & Hv & Hi). apply valid_code_point_iff in Hv as (? & ? & _). lia. Qed.

Lemma suffix_fits_expand raw limit k :
  bytes_ok raw -> 0 <= k <= py_len raw -> ~ suffix_fits raw limit k -> limit < 3 * (py_len raw - k).
Proof.
  intros Hok Hk Hn. unfold suffix_fits in Hn. rewrite py_from_nonneg in Hn by lia.
  pose proof (pg_expand (drop (Z.to_nat k) raw) ltac:(auto with lubko)) as He.
  unfold py_len in *. rewrite length_drop in He. lia.
Qed.

Lemma suffix_fits_all raw limit : 0 <= limit -> suffix_fits raw limit (py_len raw).
Proof. intros. unfold suffix_fits. rewrite py_from_nonneg, drop_ge by (unfold py_len; lia). done. Qed.

Lemma bounded_suffix_spec raw limit :
  bytes_ok raw -> 0 <= limit ->
  exists keep, _bounded_suffix raw limit = Ok (keep, pg_safe_decode (py_from raw keep))
    /\ 0 <= keep <= py_len raw /\ suffix_fits raw limit keep /\ ~ inside raw keep
    /\ ((keep = 0 /\ decoded_length raw <= limit)
        \/ (limit < decoded_length raw /\ limit < 3 * (py_len raw - keep + 4))).
Proof.
  intros Hok Hlim. unfold _bounded_suffix. pose proof (py_len_nonneg raw) as Hnn.
  destruct (Z.leb_spec (decoded_length raw) limit) as [Hle|Hgt].
  { exists 0. unfold suffix_fits. rewrite py_from_nonneg, drop_0 by lia.
    split_and!; first [done|lia|apply inside_zero|by left]. }
  assert (Hr : 0 <= 0 <= py_len raw) by lia. set (bs := boundaries_from raw 0).
  pose proof (boundaries_nonempty raw 0 Hr) as Hne. pose proof (boundaries_max raw 0 Hr) as Hmax. fold bs in Hne, Hmax.
  destruct (suffix_search_spec raw limit bs) with (fuel := S (length bs)) (lo := 0) (hi := py_len bs - 1) (keep := py_len raw)
    as (j & Hs & Hj & Hfit & Hprev).
  - rewrite Hmax. by apply suffix_fits_all.
  - unfold py_len. lia.
  - split_and!; first [by left|left; lia|unfold py_len; lia].
  - unfold py_len. lia.
  - rewrite Hs. cbn [mbind res_bind].
    pose proof (boundaries_nth_range raw 0 Hr j Hj) as Hkr. fold bs in Hkr.
    pose proof (boundaries_nth_in raw 0 j Hj) as Hin. apply (boundaries_in raw 0 Hr) in Hin as [_ Hni]. fold bs in Hni.
    eexists. split; [done|]. split_and!; try done; try lia. right. split; [done|].
    destruct Hprev as [->|Hprev].
    + pose proof (suffix_fits_expand raw limit 0 Hok Hr) as He.
      assert (nth (Z.to_nat 0) bs 0 <= 0).
      { apply (boundaries_next raw 0 0 0); [fold bs; unfold py_len; lia| |by left].
        apply (boundaries_in raw 0 Hr). split; [lia|apply inside_zero]. }
      unfold suffix_fits in He. rewrite py_from_nonneg, drop_0 in He by lia. lia.
    + destruct (Z.eq_dec j 0) as [->|Hj0]; [by destruct Hprev|].
      pose proof (boundaries_nth_range raw 0 Hr (j - 1) ltac:(fold bs; lia)) as Hpr. fold bs in Hpr.
      pose proof (suffix_fits_expand raw limit _ Hok Hpr Hprev) as He.
      pose proof (boundaries_gap raw 0 Hr j) as Hgap. fold bs in Hgap. lia.
Qed.

(** *** The oldest bytes that fit *)

Definition prefix_fits (raw : pybytes) (limit k : Z) : Prop := decoded_length (py_slice raw 0 k) <= limit.

Section prefix_search.
Context (raw : pybytes) (limit : Z) (bs : list Z).
Let at_index j := nth (Z.to_nat j) bs 0.
Context (Hfirst : prefix_fits raw limit (at_index 0)) (Hne : 0 < py_len bs).

Definition prefix_state (lo hi stop : Z) : Prop :=
  0 <= lo <= hi + 1 /\ hi < py_len bs
  /\ (lo = 0 \/ (0 < lo /\ stop = at_index (lo - 1) /\ prefix_fits raw limit stop))
  /\ (hi + 1 = py_len bs \/ ~ prefix_fits raw limit (at_index (hi + 1))).

Lemma prefix_search_spec fuel : forall lo hi stop,
  prefix_state lo hi stop -> hi - lo + 1 <= Z.of_nat fuel ->
  exists j, prefix_search fuel raw limit bs lo hi stop = Ok (at_index j) /\ 0 <= j < py_len bs
    /\ prefix_fits raw limit (at_index j).
Proof.
  induction fuel as [|fuel IH]; intros lo hi stop (Hlo & Hhi & Hk & Hhigh) Hf; cbn [prefix_search];
    destruct (Z.leb_spec lo hi) as [Hle|Hgt]; try lia.
  1, 3: destruct Hk as [->|(Hpos & -> & Hfit)]; [|exists (lo - 1); split_and!; try done; lia];
    assert (hi = -1) as -> by lia; destruct Hhigh as [?|Hn]; [lia|done].
  pose proof (Z.div_mod (lo + hi) 2 ltac:(lia)). pose proof (Z.mod_pos_bound (lo + hi) 2 ltac:(lia)).
  set (mid := (lo + hi) / 2) in *. change (nth (Z.to_nat mid) bs 0) with (at_index mid).
  destruct (Z.leb_spec (decoded_length (py_slice raw 0 (at_index mid))) limit) as [Hfits|Hno]; apply IH; try lia.
  - split_and!; try done; try lia. right. split; [lia|]. split; [|done]. f_equal. lia.
  - split_and!; try done; try lia. right. replace (mid - 1 + 1) with mid by lia. unfold prefix_fits. lia.
Qed.
End prefix_search.

Lemma bounded_prefix_spec raw limit :
  bytes_ok raw -> 12 <= limit -> 0 < py_len raw ->
  exists stop, _bounded_prefix raw limit = Ok (stop, pg_safe_decode (py_slice raw 0 stop))
    /\ 1 <= stop <= py_len raw /\ prefix_fits raw limit stop /\ ~ inside raw stop.
Proof.
  intros Hok Hlim Hn. unfold _bounded_prefix. destruct raw as [|b0 raw0]; [done|]. set (raw := b0 :: raw0) in *.
  assert (Hr : 0 <= 1 <= py_len raw) by lia. set (bs := boundaries_from raw 1).
  pose proof (boundaries_nonempty raw 1 Hr) as Hne. fold bs in Hne.
  assert (Hfirst : prefix_fits raw limit (nth (Z.to_nat 0) bs 0)).
  { destruct (boundary_near raw 1 Hr 0) as (b & Hb & Hb4); [lia|lia|].
    pose proof (boundaries_next raw 1 0 b ltac:(fold bs; unfold py_len; lia) Hb ltac:(by left)) as Hle. fold bs in Hle.
    pose proof (boundaries_nth_range raw 1 Hr 0 ltac:(fold bs; unfold py_len; lia)) as Hk. fold bs in Hk.
    unfold prefix_fits. pose proof (pg_expand (py_slice raw 0 (nth (Z.to_nat 0) bs 0)) ltac:(auto with lubko)) as He.
    rewrite py_slice_len in He by lia. lia. }
  destruct (prefix_search_spec raw limit bs Hfirst ltac:(unfold py_len; lia) (S (length bs)) 0 (py_len bs - 1) 1)
    as (j & Hs & Hj & Hfit).
  - split_and!; first [by left|left; lia|unfold py_len; lia].
  - unfold py_len. lia.
  - rewrite Hs. cbn [mbind res_bind]. eexists. split; [done|].
    pose proof (boundaries_nth_range raw 1 Hr j Hj) as Hk. fold bs in Hk.
    pose proof (boundaries_nth_in raw 1 j Hj) as Hin. apply (boundaries_in raw 1 Hr) in Hin as [_ Hni]. by fold bs in Hni.
Qed.

(** ** The live window *)

(** Bytes of the stream by logical offset. *)
Definition logical (s : OutputStream) (a b : Z) : pybytes :=
  py_slice (os_data s) (a - os_spool_start s) (b - os_spool_start s).

Definition stream_end (s : OutputStream) : Z := os_spool_start s + stream_size s.

(** A logical offset in the buffer that splits no code point of it. *)
Definition boundary (s : OutputStream) (i : Z) : Prop := ~ inside (os_data s) (i - os_spool_start s).

(** What the published window of a stream is: the stream's newest bytes from a
    boundary on, at most [OUTPUT_TAIL_MAX_BYTES] of them and of their text, and
    either all the bytes the limit allows or, where decoding them expands
    beyond the limit, still a third of it. *)
Record window_of (s : OutputStream) (text : pystr) (start stop : Z) : Prop := {
  wi_range : os_spool_start s <= start <= stop;
  wi_stop : stop = stream_end s;
  wi_span : stop - start <= OUTPUT_TAIL_MAX_BYTES;
  wi_text : text = pg_safe_decode (logical s start stop);
  wi_bound : decoded_length (logical s start stop) <= OUTPUT_TAIL_MAX_BYTES;
  wi_boundary : boundary s start;
  wi_head :
    let head := align_code_point_start (os_data s) (Z.max 0 (stream_size s - OUTPUT_TAIL_MAX_BYTES)) in
    start = os_spool_start s + head
    \/ (OUTPUT_TAIL_MAX_BYTES < decoded_length (py_from (os_data s) head) /\ 1330 <= stop - start);
}.

(** The start alignment finds the least boundary from the offset on. *)
Lemma align_start_least data c r :
  0 <= c <= py_len data ->
  align_code_point_start data c = r <-> c <= r <= py_len data /\ ~ inside data r /\ forall k, c <= k < r -> inside data k.
Proof.
  intros Hc. destruct (align_start_spec data c Hc) as (Hr & _ & Hn & Hcase).
  set (r0 := align_code_point_start data c) in *.
  assert (Hall : forall k, c <= k < r0 -> inside data k).
  { intros k Hk. destruct Hcase as [[? _]|(l & Hv & Hl)]; [lia|]. exists l, (r0 - l). split; [done|lia]. }
  split; [intros <-; done|]. intros (Hr' & Hn' & Hall').
  destruct (Z.lt_trichotomy r0 r) as [Hlt|[?|Hgt]]; [|done|].
  - exfalso. apply Hn, Hall'. lia.
  - exfalso. apply Hn', Hall. lia.
Qed.

(** The end alignment finds the greatest boundary up to the offset. *)
Lemma align_end_greatest data c r :
  0 <= c <= py_len data ->
  align_code_point_end data c = r <-> 0 <= r <= c /\ ~ inside data r /\ forall k, r < k <= c -> inside data k.
Proof.
  intros Hc. destruct (align_end_spec data c Hc) as (Hr & _ & Hn & Hcase).
  set (r0 := align_code_point_end data c) in *.
  assert (Hall : forall k, r0 < k <= c -> inside data k).
  { intros k Hk. unfold r0, align_code_point_end in Hk.
    destruct (Z.leb_spec c 0); [lia|]. destruct (Z.leb_spec (py_len data) c); [lia|].
    destruct (enclosing data c [1; 2; 3]) as [[l len]|] eqn:He; [|lia].
    apply enclosing_Some in He as (Hv & Hl & _); [|lia]. exists l, len. split; [done|lia]. }
  split; [intros <-; done|]. intros (Hr' & Hn' & Hall').
  destruct (Z.lt_trichotomy r0 r) as [Hlt|[?|Hgt]]; [|done|].
  - exfalso. apply Hn', Hall. lia.
  - exfalso. apply Hn, Hall'. lia.
Qed.

(** Alignment within a part that has three bytes of context agrees with the whole. *)
Lemma align_start_context data a i :
  0 <= a -> 0 <= i -> a + i <= py_len data -> (a = 0 \/ 3 <= i) ->
  a + align_code_point_start (py_slice data a (py_len data)) i = align_code_point_start data (a + i).
Proof.
  intros Ha Hi Hn Hleft. set (r := align_code_point_start data (a + i)).
  destruct (proj1 (align_start_least data (a + i) r ltac:(lia)) eq_refl) as (Hr & Hnr & Hall).
  assert (He : align_code_point_start (py_slice data a (py_len data)) i = r - a); [|lia].
  apply align_start_least; rewrite py_slice_len by lia; [lia|]. split; [lia|]. split.
  - rewrite inside_context by lia. by replace (a + (r - a)) with r by lia.
  - intros k Hk. rewrite inside_context by lia. apply Hall. lia.
Qed.

Lemma align_end_context data a b i :
  0 <= a <= b -> b <= py_len data -> 0 <= i <= b - a ->
  (a = 0 \/ 3 <= i) -> (b = py_len data \/ i + 3 <= b - a) ->
  a + align_code_point_end (py_slice data a b) i = align_code_point_end data (a + i).
Proof.
  intros Hab Hb Hi Hleft Hright. set (r := align_code_point_end (py_slice data a b) i).
  assert (Hlen : py_len (py_slice data a b) = b - a) by (apply py_slice_len; lia).
  destruct (proj1 (align_end_greatest (py_slice data a b) i r ltac:(lia)) eq_refl) as (Hr & Hnr & Hall).
  destruct (align_end_spec (py_slice data a b) i ltac:(lia)) as (_ & Hr3 & _). fold r in Hr3.
  symmetry. apply align_end_greatest; [lia|]. split; [lia|]. split.
  - intros (l & len & Hv & Hl). destruct (Z.eq_dec r i) as [He|Hne].
    + apply Hnr. rewrite inside_context by lia. by exists l, len.
    + (* [r] starts the code point around [i] *)
      assert (Hin : inside (py_slice data a b) i) by (apply Hall; lia).
      apply inside_slice in Hin as (l' & len' & Hv' & Hl' & Hal' & _); [|lia|lia].
      assert (Hrl : a + r = l').
      { destruct (Z.lt_trichotomy (a + r) l') as [Hlt|[?|Hgt]]; [|done|].
        - exfalso. apply (valid_not_inside data l' len' Hv'). destruct (Hall (l' - a)) as (x & y & Hx & Hy); [lia|].
          apply valid_slice in Hx as (Hx & _); [|lia|lia]. exists (a + x), y. split; [done|lia].
        - exfalso. apply Hnr. apply inside_slice; [lia|lia|]. exists l', len'.
          pose proof (proj1 (valid_code_point_iff _ _ _) Hv') as (? & ? & ? & _). split_and!; try done; lia. }
      apply (valid_not_inside data l' len' Hv'). exists l, len. split; [done|lia].
  - intros k Hk. destruct (Hall (k - a)) as (x & y & Hx & Hy); [lia|].
    apply valid_slice in Hx as (Hx & _); [|lia|lia]. exists (a + x), y. split; [done|lia].
Qed.

Lemma inside_end data : ~ inside data (py_len data).
Proof. intros (l & len & Hv & Hi). apply valid_code_point_iff in Hv as (_ & _ & ? & _). lia. Qed.

Lemma output_window_spec s :
  bytes_ok (os_data s) -> 0 <= os_spool_start s ->
  exists text start stop, output_window_text s OUTPUT_TAIL_MAX_BYTES (os_spool_start s) = Ok (text, start, stop)
    /\ window_of s text start stop.
Proof.
  intros Hok HS. unfold output_window_text, read_range. set (S := os_spool_start s) in *. set (data := os_data s) in *.
  assert (Hn : stream_size s = py_len data) by done. rewrite Hn. set (n := py_len data) in *.
  pose proof (py_len_nonneg data) as Hn0. fold n in Hn0.
  set (h := Z.max 0 (n - OUTPUT_TAIL_MAX_BYTES)).
  assert (HO : OUTPUT_TAIL_MAX_BYTES = 4000) by done.
  set (ph := n + S - Z.min (n + S) OUTPUT_TAIL_MAX_BYTES - S). set (rf := Z.max 0 (ph - 3)).
  replace (n + S - S) with n by lia.
  assert (Hal : rf + align_code_point_start (py_slice data rf n) (ph - rf) = align_code_point_start data h).
  { destruct (Z.le_gt_cases 0 ph) as [Hph|Hph].
    - replace h with (rf + (ph - rf)) by lia. apply align_start_context; fold n; lia.
    - unfold align_code_point_start. replace (ph - rf <=? 0) with true by lia. replace (h <=? 0) with true by lia. lia. }
  destruct (align_start_spec data h) as (Hp & Hp3 & Hnp & _); [fold n; lia|].
  set (P := align_code_point_start data h) in *. fold n in Hp.
  set (al := align_code_point_start (py_slice data rf n) (ph - rf)) in *.
  assert (Hraw : py_from (py_slice data rf n) al = py_slice data P n).
  { rewrite py_from_py_slice by (fold n; lia). by rewrite Hal. }
  rewrite Hraw.
  destruct (bounded_suffix_spec (py_slice data P n) OUTPUT_TAIL_MAX_BYTES) as (keep & -> & Hk & Hfit & Hnk & Hcase);
    [auto with lubko|lia|].
  rewrite py_slice_len in Hk, Hcase by (fold n; lia). cbn [mbind res_bind].
  do 3 eexists. split; [done|]. rewrite Hal.
  assert (Hlog : py_from (py_slice data P n) keep = logical s (P + keep + S) (n + S)).
  { rewrite py_from_py_slice by (fold n; lia). unfold logical. fold S data. f_equal; lia. }
  unfold suffix_fits in Hfit. rewrite Hlog in Hfit |- *.
  split; unfold stream_end, boundary; fold S; rewrite ?Hn; fold h; fold data; fold P; try done; try lia.
  - replace (P + keep + S - S) with (P + keep) by lia. rewrite <- (inside_between data P n); try done; fold n; try lia.
    apply inside_end.
  - change (py_from data P) with (py_slice data P n). destruct Hcase as [[-> _]|[? ?]]; [left; lia|right; lia].
Qed.
