(* ===== verification/Capture.v ===== *)
(** Draining a job's capture pipes into its bounded memory spool
    ([src/lubko/worker.py], [drain_capture_stream] and what it calls).

    The outside world answers in two places: a read of the pipe, [os.read(fd,
    n)], is an operation on the state of the pipe (class [Pipe]); whether
    [stream.data += more] succeeds is the parameter [can_extend]. *)

From S2P Require Import Prelude PyStr PyNum Json JsonFacts Uuid Protocol Output OutputFacts.

Inductive read_outcome :=
  | WouldBlock                    (* [BlockingIOError] *)
  | ReadFailed                    (* any other [OSError] *)
  | ReadBytes (data : pybytes).   (* empty: the write end closed *)

(** The read end of a non-blocking pipe, and the bytes still to be read from
    it: those in the kernel's buffer and those yet to be written. *)
Class Pipe (P : Type) := {
  os_read : P -> Z -> read_outcome * P;
  unread : P -> pybytes;
}.

(** [os.read] returns at most as many bytes as asked for, and they are the
    next ones; a failed read takes nothing, and no bytes means none are left. *)
Class PipeLaws (P : Type) `{Pipe P} := {
  read_some p n d p' : 0 < n -> os_read p n = (ReadBytes d, p') -> unread p = d ++ unread p' /\ py_len d <= n;
  read_none p n o p' : os_read p n = (o, p') -> (forall d, o <> ReadBytes d) -> unread p' = unread p;
  read_closed p n p' : 0 < n -> os_read p n = (ReadBytes [], p') -> unread p = [];
}.

Inductive drain_status := d_ok | d_full | d_eof | d_error.

#[export] Instance drain_status_eq_dec : EqDecision drain_status.
Proof. solve_decision. Defined.

Definition DRAIN_CHUNK : Z := 65536.

(** Assignments to the fields of a stream. *)
Definition set_data (s : OutputStream) (d : pybytes) : OutputStream :=
  mkStream d (os_fd s) (os_eof s) (os_pending s) (os_spool_start s) (os_published_size s) (os_published_at s)
    (os_archived_upto s) (os_last_chunk s) (os_sequence s) (os_tail_text s) (os_tail_start s) (os_tail_end s).
Definition set_pending (s : OutputStream) (d : pybytes) : OutputStream :=
  mkStream (os_data s) (os_fd s) (os_eof s) d (os_spool_start s) (os_published_size s) (os_published_at s)
    (os_archived_upto s) (os_last_chunk s) (os_sequence s) (os_tail_text s) (os_tail_start s) (os_tail_end s).
Definition close_fd (s : OutputStream) : OutputStream :=
  mkStream (os_data s) None (os_eof s) (os_pending s) (os_spool_start s) (os_published_size s) (os_published_at s)
    (os_archived_upto s) (os_last_chunk s) (os_sequence s) (os_tail_text s) (os_tail_start s) (os_tail_end s).
Definition set_eof (s : OutputStream) : OutputStream :=
  mkStream (os_data s) (os_fd s) true (os_pending s) (os_spool_start s) (os_published_size s) (os_published_at s)
    (os_archived_upto s) (os_last_chunk s) (os_sequence s) (os_tail_text s) (os_tail_start s) (os_tail_end s).

Section drain.
Context `{Pipe P} (can_extend : pybytes -> pybytes -> bool).

(** The stream and the number of bytes appended; all of them or none. *)
Definition _spool_append (s : OutputStream) (data : pybytes) : OutputStream * Z :=
  if can_extend (os_data s) data then (set_data s (os_data s ++ data), py_len data) else (s, 0).

Definition _flush_pending (s : OutputStream) (limit : option Z) : OutputStream * bool :=
  match os_pending s with
  | [] => (s, true)
  | _ =>
      let data := match limit with None => os_pending s | Some l => py_slice (os_pending s) 0 l end in
      let before := py_len (os_pending s) in
      let '(s, landed) := _spool_append s data in
      let s := set_pending s (drop (Z.to_nat landed) (os_pending s)) in
      (s, negb ((landed =? 0) && (py_len (os_pending s) =? before)))
  end.

Definition _finish_capture_stream (s : OutputStream) : OutputStream * drain_status :=
  let s := close_fd s in
  match os_pending s with
  | [] => (set_eof s, d_eof)
  | _ =>
      let '(s, flushed) := _flush_pending s None in
      match flushed, os_pending s with
      | true, [] => (set_eof s, d_eof)
      | _, _ => (s, d_error)
      end
  end.

Definition _read_capture_chunk (p : P) (s : OutputStream) (room : Z) : OutputStream * drain_status * P :=
  match os_fd s with
  | None => (s, d_eof, p)
  | Some _ =>
      match os_read p (Z.min room DRAIN_CHUNK) with
      | (WouldBlock, p) => (s, d_ok, p)
      | (ReadFailed, p) => (s, d_error, p)
      | (ReadBytes [], p) => (_finish_capture_stream s, p)
      | (ReadBytes data, p) =>
          let '(s, flushed) := _flush_pending (set_pending s (os_pending s ++ data)) None in
          (s, if flushed then d_ok else d_error, p)
      end
  end.

Definition _retry_pending_flush (s : OutputStream) (buffer_room : Z) : OutputStream * drain_status * Z :=
  if buffer_room <=? 0 then (s, d_full, 0)
  else
    let pending_before := py_len (os_pending s) in
    let '(s, flushed) := _flush_pending s (Some buffer_room) in
    if negb flushed then (s, d_error, 0)
    else match os_pending s with
         | [] => (s, d_ok, pending_before)
         | _ => (s, d_full, 0)
         end.

(** The turn after the retained bytes have landed. *)
Definition drain_fresh (p : P) (s : OutputStream) (bound used : Z) : OutputStream * drain_status * P :=
  match os_fd s with
  | None => (set_eof s, d_eof, p)
  | Some _ =>
      let buffer_room := Z.max 0 (bound - used) in
      if buffer_room <=? 0 then (s, d_full, p) else _read_capture_chunk p s buffer_room
  end.

Definition drain_capture_stream (p : P) (s : OutputStream) (bound : Z) (aggregate_used : option Z)
    : OutputStream * drain_status * P :=
  if os_eof s then (s, d_eof, p)
  else
    let used := default (py_len (os_data s)) aggregate_used in
    match os_pending s with
    | [] => drain_fresh p s bound used
    | _ =>
        match _retry_pending_flush s (Z.max 0 (bound - used)) with
        | (s, d_ok, landed) => drain_fresh p s bound (used + landed)
        | (s, status, _) => (s, status, p)
        end
    end.

Definition spool_overflow (job : ActiveJob) (bound : Z) : bool := bound <? _spool_used_bytes job.

Definition evict (job : ActiveJob) : ActiveJob :=
  mkJob (job_id job) (job_version job) (job_stdout job) (job_stderr job) true.

(** The pipes of a job's streams. *)
Definition set_pipe (ps : stream_name -> P) (n : stream_name) (p : P) : stream_name -> P :=
  fun n' => if decide (n' = n) then p else ps n'.

(** The job, whether a stop for a spool failure was requested, and the pipes. *)
Definition _drain_active_stream (ps : stream_name -> P) (job : ActiveJob) (n : stream_name) (bound : Z)
    : ActiveJob * bool * (stream_name -> P) :=
  let total := _spool_used_bytes job in
  let '(s, status, p) := drain_capture_stream (ps n) (job_stream job n) bound (Some total) in
  let job := set_stream job n s in
  if decide (status = d_error) then (evict job, true, set_pipe ps n p) else (job, false, set_pipe ps n p).

(** The loop over the streams: the job, whether a stop was requested, the
    value returned and the pipes. *)
Fixpoint drain_completed (ps : stream_name -> P) (job : ActiveJob) (names : list stream_name) (bound : Z)
    (made_progress : bool) : ActiveJob * bool * bool * (stream_name -> P) :=
  match names with
  | [] => (job, false, made_progress, ps)
  | n :: names =>
      let s := job_stream job n in
      if (match os_fd s with None => true | Some _ => false end) || os_eof s
      then drain_completed ps job names bound made_progress
      else
        let total := _spool_used_bytes job in
        let size_before := py_len (os_data s) in
        let was_eof := os_eof s in
        let '(s, status, p) := drain_capture_stream (ps n) s bound (Some total) in
        let job := set_stream job n s in
        let ps := set_pipe ps n p in
        if decide (status = d_error) then (evict job, true, false, ps)
        else
          let moved := bool_decide (status = d_eof) || (os_eof s && negb was_eof) || (size_before <? py_len (os_data s)) in
          drain_completed ps job names bound (made_progress || moved)
  end.

Definition _drain_completed_streams (ps : stream_name -> P) (job : ActiveJob) (bound : Z)
    : ActiveJob * bool * bool * (stream_name -> P) :=
  drain_completed ps job OUTPUT_STREAMS bound false.

(** ** What draining keeps *)

(** Every byte of the stream's pipe from the start of the buffer on, in order:
    in the buffer, retained, or still to be read. *)
Definition all_bytes (p : P) (s : OutputStream) : pybytes := os_data s ++ os_pending s ++ unread p.

(** The publication state, which draining leaves alone. *)
Definition publication (s : OutputStream) :=
  (os_spool_start s, os_published_size s, os_published_at s, os_archived_upto s, os_last_chunk s, os_sequence s,
   os_tail_text s, os_tail_start s, os_tail_end s).

(** A stream at its end retains nothing and its pipe is closed. *)
Definition at_end (p : P) (s : OutputStream) : Prop :=
  os_eof s = true -> os_pending s = [] /\ unread p = [] /\ os_fd s = None.
(** A closed pipe has been read to its end. *)
Definition closed_read (p : P) (s : OutputStream) : Prop := os_fd s = None -> unread p = [].

(** One operation on a stream: nothing lost or reordered, the publication
    state untouched, and the buffer grown by at most [room]. *)
Record drained (room : Z) (p : P) (s : OutputStream) (p' : P) (s' : OutputStream) : Prop := {
  dr_bytes : all_bytes p' s' = all_bytes p s;
  dr_publication : publication s' = publication s;
  dr_prefix : exists more, os_data s' = os_data s ++ more /\ py_len more <= Z.max 0 room;
}.

Lemma drained_refl room p s : drained room p s p s.
Proof. split; [done|done|]. exists []. rewrite app_nil_r. split; [done|]. unfold py_len. cbn. lia. Qed.

Lemma flush_pending_spec s limit s' b :
  _flush_pending s limit = (s', b) ->
  (forall l, limit = Some l -> 0 < l) ->
  publication s' = publication s /\ os_fd s' = os_fd s /\ os_eof s' = os_eof s
  /\ exists more, os_data s' = os_data s ++ more /\ os_pending s = more ++ os_pending s'
     /\ (forall l, limit = Some l -> py_len more <= l)
     /\ (b = false -> exists d m, can_extend d m = false)
     /\ (b = true -> os_pending s' <> [] -> limit = Some (py_len more)).
Proof.
  unfold _flush_pending, _spool_append. intros Hf Hl. destruct (os_pending s) as [|x r] eqn:Hp.
  { injection Hf as <- <-. split_and!; try done. exists []. rewrite app_nil_r, Hp. split_and!; try done.
    intros l Hlim%Hl. unfold py_len. cbn. lia. }
  rewrite <- Hp in Hf |- *.
  set (data := match limit with None => os_pending s | Some l => py_slice (os_pending s) 0 l end) in Hf.
  assert (Hd : exists rest, os_pending s = data ++ rest /\ (rest <> [] -> limit = Some (py_len data))
            /\ (forall l, limit = Some l -> py_len data <= l)).
  { subst data. destruct limit as [l|].
    - specialize (Hl l eq_refl). rewrite py_slice_nonneg by lia. cbn. rewrite drop_0, Nat.sub_0_r.
      exists (drop (Z.to_nat l) (os_pending s)). split_and!; [by rewrite take_drop| |].
      + intros Hne. f_equal. unfold py_len. rewrite length_take.
        destruct (Nat.le_gt_cases (length (os_pending s)) (Z.to_nat l)); [by rewrite drop_ge in Hne|lia].
      + intros l' [= <-]. unfold py_len. rewrite length_take. lia.
    - exists []. by rewrite app_nil_r. }
  destruct Hd as (rest & Hrest & Hnone & Hlen).
  assert (Hdrop : drop (Z.to_nat (py_len data)) (os_pending s) = rest).
  { rewrite Hrest. unfold py_len. rewrite Nat2Z.id. apply drop_app_length. }
  destruct (can_extend (os_data s) data) eqn:Hext; injection Hf as <- <-; cbn -[py_len drop]; (split_and!; [done..|]).
  - exists data. rewrite Hdrop. (split_and!; [done..| |intros _ Hne; by apply Hnone]).
    intros [Hb%Z.eqb_eq _]%negb_false_iff%andb_true_iff. exfalso.
    assert (Hdata : data = []) by (apply nil_length_inv; unfold py_len in Hb; lia). rewrite Hdata in Hrest. cbn in Hrest.
    assert (Hlim : limit = Some (py_len data)) by (apply Hnone; congruence). apply Hl in Hlim. lia.
  - exists []. rewrite app_nil_r. change (Z.to_nat 0) with 0%nat. rewrite drop_0, !Z.eqb_refl.
    split_and!; try done; [intros l Hlim%Hl; unfold py_len; cbn; lia|by eexists _, _].
Qed.

Lemma drained_trans r1 r2 p s p1 s1 p2 s2 :
  drained r1 p s p1 s1 -> drained r2 p1 s1 p2 s2 -> drained (Z.max 0 r1 + Z.max 0 r2) p s p2 s2.
Proof.
  intros [Hb Hp (m & Hm & Hl)] [Hb2 Hp2 (m2 & Hm2 & Hl2)]. split; [congruence|congruence|].
  exists (m ++ m2). rewrite Hm2, Hm, app_assoc. split; [done|]. unfold py_len in *. rewrite length_app. lia.
Qed.

Lemma drained_le r r' p s p' s' : Z.max 0 r <= Z.max 0 r' -> drained r p s p' s' -> drained r' p s p' s'.
Proof. intros Hr [Hb Hp (m & Hm & Hl)]. split; [done|done|]. exists m. split; [done|lia]. Qed.

(** A flush moves bytes from the retained ones to the buffer. *)
Lemma flush_drained p s limit s' b room :
  _flush_pending s limit = (s', b) -> (forall l, limit = Some l -> 0 < l <= room) ->
  (limit = None -> py_len (os_pending s) <= room) -> drained room p s p s'.
Proof.
  intros Hf Hl Hn. apply flush_pending_spec in Hf as (Hp & _ & _ & more & Hd & Hm & Hle & _ & _);
    [|intros l ->; by apply Hl].
  split; [unfold all_bytes; by rewrite Hd, Hm, <- !app_assoc|done|]. exists more. split; [done|].
  destruct limit as [l|].
  - specialize (Hl l eq_refl). specialize (Hle l eq_refl). lia.
  - specialize (Hn eq_refl). rewrite Hm in Hn. unfold py_len in *. rewrite length_app in Hn. lia.
Qed.

Section laws.
Context `{!PipeLaws P}.

(** The buffer could not be extended, or the pipe could not be read. *)
Definition failed (p : P) : Prop :=
  (exists d m, can_extend d m = false) \/ exists n p', os_read p n = (ReadFailed, p').

(** What every drain establishes: nothing lost within the room, and an end
    of file only at the end of the pipe with nothing retained. *)
Definition drain_post (room : Z) (p : P) (s : OutputStream) (r : OutputStream * drain_status * P) : Prop :=
  let '(s', st, p') := r in
  drained room p s p' s' /\ at_end p' s' /\ closed_read p' s' /\ (st = d_eof <-> os_eof s' = true)
  /\ (st = d_full -> room <= py_len (os_data s') - py_len (os_data s)) /\ (st = d_error -> failed p).

(** Reading nothing. *)
Lemma idle_post room p s st p' :
  unread p' = unread p -> at_end p s -> closed_read p s -> (st = d_eof <-> os_eof s = true) ->
  (st = d_full -> room <= 0) -> (st = d_error -> failed p) -> drain_post room p s (s, st, p').
Proof.
  intros Hu He Hc Hst Hf Hx. unfold drain_post, at_end, closed_read in *. rewrite !Hu. split_and!; try done.
  - split; [unfold all_bytes; by rewrite Hu|done|]. exists []. rewrite app_nil_r. split; [done|]. unfold py_len. cbn. lia.
  - intros H'%Hf. lia.
Qed.

Lemma read_post p s room fd :
  os_fd s = Some fd -> os_pending s = [] -> os_eof s = false -> 0 < room ->
  drain_post room p s (_read_capture_chunk p s room).
Proof.
  intros Hfd Hp He Hr. unfold _read_capture_chunk. rewrite Hfd.
  assert (Hend : at_end p s) by (intros ?; congruence). assert (Hc : closed_read p s) by (intros ?; congruence).
  destruct (os_read p (Z.min room DRAIN_CHUNK)) as [[| |[|x d]] p'] eqn:Hread.
  - apply idle_post; try done; [by eapply read_none|split; [done|congruence]].
  - apply idle_post; try done; [by eapply read_none|split; [done|congruence]|]. intros _. right. eauto.
  - assert (Hmin : 0 < Z.min room DRAIN_CHUNK) by (unfold DRAIN_CHUNK; lia). pose proof (read_closed _ _ _ Hmin Hread) as Hu. apply read_some in Hread as [Hsome _]; [|unfold DRAIN_CHUNK; lia]. rewrite Hu in Hsome.
    destruct (unread p') as [|] eqn:Hu'; [|done]. unfold _finish_capture_stream. cbn [close_fd os_pending]. rewrite Hp.
    split; [split; [unfold all_bytes; cbn; by rewrite Hu, Hu'|done|]|].
    + exists []. rewrite app_nil_r. split; [done|]. unfold py_len. cbn. lia.
    + unfold at_end, closed_read. cbn. by rewrite Hu'.
  - apply read_some in Hread as [Hu Hlen]; [|unfold DRAIN_CHUNK; lia]. destruct (_flush_pending _ _) as [s' b] eqn:Hf.
    pose proof Hf as Hf2. apply flush_pending_spec in Hf2 as (_ & Hfd' & He' & _ & _ & _ & _ & Hfail & _); [|done].
    apply (flush_drained p' _ _ _ _ room) in Hf; [|done|cbn; rewrite Hp; cbn; lia].
    cbn in Hfd', He'. destruct Hf as [Hb Hpub Hm]. split; [split; [|done|done]|split_and!].
    + rewrite Hb. unfold all_bytes. cbn. by rewrite Hp, Hu.
    + intros ?; congruence.
    + intros ?; congruence.
    + rewrite He', He. by destruct b.
    + by destruct b.
    + intros Hb'. left. apply Hfail. by destruct b.
Qed.

Lemma fresh_post p s bound used :
  os_pending s = [] -> os_eof s = false -> closed_read p s ->
  drain_post (bound - used) p s (drain_fresh p s bound used).
Proof.
  intros Hp He Hc. unfold drain_fresh. destruct (os_fd s) as [fd|] eqn:Hfd.
  - assert (Hend : at_end p s) by (intros ?; congruence). destruct (Z.leb_spec (Z.max 0 (bound - used)) 0).
    + apply idle_post; try done; [split; [done|congruence]|lia].
    + replace (bound - used) with (Z.max 0 (bound - used)) at 1 by lia. eapply read_post; [done|done|done|lia].
  - specialize (Hc Hfd). split; [|split_and!; unfold at_end, closed_read; cbn; done].
    destruct (drained_refl (bound - used) p s) as [? ? ?]. by split.
Qed.

Lemma drain_ok p s bound used :
  at_end p s -> closed_read p s -> drain_post (bound - used) p s (drain_capture_stream p s bound (Some used)).
Proof.
  intros Hend Hc. unfold drain_capture_stream. destruct (os_eof s) eqn:He; [by apply idle_post|].
  change (default (py_len (os_data s)) (Some used)) with used.
  destruct (os_pending s) as [|x r] eqn:Hp; [by apply fresh_post|].
  unfold _retry_pending_flush. destruct (Z.leb_spec (Z.max 0 (bound - used)) 0) as [|Hroom].
  { apply idle_post; try done; [split; [done|congruence]|lia]. }
  replace (Z.max 0 (bound - used)) with (bound - used) by lia.
  destruct (_flush_pending s (Some (bound - used))) as [s1 b] eqn:Hf. pose proof Hf as Hf2.
  apply flush_pending_spec in Hf2 as (_ & Hfd1 & He1 & more & Hd & Hm & Hle & Hfail & Hall); [|intros ? [= <-]; lia].
  pose proof (flush_drained p _ _ _ _ (bound - used) Hf ltac:(intros ? [= <-]; lia) ltac:(done)) as Hdr.
  assert (Hc1 : closed_read p s1) by (unfold closed_read; by rewrite Hfd1).
  assert (Hgrow : py_len (os_data s1) = py_len (os_data s) + py_len more) by (rewrite Hd; unfold py_len; rewrite length_app; lia).
  destruct b; cbn [negb].
  2: { split; [done|split_and!]; [intros ?; congruence|done|split; [done|congruence]|done|intros _; left; by apply Hfail]. }
  destruct (os_pending s1) as [|y r1] eqn:Hp1.
  2: { specialize (Hall eq_refl ltac:(congruence)). injection Hall as Hall.
       split; [done|split_and!]; [intros ?; congruence|done|split; [done|congruence]|lia|done]. }
  rewrite app_nil_r in Hm. specialize (Hle _ eq_refl). rewrite <- Hm in Hle, Hgrow.
  assert (Hpost := fresh_post p s1 bound (used + py_len (os_pending s)) Hp1 ltac:(congruence) Hc1).
  destruct (drain_fresh p s1 bound (used + py_len (os_pending s))) as [[s2 st] p2].
  destruct Hpost as (Hd2 & He2 & Hc2 & Hst & Hfull & Herr).
  assert (Hd1 : drained (py_len (os_pending s)) p s p s1).
  { destruct Hdr as [? ? _]. split; [done|done|]. exists more. rewrite Hm. split; [congruence|lia]. }
  pose proof (py_len_nonneg (os_pending s)).
  split; [|split_and!; try done; intros Hx%Hfull; lia].
  eapply drained_le; [|exact (drained_trans _ _ _ _ _ _ _ _ Hd1 Hd2)]. lia.
Qed.

(** ** The job's spool *)

(** Both streams of a job, with their pipes. *)
Definition job_ok (ps : stream_name -> P) (job : ActiveJob) : Prop :=
  forall n, at_end (ps n) (job_stream job n) /\ closed_read (ps n) (job_stream job n).

(** Bytes still accounted for, per stream. *)
Definition job_bytes (ps : stream_name -> P) (job : ActiveJob) (n : stream_name) : pybytes :=
  all_bytes (ps n) (job_stream job n).

Lemma job_stream_set job n s n' :
  job_stream (set_stream job n s) n' = if decide (n' = n) then s else job_stream job n'.
Proof. by destruct n, n'. Qed.

Lemma used_set job n s :
  _spool_used_bytes (set_stream job n s) = _spool_used_bytes job - py_len (os_data (job_stream job n)) + py_len (os_data s).
Proof. unfold _spool_used_bytes, stream_size. destruct n; cbn; lia. Qed.

Lemma job_stream_evict job n : job_stream (evict job) n = job_stream job n.
Proof. by destruct n. Qed.

(** What a step of a job keeps. *)
Record job_step (bound : Z) (ps : stream_name -> P) (job : ActiveJob) (ps' : stream_name -> P) (job' : ActiveJob) : Prop := {
  js_ok : job_ok ps' job';
  js_bytes : forall n, job_bytes ps' job' n = job_bytes ps job n;
  js_publication : forall n, publication (job_stream job' n) = publication (job_stream job n);
  js_bound : _spool_used_bytes job' <= Z.max (_spool_used_bytes job) bound;
}.

Lemma job_step_refl bound ps job : job_ok ps job -> job_step bound ps job ps job.
Proof. intros H'. split; try done. lia. Qed.

Lemma job_step_trans bound ps job ps1 job1 ps2 job2 :
  job_step bound ps job ps1 job1 -> job_step bound ps1 job1 ps2 job2 -> job_step bound ps job ps2 job2.
Proof.
  intros [Ho Hb Hp Hl] [Ho2 Hb2 Hp2 Hl2]. split; [done|..]; [intros n; congruence|intros n; congruence|lia].
Qed.

Lemma job_step_evict bound ps job ps' job' : job_step bound ps job ps' job' -> job_step bound ps job ps' (evict job').
Proof.
  intros [Ho Hb Hp Hl]. split; [|..|done]; unfold job_ok, job_bytes; intros n; rewrite !job_stream_evict;
    [apply Ho|apply Hb|apply Hp].
Qed.

(** One drain against the room the whole job has left. *)
Lemma drain_job_step ps job n bound s st p :
  job_ok ps job -> drain_capture_stream (ps n) (job_stream job n) bound (Some (_spool_used_bytes job)) = (s, st, p) ->
  job_step bound ps job (set_pipe ps n p) (set_stream job n s).
Proof.
  intros Hok Hd. destruct (Hok n) as [Hend Hc]. pose proof (drain_ok (ps n) (job_stream job n) bound (_spool_used_bytes job) Hend Hc) as Hp.
  rewrite Hd in Hp. destruct Hp as ([Hb Hpub (more & Hm & Hl)] & He & Hcl & _).
  split; unfold job_ok, job_bytes, set_pipe.
  - intros n'. rewrite job_stream_set. by case_decide; subst.
  - intros n'. rewrite job_stream_set. by case_decide; subst.
  - intros n'. rewrite job_stream_set. by case_decide; subst.
  - rewrite used_set, Hm. unfold py_len in *. rewrite length_app. lia.
Qed.

Lemma drain_active_step ps job n bound job' stop ps' :
  job_ok ps job -> _drain_active_stream ps job n bound = (job', stop, ps') -> job_step bound ps job ps' job'.
Proof.
  unfold _drain_active_stream. intros Hok Hd.
  destruct (drain_capture_stream _ _ _ _) as [[s st] p] eqn:Hdr. apply drain_job_step in Hdr; [|done].
  case_decide; injection Hd as <- <- <-; [by apply job_step_evict|done].
Qed.

Lemma drain_completed_step names bound : forall ps job progress job' stop progress' ps',
  job_ok ps job -> drain_completed ps job names bound progress = (job', stop, progress', ps') ->
  job_step bound ps job ps' job'.
Proof.
  induction names as [|n names IH]; intros ps job progress job' stop progress' ps' Hok Hd; cbn [drain_completed] in Hd.
  { injection Hd as <- <- <- <-. by apply job_step_refl. }
  destruct (_ || _); [by eapply IH|].
  destruct (drain_capture_stream _ _ _ _) as [[s st] p] eqn:Hdr. apply drain_job_step in Hdr; [|done].
  case_decide; [injection Hd as <- <- <- <-; by apply job_step_evict|].
  eapply job_step_trans; [exact Hdr|]. eapply IH; [apply Hdr|exact Hd].
Qed.
End laws.
End drain.

(** ** A pipe *)

(** A pipe whose writer has closed it after writing [kp_bytes]; each read
    returns as much as it is asked for. *)
Record closed_pipe := mkPipe { kp_bytes : pybytes }.

#[export] Instance closed_pipe_pipe : Pipe closed_pipe := {
  os_read p n := (ReadBytes (take (Z.to_nat n) (kp_bytes p)), mkPipe (drop (Z.to_nat n) (kp_bytes p)));
  unread := kp_bytes;
}.

#[export] Instance closed_pipe_laws : PipeLaws closed_pipe.
Proof.
  split; cbn; intros p n.
  - intros d p' Hn [= <- <-]. cbn. split; [by rewrite take_drop|]. unfold py_len. rewrite length_take. lia.
  - intros o p' [= <- <-] Hd. by destruct (Hd (take (Z.to_nat n) (kp_bytes p))).
  - intros p' Hn [= He _]. destruct (kp_bytes p) as [|x l]; [done|].
    destruct (Z.to_nat n) eqn:Hz; [lia|]. done.
Qed.

(** C37: Draining loses and reorders nothing.  Whatever the pipe and the buffer
    do, the bytes buffered, retained and still unread are the same before and
    after; the buffer only grows, by at most the room left under the bound; the
    publication state is untouched.  End of file is reported exactly when it is
    recorded, and only with the pipe exhausted and nothing retained; "full" only
    when no room is left; "error" only when a read or an extension failed. *)
Theorem drain_conserves `{PipeLaws P} can_extend p s bound used s' st p' :
  at_end p s -> closed_read p s -> drain_capture_stream can_extend p s bound (Some used) = (s', st, p') ->
  os_data s' ++ os_pending s' ++ unread p' = os_data s ++ os_pending s ++ unread p
  /\ (exists more, os_data s' = os_data s ++ more /\ py_len more <= Z.max 0 (bound - used))
  /\ publication s' = publication s
  /\ (st = d_eof <-> os_eof s' = true)
  /\ (os_eof s' = true -> os_pending s' = [] /\ unread p' = [] /\ os_fd s' = None)
  /\ (st = d_full -> bound <= used + (py_len (os_data s') - py_len (os_data s)))
  /\ (st = d_error -> (exists d m, can_extend d m = false) \/ exists k q, os_read p k = (ReadFailed, q)).
Proof.
  intros He Hc Hd. pose proof (drain_ok can_extend p s bound used He Hc) as Hp. rewrite Hd in Hp.
  destruct Hp as ([Hb Hpub Hm] & He' & _ & Hst & Hfull & Herr).
  split_and!; try done. intros Hx%Hfull. lia.
Qed.

Lemma drain_conserves_witness :
  let s := mkStream [1; 2] (Some 5) false [3; 4] 0 0 (SpecFloat.S754_zero false) 0 None 0 [] 0 0 in
  exists s' st p',
    drain_capture_stream (fun _ _ => true) (mkPipe [5; 6; 7]) s 6 (Some 2) = (s', st, p')
    /\ st = d_ok /\ os_data s' = [1; 2; 3; 4; 5; 6] /\ unread p' = [7]
    /\ os_data s' ++ os_pending s' ++ unread p' = [1; 2; 3; 4; 5; 6; 7].
Proof.
  intros s. do 3 eexists. split; [vm_compute; reflexivity|]. split; [reflexivity|]. split; [reflexivity|].
  split; [reflexivity|].
  refine (proj1 (drain_conserves (fun _ _ => true) (mkPipe [5; 6; 7]) s 6 2 _ d_ok (mkPipe [7]) _ _ _)).
  - intros H. discriminate H.
  - intros H. discriminate H.
  - vm_compute. reflexivity.
Defined.
