(* ===== verification/OutputTheorems.v ===== *)
(** What captured output guarantees: truncated text and published windows fit
    their limits, boundaries never split a code point, and the chunks of a
    stream form a contiguous, linked archive. *)

From S2P Require Import Prelude PyStr PyNum Json JsonFacts Uuid Protocol Output OutputFacts.

#[local] Arguments py : simpl never.

(** ** Truncation *)

(** The newest [n] bytes. *)
Definition newest (data : pybytes) (n : Z) : pybytes := drop (length data - Z.to_nat n) data.

Lemma newest_py_from data n :
  0 <= n <= py_len data -> (if 0 <? n then py_from data (- n) else []) = newest data n.
Proof.
  unfold py_len, newest. intros Hn. destruct (Z.ltb_spec 0 n).
  - unfold py_from, py_slice. replace (- n <? 0) with true by lia. replace (Z.of_nat (length data) <? 0) with false by lia.
    rewrite Z.min_id. rewrite take_ge; [f_equal; lia|]. rewrite length_drop. lia.
  - rewrite drop_ge; [done|lia].
Qed.

(** [text] is the longest suffix of [body] whose encoding takes at most [limit] bytes. *)
Definition longest_suffix (body text : pystr) (limit : Z) : Prop :=
  exists d, text = drop d body /\ str_len8 text <= limit
    /\ forall k, (k < d)%nat -> limit < str_len8 (drop k body).

Lemma drop_until_longest body head limit :
  scalar_str (head ++ body) -> str_len8 head <= limit -> limit < str_len8 (head ++ body) ->
  exists j, drop_until (length (head ++ body)) (head ++ body) limit (str_len8 (head ++ body)) (py_len head) = Ok j
    /\ longest_suffix body (py_from (head ++ body) j) (limit - str_len8 head).
Proof.
  intros Hs Hh Hl. rewrite str_len8_app in Hl |- *.
  assert (Hd : forall k, py_len head <= k -> drop (Z.to_nat k) (head ++ body) = drop (Z.to_nat k - length head) body).
  { unfold py_len. intros k Hk. rewrite drop_app. rewrite drop_ge by lia. done. }
  assert (Hp : drop (Z.to_nat (py_len head)) (head ++ body) = body).
  { rewrite Hd by done. unfold py_len. rewrite Nat2Z.id, Nat.sub_diag. apply drop_0. }
  destruct (drop_until_spec (length (head ++ body)) (head ++ body) limit (str_len8 head) (py_len head))
    as (j & Hj & Hij & Hfit & Hmin); [done|done|unfold py_len; lia|lia|].
  rewrite Hp in Hj. exists j. split; [done|]. pose proof (py_len_nonneg head).
  exists (Z.to_nat j - length head)%nat. rewrite py_from_nonneg, Hd by lia. rewrite Hd in Hfit by lia.
  split_and!; [done|lia|]. intros k Hk.
  specialize (Hmin (py_len head + Z.of_nat k) ltac:(unfold py_len in *; lia)). rewrite Hd in Hmin by (unfold py_len; lia).
  replace (Z.to_nat (py_len head + Z.of_nat k) - length head)%nat with k in Hmin by (unfold py_len; lia). lia.
Qed.

Lemma py_slice_head {A} (head body : list A) : py_slice (head ++ body) 0 (py_len head) = head.
Proof.
  pose proof (py_len_nonneg head). rewrite py_slice_nonneg by lia. cbn. rewrite drop_0, Nat.sub_0_r.
  unfold py_len. rewrite Nat2Z.id. apply take_app_length.
Qed.

(** The marker keeps its place and the rest is the longest suffix that fits. *)
Lemma truncate_step head body limit :
  scalar_str (head ++ body) -> str_len8 head <= limit ->
  exists text,
    (encoded_len ← utf8_byte_length (head ++ body);
     if limit <? encoded_len then
       index ← drop_until (length (head ++ body)) (head ++ body) limit encoded_len (py_len head);
       Ok (py_slice (head ++ body) 0 (py_len head) ++ py_from (head ++ body) index)
     else Ok (head ++ body)) = Ok (head ++ text)
    /\ longest_suffix body text (limit - str_len8 head).
Proof.
  intros Hs Hh. rewrite utf8_byte_length_scalar by done. cbn [mbind res_bind].
  destruct (Z.ltb_spec limit (str_len8 (head ++ body))) as [Hl|Hl].
  - destruct (drop_until_longest body head limit Hs Hh Hl) as (j & -> & Hj). cbn [mbind res_bind].
    rewrite py_slice_head. by eexists.
  - exists body. split; [done|]. exists 0%nat. rewrite str_len8_app in Hl. split_and!; [by rewrite drop_0|lia|lia].
Qed.

Lemma longest_suffix_clean raw text limit :
  bytes_ok raw -> longest_suffix (pg_safe_decode raw) text limit -> scalar_str text /\ ~ In 0 text.
Proof.
  intros Hok (d & -> & _). split; [by apply Forall_drop, pg_scalar|].
  intros Hin. apply (pg_no_nul raw). rewrite <- (take_drop d (pg_safe_decode raw)). apply in_or_app. by right.
Qed.

Lemma longest_suffix_all body text limit : longest_suffix body text limit -> str_len8 body <= limit -> text = body.
Proof.
  intros (d & -> & _ & Hmin) Hb. destruct d as [|d]; [by rewrite drop_0|].
  specialize (Hmin 0%nat ltac:(lia)). rewrite drop_0 in Hmin. lia.
Qed.

(** [truncate_output] never fails for a limit of at least the marker's 28
    bytes, and refuses a smaller one with [ValueError].  Its text encodes to at
    most [limit] bytes, holds no NUL and no surrogate, and is: for data within
    the limit, the longest suffix of the decoded data that fits (all of it when
    it fits); otherwise the marker followed by the longest suffix that fits of
    the decoded newest [limit - 28] bytes. *)
Theorem truncation_bounded data limit :
  bytes_ok data ->
  (limit < 28 -> truncate_output data limit = Raise ValueError)
  /\ (28 <= limit -> exists text, truncate_output data limit = Ok text
      /\ str_len8 text <= limit /\ scalar_str text /\ ~ In 0 text
      /\ (py_len data <= limit -> longest_suffix (pg_safe_decode data) text limit)
      /\ (decoded_length data <= limit -> text = pg_safe_decode data)
      /\ (limit < py_len data -> exists body, text = TRUNCATION_MARKER ++ body
            /\ longest_suffix (pg_safe_decode (newest data (limit - 28))) body (limit - 28))).
Proof.
  intros Hok. change 28 with (py_len TRUNCATION_MARKER). pose proof (py_len_nonneg TRUNCATION_MARKER) as Hm0.
  split; intros Hlim; unfold truncate_output.
  { by replace (limit <? py_len TRUNCATION_MARKER) with true by lia. }
  replace (limit <? py_len TRUNCATION_MARKER) with false by lia.
  destruct (Z.ltb_spec limit (py_len data)) as [Hlt|Hge].
  - rewrite newest_py_from by lia. rewrite marker_decode.
    set (raw := newest data (limit - py_len TRUNCATION_MARKER)).
    assert (Hraw : bytes_ok raw) by (by apply bytes_ok_drop).
    destruct (truncate_step TRUNCATION_MARKER (pg_safe_decode raw) limit) as (text & Ht & Hs).
    + rewrite <- marker_decode. apply pg_scalar, Forall_app_2; [|done].
      eapply Forall_impl; [apply marker_ascii|]. cbn. lia.
    + exact Hlim.
    + change (str_len8 TRUNCATION_MARKER) with (py_len TRUNCATION_MARKER) in Hs.
      destruct (longest_suffix_clean _ _ _ Hraw Hs) as [Hsc Hn]. exists (TRUNCATION_MARKER ++ text).
      split; [exact Ht|]. split_and!; try done; try lia.
      * rewrite str_len8_app. change (str_len8 TRUNCATION_MARKER) with (py_len TRUNCATION_MARKER).
        destruct Hs as (? & ? & ? & ?). lia.
      * apply Forall_app_2; [|done]. apply (bool_decide_unpack _). vm_compute. exact I.
      * intros [Hm|?]%in_app_or; [|done]. vm_compute in Hm. intuition lia.
      * intros Hd. pose proof (pg_nonshrink data Hok). lia.
      * intros _. by exists text.
  - destruct (truncate_step [] (pg_safe_decode data) limit) as (text & Ht & Hs);
      [by apply pg_scalar|change (str_len8 []) with 0; lia|].
    change (limit - str_len8 []) with (limit - 0) in Hs. rewrite Z.sub_0_r in Hs.
    destruct (longest_suffix_clean _ _ _ Hok Hs) as [Hsc Hn].
    exists text. split; [exact Ht|]. split_and!; try done; try lia.
    + by destruct Hs as (? & ? & ? & ?).
    + intros Hd. by eapply longest_suffix_all.
Qed.

Lemma truncation_bounded_witness :
  bytes_ok (repeat 255 40)
  /\ exists text, truncate_output (repeat 255 40) 34 = Ok text /\ str_len8 text <= 34
     /\ text = TRUNCATION_MARKER ++ [0xFFFD; 0xFFFD].
Proof.
  assert (Hok : bytes_ok (repeat 255 40)) by (apply (bool_decide_unpack _); vm_compute; exact I).
  split; [exact Hok|].
  destruct (proj2 (truncation_bounded (repeat 255 40) 34 Hok) ltac:(lia)) as (text & Ht & Hlen & _).
  exists text. split; [exact Ht|]. split; [exact Hlen|].
  assert (He : Ok text = Ok (TRUNCATION_MARKER ++ [0xFFFD; 0xFFFD])) by (rewrite <- Ht; vm_compute; reflexivity).
  by injection He.
Defined.

(** ** Alignment *)

(** Both alignments find the same code point. *)
Lemma align_end_start data c :
  0 <= c <= py_len data ->
  align_code_point_end data c = c
  \/ _valid_code_point_at data (align_code_point_end data c)
       (align_code_point_start data c - align_code_point_end data c) = true.
Proof.
  intros Hc. unfold align_code_point_end, align_code_point_start.
  destruct (Z.leb_spec c 0); [left; lia|]. destruct (Z.leb_spec (py_len data) c); [left; lia|].
  destruct (enclosing data c [1; 2; 3]) as [[l len]|] eqn:He; [right|by left].
  apply enclosing_Some in He as (Hv & _); [|lia]. by replace (l + len - l) with len by lia.
Qed.

(** Both alignments move an offset within the data by at most three bytes,
    backward or forward, to an offset that splits no code point, and leave
    exactly the offsets that split none where they are; what the start
    alignment skips is the rest of one code point, and aligning twice changes
    nothing. *)
Theorem alignment_exact data c :
  0 <= c <= py_len data ->
  let lo := align_code_point_end data c in
  let hi := align_code_point_start data c in
  (0 <= lo <= c /\ c - 3 <= lo) /\ (c <= hi <= py_len data /\ hi <= c + 3)
  /\ ~ inside data lo /\ ~ inside data hi
  /\ (~ inside data c <-> lo = c) /\ (~ inside data c <-> hi = c)
  /\ (lo < c -> _valid_code_point_at data lo (hi - lo) = true)
  /\ align_code_point_end data lo = lo /\ align_code_point_start data hi = hi.
Proof.
  intros Hc lo hi.
  destruct (align_end_spec data c Hc) as (Hlo & Hlo3 & Hnlo & Hlo'), (align_start_spec data c Hc) as (Hhi & Hhi3 & Hnhi & Hhi').
  fold lo hi in Hlo, Hlo3, Hnlo, Hlo', Hhi, Hhi3, Hnhi, Hhi'.
  assert (Hhic : inside data c -> c < hi).
  { intros Hin. destruct Hhi' as [[_ ?]|(l & _ & ?)]; [done|lia]. }
  split_and!; try done; try lia.
  - split; [by intros; destruct Hlo'|intros He; by rewrite <- He].
  - split; [intros Hn; destruct Hhi' as [[? _]|(l & Hv & Hl)]; [done|]|intros He; by rewrite <- He].
    exfalso. apply Hn. exists l, (hi - l). split; [done|lia].
  - intros Hlt. destruct (align_end_start data c Hc) as [Heq|Hv]; [fold lo in Heq; lia|exact Hv].
  - apply align_end_fixed; [lia|done].
  - destruct (align_start_spec data hi ltac:(lia)) as (_ & _ & _ & [[? _]|(l & Hv & Hl)]); [done|].
    exfalso. apply Hnhi. eexists l, _. split; [exact Hv|lia].
Qed.

Lemma alignment_exact_witness :
  0 <= 2 <= py_len [65; 0xF0; 0x9F; 0x98; 0x80; 66]
  /\ align_code_point_end [65; 0xF0; 0x9F; 0x98; 0x80; 66] 2 = 1
  /\ align_code_point_start [65; 0xF0; 0x9F; 0x98; 0x80; 66] 2 = 5
  /\ ~ inside [65; 0xF0; 0x9F; 0x98; 0x80; 66] 1.
Proof.
  assert (Hr : 0 <= 2 <= py_len [65; 0xF0; 0x9F; 0x98; 0x80; 66]) by (unfold py_len; cbn; lia).
  split; [exact Hr|]. split; [reflexivity|]. split; [reflexivity|].
  destruct (alignment_exact [65; 0xF0; 0x9F; 0x98; 0x80; 66] 2 Hr) as (_ & _ & Hn & _). exact Hn.
Defined.

(** ** The archive *)

Lemma py_slice_clip {A} (l : list A) a b : 0 <= b -> py_slice l a b = py_slice l a (Z.min b (py_len l)).
Proof.
  intros Hb. unfold py_slice, py_len. cbv zeta. replace (b <? 0) with false by lia.
  replace (Z.min b (Z.of_nat (length l)) <? 0) with false by (symmetry; apply Z.ltb_ge; lia).
  by replace (Z.min (Z.min b (Z.of_nat (length l))) (Z.of_nat (length l))) with (Z.min b (Z.of_nat (length l))) by lia.
Qed.

(** A stream that has captured a prefix of [total]: the buffer holds the bytes
    from [os_spool_start] on, everything before [os_archived_upto] is archived,
    and archiving stopped at a boundary that later bytes cannot turn into the
    middle of a code point. *)
Record stream_ok (total : pybytes) (s : OutputStream) : Prop := {
  so_bytes : bytes_ok total;
  so_printable : printable (py_len total);
  so_start : 0 <= os_spool_start s;
  so_end : stream_end s <= py_len total;
  so_data : os_data s = py_slice total (os_spool_start s) (stream_end s);
  so_archived : os_spool_start s <= os_archived_upto s <= stream_end s;
  so_boundary : boundary s (os_archived_upto s);
  so_settled : os_archived_upto s = os_spool_start s \/ os_archived_upto s + 3 <= stream_end s;
  so_sequence : 0 <= os_sequence s <= os_archived_upto s;
  so_last : uuid_ok (os_last_chunk s);
}.

Lemma stream_ok_bytes total s : stream_ok total s -> bytes_ok (os_data s).
Proof. intros Hs. rewrite (so_data _ _ Hs). apply bytes_ok_slice, (so_bytes _ _ Hs). Qed.

Lemma logical_total total s a b :
  stream_ok total s -> os_spool_start s <= a <= b -> b <= stream_end s -> logical s a b = py_slice total a b.
Proof.
  intros Hs Ha Hb. unfold logical. rewrite (so_data _ _ Hs). pose proof (so_start _ _ Hs).
  rewrite py_slice_slice by lia. f_equal; lia.
Qed.

(** The stored text is the chunk of the bytes of [total] from [start] to [stop]. *)
Definition chunk_of (server : pystr) (thread : Z) (name : pystr) (total : pybytes)
    (text : pystr) (sequence start stop : Z) (previous : option Z) : Prop :=
  0 <= start < stop /\ stop - start <= OUTPUT_CHUNK_MAX_BYTES /\ stop <= py_len total
  /\ parse_chunk_payload (JStr text)
     = Ok (mkChunk server thread name sequence start stop (pg_safe_decode (py_slice total start stop)) previous).

(** The chunks from offset [from] to [upto]: each starts where the one before
    it ends, names it as its predecessor and has the next sequence number. *)
Inductive chain (server : pystr) (thread : Z) (name : pystr) (total : pybytes) (from : Z) (first : option Z) (seq0 : Z)
    : list (Z * pystr) -> Z -> option Z -> Z -> Prop :=
  | chain_nil : chain server thread name total from first seq0 [] from first seq0
  | chain_snoc cs upto last seq id text stop :
      chain server thread name total from first seq0 cs upto last seq ->
      chunk_of server thread name total text seq upto stop last -> uuid_ok (Some id) ->
      chain server thread name total from first seq0 (cs ++ [(id, text)]) stop (Some id) (seq + 1).

Lemma chain_app server thread name total from first seq0 cs u l q cs' u' l' q' :
  chain server thread name total from first seq0 cs u l q -> chain server thread name total u l q cs' u' l' q' ->
  chain server thread name total from first seq0 (cs ++ cs') u' l' q'.
Proof.
  intros H1 H2. induction H2 as [|cs' u2 l2 q2 id text stop _ IH Hc Hu]; [by rewrite app_nil_r|].
  rewrite app_assoc. by econstructor.
Qed.

Section archive.
Context (uuid4 : nat -> Z) (thread : Z) (name : pystr) (total : pybytes) (s : OutputStream) (server : pystr).
Let version := PROTOCOL_VERSION.
Context (Hsupply : forall n, uuid_ok (Some (uuid4 n))).
Context (Hserver : str_ok server) (Hne : server <> []) (Hname : In name CHUNK_STREAMS) (Hthread : uuid_ok (Some thread)).
Context (Hs : stream_ok total s).

(** What both loops keep true. *)
Record archive_ok (a : archive) : Prop := {
  ao_chain : chain server thread name total (os_archived_upto s) (os_last_chunk s) (os_sequence s)
               (ar_chunks a) (ar_upto a) (ar_last a) (ar_sequence a);
  ao_range : os_archived_upto s <= ar_upto a <= stream_end s;
  ao_boundary : boundary s (ar_upto a);
  ao_last : uuid_ok (ar_last a);
  ao_sequence : 0 <= ar_sequence a <= ar_upto a;
}.

(** The end the source aligns in a neighbourhood is the aligned end. *)
Lemma neighborhood_align candidate :
  0 <= candidate <= stream_size s ->
  Z.max 0 (candidate - 3)
  + align_code_point_end (read_range s (Z.max 0 (candidate - 3)) (candidate + 4)) (candidate - Z.max 0 (candidate - 3))
  = align_code_point_end (os_data s) candidate.
Proof.
  unfold stream_size, read_range. intros Hc. rewrite py_slice_clip by lia.
  rewrite align_end_context by lia. f_equal. lia.
Qed.

(** A chunk that fits is built, and extends the chain. *)
Lemma emit_payload a stop :
  archive_ok a -> ar_upto a < stop <= stream_end s -> boundary s stop ->
  decoded_length (logical s (ar_upto a) stop) <= OUTPUT_CHUNK_MAX_BYTES ->
  exists d text,
    build_output_chunk_payload (JStr server) thread (JStr name) (ar_sequence a) (ar_upto a) stop
      (pg_safe_decode (logical s (ar_upto a) stop)) (ar_last a) (JInt version) = Ok d
    /\ json_dumps (JObj d) = Ok text
    /\ archive_ok (mkArchive (ar_chunks a ++ [(uuid4 (ar_drawn a), text)]) stop (Some (uuid4 (ar_drawn a)))
         (ar_sequence a + 1) (S (ar_drawn a))).
Proof.
  intros [Hch Hr Hb Hl Hq] Hstop Hbs Hfit. destruct Hs as [Hok Hpr HS Hend Hdata HA _ _ HQ _].
  assert (Hbytes : bytes_ok (logical s (ar_upto a) stop)).
  { apply bytes_ok_slice. by eapply stream_ok_bytes. }
  assert (Hlen : py_len (logical s (ar_upto a) stop) = stop - ar_upto a).
  { unfold logical. rewrite py_slice_len; [lia|lia|]. unfold stream_end, stream_size in *. lia. }
  pose proof (pg_nonshrink _ Hbytes) as Hns. pose proof (pg_scalar _ Hbytes) as Hsc.
  assert (Hsp : stop - ar_upto a <= OUTPUT_CHUNK_MAX_BYTES) by lia.
  destruct (chunk_builds server thread name (ar_sequence a) (ar_upto a) stop
    (pg_safe_decode (logical s (ar_upto a) stop)) (ar_last a)) as (d & text & Hd & Ht);
    [exact Hne|exact Hname|eapply printable_le; [|exact Hpr]; lia|lia|eapply printable_le; [|exact Hpr]; lia
    |exact Hsp|exact Hsc|exact Hfit|].
  - exists d, text. split; [exact Hd|]. split; [exact Ht|]. split; cbn [ar_upto ar_last ar_sequence]; try lia.
    + econstructor; [exact Hch| |apply Hsupply]. split; [lia|]. split; [exact Hsp|].
      split; [lia|]. rewrite <- (logical_total total s) by (done || lia).
      eapply chunk_reads_back; [exact Hserver|by apply scalar_str_wf|exact Hthread|exact Hl|exact Hd|exact Ht].
    + exact Hbs.
    + apply Hsupply.
Qed.

Lemma emit_chunk_ok a candidate :
  archive_ok a -> 0 <= candidate <= stream_size s ->
  ar_upto a - os_spool_start s < align_code_point_end (os_data s) candidate ->
  exists a', emit_chunk uuid4 thread name s server version a candidate = Ok a' /\ archive_ok a'
    /\ ar_upto a < ar_upto a' <= os_spool_start s + align_code_point_end (os_data s) candidate.
Proof.
  intros Ha Hc Hlt. unfold emit_chunk. rewrite neighborhood_align by done.
  destruct (align_end_spec (os_data s) candidate Hc) as (He & _ & Hne' & _).
  set (e := align_code_point_end (os_data s) candidate) in *. set (u := ar_upto a) in *.
  pose proof (ao_range a Ha) as Hu. pose proof (ao_boundary a Ha) as Hbu. fold u in Hu, Hbu.
  pose proof (so_archived _ _ Hs) as HA.
  assert (Hend : stream_end s = os_spool_start s + stream_size s) by done.
  change (read_range s (u - os_spool_start s) (e + os_spool_start s - os_spool_start s))
    with (logical s u (e + os_spool_start s)).
  assert (Hbe : boundary s (e + os_spool_start s)).
  { unfold boundary. by replace (e + os_spool_start s - os_spool_start s) with e by lia. }
  assert (Hok : bytes_ok (logical s u (e + os_spool_start s))) by (apply bytes_ok_slice; by eapply stream_ok_bytes).
  destruct (Z.ltb_spec OUTPUT_CHUNK_MAX_BYTES (decoded_length (logical s u (e + os_spool_start s)))) as [Hbig|Hfit].
  - assert (Hlen : py_len (logical s u (e + os_spool_start s)) = e + os_spool_start s - u).
    { unfold logical. rewrite py_slice_len; unfold stream_size in *; lia. }
    destruct (bounded_prefix_spec (logical s u (e + os_spool_start s)) OUTPUT_CHUNK_MAX_BYTES)
      as (stop & -> & Hstop & Hpf & Hni); [done|unfold OUTPUT_CHUNK_MAX_BYTES; lia|lia|].
    rewrite Hlen in Hstop. cbn [mbind res_bind].
    assert (Hpre : py_slice (logical s u (e + os_spool_start s)) 0 stop = logical s u (u + stop)).
    { unfold logical. rewrite py_slice_slice by lia. f_equal; lia. }
    unfold prefix_fits in Hpf. rewrite Hpre in Hpf |- *.
    destruct (emit_payload a (u + stop)) as (d & text & Hd & Ht & Hok'); fold u; try done; try lia.
    { unfold boundary. unfold logical in Hni. rewrite inside_between in Hni; try done; unfold stream_size in *; try lia.
      by replace (u + stop - os_spool_start s) with (u - os_spool_start s + stop) by lia. }
    fold u in Hd. rewrite Hd. cbn [mbind res_bind]. rewrite Ht. cbn [mbind res_bind].
    eexists. split; [done|]. split; [exact Hok'|]. cbn. lia.
  - cbn [mbind res_bind].
    destruct (emit_payload a (e + os_spool_start s)) as (d & text & Hd & Ht & Hok'); fold u; try done; try lia.
    fold u in Hd. rewrite Hd. cbn [mbind res_bind]. rewrite Ht. cbn [mbind res_bind].
    eexists. split; [done|]. split; [exact Hok'|]. cbn. lia.
Qed.

(** The loop towards the target stops within one chunk of it. *)
Lemma archive_full_ok target fuel : forall a,
  archive_ok a -> target <= stream_end s -> target - ar_upto a < Z.of_nat fuel ->
  exists a', archive_full uuid4 thread name s server version fuel target a = Ok a' /\ archive_ok a'
    /\ target - ar_upto a' < OUTPUT_CHUNK_MAX_BYTES /\ ar_upto a <= ar_upto a' <= Z.max (ar_upto a) target.
Proof.
  assert (HC : OUTPUT_CHUNK_MAX_BYTES = 2000) by done. pose proof (so_archived _ _ Hs) as HA.
  induction fuel as [|fuel IH]; intros a Ha Ht Hf; cbn [archive_full];
    destruct (Z.leb_spec OUTPUT_CHUNK_MAX_BYTES (target - ar_upto a)) as [Hle|Hgt]; try lia.
  1, 3: exists a; split_and!; try done; lia.
  pose proof (ao_range a Ha) as Hu. set (c := ar_upto a + OUTPUT_CHUNK_MAX_BYTES - os_spool_start s).
  assert (Hc : 0 <= c <= stream_size s) by (unfold stream_end in *; lia).
  destruct (align_end_spec (os_data s) c Hc) as (He & He3 & _).
  destruct (emit_chunk_ok a c Ha Hc) as (a' & -> & Ha' & Hup); [lia|]. cbn [mbind res_bind].
  destruct (IH a' Ha') as (a'' & -> & Ha'' & Hd & Hr); [done|lia|]. exists a''. split_and!; try done; lia.
Qed.

(** The loop towards the window's start reaches it. *)
Lemma archive_rest_ok tail_start fuel : forall a,
  archive_ok a -> tail_start <= stream_end s -> boundary s tail_start -> tail_start - ar_upto a < Z.of_nat fuel ->
  exists a', archive_rest uuid4 thread name s server version fuel tail_start a = Ok a' /\ archive_ok a'
    /\ tail_start <= ar_upto a' /\ ar_upto a <= ar_upto a' <= Z.max (ar_upto a) tail_start.
Proof.
  pose proof (so_archived _ _ Hs) as HA.
  induction fuel as [|fuel IH]; intros a Ha Ht Hb Hf; cbn [archive_rest];
    destruct (Z.ltb_spec (ar_upto a) tail_start) as [Hlt|Hge]; try lia.
  1, 3: exists a; split_and!; try done; lia.
  pose proof (ao_range a Ha) as Hu. set (c := tail_start - os_spool_start s).
  assert (Hc : 0 <= c <= stream_size s) by (unfold stream_end in *; lia).
  assert (He : align_code_point_end (os_data s) c = c) by (by apply align_end_fixed).
  destruct (emit_chunk_ok a c Ha Hc) as (a' & -> & Ha' & Hup); [lia|]. cbn [mbind res_bind].
  destruct (IH a' Ha') as (a'' & -> & Ha'' & Hd & Hr); [done|done|lia|]. exists a''. split_and!; try done; lia.
Qed.

Lemma plan_chunks_ok text tail_start tail_end drawn :
  window_of s text tail_start tail_end ->
  exists a, _plan_chunks uuid4 thread name s server version tail_end tail_start drawn = Ok a /\ archive_ok a
    /\ archive_target tail_end - ar_upto a < OUTPUT_CHUNK_MAX_BYTES
    /\ (archive_target tail_end < tail_start -> tail_start <= ar_upto a)
    /\ ar_upto a <= Z.max (os_archived_upto s) (Z.max (archive_target tail_end) tail_start).
Proof.
  intros Hw. destruct Hw as [Hr Hend Hspan _ _ Hb _]. unfold _plan_chunks.
  destruct Hs as [Hok Hpr HS Hend' Hdata HA HbA _ HQ Hl].
  set (a0 := mkArchive [] (os_archived_upto s) (os_last_chunk s) (os_sequence s) drawn).
  assert (Ha0 : archive_ok a0) by (split; cbn; try done; try lia; constructor).
  assert (HT : archive_target tail_end <= stream_end s).
  { unfold archive_target, OUTPUT_TAIL_MAX_BYTES, ARCHIVE_MARGIN_CHARS. case_if; lia. }
  destruct (archive_full_ok (archive_target tail_end) (S (Z.to_nat (archive_target tail_end - ar_upto a0))) a0 Ha0 HT)
    as (a1 & -> & Ha1 & Hd & Hup); [lia|]. cbn [mbind res_bind]. cbn [ar_upto a0] in Hup.
  destruct (Z.ltb_spec (archive_target tail_end) tail_start) as [Hlt|Hge].
  - destruct (archive_rest_ok tail_start (S (Z.to_nat (tail_start - ar_upto a1))) a1 Ha1)
      as (a2 & -> & Ha2 & Hd2 & Hup2); [lia|done|lia|]. exists a2. split_and!; try done; lia.
  - exists a1. split_and!; try done; lia.
Qed.
End archive.

(** The archive reaches the window unless decoding expanded the window's bytes. *)
Lemma archive_covers total s text start stop a :
  stream_ok total s -> window_of s text start stop -> os_archived_upto s <= ar_upto a -> boundary s (ar_upto a) ->
  archive_target stop - ar_upto a < OUTPUT_CHUNK_MAX_BYTES ->
  (archive_target stop < start -> start <= ar_upto a) ->
  start <= ar_upto a
  \/ (OUTPUT_TAIL_MAX_BYTES
        < decoded_length (py_from (os_data s)
            (align_code_point_start (os_data s) (Z.max 0 (stream_size s - OUTPUT_TAIL_MAX_BYTES))))
      /\ start <= archive_target stop).
Proof.
  intros Hs Hw Hup Hb Hnear Htail. pose proof (so_archived _ _ Hs) as HA. pose proof (so_start _ _ Hs) as HS.
  destruct (Z.le_gt_cases start (archive_target stop)) as [Hle|Hgt]; [|left; by apply Htail].
  destruct (wi_head _ _ _ _ Hw) as [Hh|[Hbig _]]; [left|by right].
  pose proof (wi_stop _ _ _ _ Hw) as Hstop. unfold stream_end in Hstop.
  set (h := Z.max 0 (stream_size s - OUTPUT_TAIL_MAX_BYTES)) in Hh.
  assert (HO : OUTPUT_TAIL_MAX_BYTES = 4000) by done. assert (HC : OUTPUT_CHUNK_MAX_BYTES = 2000) by done.
  pose proof (py_len_nonneg (os_data s)) as Hn. change (py_len (os_data s)) with (stream_size s) in Hn.
  destruct (proj1 (align_start_least (os_data s) h (align_code_point_start (os_data s) h)
    ltac:(change (py_len (os_data s)) with (stream_size s); lia)) eq_refl) as (Hr & _ & Hall).
  destruct (Z.le_gt_cases start (ar_upto a)) as [|Hlt]; [done|]. exfalso.
  apply Hb, Hall. unfold archive_target, ARCHIVE_MARGIN_CHARS in Hnear.
  destruct (Z.leb_spec stop OUTPUT_TAIL_MAX_BYTES); [|lia].
  assert (h = 0) as Hz by lia. rewrite Hz in Hh. unfold align_code_point_start in Hh. cbn in Hh. lia.
Qed.

Lemma window_payload s text start stop previous :
  bytes_ok (os_data s) -> 0 <= os_spool_start s -> window_of s text start stop ->
  build_output_window_payload text start stop previous
  = Ok [(py "tail", JStr text); (py "start", JInt start); (py "end", JInt stop); (py "previous", uuid_field previous)].
Proof.
  intros Hok HS [Hr Hend Hspan -> Hfit _ _]. unfold build_output_window_payload, _utf8_byte_length.
  rewrite decoded_length_exact by (by apply bytes_ok_slice). cbn [mbind res_bind].
  replace (OUTPUT_TAIL_MAX_BYTES <? decoded_length (logical s start stop)) with false by lia.
  rewrite (proj2 (validate_offsets_Ok start stop)) by lia. cbn [mbind res_bind].
  by replace (OUTPUT_TAIL_MAX_BYTES <? stop - start) with false by lia.
Qed.

(** The live window of a stream is always computed, and is what the protocol
    accepts: it ends at the newest captured byte, begins at an offset that
    splits no code point, spans at most 4000 bytes whose text encodes to at most
    4000 bytes, and its text is the decoding of exactly those bytes.  It begins
    at the first boundary of the newest 4000 bytes unless their text exceeds
    the limit, and even then holds at least 1330 bytes. *)
Theorem window_exact s previous :
  bytes_ok (os_data s) -> 0 <= os_spool_start s ->
  exists text start stop w,
    output_window_text s OUTPUT_TAIL_MAX_BYTES (os_spool_start s) = Ok (text, start, stop)
    /\ window_of s text start stop
    /\ build_output_window_payload text start stop previous = Ok w
    /\ (uuid_ok previous -> _parse_window (JObj w) = Ok (mkWindow text start stop previous)).
Proof.
  intros Hok HS. destruct (output_window_spec s Hok HS) as (text & start & stop & Hw & Hof).
  pose proof (window_payload s text start stop previous Hok HS Hof) as Hp.
  exists text, start, stop. eexists. split; [exact Hw|]. split; [exact Hof|]. split; [exact Hp|].
  intros Hu. by destruct (window_reads_back text start stop previous _ Hu Hp) as [Hr _].
Qed.

(** A fresh stream that has captured [data]. *)
Definition fresh_stream (data : pybytes) : OutputStream :=
  mkStream data (Some 5) false [] 0 0 (SpecFloat.S754_zero false) 0 None 0 [] 0 0.

Lemma fresh_stream_ok data : bytes_ok data -> printable (py_len data) -> stream_ok data (fresh_stream data).
Proof.
  intros Hok Hp. pose proof (py_len_nonneg data).
  split; unfold stream_end, stream_size, boundary; cbn; try done; try lia; [|apply inside_zero].
  change (data = py_from data 0). by rewrite py_from_nonneg, drop_0 by lia.
Qed.

Lemma window_exact_witness :
  exists text start stop w,
    output_window_text (fresh_stream (py "hello")) OUTPUT_TAIL_MAX_BYTES 0 = Ok (text, start, stop)
    /\ window_of (fresh_stream (py "hello")) text start stop
    /\ build_output_window_payload text start stop None = Ok w.
Proof.
  destruct (window_exact (fresh_stream (py "hello")) None) as (text & start & stop & w & Hw & Hof & Hp & _).
  - apply (bool_decide_unpack _). vm_compute. exact I.
  - cbn. lia.
  - exists text, start, stop, w. split; [exact Hw|]. split; [exact Hof|exact Hp].
Defined.

(** C19: For a stream whose previous archive reached its window, so that the
    buffer holds every byte from the end of the archive on, planning the chunks
    always terminates without error.  The planned chunks continue the archive
    exactly: each begins where the one before it ends, spans at least one and at
    most 2000 bytes, parses back as a chunk of this job and stream whose text is
    the decoding of exactly its bytes, and carries the next sequence number and
    its predecessor's identity.  What is left before the window is archived up
    to the window's start, except when the window was shortened because its text
    expanded and still begins before the archive target; then fewer than 2000
    bytes are left over, the condition fails for the next plan, and that plan
    can emit a chunk with an empty text ([archive_gap_chunk]). *)
Theorem archive_linked uuid4 thread name total s server text start stop drawn :
  (forall n, uuid_ok (Some (uuid4 n))) -> str_ok server -> server <> [] -> In name CHUNK_STREAMS ->
  uuid_ok (Some thread) -> stream_ok total s ->
  output_window_text s OUTPUT_TAIL_MAX_BYTES (os_spool_start s) = Ok (text, start, stop) ->
  exists a, _plan_chunks uuid4 thread name s server PROTOCOL_VERSION stop start drawn = Ok a
    /\ chain server thread name total (os_archived_upto s) (os_last_chunk s) (os_sequence s)
         (ar_chunks a) (ar_upto a) (ar_last a) (ar_sequence a)
    /\ os_archived_upto s <= ar_upto a <= stream_end s
    /\ (start <= ar_upto a
        \/ (OUTPUT_TAIL_MAX_BYTES
              < decoded_length (py_from (os_data s)
                  (align_code_point_start (os_data s) (Z.max 0 (stream_size s - OUTPUT_TAIL_MAX_BYTES))))
            /\ start <= archive_target stop /\ start - ar_upto a < OUTPUT_CHUNK_MAX_BYTES)).
Proof.
  intros Hsup Hsrv Hne Hname Hth Hs Hw.
  destruct (output_window_spec s (stream_ok_bytes _ _ Hs) (so_start _ _ Hs)) as (? & ? & ? & Hw' & Hof).
  rewrite Hw in Hw'. injection Hw' as <- <- <-.
  destruct (plan_chunks_ok uuid4 thread name total s server Hsup Hsrv Hne Hname Hth Hs text start stop drawn Hof)
    as (a & Ha & Hok & Hnear & Htail & _).
  exists a. split; [exact Ha|]. split; [apply Hok|]. split; [apply Hok|].
  destruct (archive_covers total s text start stop a Hs Hof) as [|[? ?]]; [apply Hok|apply Hok|done|done|by left|].
  right. split_and!; try done. lia.
Qed.

Lemma archive_linked_witness :
  let s := fresh_stream (repeat 97 4500) in
  exists text a,
    output_window_text s OUTPUT_TAIL_MAX_BYTES 0 = Ok (text, 500, 4500)
    /\ _plan_chunks (fun n => Z.of_nat n mod 2 ^ 128) 7 (py "stdout") s (py "srv") PROTOCOL_VERSION 4500 500 0 = Ok a
    /\ chain (py "srv") 7 (py "stdout") (repeat 97 4500) 0 None 0 (ar_chunks a) (ar_upto a) (ar_last a) (ar_sequence a).
Proof.
  intros s. assert (Hw : exists text, output_window_text s OUTPUT_TAIL_MAX_BYTES 0 = Ok (text, 500, 4500)).
  { eexists. vm_compute. reflexivity. }
  destruct Hw as (text & Hw). exists text.
  assert (Hok : stream_ok (repeat 97 4500) s).
  { apply fresh_stream_ok.
    - apply (bool_decide_unpack _). vm_compute. exact I.
    - split; [vm_compute; discriminate|vm_compute; reflexivity]. }
  destruct (archive_linked (fun n => Z.of_nat n mod 2 ^ 128) 7 (py "stdout") (repeat 97 4500) s (py "srv") text 500 4500 0)
    as (a & Ha & Hc & _).
  - intros n. cbn [uuid_ok]. apply Z.mod_pos_bound. lia.
  - vm_compute. reflexivity.
  - discriminate.
  - left. reflexivity.
  - cbn. lia.
  - exact Hok.
  - exact Hw.
  - exists a. split; [exact Hw|]. split; [|exact Hc]. exact Ha.
Defined.

(** ** A gap

    When the window is shortened but still begins before the archive target,
    nothing archives the bytes between the last full chunk and the window.
    Publishing 1900 letters, 500 invalid bytes and 3500 letters archives up to
    1933, shows the window from 2234 on and trims everything before it: the 301
    bytes between are in no chunk, in no window and no longer in the buffer. *)
Definition gap_data : pybytes := repeat 97 1900 ++ repeat 255 500 ++ repeat 97 3500.
Definition gap_job : ActiveJob := mkJob 7 4 (fresh_stream gap_data) (fresh_stream []) false.

Lemma archive_gap :
  let '(r, w, job, _) :=
    publish_output Z.of_nat gap_job OUTPUT_STREAMS (SpecFloat.S754_zero false) (py "srv") true Committed 0 in
  r = Ok true
  /\ option_map (fun w => length (wr_chunks w)) w = Some 1%nat
  /\ os_archived_upto (job_stdout job) = 1933
  /\ os_tail_start (job_stdout job) = 2234
  /\ os_spool_start (job_stdout job) = 2234.
Proof. vm_compute. repeat split. Qed.

(** After that publication the buffer begins past the end of the archive.  With
    3000 more letters captured, the next plan emits a chunk that claims the bytes
    from 1933 to 3933 and whose text is empty. *)
Definition gap_stream : OutputStream :=
  let '(_, _, job, _) :=
    publish_output Z.of_nat gap_job OUTPUT_STREAMS (SpecFloat.S754_zero false) (py "srv") true Committed 0 in
  let s := job_stdout job in
  mkStream (os_data s ++ repeat 97 3000) (os_fd s) (os_eof s) (os_pending s) (os_spool_start s)
    (os_published_size s) (os_published_at s) (os_archived_upto s) (os_last_chunk s) (os_sequence s)
    (os_tail_text s) (os_tail_start s) (os_tail_end s).

(** The bytes claimed by the first chunk the next plan of [s] emits, and its text. *)
Definition next_chunk (s : OutputStream) : res (Z * Z * pystr) :=
  '(_, start, stop) ← output_window_text s OUTPUT_TAIL_MAX_BYTES (os_spool_start s);
  a ← _plan_chunks Z.of_nat 7 (py "stdout") s (py "srv") PROTOCOL_VERSION stop start 1;
  match ar_chunks a with
  | (_, text) :: _ => c ← parse_chunk_payload (JStr text); Ok (ck_start c, ck_end c, ck_value c)
  | [] => Raise ValueError
  end.

Lemma archive_gap_chunk : next_chunk gap_stream = Ok (1933, 3933, []).
Proof. vm_compute. reflexivity. Qed.
