(* ===== verification/OutputRuns.v ===== *)
(** The life of a captured stream: drains of its pipe and committed
    publications in any order.  Along every such run the bytes taken from the
    pipe are, in order, archived in chunks, shown in the window, buffered or
    retained; the job's spool stays within its bound; and a publication that
    is not committed changes nothing. *)

From S2P Require Import Prelude PyStr PyNum Json JsonFacts Uuid Protocol Output OutputFacts Capture OutputTheorems.

#[local] Arguments py : simpl never.

(** ** What a publication does to one stream *)

(** The parts of [plan_stream]: the window, the chunks and the plan. *)
Lemma plan_stream_inv uuid4 job n server force drawn p drawn' :
  plan_stream uuid4 job n server force drawn = Ok (Some p, drawn') ->
  let s := job_stream job n in
  exists a, output_window_text s OUTPUT_TAIL_MAX_BYTES (os_spool_start s)
              = Ok (pl_tail_text p, pl_tail_start p, pl_tail_end p)
    /\ _plan_chunks uuid4 (job_id job) (stream_text n) s server (job_version job) (pl_tail_end p) (pl_tail_start p) drawn
       = Ok a
    /\ pl_chunks p = ar_chunks a /\ pl_archived_upto p = ar_upto a /\ pl_last_chunk p = ar_last a
    /\ pl_sequence p = ar_sequence a.
Proof.
  unfold plan_stream. intros H. res_inv H. destruct a as [[text start] stop]. res_inv H.
  destruct (negb force && _); [done|]. res_inv H. simplify_eq. exists a. by split_and!.
Qed.

(** The stream after a committed publication. *)
Definition after_publication (s : OutputStream) (p : _StreamPlan) (now : pyfloat) : OutputStream :=
  trim_stream (_apply_plan s p now) p.

Section publication.
Context (total : pybytes) (s : OutputStream) (p : _StreamPlan) (now : pyfloat) (a : archive).
Context (Hs : stream_ok total s).
Context (Hw : window_of s (pl_tail_text p) (pl_tail_start p) (pl_tail_end p)).
Context (Hup : pl_archived_upto p = ar_upto a) (Hlast : pl_last_chunk p = ar_last a) (Hseq : pl_sequence p = ar_sequence a).

Let s' := after_publication s p now.
Let ts := pl_tail_start p.

Lemma after_spool_start : os_spool_start s' = ts.
Proof.
  unfold s', after_publication, trim_stream, _drop_head. cbn. pose proof (wi_range _ _ _ _ Hw).
  destruct (Z.leb_spec (pl_tail_start p - os_spool_start s) 0); cbn; unfold ts; lia.
Qed.

Lemma after_data : os_data s' = py_from (os_data s) (ts - os_spool_start s).
Proof.
  pose proof (wi_range _ _ _ _ Hw) as Hr. fold ts in Hr. rewrite py_from_nonneg by lia.
  unfold s', after_publication, trim_stream, _drop_head. cbn. fold ts.
  destruct (Z.leb_spec (ts - os_spool_start s) 0) as [Hle|]; cbn; [|done].
  replace (Z.to_nat (ts - os_spool_start s)) with 0%nat by lia. by rewrite drop_0.
Qed.

Lemma after_fields :
  os_fd s' = os_fd s /\ os_eof s' = os_eof s /\ os_pending s' = os_pending s
  /\ os_archived_upto s' = pl_archived_upto p /\ os_last_chunk s' = pl_last_chunk p /\ os_sequence s' = pl_sequence p
  /\ os_tail_text s' = pl_tail_text p /\ os_tail_start s' = ts /\ os_tail_end s' = pl_tail_end p.
Proof.
  unfold s', after_publication, trim_stream, _drop_head. cbn.
  by destruct (Z.leb_spec (pl_tail_start p - os_spool_start s) 0).
Qed.

Lemma after_end : stream_end s' = stream_end s.
Proof.
  unfold stream_end, stream_size. rewrite after_spool_start, after_data. pose proof (wi_range _ _ _ _ Hw) as Hr.
  pose proof (wi_stop _ _ _ _ Hw) as He. unfold stream_end, stream_size in He. fold ts in Hr.
  rewrite py_from_len by lia. lia.
Qed.

Lemma after_boundary i : ts <= i <= stream_end s -> boundary s i -> boundary s' i.
Proof.
  unfold boundary. rewrite after_spool_start, after_data. intros Hi Hb Hin. apply Hb.
  pose proof (wi_range _ _ _ _ Hw) as Hr. fold ts in Hr. unfold stream_end, stream_size in Hi.
  rewrite py_from_slice in Hin by lia. apply inside_between in Hin; try lia.
  - by replace (i - os_spool_start s) with (ts - os_spool_start s + (i - ts)) by lia.
  - exact (wi_boundary _ _ _ _ Hw).
  - apply inside_end.
Qed.

(** A publication whose archive reaches its window keeps the stream sound. *)
Lemma after_ok :
  ts <= ar_upto a -> os_archived_upto s <= ar_upto a <= stream_end s ->
  ar_upto a <= Z.max (os_archived_upto s) (Z.max (archive_target (pl_tail_end p)) ts) ->
  boundary s (ar_upto a) -> uuid_ok (ar_last a) -> 0 <= ar_sequence a <= ar_upto a ->
  stream_ok total s'.
Proof.
  intros Hcov Hrange Hmax Hb Hl Hq. destruct after_fields as (_ & _ & _ & Hup' & Hlast' & Hseq' & _).
  pose proof (wi_range _ _ _ _ Hw) as Hr. pose proof (wi_stop _ _ _ _ Hw) as Hstop. fold ts in Hr.
  destruct Hs as [Hok Hpr HS Hend Hdata HA HbA Hset HQ Hl0].
  split; rewrite ?after_end, ?after_spool_start, ?Hup', ?Hup, ?Hlast', ?Hlast, ?Hseq', ?Hseq; try done; try lia.
  - rewrite after_data, Hdata. rewrite py_from_py_slice by lia. f_equal. lia.
  - by apply after_boundary; [lia|].
  - unfold archive_target, OUTPUT_TAIL_MAX_BYTES, ARCHIVE_MARGIN_CHARS in Hmax. rewrite Hstop in Hmax.
    destruct (Z.leb_spec (stream_end s) 4000); lia.
Qed.
End publication.

(** ** Runs *)

(** The window last published: bytes of [total] up to [tail_end], within the
    limits of the protocol, and trimmed to. *)
Record window_ok_for (total : pybytes) (s : OutputStream) : Prop := {
  wo_start : os_spool_start s = os_tail_start s;
  wo_range : 0 <= os_tail_start s <= os_tail_end s;
  wo_end : os_tail_end s <= stream_end s;
  wo_span : os_tail_end s - os_tail_start s <= OUTPUT_TAIL_MAX_BYTES;
  wo_text : os_tail_text s = pg_safe_decode (py_slice total (os_tail_start s) (os_tail_end s));
  wo_fits : decoded_length (py_slice total (os_tail_start s) (os_tail_end s)) <= OUTPUT_TAIL_MAX_BYTES;
}.

Section runs.
Context `{PipeLaws P} (can_extend : pybytes -> pybytes -> bool) (uuid4 : nat -> Z).
Context (server : pystr) (thread : Z) (n : stream_name) (total : pybytes).

(** The stream as it is when its job starts. *)
Definition opened (fd : Z) : OutputStream :=
  mkStream [] (Some fd) false [] 0 0 (SpecFloat.S754_zero false) 0 None 0 [] 0 0.

(** The states of a stream, with its pipe and the chunk rows stored for it,
    along any sequence of drains and committed publications; the archive of
    each publication reaches its window. *)
Inductive life : P -> OutputStream -> list (Z * pystr) -> Prop :=
  | life_opened p fd : unread p = total -> life p (opened fd) []
  | life_drain p s rows bound used s' st p' :
      life p s rows -> drain_capture_stream can_extend p s bound (Some used) = (s', st, p') -> life p' s' rows
  | life_publish p s rows job force drawn plan drawn' now :
      life p s rows -> job_stream job n = s -> job_id job = thread -> job_version job = PROTOCOL_VERSION ->
      plan_stream uuid4 job n server force drawn = Ok (Some plan, drawn') ->
      pl_tail_start plan <= pl_archived_upto plan ->
      life p (after_publication s plan now) (rows ++ pl_chunks plan).

Record life_ok (p : P) (s : OutputStream) (rows : list (Z * pystr)) : Prop := {
  lo_stream : stream_ok total s;
  lo_bytes : py_from total (os_spool_start s) = all_bytes p s;
  lo_at_end : at_end p s;
  lo_closed : closed_read p s;
  lo_chain : chain server thread (stream_text n) total 0 None 0 rows (os_archived_upto s) (os_last_chunk s) (os_sequence s);
  lo_window : window_ok_for total s;
}.

Lemma drained_fields room p s p' s' :
  drained room p s p' s' ->
  os_spool_start s' = os_spool_start s /\ os_archived_upto s' = os_archived_upto s
  /\ os_last_chunk s' = os_last_chunk s /\ os_sequence s' = os_sequence s
  /\ os_tail_text s' = os_tail_text s /\ os_tail_start s' = os_tail_start s /\ os_tail_end s' = os_tail_end s.
Proof. intros [_ Hp _]. unfold publication in Hp. by simplify_eq. Qed.

Lemma drained_grows room p s p' s' :
  drained room p s p' s' -> stream_end s <= stream_end s'.
Proof.
  intros Hd. destruct (drained_fields _ _ _ _ _ Hd) as (HS & _). destruct Hd as [_ _ (more & Hm & _)].
  unfold stream_end, stream_size. rewrite HS, Hm. unfold py_len. rewrite length_app. lia.
Qed.

Lemma buffered_prefix p s :
  0 <= os_spool_start s -> py_from total (os_spool_start s) = all_bytes p s -> os_spool_start s <= py_len total ->
  stream_end s <= py_len total /\ os_data s = py_slice total (os_spool_start s) (stream_end s).
Proof.
  intros HS Hb Hle. rewrite py_from_nonneg in Hb by done. unfold stream_end, stream_size, all_bytes in *.
  assert (Hlen : length (drop (Z.to_nat (os_spool_start s)) total) = length (os_data s ++ os_pending s ++ unread p)) by (by rewrite Hb).
  rewrite length_drop, length_app in Hlen. unfold py_len in *. split; [lia|].
  rewrite py_slice_nonneg by lia. rewrite Hb.
  replace (Z.to_nat (os_spool_start s + Z.of_nat (length (os_data s))) - Z.to_nat (os_spool_start s))%nat
    with (length (os_data s)) by lia. by rewrite take_app_length.
Qed.

Lemma drain_stream_ok room p s p' s' :
  stream_ok total s -> py_from total (os_spool_start s) = all_bytes p s -> drained room p s p' s' ->
  stream_ok total s' /\ py_from total (os_spool_start s') = all_bytes p' s'.
Proof.
  intros Hs Hb Hd. destruct (drained_fields _ _ _ _ _ Hd) as (HS & HA & Hl & Hq & _).
  pose proof (drained_grows _ _ _ _ _ Hd) as Hgrow. destruct Hd as [Hbytes _ (more & Hm & _)].
  assert (Hb' : py_from total (os_spool_start s') = all_bytes p' s') by (rewrite HS; congruence). split; [|exact Hb'].
  destruct Hs as [Hok Hpr HS0 Hend Hdata HAr HbA Hset HQ Hl0].
  pose proof (py_len_nonneg (os_data s)) as Hn.
  destruct (buffered_prefix p' s') as [Hend' Hdata']; [lia|exact Hb'|unfold stream_end, stream_size in *; lia|].
  split; rewrite ?HS, ?HA, ?Hl, ?Hq; try done; try lia; [by rewrite <- HS|].
  unfold boundary in *. rewrite HS, Hm. destruct Hset as [Hz|Hset].
  - rewrite Hz, Z.sub_diag. apply inside_zero.
  - rewrite inside_app; [done|]. unfold stream_end, stream_size in Hset. lia.
Qed.

Context (Hsupply : forall k, uuid_ok (Some (uuid4 k))) (Hserver : str_ok server) (Hne : server <> []).
Context (Hthread : uuid_ok (Some thread)) (Htotal : bytes_ok total) (Hprint : printable (py_len total)).

Lemma stream_text_known : In (stream_text n) CHUNK_STREAMS.
Proof. destruct n; [by left|by right; left]. Qed.

Lemma life_ok_opened p fd : unread p = total -> life_ok p (opened fd) [].
Proof.
  intros Hu. pose proof (py_len_nonneg total).
  split; try done; [|..|constructor|].
  - split; unfold stream_end, stream_size, boundary; cbn; try done; try lia; [|apply inside_zero].
    by rewrite py_slice_nonneg by done.
  - unfold all_bytes. cbn. rewrite Hu. by rewrite py_from_nonneg, drop_0.
  - split; unfold stream_end, stream_size; cbn; try done; by rewrite py_slice_nonneg by done.
Qed.

Lemma life_ok_drain p s rows bound used s' st p' :
  life_ok p s rows -> drain_capture_stream can_extend p s bound (Some used) = (s', st, p') -> life_ok p' s' rows.
Proof.
  intros [Hs Hb He Hc Hch Hw] Hd. pose proof (drain_ok can_extend p s bound used He Hc) as Hpost. rewrite Hd in Hpost.
  destruct Hpost as (Hdr & He' & Hc' & _). destruct (drain_stream_ok _ _ _ _ _ Hs Hb Hdr) as [Hs' Hb'].
  pose proof (drained_grows _ _ _ _ _ Hdr) as Hgrow.
  destruct (drained_fields _ _ _ _ _ Hdr) as (HS & HA & Hl & Hq & Htt & Hts & Hte).
  split; try done; [by rewrite HA, Hl, Hq|]. destruct Hw as [? ? ? ? ? ?].
  split; rewrite ?HS, ?Htt, ?Hts, ?Hte; try done. lia.
Qed.

Lemma life_ok_publish p s rows job force drawn plan drawn' now :
  life_ok p s rows -> job_stream job n = s -> job_id job = thread -> job_version job = PROTOCOL_VERSION ->
  plan_stream uuid4 job n server force drawn = Ok (Some plan, drawn') ->
  pl_tail_start plan <= pl_archived_upto plan ->
  life_ok p (after_publication s plan now) (rows ++ pl_chunks plan).
Proof.
  intros [Hs Hb He Hc Hch _] Hj Hid Hv Hplan Hcov.
  apply plan_stream_inv in Hplan as (a & Hw & Ha & Hcs & Hup & Hlast & Hseq). rewrite Hj in Hw. rewrite Hj, Hid, Hv in Ha.
  destruct (output_window_spec s (stream_ok_bytes _ _ Hs) (so_start _ _ Hs)) as (? & ? & ? & Hw' & Hof).
  rewrite Hw in Hw'. injection Hw' as <- <- <-.
  destruct (plan_chunks_ok uuid4 thread (stream_text n) total s server Hsupply Hserver Hne stream_text_known Hthread Hs
    _ _ _ drawn Hof) as (a' & Ha' & Hok & _ & _ & Hmax).
  rewrite Ha in Ha'. injection Ha' as <-. destruct Hok as [Hch' Hrange Hba Hla Hqa]. rewrite Hup in Hcov.
  pose proof (after_fields s plan now) as (Hfd & Heof & Hpend & HA & HL & HQ & Htt & Hts & Hte).
  pose proof (after_spool_start s plan now Hof) as HS'. pose proof (after_data s plan now Hof) as Hdata'.
  pose proof (wi_range _ _ _ _ Hof) as Hr. pose proof (so_start _ _ Hs) as HS0. pose proof (so_end _ _ Hs) as Hend.
  pose proof (wi_stop _ _ _ _ Hof) as Hstop.
  assert (Htext : logical s (pl_tail_start plan) (pl_tail_end plan) = py_slice total (pl_tail_start plan) (pl_tail_end plan)).
  { apply logical_total; [done|lia|lia]. }
  split.
  - by apply (after_ok total s plan now a).
  - rewrite HS'. unfold all_bytes in *. rewrite Hdata', Hpend.
    rewrite !py_from_nonneg in * by lia.
    replace (Z.to_nat (pl_tail_start plan)) with (Z.to_nat (os_spool_start s) + Z.to_nat (pl_tail_start plan - os_spool_start s))%nat by lia.
    rewrite <- drop_drop, Hb. rewrite drop_app_le; [done|]. unfold stream_end, stream_size, py_len in *. lia.
  - unfold at_end. rewrite Heof, Hpend, Hfd. exact He.
  - unfold closed_read. rewrite Hfd. exact Hc.
  - rewrite HA, HL, HQ, Hup, Hlast, Hseq, Hcs. by eapply chain_app.
  - split; rewrite ?HS', ?Htt, ?Hts, ?Hte, ?(after_end s plan now Hof); try done; try lia.
    + apply Hof.
    + rewrite <- Htext. apply Hof.
    + rewrite <- Htext. apply Hof.
Qed.

Lemma life_all_ok p s rows : life p s rows -> life_ok p s rows.
Proof.
  induction 1 as [p fd Hu|p s rows bound used s' st p' _ IH Hd|p s rows job force drawn plan drawn' now _ IH Hj Hid Hv Hplan Hcov].
  - by apply life_ok_opened.
  - by eapply life_ok_drain.
  - by eapply life_ok_publish.
Qed.
End runs.

(** ** A publication of a job *)

Lemma plan_get_set ps n p n' : plan_get (plan_set ps n p) n' = if decide (n' = n) then Some p else plan_get ps n'.
Proof.
  induction ps as [|[m q] ps IH]; cbn [plan_set plan_get]; [done|].
  destruct (decide (n = m)) as [->|Hnm]; cbn [plan_get].
  - by destruct (decide (n' = m)).
  - rewrite IH. destruct (decide (n' = m)) as [->|]; [|done]. by destruct (decide (m = n)); congruence.
Qed.

Lemma plan_keys_in ps n p m : In m (map fst (plan_set ps n p)) <-> m = n \/ In m (map fst ps).
Proof.
  induction ps as [|[k q] ps IH]; cbn [plan_set map fst In]; [intuition congruence|].
  destruct (decide (n = k)) as [->|Hnk]; cbn [map fst In]; [|rewrite IH]; intuition congruence.
Qed.

Lemma plan_set_keys ps n p : List.NoDup (map fst ps) -> List.NoDup (map fst (plan_set ps n p)).
Proof.
  induction ps as [|[k q] ps IH]; cbn [plan_set map fst]; intros Hnd; [apply List.NoDup_cons; [by intros []|apply List.NoDup_nil]|].
  inversion Hnd as [|? ? Hk Hnd']; subst. destruct (decide (n = k)) as [->|Hnk]; cbn [map fst]; constructor; try done.
  - rewrite plan_keys_in. intros [->|?]; done.
  - by apply IH.
Qed.

Lemma job_stream_apply f ps : forall job n,
  List.NoDup (map fst ps) ->
  job_stream (apply_plans f job ps) n
  = match plan_get ps n with Some p => f (job_stream job n) p | None => job_stream job n end.
Proof.
  induction ps as [|[k q] ps IH]; intros job n Hnd; [done|]. inversion Hnd as [|? ? Hk Hnd']; subst.
  change (apply_plans f job ((k, q) :: ps)) with (apply_plans f (set_stream job k (f (job_stream job k) q)) ps).
  rewrite IH by done. cbn [plan_get]. rewrite job_stream_set. destruct (decide (n = k)) as [->|]; [|done].
  assert (Hnone : plan_get ps k = None).
  { clear - Hk. induction ps as [|[m r] ps IH]; [done|]. cbn in Hk |- *. case_decide; [naive_solver|apply IH; naive_solver]. }
  by rewrite Hnone.
Qed.

Lemma apply_plans_job f job ps :
  job_id (apply_plans f job ps) = job_id job /\ job_version (apply_plans f job ps) = job_version job
  /\ job_spool_evicted (apply_plans f job ps) = job_spool_evicted job.
Proof.
  unfold apply_plans. revert job. induction ps as [|[k q] ps IH]; intros job; cbn [fold_left]; [done|].
  destruct (IH (set_stream job k (f (job_stream job k) q))) as (-> & -> & ->). by destruct k.
Qed.

Lemma plan_get_In ps n p : plan_get ps n = Some p -> In (n, p) ps.
Proof.
  induction ps as [|[k q] ps IH]; [done|]. cbn [plan_get]. case_decide; [intros [= <-]; left; congruence|right; auto].
Qed.

(** The plan of each stream is made from the job as it is before publishing. *)
Lemma plan_streams_inv uuid4 job server force names : forall ps drawn ps' drawn',
  _plan_streams uuid4 job names server force ps drawn = Ok (ps', drawn') -> List.NoDup names ->
  (List.NoDup (map fst ps) -> List.NoDup (map fst ps'))
  /\ forall n, (~ In n names -> plan_get ps' n = plan_get ps n)
     /\ (In n names -> exists p d d', plan_stream uuid4 job n server force d = Ok (p, d')
                         /\ plan_get ps' n = match p with Some p => Some p | None => plan_get ps n end).
Proof.
  induction names as [|m names IH]; intros ps drawn ps' drawn' Hp Hnd; cbn [_plan_streams] in Hp.
  { injection Hp as <- <-. done. }
  inversion Hnd as [|? ? Hm Hnd']; subst. apply bind_Ok in Hp as ([p d1] & Hplan & Hp).
  destruct (IH _ _ _ _ Hp Hnd') as [Hkeys Hget]. split.
  - intros Hps. apply Hkeys. destruct p; [by apply plan_set_keys|done].
  - intros n. destruct (Hget n) as [Hout Hin]. split.
    + intros Hn. rewrite Hout by (cbn in Hn; tauto). destruct p; [|done]. rewrite plan_get_set.
      destruct (decide (n = m)) as [->|]; [cbn in Hn; tauto|done].
    + intros [->|Hn].
      * exists p, drawn, d1. split; [done|]. rewrite Hout by done. destruct p; [|done].
        rewrite plan_get_set. by destruct (decide (n = n)).
      * destruct (Hin Hn) as (q & d & d' & Hq & Hgq). exists q, d, d'. split; [done|]. rewrite Hgq.
        destruct q; [done|]. destruct p; [|done]. rewrite plan_get_set.
        by destruct (decide (n = m)) as [->|].
Qed.

(** Publication is all or nothing.  A publication that finds nothing new,
    loses its root row, fails or is rolled back writes nothing and leaves the
    job exactly as it was.  One that commits writes the chunks of the plans in
    order and the output text, and each stream either had no new plan and is
    unchanged, or becomes the planned state trimmed to the window it shows. *)
Theorem publish_atomic uuid4 job names now server force tx drawn r w job' drawn' :
  List.NoDup names ->
  publish_output uuid4 job names now server force tx drawn = (r, w, job', drawn') ->
  match w with
  | None => job' = job
  | Some w =>
      r = Ok true /\ tx = Committed
      /\ exists ps, _plan_streams uuid4 job names server force [] drawn = Ok (ps, drawn') /\ ps <> []
         /\ wr_chunks w = flat_map (fun '(_, p) => pl_chunks p) ps
         /\ (exists d1 d2, _full_windows job ps = Ok (d1, d2)
              /\ json_dumps (JObj [(py "stdout", JObj d1); (py "stderr", JObj d2)]) = Ok (wr_output w))
         /\ job_id job' = job_id job /\ job_version job' = job_version job
         /\ forall n, (job_stream job' n = job_stream job n
                 /\ (In n names -> exists d d', plan_stream uuid4 job n server force d = Ok (None, d')))
              \/ (In n names /\ exists p d d', plan_stream uuid4 job n server force d = Ok (Some p, d')
                 /\ In (n, p) ps /\ job_stream job' n = after_publication (job_stream job n) p now)
  end.
Proof.
  intros Hnd Hp. unfold publish_output in Hp.
  destruct (_plan_streams uuid4 job names server force [] drawn) as [[ps d]|e] eqn:Hplan; [|by injection Hp as <- <- <- <-].
  destruct ps as [|q ps0]; [by injection Hp as <- <- <- <-|]. set (ps := q :: ps0) in *.
  destruct (_full_windows job ps) as [[d1 d2]|e] eqn:Hfull; [|by injection Hp as <- <- <- <-].
  destruct tx; try by injection Hp as <- <- <- <-.
  destruct (json_dumps _) as [output|e] eqn:Hjson; [|by injection Hp as <- <- <- <-].
  set (job2 := _trim_published _ ps) in Hp. set (w2 := mkWritten _ output) in Hp.
  assert (Hr : r = Ok true) by congruence. assert (Hw2 : w = Some w2) by congruence.
  assert (Hj2 : job' = job2) by congruence. assert (Hd2 : drawn' = d) by congruence. clear Hp. subst r w drawn' job'.
  split; [done|]. split; [done|].
  destruct (plan_streams_inv _ _ _ _ _ _ _ _ _ Hplan Hnd) as [Hkeys Hget]. specialize (Hkeys (List.NoDup_nil _)).
  destruct (apply_plans_job trim_stream (apply_plans (fun s p => _apply_plan s p now) job ps) ps) as (Hid & Hv & _).
  destruct (apply_plans_job (fun s p => _apply_plan s p now) job ps) as (Hid' & Hv' & _).
  exists ps. split_and!; try done; [by exists d1, d2|by rewrite <- Hid'|by rewrite <- Hv'|].
  intros n. unfold job2, _trim_published. rewrite (job_stream_apply trim_stream ps), (job_stream_apply _ ps) by exact Hkeys.
  destruct (Hget n) as [Hout Hin].
  destruct (in_dec (fun a b => decide (a = b)) n names) as [Hn|Hn].
  - destruct (Hin Hn) as (p & e & e' & Hpl & Hg). rewrite Hg. destruct p as [p|].
    + right. split; [done|]. exists p, e, e'. split_and!; try done. by apply plan_get_In.
    + left. cbn [plan_get]. split; [done|]. intros _. by exists e, e'.
  - left. rewrite Hout by done. by split.
Qed.

Lemma publish_atomic_witness :
  let job := mkJob 7 4 (fresh_stream (py "hi")) (fresh_stream []) false in
  exists r w job' drawn',
    publish_output Z.of_nat job OUTPUT_STREAMS (SpecFloat.S754_zero false) (py "srv") false Committed 0
      = (r, Some w, job', drawn')
    /\ os_tail_text (job_stdout job') = py "hi" /\ r = Ok true.
Proof.
  intros job.
  assert (Hp : exists r w job' drawn',
    publish_output Z.of_nat job OUTPUT_STREAMS (SpecFloat.S754_zero false) (py "srv") false Committed 0
      = (r, Some w, job', drawn') /\ os_tail_text (job_stdout job') = py "hi").
  { do 4 eexists. split; [vm_compute; reflexivity|reflexivity]. }
  destruct Hp as (r & w & job' & drawn' & Hp & Ht). exists r, w, job', drawn'. split; [exact Hp|]. split; [exact Ht|].
  refine (proj1 (publish_atomic Z.of_nat job OUTPUT_STREAMS _ _ _ _ _ _ _ _ _ _ Hp)).
  apply List.NoDup_cons; [cbn; intuition discriminate|apply List.NoDup_cons; [by intros []|apply List.NoDup_nil]].
Defined.

(** ** Every byte accounted for *)

(** C17: Along every run of drains and committed publications of a stream whose
    publications reach their windows, the bytes the process wrote are all
    accounted for, in order.  The stored chunks form one linked chain from
    offset 0 to [archived_upto], each holding the decoding of exactly its bytes;
    the window last published holds the decoding of the bytes from [tail_start]
    to [tail_end] and begins no later than the archive ends; and the bytes from
    the window's start on are, in order, the buffer, the retained bytes and what
    the pipe still holds.  At end of file everything written is archived or
    buffered. *)
Theorem captured_history `{PipeLaws P} can_extend uuid4 server thread n total p s rows :
  (forall k, uuid_ok (Some (uuid4 k))) -> str_ok server -> server <> [] -> uuid_ok (Some thread) ->
  bytes_ok total -> printable (py_len total) ->
  life can_extend uuid4 server thread n total p s rows ->
  chain server thread (stream_text n) total 0 None 0 rows (os_archived_upto s) (os_last_chunk s) (os_sequence s)
  /\ os_spool_start s = os_tail_start s
  /\ os_tail_start s <= os_archived_upto s <= stream_end s
  /\ os_tail_start s <= os_tail_end s <= stream_end s
  /\ os_tail_text s = pg_safe_decode (py_slice total (os_tail_start s) (os_tail_end s))
  /\ py_from total (os_tail_start s) = os_data s ++ os_pending s ++ unread p
  /\ (os_eof s = true -> stream_end s = py_len total).
Proof.
  intros Hsup Hsrv Hne Hth Htot Hpr Hlife. apply life_all_ok in Hlife as [Hs Hb He Hc Hch Hw]; try done.
  pose proof (so_archived _ _ Hs) as HA. pose proof (so_end _ _ Hs) as Hend. pose proof (so_start _ _ Hs) as HS.
  destruct Hw as [Hws Hwr Hwe Hwsp Hwt Hwf].
  split_and!; try done; try lia; [by rewrite <- Hws|].
  intros Heof. destruct (He Heof) as (Hp & Hu & _). unfold all_bytes in Hb. rewrite Hp, Hu, app_nil_r in Hb.
  assert (Hlen : py_len (py_from total (os_spool_start s)) = py_len (os_data s)) by (by rewrite Hb).
  unfold stream_end, stream_size in *. rewrite py_from_len in Hlen; [lia|]. pose proof (py_len_nonneg (os_data s)). lia.
Qed.

Lemma captured_history_witness :
  exists s rows,
    life (fun _ _ => true) (fun _ => 1) (py "srv") 7 Stdout (py "hi") (mkPipe []) s rows
    /\ os_tail_text s = py "hi"
    /\ chain (py "srv") 7 (py "stdout") (py "hi") 0 None 0 rows (os_archived_upto s) (os_last_chunk s) (os_sequence s).
Proof.
  set (s1 := mkStream (py "hi") (Some 5) false [] 0 0 (SpecFloat.S754_zero false) 0 None 0 [] 0 0).
  assert (Hplan : exists plan d, plan_stream (fun _ => 1) (mkJob 7 4 s1 s1 false) Stdout (py "srv") true 0 = Ok (Some plan, d)
            /\ pl_tail_start plan <= pl_archived_upto plan /\ pl_tail_text plan = py "hi").
  { do 2 eexists. split; [vm_compute; reflexivity|]. split; [cbn; lia|reflexivity]. }
  destruct Hplan as (plan & d & Hplan & Hcov & Htext).
  assert (Hlife : life (fun _ _ => true) (fun _ => 1) (py "srv") 7 Stdout (py "hi") (mkPipe [])
            (after_publication s1 plan (SpecFloat.S754_zero false)) ([] ++ pl_chunks plan)).
  { eapply life_publish with (job := mkJob 7 4 s1 s1 false); [|reflexivity|reflexivity|reflexivity|exact Hplan|exact Hcov].
    eapply life_drain with (bound := 10) (used := 0) (p := mkPipe (py "hi")) (s := opened 5).
    - apply life_opened. reflexivity.
    - vm_compute. reflexivity. }
  eexists _, _. split; [exact Hlife|].
  assert (Ht : os_tail_text (after_publication s1 plan (SpecFloat.S754_zero false)) = py "hi").
  { rewrite <- Htext. apply after_fields. }
  split; [exact Ht|].
  refine (proj1 (captured_history (fun _ _ => true) (fun _ => 1) (py "srv") 7 Stdout (py "hi") (mkPipe []) _ _ _ _ _ _ _ _ Hlife)).
  - intros _. cbn. lia.
  - vm_compute. reflexivity.
  - discriminate.
  - cbn. lia.
  - apply (bool_decide_unpack _). vm_compute. exact I.
  - split; [vm_compute; discriminate|vm_compute; reflexivity].
Defined.

(** ** The job's spool stays within its bound *)

Section spool.
Context `{PipeLaws P} (can_extend : pybytes -> pybytes -> bool) (uuid4 : nat -> Z) (bound : Z).

(** The states of a job's capture along any sequence of drains of running and
    completed jobs and of publications, whatever their outcome. *)
Inductive job_life : (stream_name -> P) -> ActiveJob -> Prop :=
  | job_opened ps id version fd1 fd2 : job_life ps (mkJob id version (opened fd1) (opened fd2) false)
  | job_drain ps job n job' stop ps' :
      job_life ps job -> _drain_active_stream can_extend ps job n bound = (job', stop, ps') -> job_life ps' job'
  | job_drain_completed ps job job' stop progress ps' :
      job_life ps job -> _drain_completed_streams can_extend ps job bound = (job', stop, progress, ps') ->
      job_life ps' job'
  | job_publish ps job names now server force tx drawn r w job' drawn' :
      job_life ps job -> publish_output uuid4 job names now server force tx drawn = (r, w, job', drawn') ->
      job_life ps job'.

(** A stream after publishing captures from the same pipe and buffers no more. *)
Definition same_capture (s s' : OutputStream) : Prop :=
  os_fd s' = os_fd s /\ os_eof s' = os_eof s /\ os_pending s' = os_pending s
  /\ py_len (os_data s') <= py_len (os_data s).

Lemma same_capture_apply s p now : same_capture s (_apply_plan s p now).
Proof. by split_and!. Qed.

Lemma same_capture_trim s p : same_capture s (trim_stream s p).
Proof.
  unfold trim_stream, _drop_head, same_capture. destruct (Z.leb_spec (pl_tail_start p - os_spool_start s) 0); [done|].
  cbn. split_and!; try done. unfold py_len. rewrite length_drop. lia.
Qed.

Lemma same_capture_plans f ps :
  (forall s p, same_capture s (f s p)) ->
  forall job n, same_capture (job_stream job n) (job_stream (apply_plans f job ps) n).
Proof.
  intros Hf. unfold apply_plans. induction ps as [|[k q] ps IH]; intros job n; cbn [fold_left]; [by split_and!|].
  destruct (IH (set_stream job k (f (job_stream job k) q)) n) as (H1 & H2 & H3 & H4).
  unfold same_capture. rewrite H1, H2, H3. rewrite job_stream_set in *. destruct (decide (n = k)) as [->|]; [|done].
  destruct (Hf (job_stream job k) q) as (? & ? & ? & ?). split_and!; try done. lia.
Qed.

Lemma publish_same_capture job names now server force tx drawn r w job' drawn' :
  publish_output uuid4 job names now server force tx drawn = (r, w, job', drawn') ->
  forall n, same_capture (job_stream job n) (job_stream job' n).
Proof.
  intros Hp n. unfold publish_output in Hp.
  assert (Hsame : same_capture (job_stream job n) (job_stream job n)) by (by split_and!).
  destruct (_plan_streams _ _ _ _ _ _ _) as [[ps d]|e]; [|by simplify_eq].
  destruct ps as [|q ps0]; [by simplify_eq|]. set (ps := q :: ps0) in *.
  destruct (_full_windows job ps) as [[d1 d2]|e]; [|by simplify_eq].
  destruct tx; try by simplify_eq. destruct (json_dumps _) as [output|e]; [|by simplify_eq].
  set (job2 := _trim_published _ ps) in Hp. assert (Hj : job' = job2) by congruence. subst job'. unfold job2, _trim_published.
  destruct (same_capture_plans (fun s p => _apply_plan s p now) ps (fun s p => same_capture_apply s p now) job n)
    as (H1 & H2 & H3 & H4).
  destruct (same_capture_plans trim_stream ps same_capture_trim (apply_plans (fun s p => _apply_plan s p now) job ps) n)
    as (G1 & G2 & G3 & G4).
  split_and!; [congruence|congruence|congruence|lia].
Qed.

Lemma job_life_ok ps job : 0 <= bound -> job_life ps job -> job_ok ps job /\ _spool_used_bytes job <= bound.
Proof.
  intros Hbound Hlife. induction Hlife as [ps id version fd1 fd2|ps job n job' stop ps' _ [IHo IHb] Hd
    |ps job job' stop progress ps' _ [IHo IHb] Hd|ps job names now server force tx drawn r w job' drawn' _ [IHo IHb] Hp].
  - split; [|done]. intros n. by destruct n.
  - destruct (drain_active_step can_extend ps job n bound job' stop ps' IHo Hd) as [Ho _ _ Hb]. split; [done|lia].
  - destruct (drain_completed_step can_extend OUTPUT_STREAMS bound ps job false job' stop progress ps' IHo Hd) as [Ho _ _ Hb].
    split; [done|lia].
  - pose proof (publish_same_capture _ _ _ _ _ _ _ _ _ _ _ Hp) as Hsame. split.
    + intros n. destruct (Hsame n) as (H1 & H2 & H3 & _), (IHo n) as [He Hc].
      unfold at_end, closed_read in *. by rewrite H1, H2, H3.
    + destruct (Hsame Stdout) as (_ & _ & _ & H1), (Hsame Stderr) as (_ & _ & _ & H2). cbn in H1, H2.
      unfold _spool_used_bytes, stream_size in *. lia.
Qed.
End spool.

(** C36: The memory a job's output takes is bounded.  In every state a job's
    capture reaches by drains, of running or completed jobs, and publications,
    committed or not, the bytes buffered for both streams together never exceed
    the configured bound, so the last-resort overflow check never fires; and a
    stream marked at end of file has nothing retained and nothing unread. *)
Theorem spool_bounded `{PipeLaws P} can_extend uuid4 bound ps job :
  0 <= bound -> job_life can_extend uuid4 bound ps job ->
  _spool_used_bytes job <= bound /\ spool_overflow job bound = false
  /\ forall n, os_eof (job_stream job n) = true -> os_pending (job_stream job n) = [] /\ unread (ps n) = [].
Proof.
  intros Hb Hlife. apply job_life_ok in Hlife as [Hok Hle]; [|done]. split; [done|]. split.
  - unfold spool_overflow. lia.
  - intros n Hn. destruct (Hok n) as [He _]. by destruct (He Hn) as (? & ? & _).
Qed.

Lemma spool_bounded_witness :
  exists ps job,
    job_life (fun _ _ => true) Z.of_nat 3 ps job
    /\ os_data (job_stdout job) = py "hel" /\ _spool_used_bytes job <= 3.
Proof.
  set (job0 := mkJob 7 4 (opened 5) (opened 6) false).
  assert (Hd : exists job stop ps, _drain_active_stream (fun _ _ => true) (fun _ => mkPipe (py "hello")) job0 Stdout 3 = (job, stop, ps)
            /\ os_data (job_stdout job) = py "hel").
  { do 3 eexists. split; [vm_compute; reflexivity|reflexivity]. }
  destruct Hd as (job & stop & ps & Hd & Hdata).
  assert (Hlife : job_life (fun _ _ => true) Z.of_nat 3 ps job).
  { eapply job_drain; [apply (job_opened _ _ _ (fun _ => mkPipe (py "hello")) 7 4 5 6)|exact Hd]. }
  exists ps, job. split; [exact Hlife|]. split; [exact Hdata|].
  refine (proj1 (spool_bounded (fun _ _ => true) Z.of_nat 3 ps job _ Hlife)). lia.
Defined.
