(* ===== verification/SupervisorCodec.v ===== *)
(** The supervisor's durable records ([src/lubko/supervise.py]): the run
    intent, the daemon's state with its replacement-blocking obligations, the
    status and the diagnostic, each written as a JSON object and parsed back
    strictly.

    A parser takes the decoded object.  [data.get(k)] is [dict_get], absence
    being indistinguishable from null there; [k in data] is [dict_mem]. *)

From S2P Require Import Prelude PyStr PyNum Json JsonFacts ProcFs.
From Corelib Require Import SpecFloat.

#[local] Arguments py : simpl never.

Definition SCHEMA_VERSION : Z := 1.
Definition MODE_RUN : pystr := py "run".
Definition MODE_IDLE : pystr := py "idle".
Definition INTENT_RUN : pystr := py "run".
Definition INTENT_RETIRING : pystr := py "retiring".

(** ** Incarnation tokens ([health.validate_incarnation_token]) *)

Definition safe_filename_char (c : Z) : bool :=
  ((97 <=? c) && (c <=? 122)) || ((65 <=? c) && (c <=? 90)) || ((48 <=? c) && (c <=? 57)) || (c =? 95) || (c =? 45).

(** [re.match("^[a-zA-Z0-9_-]+$", s)]: [$] also matches before a final newline. *)
Definition _SAFE_FILENAME_RE (s : pystr) : bool :=
  match rev s with
  | [] => false
  | 10 :: ((_ :: _) as r) => forallb safe_filename_char r
  | r => forallb safe_filename_char r
  end.

Definition validate_incarnation_token (token : pystr) : res unit :=
  match token with
  | [] => Raise ValueError
  | _ => if _SAFE_FILENAME_RE token then Ok tt else Raise ValueError
  end.

(** ** Coercions of JSON values *)

Definition _optional_string (value : json) : option pystr :=
  match value with JStr s => Some s | _ => None end.

Definition _optional_incarnation_token (value : json) : option pystr :=
  match _optional_string value with
  | None => None
  | Some token => match validate_incarnation_token token with Ok _ => Some token | Raise _ => None end
  end.

Definition _strict_int (value : json) : option Z :=
  match value with JInt z => Some z | _ => None end.

Definition _strict_non_negative_int (value : json) : option Z :=
  match _strict_int value with
  | Some z => if z <? 0 then None else Some z
  | None => None
  end.

(** [f < 0] *)
Definition float_negative (f : pyfloat) : bool :=
  match f with S754_finite true _ _ => true | S754_infinity true => true | _ => false end.

Definition _strict_finite_float (value : json) : option pyfloat :=
  match value with
  | JInt z => let f := float_of_int z in if is_finite f then Some f else None
  | JFloat f => if is_finite f then Some f else None
  | _ => None
  end.

Definition _strict_non_negative_finite_float (value : json) : option pyfloat :=
  match _strict_finite_float value with
  | Some f => if float_negative f then None else Some f
  | None => None
  end.

Definition _optional_bool (value : json) : option bool :=
  match value with JBool b => Some b | _ => None end.

(** A parsed value, or [ValueError] for none. *)
Definition required {A} (o : option A) : res A := match o with Some a => Ok a | None => Raise ValueError end.

(** [None if raw is None else parser(raw)], refusing a malformed present value. *)
Definition nullable {A} (parser : json -> option A) (raw : json) : res (option A) :=
  match raw with
  | JNull => Ok None
  | _ => a ← required (parser raw); Ok (Some a)
  end.

(** [default] when the key is absent, otherwise the parsed value. *)
Definition present_or {A} (default : A) (parser : json -> option A) (data : dict) (key : pystr) : res A :=
  if dict_mem data key then required (parser (dict_get data key)) else Ok default.

(** ** Worker child *)

Definition _child_to_dict (child : WorkerChild) : dict :=
  [(py "pid", JInt (ch_pid child)); (py "pgid", JInt (ch_pgid child)); (py "sid", JInt (ch_sid child));
   (py "start_time_ticks", JInt (ch_start_time_ticks child)); (py "token", JStr (ch_token child));
   (py "worker_id", JStr (ch_worker_id child)); (py "spawned_at", JFloat (ch_spawned_at child))].

Definition _child_from_dict (data : dict) : res WorkerChild :=
  pid ← required (_strict_non_negative_int (dict_get data (py "pid")));
  pgid ← required (_strict_non_negative_int (dict_get data (py "pgid")));
  sid ← required (_strict_non_negative_int (dict_get data (py "sid")));
  ticks ← required (_strict_non_negative_int (dict_get data (py "start_time_ticks")));
  token ← required (_optional_incarnation_token (dict_get data (py "token")));
  worker_id ← required (_optional_string (dict_get data (py "worker_id")));
  spawned_at ← present_or zero _strict_non_negative_finite_float data (py "spawned_at");
  Ok (mkChild pid pgid sid ticks token worker_id spawned_at).

(** ** Desired run intent *)

Record SupervisorDesired := mkDesired {
  de_schema_version : Z;
  de_generation : Z;
  de_commit : pystr;
  de_repo : pystr;
  de_uv_path : pystr;
  de_worker_id : option pystr;
  de_restart : bool;
  de_requested_at : pyfloat;
  de_migration : bool;
}.

Definition desired_to_dict (d : SupervisorDesired) : dict :=
  [(py "schema_version", JInt (de_schema_version d)); (py "generation", JInt (de_generation d));
   (py "commit", JStr (de_commit d)); (py "repo", JStr (de_repo d)); (py "uv_path", JStr (de_uv_path d));
   (py "worker_id", json_opt JStr (de_worker_id d)); (py "restart", JBool (de_restart d));
   (py "requested_at", JFloat (de_requested_at d)); (py "migration", JBool (de_migration d))].

(** [data.get(key, False)], which must be a boolean. *)
Definition bool_or_false (data : dict) (key : pystr) : res bool :=
  if dict_mem data key then
    match dict_get data key with JBool b => Ok b | _ => Raise TypeError end
  else Ok false.

Definition desired_from_dict (data : dict) : res SupervisorDesired :=
  let schema_version := _strict_int (dict_get data (py "schema_version")) in
  let generation := _strict_non_negative_int (dict_get data (py "generation")) in
  let commit := _optional_string (dict_get data (py "commit")) in
  let repo := if dict_mem data (py "repo") then _optional_string (dict_get data (py "repo")) else Some [] in
  let uv_path := if dict_mem data (py "uv_path") then _optional_string (dict_get data (py "uv_path")) else Some [] in
  match schema_version, generation, commit, repo, uv_path with
  | Some schema_version, Some generation, Some commit, Some repo, Some uv_path =>
      if negb (schema_version =? SCHEMA_VERSION) then Raise ValueError
      else
        worker_id ← nullable _optional_string (dict_get data (py "worker_id"));
        requested_at ← present_or zero _strict_non_negative_finite_float data (py "requested_at");
        migration ← bool_or_false data (py "migration");
        restart ← bool_or_false data (py "restart");
        Ok (mkDesired schema_version generation commit repo uv_path worker_id restart requested_at migration)
  | _, _, _, _, _ => Raise ValueError
  end.

(** ** Unresolved child *)

Record UnresolvedChild := mkUnresolved {
  un_pid : Z;
  un_start_time_ticks : option Z;
  un_token : pystr;
  un_spawned_at : pyfloat;
}.

Definition unresolved_to_dict (u : UnresolvedChild) : dict :=
  [(py "pid", JInt (un_pid u)); (py "start_time_ticks", json_opt JInt (un_start_time_ticks u));
   (py "token", JStr (un_token u)); (py "spawned_at", JFloat (un_spawned_at u))].

Definition unresolved_from_dict (data : dict) : res UnresolvedChild :=
  pid ← required (_strict_non_negative_int (dict_get data (py "pid")));
  token ← required (_optional_incarnation_token (dict_get data (py "token")));
  ticks ← nullable _strict_non_negative_int (dict_get data (py "start_time_ticks"));
  spawned_at ← present_or zero _strict_non_negative_finite_float data (py "spawned_at");
  Ok (mkUnresolved pid ticks token spawned_at).

(** ** Spawning obligation *)

Record SpawningObligation := mkSpawning {
  so_token : pystr;
  so_commit : pystr;
  so_creator_pid : Z;
  so_creator_start_time_ticks : Z;
  so_pid : option Z;
  so_start_time_ticks : option Z;
  so_created_at : pyfloat;
  so_boot_id : option pystr;
  so_parent_death_signal : bool;
}.

Definition spawning_to_dict (s : SpawningObligation) : dict :=
  [(py "token", JStr (so_token s)); (py "commit", JStr (so_commit s)); (py "creator_pid", JInt (so_creator_pid s));
   (py "creator_start_time_ticks", JInt (so_creator_start_time_ticks s)); (py "pid", json_opt JInt (so_pid s));
   (py "start_time_ticks", json_opt JInt (so_start_time_ticks s)); (py "created_at", JFloat (so_created_at s));
   (py "boot_id", json_opt JStr (so_boot_id s)); (py "parent_death_signal", JBool (so_parent_death_signal s))].

Definition spawning_from_dict (data : dict) : res SpawningObligation :=
  token ← required (_optional_incarnation_token (dict_get data (py "token")));
  creator_pid ← required (_strict_non_negative_int (dict_get data (py "creator_pid")));
  creator_ticks ← required (_strict_non_negative_int (dict_get data (py "creator_start_time_ticks")));
  commit ← present_or [] _optional_string data (py "commit");
  pid ← nullable _strict_non_negative_int (dict_get data (py "pid"));
  ticks ← nullable _strict_non_negative_int (dict_get data (py "start_time_ticks"));
  created_at ← present_or zero _strict_non_negative_finite_float data (py "created_at");
  boot_id ← nullable _optional_string (dict_get data (py "boot_id"));
  parent_death_signal ← present_or true _optional_bool data (py "parent_death_signal");
  Ok (mkSpawning token commit creator_pid creator_ticks pid ticks created_at boot_id parent_death_signal).

(** ** Daemon state *)

Record LastExit := mkExit { le_returncode : option Z; le_at : pyfloat }.

Definition exit_to_dict (e : LastExit) : dict :=
  [(py "returncode", json_opt JInt (le_returncode e)); (py "at", JFloat (le_at e))].

Definition _parse_last_exit (data : dict) : option LastExit :=
  match dict_get data (py "last_exit") with
  | JObj exit_data =>
      let at_ := if dict_mem exit_data (py "at") then _strict_finite_float (dict_get exit_data (py "at")) else None in
      match nullable _strict_int (dict_get exit_data (py "returncode")), at_ with
      | Ok returncode, Some at_ => if float_negative at_ then None else Some (mkExit returncode at_)
      | _, _ => None
      end
  | _ => None
  end.

Record SupervisorState := mkState {
  st_schema_version : Z;
  st_applied_generation : Z;
  st_mode : pystr;
  st_commit : option pystr;
  st_child : option WorkerChild;
  st_unresolved_child : option UnresolvedChild;
  st_ownership_hold_malformed : bool;
  st_unresolved_hold_malformed : bool;
  st_spawning : option SpawningObligation;
  st_spawning_hold_malformed : bool;
  st_intent : pystr;
  st_restart_count : Z;
  st_next_attempt_at : option pyfloat;
  st_last_exit : option LastExit;
  st_last_spawn_at : option pyfloat;
  st_ready : bool;
  st_next_readiness_at : option pyfloat;
  st_boot_id : option pystr;
  st_supervisor_runtime_commit : option pystr;
}.

(** [**({} if v is None else {k: v})] *)
Definition unless_none (key : pystr) (v : option pystr) : dict :=
  match v with None => [] | Some s => [(key, JStr s)] end.

Definition state_to_dict (s : SupervisorState) : dict :=
  [(py "schema_version", JInt (st_schema_version s)); (py "applied_generation", JInt (st_applied_generation s));
   (py "mode", JStr (st_mode s)); (py "commit", json_opt JStr (st_commit s));
   (py "child", json_opt (fun c => JObj (_child_to_dict c)) (st_child s));
   (py "unresolved_child", json_opt (fun u => JObj (unresolved_to_dict u)) (st_unresolved_child s));
   (py "ownership_hold_malformed", JBool (st_ownership_hold_malformed s));
   (py "unresolved_hold_malformed", JBool (st_unresolved_hold_malformed s));
   (py "spawning", json_opt (fun o => JObj (spawning_to_dict o)) (st_spawning s));
   (py "spawning_hold_malformed", JBool (st_spawning_hold_malformed s)); (py "intent", JStr (st_intent s));
   (py "restart_count", JInt (st_restart_count s)); (py "next_attempt_at", json_opt JFloat (st_next_attempt_at s));
   (py "last_exit", json_opt (fun e => JObj (exit_to_dict e)) (st_last_exit s));
   (py "last_spawn_at", json_opt JFloat (st_last_spawn_at s)); (py "ready", JBool (st_ready s));
   (py "next_readiness_at", json_opt JFloat (st_next_readiness_at s))]
  ++ unless_none (py "boot_id") (st_boot_id s)
  ++ unless_none (py "supervisor_runtime_commit") (st_supervisor_runtime_commit s).

(** [data.get(key, default)] *)
Definition get_or (data : dict) (key : pystr) (default : json) : json :=
  if dict_mem data key then dict_get data key else default.

Definition is_one_of (v : json) (l : list pystr) : bool :=
  match v with JStr s => mem_str s l | _ => false end.

Definition _state_mode (data : dict) : pystr :=
  match get_or data (py "mode") (JStr MODE_IDLE) with
  | JStr s => if mem_str s [MODE_IDLE; MODE_RUN] then s else MODE_IDLE
  | _ => MODE_IDLE
  end.

Definition _state_intent (data : dict) : pystr :=
  match get_or data (py "intent") (JStr INTENT_RUN) with
  | JStr s => if mem_str s [INTENT_RUN; INTENT_RETIRING] then s else INTENT_RUN
  | _ => INTENT_RUN
  end.

Definition _state_commit (data : dict) : option pystr := _optional_string (dict_get data (py "commit")).

Definition _state_strings_malformed (data : dict) : bool :=
  negb (is_one_of (get_or data (py "mode") (JStr MODE_IDLE)) [MODE_IDLE; MODE_RUN])
  || negb (is_one_of (get_or data (py "intent") (JStr INTENT_RUN)) [INTENT_RUN; INTENT_RETIRING])
  || (match dict_get data (py "commit") with JNull | JStr _ => false | _ => true end).

Definition _validate_state_schema (data : dict) : res unit :=
  if dict_mem data (py "schema_version") then
    match _strict_int (dict_get data (py "schema_version")) with
    | Some v => if v =? SCHEMA_VERSION then Ok tt else Raise ValueError
    | None => Raise ValueError
    end
  else Ok tt.

Definition _strict_safety_hold (data : dict) (key : pystr) : bool :=
  if dict_mem data key then default true (_optional_bool (dict_get data key)) else false.

(** The value and whether a present one was malformed. *)
Definition _parse_present_strict (data : dict) (key : pystr) (parser : json -> option Z) : Z * bool :=
  if dict_mem data key then
    match parser (dict_get data key) with Some v => (v, false) | None => (0, true) end
  else (0, false).

Definition _parse_present_boot_identity (data : dict) (key : pystr) : option pystr * bool :=
  if dict_mem data key then
    match dict_get data key with JStr (c :: s) => (Some (c :: s), false) | _ => (None, true) end
  else (None, false).

Definition _parse_present_nullable_float (data : dict) (key : pystr) : option pyfloat * bool :=
  match dict_get data key with
  | JNull => (None, false)
  | raw => match _strict_finite_float raw with Some f => (Some f, false) | None => (None, true) end
  end.

Definition _parse_present_nullable_monotonic_float (data : dict) (key : pystr) : option pyfloat * bool :=
  match _parse_present_nullable_float data key with
  | (Some f, false) => if float_negative f then (None, true) else (Some f, false)
  | r => r
  end.

(** A nested record: absent or null, parsed, or present but malformed. *)
Definition parse_optional_record {A} (parser : dict -> res A) (v : json) : option A * bool :=
  match v with
  | JNull => (None, false)
  | JObj d => match parser d with Ok a => (Some a, false) | Raise _ => (None, true) end
  | _ => (None, true)
  end.

Definition _parse_optional_child (data : dict) : option WorkerChild * bool :=
  parse_optional_record _child_from_dict (dict_get data (py "child")).
Definition _parse_optional_unresolved_child (data : dict) : option UnresolvedChild * bool :=
  parse_optional_record unresolved_from_dict (dict_get data (py "unresolved_child")).
Definition _parse_optional_spawning (data : dict) : option SpawningObligation * bool :=
  parse_optional_record spawning_from_dict (dict_get data (py "spawning")).

Definition state_from_dict (data : dict) : res SupervisorState :=
  _ ← _validate_state_schema data;
  let '(child, child_malformed) := _parse_optional_child data in
  let '(unresolved, unresolved_malformed) := _parse_optional_unresolved_child data in
  let '(spawning, spawning_malformed) := _parse_optional_spawning data in
  let '(generation, generation_malformed) :=
    _parse_present_strict data (py "applied_generation") _strict_non_negative_int in
  let '(restart_count, restart_malformed) := _parse_present_strict data (py "restart_count") _strict_non_negative_int in
  let '(next_attempt_at, deadline_malformed) := _parse_present_nullable_float data (py "next_attempt_at") in
  let '(last_spawn_at, spawn_at_malformed) := _parse_present_nullable_monotonic_float data (py "last_spawn_at") in
  let '(next_readiness_at, readiness_malformed) :=
    _parse_present_nullable_monotonic_float data (py "next_readiness_at") in
  let '(boot_id, boot_malformed) := _parse_present_boot_identity data (py "boot_id") in
  let ownership_malformed :=
    child_malformed || generation_malformed || restart_malformed || deadline_malformed
    || (spawn_at_malformed || readiness_malformed) || boot_malformed in
  Ok (mkState SCHEMA_VERSION generation (_state_mode data) (_state_commit data) child unresolved
        (ownership_malformed || _state_strings_malformed data || _strict_safety_hold data (py "ownership_hold_malformed"))
        (unresolved_malformed || _strict_safety_hold data (py "unresolved_hold_malformed"))
        spawning
        (spawning_malformed || _strict_safety_hold data (py "spawning_hold_malformed"))
        (_state_intent data) restart_count next_attempt_at (_parse_last_exit data) last_spawn_at
        (match dict_get data (py "ready") with JBool true => true | _ => false end)
        next_readiness_at boot_id (_optional_string (dict_get data (py "supervisor_runtime_commit")))).

Definition fresh_state : SupervisorState :=
  mkState SCHEMA_VERSION 0 MODE_IDLE None None None false false None false INTENT_RUN 0 None None None false None None None.

Definition is_holding (s : SupervisorState) : bool :=
  if st_ownership_hold_malformed s || st_unresolved_hold_malformed s then true
  else if st_spawning_hold_malformed s then true
  else if (match st_unresolved_child s with Some _ => true | None => false end)
          || (match st_spawning s with Some _ => true | None => false end) then true
  else if negb (str_eqb (st_intent s) INTENT_RUN) then true
  else negb (str_eqb (st_mode s) MODE_RUN) || (match st_child s with None => true | Some _ => false end).

(** ** Diagnostic fields

    Absence is a default; a present value of the wrong type raises [TypeError]
    and one outside its domain [ValueError]. *)

Definition _parse_status_nullable_dict (data : dict) (key : pystr) : res (option dict) :=
  match dict_get data key with JNull => Ok None | JObj d => Ok (Some d) | _ => Raise TypeError end.

Definition _parse_diagnostic_bool (data : dict) (key : pystr) : res bool := bool_or_false data key.

Definition _parse_diagnostic_nullable_bool (data : dict) (key : pystr) : res (option bool) :=
  match dict_get data key with JNull => Ok None | JBool b => Ok (Some b) | _ => Raise TypeError end.

Definition non_negative (raw : json) : res Z :=
  match raw with JInt z => if z <? 0 then Raise ValueError else Ok z | _ => Raise TypeError end.

Definition _parse_diagnostic_non_negative_int (data : dict) (key : pystr) : res Z :=
  if dict_mem data key then non_negative (dict_get data key) else Ok 0.

Definition _parse_diagnostic_nullable_int (data : dict) (key : pystr) : res (option Z) :=
  match dict_get data key with JNull => Ok None | raw => z ← non_negative raw; Ok (Some z) end.

Definition finite_number (raw : json) : res pyfloat :=
  match raw with JInt _ | JFloat _ => required (_strict_finite_float raw) | _ => Raise TypeError end.

Definition _parse_diagnostic_nullable_float (data : dict) (key : pystr) : res (option pyfloat) :=
  match dict_get data key with JNull => Ok None | raw => f ← finite_number raw; Ok (Some f) end.

Definition _parse_diagnostic_float (data : dict) (key : pystr) : res pyfloat :=
  match dict_get data key with JNull => Ok zero | raw => finite_number raw end.

Definition _parse_diagnostic_string (data : dict) (key default : pystr) : res pystr :=
  if dict_mem data key then
    match dict_get data key with
    | JStr [] => Raise ValueError
    | JStr s => Ok s
    | _ => Raise TypeError
    end
  else Ok default.

Definition _parse_diagnostic_nullable_string (data : dict) (key : pystr) : res (option pystr) :=
  match dict_get data key with JNull => Ok None | JStr s => Ok (Some s) | _ => Raise TypeError end.

(** [mode] and [intent], which must be known. *)
Definition mode_and_intent (data : dict) : res (pystr * pystr) :=
  mode ← _parse_diagnostic_string data (py "mode") MODE_IDLE;
  intent ← _parse_diagnostic_string data (py "intent") INTENT_RUN;
  if negb (mem_str mode [MODE_RUN; MODE_IDLE]) || negb (mem_str intent [INTENT_RUN; INTENT_RETIRING])
  then Raise ValueError
  else Ok (mode, intent).

(** ** Status *)

Record SupervisorStatus := mkStatus {
  ss_schema_version : Z;
  ss_supervisor_pid : Z;
  ss_supervisor_start_time_ticks : Z;
  ss_started_at : pyfloat;
  ss_applied_generation : Z;
  ss_mode : pystr;
  ss_commit : option pystr;
  ss_child : option WorkerChild;
  ss_intent : pystr;
  ss_restart_count : Z;
  ss_next_attempt_at : option pyfloat;
  ss_last_exit : option LastExit;
  ss_mission : option pystr;
  ss_db_ready : option bool;
  ss_ready : option bool;
  ss_message : option pystr;
  ss_worker_health : option dict;
  ss_holding : bool;
  ss_supervisor_runtime_commit : option pystr;
  ss_supervisor_runtime_contract_version : option Z;
  ss_published_at : pyfloat;
  ss_diagnostic_drops : Z;
}.

Definition status_to_dict (s : SupervisorStatus) : dict :=
  [(py "schema_version", JInt (ss_schema_version s)); (py "supervisor_pid", JInt (ss_supervisor_pid s));
   (py "supervisor_start_time_ticks", JInt (ss_supervisor_start_time_ticks s));
   (py "started_at", JFloat (ss_started_at s)); (py "applied_generation", JInt (ss_applied_generation s));
   (py "mode", JStr (ss_mode s)); (py "commit", json_opt JStr (ss_commit s));
   (py "child", json_opt (fun c => JObj (_child_to_dict c)) (ss_child s)); (py "intent", JStr (ss_intent s));
   (py "restart_count", JInt (ss_restart_count s)); (py "next_attempt_at", json_opt JFloat (ss_next_attempt_at s));
   (py "last_exit", json_opt (fun e => JObj (exit_to_dict e)) (ss_last_exit s));
   (py "mission", json_opt JStr (ss_mission s)); (py "db_ready", json_opt JBool (ss_db_ready s));
   (py "ready", json_opt JBool (ss_ready s)); (py "message", json_opt JStr (ss_message s));
   (py "worker_health", json_opt JObj (ss_worker_health s)); (py "holding", JBool (ss_holding s));
   (py "supervisor_runtime_commit", json_opt JStr (ss_supervisor_runtime_commit s));
   (py "supervisor_runtime_contract_version", json_opt JInt (ss_supervisor_runtime_contract_version s));
   (py "published_at", JFloat (ss_published_at s)); (py "diagnostic_drops", JInt (ss_diagnostic_drops s))].

Definition status_from_dict (data : dict) : res SupervisorStatus :=
  schema_version ←
    (if dict_mem data (py "schema_version") then
       match _strict_int (dict_get data (py "schema_version")) with Some v => Ok v | None => Raise TypeError end
     else Ok SCHEMA_VERSION);
  started_at ← (if dict_mem data (py "started_at") then finite_number (dict_get data (py "started_at")) else Ok zero);
  '(mode, intent) ← mode_and_intent data;
  child ←
    match dict_get data (py "child") with
    | JNull => Ok None
    | JObj d => c ← _child_from_dict d; Ok (Some c)
    | _ => Raise TypeError
    end;
  worker_health ← _parse_status_nullable_dict data (py "worker_health");
  supervisor_pid ← _parse_diagnostic_non_negative_int data (py "supervisor_pid");
  ticks ← _parse_diagnostic_non_negative_int data (py "supervisor_start_time_ticks");
  applied_generation ← _parse_diagnostic_non_negative_int data (py "applied_generation");
  commit ← _parse_diagnostic_nullable_string data (py "commit");
  restart_count ← _parse_diagnostic_non_negative_int data (py "restart_count");
  next_attempt_at ← _parse_diagnostic_nullable_float data (py "next_attempt_at");
  let last_exit := _parse_last_exit data in
  mission ← _parse_diagnostic_nullable_string data (py "mission");
  db_ready ← _parse_diagnostic_nullable_bool data (py "db_ready");
  ready ← _parse_diagnostic_nullable_bool data (py "ready");
  message ← _parse_diagnostic_nullable_string data (py "message");
  holding ← _parse_diagnostic_bool data (py "holding");
  runtime_commit ← _parse_diagnostic_nullable_string data (py "supervisor_runtime_commit");
  contract_version ← _parse_diagnostic_nullable_int data (py "supervisor_runtime_contract_version");
  published_at ← _parse_diagnostic_float data (py "published_at");
  drops ← _parse_diagnostic_non_negative_int data (py "diagnostic_drops");
  Ok (mkStatus schema_version supervisor_pid ticks started_at applied_generation mode commit child intent restart_count
        next_attempt_at last_exit mission db_ready ready message worker_health holding runtime_commit contract_version
        published_at drops).

(** ** Diagnostic *)

Record SupervisorDiagnostic := mkDiagnostic {
  dg_live : bool;
  dg_source : pystr;
  dg_supervisor_present : bool;
  dg_supervisor_alive : option bool;
  dg_mode : pystr;
  dg_intent : pystr;
  dg_commit : option pystr;
  dg_applied_generation : Z;
  dg_restart_count : Z;
  dg_next_attempt_at : option pyfloat;
  dg_ready : bool;
  dg_next_readiness_at : option pyfloat;
  dg_holding : bool;
  dg_ownership_hold_malformed : bool;
  dg_unresolved_hold_malformed : bool;
  dg_spawning_hold_malformed : bool;
  dg_child_present : bool;
  dg_unresolved_child_present : bool;
  dg_spawning_present : bool;
  dg_last_exit : option LastExit;
  dg_message : option pystr;
  dg_supervisor_runtime_commit : option pystr;
  dg_supervisor_runtime_contract_version : option Z;
}.

Definition diagnostic_to_dict (d : SupervisorDiagnostic) : dict :=
  [(py "live", JBool (dg_live d)); (py "source", JStr (dg_source d));
   (py "supervisor_present", JBool (dg_supervisor_present d));
   (py "supervisor_alive", json_opt JBool (dg_supervisor_alive d)); (py "mode", JStr (dg_mode d));
   (py "intent", JStr (dg_intent d)); (py "commit", json_opt JStr (dg_commit d));
   (py "applied_generation", JInt (dg_applied_generation d)); (py "restart_count", JInt (dg_restart_count d));
   (py "next_attempt_at", json_opt JFloat (dg_next_attempt_at d)); (py "ready", JBool (dg_ready d));
   (py "next_readiness_at", json_opt JFloat (dg_next_readiness_at d)); (py "holding", JBool (dg_holding d));
   (py "ownership_hold_malformed", JBool (dg_ownership_hold_malformed d));
   (py "unresolved_hold_malformed", JBool (dg_unresolved_hold_malformed d));
   (py "spawning_hold_malformed", JBool (dg_spawning_hold_malformed d));
   (py "child_present", JBool (dg_child_present d)); (py "unresolved_child_present", JBool (dg_unresolved_child_present d));
   (py "spawning_present", JBool (dg_spawning_present d));
   (py "last_exit", json_opt (fun e => JObj (exit_to_dict e)) (dg_last_exit d));
   (py "message", json_opt JStr (dg_message d));
   (py "supervisor_runtime_commit", json_opt JStr (dg_supervisor_runtime_commit d));
   (py "supervisor_runtime_contract_version", json_opt JInt (dg_supervisor_runtime_contract_version d))].

Definition diagnostic_from_dict (data : dict) : res SupervisorDiagnostic :=
  source ← _parse_diagnostic_string data (py "source") (py "durable-state");
  '(mode, intent) ← mode_and_intent data;
  live ← _parse_diagnostic_bool data (py "live");
  present ← _parse_diagnostic_bool data (py "supervisor_present");
  alive ← _parse_diagnostic_nullable_bool data (py "supervisor_alive");
  commit ← _parse_diagnostic_nullable_string data (py "commit");
  applied_generation ← _parse_diagnostic_non_negative_int data (py "applied_generation");
  restart_count ← _parse_diagnostic_non_negative_int data (py "restart_count");
  next_attempt_at ← _parse_diagnostic_nullable_float data (py "next_attempt_at");
  ready ← _parse_diagnostic_bool data (py "ready");
  next_readiness_at ← _parse_diagnostic_nullable_float data (py "next_readiness_at");
  holding ← _parse_diagnostic_bool data (py "holding");
  ownership ← _parse_diagnostic_bool data (py "ownership_hold_malformed");
  unresolved ← _parse_diagnostic_bool data (py "unresolved_hold_malformed");
  spawning ← _parse_diagnostic_bool data (py "spawning_hold_malformed");
  child_present ← _parse_diagnostic_bool data (py "child_present");
  unresolved_present ← _parse_diagnostic_bool data (py "unresolved_child_present");
  spawning_present ← _parse_diagnostic_bool data (py "spawning_present");
  let last_exit := _parse_last_exit data in
  message ← _parse_diagnostic_nullable_string data (py "message");
  runtime_commit ← _parse_diagnostic_nullable_string data (py "supervisor_runtime_commit");
  contract_version ← _parse_diagnostic_nullable_int data (py "supervisor_runtime_contract_version");
  Ok (mkDiagnostic live source present alive mode intent commit applied_generation restart_count next_attempt_at ready
        next_readiness_at holding ownership unresolved spawning child_present unresolved_present spawning_present
        last_exit message runtime_commit contract_version).

Definition present {A} (o : option A) : bool := match o with Some _ => true | None => false end.

(** [derive_durable_diagnostic], given the state read, the recorded supervisor
    identity ([Raise] when malformed) and whether that supervisor runs. *)
Definition derive_durable_diagnostic (state : SupervisorState) (recorded : res (option (Z * Z))) (running : bool)
    : SupervisorDiagnostic :=
  let '(supervisor_present, supervisor_alive) :=
    match recorded with
    | Ok None => (false, None)
    | Ok (Some _) => (true, Some running)
    | Raise _ => (true, Some false)
    end in
  mkDiagnostic false (py "durable-state") supervisor_present supervisor_alive (st_mode state) (st_intent state)
    (st_commit state) (st_applied_generation state) (st_restart_count state) (st_next_attempt_at state) (st_ready state)
    (st_next_readiness_at state) (is_holding state) (st_ownership_hold_malformed state)
    (st_unresolved_hold_malformed state) (st_spawning_hold_malformed state) (present (st_child state))
    (present (st_unresolved_child state)) (present (st_spawning state)) (st_last_exit state) None
    (st_supervisor_runtime_commit state) None.

(** ** Well-formed records *)

Definition finite (f : pyfloat) : Prop := is_finite f = true.
Definition non_negative_finite (f : pyfloat) : Prop := finite f /\ float_negative f = false.
Definition token_ok (t : pystr) : Prop := validate_incarnation_token t = Ok tt.
Definition all_opt {A} (P : A -> Prop) (o : option A) : Prop := match o with Some a => P a | None => True end.
Definition nat_like (z : Z) : Prop := 0 <= z.

Record child_wf (c : WorkerChild) : Prop := {
  cw_ints : Forall nat_like [ch_pid c; ch_pgid c; ch_sid c; ch_start_time_ticks c];
  cw_token : token_ok (ch_token c);
  cw_spawned_at : non_negative_finite (ch_spawned_at c);
}.

Record unresolved_wf (u : UnresolvedChild) : Prop := {
  uw_pid : nat_like (un_pid u);
  uw_ticks : all_opt nat_like (un_start_time_ticks u);
  uw_token : token_ok (un_token u);
  uw_spawned_at : non_negative_finite (un_spawned_at u);
}.

Record spawning_wf (s : SpawningObligation) : Prop := {
  sw_token : token_ok (so_token s);
  sw_creator : nat_like (so_creator_pid s) /\ nat_like (so_creator_start_time_ticks s);
  sw_pid : all_opt nat_like (so_pid s) /\ all_opt nat_like (so_start_time_ticks s);
  sw_created_at : non_negative_finite (so_created_at s);
}.

Record exit_wf (e : LastExit) : Prop := { ew_at : non_negative_finite (le_at e) }.

Record desired_wf (d : SupervisorDesired) : Prop := {
  dw_schema : de_schema_version d = SCHEMA_VERSION;
  dw_generation : nat_like (de_generation d);
  dw_requested_at : non_negative_finite (de_requested_at d);
}.

Record state_wf (s : SupervisorState) : Prop := {
  stw_schema : st_schema_version s = SCHEMA_VERSION;
  stw_generation : nat_like (st_applied_generation s);
  stw_mode : In (st_mode s) [MODE_IDLE; MODE_RUN];
  stw_child : all_opt child_wf (st_child s);
  stw_unresolved : all_opt unresolved_wf (st_unresolved_child s);
  stw_spawning : all_opt spawning_wf (st_spawning s);
  stw_intent : In (st_intent s) [INTENT_RUN; INTENT_RETIRING];
  stw_restart_count : nat_like (st_restart_count s);
  stw_next_attempt_at : all_opt finite (st_next_attempt_at s);
  stw_last_exit : all_opt exit_wf (st_last_exit s);
  stw_last_spawn_at : all_opt non_negative_finite (st_last_spawn_at s);
  stw_next_readiness_at : all_opt non_negative_finite (st_next_readiness_at s);
  stw_boot_id : all_opt (fun b => b <> []) (st_boot_id s);
}.

Record status_wf (s : SupervisorStatus) : Prop := {
  ssw_ints : Forall nat_like [ss_supervisor_pid s; ss_supervisor_start_time_ticks s; ss_applied_generation s;
                              ss_restart_count s; ss_diagnostic_drops s];
  ssw_floats : Forall finite [ss_started_at s; ss_published_at s];
  ssw_mode : In (ss_mode s) [MODE_RUN; MODE_IDLE];
  ssw_intent : In (ss_intent s) [INTENT_RUN; INTENT_RETIRING];
  ssw_child : all_opt child_wf (ss_child s);
  ssw_next_attempt_at : all_opt finite (ss_next_attempt_at s);
  ssw_last_exit : all_opt exit_wf (ss_last_exit s);
  ssw_contract : all_opt nat_like (ss_supervisor_runtime_contract_version s);
}.

Record diagnostic_wf (d : SupervisorDiagnostic) : Prop := {
  dgw_source : dg_source d <> [];
  dgw_mode : In (dg_mode d) [MODE_RUN; MODE_IDLE];
  dgw_intent : In (dg_intent d) [INTENT_RUN; INTENT_RETIRING];
  dgw_ints : nat_like (dg_applied_generation d) /\ nat_like (dg_restart_count d);
  dgw_floats : all_opt finite (dg_next_attempt_at d) /\ all_opt finite (dg_next_readiness_at d);
  dgw_last_exit : all_opt exit_wf (dg_last_exit d);
  dgw_contract : all_opt nat_like (dg_supervisor_runtime_contract_version d);
}.

(** ** What the coercions return *)

Lemma strict_int_inv v z : _strict_int v = Some z <-> v = JInt z.
Proof. destruct v; cbn; split; congruence. Qed.

Lemma strict_nat_inv v z : _strict_non_negative_int v = Some z <-> v = JInt z /\ nat_like z.
Proof.
  unfold _strict_non_negative_int, nat_like. destruct (_strict_int v) as [y|] eqn:E.
  - apply strict_int_inv in E as ->. destruct (Z.ltb_spec y 0); split; [done| |by intros [= <-]|].
    + intros [[= ->] ?]. lia.
    + intros [[= ->] _]. done.
  - split; [done|]. intros [-> _]. done.
Qed.

Lemma optional_string_inv v s : _optional_string v = Some s <-> v = JStr s.
Proof. destruct v; cbn; split; congruence. Qed.

Lemma token_inv v t : _optional_incarnation_token v = Some t <-> v = JStr t /\ token_ok t.
Proof.
  unfold _optional_incarnation_token, token_ok. destruct (_optional_string v) as [s|] eqn:E.
  - apply optional_string_inv in E as ->. destruct (validate_incarnation_token s) as [[]|] eqn:Hv; split.
    + by intros [= <-].
    + by intros [[= ->] _].
    + done.
    + intros [[= ->] ?]. congruence.
  - split; [done|]. intros [-> _]. done.
Qed.

Lemma finite_float_inv v f : _strict_finite_float v = Some f -> finite f.
Proof. unfold _strict_finite_float, finite. destruct v; try done; repeat case_match; try done; intros [= <-]; done. Qed.

Lemma finite_float_JFloat f : finite f -> _strict_finite_float (JFloat f) = Some f.
Proof. unfold finite. cbn. by intros ->. Qed.

Lemma non_negative_float_inv v f : _strict_non_negative_finite_float v = Some f -> non_negative_finite f.
Proof.
  unfold _strict_non_negative_finite_float, non_negative_finite. destruct (_strict_finite_float v) as [g|] eqn:E; [|done].
  destruct (float_negative g) eqn:En; [done|]. intros [= <-]. split; [by eapply finite_float_inv|done].
Qed.

Lemma non_negative_float_JFloat f : non_negative_finite f -> _strict_non_negative_finite_float (JFloat f) = Some f.
Proof.
  intros [Hf Hn]. unfold _strict_non_negative_finite_float. by rewrite finite_float_JFloat, Hn.
Qed.

Lemma required_inv {A} (o : option A) a : required o = Ok a <-> o = Some a.
Proof. destruct o; cbn; split; congruence. Qed.

Lemma nullable_inv {A} (parser : json -> option A) v o :
  nullable parser v = Ok o -> (v = JNull /\ o = None) \/ exists a, parser v = Some a /\ o = Some a.
Proof.
  intros H. destruct v; [left; cbn in H; split; congruence|..];
    right; unfold nullable in H; res_inv H; apply required_inv in B; eauto.
Qed.

Lemma nullable_opt {A} (parser : json -> option A) (f : A -> json) o :
  all_opt (fun a => parser (f a) = Some a) o -> (forall a, f a <> JNull) -> nullable parser (json_opt f o) = Ok o.
Proof.
  intros Ho Hf. destruct o as [a|]; [|done]. cbn in *. unfold nullable. specialize (Hf a).
  destruct (f a); try done; cbn [mbind res_bind]; by rewrite Ho.
Qed.

Lemma present_or_inv {A} (d : A) parser data key a :
  present_or d parser data key = Ok a -> a = d \/ parser (dict_get data key) = Some a.
Proof. unfold present_or. destruct (dict_mem data key); [rewrite required_inv; by right|left; congruence]. Qed.

(** ** Parsed records are well formed *)

Ltac parsed :=
  repeat match goal with
  | H : required _ = Ok _ |- _ => apply required_inv in H
  | H : _strict_non_negative_int _ = Some _ |- _ => apply strict_nat_inv in H as [? ?]
  | H : _optional_incarnation_token _ = Some _ |- _ => apply token_inv in H as [? ?]
  | H : _strict_non_negative_finite_float _ = Some _ |- _ => apply non_negative_float_inv in H
  | H : present_or _ _ _ _ = Ok _ |- _ => apply present_or_inv in H as [->|H]
  | H : nullable _ _ = Ok _ |- _ => apply nullable_inv in H as [[? ->]|(? & H & ->)]
  end.

Lemma zero_ok : non_negative_finite zero.
Proof. done. Qed.
#[local] Hint Resolve zero_ok : core.

Lemma child_parsed d c : _child_from_dict d = Ok c -> child_wf c.
Proof.
  unfold _child_from_dict. intros H. res_inv H. subst c.
  parsed; (split; cbn; [repeat (apply List.Forall_cons; [done|]); apply List.Forall_nil|done|done]).
Qed.

Lemma unresolved_parsed d u : unresolved_from_dict d = Ok u -> unresolved_wf u.
Proof. unfold unresolved_from_dict. intros H. res_inv H. subst u. parsed; by split. Qed.

Lemma spawning_parsed d s : spawning_from_dict d = Ok s -> spawning_wf s.
Proof. unfold spawning_from_dict. intros H. res_inv H. subst s. parsed; (split; [done|by split|by split|done]). Qed.

Lemma exit_parsed d e : _parse_last_exit d = Some e -> exit_wf e.
Proof.
  unfold _parse_last_exit. intros H. repeat case_match; try done. injection H as <-. split. split; [|done].
  repeat match goal with Hx : (if _ then _ else None) = Some _ |- _ => destruct (dict_mem _ _) in Hx; [|done] end.
  by eapply finite_float_inv.
Qed.

Lemma optional_record_parsed {A} (parser : dict -> res A) (P : A -> Prop) v o b :
  (forall d a, parser d = Ok a -> P a) -> parse_optional_record parser v = (o, b) -> all_opt P o.
Proof.
  intros HP H. unfold parse_optional_record in H. repeat case_match; simplify_eq; try done. cbn. by eapply HP.
Qed.

(** ** Round trips *)

Ltac eval_fields := eval_get; eval_mem; cbn [mbind res_bind].

Lemma present_or_JFloat key f d :
  non_negative_finite f -> dict_mem d key = true -> dict_get d key = JFloat f ->
  present_or zero _strict_non_negative_finite_float d key = Ok f.
Proof. intros Hf Hm Hg. unfold present_or. rewrite Hm, Hg. by rewrite non_negative_float_JFloat. Qed.

Lemma required_nat z : nat_like z -> required (_strict_non_negative_int (JInt z)) = Ok z.
Proof. intros Hz. by rewrite (proj2 (strict_nat_inv _ z)). Qed.

Lemma required_token t : token_ok t -> required (_optional_incarnation_token (JStr t)) = Ok t.
Proof. intros Hz. by rewrite (proj2 (token_inv _ t)). Qed.

Lemma nullable_nat o : all_opt nat_like o -> nullable _strict_non_negative_int (json_opt JInt o) = Ok o.
Proof. intros Ho. apply nullable_opt; [|done]. destruct o; [|done]. by apply strict_nat_inv. Qed.

Lemma nullable_string o : nullable _optional_string (json_opt JStr o) = Ok o.
Proof. apply nullable_opt; [|done]. by destruct o. Qed.

Lemma child_round_trip c : child_wf c -> _child_from_dict (_child_to_dict c) = Ok c.
Proof.
  intros [Hi Ht Hf]. repeat (apply List.Forall_cons_iff in Hi as [? Hi]).
  unfold _child_from_dict, _child_to_dict. eval_get. rewrite !required_nat by done. cbn [mbind res_bind].
  rewrite required_token by done. cbn [mbind res_bind]. rewrite (present_or_JFloat _ (ch_spawned_at c)); [|done|..].
  - by destruct c.
  - by eval_mem.
  - by eval_get.
Qed.

Lemma unresolved_round_trip u : unresolved_wf u -> unresolved_from_dict (unresolved_to_dict u) = Ok u.
Proof.
  intros [Hp Hti Ht Hf]. unfold unresolved_from_dict, unresolved_to_dict. eval_get.
  rewrite required_nat by done. cbn [mbind res_bind]. rewrite required_token by done. cbn [mbind res_bind].
  rewrite nullable_nat by done. cbn [mbind res_bind]. rewrite (present_or_JFloat _ (un_spawned_at u)); [|done|..].
  - by destruct u.
  - by eval_mem.
  - by eval_get.
Qed.

Lemma spawning_round_trip s : spawning_wf s -> spawning_from_dict (spawning_to_dict s) = Ok s.
Proof.
  intros [Ht [Hc1 Hc2] [Hp1 Hp2] Hf]. unfold spawning_from_dict, spawning_to_dict. eval_get.
  rewrite required_token by done. cbn [mbind res_bind]. rewrite !required_nat by done. cbn [mbind res_bind].
  unfold present_or at 1. eval_mem. eval_get. cbn [mbind res_bind _optional_string required].
  rewrite !nullable_nat by done. cbn [mbind res_bind].
  rewrite (present_or_JFloat _ (so_created_at s)); [|done|by eval_mem|by eval_get]. cbn [mbind res_bind].
  rewrite nullable_string. cbn [mbind res_bind]. unfold present_or. eval_mem. eval_get. by destruct s.
Qed.

Lemma exit_round_trip (e : LastExit) d :
  exit_wf e -> dict_get d (py "last_exit") = JObj (exit_to_dict e) -> _parse_last_exit d = Some e.
Proof.
  intros [[Hf Hn]] Hg. unfold _parse_last_exit. rewrite Hg. unfold exit_to_dict. eval_get. eval_mem.
  rewrite finite_float_JFloat by done.
  assert (Hr : nullable _strict_int (json_opt JInt (le_returncode e)) = Ok (le_returncode e)).
  { apply nullable_opt; [|done]. by destruct (le_returncode e). }
  rewrite Hr, Hn. by destruct e.
Qed.

Lemma desired_round_trip d : desired_wf d -> desired_from_dict (desired_to_dict d) = Ok d.
Proof.
  intros [Hs Hg Hf]. unfold desired_from_dict, desired_to_dict. eval_get. eval_mem.
  cbn [_strict_int _optional_string]. rewrite (proj2 (strict_nat_inv _ (de_generation d))) by done.
  rewrite Hs. cbn [negb Z.eqb SCHEMA_VERSION Pos.eqb]. rewrite nullable_string. cbn [mbind res_bind].
  rewrite (present_or_JFloat _ (de_requested_at d)); [|done|by eval_mem|by eval_get]. cbn [mbind res_bind].
  unfold bool_or_false. eval_mem. eval_get. cbn [mbind res_bind]. rewrite <- Hs. by destruct d.
Qed.

Lemma record_round_trip {A} (to_dict : A -> dict) (parser : dict -> res A) o :
  all_opt (fun a => parser (to_dict a) = Ok a) o ->
  parse_optional_record parser (json_opt (fun a => JObj (to_dict a)) o) = (o, false).
Proof. destruct o as [a|]; [|done]. cbn. by intros ->. Qed.

Lemma all_opt_impl {A} (P Q : A -> Prop) o : (forall a, P a -> Q a) -> all_opt P o -> all_opt Q o.
Proof. destruct o; cbn; auto. Qed.

Lemma last_exit_round_trip d o :
  all_opt exit_wf o -> dict_get d (py "last_exit") = json_opt (fun e => JObj (exit_to_dict e)) o -> _parse_last_exit d = o.
Proof.
  destruct o as [e|]; cbn; intros He Hg; [by apply exit_round_trip|]. unfold _parse_last_exit. by rewrite Hg.
Qed.

Lemma nullable_float_round_trip d key o :
  all_opt finite o -> dict_get d key = json_opt JFloat o -> _parse_present_nullable_float d key = (o, false).
Proof.
  intros Ho Hg. unfold _parse_present_nullable_float. rewrite Hg. destruct o as [f|]; [|done]. cbn [json_opt].
  by rewrite finite_float_JFloat.
Qed.

Lemma monotonic_round_trip d key o :
  all_opt non_negative_finite o -> dict_get d key = json_opt JFloat o ->
  _parse_present_nullable_monotonic_float d key = (o, false).
Proof.
  intros Ho Hg. unfold _parse_present_nullable_monotonic_float.
  rewrite (nullable_float_round_trip d key o); [|by eapply all_opt_impl; [|exact Ho]; intros ? []|done].
  destruct o as [f|]; [|done]. destruct Ho as [_ Hn]. by rewrite Hn.
Qed.

Ltac eval_state := unfold state_to_dict; cbn [app]; eval_mem; eval_get.

Lemma present_nat d key z :
  nat_like z -> dict_mem d key = true -> dict_get d key = JInt z ->
  _parse_present_strict d key _strict_non_negative_int = (z, false).
Proof. intros Hz Hm Hg. unfold _parse_present_strict. rewrite Hm, Hg. by rewrite (proj2 (strict_nat_inv _ z)). Qed.

Lemma boot_round_trip s :
  all_opt (fun b => b <> []) (st_boot_id s) ->
  _parse_present_boot_identity (state_to_dict s) (py "boot_id") = (st_boot_id s, false).
Proof.
  intros Hb. unfold _parse_present_boot_identity. eval_state.
  destruct (st_boot_id s) as [[|c b]|]; [done|by cbn [unless_none app]; eval_mem; eval_get|].
  destruct (st_supervisor_runtime_commit s); cbn [unless_none app]; by eval_mem; eval_get.
Qed.

Lemma runtime_round_trip s :
  _optional_string (dict_get (state_to_dict s) (py "supervisor_runtime_commit")) = st_supervisor_runtime_commit s.
Proof.
  eval_state. destruct (st_boot_id s), (st_supervisor_runtime_commit s); cbn [unless_none app]; by eval_get.
Qed.

Lemma strings_round_trip s :
  In (st_mode s) [MODE_IDLE; MODE_RUN] -> In (st_intent s) [INTENT_RUN; INTENT_RETIRING] ->
  _state_mode (state_to_dict s) = st_mode s /\ _state_intent (state_to_dict s) = st_intent s
  /\ _state_commit (state_to_dict s) = st_commit s /\ _state_strings_malformed (state_to_dict s) = false.
Proof.
  intros Hm%mem_str_In Hi%mem_str_In. unfold _state_mode, _state_intent, _state_commit, _state_strings_malformed, get_or.
  eval_state. cbn [is_one_of]. rewrite Hm, Hi. split_and!; try done; by destruct (st_commit s).
Qed.

Lemma state_round_trip s : state_wf s -> state_from_dict (state_to_dict s) = Ok s.
Proof.
  intros [Hsc Hg Hm Hc Hu Hsp Hi Hr Hna Hle Hls Hnr Hb]. unfold state_from_dict.
  assert (Hschema : _validate_state_schema (state_to_dict s) = Ok tt).
  { unfold _validate_state_schema. eval_state. cbn [_strict_int]. by rewrite Hsc. }
  rewrite Hschema. cbn [mbind res_bind]. unfold _parse_optional_child, _parse_optional_unresolved_child, _parse_optional_spawning.
  replace (dict_get (state_to_dict s) (py "child")) with (json_opt (fun c => JObj (_child_to_dict c)) (st_child s)) by (by eval_state).
  replace (dict_get (state_to_dict s) (py "unresolved_child"))
    with (json_opt (fun u => JObj (unresolved_to_dict u)) (st_unresolved_child s)) by (by eval_state).
  replace (dict_get (state_to_dict s) (py "spawning"))
    with (json_opt (fun o => JObj (spawning_to_dict o)) (st_spawning s)) by (by eval_state).
  rewrite (record_round_trip _child_to_dict) by (eapply all_opt_impl; [apply child_round_trip|done]).
  rewrite (record_round_trip unresolved_to_dict) by (eapply all_opt_impl; [apply unresolved_round_trip|done]).
  rewrite (record_round_trip spawning_to_dict) by (eapply all_opt_impl; [apply spawning_round_trip|done]).
  rewrite (present_nat _ _ (st_applied_generation s)); [|done|by eval_state|by eval_state].
  rewrite (present_nat _ _ (st_restart_count s)); [|done|by eval_state|by eval_state].
  rewrite (nullable_float_round_trip _ _ (st_next_attempt_at s)); [|done|by eval_state].
  rewrite (monotonic_round_trip _ _ (st_last_spawn_at s)); [|done|by eval_state].
  rewrite (monotonic_round_trip _ _ (st_next_readiness_at s)); [|done|by eval_state].
  rewrite boot_round_trip by done. rewrite runtime_round_trip.
  destruct (strings_round_trip s Hm Hi) as (-> & -> & -> & ->).
  rewrite (last_exit_round_trip _ (st_last_exit s)); [|done|by eval_state].
  assert (Hholds : forall k b, dict_mem (state_to_dict s) k = true -> dict_get (state_to_dict s) k = JBool b ->
            _strict_safety_hold (state_to_dict s) k = b).
  { intros k b Hk Hv. unfold _strict_safety_hold. by rewrite Hk, Hv. }
  rewrite (Hholds _ (st_ownership_hold_malformed s)); [|by eval_state|by eval_state].
  rewrite (Hholds _ (st_unresolved_hold_malformed s)); [|by eval_state|by eval_state].
  rewrite (Hholds _ (st_spawning_hold_malformed s)); [|by eval_state|by eval_state].
  replace (dict_get (state_to_dict s) (py "ready")) with (JBool (st_ready s)) by (by eval_state).
  cbn [orb]. rewrite <- Hsc. destruct s as [? ? ? ? ? ? ? ? ? ? ? ? ? ? ? [] ? ? ?]; done.
Qed.

(** Looking a diagnostic field up in a dict that has it. *)
Section fields.
Context (d : dict) (key : pystr).

Lemma field_bool b : dict_mem d key = true -> dict_get d key = JBool b -> _parse_diagnostic_bool d key = Ok b.
Proof. unfold _parse_diagnostic_bool, bool_or_false. by intros -> ->. Qed.

Lemma field_nullable_bool o : dict_get d key = json_opt JBool o -> _parse_diagnostic_nullable_bool d key = Ok o.
Proof. unfold _parse_diagnostic_nullable_bool. intros ->. by destruct o. Qed.

Lemma field_nat z :
  nat_like z -> dict_mem d key = true -> dict_get d key = JInt z -> _parse_diagnostic_non_negative_int d key = Ok z.
Proof.
  unfold _parse_diagnostic_non_negative_int, nat_like. intros Hz -> ->. cbn. by replace (z <? 0) with false by lia.
Qed.

Lemma field_nullable_nat o :
  all_opt nat_like o -> dict_get d key = json_opt JInt o -> _parse_diagnostic_nullable_int d key = Ok o.
Proof.
  unfold _parse_diagnostic_nullable_int, nat_like. intros Ho ->. destruct o as [z|]; [|done]. cbn in *.
  by replace (z <? 0) with false by lia.
Qed.

Lemma field_nullable_float o :
  all_opt finite o -> dict_get d key = json_opt JFloat o -> _parse_diagnostic_nullable_float d key = Ok o.
Proof.
  unfold _parse_diagnostic_nullable_float. intros Ho ->. destruct o as [f|]; [|done]. cbn [json_opt finite_number].
  by rewrite finite_float_JFloat.
Qed.

Lemma field_float f : finite f -> dict_get d key = JFloat f -> _parse_diagnostic_float d key = Ok f.
Proof. unfold _parse_diagnostic_float. intros Hf ->. cbn [finite_number]. by rewrite finite_float_JFloat. Qed.

Lemma field_string s default :
  s <> [] -> dict_mem d key = true -> dict_get d key = JStr s -> _parse_diagnostic_string d key default = Ok s.
Proof. unfold _parse_diagnostic_string. intros Hs -> ->. by destruct s. Qed.

Lemma field_nullable_string o : dict_get d key = json_opt JStr o -> _parse_diagnostic_nullable_string d key = Ok o.
Proof. unfold _parse_diagnostic_nullable_string. intros ->. by destruct o. Qed.
End fields.

Lemma mode_known m : In m [MODE_RUN; MODE_IDLE] -> m <> [].
Proof. by intros [<-|[<-|[]]]. Qed.
Lemma intent_known m : In m [INTENT_RUN; INTENT_RETIRING] -> m <> [].
Proof. by intros [<-|[<-|[]]]. Qed.

Lemma mode_and_intent_ok d mode intent :
  In mode [MODE_RUN; MODE_IDLE] -> In intent [INTENT_RUN; INTENT_RETIRING] ->
  dict_mem d (py "mode") = true -> dict_get d (py "mode") = JStr mode ->
  dict_mem d (py "intent") = true -> dict_get d (py "intent") = JStr intent ->
  mode_and_intent d = Ok (mode, intent).
Proof.
  intros Hm Hi Hm1 Hm2 Hi1 Hi2. unfold mode_and_intent.
  rewrite (field_string d (py "mode") mode) by (try done; by apply mode_known). cbn [mbind res_bind].
  rewrite (field_string d (py "intent") intent) by (try done; by apply intent_known). cbn [mbind res_bind].
  by rewrite (proj2 (mem_str_In _ _) Hm), (proj2 (mem_str_In _ _) Hi).
Qed.

(** Rewrite with the lemma of the next field of a dict [d] made by [u]. *)
Ltac next_field u d lem :=
  rewrite lem by (first [assumption | solve [unfold d, u; eval_mem; eval_get; reflexivity]]); cbn [mbind res_bind].

Lemma diagnostic_round_trip g : diagnostic_wf g -> diagnostic_from_dict (diagnostic_to_dict g) = Ok g.
Proof.
  intros [Hsrc Hm Hi [Hn1 Hn2] [Hf1 Hf2] Hle Hc]. unfold diagnostic_from_dict.
  set (d := diagnostic_to_dict g).
  next_field diagnostic_to_dict d (field_string d (py "source") (dg_source g)).
  next_field diagnostic_to_dict d (mode_and_intent_ok d (dg_mode g) (dg_intent g)).
  next_field diagnostic_to_dict d (field_bool d (py "live") (dg_live g)).
  next_field diagnostic_to_dict d (field_bool d (py "supervisor_present") (dg_supervisor_present g)).
  next_field diagnostic_to_dict d (field_nullable_bool d (py "supervisor_alive") (dg_supervisor_alive g)).
  next_field diagnostic_to_dict d (field_nullable_string d (py "commit") (dg_commit g)).
  next_field diagnostic_to_dict d (field_nat d (py "applied_generation") (dg_applied_generation g)).
  next_field diagnostic_to_dict d (field_nat d (py "restart_count") (dg_restart_count g)).
  next_field diagnostic_to_dict d (field_nullable_float d (py "next_attempt_at") (dg_next_attempt_at g)).
  next_field diagnostic_to_dict d (field_bool d (py "ready") (dg_ready g)).
  next_field diagnostic_to_dict d (field_nullable_float d (py "next_readiness_at") (dg_next_readiness_at g)).
  next_field diagnostic_to_dict d (field_bool d (py "holding") (dg_holding g)).
  next_field diagnostic_to_dict d (field_bool d (py "ownership_hold_malformed") (dg_ownership_hold_malformed g)).
  next_field diagnostic_to_dict d (field_bool d (py "unresolved_hold_malformed") (dg_unresolved_hold_malformed g)).
  next_field diagnostic_to_dict d (field_bool d (py "spawning_hold_malformed") (dg_spawning_hold_malformed g)).
  next_field diagnostic_to_dict d (field_bool d (py "child_present") (dg_child_present g)).
  next_field diagnostic_to_dict d (field_bool d (py "unresolved_child_present") (dg_unresolved_child_present g)).
  next_field diagnostic_to_dict d (field_bool d (py "spawning_present") (dg_spawning_present g)).
  next_field diagnostic_to_dict d (last_exit_round_trip d (dg_last_exit g)).
  next_field diagnostic_to_dict d (field_nullable_string d (py "message") (dg_message g)).
  next_field diagnostic_to_dict d (field_nullable_string d (py "supervisor_runtime_commit") (dg_supervisor_runtime_commit g)).
  next_field diagnostic_to_dict d
    (field_nullable_nat d (py "supervisor_runtime_contract_version") (dg_supervisor_runtime_contract_version g)).
  by destruct g.
Qed.

Lemma status_round_trip s : status_wf s -> status_from_dict (status_to_dict s) = Ok s.
Proof.
  intros [Hn Hf Hm Hi Hch Hna Hle Hc]. repeat (apply List.Forall_cons_iff in Hn as [? Hn]).
  repeat (apply List.Forall_cons_iff in Hf as [? Hf]). unfold status_from_dict. set (d := status_to_dict s).
  replace (dict_mem d (py "schema_version")) with true by (unfold d, status_to_dict; by eval_mem).
  replace (dict_get d (py "schema_version")) with (JInt (ss_schema_version s)) by (unfold d, status_to_dict; by eval_get).
  replace (dict_mem d (py "started_at")) with true by (unfold d, status_to_dict; by eval_mem).
  replace (dict_get d (py "started_at")) with (JFloat (ss_started_at s)) by (unfold d, status_to_dict; by eval_get).
  cbn [_strict_int mbind res_bind finite_number]. rewrite finite_float_JFloat by done. cbn [required mbind res_bind].
  next_field status_to_dict d (mode_and_intent_ok d (ss_mode s) (ss_intent s)).
  replace (dict_get d (py "child")) with (json_opt (fun c => JObj (_child_to_dict c)) (ss_child s))
    by (unfold d, status_to_dict; by eval_get).
  assert (Hchild : match json_opt (fun c => JObj (_child_to_dict c)) (ss_child s) with
      | JNull => Ok None | JObj d0 => c ← _child_from_dict d0; Ok (Some c) | _ => Raise TypeError end = Ok (ss_child s)).
  { destruct (ss_child s) as [c|]; [|done]. cbn [json_opt]. by rewrite child_round_trip. }
  rewrite Hchild. cbn [mbind res_bind]. unfold _parse_status_nullable_dict.
  replace (dict_get d (py "worker_health")) with (json_opt JObj (ss_worker_health s))
    by (unfold d, status_to_dict; by eval_get).
  assert (Hwh : match json_opt JObj (ss_worker_health s) with
      | JNull => Ok None | JObj d0 => Ok (Some d0) | _ => Raise TypeError end = Ok (ss_worker_health s)).
  { by destruct (ss_worker_health s). }
  rewrite Hwh. cbn [mbind res_bind].
  next_field status_to_dict d (field_nat d (py "supervisor_pid") (ss_supervisor_pid s)).
  next_field status_to_dict d (field_nat d (py "supervisor_start_time_ticks") (ss_supervisor_start_time_ticks s)).
  next_field status_to_dict d (field_nat d (py "applied_generation") (ss_applied_generation s)).
  next_field status_to_dict d (field_nullable_string d (py "commit") (ss_commit s)).
  next_field status_to_dict d (field_nat d (py "restart_count") (ss_restart_count s)).
  next_field status_to_dict d (field_nullable_float d (py "next_attempt_at") (ss_next_attempt_at s)).
  next_field status_to_dict d (last_exit_round_trip d (ss_last_exit s)).
  next_field status_to_dict d (field_nullable_string d (py "mission") (ss_mission s)).
  next_field status_to_dict d (field_nullable_bool d (py "db_ready") (ss_db_ready s)).
  next_field status_to_dict d (field_nullable_bool d (py "ready") (ss_ready s)).
  next_field status_to_dict d (field_nullable_string d (py "message") (ss_message s)).
  next_field status_to_dict d (field_bool d (py "holding") (ss_holding s)).
  next_field status_to_dict d (field_nullable_string d (py "supervisor_runtime_commit") (ss_supervisor_runtime_commit s)).
  next_field status_to_dict d
    (field_nullable_nat d (py "supervisor_runtime_contract_version") (ss_supervisor_runtime_contract_version s)).
  next_field status_to_dict d (field_float d (py "published_at") (ss_published_at s)).
  next_field status_to_dict d (field_nat d (py "diagnostic_drops") (ss_diagnostic_drops s)).
  by destruct s.
Qed.

(** ** What a parsed state stands for *)

Lemma get_or_mode d : In (_state_mode d) [MODE_IDLE; MODE_RUN].
Proof.
  unfold _state_mode. destruct (get_or d (py "mode") (JStr MODE_IDLE)); try (by left).
  destruct (mem_str s [MODE_IDLE; MODE_RUN]) eqn:E; [by apply mem_str_In|by left].
Qed.

Lemma get_or_intent d : In (_state_intent d) [INTENT_RUN; INTENT_RETIRING].
Proof.
  unfold _state_intent. destruct (get_or d (py "intent") (JStr INTENT_RUN)); try (by left).
  destruct (mem_str s [INTENT_RUN; INTENT_RETIRING]) eqn:E; [by apply mem_str_In|by left].
Qed.

Lemma present_strict_inv d key z b :
  _parse_present_strict d key _strict_non_negative_int = (z, b) ->
  nat_like z /\ (b = false -> dict_mem d key = true -> dict_get d key = JInt z).
Proof.
  unfold _parse_present_strict. destruct (dict_mem d key); [|intros [= <- <-]; by split].
  destruct (_strict_non_negative_int (dict_get d key)) as [y|] eqn:E; intros [= <- <-]; [|by split].
  apply strict_nat_inv in E as [-> Hy]. by split.
Qed.

Lemma nullable_float_inv d key o b :
  _parse_present_nullable_float d key = (o, b) ->
  all_opt finite o /\ (b = false -> o = None -> dict_get d key = JNull).
Proof.
  unfold _parse_present_nullable_float. intros H.
  assert (Hc : (dict_get d key = JNull /\ o = None) \/ o = _strict_finite_float (dict_get d key)
            /\ b = match _strict_finite_float (dict_get d key) with None => true | _ => false end).
  { destruct (dict_get d key) eqn:E; [left; by injection H as <- <-|right..];
      destruct (_strict_finite_float _); by injection H as <- <-. }
  destruct Hc as [[Hg ->]|[-> ->]]; [by split|].
  destruct (_strict_finite_float _) eqn:E; split; try done. by eapply finite_float_inv.
Qed.

Lemma monotonic_inv d key o b :
  _parse_present_nullable_monotonic_float d key = (o, b) ->
  all_opt non_negative_finite o /\ (b = false -> o = None -> dict_get d key = JNull).
Proof.
  unfold _parse_present_nullable_monotonic_float. intros H.
  destruct (_parse_present_nullable_float d key) as [o1 b1] eqn:E. pose proof (nullable_float_inv _ _ _ _ E) as [Hf Hn].
  destruct o1 as [f|], b1; try (destruct (float_negative f) eqn:Eneg); simplify_eq; cbn; try by split.
  exfalso. unfold _parse_present_nullable_float in E. repeat case_match; simplify_eq.
Qed.

Lemma boot_inv d o b :
  _parse_present_boot_identity d (py "boot_id") = (o, b) -> all_opt (fun x => x <> []) o.
Proof.
  unfold _parse_present_boot_identity. intros H. repeat case_match; simplify_eq; cbn; try done.
Qed.

(** The fields of a parsed state. *)
Lemma state_parsed d s : state_from_dict d = Ok s -> state_wf s.
Proof.
  unfold state_from_dict. intros H. res_inv H.
  destruct (_parse_optional_child d) as [child cm] eqn:E1, (_parse_optional_unresolved_child d) as [unres um] eqn:E2,
    (_parse_optional_spawning d) as [sp sm] eqn:E3, (_parse_present_strict d (py "applied_generation") _) as [g gm] eqn:E4,
    (_parse_present_strict d (py "restart_count") _) as [rc rm] eqn:E5,
    (_parse_present_nullable_float d (py "next_attempt_at")) as [na nm] eqn:E6,
    (_parse_present_nullable_monotonic_float d (py "last_spawn_at")) as [ls lm] eqn:E7,
    (_parse_present_nullable_monotonic_float d (py "next_readiness_at")) as [nr nrm] eqn:E8,
    (_parse_present_boot_identity d (py "boot_id")) as [bi bm] eqn:E9.
  injection H as <-. split; cbn.
  - done.
  - by apply present_strict_inv in E4 as [? _].
  - apply get_or_mode.
  - eapply optional_record_parsed; [apply child_parsed|exact E1].
  - eapply optional_record_parsed; [apply unresolved_parsed|exact E2].
  - eapply optional_record_parsed; [apply spawning_parsed|exact E3].
  - apply get_or_intent.
  - by apply present_strict_inv in E5 as [? _].
  - by apply nullable_float_inv in E6 as [? _].
  - destruct (_parse_last_exit d) eqn:E; [|done]. by eapply exit_parsed.
  - by apply monotonic_inv in E7 as [? _].
  - by apply monotonic_inv in E8 as [? _].
  - by eapply boot_inv.
Qed.
