(* ===== verification/Durable.v ===== *)
(** Crash-durable files ([src/lubko/durable.py]).

    A [world] is what processes see of the file system together with what the
    disk may show after a power loss, and the advisory locks.  [vis] is the
    visible namespace.  [old] lists, for a path, the other entries its directory
    may still hold on disk: every change of a directory entry adds the previous
    one, and a directory [fsync] forgets those of the directory.  A file whose
    data was never [fsync]ed may hold any bytes after a crash, so an entry says
    whether its data is synced.

    An operation of the module is a program of system calls.  Every call takes
    an [outcome] chosen by the environment: whether it fails, how many bytes a
    write takes, what a symbolic link leads to, the random suffix. *)

From S2P Require Import Prelude PyStr PyNum Json.
From stdpp Require Import gmap.

#[local] Open Scope Z_scope.

(** ** Paths and entries *)

(** A path is the list of its names, the last name first; the root is []. *)
Definition path := list pystr.
Definition parent (p : path) : path := tail p.
Definition path_name (p : path) : pystr := List.hd [] p.
Definition with_name (p : path) (n : pystr) : path := n :: parent p.

Inductive entry :=
  | File (data : pybytes) (synced : bool)
  | Link (target : pystr)
  | Dir
  | Special.

#[export] Instance entry_eq_dec : EqDecision entry.
Proof. solve_decision. Defined.

Definition DURABLE_TEMP_PREFIX : pystr := py ".lubko-durable-".
Definition DURABLE_LOCK_PREFIX : pystr := py ".lubko-durable-lock-".

Inductive stage := FSYNC_STAGE_FILE | FSYNC_STAGE_REPLACE | FSYNC_STAGE_DIR.

(** [temporary_path], given the process id and the random suffix. *)
Definition temporary_path (pid : Z) (suffix : pystr) (destination : path) : path :=
  with_name destination (DURABLE_TEMP_PREFIX ++ int_repr pid ++ [45] ++ suffix ++ [45] ++ path_name destination).

(** The sidecar lock file of a destination. *)
Definition lock_key (destination : path) : path :=
  with_name destination (DURABLE_LOCK_PREFIX ++ path_name destination).

(** ** The world *)

Record world := mkWorld {
  vis : gmap path entry;
  old : gmap path (list (option entry));
  (** the in-process gate of a lock file: its owning thread and depth *)
  gates : gmap (nat * path) (nat * nat);
  (** the process that holds the [flock] of a lock file *)
  flocks : gmap path nat;
}.

Definition hist (w : world) (p : path) : list (option entry) := default [] (old w !! p).

(** Every entry a crash may leave at [p]. *)
Definition values (w : world) (p : path) : list (option entry) := vis w !! p :: hist w p.

Definition set_vis (w : world) (m : gmap path entry) : world := mkWorld m (old w) (gates w) (flocks w).

(** Change the directory entry of [p]. *)
Definition put (p : path) (e : option entry) (w : world) : world :=
  mkWorld (partial_alter (fun _ => e) p (vis w)) (<[p := values w p]> (old w)) (gates w) (flocks w).

(** Change the file at [p] without touching its directory. *)
Definition in_place (p : path) (e : entry) (w : world) : world := set_vis w (<[p := e]> (vis w)).

Definition sync_dir (d : path) (w : world) : world :=
  mkWorld (vis w) (filter (fun kv => parent kv.1 <> d) (old w)) (gates w) (flocks w).

Definition is_dir_at (w : world) (p : path) : bool :=
  match p with [] => true | _ => bool_decide (vis w !! p = Some Dir) end.

(** ** System calls *)

Inductive call :=
  | CIsDir (p : path)
  | CExists (p : path)
  | CIsFile (p : path)
  | CIsSymlink (p : path)
  | CReadBytes (p : path)
  | CReadlink (p : path)
  | CMkdir (p : path)
  | COpenDir (p : path)
  | CSyncDir (p : path)
  | COpenTemp (p : path)
  | CWrite (p : path) (chunk : pybytes)
  | CFsync (p : path)
  | CClose
  | CReplace (src dst : path)
  | CUnlink (p : path)
  | CSymlink (p : path) (target : pystr)
  | CInject (p : path) (s : stage)
  | CGetpid
  | CToken
  | CAcquire (key : path)
  | CRelease (key : path)
  | COpenLock (key : path)
  | CFlock (key : path)
  | CUnlock (key : path)
  | CCloseLock (key : path).

Definition ans (c : call) : Type :=
  match c with
  | CIsDir _ | CExists _ | CIsFile _ | CIsSymlink _ | CAcquire _ => bool
  | CReadBytes _ => res pybytes
  | CReadlink _ => res pystr
  | CWrite _ _ => res Z
  | CGetpid => Z
  | CToken => pystr
  | CRelease _ => unit
  | _ => res unit
  end.

Record outcome := mkOutcome {
  o_error : option exn;
  o_count : Z;
  o_linked : option entry;
  o_token : pystr;
}.

(** A system call fails with [OSError]; the fault injection hook raises that or
    [DurabilityError]. *)
Definition fails (o : outcome) : bool := match o_error o with Some _ => true | None => false end.

(** The entry a path that may be a symbolic link leads to. *)
Definition followed (o : outcome) (e : option entry) : option entry :=
  match e with Some (Link _) => o_linked o | _ => e end.

Definition os_result {A} (o : outcome) (w : world) (r : option (A * world)) : res A * world :=
  if fails o then (Raise OSError, w)
  else match r with Some (a, w') => (Ok a, w') | None => (Raise OSError, w) end.

Definition do_write (o : outcome) (p : path) (chunk : pybytes) (w : world) : option (Z * world) :=
  match vis w !! p with
  | Some (File d s) =>
      let n := Z.min (o_count o) (Z.of_nat (length chunk)) in
      if n <=? 0 then Some (n, w) else Some (n, in_place p (File (d ++ take (Z.to_nat n) chunk) false) w)
  | _ => None
  end.

Definition do_replace (src dst : path) (w : world) : option (unit * world) :=
  match vis w !! src, vis w !! dst with
  | None, _ | Some Dir, _ | _, Some Dir => None
  | Some e, _ => Some (tt, put src None (put dst (Some e) w))
  end.

Definition do_acquire (pid tid : nat) (key : path) (w : world) : option (bool * world) :=
  match gates w !! (pid, key) with
  | None => Some (true, mkWorld (vis w) (old w) (<[(pid, key) := (tid, 1%nat)]> (gates w)) (flocks w))
  | Some (t, n) =>
      if decide (t = tid)
      then Some (false, mkWorld (vis w) (old w) (<[(pid, key) := (t, S n)]> (gates w)) (flocks w))
      else None
  end.

Definition do_release (pid : nat) (key : path) (w : world) : world :=
  match gates w !! (pid, key) with
  | Some (t, S (S n)) => mkWorld (vis w) (old w) (<[(pid, key) := (t, S n)]> (gates w)) (flocks w)
  | _ => mkWorld (vis w) (old w) (delete (pid, key) (gates w)) (flocks w)
  end.

(** The kernel drops the lock of a closed descriptor. *)
Definition do_unlock (pid : nat) (key : path) (w : world) : world :=
  if decide (flocks w !! key = Some pid) then mkWorld (vis w) (old w) (gates w) (delete key (flocks w)) else w.

(** One call of thread [me] (a process and a thread of it); [None] while it
    blocks. *)
Definition do_call (me : nat * nat) (o : outcome) (c : call) (w : world) : option (ans c * world) :=
  match c return option (ans c * world) with
  | CIsDir p => Some (match p with [] => true | _ => bool_decide (followed o (vis w !! p) = Some Dir) end, w)
  | CExists p => Some (match followed o (vis w !! p) with Some _ => true | None => false end, w)
  | CIsFile p => Some (match followed o (vis w !! p) with Some (File _ _) => true | _ => false end, w)
  | CIsSymlink p => Some (match vis w !! p with Some (Link _) => true | _ => false end, w)
  | CReadBytes p =>
      Some (os_result o w (match followed o (vis w !! p) with Some (File d _) => Some (d, w) | _ => None end))
  | CReadlink p => Some (os_result o w (match vis w !! p with Some (Link t) => Some (t, w) | _ => None end))
  | CMkdir p =>
      Some (os_result o w
        (if is_dir_at w p then Some (tt, w)
         else match vis w !! p with
              | None => if is_dir_at w (parent p) then Some (tt, put p (Some Dir) w) else None
              | Some _ => None
              end))
  | COpenDir p => Some (os_result o w (if is_dir_at w p then Some (tt, w) else None))
  | CSyncDir p => Some (os_result o w (Some (tt, sync_dir p w)))
  | COpenTemp p =>
      Some (os_result o w
        (match vis w !! p with
         | None => Some (tt, put p (Some (File [] false)) w)
         | Some (File _ _) => Some (tt, in_place p (File [] false) w)
         | Some _ => None
         end))
  | CWrite p chunk => Some (os_result o w (do_write o p chunk w))
  | CFsync p =>
      Some (os_result o w
        (match vis w !! p with Some (File d _) => Some (tt, in_place p (File d true) w) | _ => None end))
  | CClose => Some (os_result o w (Some (tt, w)))
  | CReplace src dst => Some (os_result o w (do_replace src dst w))
  | CUnlink p =>
      Some (os_result o w
        (match vis w !! p with None => Some (tt, w) | Some Dir => None | Some _ => Some (tt, put p None w) end))
  | CSymlink p target =>
      Some (os_result o w (match vis w !! p with None => Some (tt, put p (Some (Link target)) w) | Some _ => None end))
  | CInject _ _ =>
      Some (match o_error o with None => Ok tt | Some DurabilityError => Raise DurabilityError | Some _ => Raise OSError end, w)
  | CGetpid => Some (Z.of_nat me.1, w)
  | CToken => Some (o_token o, w)
  | CAcquire key => do_acquire me.1 me.2 key w
  | CRelease key => Some (tt, do_release me.1 key w)
  | COpenLock key =>
      Some (os_result o w
        (match vis w !! key with None => Some (tt, put key (Some (File [] true)) w) | Some Dir => None | Some _ => Some (tt, w) end))
  | CFlock key =>
      if fails o then Some (Raise OSError, w)
      else match flocks w !! key with
           | None => Some (Ok tt, mkWorld (vis w) (old w) (gates w) (<[key := me.1]> (flocks w)))
           | Some _ => None
           end
  | CUnlock key => Some (os_result o w (Some (tt, do_unlock me.1 key w)))
  | CCloseLock key => Some ((if fails o then Raise OSError else Ok tt), do_unlock me.1 key w)
  end.

(** ** Programs *)

Inductive prog (A : Type) :=
  | Ret (a : A)
  | Throw (e : exn)
  | Call (c : call) (k : ans c -> prog A).
Arguments Ret {A} _.
Arguments Throw {A} _.
Arguments Call {A} _ _.

Fixpoint prog_bind {A B} (p : prog A) (f : A -> prog B) : prog B :=
  match p with
  | Ret a => f a
  | Throw e => Throw e
  | Call c k => Call c (fun r => prog_bind (k r) f)
  end.

#[export] Instance prog_mret : MRet prog := @Ret.
#[export] Instance prog_mbind : MBind prog := fun A B f p => prog_bind p f.

Definition lift {A} (r : res A) : prog A := match r with Ok a => Ret a | Raise e => Throw e end.

(** [try: p except ...: h], [h] saying which exceptions it handles. *)
Fixpoint try_catch {A} (p : prog A) (h : exn -> option (prog A)) : prog A :=
  match p with
  | Ret a => Ret a
  | Throw e => default (Throw e) (h e)
  | Call c k => Call c (fun r => try_catch (k r) h)
  end.

(** [try: p finally: q] *)
Fixpoint finally {A} (p : prog A) (q : prog unit) : prog A :=
  match p with
  | Ret a => _ ← q; Ret a
  | Throw e => _ ← q; Throw e
  | Call c k => Call c (fun r => finally (k r) q)
  end.

(** [except OSError as exc: raise DurabilityError from exc] *)
Definition os_to_durability {A} (p : prog A) : prog A :=
  try_catch p (fun e => if decide (e = OSError) then Some (Throw DurabilityError) else None).

(** [contextlib.suppress(e)] *)
Definition suppress (ex : exn) (p : prog unit) : prog unit :=
  try_catch p (fun e => if decide (e = ex) then Some (Ret tt) else None).

(** ** Directories *)

Definition fsync_directory (directory : path) : prog unit :=
  _ ← os_to_durability (Call (COpenDir directory) lift);
  finally
    (os_to_durability (_ ← Call (CInject directory FSYNC_STAGE_DIR) lift; Call (CSyncDir directory) lift))
    (Call CClose lift).

Definition _fsync_directory (directory : path) : prog unit :=
  _ ← os_to_durability (Call (COpenDir directory) lift);
  finally (os_to_durability (Call (CSyncDir directory) lift)) (Call CClose lift).

(** The [while not current.is_dir()] loop: the first existing level and the
    missing ones below it, the topmost first. *)
Fixpoint missing_levels (current : path) (missing : list path) : prog (path * list path) :=
  Call (CIsDir current) (fun b =>
    if b then Ret (current, missing)
    else match current with
         | [] => Ret (current, current :: missing)
         | _ :: up => missing_levels up (current :: missing)
         end).

Fixpoint create_levels (missing : list path) : prog unit :=
  match missing with
  | [] => Ret tt
  | child :: rest =>
      _ ← os_to_durability (Call (CMkdir child) lift);
      _ ← _fsync_directory (parent child);
      create_levels rest
  end.

Definition make_directory_durable (directory : path) : prog unit :=
  '(first_existing, missing) ← missing_levels directory [];
  _ ← create_levels missing;
  if decide (first_existing = directory) then _fsync_directory (parent directory)
  else _fsync_directory (parent first_existing).

(** ** Serialization *)

Definition _serialized (destination : path) (body : prog unit) : prog unit :=
  let key := lock_key destination in
  outermost ← Call (CAcquire key) Ret;
  if (outermost : bool) then
    _ ← try_catch (Call (COpenLock key) lift)
          (fun e => if decide (e = OSError) then Some (_ ← Call (CRelease key) Ret; Throw DurabilityError) else None);
    _ ← try_catch (Call (CFlock key) lift)
          (fun e => if decide (e = OSError)
                    then Some (_ ← Call (CCloseLock key) lift; _ ← Call (CRelease key) Ret; Throw DurabilityError)
                    else None);
    finally body
      (_ ← suppress OSError (finally (Call (CUnlock key) lift) (Call (CCloseLock key) lift));
       Call (CRelease key) Ret)
  else finally body (Call (CRelease key) Ret).

(** ** Writing *)

(** [_write_all]: every write takes at least one byte or raises, so the length
    of the data bounds the number of writes.  (The tests' short-write hook is an
    outcome with a small count.) *)
Fixpoint write_loop (fuel : nat) (p : path) (rest : pybytes) : prog unit :=
  match rest, fuel with
  | [], _ => Ret tt
  | _, O => Throw OutOfFuel
  | _, S fuel =>
      n ← Call (CWrite p rest) lift;
      if n <=? 0 then Throw OSError else write_loop fuel p (drop (Z.to_nat n) rest)
  end.

Definition _write_all (p : path) (data : pybytes) : prog unit := write_loop (length data) p data.

Definition _write_temporary_file (temporary : path) (data : pybytes) : prog unit :=
  _ ← os_to_durability (Call (COpenTemp temporary) lift);
  finally
    (os_to_durability
       (_ ← _write_all temporary data;
        _ ← Call (CInject temporary FSYNC_STAGE_FILE) lift;
        Call (CFsync temporary) lift))
    (Call CClose lift).

Definition fresh_temporary (destination : path) : prog path :=
  suffix ← Call CToken Ret;
  pid ← Call CGetpid Ret;
  Ret (temporary_path pid suffix destination).

(** [except BaseException]: drop the temporary and report the failure. *)
Definition or_discard (temporary : path) (p : prog unit) : prog unit :=
  try_catch p (fun _ => Some (_ ← Call (CUnlink temporary) lift; Throw DurabilityError)).

(** Confirm a changed entry; on failure run [cleanup] and fail all the same. *)
Definition confirm (destination : path) (cleanup : prog unit) : prog unit :=
  try_catch (fsync_directory (parent destination))
    (fun e => if decide (e = DurabilityError) then Some (_ ← cleanup; Throw DurabilityError) else None).

(** [destination.read_bytes() if destination.exists() else None] *)
Definition existing_bytes (destination : path) : prog (option pybytes) :=
  there ← Call (CExists destination) Ret;
  if (there : bool) then d ← Call (CReadBytes destination) lift; Ret (Some d) else Ret None.

Definition write_body (cleanup : option pybytes -> prog unit) (destination : path) (data : pybytes) : prog unit :=
  temporary ← fresh_temporary destination;
  previous ← existing_bytes destination;
  _ ← or_discard temporary
        (_ ← _write_temporary_file temporary data;
         _ ← Call (CInject temporary FSYNC_STAGE_REPLACE) lift;
         Call (CReplace temporary destination) lift);
  confirm destination (cleanup previous).

Definition write_bytes_with (cleanup : option pybytes -> prog unit) (p : path) (data : pybytes) : prog unit :=
  _ ← make_directory_durable (parent p);
  _serialized p (write_body cleanup p data).

(** [write_bytes_durable(path, data, _restore=False)] *)
Definition write_bytes_plain (p : path) (data : pybytes) : prog unit := write_bytes_with (fun _ => Ret tt) p data.

(** The bytes of a regular file that is not a symbolic link. *)
Definition regular_bytes (destination : path) : prog (option pybytes) :=
  there ← Call (CExists destination) Ret;
  if negb there then Ret None
  else
    file ← Call (CIsFile destination) Ret;
    if negb file then Ret None
    else
      link ← Call (CIsSymlink destination) Ret;
      if (link : bool) then Ret None else d ← Call (CReadBytes destination) lift; Ret (Some d).

Definition remove_body (destination : path) : prog unit :=
  previous ← regular_bytes destination;
  _ ← os_to_durability (Call (CUnlink destination) lift);
  confirm destination
    (match previous with Some b => suppress DurabilityError (write_bytes_plain destination b) | None => Ret tt end).

Definition remove_durable (p : path) : prog unit := _serialized p (remove_body p).

(** The cleanup of an unconfirmed write: restore, or neutralize a first write. *)
Definition restore_bytes (destination : path) (previous : option pybytes) : prog unit :=
  match previous with
  | Some b => suppress DurabilityError (write_bytes_plain destination b)
  | None => suppress DurabilityError (remove_durable destination)
  end.

Definition write_bytes_durable (p : path) (data : pybytes) (restore : bool) : prog unit :=
  write_bytes_with (if restore then restore_bytes p else fun _ => Ret tt) p data.

(** What the destination of a link held: a link's target, or a regular file's bytes. *)
Definition prior_entry (destination : path) : prog (option pystr * option pybytes) :=
  link ← Call (CIsSymlink destination) Ret;
  if (link : bool) then t ← Call (CReadlink destination) lift; Ret (Some t, None)
  else b ← regular_bytes destination; Ret (None, b).

Definition symlink_body (cleanup : option pystr * option pybytes -> prog unit) (destination : path) (target : pystr)
    : prog unit :=
  temporary ← fresh_temporary destination;
  previous ← prior_entry destination;
  _ ← or_discard temporary
        (_ ← Call (CUnlink temporary) lift;
         _ ← Call (CSymlink temporary target) lift;
         _ ← Call (CInject temporary FSYNC_STAGE_FILE) lift;
         _ ← Call (CInject temporary FSYNC_STAGE_REPLACE) lift;
         Call (CReplace temporary destination) lift);
  confirm destination (cleanup previous).

Definition write_symlink_with (cleanup : option pystr * option pybytes -> prog unit) (p : path) (target : pystr) : prog unit :=
  _ ← make_directory_durable (parent p);
  _serialized p (symlink_body cleanup p target).

Definition write_symlink_plain (p : path) (target : pystr) : prog unit := write_symlink_with (fun _ => Ret tt) p target.

Definition restore_entry (destination : path) (previous : option pystr * option pybytes) : prog unit :=
  match previous with
  | (Some t, _) => suppress DurabilityError (write_symlink_plain destination t)
  | (None, Some b) => suppress DurabilityError (write_bytes_plain destination b)
  | (None, None) => suppress DurabilityError (remove_durable destination)
  end.

Definition write_symlink_durable (p : path) (target : pystr) (restore : bool) : prog unit :=
  write_symlink_with (if restore then restore_entry p else fun _ => Ret tt) p target.

Definition write_text_durable (p : path) (text : pystr) : prog unit :=
  data ← lift (utf8_encode text);
  write_bytes_durable p data true.

Definition write_json_durable (p : path) (mapping : dict) : prog unit :=
  text ← lift (json_dumps_sorted (JObj mapping));
  write_text_durable p (text ++ [10]).

(** ** Executions *)

(** A call of the environment's choice; once they are used up, calls succeed. *)
Definition success : outcome := mkOutcome None (2 ^ 62) None (py "0").

Definition next_outcome (os : list outcome) : outcome := List.hd success os.

(** Run to completion, collecting every world passed through; [None] when
    blocked. *)
Fixpoint run {A} (me : nat * nat) (os : list outcome) (p : prog A) (w : world) : option (list world * res A * world) :=
  match p with
  | Ret a => Some ([w], Ok a, w)
  | Throw e => Some ([w], Raise e, w)
  | Call c k =>
      match do_call me (next_outcome os) c w with
      | Some (r, w') =>
          match run me (tail os) (k r) w' with
          | Some (trail, result, final) => Some (w :: trail, result, final)
          | None => None
          end
      | None => None
      end
  end.

(** What a power loss leaves: each name holds one of its possible entries, an
    unsynced file any bytes, and nothing survives below a lost directory. *)
Definition survives (e e' : option entry) : Prop :=
  match e with
  | Some (File d false) => exists d', e' = Some (File d' true)
  | _ => e' = e
  end.

Fixpoint dirs_kept (g : gmap path entry) (p : path) : Prop :=
  match p with [] => True | _ :: up => g !! p = Some Dir /\ dirs_kept g up end.

(** [g] is a namespace the disk of [w] may show after a crash. *)
Definition crash (w : world) (g : gmap path entry) : Prop :=
  exists choice : path -> option entry,
    (forall p, exists e, In e (values w p) /\ survives e (choice p))
    /\ forall p, (dirs_kept g (parent p) -> g !! p = choice p) /\ (~ dirs_kept g (parent p) -> g !! p = None).
