(* ===== verification/DurableFacts.v ===== *)
(** A program logic for the system-call programs of [Durable]: [wp] holds of a
    program when it never blocks, every world it passes through satisfies an
    invariant, and its result and final world satisfy a postcondition, whatever
    the environment chooses and whatever other processes do between two calls. *)

From S2P Require Import Prelude PyStr PyNum Json Durable.
From stdpp Require Import gmap.

#[local] Open Scope Z_scope.

Section wp.
Context (me : nat * nat) (R : world -> world -> Prop).

Fixpoint wp (I : world -> Prop) {A} (p : prog A) (w : world) (Q : res A -> world -> Prop) : Prop :=
  match p with
  | Ret a => Q (Ok a) w
  | Throw e => Q (Raise e) w
  | Call c k =>
      forall w1 o, R w w1 -> exists r w2, do_call me o c w1 = Some (r, w2) /\ I w2 /\ wp I (k r) w2 Q
  end.

Context {I : world -> Prop}.
Implicit Types (w : world).

Lemma wp_mono {A} (p : prog A) : forall w (Q Q' : res A -> world -> Prop),
  wp I p w Q -> (forall r w', Q r w' -> Q' r w') -> wp I p w Q'.
Proof.
  induction p as [a|e|c k IH]; cbn; intros w Q Q' H HQ; eauto.
  intros w1 o HR. destruct (H w1 o HR) as (r & w2 & E & HI & Hk). eauto 10.
Qed.

Lemma wp_bind {A B} (p : prog A) (f : A -> prog B) : forall w (Q : res B -> world -> Prop),
  wp I p w (fun r w' => match r with Ok a => wp I (f a) w' Q | Raise e => Q (Raise e) w' end) ->
  wp I (p ≫= f) w Q.
Proof.
  unfold mbind, prog_mbind. induction p as [a|e|c k IH]; cbn; intros w Q H; auto.
  intros w1 o HR. destruct (H w1 o HR) as (r & w2 & E & HI & Hk). eauto 10.
Qed.

Lemma wp_lift {A} (r : res A) w (Q : res A -> world -> Prop) : Q r w -> wp I (lift r) w Q.
Proof. by destruct r. Qed.

Lemma wp_try {A} (p : prog A) (h : exn -> option (prog A)) : forall w (Q : res A -> world -> Prop),
  wp I p w (fun r w' => match r with
    | Ok a => Q (Ok a) w'
    | Raise e => match h e with Some q => wp I q w' Q | None => Q (Raise e) w' end
    end) ->
  wp I (try_catch p h) w Q.
Proof.
  induction p as [a|e|c k IH]; cbn; intros w Q H; auto.
  - by destruct (h e).
  - intros w1 o HR. destruct (H w1 o HR) as (r & w2 & E & HI & Hk). eauto 10.
Qed.

Lemma wp_os {A} (p : prog A) w (Q : res A -> world -> Prop) :
  wp I p w (fun r w' => match r with
    | Ok _ => Q r w'
    | Raise e => Q (Raise e) w' /\ Q (Raise DurabilityError) w'
    end) ->
  wp I (os_to_durability p) w Q.
Proof.
  intros H. apply wp_try. eapply wp_mono; [exact H|]. intros [a|e] w' HQ; [done|]. destruct HQ. by case_decide.
Qed.

Lemma wp_suppress ex (p : prog unit) w (Q : res unit -> world -> Prop) :
  wp I p w (fun r w' => match r with
    | Ok _ => Q r w'
    | Raise e => if decide (e = ex) then Q (Ok tt) w' else Q (Raise e) w'
    end) ->
  wp I (suppress ex p) w Q.
Proof.
  intros H. apply wp_try. eapply wp_mono; [exact H|]. intros [a|e] w' HQ; [done|]. by case_decide.
Qed.

Lemma wp_finally {A} (p : prog A) (q : prog unit) : forall w (Q : res A -> world -> Prop),
  wp I p w (fun r w' => wp I q w' (fun r' w'' => match r' with Ok _ => Q r w'' | Raise e => Q (Raise e) w'' end)) ->
  wp I (finally p q) w Q.
Proof.
  induction p as [a|e|c k IH]; cbn; intros w Q H.
  - apply wp_bind. eapply wp_mono; [exact H|]. by intros [|].
  - apply wp_bind. eapply wp_mono; [exact H|]. by intros [|].
  - intros w1 o HR. destruct (H w1 o HR) as (r & w2 & E & HI & Hk). eauto 10.
Qed.

Lemma wp_call {A} c (k : ans c -> prog A) w Q :
  (forall w1 o, R w w1 -> match do_call me o c w1 with Some (r, w2) => I w2 /\ wp I (k r) w2 Q | None => False end) ->
  wp I (Call c k) w Q.
Proof.
  intros H. cbn. intros w1 o HR. specialize (H w1 o HR). destruct (do_call me o c w1) as [[r w2]|]; [eauto|done].
Qed.

Lemma wp_and (J : world -> Prop) {A} (p : prog A) : forall w (Q Q' : res A -> world -> Prop),
  wp I p w Q -> wp J p w Q' -> wp (fun w => I w /\ J w) p w (fun r w' => Q r w' /\ Q' r w').
Proof.
  induction p as [a|e|c k IH]; cbn; intros w Q Q' H H'; auto.
  intros w1 o HR. destruct (H w1 o HR) as (r & w2 & E & HI & Hk), (H' w1 o HR) as (r' & w2' & E' & HI' & Hk').
  rewrite E in E'. injection E' as <- <-. eauto 10.
Qed.
End wp.

Lemma wp_inv me R (I J : world -> Prop) {A} (p : prog A) : (forall w, I w -> J w) -> forall w Q, wp me R I p w Q -> wp me R J p w Q.
Proof.
  intros HIJ. induction p as [a|e|c k IH]; cbn; intros w Q H; auto.
  intros w1 o HR. destruct (H w1 o HR) as (r & w2 & E & HI & Hk). eauto 10.
Qed.

(** ** What a call leaves alone *)

(** The paths whose entry or data a call may change. *)
Definition changes (c : call) (p : path) : Prop :=
  match c with
  | CMkdir q | COpenTemp q | CWrite q _ | CFsync q | CUnlink q | CSymlink q _ | COpenLock q => p = q
  | CReplace src dst => p = src \/ p = dst
  | _ => False
  end.

Definition is_lock_call (c : call) : Prop :=
  match c with CAcquire _ | CRelease _ | CFlock _ | CUnlock _ | CCloseLock _ => True | _ => False end.

(** The directory entry of [p] is as it was, its old entries kept or forgotten. *)
Definition same_at (p : path) (w w' : world) : Prop :=
  vis w' !! p = vis w !! p /\ (hist w' p = hist w p \/ hist w' p = []).

Lemma same_at_refl p w : same_at p w w.
Proof. split; auto. Qed.

Lemma same_at_trans p w1 w2 w3 : same_at p w1 w2 -> same_at p w2 w3 -> same_at p w1 w3.
Proof. intros [E1 H1] [E2 H2]. split; [congruence|]. destruct H2 as [->| ->]; auto. Qed.

Lemma same_at_put p q e w : p <> q -> same_at p w (put q e w).
Proof.
  intros H. unfold same_at, hist; cbn. rewrite lookup_partial_alter_ne, lookup_insert_ne by done. auto.
Qed.

Lemma same_at_in_place p q e w : p <> q -> same_at p w (in_place q e w).
Proof. intros H. unfold same_at, hist; cbn. rewrite lookup_insert_ne by done. auto. Qed.

Lemma same_at_sync p d w : same_at p w (sync_dir d w).
Proof.
  split; [done|]. unfold hist; cbn. rewrite map_lookup_filter. destruct (old w !! p) as [l|]; cbn; auto.
  case_guard; cbn; auto.
Qed.

Lemma same_at_locks p w g f : same_at p w (mkWorld (vis w) (old w) g f).
Proof. split; auto. Qed.

#[export] Hint Resolve same_at_locks same_at_refl same_at_put same_at_in_place same_at_sync : lubko.

Lemma os_result_inv {A} o w (r : option (A * world)) a w' :
  os_result o w r = (a, w') -> (a = Raise OSError /\ w' = w) \/ (exists x, a = Ok x /\ r = Some (x, w') /\ fails o = false).
Proof. unfold os_result. destruct (fails o); [|destruct r as [[x w2]|]]; intros [= <- <-]; eauto. Qed.

Lemma do_write_inv o q chunk w n w' :
  do_write o q chunk w = Some (n, w') ->
  exists d s, vis w !! q = Some (File d s) /\
  ((n <= 0 /\ w' = w) \/ (0 < n <= Z.of_nat (length chunk) /\ w' = in_place q (File (d ++ take (Z.to_nat n) chunk) false) w)).
Proof.
  unfold do_write. destruct (vis w !! q) as [[d s| | |]|] eqn:E; try done.
  destruct (Z.leb_spec (o_count o `min` Z.of_nat (length chunk)) 0); intros [= <- <-]; exists d, s; split; auto.
  right. split; [lia|done].
Qed.

Lemma do_replace_inv src dst w u w' :
  do_replace src dst w = Some (u, w') ->
  exists e, vis w !! src = Some e /\ w' = put src None (put dst (Some e) w) /\ e <> Dir /\ vis w !! dst <> Some Dir.
Proof. unfold do_replace. intros H. repeat case_match; simplify_eq; eexists; split_and!; eauto; congruence. Qed.

(** A call changes only the paths it names, and locks only if it is a lock call. *)
Lemma call_frame me o c w r w' :
  do_call me o c w = Some (r, w') ->
  (forall p, ~ changes c p -> same_at p w w') /\ (~ is_lock_call c -> gates w' = gates w /\ flocks w' = flocks w).
Proof.
  destruct c; cbn; intros H; try injection H as H;
    try (apply os_result_inv in H as [[_ ->]|(x & _ & H & _)]; [by auto with lubko|]); simplify_eq; auto with lubko.
  all: try solve [repeat case_match; simplify_eq; split; intros; auto with lubko].
  - apply do_write_inv in H as (d & s & _ & [[_ ->]|[_ ->]]); split; auto with lubko.
  - apply do_replace_inv in H as (e & _ & -> & _). split; [|done]. intros p Hp.
    apply same_at_trans with (put dst (Some e) w); apply same_at_put; naive_solver.
  - unfold do_acquire in H. repeat case_match; simplify_eq; split; try done; intros; apply same_at_locks.
  - split; [|done]. intros p _. unfold do_release. repeat case_match; apply same_at_locks.
  - repeat case_match; simplify_eq; split; try done; intros; first [apply same_at_locks|apply same_at_refl].
  - split; [|done]. intros p _. unfold do_unlock. case_decide; [apply same_at_locks|apply same_at_refl].
  - split; [|done]. intros p _. unfold do_unlock. case_decide; [apply same_at_locks|apply same_at_refl].
Qed.

(** Only a lock call can block. *)
Lemma call_enabled me o c w : ~ is_lock_call c -> exists r w', do_call me o c w = Some (r, w').
Proof.
  intros H. destruct (do_call me o c w) as [[r w']|] eqn:E; [eauto|]. exfalso.
  destruct c; cbn in H, E; done.
Qed.

(** ** Exceptions *)

(** The exceptions of this module. *)
Definition err (e : exn) : Prop := e = OSError \/ e = DurabilityError.
Definition err_only {A} (r : res A) : Prop := match r with Ok _ => True | Raise e => err e end.

Lemma err_os : err OSError.
Proof. by left. Qed.
Lemma err_dur : err DurabilityError.
Proof. by right. Qed.
#[export] Hint Resolve err_os err_dur : lubko.

Definition answer (c : call) (r : ans c) : Prop := exists me o w w', do_call me o c w = Some (r, w').

(** What a program may raise, whatever its calls answer. *)
Fixpoint raises (E : exn -> Prop) {A} (p : prog A) : Prop :=
  match p with
  | Ret _ => True
  | Throw e => E e
  | Call c k => forall r, answer c r -> raises E (k r)
  end.

Lemma raises_bind E {A B} (p : prog A) (f : A -> prog B) : raises E p -> (forall a, raises E (f a)) -> raises E (p ≫= f).
Proof. unfold mbind, prog_mbind. intros Hp Hf. induction p as [a|e|c k IH]; cbn in *; auto. Qed.

Lemma raises_try (E E' : exn -> Prop) {A} (p : prog A) h :
  raises E p -> (forall e, E e -> match h e with Some q => raises E' q | None => E' e end) -> raises E' (try_catch p h).
Proof.
  intros Hp Hh. induction p as [a|e|c k IH]; cbn in *; auto. specialize (Hh e Hp). by destruct (h e).
Qed.

Lemma raises_finally E {A} (p : prog A) q : raises E p -> raises E q -> raises E (finally p q).
Proof. intros Hp Hq. induction p as [a|e|c k IH]; cbn in *; auto; by apply raises_bind. Qed.

(** A call raises [OSError], the injection hook possibly [DurabilityError]. *)
Lemma os_answer {A} o w (r : option (A * world)) a w' : os_result o w r = (a, w') -> err_only a.
Proof. intros [[-> _]|(x & -> & _)]%os_result_inv; [by left|done]. Qed.

Lemma os_to_durability_raises {A} (p : prog A) : raises err p -> raises (fun e => e = DurabilityError) (os_to_durability p).
Proof.
  intros Hp. unfold os_to_durability. eapply raises_try; [exact Hp|]. intros e [-> | ->]; [by rewrite decide_True|].
  by rewrite decide_False.
Qed.

Lemma raises_mono (E E' : exn -> Prop) {A} (p : prog A) : (forall e, E e -> E' e) -> raises E p -> raises E' p.
Proof. intros H. induction p as [a|e|c k IH]; cbn; auto. Qed.

Lemma wp_raises me R I E {A} (p : prog A) : forall w (Q : res A -> world -> Prop),
  raises E p -> wp me R I p w Q ->
  wp me R I p w (fun r w' => match r with Ok _ => True | Raise e => E e end /\ Q r w').
Proof.
  induction p as [a|e|c k IH]; cbn; intros w Q Hr Hw; auto.
  intros w1 o HR. destruct (Hw w1 o HR) as (r & w2 & E' & HI & Hk). exists r, w2. split_and!; auto.
  apply IH; [|done]. apply Hr. by exists me, o, w1, w2.
Qed.

(** ** Working on one destination *)

Lemma lock_key_ne D p : length (path_name p) = length (path_name D) -> p <> lock_key D.
Proof.
  intros H ->. unfold lock_key, with_name, path_name in H. cbn [List.hd] in H.
  rewrite length_app in H. change (length DURABLE_LOCK_PREFIX) with 20%nat in H. lia.
Qed.

Lemma temporary_ne pid s D : D <> temporary_path pid s D.
Proof.
  intros H. apply (f_equal path_name), (f_equal length) in H. unfold temporary_path, with_name, path_name in H.
  cbn [List.hd] in H. rewrite length_app in H. change (length DURABLE_TEMP_PREFIX) with 15%nat in H.
  rewrite !length_app in H. lia.
Qed.

Section destination.
Context (me : nat * nat) (D : path).

Definition key : path := lock_key D.

(** The gate and the [flock] of the destination. *)
Definition locks (g : option (nat * nat)) (f : option nat) (w : world) : Prop :=
  gates w !! (me.1, key) = g /\ flocks w !! key = f.

(** No lock, or both, possibly nested. *)
Definition lock_state (g : option (nat * nat)) (f : option nat) : Prop :=
  (g = None /\ f = None) \/ (exists n, g = Some (me.2, S n) /\ f = Some me.1).

(** What others may do meanwhile: anything that leaves the destination, its
    temporaries and its lock alone; forgetting old entries is allowed, and no
    durable directory is lost. *)
Definition is_mine (p : path) : Prop := p = D \/ exists s, p = temporary_path (Z.of_nat me.1) s D.

Definition dir_durable (w : world) (d : path) : Prop := d = [] \/ Forall (fun e => e = Some Dir) (values w d).

Definition quiet (w w' : world) : Prop :=
  (forall p, is_mine p -> same_at p w w')
  /\ gates w' !! (me.1, key) = gates w !! (me.1, key) /\ flocks w' !! key = flocks w !! key
  /\ (forall d, dir_durable w d -> dir_durable w' d).

(** The visible entry, what a crash may leave, the locks. *)
Definition at_ (v : option entry) (C : option entry -> Prop) g f (w : world) : Prop :=
  vis w !! D = v /\ Forall C (values w D) /\ locks g f w.

Lemma same_at_values (p : path) (C : option entry -> Prop) w w' : same_at p w w' -> Forall C (values w p) -> Forall C (values w' p).
Proof.
  intros [Hv Hh] H. unfold values in *. rewrite Hv. apply List.Forall_cons_iff in H as [H1 H2].
  apply List.Forall_cons; [done|]. destruct Hh as [->| ->]; auto.
Qed.

Lemma at_quiet v C g f w w' : quiet w w' -> at_ v C g f w -> at_ v C g f w'.
Proof.
  intros (Hm & Hg & Hf & _) (Hv & HC & Hl & Hl'). pose proof (Hm D (or_introl eq_refl)) as Hs. split_and!.
  - destruct Hs as [-> _]. done.
  - by eapply same_at_values.
  - split; congruence.
Qed.

Lemma at_weaken v (C C' : option entry -> Prop) g f w : (forall e, C e -> C' e) -> at_ v C g f w -> at_ v C' g f w.
Proof. intros H (Hv & HC & Hl). split_and!; [done| |done]. eapply List.Forall_impl; [|exact HC]. auto. Qed.

(** A call that neither names the destination nor takes a lock keeps [at_]. *)
Lemma at_call o c w r w' v C g f :
  do_call me o c w = Some (r, w') -> ~ changes c D -> ~ is_lock_call c -> at_ v C g f w -> at_ v C g f w'.
Proof.
  intros H Hc Hl (Hv & HC & Hl1 & Hl2). pose proof (call_frame _ _ _ _ _ _ H) as [Hs Hn]. specialize (Hs D Hc).
  destruct (Hn Hl) as [Eg Ef]. split_and!; [by rewrite (proj1 Hs)|by eapply same_at_values|split; congruence].
Qed.

(** Programs made of such calls, with what they return. *)
Fixpoint calm {A} (P : A -> Prop) (p : prog A) : Prop :=
  match p with
  | Ret a => P a
  | Throw _ => True
  | Call c k => ~ changes c D /\ ~ is_lock_call c /\ (forall r, calm P (k r))
  end.

Lemma calm_bind {A B} (P : A -> Prop) (P' : B -> Prop) (p : prog A) (f : A -> prog B) :
  calm P p -> (forall a, P a -> calm P' (f a)) -> calm P' (p ≫= f).
Proof. unfold mbind, prog_mbind. intros Hp Hf. induction p as [a|e|c k IH]; cbn in *; auto. naive_solver. Qed.

Lemma calm_try {A} (P : A -> Prop) (p : prog A) h :
  calm P p -> (forall e q, h e = Some q -> calm P q) -> calm P (try_catch p h).
Proof.
  intros Hp Hh. induction p as [a|e|c k IH]; cbn in *; auto; [|naive_solver].
  destruct (h e) eqn:E; cbn; eauto.
Qed.

Lemma calm_finally {A} (P : A -> Prop) (p : prog A) q : calm P p -> calm (fun _ => True) q -> calm P (finally p q).
Proof.
  intros Hp Hq. induction p as [a|e|c k IH]; cbn in *; auto; [by eapply calm_bind; [exact Hq|]..|naive_solver].
Qed.

Lemma calm_lift {A} (r : res A) : calm (fun _ => True) (lift r).
Proof. by destruct r. Qed.

Lemma calm_os {A} (P : A -> Prop) (p : prog A) : calm P p -> calm P (os_to_durability p).
Proof. intros Hp. apply calm_try; [done|]. intros e q. case_decide; [|done]. by intros [= <-]. Qed.

Lemma wp_calm (J : world -> Prop) {A} (P : A -> Prop) (p : prog A) v C g f :
  (forall w, at_ v C g f w -> J w) -> calm P p ->
  forall w, at_ v C g f w ->
  wp me quiet J p w (fun r w' => match r with Ok a => P a | Raise _ => True end /\ at_ v C g f w').
Proof.
  intros HJ. induction p as [a|e|c k IH]; cbn; intros Hp w Hw; auto.
  destruct Hp as (Hc & Hl & Hk). intros w1 o Hq. pose proof (at_quiet _ _ _ _ _ _ Hq Hw) as Hw1.
  destruct (call_enabled me o c w1 Hl) as (r & w2 & E). exists r, w2.
  pose proof (at_call _ _ _ _ _ _ _ _ _ E Hc Hl Hw1). auto.
Qed.

Ltac calm_tac :=
  repeat first
    [ progress cbn [calm changes is_lock_call]
    | apply calm_os
    | apply calm_finally
    | eapply calm_bind; [|intros ? ?]
    | match goal with |- _ /\ _ => split | |- ~ False => intros [] | |- forall _, _ => intros ? | |- calm _ (lift _) => apply calm_lift end
    | done ].

Lemma fsync_directory_calm d : calm (fun _ => True) (fsync_directory d).
Proof. unfold fsync_directory. calm_tac. Qed.

Lemma _fsync_directory_calm d : calm (fun _ => True) (_fsync_directory d).
Proof. unfold _fsync_directory. calm_tac. Qed.

(** The levels [make_directory_durable] creates lie above the destination. *)
Definition above (p : path) : Prop := (length p < length D)%nat.

Lemma missing_levels_calm p : above p -> forall m, Forall above m -> calm (fun r => Forall above r.2) (missing_levels p m).
Proof.
  induction p as [|x p IH]; intros Ha m Hm; cbn; (split; [by intros []|]; split; [by intros []|]); intros [|]; cbn; auto.
  unfold above in Ha. cbn [length] in Ha. apply IH; [unfold above; lia|by apply List.Forall_cons; [unfold above; cbn [length]|]].
Qed.

Lemma create_levels_calm l : Forall above l -> calm (fun _ => True) (create_levels l).
Proof.
  intros H. induction H as [|c l Hc Hl IH]; cbn [create_levels]; [done|].
  eapply calm_bind; [|intros _ _; eapply calm_bind; [apply _fsync_directory_calm|by intros _ _]].
  apply calm_os. cbn. split_and!; [|by intros []|intros r; apply calm_lift]. intros E. unfold above in Hc. rewrite <- E in Hc. lia.
Qed.

Lemma make_directory_calm : D <> [] -> calm (fun _ => True) (make_directory_durable (parent D)).
Proof.
  intros HD. unfold make_directory_durable. eapply calm_bind.
  - apply (missing_levels_calm (parent D)); [|done]. unfold above. destruct D; [done|]. cbn. lia.
  - intros [fe m] Hm. eapply calm_bind; [by apply create_levels_calm|]. intros _ _. case_decide; apply _fsync_directory_calm.
Qed.

Lemma write_loop_calm t : t <> D -> forall fuel rest, calm (fun _ => True) (write_loop fuel t rest).
Proof.
  intros Ht. induction fuel as [|fuel IH]; intros [|b rest]; cbn [write_loop]; try done.
  cbn. split_and!; [congruence|by intros []|]. intros [n|e]; cbn; [|done]. destruct (Z.leb_spec n 0); [done|apply IH].
Qed.

Lemma write_temporary_calm t data : t <> D -> calm (fun _ => True) (_write_temporary_file t data).
Proof.
  intros Ht. unfold _write_temporary_file. eapply calm_bind; [|intros _ _; apply calm_finally; [apply calm_os|]].
  - apply calm_os. cbn. split_and!; [congruence|by intros []|intros r; apply calm_lift].
  - eapply calm_bind; [by apply write_loop_calm|intros _ _]. calm_tac.
  - calm_tac.
Qed.
End destination.

(** ** The exceptions of each program *)

Definition is_dur (e : exn) : Prop := e = DurabilityError.

Lemma lift_raises E {A} (r : res A) : (match r with Ok _ => True | Raise e => E e end) -> raises E (lift r).
Proof. by destruct r. Qed.

(** A call whose answer is raised raises only [OSError] or [DurabilityError]. *)
Ltac raises_call :=
  cbn [raises]; let H := fresh in intros ? (? & ? & ? & ? & H); apply lift_raises; cbn in H;
  first
    [ injection H as H; apply os_answer in H; exact H
    | injection H as <- _; cbn; repeat case_match; simplify_eq; auto with lubko
    | unfold err; repeat case_match; simplify_eq; cbn; auto ].

Ltac raises_tac :=
  repeat first
    [ exact I
    | progress cbn [raises]
    | apply raises_bind; [|intros ?]
    | apply raises_finally
    | raises_call ].

Lemma raises_err_of_dur {A} (p : prog A) : raises is_dur p -> raises err p.
Proof. apply raises_mono. intros e ->. by right. Qed.

Lemma os_to_durability_err {A} (p : prog A) : raises err p -> raises err (os_to_durability p).
Proof. intros H. by apply raises_err_of_dur, os_to_durability_raises. Qed.

Lemma fsync_directory_raises d : raises err (fsync_directory d).
Proof. unfold fsync_directory. raises_tac; apply os_to_durability_err; raises_tac. Qed.

Lemma _fsync_directory_raises d : raises err (_fsync_directory d).
Proof. unfold _fsync_directory. raises_tac; apply os_to_durability_err; raises_tac. Qed.

Lemma missing_levels_raises p : forall m, raises err (missing_levels p m).
Proof. induction p as [|x p IH]; intros m; cbn; intros [|] _; cbn; auto. Qed.

Lemma create_levels_raises l : raises err (create_levels l).
Proof.
  induction l as [|c l IH]; cbn [create_levels]; [done|].
  apply raises_bind; [apply os_to_durability_err; raises_tac|intros _].
  apply raises_bind; [apply _fsync_directory_raises|by intros _].
Qed.

Lemma make_directory_raises d : raises err (make_directory_durable d).
Proof.
  unfold make_directory_durable. apply raises_bind; [apply missing_levels_raises|intros [fe m]].
  apply raises_bind; [apply create_levels_raises|intros _]. case_decide; apply _fsync_directory_raises.
Qed.

Lemma answer_write_pos p chunk n : answer (CWrite p chunk) (Ok n) -> n <= Z.of_nat (length chunk).
Proof.
  intros (me & o & w & w' & H). cbn in H. injection H as H. apply os_result_inv in H as [[? _]|(x & [= ->] & H & _)]; [done|].
  apply do_write_inv in H as (d & s & _ & [[H _]|[H _]]); lia.
Qed.

Lemma write_loop_raises p : forall fuel rest, (length rest <= fuel)%nat -> raises err (write_loop fuel p rest).
Proof.
  induction fuel as [|fuel IH]; intros [|b rest] Hl; cbn [write_loop raises length] in *; try done; [lia|].
  intros r Hr. apply raises_bind.
  - apply lift_raises. destruct Hr as (me & o & w & w' & H). cbn in H. injection H as H. by apply os_answer in H.
  - intros n. destruct (Z.leb_spec n 0); [by left|]. apply IH. rewrite length_drop. cbn [length]. lia.
Qed.

Lemma write_temporary_raises t data : raises err (_write_temporary_file t data).
Proof.
  unfold _write_temporary_file. apply raises_bind; [apply os_to_durability_err; raises_tac|intros _].
  apply raises_finally; [|raises_tac]. apply os_to_durability_err.
  apply raises_bind; [by apply write_loop_raises|intros _]. raises_tac.
Qed.

(** ** Specifications of the operations on a destination *)

Section operations.
Context (me : nat * nat) (D : path) (C0 : option entry -> Prop).

(** Throughout, a crash leaves at the destination only what [C0] allows. *)
Definition inv (w : world) : Prop := Forall C0 (values w D).

#[local] Abbreviation W := (wp me (quiet me D) inv).
#[local] Abbreviation at_D := (at_ me D).

Lemma at_inv v C g f w : (forall e, C e -> C0 e) -> at_D v C g f w -> inv w.
Proof. intros H (_ & HC & _). eapply List.Forall_impl; [|exact HC]. auto. Qed.

(** The entry of the destination after an operation: a confirmed entry is the
    only one a crash may leave.  The gate stays acquired in one case: taking the
    [flock] failed and so did closing its descriptor. *)
Definition ends (ok : option entry) (bad : option entry -> Prop) g f (r : res unit) (w : world) : Prop :=
  match r with
  | Ok _ => at_D ok (eq ok) g f w
  | Raise e =>
      err e /\ exists v, bad v
      /\ (at_D v C0 g f w \/ (e = OSError /\ g = None /\ at_D v C0 (Some (me.2, 1%nat)) None w))
  end.

Lemma W_calm {A} (P : A -> Prop) (p : prog A) v C g f w :
  (forall e, C e -> C0 e) -> calm D P p -> raises err p -> at_D v C g f w ->
  W p w (fun r w' => match r with Ok a => P a | Raise e => err e end /\ at_D v C g f w').
Proof.
  intros HC Hc Hr Hw. pose proof (wp_calm me D inv P p v C g f (fun w => at_inv v C g f w HC) Hc w Hw) as H.
  eapply wp_mono; [exact (wp_raises _ _ _ _ _ _ _ Hr H)|]. intros [a|e] w' (H1 & H2 & H3); auto.
Qed.

Lemma at_sync v C g f w : at_D v C g f w -> at_D v (eq v) g f (sync_dir (parent D) w).
Proof.
  intros (Hv & _ & Hl). split_and!; [done| |done]. unfold values, hist. cbn. rewrite map_lookup_filter.
  destruct (old w !! D); cbn; [case_guard; [done|]|]; cbn; by repeat constructor.
Qed.

(** A step that leaves the destination alone. *)
Lemma W_skip {A} (p : prog A) v C g f w :
  (forall e, C e -> C0 e) -> calm D (fun _ => True) p -> raises err p -> at_D v C g f w ->
  W p w (fun r w' => err_only r /\ at_D v C g f w').
Proof.
  intros HC Hc Hr Hw. eapply wp_mono; [by apply (W_calm (fun _ => True) p v C g f)|]. by intros [a|e] w' [? ?].
Qed.

Lemma close_spec v C g f w :
  (forall e, C e -> C0 e) -> at_D v C g f w -> W (Call CClose lift) w (fun r w' => err_only r /\ at_D v C g f w').
Proof.
  intros HC Hw. apply W_skip; [done| |raises_tac|done]. cbn. split_and!; [by intros []|by intros []|intros r; apply calm_lift].
Qed.

Lemma at_v_C v C g f w : at_D v C g f w -> C v.
Proof. intros (<- & HC & _). by apply List.Forall_inv in HC. Qed.

Definition synced (v : option entry) g f (r : res unit) (w : world) : Prop :=
  match r with Ok _ => at_D v (eq v) g f w | Raise e => err e /\ at_D v C0 g f w end.

Lemma sync_core v g f w d :
  at_D v C0 g f w -> W (_ ← Call (CInject d FSYNC_STAGE_DIR) lift; Call (CSyncDir (parent D)) lift) w (synced v g f).
Proof.
  intros Hw. pose proof (at_v_C _ _ _ _ _ Hw) as Hv. apply wp_bind.
  eapply wp_mono; [apply (W_skip _ v C0 g f); [done| |raises_tac|exact Hw]|].
  { cbn. split_and!; [by intros []|by intros []|intros r; apply calm_lift]. }
  intros [[]|e] w1 [He Hw1]; [|done]. cbn [wp]. intros w2 o Hq.
  pose proof (at_quiet _ _ _ _ _ _ _ _ Hq Hw1) as Hw2. cbn [do_call]. unfold os_result. destruct (fails o).
  - eexists _, w2. split_and!; [reflexivity|by eapply (at_inv v C0)|]. cbn. auto with lubko.
  - pose proof (at_sync _ _ _ _ _ Hw2) as Hs. eexists _, _. split_and!; [reflexivity| |exact Hs].
    eapply (at_inv v (eq v)); [|exact Hs]. by intros e' <-.
Qed.

Lemma synced_close v g f r w :
  C0 v -> synced v g f r w ->
  W (Call CClose lift) w
    (fun r' w'' => match r' with Ok _ => synced v g f r w'' | Raise e => synced v g f (Raise e) w'' end).
Proof.
  intros Hv H. destruct r as [[]|e]; cbn [synced] in H.
  - eapply wp_mono; [apply (close_spec v (eq v) g f); [by intros e <-|exact H]|].
    intros [[]|e] w' [He Hw']; [done|]. split; [done|]. eapply at_weaken; [|exact Hw']. by intros e' <-.
  - destruct H as [He H]. eapply wp_mono; [apply (close_spec v C0 g f); [done|exact H]|].
    intros [[]|e'] w' [He' Hw']; by split.
Qed.

Lemma fsync_spec v g f w : at_D v C0 g f w -> W (fsync_directory (parent D)) w (synced v g f).
Proof.
  intros Hw. pose proof (at_v_C _ _ _ _ _ Hw) as Hv. unfold fsync_directory. apply wp_bind.
  eapply wp_mono; [apply (W_skip _ v C0 g f); [done| | |exact Hw]|].
  { apply calm_os. cbn. split_and!; [by intros []|by intros []|intros r; apply calm_lift]. }
  { apply os_to_durability_err. raises_tac. }
  intros [[]|e] w1 [He Hw1]; [|done]. apply wp_finally, wp_os.
  eapply wp_mono; [by apply (sync_core v g f)|]. intros [[]|e] w2 H; [by apply synced_close|].
  destruct H. split; (apply (synced_close v g f (Raise _)); [done|]); split; auto with lubko.
Qed.

(** Cleanup after an unconfirmed change, whatever it ends with. *)
Definition settles (bad : option entry -> Prop) g f (r : res unit) (w : world) : Prop :=
  err_only r /\ exists v, bad v /\ at_D v C0 g f w.

Lemma confirm_spec v bad g f (cleanup : prog unit) w :
  bad v -> at_D v C0 g f w ->
  (forall w', at_D v C0 g f w' -> W cleanup w' (settles bad g f)) ->
  W (confirm D cleanup) w (ends v bad g f).
Proof.
  intros Hbad Hw Hc. apply wp_try. eapply wp_mono; [by apply (fsync_spec v g f)|].
  intros [[]|e] w1 H; [done|]. destruct H as [He H]. case_decide; cbn -[wp]; [|split; eauto 6].
  apply wp_bind. eapply wp_mono; [by apply Hc|].
  intros [[]|e'] w2 [He' (v' & Hb & Hv')]; cbn; split; eauto 6 with lubko.
Qed.
End operations.

(** ** The temporary file *)

Section temporary.
Context (me : nat * nat) (D t : path) (Ht : is_mine me D t).

#[local] Abbreviation W := (wp me (quiet me D) (fun _ => True)).

Definition holds (e : entry) (w : world) : Prop := vis w !! t = Some e.
Definition when_ok {A} (P : world -> Prop) (r : res A) (w : world) : Prop := match r with Ok _ => P w | Raise _ => True end.

Lemma holds_quiet e w w' : quiet me D w w' -> holds e w -> holds e w'.
Proof. intros (Hm & _) H. unfold holds. by rewrite (proj1 (Hm t Ht)). Qed.

Lemma write_loop_spec : forall fuel rest d s w,
  (length rest <= fuel)%nat -> holds (File d s) w ->
  W (write_loop fuel t rest) w (when_ok (fun w' => exists s', holds (File (d ++ rest) s') w')).
Proof.
  induction fuel as [|fuel IH]; intros [|b rest] d s w Hl Hw; cbn [write_loop].
  - exists s. by rewrite app_nil_r.
  - cbn in Hl. lia.
  - exists s. by rewrite app_nil_r.
  - cbn [length] in Hl. apply wp_bind, wp_call. intros w1 o Hq. apply (holds_quiet _ _ _ Hq) in Hw.
    cbn [do_call]. unfold os_result. destruct (fails o); [done|].
    destruct (do_write o t (b :: rest) w1) as [[n w2]|] eqn:E; [|done]. split; [done|]. cbn [lift wp].
    apply do_write_inv in E as (d' & s' & Ed & Hn). unfold holds in Hw. rewrite Hw in Ed. injection Ed as <- <-.
    destruct Hn as [[Hn ->]|[Hn ->]]; destruct (Z.leb_spec n 0); try lia; [done|].
    eapply wp_mono; [eapply (IH (drop (Z.to_nat n) (b :: rest)) (d ++ take (Z.to_nat n) (b :: rest)) false)|].
    + rewrite length_drop. cbn [length] in *. lia.
    + unfold holds. cbn. by rewrite lookup_insert_eq.
    + intros r w' H'. destruct r; [|done]. by rewrite <- app_assoc, take_drop in H'.
Qed.

Lemma open_spec w : W (os_to_durability (Call (COpenTemp t) lift)) w (when_ok (holds (File [] false))).
Proof.
  apply wp_os, wp_call. intros w1 o _.
  cbn [do_call]. unfold os_result. destruct (fails o); [done|].
  destruct (vis w1 !! t) as [[d s| | |]|]; try done; (split; [done|]); cbn; unfold holds; cbn.
  - by rewrite lookup_insert_eq.
  - by rewrite lookup_partial_alter_eq.
Qed.

Lemma fsync_temp_spec d s w : holds (File d s) w -> W (Call (CFsync t) lift) w (when_ok (holds (File d true))).
Proof.
  intros Hw. apply wp_call. intros w1 o Hq. apply (holds_quiet _ _ _ Hq) in Hw.
  cbn [do_call]. unfold os_result. destruct (fails o); [done|]. unfold holds in Hw. rewrite Hw. split; [done|].
  cbn. unfold holds. cbn. by rewrite lookup_insert_eq.
Qed.

Lemma keep_spec c (k : ans c -> res unit) e w :
  ~ changes c t -> ~ is_lock_call c -> holds e w -> W (Call c (fun r => lift (k r))) w (when_ok (holds e)).
Proof.
  intros Hc Hl Hw. apply wp_call. intros w1 o Hq. apply (holds_quiet _ _ _ Hq) in Hw.
  destruct (call_enabled me o c w1 Hl) as (r & w2 & E). rewrite E. split; [done|].
  destruct (k r); [|done]. cbn. unfold holds. by rewrite (proj1 (proj1 (call_frame _ _ _ _ _ _ E) t Hc)).
Qed.

Lemma close_any w : W (Call CClose lift) w (fun _ _ => True).
Proof. apply wp_call. intros w1 o _. cbn [do_call]. unfold os_result. by destruct (fails o). Qed.

(** A temporary file that was written without an error holds all the data, synced. *)
Lemma write_temporary_spec data w : W (_write_temporary_file t data) w (when_ok (holds (File data true))).
Proof.
  unfold _write_temporary_file. apply wp_bind. eapply wp_mono; [apply open_spec|]. intros [[]|e] w1 H1; [|done].
  apply wp_finally, wp_os, wp_bind. eapply wp_mono; [by apply (write_loop_spec (length data) data [] false)|].
  intros [[]|e] w2 H2; [destruct H2 as [s H2]|].
  - cbn [app] in H2. apply wp_bind.
    eapply wp_mono; [apply (keep_spec (CInject t FSYNC_STAGE_FILE) (fun r => r) (File data s)); [by intros []|by intros []|exact H2]|].
    intros [[]|e] w3 H3.
    + eapply wp_mono; [by apply (fsync_temp_spec data s)|]. intros [[]|e] w4 H4.
      * eapply wp_mono; [apply (keep_spec CClose (fun r => r) (File data true)); [by intros []|by intros []|exact H4]|].
        by intros [[]|e] w5 H5.
      * split; (eapply wp_mono; [apply close_any|by intros []]).
    + split; (eapply wp_mono; [apply close_any|by intros []]).
  - split; (eapply wp_mono; [apply close_any|by intros []]).
Qed.
End temporary.
