(* ===== verification/DurableOps.v ===== *)
(** Specifications of the operations of [Durable]: the lock section, the write
    of a file or a link, the removal, and their clean-ups. *)

From S2P Require Import Prelude PyStr PyNum Json Durable DurableFacts.
From stdpp Require Import gmap.

#[local] Open Scope Z_scope.

Section destination.
Context (me : nat * nat) (D : path) (C0 : option entry -> Prop) (D_named : D <> []).

#[local] Abbreviation W := (wp me (quiet me D) (inv D C0)).
#[local] Abbreviation at_D := (at_ me D).
#[local] Abbreviation ends := (ends me D C0).
#[local] Abbreviation settles := (settles me D C0).

(** ** The lock section *)

Lemma at_relock v C g f g' f' w :
  at_D v C g f w ->
  forall gs fs, gs !! (me.1, key D) = g' -> fs !! key D = f' -> at_D v C g' f' (mkWorld (vis w) (old w) gs fs).
Proof. intros (Hv & HC & _) gs fs Hg Hf. by split_and!. Qed.

Lemma release_spec v C n f w :
  (forall e, C e -> C0 e) -> at_D v C (Some (me.2, S n)) f w ->
  W (Call (CRelease (key D)) Ret) w
    (fun r w' => r = Ok tt /\ at_D v C (match n with O => None | S _ => Some (me.2, n) end) f w').
Proof.
  intros HC Hw. apply wp_call. intros w1 o Hq. apply (at_quiet _ _ _ _ _ _ _ _ Hq) in Hw. cbn [do_call].
  pose proof Hw as (_ & _ & Hg & Hf).
  assert (H : at_D v C (match n with O => None | S _ => Some (me.2, n) end) f (do_release me.1 (key D) w1)).
  { unfold do_release. rewrite Hg. destruct n; (eapply at_relock; [exact Hw| |done]).
    - apply lookup_delete_eq.
    - apply lookup_insert_eq. }
  split; [by eapply at_inv|by split].
Qed.

Lemma unlocked v C g w :
  (forall e, C e -> C0 e) -> at_D v C g (Some me.1) w \/ at_D v C g None w ->
  at_D v C g None (do_unlock me.1 (key D) w).
Proof.
  intros HC Hw. unfold do_unlock. destruct Hw as [Hw|Hw]; pose proof Hw as (_ & _ & Hg & Hf); case_decide; try congruence;
    try done; (eapply at_relock; [exact Hw|done|]); apply lookup_delete_eq.
Qed.

Lemma close_lock_spec v C g w :
  (forall e, C e -> C0 e) -> at_D v C g (Some me.1) w \/ at_D v C g None w ->
  W (Call (CCloseLock (key D)) lift) w (fun r w' => (r = Ok tt \/ r = Raise OSError) /\ at_D v C g None w').
Proof.
  intros HC Hw. apply wp_call. intros w1 o Hq. cbn [do_call].
  assert (Hw1 : at_D v C g None (do_unlock me.1 (key D) w1)).
  { apply unlocked; [done|]. destruct Hw as [Hw|Hw]; apply (at_quiet _ _ _ _ _ _ _ _ Hq) in Hw; auto. }
  split; [by eapply at_inv|]. destruct (fails o); cbn; auto.
Qed.

Lemma unlock_core v C g w :
  (forall e, C e -> C0 e) -> at_D v C g (Some me.1) w ->
  W (finally (Call (CUnlock (key D)) lift) (Call (CCloseLock (key D)) lift)) w
    (fun r w' => (r = Ok tt \/ r = Raise OSError) /\ at_D v C g None w').
Proof.
  intros HC Hw. apply wp_finally, wp_call. intros w1 o Hq. apply (at_quiet _ _ _ _ _ _ _ _ Hq) in Hw.
  cbn [do_call]. unfold os_result. destruct (fails o).
  - split; [by eapply at_inv|]. apply wp_lift. eapply wp_mono; [apply (close_lock_spec v C g); auto|].
    intros [[]|e] w' [He ?]; split; auto.
  - pose proof (unlocked v C g w1 HC (or_introl Hw)) as Hw'. split; [by eapply at_inv|]. apply wp_lift.
    eapply wp_mono; [apply (close_lock_spec v C g); auto|]. intros [[]|e] w' [He ?]; split; auto.
Qed.

(** Leaving the outermost section. *)
Lemma unlock_spec v C w :
  (forall e, C e -> C0 e) -> at_D v C (Some (me.2, 1%nat)) (Some me.1) w ->
  W (_ ← suppress OSError (finally (Call (CUnlock (key D)) lift) (Call (CCloseLock (key D)) lift)); Call (CRelease (key D)) Ret) w
    (fun r w' => r = Ok tt /\ at_D v C None None w').
Proof.
  intros HC Hw. apply wp_bind, wp_suppress. eapply wp_mono; [by apply (unlock_core v C (Some (me.2, 1%nat)))|].
  intros r w' [Hr Hw']. pose proof (release_spec v C 0 None w' HC Hw') as Hrel. by destruct Hr as [->| ->].
Qed.

(** Entering it. *)
Definition entered v (g : option (nat * nat)) f (r : res bool) (w : world) : Prop :=
  match r, g with
  | Ok true, None => f = None /\ at_D v C0 (Some (me.2, 1%nat)) None w
  | Ok false, Some (_, n) => f = Some me.1 /\ at_D v C0 (Some (me.2, S n)) (Some me.1) w
  | _, _ => False
  end.

Lemma acquire_spec v g f w :
  lock_state me g f -> at_D v C0 g f w -> W (Call (CAcquire (key D)) Ret) w (entered v g f).
Proof.
  intros Hl Hw. apply wp_call. intros w1 o Hq. apply (at_quiet _ _ _ _ _ _ _ _ Hq) in Hw.
  pose proof Hw as (_ & _ & Hg & Hf). cbn [do_call]. unfold do_acquire. rewrite Hg.
  destruct Hl as [[-> ->]|(n & -> & ->)]; [|rewrite decide_True by done];
    match goal with |- context [mkWorld _ _ ?g _] =>
      assert (Hat : at_D v C0 (g !! (me.1, key D)) (flocks w1 !! key D) (mkWorld (vis w1) (old w1) g (flocks w1)))
        by (by eapply at_relock) end;
    rewrite lookup_insert_eq, Hf in Hat; (split; [by eapply at_inv|]); cbn; auto.
Qed.

Lemma key_ne : key D <> D.
Proof. intros E. symmetry in E. revert E. by apply lock_key_ne. Qed.

Lemma flock_spec v w :
  at_D v C0 (Some (me.2, 1%nat)) None w ->
  W (Call (CFlock (key D)) lift) w (fun r w' => match r with
    | Ok _ => at_D v C0 (Some (me.2, 1%nat)) (Some me.1) w'
    | Raise e => e = OSError /\ at_D v C0 (Some (me.2, 1%nat)) None w' end).
Proof.
  intros Hw. apply wp_call. intros w1 o Hq. apply (at_quiet _ _ _ _ _ _ _ _ Hq) in Hw.
  pose proof Hw as (_ & _ & Hg & Hf). cbn [do_call]. destruct (fails o).
  - split; [by eapply at_inv|done].
  - rewrite Hf.
    assert (Hat : at_D v C0 (Some (me.2, 1%nat)) (Some me.1) (mkWorld (vis w1) (old w1) (gates w1) (<[key D := me.1]> (flocks w1)))).
    { eapply at_relock; [exact Hw|done|]. apply lookup_insert_eq. }
    split; [by eapply at_inv|done].
Qed.

Lemma open_lock_spec v w :
  at_D v C0 (Some (me.2, 1%nat)) None w ->
  W (Call (COpenLock (key D)) lift) w (fun r w' =>
    (r = Ok tt \/ r = Raise OSError) /\ at_D v C0 (Some (me.2, 1%nat)) None w').
Proof.
  intros Hw. apply (wp_mono _ _ _ _ (fun r w' => match r with Ok _ => True | Raise e => e = OSError end
    /\ (match r with Ok _ => True | Raise e => err e end /\ at_D v C0 (Some (me.2, 1%nat)) None w'))).
  - apply wp_raises; [|apply (W_calm me D C0 (fun _ => True) _ v C0); [done| | |exact Hw]].
    + cbn. intros r (me' & o & w1 & w2 & H). cbn in H. injection H as H. apply lift_raises.
      apply os_result_inv in H as [[-> _]|(? & -> & _)]; done.
    + cbn. split_and!; [intros E; symmetry in E; by apply key_ne in E|by intros []|intros r; apply calm_lift].
    + raises_tac.
  - intros [[]|e] w' (H1 & _ & H2); split; auto. right. by rewrite H1.
Qed.

(** ** The serialized section *)

Lemma locked_section ok bad (body : prog unit) w :
  C0 ok -> W body w (ends ok bad (Some (me.2, 1%nat)) (Some me.1)) ->
  W (finally body (_ ← suppress OSError (finally (Call (CUnlock (key D)) lift) (Call (CCloseLock (key D)) lift));
                   Call (CRelease (key D)) Ret)) w (ends ok bad None None).
Proof.
  intros Hok Hbody. apply wp_finally. eapply wp_mono; [exact Hbody|]. intros [[]|e] w1 H.
  - eapply wp_mono; [apply (unlock_spec ok (eq ok)); [by intros ? <-|exact H]|]. by intros r w2 [-> ?].
  - destruct H as (He & v & Hb & [H|(_ & ? & _)]); [|done].
    eapply wp_mono; [apply (unlock_spec v C0); [done|exact H]|]. intros r w2 [-> ?]. cbn. eauto.
Qed.

Lemma nested_section ok bad n (body : prog unit) w :
  C0 ok -> W body w (ends ok bad (Some (me.2, S (S n))) (Some me.1)) ->
  W (finally body (Call (CRelease (key D)) Ret)) w (ends ok bad (Some (me.2, S n)) (Some me.1)).
Proof.
  intros Hok Hbody. apply wp_finally. eapply wp_mono; [exact Hbody|]. intros [[]|e] w1 H.
  - eapply wp_mono; [apply (release_spec ok (eq ok) (S n)); [by intros ? <-|exact H]|]. by intros r w2 [-> ?].
  - destruct H as (He & v & Hb & [H|(_ & ? & _)]); [|done].
    eapply wp_mono; [apply (release_spec v C0 (S n)); [done|exact H]|]. intros r w2 [-> ?]. cbn. eauto.
Qed.

(** The [flock] was refused. *)
Lemma abandon_spec v ok (bad : option entry -> Prop) w :
  bad v -> at_D v C0 (Some (me.2, 1%nat)) None w ->
  W (_ ← Call (CCloseLock (key D)) lift; _ ← Call (CRelease (key D)) Ret; Throw DurabilityError) w
    (fun r w' => match r with Ok _ => False | Raise _ => ends ok bad None None r w' end).
Proof.
  intros Hb Hw. apply wp_bind. eapply wp_mono; [apply (close_lock_spec v C0 (Some (me.2, 1%nat))); auto|].
  intros r w1 [Hr H1]. destruct Hr as [->| ->]; [|cbn; eauto 8 with lubko]. apply wp_bind.
  eapply wp_mono; [by apply (release_spec v C0 0)|]. intros r w2 [-> ?]. cbn. eauto 8 with lubko.
Qed.

(** What [body] guarantees inside the section holds after it; a lock that
    cannot be taken leaves the destination as it is. *)
Lemma serialized_spec v ok bad g f (body : prog unit) w :
  lock_state me g f -> C0 ok -> bad v -> at_D v C0 g f w ->
  (forall n w', at_D v C0 (Some (me.2, S n)) (Some me.1) w' ->
    W body w' (ends ok bad (Some (me.2, S n)) (Some me.1))) ->
  W (_serialized D body) w (ends ok bad g f).
Proof.
  intros Hl Hok Hbad Hw Hbody. unfold _serialized. apply wp_bind.
  eapply wp_mono; [by apply (acquire_spec v g f)|]. intros [[]|e] w1 H; cbn in H; try done.
  - destruct g as [[]|]; [done|]. destruct H as [-> Hw1]. apply wp_bind, wp_try.
    eapply wp_mono; [by apply (open_lock_spec v)|]. intros r w2 [Hr Hw2]. destruct Hr as [->| ->].
    + apply wp_bind, wp_try. eapply wp_mono; [by apply (flock_spec v)|]. intros [[]|e] w3 H3; [apply locked_section; [done|by apply Hbody]|].
      destruct H3 as [-> H3].
      eapply wp_mono; [by apply (abandon_spec v ok bad)|]. by intros [[]|e] w4 H4.
    + rewrite decide_True by done. apply wp_bind. eapply wp_mono; [by apply (release_spec v C0 0)|].
      intros r w3 [-> Hw3]. cbn. eauto 8 with lubko.
  - destruct g as [[t n]|]; [|done]. destruct H as [-> Hw1].
    destruct Hl as [[? _]|(m & [= -> ->] & _)]; [done|]. apply nested_section; [done|]. by apply Hbody.
Qed.

Lemma directory_then v ok bad g f (body : prog unit) w :
  lock_state me g f -> C0 ok -> bad v -> at_D v C0 g f w ->
  (forall n w', at_D v C0 (Some (me.2, S n)) (Some me.1) w' ->
    W body w' (ends ok bad (Some (me.2, S n)) (Some me.1))) ->
  W (_ ← make_directory_durable (parent D); _serialized D body) w (ends ok bad g f).
Proof.
  intros Hl Hok Hbad Hw Hbody. apply wp_bind.
  eapply wp_mono; [apply (W_skip me D C0 _ v C0 g f); [done|by apply make_directory_calm|apply make_directory_raises|exact Hw]|].
  intros [[]|e] w1 [He Hw1]; [by apply (serialized_spec v)|]. cbn. eauto 6.
Qed.

(** A best-effort cleanup inside the section. *)
Lemma suppress_settles ok (bad : option entry -> Prop) n (p : prog unit) w :
  bad ok -> C0 ok -> W p w (ends ok bad (Some (me.2, S n)) (Some me.1)) ->
  W (suppress DurabilityError p) w (settles bad (Some (me.2, S n)) (Some me.1)).
Proof.
  intros Hb Hok Hp. apply wp_suppress. eapply wp_mono; [exact Hp|]. intros [[]|e] w1 H.
  - split; [done|]. exists ok. split; [done|]. eapply at_weaken; [|exact H]. by intros ? <-.
  - destruct H as (He & v & Hv & [H|(_ & ? & _)]); [|done]. case_decide; split; cbn; eauto.
Qed.

(** ** Installing an entry *)

(** What a failed operation may leave visible: what was there, or the entry it
    was to install. *)
Definition either (v new : option entry) (e : option entry) : Prop := e = v \/ e = new.

Definition installed v (new : entry) g f (r : res unit) (w : world) : Prop :=
  match r with Ok _ => at_D (Some new) C0 g f w | Raise e => err e /\ at_D v C0 g f w end.

Lemma fresh_spec v g f w :
  at_D v C0 g f w -> W (fresh_temporary D) w (fun r w' =>
    at_D v C0 g f w' /\ match r with Ok t => is_mine me D t /\ t <> D | Raise _ => False end).
Proof.
  intros Hw. apply wp_call. intros w1 o1 Hq1. apply (at_quiet _ _ _ _ _ _ _ _ Hq1) in Hw. split; [by eapply at_inv|].
  apply wp_call. intros w2 o2 Hq2. apply (at_quiet _ _ _ _ _ _ _ _ Hq2) in Hw. split; [by eapply at_inv|].
  split; [done|]. split; [right; eauto|]. intros E. symmetry in E. revert E. apply temporary_ne.
Qed.

Lemma at_replace v e g f t w :
  t <> D -> C0 (Some e) -> at_D v C0 g f w -> at_D (Some e) C0 g f (put t None (put D (Some e) w)).
Proof.
  intros Ht He (Hv & HC & Hl). pose proof (same_at_put D t None (put D (Some e) w) (not_eq_sym Ht)) as Hs.
  split_and!; [|eapply same_at_values; [exact Hs|]|done].
  - rewrite (proj1 Hs). cbn. by rewrite lookup_partial_alter_eq.
  - unfold values at 1, hist. cbn. rewrite lookup_partial_alter_eq, lookup_insert_eq. cbn. by apply List.Forall_cons.
Qed.

Lemma replace_spec v e g f t w :
  is_mine me D t -> t <> D -> C0 (Some e) -> vis w !! t = Some e -> at_D v C0 g f w ->
  W (Call (CReplace t D) lift) w (installed v e g f).
Proof.
  intros Hm Ht He Hvt Hw. apply wp_call. intros w1 o Hq. rewrite <- (proj1 (proj1 Hq t Hm)) in Hvt.
  apply (at_quiet _ _ _ _ _ _ _ _ Hq) in Hw. cbn [do_call]. unfold os_result. destruct (fails o).
  - split; [by eapply at_inv|]. cbn. auto with lubko.
  - destruct (do_replace t D w1) as [[[] w2]|] eqn:E.
    + apply do_replace_inv in E as (e' & E1 & -> & _). rewrite Hvt in E1. injection E1 as <-.
      pose proof (at_replace v e g f t w1 Ht He Hw) as H2. split; [by eapply at_inv|done].
    + split; [by eapply at_inv|]. cbn. auto with lubko.
Qed.

Lemma discard_spec v new g f t (p : prog unit) w :
  t <> D -> W p w (installed v new g f) -> W (or_discard t p) w (installed v new g f).
Proof.
  intros Ht Hp. apply wp_try. eapply wp_mono; [exact Hp|]. intros [[]|e] w1 H; [done|]. destruct H as [_ H].
  apply wp_bind. eapply wp_mono; [apply (W_skip me D C0 _ v C0 g f); [done| |raises_tac|exact H]|].
  - cbn. split_and!; [congruence|by intros []|intros r; apply calm_lift].
  - intros [[]|e'] w2 [He' H2]; cbn; auto with lubko.
Qed.

(** A step that prepares the temporary. *)
Lemma step_spec v e g f (P : world -> Prop) (p rest : prog unit) w :
  at_D v C0 g f w -> calm D (fun _ => True) p -> raises err p ->
  wp me (quiet me D) (fun _ => True) p w (when_ok P) ->
  (forall w', at_D v C0 g f w' -> P w' -> W rest w' (installed v e g f)) ->
  W (_ ← p; rest) w (installed v e g f).
Proof.
  intros Hw Hc Hr Hp Hrest. apply wp_bind.
  eapply wp_mono; [eapply wp_inv; [|apply wp_and; [apply (W_skip me D C0 p v C0 g f); [done|exact Hc|exact Hr|exact Hw]|exact Hp]]|].
  { by intros w' [? _]. }
  intros [[]|e'] w1 [[He' H1] H2]; [by apply Hrest|done].
Qed.

Lemma call_calm c (k : ans c -> res unit) :
  ~ changes c D -> ~ is_lock_call c -> calm D (fun _ => True) (Call c (fun r => lift (k r))).
Proof. intros H1 H2. cbn. split_and!; [done|done|]. intros r. apply calm_lift. Qed.

(** A step about something else than the temporary. *)
Lemma step_call v e new g f t c (k : ans c -> res unit) (rest : prog unit) w :
  is_mine me D t -> ~ changes c D -> ~ changes c t -> ~ is_lock_call c -> raises err (Call c (fun r => lift (k r))) ->
  at_D v C0 g f w -> holds t e w ->
  (forall w', at_D v C0 g f w' -> holds t e w' -> W rest w' (installed v new g f)) ->
  W (_ ← Call c (fun r => lift (k r)); rest) w (installed v new g f).
Proof.
  intros Hm Hc Hct Hl Hr Hw Ht Hrest. eapply step_spec; [exact Hw|by apply call_calm|exact Hr| |exact Hrest].
  by apply (keep_spec me D t Hm).
Qed.

Lemma move_file_spec v g f t data w :
  is_mine me D t -> t <> D -> C0 (Some (File data true)) -> at_D v C0 g f w ->
  W (or_discard t
       (_ ← _write_temporary_file t data;
        _ ← Call (CInject t FSYNC_STAGE_REPLACE) lift;
        Call (CReplace t D) lift)) w (installed v (File data true) g f).
Proof.
  intros Hm Ht He Hw. apply discard_spec; [done|].
  eapply step_spec; [exact Hw|by apply write_temporary_calm|apply write_temporary_raises|by apply write_temporary_spec|].
  intros w1 H1 Ht1.
  apply (step_call v (File data true) _ _ _ t (CInject t FSYNC_STAGE_REPLACE) (fun r => r)); auto; [raises_tac|].
  intros w2 H2 Ht2. by apply replace_spec.
Qed.

Lemma symlink_temp_spec t target w :
  wp me (quiet me D) (fun _ => True) (Call (CSymlink t target) lift) w (when_ok (holds t (Link target))).
Proof.
  apply wp_call. intros w1 o _. cbn [do_call]. unfold os_result. destruct (fails o); [done|].
  destruct (vis w1 !! t) as [e|]; [done|]. split; [done|]. cbn. unfold holds. cbn. by rewrite lookup_partial_alter_eq.
Qed.

Lemma any_call_spec c (k : ans c -> res unit) w :
  ~ is_lock_call c -> wp me (quiet me D) (fun _ => True) (Call c (fun r => lift (k r))) w (fun _ _ => True).
Proof.
  intros Hl. apply wp_call. intros w1 o _. destruct (call_enabled me o c w1 Hl) as (r & w2 & ->).
  split; [done|]. by apply wp_lift.
Qed.

Lemma move_link_spec v g f t target w :
  is_mine me D t -> t <> D -> C0 (Some (Link target)) -> at_D v C0 g f w ->
  W (or_discard t
       (_ ← Call (CUnlink t) lift;
        _ ← Call (CSymlink t target) lift;
        _ ← Call (CInject t FSYNC_STAGE_FILE) lift;
        _ ← Call (CInject t FSYNC_STAGE_REPLACE) lift;
        Call (CReplace t D) lift)) w (installed v (Link target) g f).
Proof.
  intros Hm Ht He Hw. apply discard_spec; [done|]. assert (Hne : D <> t) by congruence.
  eapply (step_spec _ _ _ _ (fun _ => True)); [exact Hw|by apply (call_calm (CUnlink t) (fun r => r)); [|by intros []]|raises_tac| |].
  { eapply wp_mono; [by apply (any_call_spec (CUnlink t) (fun r => r)); intros []|]. by intros [[]|]. }
  intros w1 H1 _.
  eapply step_spec; [exact H1|by apply (call_calm (CSymlink t target) (fun r => r)); [|by intros []]|raises_tac|apply symlink_temp_spec|].
  intros w2 H2 Ht2.
  apply (step_call v (Link target) _ _ _ t (CInject t FSYNC_STAGE_FILE) (fun r => r)); auto; [raises_tac|].
  intros w3 H3 Ht3.
  apply (step_call v (Link target) _ _ _ t (CInject t FSYNC_STAGE_REPLACE) (fun r => r)); auto; [raises_tac|].
  intros w4 H4 Ht4. by apply replace_spec.
Qed.

(** ** Snapshots *)

(** The bytes a snapshot took of the entry [v]. *)
Definition prev_ok (v : option entry) (previous : option pybytes) : Prop :=
  match v with
  | None => previous = None
  | Some (File d _) => previous = Some d
  | Some _ => True
  end.

(** A call that only looks. *)
Lemma look_spec v g f c (P : ans c -> Prop) w :
  (forall p, ~ changes c p) -> ~ is_lock_call c ->
  (forall w' o r w'', vis w' !! D = v -> do_call me o c w' = Some (r, w'') -> P r) ->
  at_D v C0 g f w -> W (Call c Ret) w (fun r w' => at_D v C0 g f w' /\ match r with Ok a => P a | Raise _ => False end).
Proof.
  intros Hc Hl HP Hw. apply wp_call. intros w1 o Hq. apply (at_quiet _ _ _ _ _ _ _ _ Hq) in Hw.
  destruct (call_enabled me o c w1 Hl) as (r & w2 & E). rewrite E.
  pose proof (at_call _ _ _ _ _ _ _ _ _ _ _ E (Hc D) Hl Hw) as H2. split; [by eapply at_inv|].
  split; [done|]. eapply HP; [|exact E]. by destruct Hw.
Qed.

Lemma read_spec v g f w :
  at_D v C0 g f w -> W (d ← Call (CReadBytes D) lift; Ret (Some d)) w
    (fun r w' => at_D v C0 g f w' /\ match r with
       | Ok p => exists d, p = Some d /\ match v with Some (File d' _) => d = d' | _ => True end
       | Raise e => err e end).
Proof.
  intros Hw. apply wp_bind, wp_call. intros w1 o Hq. apply (at_quiet _ _ _ _ _ _ _ _ Hq) in Hw. cbn [do_call].
  unfold os_result. destruct (fails o); [split; [by eapply at_inv|]; cbn; auto with lubko|].
  destruct (followed o (vis w1 !! D)) as [[d s| | |]|] eqn:E; (split; [by eapply at_inv|]); cbn; auto with lubko.
  split; [done|]. exists d. split; [done|]. destruct Hw as (<- & _).
  destruct (vis w1 !! D) as [[]|]; cbn in E; try done; congruence.
Qed.

Lemma snapshot_spec v g f w :
  at_D v C0 g f w ->
  W (existing_bytes D) w
    (fun r w' => at_D v C0 g f w' /\ match r with Ok p => prev_ok v p | Raise e => err e end).
Proof.
  intros Hw. apply wp_bind. eapply wp_mono; [apply (look_spec v g f (CExists D)
    (fun b => match v with None => b = false | Some (Link _) => True | Some _ => b = true end)); [by intros p []|by intros []| |exact Hw]|].
  { intros w' o r w'' Hv E. cbn in E. injection E as <- <-. rewrite Hv. by destruct v as [[]|]. }
  intros [b|e] w1 [H1 Hb]; [|done]. destruct b.
  - eapply wp_mono; [by apply (read_spec v g f)|]. intros [p|e] w2 [H2 Hp]; (split; [done|]); [|done].
    destruct Hp as (d & -> & Hd). destruct v as [[]|]; cbn; try done; congruence.
  - split; [done|]. by destruct v as [[]|].
Qed.

(** ** The bodies *)

Lemma write_body_spec v bad g f cleanup data w :
  C0 (Some (File data true)) -> bad v -> bad (Some (File data true)) -> at_D v C0 g f w ->
  (forall p w', prev_ok v p -> at_D (Some (File data true)) C0 g f w' -> W (cleanup p) w' (settles bad g f)) ->
  W (write_body cleanup D data) w (ends (Some (File data true)) bad g f).
Proof.
  intros Hnew Hbad Hbn Hw Hc. unfold write_body. apply wp_bind.
  eapply wp_mono; [by apply (fresh_spec v)|]. intros [t|e] w1 [H1 Ht]; [|done]. destruct Ht as [Hm Ht].
  apply wp_bind. eapply wp_mono; [by apply (snapshot_spec v g f)|]. intros [p|e] w2 [H2 Hp].
  - apply wp_bind. eapply wp_mono; [by apply (move_file_spec v g f t data)|]. intros [[]|e] w3 H3.
    + by apply confirm_spec; auto.
    + destruct H3 as [He H3]. cbn. eauto 6.
  - cbn. eauto 6.
Qed.

(** [write_bytes_durable] without the cleanup. *)
Lemma write_plain_spec v bad g f data w :
  lock_state me g f -> C0 (Some (File data true)) -> bad v -> bad (Some (File data true)) -> at_D v C0 g f w ->
  W (write_bytes_plain D data) w (ends (Some (File data true)) bad g f).
Proof.
  intros Hl Hnew Hb Hbn Hw. apply (directory_then v); [done..|]. intros n w' Hw'.
  apply (write_body_spec v); [done..|]. intros p w'' _ H. split; [done|eauto].
Qed.

(** A confirmed removal needs nothing of what was there. *)
Lemma unlink_spec v g f w :
  C0 None -> at_D v C0 g f w ->
  W (os_to_durability (Call (CUnlink D) lift)) w
    (fun r w' => match r with Ok _ => at_D None C0 g f w' | Raise e => err e /\ at_D v C0 g f w' end).
Proof.
  intros Hn Hw. apply wp_os, wp_call. intros w1 o Hq. apply (at_quiet _ _ _ _ _ _ _ _ Hq) in Hw. cbn [do_call].
  assert (Hfail : inv D C0 w1) by (by eapply at_inv). pose proof Hw as (Hv & HC & Hl).
  unfold os_result. destruct (fails o); [split; [done|]; cbn; auto with lubko|].
  assert (Hput : at_D None C0 g f (put D None w1)).
  { split_and!; [cbn; by rewrite lookup_partial_alter_eq| |done].
    unfold values at 1, hist. cbn. rewrite lookup_partial_alter_eq, lookup_insert_eq. cbn. by apply List.Forall_cons. }
  rewrite Hv. destruct v as [[]|]; (split; [first [done|by eapply at_inv]|]); cbn; auto with lubko.
Qed.

(** The bytes [remove_durable] would restore: of a regular file only. *)
Lemma regular_spec v g f w :
  at_D v C0 g f w -> W (regular_bytes D) w
    (fun r w' => at_D v C0 g f w' /\ match r with
       | Ok p => match v with Some (File d _) => p = Some d | _ => p = None end
       | Raise e => err e end).
Proof.
  intros Hw. unfold regular_bytes. apply wp_bind.
  eapply wp_mono; [apply (look_spec v g f (CExists D) (fun b => match v with None => b = false | Some (File _ _) => b = true | _ => True end));
    [by intros p []|by intros []| |exact Hw]|].
  { intros w' o r w'' Hv E. cbn in E. injection E as <- <-. rewrite Hv. by destruct v as [[]|]. }
  intros [b|e] w1 [H1 Hb]; [|done]. destruct b; cbn [negb]; [|split; [done|]; by destruct v as [[]|]].
  apply wp_bind.
  eapply wp_mono; [apply (look_spec v g f (CIsFile D) (fun b => match v with Some (File _ _) => b = true | Some (Link _) => True | _ => b = false end));
    [by intros p []|by intros []| |exact H1]|].
  { intros w' o r w'' Hv E. cbn in E. injection E as <- <-. rewrite Hv. by destruct v as [[]|]. }
  intros [b|e] w2 [H2 Hb2]; [|done]. destruct b; cbn [negb]; [|split; [done|]; by destruct v as [[]|]].
  apply wp_bind.
  eapply wp_mono; [apply (look_spec v g f (CIsSymlink D) (fun b => b = match v with Some (Link _) => true | _ => false end));
    [by intros p []|by intros []| |exact H2]|].
  { intros w' o r w'' Hv E. cbn in E. injection E as <- <-. rewrite Hv. by destruct v as [[]|]. }
  intros [b|e] w3 [H3 Hb3]; [|done]. destruct b.
  - split; [done|]. by destruct v as [[]|].
  - eapply wp_mono; [by apply (read_spec v g f)|]. intros [p|e] w4 [H4 Hp]; (split; [done|]); [|done].
    destruct Hp as (d & -> & Hd). destruct v as [[]|]; try done; congruence.
Qed.

(** A removal, restoring the bytes of a regular file when it is not confirmed. *)
Lemma remove_body_spec v n w :
  C0 None -> (forall d s, v = Some (File d s) -> s = true) -> at_D v C0 (Some (me.2, S n)) (Some me.1) w ->
  W (remove_body D) w (ends None (either v None) (Some (me.2, S n)) (Some me.1)).
Proof.
  intros Hn Hs Hw. pose proof (at_v_C _ _ _ _ _ _ _ Hw) as HCv. unfold remove_body. apply wp_bind.
  eapply wp_mono; [by apply (regular_spec v)|]. intros [p|e] w1 [H1 Hp]; [|split; [done|]; exists v; split; [by left|auto]].
  apply wp_bind. eapply wp_mono; [by apply (unlink_spec v)|].
  intros [[]|e] w2 H2; [|destruct H2; split; [done|]; exists v; split; [by left|auto]].
  apply confirm_spec; [by right|done|]. intros w3 H3. destruct p as [b|].
  - destruct v as [[d s| | |]|]; try done. injection Hp as ->. rewrite (Hs d s eq_refl) in *.
    apply (suppress_settles (Some (File d true))); [by left|done|].
    apply (write_plain_spec None); [right; eauto|done|by right|by left|done].
  - split; [done|]. exists None. split; [by right|done].
Qed.

Lemma remove_spec v g f w :
  lock_state me g f -> C0 None -> (forall d s, v = Some (File d s) -> s = true) -> at_D v C0 g f w ->
  W (remove_durable D) w (ends None (either v None) g f).
Proof.
  intros Hl Hn Hs Hw. apply (serialized_spec v); [done|done|by left|done|]. intros n w' Hw'. by apply remove_body_spec.
Qed.

(** ** The whole operations *)

(** What a write of a file restores exactly: absence and regular files. *)
Definition plain (v : option entry) : Prop :=
  match v with None | Some (File _ true) => True | _ => False end.

(** What a switch of a link restores exactly: links too. *)
Definition plain_or_link (v : option entry) : Prop :=
  match v with None | Some (File _ true) | Some (Link _) => True | _ => False end.

(** The section's cleanup of an unconfirmed [new] over [v]. *)
Section cleanup.
Context (v : option entry) (new : entry) (n : nat).
Hypothesis (Cv : C0 v) (Cnew : C0 (Some new)) (new_synced : forall d s, new = File d s -> s = true).

#[local] Abbreviation held := (Some (me.2, S n)).

Lemma restores_file d w :
  v = Some (File d true) -> at_D (Some new) C0 held (Some me.1) w ->
  W (suppress DurabilityError (write_bytes_plain D d)) w (settles (either v (Some new)) held (Some me.1)).
Proof.
  intros -> Hw. apply (suppress_settles (Some (File d true))); [by left|done|].
  apply (write_plain_spec (Some new)); [right; eauto|done|by right|by left|done].
Qed.

Lemma neutralizes w :
  v = None -> at_D (Some new) C0 held (Some me.1) w ->
  W (suppress DurabilityError (remove_durable D)) w (settles (either v (Some new)) held (Some me.1)).
Proof.
  intros -> Hw. apply (suppress_settles None); [by left|done|].
  eapply wp_mono; [apply (remove_spec (Some new)); [right; eauto|done|intros d s [= ->]; by eapply new_synced|exact Hw]|].
  intros [[]|e] w' H; [done|]. destruct H as (He & v' & Hv' & H). split; [done|]. exists v'. split; [|done].
  destruct Hv' as [->| ->]; [by right|by left].
Qed.
End cleanup.

Lemma write_section v n data w :
  C0 (Some (File data true)) -> plain v -> at_D v C0 (Some (me.2, S n)) (Some me.1) w ->
  W (write_body (restore_bytes D) D data) w
    (ends (Some (File data true)) (either v (Some (File data true))) (Some (me.2, S n)) (Some me.1)).
Proof.
  intros Hnew Hp Hw. pose proof (at_v_C _ _ _ _ _ _ _ Hw) as HCv.
  apply (write_body_spec v); [done|by left|by right|done|]. intros p w' Hpv H.
  destruct v as [[d s| | |]|]; try done; cbn in Hpv; subst p; cbn [restore_bytes].
  - destruct s; [|done]. by apply restores_file.
  - apply neutralizes; try done. by intros d s [= _ <-].
Qed.

Lemma write_spec v g f data w :
  lock_state me g f -> plain v -> C0 (Some (File data true)) -> at_D v C0 g f w ->
  W (write_bytes_durable D data true) w (ends (Some (File data true)) (either v (Some (File data true))) g f).
Proof.
  intros Hl Hp Hnew Hw. apply (directory_then v); [done|done|by left|done|]. intros n w' Hw'. by apply write_section.
Qed.

Lemma prior_spec v g f w :
  at_D v C0 g f w -> W (prior_entry D) w
    (fun r w' => at_D v C0 g f w' /\ match r with
       | Ok p => match v with Some (Link t) => p = (Some t, None) | Some (File d _) => p = (None, Some d) | _ => p = (None, None) end
       | Raise e => err e end).
Proof.
  intros Hw. unfold prior_entry. apply wp_bind.
  eapply wp_mono; [apply (look_spec v g f (CIsSymlink D) (fun b => b = match v with Some (Link _) => true | _ => false end));
    [by intros p []|by intros []| |exact Hw]|].
  { intros w' o r w'' Hv E. cbn in E. injection E as <- <-. rewrite Hv. by destruct v as [[]|]. }
  intros [b|e] w1 [H1 Hb]; [subst b|done]. destruct v as [[d s|tg| |]|]; apply wp_bind.
  2: { apply wp_call. intros w2 o Hq. apply (at_quiet _ _ _ _ _ _ _ _ Hq) in H1. cbn [do_call].
       assert (Hi : inv D C0 w2) by (by eapply at_inv). pose proof H1 as (Hv & _). unfold os_result. rewrite Hv.
       destruct (fails o); (split; [done|]); cbn; auto with lubko. }
  all: eapply wp_mono; [by apply regular_spec|]; intros [p|e] w2 [H2 Hp]; cbn; subst; auto.
Qed.

Lemma symlink_body_spec v bad g f cleanup target w :
  C0 (Some (Link target)) -> bad v -> bad (Some (Link target)) -> at_D v C0 g f w ->
  (forall p w', match v with Some (Link t) => p = (Some t, None) | Some (File d _) => p = (None, Some d) | _ => p = (None, None) end ->
     at_D (Some (Link target)) C0 g f w' -> W (cleanup p) w' (settles bad g f)) ->
  W (symlink_body cleanup D target) w (ends (Some (Link target)) bad g f).
Proof.
  intros Hnew Hbad Hbn Hw Hc. unfold symlink_body. apply wp_bind.
  eapply wp_mono; [by apply (fresh_spec v)|]. intros [t|e] w1 [H1 Ht]; [|done]. destruct Ht as [Hm Ht].
  apply wp_bind. eapply wp_mono; [by apply (prior_spec v g f)|]. intros [p|e] w2 [H2 Hp].
  - apply wp_bind. eapply wp_mono; [by apply (move_link_spec v g f t target)|]. intros [[]|e] w3 H3.
    + by apply confirm_spec; auto.
    + destruct H3 as [He H3]. cbn. eauto 6.
  - cbn. eauto 6.
Qed.

Lemma link_plain_spec v bad g f target w :
  lock_state me g f -> C0 (Some (Link target)) -> bad v -> bad (Some (Link target)) -> at_D v C0 g f w ->
  W (write_symlink_plain D target) w (ends (Some (Link target)) bad g f).
Proof.
  intros Hl Hnew Hb Hbn Hw. apply (directory_then v); [done..|]. intros n w' Hw'.
  apply (symlink_body_spec v); [done..|]. intros p w'' _ H. split; [done|eauto].
Qed.

Lemma symlink_section v n target w :
  C0 (Some (Link target)) -> plain_or_link v -> at_D v C0 (Some (me.2, S n)) (Some me.1) w ->
  W (symlink_body (restore_entry D) D target) w
    (ends (Some (Link target)) (either v (Some (Link target))) (Some (me.2, S n)) (Some me.1)).
Proof.
  intros Hnew Hp Hw. pose proof (at_v_C _ _ _ _ _ _ _ Hw) as HCv.
  apply (symlink_body_spec v); [done|by left|by right|done|]. intros p w' Hpv H.
  destruct v as [[d s|tg| |]|]; try done; cbn in Hpv; subst p; cbn [restore_entry].
  - destruct s; [|done]. by apply restores_file.
  - apply (suppress_settles (Some (Link tg))); [by left|done|].
    apply (link_plain_spec (Some (Link target))); [right; eauto|done|by right|by left|done].
  - by apply neutralizes.
Qed.

Lemma symlink_spec v g f target w :
  lock_state me g f -> plain_or_link v -> C0 (Some (Link target)) -> at_D v C0 g f w ->
  W (write_symlink_durable D target true) w (ends (Some (Link target)) (either v (Some (Link target))) g f).
Proof.
  intros Hl Hp Hnew Hw. apply (directory_then v); [done|done|by left|done|]. intros n w' Hw'. by apply symlink_section.
Qed.
End destination.
