(* ===== verification/DurableTheorems.v ===== *)
(** What the durable primitives guarantee, at every moment, whatever fails and
    whatever other processes do meanwhile: a crash finds the old entry or the
    complete new one, success means only the new one, and failure is reported
    with one of the two visible. *)

From S2P Require Import Prelude PyStr PyNum Json Durable DurableFacts DurableOps.
From stdpp Require Import gmap.

#[local] Open Scope Z_scope.

(** ** Executions with interference *)

(** One step: another process does something [R] allows, or the program's next
    call is answered. *)
Inductive step (me : nat * nat) (R : world -> world -> Prop) {A} : world * prog A -> world * prog A -> Prop :=
  | step_env w w' p : R w w' -> step me R (w, p) (w', p)
  | step_call w c k o r w' : do_call me o c w = Some (r, w') -> step me R (w, Call c k) (w', k r).

Section adequacy.
Context (me : nat * nat) (R : world -> world -> Prop) (I : world -> Prop) {A : Type} (Q : res A -> world -> Prop).
Hypothesis (R_refl : forall w, R w w) (R_trans : forall w1 w2 w3, R w1 w2 -> R w2 w3 -> R w1 w3).
Hypothesis (I_stable : forall w w', R w w' -> I w -> I w') (Q_stable : forall r w w', R w w' -> Q r w -> Q r w').

Lemma wp_env (p : prog A) w w' : R w w' -> wp me R I p w Q -> wp me R I p w' Q.
Proof. intros HR. destruct p; cbn; eauto. Qed.

Lemma wp_step s s' : step me R s s' -> I s.1 /\ wp me R I s.2 s.1 Q -> I s'.1 /\ wp me R I s'.2 s'.1 Q.
Proof.
  intros H [HI Hw]. destruct H as [w w' p HR|w c k o r w' E]; cbn in *.
  - split; [by eapply I_stable|]. by eapply wp_env.
  - destruct (Hw w o (R_refl w)) as (r' & w2 & E' & HI' & Hk). rewrite E in E'. by injection E' as <- <-.
Qed.

Lemma wp_reach s s' : rtc (step me R) s s' -> I s.1 /\ wp me R I s.2 s.1 Q -> I s'.1 /\ wp me R I s'.2 s'.1 Q.
Proof. induction 1 as [s|s1 s2 s3 H _ IH]; [done|]. intros Hs. by apply IH, (wp_step s1). Qed.
End adequacy.

Lemma quiet_refl me D w : quiet me D w w.
Proof. split_and!; auto with lubko. Qed.

Lemma quiet_trans me D w1 w2 w3 : quiet me D w1 w2 -> quiet me D w2 w3 -> quiet me D w1 w3.
Proof.
  intros (H1 & G1 & F1 & D1) (H2 & G2 & F2 & D2). split_and!; [|congruence|congruence|auto].
  intros p Hp. eapply same_at_trans; eauto.
Qed.

Lemma ends_stable me D C0 ok bad g f r w w' : quiet me D w w' -> ends me D C0 ok bad g f r w -> ends me D C0 ok bad g f r w'.
Proof.
  intros Hq H. destruct r as [[]|e]; [by eapply at_quiet|]. destruct H as (He & v & Hb & H). split; [done|]. exists v.
  split; [done|]. destruct H as [H|(H1 & H2 & H)]; [left|right; split_and!; try done]; by eapply at_quiet.
Qed.

(** Nobody holds the lock of the destination. *)
Definition lock_free (me : nat * nat) (D : path) (w : world) : Prop := locks me D None None w.

(** The entries a crash may leave while [new] replaces what was there at [w]. *)
Definition old_or (w : world) (D : path) (new : option entry) (e : option entry) : Prop :=
  In e (values w D) \/ e = new.

(** How an operation that installs [new] ends. *)
Definition outcome_of (v new : option entry) (D : path) (p : prog unit) (w : world) (me : nat * nat) : Prop :=
  match p with
  | Ret _ => forall e, In e (values w D) -> e = new
  | Throw e => err e /\ (vis w !! D = v \/ vis w !! D = new)
  | Call c k => forall o, do_call me o c w <> None
  end.

(** An operation whose specification is [ends], seen from outside. *)
Lemma operation_atomic me D new (op : prog unit) w w' p :
  lock_free me D w ->
  wp me (quiet me D) (inv D (old_or w D new)) op w
    (ends me D (old_or w D new) new (either (vis w !! D) new) None None) ->
  rtc (step me (quiet me D)) (w, op) (w', p) ->
  (forall e, In e (values w' D) -> old_or w D new e) /\ outcome_of (vis w !! D) new D p w' me.
Proof.
  intros Hfree Hw Hr.
  assert (HI : inv D (old_or w D new) w). { apply List.Forall_forall. intros e He. by left. }
  destruct (wp_reach me (quiet me D) (inv D (old_or w D new)) _ (quiet_refl me D) (quiet_trans me D)
    (fun w1 w2 Hq => same_at_values D _ w1 w2 (proj1 Hq D (or_introl eq_refl)))
    (fun r w1 w2 => ends_stable me D _ _ _ _ _ r w1 w2) _ _ Hr (conj HI Hw)) as [HI' Hw']. cbn in *.
  split; [exact (proj1 (List.Forall_forall _ _) HI')|]. destruct p as [[]|e|c k]; cbn in *.
  - intros e He. destruct Hw' as (_ & HC & _). symmetry. exact (proj1 (List.Forall_forall _ _) HC e He).
  - destruct Hw' as (He & v & Hv & Hat). split; [done|]. destruct Hat as [(-> & _)|(_ & _ & (-> & _))]; destruct Hv; auto.
  - intros o E. destruct (Hw' w' o (quiet_refl me D w')) as (r & w2 & E' & _). congruence.
Qed.

Lemma at_start me D new w :
  lock_free me D w -> at_ me D (vis w !! D) (old_or w D new) None None w.
Proof. intros H. split_and!; [done| |done]. apply List.Forall_forall. intros e He. by left. Qed.

(** C20: Writing a file is atomic at every moment.  While [write_bytes_durable] runs
    on a destination that was absent or a synced file, whatever calls fail and
    whatever other processes do elsewhere: a crash leaves there only an entry it
    could have left before, or the new file with all its bytes synced; when the
    call returns, only the new file; when it raises, it raises [DurabilityError]
    or [OSError] and the old or the new entry is visible; and it never blocks. *)
Theorem write_bytes_atomic me D data w w' p :
  D <> [] -> plain (vis w !! D) -> lock_free me D w ->
  rtc (step me (quiet me D)) (w, write_bytes_durable D data true) (w', p) ->
  (forall e, In e (values w' D) -> In e (values w D) \/ e = Some (File data true))
  /\ outcome_of (vis w !! D) (Some (File data true)) D p w' me.
Proof.
  intros HD Hp Hf. apply operation_atomic; [done|]. apply write_spec; [done|by left|done|by right|by apply at_start].
Qed.

(** Switching a link is atomic at every moment, over an absent destination, a
    synced file or another link, and on failure the previous link or file is
    what remains or the new link. *)
Theorem write_symlink_atomic me D target w w' p :
  D <> [] -> plain_or_link (vis w !! D) -> lock_free me D w ->
  rtc (step me (quiet me D)) (w, write_symlink_durable D target true) (w', p) ->
  (forall e, In e (values w' D) -> In e (values w D) \/ e = Some (Link target))
  /\ outcome_of (vis w !! D) (Some (Link target)) D p w' me.
Proof.
  intros HD Hp Hf. apply operation_atomic; [done|]. apply symlink_spec; [done|by left|done|by right|by apply at_start].
Qed.

(** Removing a state file is atomic at every moment: when [remove_durable]
    returns no crash can bring the file back, and when it raises the file is
    still there with its bytes or gone. *)
Theorem remove_atomic me D w w' p :
  D <> [] -> (forall d s, vis w !! D = Some (File d s) -> s = true) -> lock_free me D w ->
  rtc (step me (quiet me D)) (w, remove_durable D) (w', p) ->
  (forall e, In e (values w' D) -> In e (values w D) \/ e = None)
  /\ outcome_of (vis w !! D) None D p w' me.
Proof.
  intros HD Hs Hf. apply operation_atomic; [done|]. apply remove_spec; [done|by left|by right|done|by apply at_start].
Qed.

(** ** Directories *)

Fixpoint chain_durable (w : world) (d : path) : Prop :=
  match d with [] => True | _ :: up => dir_durable w d /\ chain_durable w up end.

(** Only the deepest level of a visible hierarchy may be unconfirmed. *)
Definition boundary_ok (w : world) : Prop := forall d, is_dir_at w d = true -> chain_durable w (parent d).

Lemma dir_durable_vis w (d : path) : d <> [] -> dir_durable w d -> vis w !! d = Some Dir.
Proof. intros Hd [->|H]; [done|]. by apply List.Forall_inv in H. Qed.

(** No call ever removes a directory. *)
Lemma dir_same_call me o c w r w' d : do_call me o c w = Some (r, w') -> vis w !! d = Some Dir -> same_at d w w'.
Proof.
  intros E Hv. assert (Hc : ~ changes c d -> same_at d w w') by (intros H; by eapply call_frame).
  destruct c; try (by apply Hc; intros []); cbn in E;
    (destruct (decide (d = p)) as [->|Hne] || destruct (decide (d = key)) as [->|Hne] || idtac);
    try (by apply Hc); try injection E as E;
    try (apply os_result_inv in E as [[_ ->]|(x & _ & E & _)]; [apply same_at_refl|]).
  all: try (unfold is_dir_at in E; rewrite Hv in E; try done; repeat case_match; simplify_eq; by apply same_at_refl).
  - apply do_write_inv in E as (? & ? & E & _). congruence.
  - apply do_replace_inv in E as (e & E1 & -> & He & Hdst).
    apply same_at_trans with (put dst (Some e) w); apply same_at_put; congruence.
Qed.

Lemma dir_durable_call me o c w r w' d : do_call me o c w = Some (r, w') -> dir_durable w d -> dir_durable w' d.
Proof.
  intros E [->|Hd]; [by left|]. right. eapply same_at_values; [|exact Hd].
  eapply dir_same_call; [exact E|]. by apply List.Forall_inv in Hd.
Qed.

Lemma chain_durable_call me o c w r w' d : do_call me o c w = Some (r, w') -> chain_durable w d -> chain_durable w' d.
Proof.
  intros E. induction d as [|x d IH]; [done|]. intros [H1 H2]. split; [by eapply dir_durable_call|auto].
Qed.

(** What any program keeps when left alone. *)
Lemma wp_keeps me (P : world -> Prop) (I : world -> Prop) {A} (p : prog A) :
  (forall o c w r w', do_call me o c w = Some (r, w') -> P w -> P w') ->
  forall w Q, P w -> wp me eq I p w Q -> wp me eq I p w (fun r w' => P w' /\ Q r w').
Proof.
  intros HP. induction p as [a|e|c k IH]; cbn; intros w Q Hw H; auto.
  intros w1 o <-. destruct (H w o eq_refl) as (r & w2 & E & HI & Hk). eauto 10.
Qed.

Section directories.
Context (me : nat * nat).

#[local] Abbreviation W := (wp me eq (fun _ => True)).

Lemma sync_durable w (d : path) : vis w !! d = Some Dir -> dir_durable (sync_dir (parent d) w) d.
Proof.
  intros Hv. right. unfold values, hist. cbn. rewrite Hv, map_lookup_filter.
  destruct (old w !! d); cbn; [case_guard; [done|]|]; cbn; by repeat constructor.
Qed.

Lemma close_ok w : W (Call CClose lift) w (fun _ _ => True).
Proof. apply wp_call. intros w3 o3 _. cbn [do_call]. unfold os_result. by destruct (fails o3). Qed.

(** [_fsync_directory] of the parent makes a level durable. *)
Lemma fsync_level_spec (d : path) w :
  d <> [] -> vis w !! d = Some Dir ->
  W (_fsync_directory (parent d)) w (fun r w' => match r with Ok _ => dir_durable w' d | Raise _ => True end).
Proof.
  intros Hd Hv. unfold _fsync_directory. apply wp_bind, wp_os, wp_call. intros w1 o1 <-. cbn [do_call].
  unfold os_result at 1. destruct (fails o1); [done|]. destruct (is_dir_at w (parent d)); [|done]. split; [done|].
  apply wp_lift, wp_finally, wp_os, wp_call. intros w2 o2 <-. cbn [do_call]. unfold os_result at 1.
  destruct (fails o2).
  - split; [done|]. apply wp_lift. split; (eapply wp_mono; [apply close_ok|by intros []]).
  - split; [done|]. apply wp_lift, wp_call. intros w3 o3 <-. cbn [do_call]. unfold os_result.
    destruct (fails o3); [done|]. split; [done|]. cbn. by apply sync_durable.
Qed.

Lemma fsync_any d w : W (_fsync_directory d) w (fun _ _ => True).
Proof.
  unfold _fsync_directory. apply wp_bind, wp_os, wp_call. intros w1 o1 <-. cbn [do_call].
  unfold os_result at 1. destruct (fails o1); [done|]. destruct (is_dir_at w d); [|done]. split; [done|].
  apply wp_lift, wp_finally, wp_os, wp_call. intros w2 o2 <-. cbn [do_call]. unfold os_result at 1.
  destruct (fails o2); (split; [done|]); apply wp_lift.
  - split; (eapply wp_mono; [apply close_ok|by intros []]).
  - eapply wp_mono; [apply close_ok|by intros []].
Qed.

(** Levels listed top-down, each below the previous one. *)
Fixpoint levels_from (e : path) (l : list path) (d : path) : Prop :=
  match l with
  | [] => e = d
  | c :: rest => c <> [] /\ parent c = e /\ levels_from c rest d
  end.

Fixpoint no_links (w : world) (d : path) : Prop :=
  match d with [] => True | _ :: up => (forall t, vis w !! d <> Some (Link t)) /\ no_links w up end.

Lemma followed_no_link o w (p : path) : (forall t, vis w !! p <> Some (Link t)) -> followed o (vis w !! p) = vis w !! p.
Proof. intros H. destruct (vis w !! p) as [[]|] eqn:E; try done. by destruct (H target). Qed.

Lemma missing_levels_spec d : forall l e0 w,
  no_links w d -> levels_from d l e0 ->
  W (missing_levels d l) w (fun r w' => w' = w /\ match r with
    | Ok (e, l') => is_dir_at w e = true /\ levels_from e l' e0 | Raise _ => False end).
Proof.
  induction d as [|x d IH]; intros l e0 w Hn Hl; cbn [missing_levels]; apply wp_call; intros w1 o <-; cbn [do_call].
  - split; [done|]. cbn. by split_and!.
  - destruct Hn as [Hx Hn]. rewrite (followed_no_link o w _ Hx). split; [done|]. destruct (bool_decide _) eqn:E; cbn [wp].
    + split_and!; [done| |done]. cbn. exact E.
    + apply IH; [done|]. cbn. by split_and!.
Qed.

Lemma mkdir_spec (c : path) w :
  c <> [] -> W (os_to_durability (Call (CMkdir c) lift)) w
    (fun r w' => match r with Ok _ => vis w' !! c = Some Dir | Raise _ => True end).
Proof.
  intros Hc. apply wp_os, wp_call. intros w1 o <-. cbn [do_call]. unfold os_result.
  destruct (fails o); [done|]. destruct (is_dir_at w c) eqn:E.
  - split; [done|]. cbn. unfold is_dir_at in E. destruct c; [done|]. by apply bool_decide_eq_true in E.
  - destruct (vis w !! c); [done|]. destruct (is_dir_at w (parent c)); [|done]. split; [done|]. cbn.
    by rewrite lookup_partial_alter_eq.
Qed.

Lemma wp_keeps_durable {A} (p : prog A) d w Q :
  dir_durable w d -> W p w Q -> W p w (fun r w' => dir_durable w' d /\ Q r w').
Proof. apply (wp_keeps me (fun w => dir_durable w d)). intros o c w1 r w2 E. by eapply dir_durable_call. Qed.

Lemma create_levels_spec l : forall e d w,
  levels_from e l d ->
  W (create_levels l) w (fun r w' => match r with Ok _ => Forall (dir_durable w') l | Raise _ => True end).
Proof.
  induction l as [|c l IH]; intros e d w Hl; cbn [create_levels]; [constructor|]. destruct Hl as (Hc & Hp & Hl).
  apply wp_bind. eapply wp_mono; [by apply mkdir_spec|]. intros [[]|e1] w1 H1; [|done].
  apply wp_bind. eapply wp_mono; [by apply (fsync_level_spec c)|]. intros [[]|e2] w2 H2; [|done].
  eapply wp_mono; [apply (wp_keeps_durable _ c); [exact H2|by eapply IH]|]. intros [[]|e3] w3 [H3 H4]; [|done].
  by apply List.Forall_cons.
Qed.

Lemma chain_levels w d l : forall e, levels_from e l d -> chain_durable w e -> Forall (dir_durable w) l -> chain_durable w d.
Proof.
  induction l as [|c l IH]; intros e; cbn [levels_from]; [by intros ->|]. intros (Hc & Hp & Hl) He Hd.
  apply List.Forall_cons_iff in Hd as [H1 H2]. apply (IH c); [done| |done]. destruct c as [|x up]; [done|]. cbn in Hp. subst.
  by split.
Qed.

(** Success leaves every level of the directory durable. *)
Lemma make_directory_spec d w :
  boundary_ok w -> no_links w d ->
  W (make_directory_durable d) w (fun r w' => match r with Ok _ => chain_durable w' d | Raise _ => True end).
Proof.
  intros Hb Hn. unfold make_directory_durable. apply wp_bind.
  eapply wp_mono; [by apply (missing_levels_spec d [] d w Hn)|]. intros [[e l]|?] w1 [-> H1]; [|done].
  destruct H1 as [He Hl]. pose proof (Hb e He) as Hup. apply wp_bind.
  eapply wp_mono; [apply (wp_keeps me (fun w => chain_durable w (parent e) /\ (e = [] \/ vis w !! e = Some Dir)));
    [|split; [exact Hup|]|by eapply create_levels_spec]|].
  { intros o c w2 r w3 E [H2 H3]. split; [by eapply chain_durable_call|]. destruct H3 as [->|H3]; [by left|right].
    by rewrite (proj1 (dir_same_call _ _ _ _ _ _ _ E H3)). }
  { destruct e; [by left|right]. by apply bool_decide_eq_true in He. }
  intros [[]|?] w2 [[H2 H3] H4]; [|done].
  assert (Hlast : W (_fsync_directory (parent e)) w2 (fun r w' => match r with Ok _ => dir_durable w' e | Raise _ => True end)).
  { destruct e as [|x up]; [|destruct H3 as [?|H3]; [done|by apply fsync_level_spec]].
    eapply wp_mono; [apply fsync_any|]. intros [[]|?] w' _; [by left|done]. }
  assert (Hend : W (_fsync_directory (parent e)) w2 (fun r w' => match r with Ok _ => chain_durable w' d | Raise _ => True end)).
  { eapply wp_mono; [apply (wp_keeps me (fun w => chain_durable w (parent e) /\ Forall (dir_durable w) l)); [|by split|exact Hlast]|].
    - intros o c w3 r w4 E [H5 H6]. split; [by eapply chain_durable_call|].
      eapply List.Forall_impl; [|exact H6]. intros p. by eapply dir_durable_call.
    - intros [[]|?] w3 [[H5 H6] H7]; [|done]. eapply chain_levels; [exact Hl| |done]. destruct e; [done|by split]. }
  case_decide; [subst d|]; exact Hend.
Qed.
End directories.

(** ** A confirmed operation survives a crash *)

Lemma wp_weaken me (R R' : world -> world -> Prop) I {A} (p : prog A) :
  (forall w w', R' w w' -> R w w') -> forall w Q, wp me R I p w Q -> wp me R' I p w Q.
Proof.
  intros HR. induction p as [a|e|c k IH]; cbn; intros w Q H; auto.
  intros w1 o H1. destruct (H w1 o (HR _ _ H1)) as (r & w2 & E & HI & Hk). eauto 10.
Qed.

Lemma eq_quiet me D w w' : w = w' -> quiet me D w w'.
Proof. intros ->. apply quiet_refl. Qed.

Lemma run_wp me I {A} (p : prog A) : forall os w (Q : res A -> world -> Prop) trail r w',
  wp me eq I p w Q -> run me os p w = Some (trail, r, w') -> Q r w'.
Proof.
  induction p as [a|e|c k IH]; intros os w Q trail r w' H E; cbn in H, E.
  - by injection E as _ <- <-.
  - by injection E as _ <- <-.
  - destruct (H w (next_outcome os) eq_refl) as (a & w2 & E2 & _ & Hk). rewrite E2 in E.
    destruct (run me (tail os) (k a) w2) as [[[tr r2] w3]|] eqn:E3; [|done]. injection E as _ <- <-. by eapply IH.
Qed.

Lemma crash_dirs w g d : crash w g -> chain_durable w d -> dirs_kept g d.
Proof.
  intros (choice & Hch & Hg) H. induction d as [|x d IH]; [done|]. destruct H as [[|H1] H2]; [done|].
  specialize (IH H2). split; [|done]. rewrite (proj1 (Hg (x :: d)) IH). destruct (Hch (x :: d)) as (e & He & Hs).
  apply (proj1 (List.Forall_forall _ _) H1) in He as ->. exact Hs.
Qed.

(** An entry that is the only one possible, in a durable directory. *)
Lemma crash_entry w g (D : path) e :
  crash w g -> chain_durable w (parent D) -> (forall e', In e' (values w D) -> e' = e) ->
  (forall d, e <> Some (File d false)) -> g !! D = e.
Proof.
  intros Hc Hd Hv He. pose proof (crash_dirs w g _ Hc Hd) as Hk. destruct Hc as (choice & Hch & Hg).
  rewrite (proj1 (Hg D) Hk). destruct (Hch D) as (e' & He' & Hs). apply Hv in He' as ->.
  unfold survives in Hs. destruct e as [[d [|]| | |]|]; try done. by destruct (He d).
Qed.

(** An operation made of the directory and a section, confirmed. *)
Lemma confirmed me D (C0 : option entry -> Prop) ok bad body w :
  D <> [] -> C0 ok -> bad (vis w !! D) -> boundary_ok w -> no_links w (parent D) ->
  at_ me D (vis w !! D) C0 None None w ->
  (forall n w', at_ me D (vis w !! D) C0 (Some (me.2, S n)) (Some me.1) w' ->
    wp me (quiet me D) (inv D C0) body w' (ends me D C0 ok bad (Some (me.2, S n)) (Some me.1))) ->
  forall os trail w', run me os (_ ← make_directory_durable (parent D); _serialized D body) w = Some (trail, Ok tt, w') ->
  chain_durable w' (parent D) /\ (forall e, In e (values w' D) -> e = ok).
Proof.
  intros HD Hok Hbad Hb Hn Hw Hbody os trail w' Hr.
  assert (H : wp me eq (fun _ => True) (_ ← make_directory_durable (parent D); _serialized D body) w
    (fun r w' => match r with Ok _ => chain_durable w' (parent D) /\ at_ me D ok (eq ok) None None w' | Raise _ => True end)).
  { apply wp_bind.
    assert (H1 : wp me eq (inv D C0) (make_directory_durable (parent D)) w (fun r w' => err_only r /\ at_ me D (vis w !! D) C0 None None w')).
    { eapply wp_weaken; [apply eq_quiet|]. apply W_skip; [done|by apply make_directory_calm|apply make_directory_raises|done]. }
    pose proof (make_directory_spec me (parent D) w Hb Hn) as H2.
    eapply wp_mono; [eapply wp_inv; [|exact (wp_and _ _ _ _ _ _ _ H1 H2)]; done|].
    intros [[]|e] w1 [[_ Hat] Hch]; [|done].
    assert (H3 : wp me eq (inv D C0) (_serialized D body) w1 (ends me D C0 ok bad None None)).
    { eapply wp_weaken; [apply eq_quiet|]. apply (serialized_spec me D C0 (vis w !! D)); auto. by left. }
    eapply wp_mono; [eapply wp_inv; [|apply (wp_keeps me (fun w => chain_durable w (parent D))); [|exact Hch|exact H3]]; [done|]|].
    - intros o c w2 r w3 E. by eapply chain_durable_call.
    - intros [[]|e] w2 [H4 H5]; [by split|done]. }
  destruct (run_wp _ _ _ _ _ _ _ _ _ H Hr) as [Hc (_ & HC & _)]. split; [done|].
  intros e He. symmetry. exact (proj1 (List.Forall_forall _ _) HC e He).
Qed.

(** C21: When [write_bytes_durable] returns, every crash finds the new file, with all
    its bytes, under its directories: provided only the deepest level of the
    directories seen before was possibly unconfirmed. *)
Theorem confirmed_write_survives me os D data w trail w' g :
  D <> [] -> plain (vis w !! D) -> lock_free me D w -> boundary_ok w -> no_links w (parent D) ->
  run me os (write_bytes_durable D data true) w = Some (trail, Ok tt, w') ->
  crash w' g -> g !! D = Some (File data true).
Proof.
  intros HD Hp Hf Hb Hn Hr Hc.
  destruct (confirmed me D (old_or w D (Some (File data true))) (Some (File data true)) (either (vis w !! D) (Some (File data true)))
    (write_body (restore_bytes D) D data) w HD (or_intror eq_refl) (or_introl eq_refl) Hb Hn (at_start _ _ _ _ Hf)) with os trail w'
    as [H1 H2]; [|exact Hr|by eapply crash_entry].
  intros n w1 Hw1. apply (write_section me D _ HD (vis w !! D)); [by right|done|done].
Qed.

(** ** Concrete runs *)

Definition failing : outcome := mkOutcome (Some OSError) 0 None [].

(** The calls with the given indices fail. *)
Definition failing_at (l : list nat) : list outcome :=
  map (fun i => if decide (i ∈ l) then failing else success) (seq 0 100).

Definition sup : path := [py "sup"].
Definition dest : path := py "state.json" :: sup.
Definition dir_world : world := mkWorld {[ sup := Dir ]} ∅ ∅ ∅.
Definition file_world : world := mkWorld {[ sup := Dir; dest := File [9] true ]} ∅ ∅ ∅.
Definition link_world : world := mkWorld {[ sup := Dir; dest := Link (py "elsewhere") ]} ∅ ∅ ∅.
Definition some_thread : nat * nat := (1%nat, 1%nat).

Lemma run_reach me R {A} (p : prog A) : (forall w, R w w) -> forall os w trail r w',
  run me os p w = Some (trail, r, w') ->
  rtc (step me R) (w, p) (w', match r with Ok a => Ret a | Raise e => Throw e end).
Proof.
  intros HR. induction p as [a|e|c k IH]; intros os w trail r w' E; cbn in E.
  - by injection E as _ <- <-.
  - by injection E as _ <- <-.
  - destruct (do_call me (next_outcome os) c w) as [[a w2]|] eqn:E2; [|done].
    destruct (run me (tail os) (k a) w2) as [[[tr r2] w3]|] eqn:E3; [|done]. injection E as _ <- <-.
    eapply rtc_l; [by eapply step_call|by eapply IH].
Qed.

(** How a run ends: its result, what is visible at [p] and what a crash may
    show instead. *)
Definition ending {A} (p : path) (x : option (list world * res A * world)) : option (res A * option entry * list (option entry)) :=
  match x with Some (_, r, w) => Some (r, vis w !! p, hist w p) | None => None end.

(** The confirming [fsync] fails: the old bytes are restored and confirmed. *)
Example restored : ending dest (run some_thread (failing_at [19%nat]) (write_bytes_durable dest [1; 2] true) file_world)
  = Some (Raise DurabilityError, Some (File [9] true), []).
Proof. vm_compute. reflexivity. Qed.

(** A first write whose confirmation fails, and whose removal is not confirmed
    either, is written again by the removal's own cleanup: it raises and yet the
    refused value is the only one a crash can leave. *)
Example refused_write_committed :
  ending dest (run some_thread (failing_at [19%nat; 28%nat]) (write_bytes_durable dest [1; 2] true) dir_world)
  = Some (Raise DurabilityError, Some (File [1; 2] true), []).
Proof. vm_compute. reflexivity. Qed.

(** A file written over a symbolic link and not confirmed leaves a regular file
    with the bytes the link led to, not the link. *)
Example link_not_restored :
  ending dest (run some_thread
    (map (fun i => if decide (i = 20%nat) then failing else mkOutcome None (2 ^ 62) (Some (File [9] true)) (py "0")) (seq 0 100))
    (write_bytes_durable dest [1; 2] true) link_world)
  = Some (Raise DurabilityError, Some (File [9] true), []).
Proof. vm_compute. reflexivity. Qed.

(** When taking the [flock] fails and closing its descriptor fails too, the
    gate stays acquired: the thread's next write runs without the [flock]. *)
Definition after_leak : option (res unit * res unit * bool) :=
  '(_, r, w) ← run some_thread (failing_at [6%nat; 7%nat]) (write_bytes_durable dest [1; 2] true) dir_world;
  '(trail, r', _) ← run some_thread [] (write_bytes_durable dest [1; 2] true) w;
  Some (r, r', forallb (fun w => match map_to_list (flocks w) with [] => true | _ => false end) trail).

Example leaked_gate : after_leak = Some (Raise OSError, Ok tt, true).
Proof. vm_compute. reflexivity. Qed.

(** Three writers, the first two failing to confirm one level each, then a
    confirmed write: its top directory was never recorded, and a crash loses it. *)
Definition deep : path := [py "f"; py "b"; py "a"].

Definition three_writers : option world :=
  '(_, r1, w1) ← run some_thread (failing_at [4%nat]) (make_directory_durable [py "a"]) (mkWorld ∅ ∅ ∅ ∅);
  '(_, r2, w2) ← run some_thread (failing_at [4%nat]) (make_directory_durable [py "b"; py "a"]) w1;
  '(_, r3, w3) ← run some_thread [] (write_bytes_durable deep [1] true) w2;
  match r1, r2, r3 with Raise DurabilityError, Raise DurabilityError, Ok _ => Some w3 | _, _, _ => None end.

Lemma vis_forall (f : path -> entry -> bool) w :
  forallb (fun kv => f kv.1 kv.2) (map_to_list (vis w)) = true -> forall p e, vis w !! p = Some e -> f p e = true.
Proof.
  intros H p e Hp. apply elem_of_map_to_list in Hp. rewrite forallb_forall in H.
  apply (H (p, e)). by apply list_elem_of_In.
Qed.

Definition lost_facts (w : world) : bool :=
  forallb (fun kv => bool_decide (kv.1 = [py "a"]) || (1 <? length kv.1)%nat) (map_to_list (vis w))
  && forallb (fun kv => match kv.2 with File _ s => s | _ => true end) (map_to_list (vis w))
  && existsb (fun e => match e with None => true | Some _ => false end) (values w [py "a"])
  && bool_decide (vis w !! deep = Some (File [1] true)).

Lemma three_writers_end : match three_writers with Some w => lost_facts w | None => false end = true.
Proof. vm_compute. reflexivity. Qed.

Example confirmed_write_lost : exists w, three_writers = Some w /\ vis w !! deep = Some (File [1] true) /\ crash w ∅.
Proof.
  pose proof three_writers_end as H. destruct three_writers as [w|]; [|done]. exists w. split; [done|].
  unfold lost_facts in H. rewrite !andb_true_iff in H. destruct H as [[[Htop Hs] Ha] Hd].
  pose proof (vis_forall (fun p _ => bool_decide (p = [py "a"]) || (1 <? length p)%nat) w Htop) as Htop'.
  pose proof (vis_forall (fun _ e => match e with File _ s => s | _ => true end) w Hs) as Hsync.
  split; [by apply bool_decide_eq_true in Hd|].
  exists (fun p => if decide (p = [py "a"]) then None else vis w !! p). split.
  - intros p. destruct (decide (p = [py "a"])) as [->|Hp].
    + apply existsb_exists in Ha as ([e|] & Ha & He); [done|]. by exists None.
    + exists (vis w !! p). split; [by left|].
      cbv beta. rewrite decide_False by done. destruct (vis w !! p) as [[d [|]| | |]|] eqn:Ep; cbn; try done. by apply Hsync in Ep.
  - intros p. split; [|intros _; apply lookup_empty]. intros Hk. match goal with |- context [decide ?P] => destruct (decide P) as [Hp|Hp] end; [by rewrite lookup_empty|].
    rewrite lookup_empty. destruct (vis w !! p) as [e|] eqn:Ep; [|done]. apply Htop' in Ep. rewrite bool_decide_eq_false_2 in Ep by done.
    destruct p as [|x [|y p]]; [done|done|]. by destruct Hk.
Qed.

(** ** Witnesses *)

(** The operation [op] on [w] whose run with outcomes [os] ends as [r], [v], [h]. *)
Lemma ended_reach me D os (op : prog unit) w p r v h :
  ending p (run me os op w) = Some (r, v, h) ->
  exists w', rtc (step me (quiet me D)) (w, op) (w', match r with Ok a => Ret a | Raise e => Throw e end)
    /\ vis w' !! p = v /\ hist w' p = h /\ exists trail, run me os op w = Some (trail, r, w').
Proof.
  intros H. destruct (run me os op w) as [[[trail r'] w']|] eqn:E; [|done]. cbn in H. injection H as <- <- <-. exists w'.
  split_and!; eauto. eapply run_reach; [apply quiet_refl|exact E].
Qed.

Lemma write_bytes_atomic_witness :
  exists w', (forall e, In e (values w' dest) -> In e (values file_world dest) \/ e = Some (File [1; 2] true))
  /\ outcome_of (Some (File [9] true)) (Some (File [1; 2] true)) dest (Throw DurabilityError) w' some_thread.
Proof.
  destruct (ended_reach some_thread dest _ _ _ _ _ _ _ restored) as (w' & H & _). exists w'.
  apply (write_bytes_atomic some_thread dest [1; 2] file_world w' (Throw DurabilityError)); [done|exact I|by split|exact H].
Defined.

Example link_switched : ending dest (run some_thread [] (write_symlink_durable dest (py "new") true) link_world)
  = Some (Ok tt, Some (Link (py "new")), []).
Proof. vm_compute. reflexivity. Qed.

Lemma write_symlink_atomic_witness :
  exists w', outcome_of (Some (Link (py "elsewhere"))) (Some (Link (py "new"))) dest (Ret tt) w' some_thread.
Proof.
  destruct (ended_reach some_thread dest _ _ _ _ _ _ _ link_switched) as (w' & H & _). exists w'.
  apply (write_symlink_atomic some_thread dest (py "new") link_world w' (Ret tt)); [done|exact I|by split|exact H].
Defined.

Example file_removed : ending dest (run some_thread [] (remove_durable dest) file_world) = Some (Ok tt, None, []).
Proof. vm_compute. reflexivity. Qed.

Lemma remove_atomic_witness :
  exists w', outcome_of (Some (File [9] true)) None dest (Ret tt) w' some_thread.
Proof.
  destruct (ended_reach some_thread dest _ _ _ _ _ _ _ file_removed) as (w' & H & _). exists w'.
  apply (remove_atomic some_thread dest file_world w' (Ret tt)); [done| |by split|exact H]. by intros d s [= _ <-].
Defined.

Example file_written : ending dest (run some_thread [] (write_bytes_durable dest [1; 2] true) file_world)
  = Some (Ok tt, Some (File [1; 2] true), []).
Proof. vm_compute. reflexivity. Qed.

(** Every visible entry is synced and under visible directories. *)
Fixpoint dirs_keptb (g : gmap path entry) (p : path) : bool :=
  match p with [] => true | _ :: up => bool_decide (g !! p = Some Dir) && dirs_keptb g up end.

Lemma dirs_keptb_spec g p : dirs_keptb g p = true <-> dirs_kept g p.
Proof.
  induction p as [|x p IH]; cbn; [done|]. by rewrite andb_true_iff, bool_decide_eq_true, IH.
Qed.

Definition settled_entry (w : world) (kv : path * entry) : bool :=
  dirs_keptb (vis w) (parent kv.1) && match kv.2 with File _ s => s | _ => true end.

Lemma crash_visible w : forallb (settled_entry w) (map_to_list (vis w)) = true -> crash w (vis w).
Proof.
  intros H. pose proof (vis_forall (fun p e => settled_entry w (p, e)) w) as Hf.
  assert (Hs : forall p e, vis w !! p = Some e -> settled_entry w (p, e) = true).
  { apply Hf. rewrite forallb_forall in *. intros [p e] Hin. exact (H (p, e) Hin). }
  exists (fun p => vis w !! p). split.
  - intros p. exists (vis w !! p). split; [by left|]. destruct (vis w !! p) as [[d [|]| | |]|] eqn:E; cbn; try done.
    apply Hs in E. unfold settled_entry in E. by rewrite andb_false_r in E.
  - intros p. split; [done|]. intros Hk. destruct (vis w !! p) as [e|] eqn:E; [|done]. exfalso. apply Hk.
    apply Hs in E. unfold settled_entry in E. apply andb_true_iff in E as [E _]. by apply dirs_keptb_spec in E.
Qed.

Definition final_world {A} (x : option (list world * res A * world)) : world :=
  match x with Some (_, _, w) => w | None => mkWorld ∅ ∅ ∅ ∅ end.

Lemma boundary_single (w : world) :
  vis w = vis file_world -> boundary_ok w.
Proof.
  intros H d Hd. destruct d as [|x [|y d]]; [done|done|]. exfalso. apply bool_decide_eq_true in Hd.
  rewrite H in Hd. apply elem_of_map_to_list in Hd. vm_compute in Hd.
  repeat (apply elem_of_cons in Hd as [Hd|Hd]; [done|]). by apply elem_of_nil in Hd.
Qed.

Lemma confirmed_write_survives_witness :
  exists w' g, crash w' g /\ g !! dest = Some (File [1; 2] true).
Proof.
  destruct (ended_reach some_thread dest _ _ _ _ _ _ _ file_written) as (w' & _ & _ & _ & trail & Hr). exists w', (vis w').
  assert (Hc : crash w' (vis w')).
  { apply crash_visible. assert (E : w' = final_world (run some_thread [] (write_bytes_durable dest [1; 2] true) file_world)) by (by rewrite Hr).
    rewrite E. vm_compute. reflexivity. }
  split; [exact Hc|].
  apply (confirmed_write_survives some_thread [] dest [1; 2] file_world trail w'); [done|exact I|by split|by apply boundary_single| |exact Hr|exact Hc].
  split; [|done]. intros t. vm_compute. congruence.
Defined.
