(* ===== verification/StatePaths.v ===== *)
(** Where Lubko keeps its state ([src/lubko/state.py] and the path functions of
    [src/lubko/supervise.py]): a public directory anybody may read, and below it
    a private one named by the supervisor's state token.

    A path is the list of its components, innermost first ([Durable.path]).
    [environ] holds the process's environment variables, home directory and
    working directory. *)

From S2P Require Import Prelude PyStr Durable.
From stdpp Require Import gmap.

#[local] Open Scope Z_scope.
#[local] Arguments py : simpl never.

Record environ := mkEnviron { env_vars : gmap pystr pystr; env_home : path; env_cwd : path }.

Definition STATE_ROOT_ENV : pystr := py "XDG_STATE_HOME".
Definition SUPERVISOR_STATE_TOKEN_ENV : pystr := py "LUBKO_SUPERVISOR_STATE_TOKEN".

(** The components of [s] between slashes, innermost first, without the empty
    ones and ["."], which [Path] drops. *)
Fixpoint path_components (s cur : pystr) (acc : path) : path :=
  let push := if str_eqb cur [] || str_eqb cur (py ".") then acc else cur :: acc in
  match s with
  | [] => push
  | c :: s => if c =? 47 then path_components s [] push else path_components s (cur ++ [c]) acc
  end.

(** [Path(s)], a relative path being taken from the working directory. *)
Definition path_of_text (e : environ) (s : pystr) : path :=
  match s with
  | c :: _ => path_components s [] (if c =? 47 then [] else env_cwd e)
  | [] => env_cwd e
  end.

(** [p / name] for a single component *)
Definition child_path (p : path) (name : pystr) : path := name :: p.

(** ** The state token *)

Definition lower_hex_char (c : Z) : bool := ((48 <=? c) && (c <=? 57)) || ((97 <=? c) && (c <=? 102)).

(** [re.match("^[0-9a-f]{64}$", token)]: [$] also matches before a final newline. *)
Definition _TOKEN_PATTERN (token : pystr) : bool :=
  let body := firstn 64 token in
  Nat.eqb (length body) 64 && forallb lower_hex_char body
  && match skipn 64 token with [] => true | [c] => c =? 10 | _ => false end.

Definition validate_supervisor_state_token (token : pystr) : res pystr :=
  match token with
  | [] => Raise SupervisorStateTokenError
  | _ => if _TOKEN_PATTERN token then Ok token else Raise SupervisorStateTokenError
  end.

Definition supervisor_state_token (e : environ) : res (option pystr) :=
  match default [] (env_vars e !! SUPERVISOR_STATE_TOKEN_ENV) with
  | [] => Ok None
  | raw => token ← validate_supervisor_state_token raw; Ok (Some token)
  end.

(** ** Directories *)

Definition state_root (e : environ) : path :=
  let base :=
    match env_vars e !! STATE_ROOT_ENV with
    | Some ((_ :: _) as text) => path_of_text e text
    | _ => py "state" :: py ".local" :: env_home e
    end in
  child_path base (py "lubko").

Definition worker_state_dir (e : environ) : path := child_path (state_root e) (py "worker").
Definition rollback_state_path (e : environ) : path := child_path (worker_state_dir e) (py "rollback.json").
Definition cli_root_dir (e : environ) : path := child_path (state_root e) (py "cli").

Definition supervisor_dir (e : environ) : path := child_path (state_root e) (py "supervisor").

Definition supervisor_private_dir (e : environ) : res path :=
  token ← supervisor_state_token e;
  match token with
  | None => Raise SupervisorStateTokenError
  | Some token => Ok (child_path (supervisor_dir e) token)
  end.

(** ** Private authority *)

Definition desired_path (e : environ) : res path :=
  d ← supervisor_private_dir e; Ok (child_path d (py "desired.json")).

Definition state_path (e : environ) : res path :=
  token ← supervisor_state_token e;
  match token with
  | None => Raise SupervisorStateTokenError
  | Some token => Ok (child_path (child_path (supervisor_dir e) token) (py "state.json"))
  end.

Definition private_authority_path (e : environ) : res path :=
  d ← supervisor_private_dir e; Ok (child_path d (py "authority.json")).

Definition reserved_generation_path (e : environ) : res path :=
  d ← supervisor_private_dir e; Ok (child_path d (py "reserved_generation.json")).

(** ** Public surface *)

Definition pending_request_path (e : environ) : path := child_path (supervisor_dir e) (py "pending-request.json").
Definition pending_request_ack_dir (e : environ) : path := child_path (supervisor_dir e) (py "pending-ack").
Definition status_path (e : environ) : path := child_path (supervisor_dir e) (py "status.json").
Definition supervisor_pid_path (e : environ) : path := child_path (supervisor_dir e) (py "supervisor.pid").
Definition supervisor_log_path (e : environ) : path := child_path (supervisor_dir e) (py "supervisor.log").
Definition supervisor_lock_path (e : environ) : path := child_path (supervisor_dir e) (py ".supervisor.lock").

Definition _VALID_REQUEST_ID_LEN : nat := 32.

Definition validate_pending_request_id (request_id : pystr) : res pystr :=
  if negb (Nat.eqb (length request_id) _VALID_REQUEST_ID_LEN) || negb (forallb lower_hex_char request_id)
  then Raise ValueError
  else Ok request_id.

Definition pending_request_ack_path (e : environ) (request_id : pystr) : res path :=
  _ ← validate_pending_request_id request_id;
  Ok (child_path (pending_request_ack_dir e) (request_id ++ py ".json")).

(** ** The locks *)

Inductive lock := consumer_lock | generation_lock | pending_request_lock.

#[export] Instance lock_eq_dec : EqDecision lock.
Proof. solve_decision. Defined.

Definition lock_file (e : environ) (l : lock) : path :=
  child_path (supervisor_dir e)
    (match l with
     | consumer_lock => py ".consumer.lock"
     | generation_lock => py ".generation.lock"
     | pending_request_lock => py ".pending-request.lock"
     end).

(** The files whose writers hold [l]: the run intent and the reserved generation
    under the generation lock, the daemon's state under the consumer lock, the
    pending request and its acknowledgments under their own lock. *)
Definition guards (e : environ) (l : lock) (p : path) : bool :=
  match p with
  | [] => false
  | name :: dir =>
      match l with
      | generation_lock =>
          bool_decide (Ok p = desired_path e) || bool_decide (Ok p = reserved_generation_path e)
      | consumer_lock => bool_decide (Ok p = state_path e)
      | pending_request_lock => bool_decide (p = pending_request_path e) || bool_decide (dir = pending_request_ack_dir e)
      end
  end.

(** ** Properties of the layout *)

Lemma token_found e t :
  supervisor_state_token e = Ok (Some t) <-> env_vars e !! SUPERVISOR_STATE_TOKEN_ENV = Some t /\ t <> [] /\ _TOKEN_PATTERN t = true.
Proof.
  unfold supervisor_state_token. destruct (env_vars e !! _) as [[|c r]|]; cbn [default from_option id].
  - split; [done|]. intros (H & H' & _). congruence.
  - unfold validate_supervisor_state_token. destruct (_TOKEN_PATTERN (c :: r)) eqn:E; cbn; split.
    + intros [= <-]. eauto.
    + by intros ([= ->] & _).
    + done.
    + intros ([= <-] & _ & H). congruence.
  - split; [done|]. by intros (H & _).
Qed.

Lemma private_dir_ok e d :
  supervisor_private_dir e = Ok d <-> exists t, supervisor_state_token e = Ok (Some t) /\ d = t :: supervisor_dir e.
Proof.
  unfold supervisor_private_dir, child_path. split.
  - intros H. apply bind_Ok in H as ([t|] & Ht & H); [|done]. injection H as <-. eauto.
  - by intros (t & -> & ->).
Qed.

Lemma state_path_private e : state_path e = (d ← supervisor_private_dir e; Ok (child_path d (py "state.json"))).
Proof. unfold state_path, supervisor_private_dir. by destruct (supervisor_state_token e) as [[t|]|x]. Qed.

(** The names of the private and of the public files. *)
Definition private_files : list pystr := [py "desired.json"; py "state.json"; py "authority.json"; py "reserved_generation.json"].
Definition private_paths (e : environ) : list (res path) :=
  [desired_path e; state_path e; private_authority_path e; reserved_generation_path e].
Definition public_files : list pystr :=
  [py "pending-request.json"; py "pending-ack"; py "status.json"; py "supervisor.pid"; py "supervisor.log";
   py ".supervisor.lock"; py ".consumer.lock"; py ".generation.lock"; py ".pending-request.lock"].
Definition public_paths (e : environ) : list path :=
  [pending_request_path e; pending_request_ack_dir e; status_path e; supervisor_pid_path e; supervisor_log_path e;
   supervisor_lock_path e] ++ map (lock_file e) [consumer_lock; generation_lock; pending_request_lock].

Lemma private_paths_eq e :
  private_paths e = map (fun n => d ← supervisor_private_dir e; Ok (child_path d n)) private_files.
Proof. unfold private_paths. by rewrite state_path_private. Qed.

Lemma public_paths_eq e : public_paths e = map (child_path (supervisor_dir e)) public_files.
Proof. done. Qed.

Lemma token_length t : _TOKEN_PATTERN t = true -> (64 <= length t)%nat.
Proof.
  unfold _TOKEN_PATTERN. intros H. bool_z. apply Nat.eqb_eq in H. rewrite length_firstn in H. lia.
Qed.

Lemma token_not_public t : _TOKEN_PATTERN t = true -> ~ In t public_files.
Proof.
  intros H%token_length. intros Hin. assert (Forall (fun n => (length n < 64)%nat) public_files) as Hs.
  { repeat constructor; apply (bool_decide_unpack _); by vm_compute. }
  rewrite List.Forall_forall in Hs. specialize (Hs t Hin). lia.
Qed.

(** Two namespaces rooted in the same public directory share a private path only
    if they have the same token; a private path is never a public one, and
    lies two levels below the public directory; a process without a token
    resolves none. *)
Theorem namespaces_isolated e1 e2 p :
  supervisor_dir e1 = supervisor_dir e2 -> In (Ok p) (private_paths e1) ->
  ~ In p (public_paths e2) /\ (forall q, In q (public_paths e2) -> parent p <> parent q)
  /\ (In (Ok p) (private_paths e2) -> supervisor_state_token e1 = supervisor_state_token e2)
  /\ (forall l, p <> lock_file e2 l).
Proof.
  intros Hd Hp. rewrite private_paths_eq in Hp. apply in_map_iff in Hp as (n & Hn & _).
  apply bind_Ok in Hn as (d & Hd1 & [= <-]). apply private_dir_ok in Hd1 as (t & Ht & ->).
  apply token_found in Ht as Ht'. destruct Ht' as (_ & _ & Hpat).
  assert (Hpar : forall q, In q (public_paths e2) -> parent (child_path (t :: supervisor_dir e1) n) <> parent q).
  { intros q Hq. rewrite public_paths_eq in Hq. apply in_map_iff in Hq as (m & <- & _). cbn. rewrite Hd.
    intros E. apply (f_equal length) in E. cbn in E. lia. }
  split_and!.
  - intros Hin. by apply (Hpar _ Hin).
  - exact Hpar.
  - rewrite private_paths_eq. intros Hin. apply in_map_iff in Hin as (m & Hm & _).
    apply bind_Ok in Hm as (d & Hd2 & Hm). apply private_dir_ok in Hd2 as (t2 & Ht2 & ->).
    assert (t2 = t) as -> by (unfold child_path in Hm; congruence). congruence.
  - intros l E. rewrite Hd in E. apply (f_equal length) in E. cbn in E. lia.
Qed.

(** Two processes of one user with different tokens. *)
Lemma namespaces_isolated_witness :
  let e t := mkEnviron {[SUPERVISOR_STATE_TOKEN_ENV := List.repeat t 64]} [py "operator"; py "home"] [] in
  ~ In (Ok [py "desired.json"; List.repeat 97 64; py "supervisor"; py "lubko"; py "state"; py ".local"; py "operator"; py "home"])
      (private_paths (e 98)).
Proof.
  intros e Hin.
  assert (H : supervisor_state_token (e 97) = supervisor_state_token (e 98)).
  { eapply (namespaces_isolated (e 97) (e 98)); [done| |exact Hin]. left. vm_compute. reflexivity. }
  by vm_compute in H.
Defined.
