(* ===== verification/Store.v ===== *)
(** The state files as the supervisor and its clients use them: whole files that
    are read as text and replaced atomically.

    This is the level above [Durable]: one call reads a file, or installs,
    removes or inspects it.  Every call takes an [event] of the environment: what
    other processes did to the files just before, whether the call fails, what
    the clock says.  [durable_write_refines] derives the durable write of this
    level from the system calls of [durable.py].

    The locks are advisory [flock]s that every writer of a guarded file takes
    ([StatePaths.guards]): another process that would write a file guarded by a
    lock held here waits, so its write does not happen then. *)

From S2P Require Import Prelude PyStr PyNum Json JsonFacts Durable StatePaths SupervisorCodec.
From stdpp Require Import gmap.

#[local] Open Scope Z_scope.
#[local] Arguments py : simpl never.

(** ** Files *)

Inductive file :=
  | Bytes (data : pybytes)
  (** present but not readable: a directory, no permission *)
  | Unreadable
  (** a link that leads nowhere: present to [lstat], absent to [open] *)
  | Dangling.

Definition path_dec : EqDecision path := _.
Definition path_countable : @Countable path path_dec := list_countable.
Abbreviation file_map := (@gmap path path_dec path_countable file).

(** Universal newlines. *)
Fixpoint universal_newlines (s : pystr) : pystr :=
  match s with
  | 13 :: ((10 :: _) as r) => universal_newlines r
  | 13 :: r => 10 :: universal_newlines r
  | c :: r => c :: universal_newlines r
  | [] => []
  end.

(** Strict UTF-8: decoding with replacement lost nothing. *)
Definition decode_text (data : pybytes) : res pystr :=
  let s := utf8_decode data in
  match utf8_encode s with
  | Ok data' => if bool_decide (data' = data) then Ok (universal_newlines s) else Raise UnicodeDecodeError
  | Raise _ => Raise UnicodeDecodeError
  end.

(** [path.read_text(encoding="utf-8")] *)
Definition file_text (f : option file) : res pystr :=
  match f with
  | Some (Bytes data) => decode_text data
  | Some Unreadable => Raise OSError
  | Some Dangling | None => Raise FileNotFoundError
  end.

(** [json.dumps(mapping, sort_keys=True) + "\n"], encoded. *)
Definition json_file (mapping : dict) : res pybytes :=
  text ← json_dumps_sorted (JObj mapping); utf8_encode (text ++ [10]).

(** ** The environment *)

(** What [time.time()] returns: a finite, non-negative float, whose [repr] reads
    back. *)
Record instant := mkInstant {
  i_float : pyfloat;
  i_ok : is_finite i_float && negb (float_negative i_float) && float_plain i_float = true;
}.

Inductive fault :=
  | Fine
  (** the call fails with an [OSError]; a write may have taken effect *)
  | Refused (landed : bool)
  (** a durable write is not confirmed, a lock is not acquired in time *)
  | Unconfirmed (landed : bool).

Record event := mkEvent {
  ev_others : file_map -> file_map;
  ev_fault : fault;
  ev_now : instant;
}.

Definition epoch : instant := mkInstant zero eq_refl.
Definition quiet_event : event := mkEvent id Fine epoch.

Record store := mkStore { files : file_map; held : list lock; events : list event }.

(** A computation of one process. *)
Definition io (A : Type) : Type := store -> res A * store.

#[export] Instance io_ret : MRet io := fun A a s => (Ok a, s).
#[export] Instance io_bind : MBind io := fun A B f m s =>
  match m s with
  | (Ok a, s') => f a s'
  | (Raise e, s') => (Raise e, s')
  end.

Definition io_raise {A} (x : exn) : io A := fun s => (Raise x, s).
Definition io_lift {A} (r : res A) : io A := fun s => (r, s).

(** The outcome of [m], an exception included. *)
Definition attempt {A} (m : io A) : io (res A) := fun s => let '(r, s') := m s in (Ok r, s').

Definition is_os_error (x : exn) : bool :=
  match x with OSError | FileNotFoundError => true | _ => false end.
Definition is_value_error (x : exn) : bool :=
  match x with
  | ValueError | JSONDecodeError | UnicodeDecodeError | UnicodeEncodeError | MalformedSupervisorIdentityError => true
  | _ => false
  end.

(** ** Calls *)

Section calls.
Context (e : environ).

(** Whether another process must wait before writing [p]. *)
Definition waits (h : list lock) (p : path) : bool := existsb (fun l => guards e l p) h.

(** What the other processes make of the files, except those they must wait for. *)
Definition others_act (h : list lock) (act : file_map -> file_map) (fs : file_map) : file_map :=
  filter (fun pf => waits h pf.1 = true) fs ∪ filter (fun pf => waits h pf.1 = false) (act fs).

Definition call {A} (f : event -> file_map -> res A * file_map) : io A := fun s =>
  let ev := List.hd quiet_event (events s) in
  let '(r, fs) := f ev (others_act (held s) (ev_others ev) (files s)) in
  (r, mkStore fs (held s) (tail (events s))).

Definition read_text (p : path) : io pystr :=
  call (fun ev fs => (match ev_fault ev with Fine => file_text (fs !! p) | _ => Raise OSError end, fs)).

(** [path.lstat()]: whether the path exists. *)
Definition lstat (p : path) : io unit :=
  call (fun ev fs =>
    (match ev_fault ev with
     | Fine => match fs !! p with Some _ => Ok tt | None => Raise FileNotFoundError end
     | _ => Raise OSError
     end, fs)).

(** A durable change of one file: to [f], or failing with either visible. *)
Definition durable_change (p : path) (f : option file) (ev : event) (fs : file_map) : res unit * file_map :=
  let installed := partial_alter (fun _ => f) p fs in
  match ev_fault ev with
  | Fine => (Ok tt, installed)
  | Refused landed => (Raise OSError, if landed then installed else fs)
  | Unconfirmed landed => (Raise DurabilityError, if landed then installed else fs)
  end.

Definition write_bytes_durable (p : path) (data : pybytes) : io unit := call (durable_change p (Some (Bytes data))).
Definition write_json_durable (p : path) (mapping : dict) : io unit :=
  data ← io_lift (json_file mapping); write_bytes_durable p data.
Definition remove_durable (p : path) : io unit := call (durable_change p None).

(** [path.write_text(text)], which truncates first. *)
Definition write_text (p : path) (data : pybytes) : io unit :=
  call (fun ev fs =>
    match ev_fault ev with
    | Fine => (Ok tt, <[p := Bytes data]> fs)
    | Refused truncated | Unconfirmed truncated => (Raise OSError, if truncated then <[p := Bytes []]> fs else fs)
    end).

(** [src.replace(dst)] *)
Definition replace_file (src dst : path) : io unit :=
  call (fun ev fs =>
    match ev_fault ev, fs !! src with
    | Fine, Some f => (Ok tt, <[dst := f]> (delete src fs))
    | Fine, None => (Raise FileNotFoundError, fs)
    | _, _ => (Raise OSError, fs)
    end).

(** The best-effort write of an observation or cache ([supervise._write_json]). *)
Definition _write_json (p : path) (mapping : dict) : io unit :=
  data ← io_lift (json_file mapping);
  let temporary := with_name p (path_name p ++ py ".tmp") in
  _ ← write_text temporary data;
  replace_file temporary p.

Definition time_time : io pyfloat := call (fun ev fs => (Ok (i_float (ev_now ev)), fs)).

(** ** Locks *)

Definition timeout_of (l : lock) : exn :=
  match l with
  | consumer_lock => ConsumerLockTimeoutError
  | generation_lock => GenerationLockTimeoutError
  | pending_request_lock => PendingRequestLockTimeoutError
  end.

(** A lock already held by this process is never granted again: [flock] locks
    belong to the open file, and each acquisition opens the lock file anew. *)
Definition acquire (l : lock) : io unit := fun s =>
  let ev := List.hd quiet_event (events s) in
  let fs := others_act (held s) (ev_others ev) (files s) in
  let granted := match ev_fault ev with Fine => negb (bool_decide (l ∈ held s)) | _ => false end in
  (if granted then Ok tt else match ev_fault ev with Refused _ => Raise OSError | _ => Raise (timeout_of l) end,
   mkStore fs (if granted then l :: held s else held s) (tail (events s))).

Definition release (l : lock) (s : store) : store := mkStore (files s) (List.remove lock_eq_dec l (held s)) (events s).

Definition releasing {A} (l : lock) (body : io A) : io A := fun s => let '(r, s') := body s in (r, release l s').

(** [with l: body] *)
Definition with_lock {A} (l : lock) (body : io A) : io A := _ ← acquire l; releasing l body.
End calls.

(** ** Interference *)

(** What other processes may do while the locks [h] are held here: [R], and
    nothing to a guarded file. *)
Definition rely (e : environ) (R : file_map -> file_map -> Prop) (h : list lock) (fs fs' : file_map) : Prop :=
  R fs fs' /\ forall p, waits e h p = true -> fs' !! p = fs !! p.

Lemma others_act_lookup e h act fs p :
  others_act e h act fs !! p = if waits e h p then fs !! p else act fs !! p.
Proof.
  unfold others_act. rewrite lookup_union, !map_lookup_filter. cbn.
  destruct (waits e h p), (fs !! p), (act fs !! p); cbn; repeat case_guard; done.
Qed.

Lemma others_act_waits e h act fs p : waits e h p = true -> others_act e h act fs !! p = fs !! p.
Proof. intros Hp. by rewrite others_act_lookup, Hp. Qed.

(** [triple]: when every event satisfies [E], which keeps other processes within
    [R], [m] takes [P] to [Q] and ends with the locks it began with. *)
Section triples.
Context (e : environ) (E : event -> Prop) (R : file_map -> file_map -> Prop).
Hypothesis (E_quiet : E quiet_event).
Hypothesis (E_others : forall ev, E ev -> forall h fs, R fs (others_act e h (ev_others ev) fs)).

Definition respectful (s : store) : Prop := Forall E (events s).

Abbreviation assertion := (list lock -> file_map -> Prop).

Definition triple {A : Type} (P : assertion) (m : io A) (Q : res A -> assertion) : Prop :=
  forall s, respectful s -> P (held s) (files s) ->
  respectful (m s).2 /\ held (m s).2 = held s /\ Q (m s).1 (held s) (files (m s).2).

Definition stable (P : assertion) : Prop := forall (h : list lock) (fs fs' : file_map), rely e R h fs fs' -> P h fs -> P h fs'.

Lemma respectful_head (s : store) : respectful s -> E (List.hd quiet_event (events s)).
Proof. unfold respectful. intros H. destruct (events s); [done|]. by apply List.Forall_inv in H. Qed.

Lemma others_rely (s : store) : respectful s ->
  rely e R (held s) (files s) (others_act e (held s) (ev_others (List.hd quiet_event (events s))) (files s)).
Proof. intros H. split; [by apply E_others, respectful_head|]. intros p Hp. by apply others_act_waits. Qed.

Lemma respectful_tail (fs : file_map) (h : list lock) (s : store) : respectful s -> respectful (mkStore fs h (tail (events s))).
Proof. unfold respectful. cbn. intros H. destruct (events s); [done|]. by apply List.Forall_inv_tail in H. Qed.

Lemma triple_ret {A : Type} (P : assertion) (a : A) (Q : res A -> assertion) : (forall (h : list lock) (fs : file_map), P h fs -> Q (Ok a) h fs) -> triple P (mret a) Q.
Proof. intros H s Hr HP. split_and!; [done|done|]. by apply H. Qed.

Lemma triple_raise {A : Type} (P : assertion) (x : exn) (Q : res A -> assertion) :
  (forall (h : list lock) (fs : file_map), P h fs -> Q (Raise x) h fs) -> triple P (io_raise x) Q.
Proof. intros H s Hr HP. split_and!; [done|done|]. by apply H. Qed.

Lemma triple_lift {A : Type} (P : assertion) (r : res A) (Q : res A -> assertion) : (forall (h : list lock) (fs : file_map), P h fs -> Q r h fs) -> triple P (io_lift r) Q.
Proof. intros H s Hr HP. split_and!; [done|done|]. by apply H. Qed.

Lemma triple_mono {A : Type} (P P' : assertion) (m : io A) (Q Q' : res A -> assertion) :
  (forall (h : list lock) (fs : file_map), P h fs -> P' h fs) -> triple P' m Q' -> (forall r (h : list lock) (fs : file_map), Q' r h fs -> Q r h fs) -> triple P m Q.
Proof. intros HP Hm HQ s Hr Hs. destruct (Hm s Hr (HP _ _ Hs)) as (? & ? & ?). auto. Qed.

Lemma triple_bind {A B : Type} (P : assertion) (m : io A) (f : A -> io B) (M : res A -> assertion) (Q : res B -> assertion) :
  triple P m M -> (forall a, triple (M (Ok a)) (f a) Q) -> (forall (x : exn) (h : list lock) (fs : file_map), M (Raise x) h fs -> Q (Raise x) h fs) ->
  triple P (m ≫= f) Q.
Proof.
  intros Hm Hf Hx s Hr HP. destruct (Hm s Hr HP) as (Hr' & Hh & HM). unfold mbind, io_bind.
  destruct (m s) as [[a|x] s'] eqn:Em; cbn in *; [|by auto]. rewrite <- Hh in HM |- *. by apply Hf.
Qed.

Lemma triple_attempt {A : Type} (P : assertion) (m : io A) (Q : res A -> assertion) :
  triple P m Q -> triple P (attempt m) (fun r h fs => match r with Ok r => Q r h fs | Raise _ => False end).
Proof. intros Hm s Hr HP. destruct (Hm s Hr HP) as (? & ? & ?). unfold attempt. by destruct (m s). Qed.

Lemma triple_call {A : Type} (P : assertion) (f : event -> file_map -> res A * file_map) (Q : res A -> assertion) :
  stable P -> (forall ev (h : list lock) (fs : file_map), E ev -> P h fs -> Q (f ev fs).1 h (f ev fs).2) -> triple P (call e f) Q.
Proof.
  intros HP HQ s Hr Hs. unfold call. set (ev := List.hd _ _).
  pose proof (HP _ _ _ (others_rely s Hr) Hs) as Hs'. specialize (HQ ev _ _ (respectful_head s Hr) Hs').
  destruct (f ev _) as [r fs]. cbn in *. split_and!; [by apply respectful_tail|done|done].
Qed.

Lemma triple_lock {A : Type} (P : assertion) (l : lock) (body : io A) (Q : res A -> assertion) :
  stable P ->
  (forall h0, l ∉ h0 -> triple (fun h fs => h = l :: h0 /\ P h0 fs) body (fun r _ fs => Q r h0 fs)) ->
  (forall (x : exn) (h : list lock) (fs : file_map), P h fs -> Q (Raise x) h fs) ->
  triple P (with_lock e l body) Q.
Proof.
  intros HP Hb Hx s Hr Hs. unfold with_lock, releasing, mbind, io_bind, acquire. set (ev := List.hd _ _).
  pose proof (HP _ _ _ (others_rely s Hr) Hs) as Hs'. fold ev in Hs'.
  destruct (match ev_fault ev with Fine => negb (bool_decide (l ∈ held s)) | _ => false end) eqn:Eg.
  - assert (Hl : l ∉ held s). { destruct (ev_fault ev); try done. by apply negb_true_iff, bool_decide_eq_false in Eg. }
    cbn. set (s1 := mkStore _ _ _).
    destruct (Hb (held s) Hl s1) as (Hr' & Hh & Hq); [by apply respectful_tail|done|].
    destruct (body s1) as [r s'] eqn:Eb. cbn in *. split_and!; [done| |done]. rewrite Hh. cbn.
    destruct (lock_eq_dec l l); [|done]. apply List.notin_remove. by rewrite <- list_elem_of_In.
  - destruct (ev_fault ev); cbn; (split_and!; [by apply respectful_tail|done|by apply Hx]).
Qed.
End triples.
