(* ===== verification/StoreRefine.v ===== *)
(** The calls of [Store] are what the system calls of [durable.py] amount to: a
    durable write or removal that completes, seen from outside, is one of the
    outcomes [Store.durable_change] allows. *)

From S2P Require Import Prelude PyStr PyNum Json Durable DurableFacts DurableOps DurableTheorems StatePaths Store.
From stdpp Require Import gmap.

#[local] Open Scope Z_scope.

(** What a reader finds at a path; a link's file is elsewhere. *)
Definition seen (v : option entry) : option file :=
  match v with
  | None => None
  | Some (File data _) => Some (Bytes data)
  | Some (Link _) => Some Dangling
  | Some Dir | Some Special => Some Unreadable
  end.

Definition result (p : prog unit) : option (res unit) :=
  match p with Ret _ => Some (Ok tt) | Throw x => Some (Raise x) | Call _ _ => None end.

(** An outcome allowed at the upper level. *)
Definition allowed (D : path) (f : option file) (v : option entry) (r : res unit) (v' : option entry) : Prop :=
  exists ft, forall fs, fs !! D = seen v ->
  (durable_change D f (mkEvent id ft epoch) fs).1 = r /\ (durable_change D f (mkEvent id ft epoch) fs).2 !! D = seen v'.

Lemma outcome_allowed (me : nat * nat) (D : path) (v new : option entry) (p : prog unit) (w' : world) (r : res unit) :
  outcome_of v new D p w' me -> result p = Some r -> allowed D (seen new) v r (vis w' !! D).
Proof.
  intros Ho Hr. unfold allowed, durable_change. destruct p as [[]|x|c k]; cbn in *; simplify_eq.
  - exists Fine. intros fs Hfs. cbn. split; [done|]. rewrite lookup_partial_alter_eq. f_equal. symmetry. apply Ho. by left.
  - destruct Ho as [Hx Hv].
    assert (Hw : exists landed : bool, forall fs : file_map, fs !! D = seen v ->
              (if landed then partial_alter (fun _ => seen new) D fs else fs) !! D = seen (vis w' !! D)).
    { destruct Hv as [Hv|Hv]; rewrite Hv.
      - by exists false.
      - exists true. intros fs _. apply lookup_partial_alter_eq. }
    destruct Hw as [landed Hw]. destruct Hx as [-> | ->].
    + exists (Refused landed). intros fs Hfs. cbn. auto.
    + exists (Unconfirmed landed). intros fs Hfs. cbn. auto.
Qed.

(** The durable write and removal of [durable.py], run to completion among
    arbitrary failing calls and other processes, end as [Store]'s do: confirmed
    with the new content visible, or failing with [OSError] or
    [DurabilityError] and the old or the new content visible. *)
Theorem durable_write_refines (me : nat * nat) (D : path) (w w' : world) (p : prog unit) (r : res unit) :
  D <> [] -> plain (vis w !! D) -> lock_free me D w -> result p = Some r ->
  (forall data, rtc (step me (quiet me D)) (w, Durable.write_bytes_durable D data true) (w', p) ->
     allowed D (Some (Bytes data)) (vis w !! D) r (vis w' !! D))
  /\ (rtc (step me (quiet me D)) (w, Durable.remove_durable D) (w', p) ->
      allowed D None (vis w !! D) r (vis w' !! D)).
Proof.
  intros HD Hp Hf Hr. split.
  - intros data Hs. eapply (outcome_allowed me D _ (Some (File data true))); [|done].
    eapply operation_atomic; [done| |exact Hs].
    apply write_spec; [done|by left|done|by right|by apply at_start].
  - intros Hs. eapply (outcome_allowed me D _ None); [|done]. eapply operation_atomic; [done| |exact Hs].
    apply remove_spec; [done|by left|by right| |by apply at_start].
    intros d s Hd. rewrite Hd in Hp. by destruct s.
Qed.

(** The write whose confirmation fails and is undone ([DurableTheorems.restored]). *)
Lemma durable_write_refines_witness :
  exists w', allowed dest (Some (Bytes [1; 2])) (vis file_world !! dest) (Raise DurabilityError) (vis w' !! dest).
Proof.
  destruct (ended_reach some_thread dest _ _ _ _ _ _ _ restored) as (w' & H & _). exists w'.
  apply (proj1 (durable_write_refines some_thread dest file_world w' (Throw DurabilityError) (Raise DurabilityError)
    ltac:(done) I (conj eq_refl eq_refl) eq_refl)). exact H.
Defined.
