(* ===== verification/Mission.v ===== *)
(** The durable deployment mission and the worker metadata
    ([lifecycle.WorkerMeta], [deployctl.RollbackState]): how they are written,
    and the strict reading that fails closed on anything it cannot trust.

    A supervisor-owned mission names no candidate process: its candidate is
    written as a fixed descriptor and read back as absent. *)

From S2P Require Import Prelude PyStr PyNum Json JsonFacts ProcFs LifecycleState StatePaths SupervisorCodec Store.
From Corelib Require Import SpecFloat.
From stdpp Require Import gmap.

#[local] Open Scope Z_scope.
#[local] Arguments py : simpl never.

(** ** Worker metadata *)

Module WorkerMetadata.

Definition SCHEMA_VERSION : Z := 1.
Definition STATE_STOPPED : pystr := py "stopped".

Definition to_dict (m : WorkerMeta) : dict :=
  [(py "schema_version", JInt (meta_schema_version m)); (py "state", JStr (meta_state m));
   (py "pid", json_opt JInt (meta_pid m)); (py "pgid", json_opt JInt (meta_pgid m));
   (py "sid", json_opt JInt (meta_sid m)); (py "start_time_ticks", json_opt JInt (meta_start_time_ticks m));
   (py "token", json_opt JStr (meta_token m)); (py "repo", JStr (meta_repo m));
   (py "git_commit", json_opt JStr (meta_git_commit m)); (py "worker_id", json_opt JStr (meta_worker_id m));
   (py "log_path", JStr (meta_log_path m)); (py "started_at", json_opt JFloat (meta_started_at m));
   (py "stopped_at", json_opt JFloat (meta_stopped_at m))].

Definition _required_meta_int (data : dict) (field : pystr) (minimum : Z) : res Z :=
  if negb (dict_mem data field) then Raise ValueError
  else
    match dict_get data field with
    | JInt value => if value <? minimum then Raise ValueError else Ok value
    | _ => Raise TypeError
    end.

Definition _meta_optional_int (data : dict) (field : pystr) (minimum : Z) : res (option Z) :=
  match dict_get data field with
  | JNull => Ok None
  | _ => z ← _required_meta_int data field minimum; Ok (Some z)
  end.

Definition _meta_string (data : dict) (field default : pystr) : res pystr :=
  if negb (dict_mem data field) then Ok default
  else match dict_get data field with JStr s => Ok s | _ => Raise TypeError end.

Definition _meta_worker_state (data : dict) : res pystr :=
  state ← _meta_string data (py "state") STATE_STOPPED;
  if mem_str state [STATE_RUNNING; STATE_STOPPED] then Ok state else Raise ValueError.

Definition _meta_optional_string (data : dict) (field : pystr) : res (option pystr) :=
  match dict_get data field with
  | JNull => Ok None
  | _ => s ← _meta_string data field []; Ok (Some s)
  end.

Definition _meta_optional_finite_float (data : dict) (field : pystr) : res (option pyfloat) :=
  match dict_get data field with
  | JNull => Ok None
  | JInt _ | JFloat _ =>
      match _strict_finite_float (dict_get data field) with
      | Some f => if float_negative f then Raise ValueError else Ok (Some f)
      | None => Raise ValueError
      end
  | _ => Raise TypeError
  end.

Definition from_dict (data : dict) : res WorkerMeta :=
  schema_version ← _required_meta_int data (py "schema_version") 1;
  if negb (schema_version =? SCHEMA_VERSION) then Raise ValueError
  else
    state ← _meta_worker_state data;
    pid ← _meta_optional_int data (py "pid") 1;
    pgid ← _meta_optional_int data (py "pgid") 1;
    sid ← _meta_optional_int data (py "sid") 0;
    ticks ← _meta_optional_int data (py "start_time_ticks") 1;
    token ← _meta_optional_string data (py "token");
    repo ← _meta_string data (py "repo") [];
    git_commit ← _meta_optional_string data (py "git_commit");
    worker_id ← _meta_optional_string data (py "worker_id");
    log_path ← _meta_string data (py "log_path") [];
    started_at ← _meta_optional_finite_float data (py "started_at");
    stopped_at ← _meta_optional_finite_float data (py "stopped_at");
    Ok (mkMeta schema_version state pid pgid sid ticks token repo git_commit worker_id log_path started_at stopped_at).

(** ** The candidate of a supervisor-owned mission *)

Definition supervisor_candidate_wire_descriptor (commit repo : pystr) : dict :=
  [(py "schema_version", JInt SCHEMA_VERSION); (py "state", JStr STATE_STOPPED); (py "pid", JNull); (py "pgid", JNull);
   (py "sid", JNull); (py "start_time_ticks", JNull); (py "token", JNull); (py "repo", JStr repo);
   (py "git_commit", JStr commit); (py "worker_id", JNull); (py "log_path", JStr []); (py "started_at", JNull);
   (py "stopped_at", JNull)].

(** Python's [==] between a JSON value and a scalar: a boolean or a float equals
    an integer of the same value. *)
Definition equals_scalar (v c : json) : bool :=
  match c, v with
  | JNull, JNull => true
  | JStr s, JStr t => str_eqb t s
  | JInt z, JInt y => y =? z
  | JInt z, JBool b => (if b then 1 else 0) =? z
  | JInt z, JFloat f => is_finite f && SFeqb f (float_of_int z)
  | _, _ => false
  end.

(** [data == expected] for a dict of scalars. *)
Definition dict_equals (data expected : dict) : bool :=
  Nat.eqb (length data) (length expected)
  && forallb (fun '(k, c) => dict_mem data k && equals_scalar (dict_get data k) c) expected.

Definition _legacy_supervisor_candidate_placeholder (data : dict) (commit repo : pystr) : bool :=
  dict_equals data
    [(py "schema_version", JInt SCHEMA_VERSION); (py "state", JStr STATE_RUNNING); (py "pid", JInt 0);
     (py "pgid", JInt 0); (py "sid", JInt 0); (py "start_time_ticks", JInt 0); (py "token", JNull);
     (py "repo", JStr repo); (py "git_commit", JStr commit); (py "worker_id", JStr []); (py "log_path", JStr []);
     (py "started_at", JNull); (py "stopped_at", JNull)].

(** [supervisor_owned] as parsed: [Some true] is [True]. *)
Definition parse_supervisor_candidate_meta (replacement : json) (supervisor_owned : option bool) (commit repo : pystr)
    : res (option WorkerMeta) :=
  let owned := match supervisor_owned with Some true => true | _ => false end in
  match replacement with
  | JNull => if owned then Ok None else Raise TypeError
  | JObj d =>
      if dict_equals d (supervisor_candidate_wire_descriptor commit repo) then
        if owned then Ok None else Raise TypeError
      else
        match from_dict d with
        | Ok m => Ok (Some m)
        | Raise x => if owned && _legacy_supervisor_candidate_placeholder d commit repo then Ok None else Raise x
        end
  | _ => Raise TypeError
  end.

End WorkerMetadata.

(** ** The mission *)

Definition ROLLBACK_SCHEMA_VERSION : Z := 4.
Definition SUPERVISOR_ROLLBACK_WIRE_SCHEMA_VERSION : Z := 3.
Definition SUPPORTED_ROLLBACK_SCHEMA_VERSIONS : list Z := [2; 3].

Record RollbackState := mkRollback {
  rb_schema_version : Z;
  rb_generation : Z;
  rb_status : pystr;
  rb_commit : pystr;
  rb_previous_commit : pystr;
  rb_deadline : pyfloat;
  rb_repo : pystr;
  rb_uv_path : pystr;
  rb_stop_grace_seconds : pyfloat;
  rb_git_timeout_seconds : pyfloat;
  rb_previous_retiring : bool;
  rb_previous_meta : WorkerMeta;
  rb_new_meta : option WorkerMeta;
  rb_supervisor_owned : option bool;
  rb_previous_restart_meta : option WorkerMeta;
  rb_previous_restart_released : bool;
}.

Definition owned (o : option bool) : bool := match o with Some true => true | _ => false end.

Definition rollback_to_dict (s : RollbackState) : dict :=
  let supervisor_wire := owned (rb_supervisor_owned s) in
  [(py "schema_version",
      JInt (if supervisor_wire then SUPERVISOR_ROLLBACK_WIRE_SCHEMA_VERSION else rb_schema_version s));
   (py "generation", JInt (rb_generation s)); (py "status", JStr (rb_status s)); (py "commit", JStr (rb_commit s));
   (py "previous_commit", JStr (rb_previous_commit s)); (py "deadline", JFloat (rb_deadline s));
   (py "repo", JStr (rb_repo s)); (py "uv_path", JStr (rb_uv_path s));
   (py "stop_grace_seconds", JFloat (rb_stop_grace_seconds s)); (py "git_timeout_seconds", JFloat (rb_git_timeout_seconds s));
   (py "previous_retiring", JBool (rb_previous_retiring s)); (py "previous_meta", JObj (WorkerMetadata.to_dict (rb_previous_meta s)));
   (py "new_meta",
      if supervisor_wire then JObj (WorkerMetadata.supervisor_candidate_wire_descriptor (rb_commit s) (rb_repo s))
      else json_opt (fun m => JObj (WorkerMetadata.to_dict m)) (rb_new_meta s));
   (py "supervisor_owned", json_opt JBool (rb_supervisor_owned s));
   (py "previous_restart_meta", json_opt (fun m => JObj (WorkerMetadata.to_dict m)) (rb_previous_restart_meta s));
   (py "previous_restart_released", JBool (rb_previous_restart_released s))].

(** ** Strict coercions *)

(** [data[key]] *)
Definition item (data : dict) (key : pystr) : res json :=
  if dict_mem data key then Ok (dict_get data key) else Raise KeyError.

Definition _required_json_int (value : json) : res Z := match value with JInt z => Ok z | _ => Raise TypeError end.
Definition _required_json_string (value : json) : res pystr := match value with JStr s => Ok s | _ => Raise TypeError end.

(** [re.fullmatch("[0-9a-f]{40}", commit)] *)
Definition COMMIT_RE (commit : pystr) : bool := Nat.eqb (length commit) 40 && forallb lower_hex_char commit.

Definition _required_commit (value : json) : res pystr :=
  commit ← _required_json_string value; if COMMIT_RE commit then Ok commit else Raise ValueError.

(** [float(value)] of an integer too large for a float raises [OverflowError]. *)
Definition _required_finite_json_number (value : json) : res pyfloat :=
  match value with
  | JInt z => let f := float_of_int z in if is_finite f then Ok f else Raise OverflowError
  | JFloat f => if is_finite f then Ok f else Raise ValueError
  | _ => Raise TypeError
  end.

Definition _required_nonnegative_finite_json_number (value : json) : res pyfloat :=
  f ← _required_finite_json_number value; if float_negative f then Raise ValueError else Ok f.

(** [f <= 0] of a finite float *)
Definition float_nonpositive (f : pyfloat) : bool :=
  match f with S754_zero _ => true | _ => float_negative f end.

Definition _required_positive_finite_json_number (value : json) : res pyfloat :=
  f ← _required_finite_json_number value; if float_nonpositive f then Raise ValueError else Ok f.

Definition _optional_json_bool (value : json) : res (option bool) :=
  match value with JNull => Ok None | JBool b => Ok (Some b) | _ => Raise TypeError end.

(** [_retiring_flag(data.get(key, _ABSENT))] *)
Definition _retiring_flag (data : dict) (key : pystr) : res bool :=
  if dict_mem data key then match dict_get data key with JBool b => Ok b | _ => Raise TypeError end else Ok false.

Definition generation_item (value : json) : res Z :=
  match value with JInt z => if z <? 1 then Raise ValueError else Ok z | _ => Raise ValueError end.

(** The restart authority of a legacy mission. *)
Definition restart_allowed (supervisor_owned : option bool) (status repo previous_commit : pystr) (m : WorkerMeta) : bool :=
  match supervisor_owned with Some false => true | _ => false end
  && str_eqb status PENDING && str_eqb (meta_state m) STATE_RUNNING && str_eqb (meta_repo m) repo
  && match meta_git_commit m with Some c => str_eqb c previous_commit | None => false end.

Definition _parse_previous_restart (data : dict) (supervisor_owned : option bool) (status repo previous_commit : pystr)
    : res (option WorkerMeta * bool) :=
  restart_meta ←
    (match dict_get data (py "previous_restart_meta") with
     | JNull => Ok None
     | JObj d => m ← WorkerMetadata.from_dict d; Ok (Some m)
     | _ => Raise TypeError
     end : res (option WorkerMeta));
  restart_released ← _retiring_flag data (py "previous_restart_released");
  match restart_meta with
  | None => match restart_released with true => Raise TypeError | false => Ok (None, restart_released) end
  | Some m =>
      if restart_allowed supervisor_owned status repo previous_commit m then Ok (Some m, restart_released)
      else Raise TypeError
  end.

Definition _build_from_dict (data : dict) : res RollbackState :=
  previous ← item data (py "previous_meta");
  replacement ← item data (py "new_meta");
  previous ← (match previous with JObj d => Ok d | _ => Raise TypeError end : res dict);
  supervisor_owned ← _optional_json_bool (dict_get data (py "supervisor_owned"));
  raw_generation ← item data (py "generation");
  generation ← generation_item raw_generation;
  v ← item data (py "schema_version"); schema_version ← _required_json_int v;
  v ← item data (py "status"); status ← _required_json_string v;
  if negb (mem_str status [PENDING; CONFIRMED_STATUS; ROLLED_BACK_STATUS]) then Raise ValueError
  else
    v ← item data (py "commit"); commit ← _required_commit v;
    v ← item data (py "previous_commit"); previous_commit ← _required_commit v;
    v ← item data (py "repo"); repo ← _required_json_string v;
    new_meta ← WorkerMetadata.parse_supervisor_candidate_meta replacement supervisor_owned commit repo;
    '(restart_meta, restart_released) ← _parse_previous_restart data supervisor_owned status repo previous_commit;
    v ← item data (py "deadline"); deadline ← _required_nonnegative_finite_json_number v;
    v ← item data (py "uv_path"); uv_path ← _required_json_string v;
    v ← item data (py "stop_grace_seconds"); stop_grace ← _required_positive_finite_json_number v;
    v ← item data (py "git_timeout_seconds"); git_timeout ← _required_positive_finite_json_number v;
    previous_retiring ← _retiring_flag data (py "previous_retiring");
    previous_meta ← WorkerMetadata.from_dict previous;
    Ok (mkRollback schema_version generation status commit previous_commit deadline repo uv_path stop_grace git_timeout
          previous_retiring previous_meta new_meta supervisor_owned restart_meta restart_released).

Definition is_key_type_value_error (x : exn) : bool :=
  match x with KeyError | TypeError => true | _ => is_value_error x end.

Definition rollback_from_dict (data : dict) : res RollbackState :=
  match _build_from_dict data with
  | Raise x => Raise (if is_key_type_value_error x then DeployCtlError else x)
  | r => r
  end.

Definition with_schema (v : Z) (s : RollbackState) : RollbackState :=
  mkRollback v (rb_generation s) (rb_status s) (rb_commit s) (rb_previous_commit s) (rb_deadline s) (rb_repo s) (rb_uv_path s)
    (rb_stop_grace_seconds s) (rb_git_timeout_seconds s) (rb_previous_retiring s) (rb_previous_meta s) (rb_new_meta s)
    (rb_supervisor_owned s) (rb_previous_restart_meta s) (rb_previous_restart_released s).

Definition _normalize_parsed_state (s : RollbackState) : res RollbackState :=
  if rb_schema_version s =? ROLLBACK_SCHEMA_VERSION then Ok s
  else if existsb (Z.eqb (rb_schema_version s)) SUPPORTED_ROLLBACK_SCHEMA_VERSIONS then Ok (with_schema ROLLBACK_SCHEMA_VERSION s)
  else Raise DeployCtlError.

(** The decoded object, [err] on malformed JSON or another value. *)
Definition decoded_object (err : exn) (raw : pystr) : res dict :=
  match json_loads raw with
  | Ok (JObj d) => Ok d
  | Ok _ => Raise err
  | Raise x => Raise (if is_value_error x then err else x)
  end.

(** A mission file's text, parsed. *)
Definition rollback_of_text (raw : pystr) : res RollbackState :=
  data ← decoded_object DeployCtlError raw;
  state ← rollback_from_dict data;
  _normalize_parsed_state state.

Section files.
Context (e : environ).

Definition read_rollback_state : io (option RollbackState) :=
  raw ← attempt (read_text e (rollback_state_path e));
  match raw with
  | Ok raw => state ← io_lift (rollback_of_text raw); mret (Some state)
  | Raise FileNotFoundError => mret None
  | Raise OSError => io_raise DeployCtlError
  | Raise x => io_raise x
  end.

Definition _write_state (s : RollbackState) : io unit :=
  write_json_durable e (rollback_state_path e) (rollback_to_dict s).

Definition with_status (status : pystr) (s : RollbackState) : RollbackState :=
  mkRollback (rb_schema_version s) (rb_generation s) status (rb_commit s) (rb_previous_commit s) (rb_deadline s) (rb_repo s)
    (rb_uv_path s) (rb_stop_grace_seconds s) (rb_git_timeout_seconds s) (rb_previous_retiring s) (rb_previous_meta s)
    (rb_new_meta s) (rb_supervisor_owned s) (rb_previous_restart_meta s) (rb_previous_restart_released s).

Definition archive_mission (s : RollbackState) (status : pystr) : io unit :=
  if mem_str status [CONFIRMED_STATUS; ROLLED_BACK_STATUS] then _write_state (with_status status s)
  else io_raise DeployCtlError.
End files.
