(* ===== verification/RecordFiles.v ===== *)
(** The durable records in their files: a JSON object is written with sorted keys
    and a final newline, so what is read back is the object with its keys sorted.
    Every parser looks keys up, hence cannot tell; a record that survives its
    codec survives its file. *)

From S2P Require Import Prelude PyStr PyNum Json JsonFacts ProcFs LifecycleState StatePaths SupervisorCodec SupervisorTheorems Store Mission.
From Corelib Require Import SpecFloat.
From stdpp Require Import gmap.

#[local] Open Scope Z_scope.
#[local] Arguments py : simpl never.

(** ** Text *)

Lemma newline_free s : Forall (fun c => c <> 13) s -> universal_newlines s = s.
Proof.
  induction s as [|c s IH]; [done|]. intros [Hc Hs]%Forall_cons. cbn. rewrite IH by done.
  repeat case_match; congruence.
Qed.

Lemma json_file_text d data :
  json_plain (JObj d) = true -> json_file d = Ok data ->
  exists text, json_dumps_sorted (JObj d) = Ok text /\ decode_text data = Ok (text ++ [10]).
Proof.
  intros Hp H. unfold json_file in H. apply bind_Ok in H as (text & Ht & H). exists text. split; [done|].
  assert (Ha : ascii_text text) by by eapply json_dumps_sorted_ascii.
  assert (Hs : scalar_str (text ++ [10])). { apply Forall_app. split; [by apply ascii_scalar|]. by constructor. }
  unfold decode_text. rewrite (utf8_decode_encode _ _ Hs H), H, bool_decide_eq_true_2 by done. f_equal.
  apply newline_free, Forall_app. split; [|by constructor]. eapply Forall_impl; [exact Ha|]. cbn. lia.
Qed.

(** What a file written with [write_json_durable] contains for its reader. *)
Lemma json_file_read d data :
  json_plain (JObj d) = true -> json_file d = Ok data ->
  exists raw, file_text (Some (Bytes data)) = Ok raw /\ json_loads raw = Ok (JObj (sorted_dict d)).
Proof.
  intros Hp H. destruct (json_file_text d data Hp H) as (text & Ht & Hd). exists (text ++ [10]). split; [done|].
  by apply json_loads_dumps_sorted_line.
Qed.

(** ** Order of keys *)

Lemma plain_dict_keys d : json_plain (JObj d) = true -> nodup_str (map fst d) = true.
Proof. cbn. by intros [? _]%andb_true_iff. Qed.

Lemma dict_get_plain d k : json_plain (JObj d) = true -> json_plain (dict_get d k) = true.
Proof.
  cbn [json_plain]. intros [_ H]%andb_true_iff. induction d as [|[k' v] d IH]; [done|]. cbn in H.
  apply andb_true_iff in H as [Hv H]. apply andb_true_iff in Hv as [_ Hv]. unfold dict_get in *. cbn.
  by destruct (str_eqb k k'); [|apply IH].
Qed.

Lemma plain_member d k d' : json_plain (JObj d) = true -> dict_get d k = JObj d' -> json_plain (JObj d') = true.
Proof. intros H <-. by apply dict_get_plain. Qed.

Lemma sort_keys_dict d : sort_keys (JObj d) = JObj (sorted_dict d).
Proof. done. Qed.

Create HintDb sorted.

Lemma strict_int_sorted v : _strict_int (sort_keys v) = _strict_int v.
Proof. by destruct v. Qed.
Lemma strict_nat_sorted v : _strict_non_negative_int (sort_keys v) = _strict_non_negative_int v.
Proof. by destruct v. Qed.
Lemma string_sorted v : _optional_string (sort_keys v) = _optional_string v.
Proof. by destruct v. Qed.
Lemma token_sorted v : _optional_incarnation_token (sort_keys v) = _optional_incarnation_token v.
Proof. by destruct v. Qed.
Lemma finite_float_sorted v : _strict_finite_float (sort_keys v) = _strict_finite_float v.
Proof. by destruct v. Qed.
Lemma nonneg_float_sorted v : _strict_non_negative_finite_float (sort_keys v) = _strict_non_negative_finite_float v.
Proof. by destruct v. Qed.
Lemma bool_sorted v : _optional_bool (sort_keys v) = _optional_bool v.
Proof. by destruct v. Qed.
Lemma one_of_sorted v l : is_one_of (sort_keys v) l = is_one_of v l.
Proof. by destruct v. Qed.
#[export] Hint Rewrite strict_int_sorted strict_nat_sorted string_sorted token_sorted finite_float_sorted
  nonneg_float_sorted bool_sorted one_of_sorted : sorted.

Lemma nullable_sorted {A} (f : json -> option A) v : (forall v, f (sort_keys v) = f v) -> nullable f (sort_keys v) = nullable f v.
Proof. intros Hf. pose proof (Hf v) as H. unfold nullable. destruct v; cbn in H |- *; by rewrite ?H. Qed.

Section sorted.
Context (d : dict) (Hp : json_plain (JObj d) = true).

Lemma get_sorted k : dict_get (sorted_dict d) k = sort_keys (dict_get d k).
Proof. by apply dict_get_sorted, plain_dict_keys. Qed.
Lemma mem_sorted k : dict_mem (sorted_dict d) k = dict_mem d k.
Proof. by apply dict_mem_sorted, plain_dict_keys. Qed.

Lemma present_or_sorted {A} (a : A) f k : (forall v, f (sort_keys v) = f v) -> present_or a f (sorted_dict d) k = present_or a f d k.
Proof. intros Hf. unfold present_or. by rewrite mem_sorted, get_sorted, Hf. Qed.

Lemma bool_or_false_sorted k : bool_or_false (sorted_dict d) k = bool_or_false d k.
Proof. unfold bool_or_false. rewrite mem_sorted, get_sorted. by destruct (dict_get d k). Qed.
End sorted.

(** Remove the sorting of keys from lookups of scalars. *)
Ltac unsort :=
  repeat (rewrite get_sorted by done); repeat (rewrite mem_sorted by done);
  repeat (rewrite present_or_sorted by (done || (intros []; done)));
  repeat (rewrite nullable_sorted by (intros []; done));
  repeat (rewrite bool_or_false_sorted by done); autorewrite with sorted.

Lemma desired_sorted d : json_plain (JObj d) = true -> desired_from_dict (sorted_dict d) = desired_from_dict d.
Proof. intros Hp. unfold desired_from_dict. unsort. done. Qed.

Lemma child_sorted d : json_plain (JObj d) = true -> _child_from_dict (sorted_dict d) = _child_from_dict d.
Proof. intros Hp. unfold _child_from_dict. unsort. done. Qed.

Lemma unresolved_sorted d : json_plain (JObj d) = true -> unresolved_from_dict (sorted_dict d) = unresolved_from_dict d.
Proof. intros Hp. unfold unresolved_from_dict. unsort. done. Qed.

Lemma spawning_sorted d : json_plain (JObj d) = true -> spawning_from_dict (sorted_dict d) = spawning_from_dict d.
Proof. intros Hp. unfold spawning_from_dict. unsort. done. Qed.

Lemma optional_record_sorted {A} (f : dict -> res A) d k :
  json_plain (JObj d) = true -> (forall d, json_plain (JObj d) = true -> f (sorted_dict d) = f d) ->
  parse_optional_record f (sort_keys (dict_get d k)) = parse_optional_record f (dict_get d k).
Proof.
  intros Hp Hf. destruct (dict_get d k) as [| | | | | |d'] eqn:E; try done. rewrite sort_keys_dict. cbn [parse_optional_record].
  rewrite Hf; [done|]. by eapply plain_member.
Qed.

Lemma last_exit_sorted d : json_plain (JObj d) = true -> _parse_last_exit (sorted_dict d) = _parse_last_exit d.
Proof.
  intros Hp. unfold _parse_last_exit. rewrite get_sorted by done.
  destruct (dict_get d (py "last_exit")) as [| | | | | |x] eqn:E; try done. rewrite sort_keys_dict.
  assert (Hx : json_plain (JObj x) = true) by by eapply plain_member. unsort. done.
Qed.

Section state_fields.
Context (d : dict) (Hp : json_plain (JObj d) = true) (k : pystr).

Lemma present_strict_sorted f : (forall v, f (sort_keys v) = f v) -> _parse_present_strict (sorted_dict d) k f = _parse_present_strict d k f.
Proof. intros Hf. unfold _parse_present_strict. by rewrite mem_sorted, get_sorted, Hf. Qed.

Lemma present_float_sorted : _parse_present_nullable_float (sorted_dict d) k = _parse_present_nullable_float d k.
Proof. unfold _parse_present_nullable_float. rewrite get_sorted by done. by destruct (dict_get d k). Qed.

Lemma monotonic_sorted : _parse_present_nullable_monotonic_float (sorted_dict d) k = _parse_present_nullable_monotonic_float d k.
Proof. unfold _parse_present_nullable_monotonic_float. by rewrite present_float_sorted. Qed.

Lemma boot_sorted : _parse_present_boot_identity (sorted_dict d) k = _parse_present_boot_identity d k.
Proof. unfold _parse_present_boot_identity. rewrite mem_sorted, get_sorted by done. by destruct (dict_get d k). Qed.

Lemma hold_sorted : _strict_safety_hold (sorted_dict d) k = _strict_safety_hold d k.
Proof. unfold _strict_safety_hold. rewrite mem_sorted, get_sorted by done. by autorewrite with sorted. Qed.

Lemma get_or_sorted s : get_or (sorted_dict d) k (JStr s) = sort_keys (get_or d k (JStr s)).
Proof. unfold get_or. rewrite mem_sorted, get_sorted by done. by destruct (dict_mem d k). Qed.
End state_fields.

Lemma state_sorted d : json_plain (JObj d) = true -> state_from_dict (sorted_dict d) = state_from_dict d.
Proof.
  intros Hp. unfold state_from_dict, _parse_optional_child, _parse_optional_unresolved_child, _parse_optional_spawning,
    _validate_state_schema, _state_strings_malformed, _state_mode, _state_intent, _state_commit.
  rewrite !hold_sorted, !get_or_sorted, !boot_sorted, !monotonic_sorted, !present_float_sorted, last_exit_sorted by done.
  rewrite !present_strict_sorted by (done || (intros []; done)). unsort.
  rewrite !optional_record_sorted by auto using child_sorted, unresolved_sorted, spawning_sorted.
  assert (Hscalar : forall {B} (g : json -> B), (forall v, g (sort_keys v) = g v) -> forall v, g (sort_keys v) = g v) by auto.
  rewrite (Hscalar _ (fun v => match v with JStr s => if mem_str s [MODE_IDLE; MODE_RUN] then s else MODE_IDLE | _ => MODE_IDLE end))
    by (intros []; done).
  rewrite (Hscalar _ (fun v => match v with JStr s => if mem_str s [INTENT_RUN; INTENT_RETIRING] then s else INTENT_RUN | _ => INTENT_RUN end))
    by (intros []; done).
  rewrite (Hscalar _ (fun v => match v with JNull | JStr _ => false | _ => true end)) by (intros []; done).
  rewrite (Hscalar _ (fun v => match v with JBool true => true | _ => false end)) by (intros [|[]| | | | |]; done).
  done.
Qed.

(** ** Worker metadata and the mission *)

Module MetaFiles.
Import WorkerMetadata.

Lemma required_int_sorted d k m : json_plain (JObj d) = true -> _required_meta_int (sorted_dict d) k m = _required_meta_int d k m.
Proof. intros Hp. unfold _required_meta_int. rewrite mem_sorted, get_sorted by done. by destruct (dict_get d k). Qed.

Lemma optional_int_sorted d k m : json_plain (JObj d) = true -> _meta_optional_int (sorted_dict d) k m = _meta_optional_int d k m.
Proof. intros Hp. unfold _meta_optional_int. rewrite required_int_sorted, get_sorted by done. by destruct (dict_get d k). Qed.

Lemma meta_string_sorted d k s : json_plain (JObj d) = true -> _meta_string (sorted_dict d) k s = _meta_string d k s.
Proof. intros Hp. unfold _meta_string. rewrite mem_sorted, get_sorted by done. by destruct (dict_get d k). Qed.

Lemma optional_string_sorted d k : json_plain (JObj d) = true -> _meta_optional_string (sorted_dict d) k = _meta_optional_string d k.
Proof. intros Hp. unfold _meta_optional_string. rewrite meta_string_sorted, get_sorted by done. by destruct (dict_get d k). Qed.

Lemma float_sorted d k : json_plain (JObj d) = true -> _meta_optional_finite_float (sorted_dict d) k = _meta_optional_finite_float d k.
Proof. intros Hp. unfold _meta_optional_finite_float. rewrite get_sorted by done. by destruct (dict_get d k). Qed.

Lemma meta_sorted d : json_plain (JObj d) = true -> from_dict (sorted_dict d) = from_dict d.
Proof.
  intros Hp. unfold from_dict, _meta_worker_state. rewrite required_int_sorted by done.
  by rewrite !optional_int_sorted, !optional_string_sorted, !meta_string_sorted, !float_sorted by done.
Qed.

Lemma scalar_sorted v c : equals_scalar (sort_keys v) c = equals_scalar v c.
Proof. by destruct v. Qed.

Lemma sorted_length d : length (sorted_dict d) = length d.
Proof. unfold sorted_dict. rewrite (Permutation_length (dict_sort_perm _)). by rewrite length_map. Qed.

Lemma dict_equals_sorted d x : json_plain (JObj d) = true -> dict_equals (sorted_dict d) x = dict_equals d x.
Proof.
  intros Hp. unfold dict_equals. rewrite sorted_length. f_equal. induction x as [|[k c] x IH]; [done|]. cbn [forallb].
  by rewrite mem_sorted, get_sorted, scalar_sorted, IH by done.
Qed.

Lemma candidate_sorted v o c r :
  json_plain v = true -> parse_supervisor_candidate_meta (sort_keys v) o c r = parse_supervisor_candidate_meta v o c r.
Proof.
  intros Hp. destruct v as [| | | | | |d]; try done. rewrite sort_keys_dict.
  unfold parse_supervisor_candidate_meta, _legacy_supervisor_candidate_placeholder.
  by rewrite !dict_equals_sorted, meta_sorted by done.
Qed.
End MetaFiles.

Lemma bind_ext {A B} (m : res A) (f g : A -> res B) : (forall a, f a = g a) -> m ≫= f = m ≫= g.
Proof. intros H. by destruct m; cbn. Qed.

Lemma item_bind_sorted {B} d k (f g : json -> res B) :
  json_plain (JObj d) = true -> (forall v, json_plain v = true -> f (sort_keys v) = g v) ->
  (item (sorted_dict d) k ≫= f) = (item d k ≫= g).
Proof.
  intros Hp H. unfold item. rewrite mem_sorted, get_sorted by done. destruct (dict_mem d k) eqn:E; [|done]. cbn. apply H.
  apply andb_true_iff in Hp as [_ Hp]. clear H. induction d as [|[k' v] d IH]; [done|].
  cbn in Hp. apply andb_true_iff in Hp as [Hv Hp]. apply andb_true_iff in Hv as [_ Hv].
  unfold dict_get, dict_mem in *. cbn in *. destruct (str_eqb k k'); [done|by apply IH].
Qed.

Lemma flag_sorted d k : json_plain (JObj d) = true -> _retiring_flag (sorted_dict d) k = _retiring_flag d k.
Proof. intros Hp. unfold _retiring_flag. rewrite mem_sorted, get_sorted by done. by destruct (dict_get d k). Qed.

Lemma restart_sorted d o s r c : json_plain (JObj d) = true -> _parse_previous_restart (sorted_dict d) o s r c = _parse_previous_restart d o s r c.
Proof.
  intros Hp. unfold _parse_previous_restart. rewrite flag_sorted, get_sorted by done.
  destruct (dict_get d _) as [| | | | | |x] eqn:E; try done. rewrite sort_keys_dict.
  rewrite MetaFiles.meta_sorted; [done|]. by eapply plain_member.
Qed.

Lemma item_field_sorted {A B} d k (f : json -> res A) (g g' : A -> res B) :
  json_plain (JObj d) = true -> (forall v, f (sort_keys v) = f v) -> (forall a, g a = g' a) ->
  (item (sorted_dict d) k ≫= (fun v => f v ≫= g)) = (item d k ≫= (fun v => f v ≫= g')).
Proof. intros Hp Hf Hg. apply item_bind_sorted; [done|]. intros v _. rewrite Hf. by apply bind_ext. Qed.

(** One required field. *)
Ltac item_field := apply item_field_sorted; [done|by intros []|]; intros ?.

Lemma build_sorted d : json_plain (JObj d) = true -> _build_from_dict (sorted_dict d) = _build_from_dict d.
Proof.
  intros Hp. unfold _build_from_dict. apply item_bind_sorted; [done|]. intros previous Hprev.
  apply item_bind_sorted; [done|]. intros replacement Hr.
  destruct previous as [| | | | | |x]; try done. rewrite sort_keys_dict. cbn [mbind res_bind].
  rewrite MetaFiles.meta_sorted, get_sorted by done.
  replace (_optional_json_bool (sort_keys (dict_get d (py "supervisor_owned"))))
    with (_optional_json_bool (dict_get d (py "supervisor_owned"))) by (by destruct (dict_get d _)).
  apply bind_ext. intros o. do 3 item_field. destruct (mem_str _ _); [|done]. cbn [negb]. do 3 item_field.
  rewrite MetaFiles.candidate_sorted by done. apply bind_ext. intros nm.
  rewrite restart_sorted by done. apply bind_ext. intros [rm rr]. do 4 item_field. by rewrite flag_sorted by done.
Qed.

(** ** Missions *)

Record meta_wf (m : WorkerMeta) : Prop := {
  mw_schema : meta_schema_version m = WorkerMetadata.SCHEMA_VERSION;
  mw_state : In (meta_state m) [STATE_RUNNING; WorkerMetadata.STATE_STOPPED];
  mw_ids : Forall (all_opt (fun z => 1 <= z)) [meta_pid m; meta_pgid m; meta_start_time_ticks m];
  mw_sid : all_opt nat_like (meta_sid m);
  mw_times : Forall (all_opt non_negative_finite) [meta_started_at m; meta_stopped_at m];
}.

(** A supervisor-owned mission may go without a candidate process. *)
Definition candidate_wf (s : RollbackState) (m : option WorkerMeta) : Prop :=
  match m with Some m => meta_wf m | None => rb_supervisor_owned s = Some true end.

(** The candidate is not spelled like the descriptor reserved for missions of the
    supervisor. *)
Definition candidate_distinct (s : RollbackState) : bool :=
  match rb_new_meta s with
  | Some m => negb (WorkerMetadata.dict_equals (WorkerMetadata.to_dict m)
                      (WorkerMetadata.supervisor_candidate_wire_descriptor (rb_commit s) (rb_repo s)))
  | None => true
  end.

Record mission_wf (s : RollbackState) : Prop := {
  msw_schema : rb_schema_version s = ROLLBACK_SCHEMA_VERSION;
  msw_generation : 1 <= rb_generation s;
  msw_status : In (rb_status s) [PENDING; CONFIRMED_STATUS; ROLLED_BACK_STATUS];
  msw_commits : COMMIT_RE (rb_commit s) = true /\ COMMIT_RE (rb_previous_commit s) = true;
  msw_deadline : non_negative_finite (rb_deadline s);
  msw_limits : Forall (fun f => finite f /\ float_nonpositive f = false) [rb_stop_grace_seconds s; rb_git_timeout_seconds s];
  msw_previous : meta_wf (rb_previous_meta s);
  msw_candidate : candidate_wf s (rb_new_meta s);
  msw_restart : match rb_previous_restart_meta s with
    | Some m => meta_wf m
        /\ restart_allowed (rb_supervisor_owned s) (rb_status s) (rb_repo s) (rb_previous_commit s) m = true
    | None => rb_previous_restart_released s = false
    end;
}.
