(* ===== verification/MissionTheorems.v ===== *)
(** What the durable mission guarantees: a mission read is well formed whatever
    the file contains, a mission written is the mission read, and a mission that
    cannot be trusted is reported. *)

From S2P Require Import Prelude PyStr PyNum Json JsonFacts ProcFs LifecycleState StatePaths SupervisorCodec SupervisorTheorems Store Mission RecordFiles.
From Corelib Require Import SpecFloat.
From stdpp Require Import gmap.

#[local] Open Scope Z_scope.
#[local] Arguments py : simpl never.

(** ** Worker metadata *)

Module MetaFacts.
Import WorkerMetadata.

Section field.
Context (d : dict) (k : pystr).

Lemma int_field z m : dict_mem d k = true -> dict_get d k = JInt z -> m <= z -> _required_meta_int d k m = Ok z.
Proof. intros H1 H2 Hz. unfold _required_meta_int. rewrite H1, H2. cbn. by destruct (Z.ltb_spec z m); [lia|]. Qed.

Lemma optional_int_field o m :
  dict_mem d k = true -> dict_get d k = json_opt JInt o -> all_opt (fun z => m <= z) o -> _meta_optional_int d k m = Ok o.
Proof.
  intros H1 H2 Ho. unfold _meta_optional_int. rewrite H2. destruct o as [z|]; [|done]. cbn. by rewrite (int_field z).
Qed.

Lemma string_field s x : dict_mem d k = true -> dict_get d k = JStr s -> _meta_string d k x = Ok s.
Proof. intros H1 H2. unfold _meta_string. by rewrite H1, H2. Qed.

Lemma optional_string_field o : dict_mem d k = true -> dict_get d k = json_opt JStr o -> _meta_optional_string d k = Ok o.
Proof.
  intros H1 H2. unfold _meta_optional_string. rewrite H2. destruct o as [s|]; [|done]. cbn. by rewrite (string_field s).
Qed.

Lemma float_field o : dict_get d k = json_opt JFloat o -> all_opt non_negative_finite o -> _meta_optional_finite_float d k = Ok o.
Proof.
  intros H Ho. unfold _meta_optional_finite_float. rewrite H. destruct o as [f|]; [|done]. destruct Ho as [Hf Hn]. cbn -[_strict_finite_float].
  by rewrite finite_float_JFloat, Hn.
Qed.

Lemma int_field_inv z m : _required_meta_int d k m = Ok z -> m <= z.
Proof. unfold _required_meta_int. intros H. repeat case_match; simplify_eq; lia. Qed.

Lemma optional_int_inv o m : _meta_optional_int d k m = Ok o -> all_opt (fun z => m <= z) o.
Proof.
  unfold _meta_optional_int. intros H. destruct (dict_get d k); try (by injection H as <-); res_inv H; subst o; by eapply int_field_inv.
Qed.

Lemma float_inv o : _meta_optional_finite_float d k = Ok o -> all_opt non_negative_finite o.
Proof.
  unfold _meta_optional_finite_float. intros H. destruct (dict_get d k) as [| |z|f| | |]; try done; [by injection H as <-|..];
    destruct (_strict_finite_float _) as [g|] eqn:E; try done; apply finite_float_inv in E;
    destruct (float_negative g) eqn:En; try done; by injection H as <-.
Qed.
End field.

(** A literal field of written metadata. *)
Ltac meta_field := solve [done | unfold to_dict; eval_mem; reflexivity | unfold to_dict; eval_get; reflexivity].

Lemma round_trip m : meta_wf m -> from_dict (to_dict m) = Ok m.
Proof.
  intros [Hs Hst Hi Hsid Ht]. repeat (apply List.Forall_cons_iff in Hi as [? Hi]). repeat (apply List.Forall_cons_iff in Ht as [? Ht]).
  unfold from_dict, _meta_worker_state. rewrite (int_field _ (py "schema_version") (meta_schema_version m)) by (meta_field || by rewrite Hs).
  cbn [mbind res_bind]. rewrite Hs at 1. cbn [negb Z.eqb SCHEMA_VERSION Pos.eqb].
  rewrite (string_field _ (py "state") (meta_state m)) by meta_field. cbn [mbind res_bind]. rewrite (proj2 (mem_str_In _ _) Hst).
  rewrite (optional_int_field _ (py "pid") (meta_pid m)), (optional_int_field _ (py "pgid") (meta_pgid m)), (optional_int_field _ (py "sid") (meta_sid m)),
    (optional_int_field _ (py "start_time_ticks") (meta_start_time_ticks m)) by meta_field.
  rewrite (optional_string_field _ (py "token") (meta_token m)), (optional_string_field _ (py "git_commit") (meta_git_commit m)),
    (optional_string_field _ (py "worker_id") (meta_worker_id m)), (string_field _ (py "repo") (meta_repo m)), (string_field _ (py "log_path") (meta_log_path m)) by meta_field.
  rewrite (float_field _ (py "started_at") (meta_started_at m)), (float_field _ (py "stopped_at") (meta_stopped_at m)) by meta_field.
  by destruct m.
Qed.

Lemma parsed d m : from_dict d = Ok m -> meta_wf m.
Proof.
  unfold from_dict, _meta_worker_state. intros H. res_step H.
  destruct (Z.eqb_spec a SCHEMA_VERSION) as [->|]; [|done]. cbn [negb] in H. res_step H. res_step B0.
  destruct (mem_str a0 _) eqn:E; [|done]. injection B0 as <-. apply mem_str_In in E. res_inv H. subst m.
  repeat match goal with
  | H : _meta_optional_int _ _ _ = Ok _ |- _ => apply optional_int_inv in H
  | H : _meta_optional_finite_float _ _ = Ok _ |- _ => apply float_inv in H
  end.
  split; cbn; auto with lubko; by repeat constructor.
Qed.

Lemma descriptor_equal c r : dict_equals (supervisor_candidate_wire_descriptor c r) (supervisor_candidate_wire_descriptor c r) = true.
Proof. cbv -[equals_scalar]. cbn [equals_scalar]. rewrite !str_eqb_refl. reflexivity. Qed.
End MetaFacts.

(** ** Missions *)

(** The mission as it is read back: a supervisor-owned one without a candidate
    process. *)
Definition wire_view (s : RollbackState) : RollbackState :=
  mkRollback (rb_schema_version s) (rb_generation s) (rb_status s) (rb_commit s) (rb_previous_commit s) (rb_deadline s)
    (rb_repo s) (rb_uv_path s) (rb_stop_grace_seconds s) (rb_git_timeout_seconds s) (rb_previous_retiring s)
    (rb_previous_meta s) (if owned (rb_supervisor_owned s) then None else rb_new_meta s) (rb_supervisor_owned s)
    (rb_previous_restart_meta s) (rb_previous_restart_released s).

Lemma item_present d k v : dict_mem d k = true -> dict_get d k = v -> item d k = Ok v.
Proof. unfold item. by intros -> ->. Qed.

Lemma nonnegative_field f : non_negative_finite f -> _required_nonnegative_finite_json_number (JFloat f) = Ok f.
Proof. intros [Hf Hn]. cbn. unfold finite in Hf. rewrite Hf. cbn. by rewrite Hn. Qed.

Lemma positive_field f : finite f /\ float_nonpositive f = false -> _required_positive_finite_json_number (JFloat f) = Ok f.
Proof. intros [Hf Hn]. cbn. unfold finite in Hf. rewrite Hf. cbn. by rewrite Hn. Qed.

Lemma commit_field c : COMMIT_RE c = true -> _required_commit (JStr c) = Ok c.
Proof. intros Hc. unfold _required_commit. cbn [_required_json_string mbind res_bind]. by rewrite Hc. Qed.

Lemma candidate_round_trip s :
  candidate_wf s (rb_new_meta s) -> candidate_distinct s = true ->
  WorkerMetadata.parse_supervisor_candidate_meta (dict_get (rollback_to_dict s) (py "new_meta")) (rb_supervisor_owned s)
    (rb_commit s) (rb_repo s) = Ok (rb_new_meta (wire_view s)).
Proof.
  intros Hc Hne. unfold rollback_to_dict. eval_get. cbn [wire_view rb_new_meta]. unfold owned, candidate_distinct in *.
  destruct (rb_supervisor_owned s) as [[]|] eqn:Eo; cbn [WorkerMetadata.parse_supervisor_candidate_meta];
    [by rewrite MetaFacts.descriptor_equal|..]; (destruct (rb_new_meta s) as [m|]; [|cbn in Hc; congruence]);
    apply negb_true_iff in Hne; cbn [candidate_wf json_opt WorkerMetadata.parse_supervisor_candidate_meta] in *;
    by rewrite Hne, MetaFacts.round_trip by done.
Qed.

Lemma restart_round_trip s :
  match rb_previous_restart_meta s with
  | Some m => meta_wf m
      /\ restart_allowed (rb_supervisor_owned s) (rb_status s) (rb_repo s) (rb_previous_commit s) m = true
  | None => rb_previous_restart_released s = false
  end ->
  _parse_previous_restart (rollback_to_dict s) (rb_supervisor_owned s) (rb_status s) (rb_repo s) (rb_previous_commit s)
    = Ok (rb_previous_restart_meta s, rb_previous_restart_released s).
Proof.
  intros H. unfold _parse_previous_restart, _retiring_flag, rollback_to_dict. eval_get. eval_mem.
  destruct (rb_previous_restart_meta s) as [m|]; cbn [json_opt]; [|cbn; by rewrite H].
  destruct H as [Hm Hr]. rewrite MetaFacts.round_trip by done. cbn [mbind res_bind]. by rewrite Hr.
Qed.

Lemma build_round_trip s :
  mission_wf s -> candidate_distinct s = true ->
  _build_from_dict (rollback_to_dict s)
    = Ok (with_schema (if owned (rb_supervisor_owned s) then SUPERVISOR_ROLLBACK_WIRE_SCHEMA_VERSION else rb_schema_version s)
            (wire_view s)).
Proof.
  intros [Hs Hg Hst [Hc Hpc] Hd Hl Hp Hcand Hr] Hne. repeat (apply List.Forall_cons_iff in Hl as [? Hl]).
  pose proof (candidate_round_trip s Hcand Hne) as Hnew. pose proof (restart_round_trip s Hr) as Hrestart.
  assert (Hitem : forall k v, dict_mem (rollback_to_dict s) k = true -> dict_get (rollback_to_dict s) k = v ->
            item (rollback_to_dict s) k = Ok v) by apply item_present.
  unfold _build_from_dict.
  rewrite (Hitem (py "new_meta") _ eq_refl eq_refl). set (new := dict_get (rollback_to_dict s) (py "new_meta")) in *.
  rewrite (Hitem (py "previous_meta") (JObj (WorkerMetadata.to_dict (rb_previous_meta s))) eq_refl eq_refl).
  rewrite (Hitem (py "generation") (JInt (rb_generation s)) eq_refl eq_refl).
  rewrite (Hitem (py "status") (JStr (rb_status s)) eq_refl eq_refl).
  rewrite (Hitem (py "schema_version") _ eq_refl eq_refl).
  rewrite (Hitem (py "commit") (JStr (rb_commit s)) eq_refl eq_refl).
  rewrite (Hitem (py "previous_commit") (JStr (rb_previous_commit s)) eq_refl eq_refl).
  rewrite (Hitem (py "repo") (JStr (rb_repo s)) eq_refl eq_refl).
  rewrite (Hitem (py "deadline") (JFloat (rb_deadline s)) eq_refl eq_refl).
  rewrite (Hitem (py "uv_path") (JStr (rb_uv_path s)) eq_refl eq_refl).
  rewrite (Hitem (py "stop_grace_seconds") (JFloat (rb_stop_grace_seconds s)) eq_refl eq_refl).
  rewrite (Hitem (py "git_timeout_seconds") (JFloat (rb_git_timeout_seconds s)) eq_refl eq_refl).
  cbn [mbind res_bind].
  change (dict_get (rollback_to_dict s) (py "supervisor_owned")) with (json_opt JBool (rb_supervisor_owned s)).
  assert (_optional_json_bool (json_opt JBool (rb_supervisor_owned s)) = Ok (rb_supervisor_owned s)) as -> by by destruct (rb_supervisor_owned s).
  cbn [mbind res_bind]. assert (generation_item (JInt (rb_generation s)) = Ok (rb_generation s)) as ->.
  { cbn. destruct (Z.ltb_spec (rb_generation s) 1); [lia|done]. }
  cbn [mbind res_bind]. change (dict_get (rollback_to_dict s) (py "schema_version")) with
    (JInt (if owned (rb_supervisor_owned s) then SUPERVISOR_ROLLBACK_WIRE_SCHEMA_VERSION else rb_schema_version s)).
  cbn [_required_json_int _required_json_string mbind res_bind]. rewrite (proj2 (mem_str_In _ _) Hst). cbn [negb].
  rewrite !commit_field by done. cbn [mbind res_bind]. rewrite Hnew. cbn [mbind res_bind]. rewrite Hrestart.
  cbn [mbind res_bind]. rewrite nonnegative_field by done. cbn [mbind res_bind]. rewrite !positive_field by done.
  cbn [mbind res_bind].
  assert (_retiring_flag (rollback_to_dict s) (py "previous_retiring") = Ok (rb_previous_retiring s)) as -> by done.
  cbn [mbind res_bind]. by rewrite MetaFacts.round_trip by done.
Qed.

Lemma normalize_inv s s' : _normalize_parsed_state s = Ok s' -> s' = with_schema ROLLBACK_SCHEMA_VERSION s.
Proof.
  unfold _normalize_parsed_state. destruct (Z.eqb_spec (rb_schema_version s) ROLLBACK_SCHEMA_VERSION) as [E|].
  - intros [= <-]. destruct s. cbn in E. by subst.
  - case_match; [|done]. by intros [= <-].
Qed.

Lemma nonnegative_inv v f : _required_nonnegative_finite_json_number v = Ok f -> non_negative_finite f.
Proof.
  unfold _required_nonnegative_finite_json_number. intros H. res_step H. unfold _required_finite_json_number in B.
  destruct (float_negative a) eqn:E; [done|]. injection H as <-. split; [|done]. unfold finite. repeat case_match; by simplify_eq.
Qed.

Lemma positive_inv v f : _required_positive_finite_json_number v = Ok f -> finite f /\ float_nonpositive f = false.
Proof.
  unfold _required_positive_finite_json_number. intros H. res_step H. unfold _required_finite_json_number in B.
  destruct (float_nonpositive a) eqn:E; [done|]. injection H as <-. split; [|done]. unfold finite. repeat case_match; by simplify_eq.
Qed.

Lemma commit_inv v c : _required_commit v = Ok c -> COMMIT_RE c = true.
Proof. unfold _required_commit. intros H. res_step H. destruct (COMMIT_RE a) eqn:E; [by injection H as <-|done]. Qed.

Lemma restart_parsed d o st r c m b :
  _parse_previous_restart d o st r c = Ok (m, b) ->
  match m with Some m => meta_wf m /\ restart_allowed o st r c m = true | None => b = false end.
Proof.
  unfold _parse_previous_restart. intros H. res_step H. res_step H. destruct a as [x|].
  - assert (meta_wf x). { destruct (dict_get d _); try done. res_inv B. simplify_eq. by eapply MetaFacts.parsed. }
    destruct (restart_allowed o st r c x) eqn:E; [|done]. by simplify_eq.
  - destruct a0; [done|]. by simplify_eq.
Qed.

Lemma build_parsed d s : _build_from_dict d = Ok s -> mission_wf (with_schema ROLLBACK_SCHEMA_VERSION s).
Proof.
  unfold _build_from_dict. intros H. do 7 res_step H. do 3 res_step H.
  destruct (mem_str a8 _) eqn:Est; [|done]. cbn [negb] in H. do 7 res_step H. res_step H. destruct a16 as [rm rr]. cbv beta iota in H.
  res_inv H. subst s. repeat match goal with
  | H : _required_commit _ = Ok _ |- _ => apply commit_inv in H
  | H : _required_nonnegative_finite_json_number _ = Ok _ |- _ => apply nonnegative_inv in H
  | H : _required_positive_finite_json_number _ = Ok _ |- _ => apply positive_inv in H
  | H : _parse_previous_restart _ _ _ _ _ = Ok _ |- _ => apply restart_parsed in H
  | H : WorkerMetadata.from_dict _ = Ok _ |- _ => apply MetaFacts.parsed in H
  end.
  split; cbn; auto with lubko.
  - unfold generation_item in *. repeat case_match; simplify_eq; lia.
  - exact (proj1 (mem_str_In _ _) Est).
  - unfold candidate_wf. cbn. unfold WorkerMetadata.parse_supervisor_candidate_meta in *.
    destruct a0, a2 as [[]|]; try done; repeat case_match; simplify_eq; eauto using MetaFacts.parsed.
Qed.

(** ** What reading raises *)

Definition raises {A} (P : exn -> Prop) (m : res A) : Prop := match m with Raise x => P x | Ok _ => True end.

Lemma res_raises_bind {A B} P (m : res A) (f : A -> res B) : raises P m -> (forall a, raises P (f a)) -> raises P (m ≫= f).
Proof. destruct m; cbn; auto. Qed.

Definition typed (x : exn) : Prop := is_key_type_value_error x = true.

Ltac raises_step :=
  first [ done | apply res_raises_bind; [|intros ?]
        | match goal with |- raises _ (match ?x with _ => _ end) => destruct x | |- raises _ (if ?x then _ else _) => destruct x end ].

Section meta_raises.
Import WorkerMetadata.
Context (d : dict) (k : pystr).

Lemma int_raises m : raises typed (_required_meta_int d k m).
Proof. unfold _required_meta_int. repeat raises_step. Qed.
Lemma optional_int_raises m : raises typed (_meta_optional_int d k m).
Proof. pose proof (int_raises m). unfold _meta_optional_int. repeat raises_step. Qed.
Lemma string_raises s : raises typed (_meta_string d k s).
Proof. unfold _meta_string. repeat raises_step. Qed.
Lemma optional_string_raises : raises typed (_meta_optional_string d k).
Proof. pose proof (string_raises []). unfold _meta_optional_string. repeat raises_step. Qed.
Lemma float_raises : raises typed (_meta_optional_finite_float d k).
Proof. unfold _meta_optional_finite_float. repeat raises_step. Qed.
End meta_raises.
#[local] Hint Resolve int_raises optional_int_raises string_raises optional_string_raises float_raises : lubko.

Lemma meta_raises d : raises typed (WorkerMetadata.from_dict d).
Proof.
  unfold WorkerMetadata.from_dict, WorkerMetadata._meta_worker_state.
  repeat first [ solve [auto with lubko] | raises_step ].
Qed.

Lemma candidate_raises v o c r : raises typed (WorkerMetadata.parse_supervisor_candidate_meta v o c r).
Proof.
  unfold WorkerMetadata.parse_supervisor_candidate_meta. destruct v as [| | | | | |d]; try by repeat raises_step.
  pose proof (meta_raises d) as H. destruct (WorkerMetadata.dict_equals _ _); [by repeat raises_step|].
  destruct (WorkerMetadata.from_dict d); [done|]. by destruct (_ && _).
Qed.

(** The mission's numbers whose reading converts to a float. *)
Definition time_fields : list pystr := [py "deadline"; py "stop_grace_seconds"; py "git_timeout_seconds"].

(** One of them is an integer beyond every float. *)
Definition huge_time (d : dict) : Prop :=
  exists k z, In k time_fields /\ dict_get d k = JInt z /\ is_finite (float_of_int z) = false.

Definition typed_or_huge (d : dict) (x : exn) : Prop := typed x \/ x = OverflowError /\ huge_time d.

Lemma typed_or {A} d (m : res A) : raises typed m -> raises (typed_or_huge d) m.
Proof. destruct m; cbn; [done|]. by left. Qed.

Lemma finite_number_raises d k v :
  In k time_fields -> dict_get d k = v -> raises (typed_or_huge d) (_required_finite_json_number v).
Proof.
  intros Hk Hv. destruct v as [| |z|f| | |]; try by left.
  - cbn. destruct (is_finite _) eqn:E; [done|]. right. split; [done|]. by exists k, z.
  - cbn. destruct (is_finite f); [done|by left].
Qed.

Lemma item_raises {A} d k (f : json -> res A) P :
  P KeyError -> raises P (f (dict_get d k)) -> raises P (item d k ≫= f).
Proof. intros HK Hf. unfold item. by destruct (dict_mem d k). Qed.

Ltac typed_field := apply item_raises; [by left|]; apply res_raises_bind; [|intros ?].

Lemma build_raises d : raises (typed_or_huge d) (_build_from_dict d).
Proof.
  assert (HT : forall {A} (m : res A), raises typed m -> raises (typed_or_huge d) m) by (intros ??; apply typed_or).
  unfold _build_from_dict. do 2 (apply item_raises; [by left|]).
  apply res_raises_bind; [apply HT; by destruct (dict_get d _)|]. intros previous.
  apply res_raises_bind; [apply HT; by destruct (dict_get d _)|]. intros o.
  typed_field; [apply HT; unfold generation_item; by repeat raises_step|].
  typed_field; [apply HT; by destruct (dict_get d _)|]. typed_field; [apply HT; by destruct (dict_get d _)|].
  destruct (mem_str _ _); [|by left]. cbn [negb].
  typed_field; [apply HT; unfold _required_commit, _required_json_string; by repeat raises_step|].
  typed_field; [apply HT; unfold _required_commit, _required_json_string; by repeat raises_step|].
  typed_field; [apply HT; by destruct (dict_get d _)|].
  apply res_raises_bind; [apply HT, candidate_raises|]. intros nm. apply res_raises_bind.
  { apply HT. unfold _parse_previous_restart, _retiring_flag. repeat first [apply meta_raises | raises_step]. }
  intros [rm rr]. assert (Htime : forall k, In k time_fields -> raises (typed_or_huge d) (_required_finite_json_number (dict_get d k))).
  { intros k Hk. by eapply finite_number_raises. }
  typed_field; [apply res_raises_bind; [apply Htime; by left|intros ?; case_match; [by left|done]]|].
  typed_field; [apply HT; by destruct (dict_get d _)|].
  typed_field; [apply res_raises_bind; [apply Htime; by right; left|intros ?; case_match; [by left|done]]|].
  typed_field; [apply res_raises_bind; [apply Htime; by right; right; left|intros ?; case_match; [by left|done]]|].
  apply res_raises_bind; [apply HT; unfold _retiring_flag; by repeat raises_step|]. intros ?.
  apply res_raises_bind; [apply HT, meta_raises|]. done.
Qed.

(** ** Properties *)

Lemma wire_view_wf s : mission_wf s -> mission_wf (wire_view s).
Proof.
  intros [Hs Hg Hst Hc Hd Hl Hp Hcand Hr]. split; cbn; auto. unfold candidate_wf, owned in *. cbn.
  by destruct (rb_supervisor_owned s) as [[]|], (rb_new_meta s).
Qed.

(** A well-formed mission written to its file is read back as itself, without
    the candidate process of a supervisor-owned mission, and the mission read is
    well formed again. *)
Theorem mission_round_trip s data :
  mission_wf s -> candidate_distinct s = true -> json_plain (JObj (rollback_to_dict s)) = true ->
  json_file (rollback_to_dict s) = Ok data ->
  (raw ← file_text (Some (Bytes data)); rollback_of_text raw) = Ok (wire_view s) /\ mission_wf (wire_view s).
Proof.
  intros Hwf Hne Hp Hd. split; [|by apply wire_view_wf].
  destruct (json_file_read _ _ Hp Hd) as (raw & Hraw & Hload). rewrite Hraw. cbn [mbind res_bind].
  unfold rollback_of_text, decoded_object. rewrite Hload. cbn [mbind res_bind].
  unfold rollback_from_dict. rewrite build_sorted, build_round_trip by done. cbn [mbind res_bind].
  pose proof (msw_schema s Hwf) as Hs. unfold _normalize_parsed_state.
  destruct (owned _); [|rewrite Hs]; cbn -[wire_view]; unfold with_schema, wire_view; cbn; by rewrite <- Hs.
Qed.

(** Whatever the mission file contains, reading it gives a well-formed mission of
    the current schema or raises: [DeployCtlError], or [OverflowError] when a
    time in it is an integer larger than every float. *)
Theorem mission_read_exact raw :
  match rollback_of_text raw with
  | Ok s => mission_wf s
  | Raise x => x = DeployCtlError \/ (x = OverflowError /\ exists d, json_loads raw = Ok (JObj d) /\ huge_time d)
  end.
Proof.
  unfold rollback_of_text, decoded_object. destruct (json_loads raw) as [v|x] eqn:E.
  - destruct v as [| | | | | |d]; try by left. cbn [mbind res_bind]. unfold rollback_from_dict.
    pose proof (build_raises d) as Hb. destruct (_build_from_dict d) as [s|x] eqn:Es; cbn [mbind res_bind].
    + destruct (_normalize_parsed_state s) as [s'|x] eqn:En.
      * apply normalize_inv in En as ->. by eapply build_parsed.
      * unfold _normalize_parsed_state in En. repeat case_match; try done. left. congruence.
    + cbn in Hb. destruct Hb as [Hb|[-> Hh]]; [left; unfold typed in Hb; by rewrite Hb|right; eauto].
  - left. apply json_loads_errors in E as [-> | [-> _]]; done.
Qed.

(** ** A concrete mission *)

Definition commit_a : pystr := repeat 97 40.
Definition commit_b : pystr := repeat 98 40.
Definition half_minute : pyfloat := float_of_int 30.
Definition old_worker : WorkerMeta :=
  mkMeta 1 STATE_RUNNING (Some 300) (Some 300) (Some 300) (Some 7000) (Some (py "tok")) (py "/srv/lubko") (Some commit_b)
    (Some (py "w1")) [] (Some half_minute) None.
Definition a_mission (deadline : pyfloat) : RollbackState :=
  mkRollback ROLLBACK_SCHEMA_VERSION 7 PENDING commit_a commit_b deadline (py "/srv/lubko") (py "/usr/bin/uv") half_minute
    half_minute false old_worker None (Some true) None false.

Lemma a_mission_wf : mission_wf (a_mission half_minute).
Proof.
  split; try (by vm_compute); try (by left); try (by cbn; lia); try done.
  - by repeat constructor.
  - split; try (by vm_compute); try (by left); by repeat constructor.
Qed.

Lemma mission_round_trip_witness :
  exists data, json_file (rollback_to_dict (a_mission half_minute)) = Ok data
  /\ (raw ← file_text (Some (Bytes data)); rollback_of_text raw) = Ok (wire_view (a_mission half_minute)).
Proof.
  eexists. split; [vm_compute; reflexivity|].
  apply (mission_round_trip (a_mission half_minute)); [exact a_mission_wf|reflexivity|vm_compute; reflexivity|vm_compute; reflexivity].
Defined.

(** The exception a too large deadline causes is not the one callers expect. *)
Definition huge_mission : dict :=
  dict_set (rollback_to_dict (a_mission half_minute)) (py "deadline") (JInt (10 ^ 400)).

Example huge_deadline_escapes : rollback_of_text (dump_text (JObj huge_mission)) = Raise OverflowError.
Proof. vm_compute. reflexivity. Qed.
