(* ===== verification/SupervisorFiles.v ===== *)
(** The supervisor's files and the operations on them ([src/lubko/supervise.py]):
    the run intent, the daemon's state, its identity, the generation space they
    share with the mission, and the pending install request.

    Each operation is a computation of [Store.io] over the environment [e] of the
    process, with the locks it takes. *)

From S2P Require Import Prelude PyStr PyNum Json JsonFacts ProcFs Durable StatePaths SupervisorCodec Store Mission.
From stdpp Require Import gmap.

#[local] Open Scope Z_scope.
#[local] Arguments py : simpl never.

(** ** Contents of files *)

(** [SupervisorDesired.from_dict], its errors typed. *)
Definition desired_of_text (raw : pystr) : res SupervisorDesired :=
  data ← decoded_object DesiredIntentError raw;
  match desired_from_dict data with
  | Ok d => if de_schema_version d =? SCHEMA_VERSION then Ok d else Raise DesiredIntentError
  | Raise x => Raise (match x with TypeError => DesiredIntentError | _ => if is_value_error x then DesiredIntentError else x end)
  end.

(** A state that blocks replacement until an operator repairs it. *)
Definition held_state : SupervisorState :=
  mkState SCHEMA_VERSION 0 MODE_IDLE None None None true false None false INTENT_RUN 0 None None None false None None None.

Definition state_of_text (raw : pystr) : res SupervisorState :=
  match json_loads raw with
  | Ok (JObj data) =>
      match _strict_int (dict_get data (py "schema_version")) with
      | Some v => if v =? SCHEMA_VERSION then state_from_dict data else Ok held_state
      | None => Ok held_state
      end
  | Ok _ => Ok held_state
  | Raise x => if is_value_error x then Ok held_state else Raise x
  end.

Definition reserved_of_text (raw : pystr) : res Z :=
  data ← decoded_object MissionAuthorityError raw;
  match dict_get data (py "generation") with
  | JInt g => if g <=? 0 then Raise MissionAuthorityError else Ok g
  (** [True] is an [int] *)
  | JBool true => Ok 1
  | _ => Raise MissionAuthorityError
  end.

Definition identity_dict (pid ticks : Z) : dict :=
  [(py "schema_version", JInt SCHEMA_VERSION); (py "pid", JInt pid); (py "start_time_ticks", JInt ticks)].

Definition identity_of_text (raw : pystr) : res (Z * Z) :=
  data ← decoded_object MalformedSupervisorIdentityError raw;
  match _strict_int (dict_get data (py "schema_version")), _strict_non_negative_int (dict_get data (py "pid")),
        _strict_non_negative_int (dict_get data (py "start_time_ticks")) with
  | Some v, Some pid, Some ticks =>
      if negb (v =? SCHEMA_VERSION) || (pid <=? 0) then Raise MalformedSupervisorIdentityError else Ok (pid, ticks)
  | _, _, _ => Raise MalformedSupervisorIdentityError
  end.

Section files.
Context (e : environ).

(** [try: raw = path.read_text() except FileNotFoundError: absent except OSError: raise err] *)
Definition read_present {A} (p : path) (absent : io A) (err : exn) (parse : pystr -> io A) : io A :=
  raw ← attempt (read_text e p);
  match raw with
  | Ok raw => parse raw
  | Raise FileNotFoundError => absent
  | Raise OSError => io_raise err
  | Raise x => io_raise x
  end.

(** ** Run intent *)

Definition write_desired (d : SupervisorDesired) : io unit :=
  p ← io_lift (desired_path e); write_json_durable e p (desired_to_dict d).

Definition read_desired_strict : io (option SupervisorDesired) :=
  p ← io_lift (desired_path e);
  read_present p (mret None) DesiredIntentError (fun raw => d ← io_lift (desired_of_text raw); mret (Some d)).

Definition read_desired : io (option SupervisorDesired) :=
  d ← attempt read_desired_strict;
  match d with
  | Ok d => mret d
  | Raise DesiredIntentError => mret None
  | Raise x => io_raise x
  end.

(** ** Daemon state *)

Definition write_state (s : SupervisorState) : io unit :=
  p ← io_lift (state_path e); write_json_durable e p (state_to_dict s).

Definition read_state : io SupervisorState :=
  p ← io_lift (state_path e);
  raw ← attempt (read_text e p);
  match raw with
  | Ok raw => io_lift (state_of_text raw)
  | Raise FileNotFoundError => mret fresh_state
  | Raise OSError => mret held_state
  | Raise x => io_raise x
  end.

(** [replace(state, ...)] with the blocking authority of [current]. *)
Definition carry_authority (state current : SupervisorState) : SupervisorState :=
  mkState (st_schema_version state) (st_applied_generation state) (st_mode state) (st_commit state) (st_child state)
    (st_unresolved_child current) (st_ownership_hold_malformed current) (st_unresolved_hold_malformed current)
    (st_spawning current) (st_spawning_hold_malformed current) (st_intent state) (st_restart_count state)
    (st_next_attempt_at state) (st_last_exit state) (st_last_spawn_at state) (st_ready state)
    (st_next_readiness_at state) (st_boot_id state) (st_supervisor_runtime_commit state).

Definition write_state_preserving_authority (state : SupervisorState) : io unit :=
  with_lock e consumer_lock (
    current ← read_state;
    write_state (carry_authority state current)).

(** ** Daemon identity *)

Definition read_supervisor_pid : io (option (Z * Z)) :=
  read_present (supervisor_pid_path e) (mret None) MalformedSupervisorIdentityError
    (fun raw => i ← io_lift (identity_of_text raw); mret (Some i)).

(** The identity cache: any [OSError] is dropped. *)
Definition write_supervisor_pid (pid ticks : Z) : io unit :=
  r ← attempt (_write_json e (supervisor_pid_path e) (identity_dict pid ticks));
  match r with
  | Raise x => if is_os_error x then mret tt else io_raise x
  | Ok _ => mret tt
  end.

(** [my_pid] and [my_ticks] name the caller. *)
Definition retire_supervisor_pid (my_pid my_ticks : Z) : io (Z * Z) :=
  recorded ← read_supervisor_pid;
  match recorded with
  | None => io_raise PidfileIdentityMismatchError
  | Some (pid, ticks) =>
      if negb (pid =? my_pid) || negb (ticks =? my_ticks) then io_raise PidfileIdentityMismatchError
      else
        _ ← remove_durable e (supervisor_pid_path e);
        mret (pid, ticks)
  end.

Definition restore_supervisor_pid (pid ticks : Z) : io unit :=
  write_json_durable e (supervisor_pid_path e) (identity_dict pid ticks).

(** ** Generations *)

Definition mission_state_exists_strict : io bool :=
  r ← attempt (lstat e (rollback_state_path e));
  match r with
  | Ok _ => mret true
  | Raise FileNotFoundError => mret false
  | Raise OSError => io_raise DesiredIntentError
  | Raise x => io_raise x
  end.

Definition _mission_generation : io Z :=
  mission ← attempt (read_rollback_state e);
  match mission with
  | Ok None => mret 0
  | Ok (Some m) => mret (rb_generation m)
  | Raise DeployCtlError => io_raise MissionAuthorityError
  | Raise x => io_raise x
  end.

Definition _reserved_generation : io Z :=
  p ← io_lift (reserved_generation_path e);
  read_present p (mret 0) MissionAuthorityError (fun raw => io_lift (reserved_of_text raw)).

Definition next_generation : io Z :=
  state ← read_state;
  desired ← read_desired_strict;
  mission ← _mission_generation;
  reserved ← _reserved_generation;
  let desired_generation := match desired with Some d => de_generation d | None => 0 end in
  mret (Z.max (Z.max (Z.max (st_applied_generation state) desired_generation) mission) reserved + 1).

Definition _write_run_intent_locked (commit repo uv_path : pystr) (worker_id : option pystr) (restart migration : bool) : io Z :=
  generation ← next_generation;
  now ← time_time e;
  _ ← write_desired (mkDesired SCHEMA_VERSION generation commit repo uv_path worker_id restart now migration);
  mret generation.

Definition ensure_run_intent (commit repo uv_path : pystr) (worker_id : option pystr) : io Z :=
  token ← io_lift (supervisor_state_token e);
  match token with
  | None => io_raise SupervisorStateTokenError
  | Some _ =>
      with_lock e generation_lock (
        current ← read_desired_strict;
        match current with
        | Some d => if str_eqb (de_commit d) commit then mret (de_generation d) else io_raise DesiredAuthorityConflictError
        | None =>
            exists_ ← mission_state_exists_strict;
            match exists_ with
            | true => io_raise DesiredAuthorityConflictError
            | false => _write_run_intent_locked commit repo uv_path worker_id false false
            end
        end)
  end.

Definition request_run (commit repo uv_path : pystr) (worker_id : option pystr) (restart migration : bool) : io Z :=
  with_lock e generation_lock (_write_run_intent_locked commit repo uv_path worker_id restart migration).

Definition request_restart (commit repo uv_path : pystr) (worker_id : option pystr) : io Z :=
  request_run commit repo uv_path worker_id true false.

Definition without_migration (d : SupervisorDesired) : SupervisorDesired :=
  mkDesired (de_schema_version d) (de_generation d) (de_commit d) (de_repo d) (de_uv_path d) (de_worker_id d)
    (de_restart d) (de_requested_at d) false.

Definition clear_migration_flag (generation : Z) : io bool :=
  with_lock e generation_lock (
    current ← read_desired;
    match current with
    | None => mret false
    | Some d =>
        if negb (de_migration d) || negb (de_generation d =? generation) then mret false
        else
          _ ← write_desired (without_migration d);
          mret true
    end).

(** ** The pending install request *)

Definition pending_dict (commit repo uv_path : pystr) (worker_id : option pystr) (request_id : pystr) : dict :=
  [(py "schema_version", JInt SCHEMA_VERSION); (py "commit", JStr commit); (py "repo", JStr repo);
   (py "uv_path", JStr uv_path); (py "worker_id", json_opt JStr worker_id); (py "request_id", JStr request_id)].

Definition write_pending_request (commit repo uv_path : pystr) (worker_id : option pystr) (request_id : pystr) : io unit :=
  _ ← io_lift (validate_pending_request_id request_id);
  with_lock e pending_request_lock (
    write_json_durable e (pending_request_path e) (pending_dict commit repo uv_path worker_id request_id)).

Definition _load_pending_request (p : path) : io (option dict) :=
  raw ← attempt (read_text e p);
  match raw with
  | Ok raw =>
      match json_loads raw with
      | Ok (JObj d) => mret (Some d)
      | Ok _ => mret None
      | Raise x => if is_value_error x then mret None else io_raise x
      end
  | Raise x => if is_os_error x then mret None else io_raise x
  end.

Definition ack_dict (ok : bool) (generation : option Z) (error : option pystr) : dict :=
  (py "ok", JBool ok)
  :: match generation with Some g => [(py "generation", JInt g)] | None => [] end
  ++ match error with Some m => [(py "error", JStr m)] | None => [] end.

Definition _write_pending_ack (request_id : pystr) (ok : bool) (generation : option Z) (error : option pystr) : io unit :=
  p ← io_lift (pending_request_ack_path e request_id);
  write_json_durable e p (ack_dict ok generation error).

Definition string_or (v : json) (default : pystr) : pystr := match v with JStr s => s | _ => default end.

Definition refuse (request_id error : pystr) : io bool :=
  _ ← _write_pending_ack request_id false None (Some error);
  mret false.

Definition _promote_pending_request_validated (data : dict) (request_id : pystr) : io bool :=
  match dict_get data (py "commit") with
  | JStr ((_ :: _) as commit) =>
      generation ← attempt (ensure_run_intent commit (string_or (dict_get data (py "repo")) [])
                              (string_or (dict_get data (py "uv_path")) []) (_optional_string (dict_get data (py "worker_id"))));
      match generation with
      | Ok g =>
          _ ← _write_pending_ack request_id true (Some g) None;
          mret true
      | Raise DesiredAuthorityConflictError => refuse request_id (py "conflict with existing supervisor authority")
      | Raise DesiredIntentError | Raise MissionAuthorityError =>
          refuse request_id (py "supervisor authority is malformed or unreadable")
      | Raise x => io_raise x
      end
  | _ => refuse request_id (py "missing or invalid commit")
  end.

Definition promote_pending_request : io bool :=
  with_lock e pending_request_lock (
    let p := pending_request_path e in
    data ← _load_pending_request p;
    match data with
    | None => mret false
    | Some data =>
        match dict_get data (py "request_id") with
        | JStr raw_request_id =>
            match validate_pending_request_id raw_request_id with
            | Ok request_id =>
                processed ← _promote_pending_request_validated data request_id;
                _ ← remove_durable e p;
                mret processed
            | Raise _ => _ ← remove_durable e p; mret false
            end
        | _ => _ ← remove_durable e p; mret false
        end
    end).

(** ** Status *)

Definition _read_json (p : path) : io (option dict) :=
  raw ← attempt (read_text e p);
  match raw with
  | Ok raw =>
      match json_loads raw with
      | Ok (JObj d) => mret (Some d)
      | Ok _ => mret None
      | Raise x => if is_value_error x then mret None else io_raise x
      end
  | Raise x => if is_os_error x then mret None else io_raise x
  end.

Definition write_status (s : SupervisorStatus) : io unit := _write_json e (status_path e) (status_to_dict s).
End files.

(** ** Is the recorded supervisor running? *)

(** What the kernel says besides [procfs]: command lines, and whether a pidfd of a
    process opens and then accepts signal 0. *)
Record kernel := mkKernel {
  k_proc : procfs;
  k_cmdline : Z -> option pybytes;
  k_pidfd_open : Z -> bool;
  k_pidfd_alive : Z -> bool;
}.

(** [needle in s] *)
Fixpoint contains (needle s : pystr) : bool :=
  match PyStr.strip_prefix needle s with
  | Some _ => true
  | None => match s with [] => false | _ :: r => contains needle r end
  end.

Section running.
Context (e : environ) (k : kernel).

Definition _read_cmdline (pid : Z) : pystr :=
  match k_cmdline k pid with
  | None => []
  | Some raw => Json.join [32] (map utf8_decode (List.filter (fun part => negb (str_eqb part [])) (split_on 0 raw)))
  end.

Definition names_supervisor (pid : Z) : bool :=
  contains (py "lubko-supervisor") (_read_cmdline pid) || contains (py "lubko.supervisor") (_read_cmdline pid).

(** A live process with this start time whose command line names the supervisor. *)
Definition runs_supervisor (pid ticks : Z) : bool :=
  negb (process_is_zombie (k_proc k) pid) && opt_eqb (proc_start_ticks (k_proc k) pid) (Some ticks) && names_supervisor pid.

Definition supervisor_owner_live (pid ticks : Z) : bool :=
  if (pid <=? 0) || (ticks =? 0) then false else runs_supervisor pid ticks.

Definition supervisor_running : io bool :=
  recorded ← attempt (read_supervisor_pid e);
  match recorded with
  | Raise MalformedSupervisorIdentityError | Ok None => mret false
  | Raise x => io_raise x
  | Ok (Some (pid, ticks)) => mret (if ticks =? 0 then false else runs_supervisor pid ticks)
  end.

Definition _status_identity_matches (status : SupervisorStatus) : io bool :=
  recorded ← attempt (read_supervisor_pid e);
  match recorded with
  | Raise MalformedSupervisorIdentityError | Ok None => mret false
  | Raise x => io_raise x
  | Ok (Some (pid, ticks)) =>
      mret (if negb (pid =? ss_supervisor_pid status) || negb (ss_supervisor_start_time_ticks status =? ticks) || (ticks =? 0)
            then false
            else k_pidfd_open k pid && runs_supervisor pid ticks && k_pidfd_alive k pid)
  end.

Definition STATUS_MAX_AGE_SECONDS : pyfloat := float_of_int 30.

(** [SupervisorStatus.from_dict] of a dict naming a supervisor, errors suppressed. *)
Definition parsed_status (data : dict) : option SupervisorStatus :=
  match status_from_dict data with
  | Ok s => if (ss_schema_version s =? SCHEMA_VERSION) && negb (ss_supervisor_pid s =? 0) then Some s else None
  | Raise _ => None
  end.

Definition read_status (max_age_seconds : pyfloat) : io (option SupervisorStatus) :=
  data ← _read_json e (status_path e);
  match mbind (M := option) parsed_status data with
  | None => mret None
  | Some status =>
      matches ← _status_identity_matches status;
      match matches with
      | false => mret None
      | true =>
          if float_ltb zero (ss_published_at status) then
            now ← time_time e;
            let age := float_sub now (ss_published_at status) in
            mret (if float_ltb age zero || float_ltb max_age_seconds age then None else Some status)
          else mret (Some status)
      end
  end.

(** [derive_durable_diagnostic], with its reads. *)
Definition read_durable_diagnostic : io SupervisorDiagnostic :=
  state ← read_state e;
  recorded ← attempt (read_supervisor_pid e);
  match recorded with
  | Ok (Some i) =>
      running ← supervisor_running;
      mret (derive_durable_diagnostic state (Ok (Some i)) running)
  | Ok None => mret (derive_durable_diagnostic state (Ok None) false)
  | Raise MalformedSupervisorIdentityError => mret (derive_durable_diagnostic state (Raise MalformedSupervisorIdentityError) false)
  | Raise x => io_raise x
  end.
End running.
