(* ===== verification/ControlRequests.v ===== *)
(** The requests the supervisor serves on its control socket
    ([SupervisorDaemon._handle_*] of [src/lubko/supervisor.py]): each handler
    takes the decoded request and answers a JSON object, whatever happens. *)

From S2P Require Import Prelude PyStr PyNum Json JsonFacts ProcFs Durable StatePaths SupervisorCodec Store Mission SupervisorFiles.
From stdpp Require Import gmap.

#[local] Open Scope Z_scope.
#[local] Arguments py : simpl never.

Module ControlResponse.
Definition ok (extra : dict) : dict := (py "ok", JBool true) :: extra.
Definition error (message : pystr) : dict := [(py "ok", JBool false); (py "error", JStr message)].
End ControlResponse.

Record ControlRequest := mkRequest { request_type : pystr; payload : dict }.

(** [ControlRequest.from_dict] *)
Definition request_from_dict (data : dict) : res ControlRequest :=
  match dict_get data (py "type") with
  | JStr ((_ :: _) as t) => Ok (mkRequest t data)
  | _ => Raise ValueError
  end.

Section handlers.
(** [describe x] is the message of an exception. *)
Context (e : environ) (k : kernel) (describe : exn -> pystr).

Definition with_spawning (o : option SpawningObligation) (s : SupervisorState) : SupervisorState :=
  mkState (st_schema_version s) (st_applied_generation s) (st_mode s) (st_commit s) (st_child s) (st_unresolved_child s)
    (st_ownership_hold_malformed s) (st_unresolved_hold_malformed s) o (st_spawning_hold_malformed s) (st_intent s)
    (st_restart_count s) (st_next_attempt_at s) (st_last_exit s) (st_last_spawn_at s) (st_ready s)
    (st_next_readiness_at s) (st_boot_id s) (st_supervisor_runtime_commit s).

(** [payload.get(key, default)] as a string or a boolean. *)
Definition string_field (p : dict) (key default : pystr) : option pystr :=
  match get_or p key (JStr default) with JStr s => Some s | _ => None end.
Definition bool_field (p : dict) (key : pystr) : option bool :=
  match get_or p key (JBool false) with JBool b => Some b | _ => None end.

Definition generation_response (r : res Z) (timeout failure : pystr) : io dict :=
  match r with
  | Ok g => mret (ControlResponse.ok [(py "generation", JInt g)])
  | Raise GenerationLockTimeoutError => mret (ControlResponse.error timeout)
  | Raise _ => mret (ControlResponse.error failure)
  end.

Definition _handle_deploy_request (p : dict) : io dict :=
  match dict_get p (py "commit"), string_field p (py "repo") [], string_field p (py "uv_path") [],
        bool_field p (py "restart"), bool_field p (py "migration") with
  | JStr ((_ :: _) as commit), Some repo, Some uv_path, Some restart, Some migration =>
      generation ← attempt (request_run e commit repo uv_path (_optional_string (dict_get p (py "worker_id"))) restart migration);
      generation_response generation (py "generation lock timed out") (py "failed to apply deploy request")
  | JStr (_ :: _), None, _, _, _ => mret (ControlResponse.error (py "missing or invalid 'repo'"))
  | JStr (_ :: _), _, None, _, _ => mret (ControlResponse.error (py "missing or invalid 'uv_path'"))
  | JStr (_ :: _), _, _, None, _ => mret (ControlResponse.error (py "'restart' must be a boolean"))
  | JStr (_ :: _), _, _, _, None => mret (ControlResponse.error (py "'migration' must be a boolean"))
  | _, _, _, _, _ => mret (ControlResponse.error (py "missing or invalid 'commit'"))
  end.

Definition _handle_status_request : io dict :=
  status ← attempt (read_status e k STATUS_MAX_AGE_SECONDS);
  match status with
  | Raise _ => mret (ControlResponse.error (py "failed to read status"))
  | Ok None => mret (ControlResponse.error (py "no supervisor status available"))
  | Ok (Some s) => mret (ControlResponse.ok [(py "status", JObj (status_to_dict s))])
  end.

Definition _handle_authority_snapshot_request : io dict :=
  desired ← attempt (read_desired_strict e);
  match desired with
  | Raise _ => mret (ControlResponse.error (py "failed to read desired authority"))
  | Ok desired =>
      state ← attempt (read_state e);
      match state with
      | Raise _ => mret (ControlResponse.error (py "failed to read state authority"))
      | Ok s =>
          mret (ControlResponse.ok [(py "desired", json_opt (fun d => JObj (desired_to_dict d)) desired);
                                    (py "state", JObj (state_to_dict s))])
      end
  end.

(** The write both obligation handlers make. *)
Definition write_spawning (o : option SpawningObligation) : io unit :=
  current ← read_state e;
  write_state_preserving_authority e (with_spawning o current).

Definition _handle_set_spawning_obligation (p : dict) : io dict :=
  match dict_get p (py "obligation") with
  | JObj obligation_data =>
      match spawning_from_dict obligation_data with
      | Raise x => mret (ControlResponse.error (py "malformed spawning obligation: " ++ describe x))
      | Ok obligation =>
          r ← attempt (write_spawning (Some obligation));
          match r with
          | Ok _ => mret (ControlResponse.ok [])
          | Raise _ => mret (ControlResponse.error (py "failed to set spawning obligation"))
          end
      end
  | _ => mret (ControlResponse.error (py "missing or invalid 'obligation'"))
  end.

Definition _handle_clear_spawning_obligation : io dict :=
  r ← attempt (write_spawning None);
  match r with
  | Ok _ => mret (ControlResponse.ok [])
  | Raise _ => mret (ControlResponse.error (py "failed to clear spawning obligation"))
  end.

(** A generation taken and reserved in one critical section. *)
Definition reserve_generation : io Z :=
  with_lock e generation_lock (
    generation ← next_generation e;
    p ← io_lift (reserved_generation_path e);
    _ ← write_json_durable e p [(py "generation", JInt generation)];
    mret generation).

Definition _handle_allocate_generation : io dict :=
  generation ← attempt reserve_generation;
  generation_response generation (py "generation lock timed out") (py "failed to allocate generation").

Definition _handle_ensure_run_intent (p : dict) : io dict :=
  match dict_get p (py "commit"), string_field p (py "repo") [], string_field p (py "uv_path") [] with
  | JStr ((_ :: _) as commit), Some repo, Some uv_path =>
      generation ← attempt (ensure_run_intent e commit repo uv_path (_optional_string (dict_get p (py "worker_id"))));
      match generation with
      | Raise DesiredAuthorityConflictError => mret (ControlResponse.error (describe DesiredAuthorityConflictError))
      | r => generation_response r (py "generation lock timed out") (py "failed to ensure run intent")
      end
  | JStr (_ :: _), None, _ => mret (ControlResponse.error (py "missing or invalid 'repo'"))
  | JStr (_ :: _), _, None => mret (ControlResponse.error (py "missing or invalid 'uv_path'"))
  | _, _, _ => mret (ControlResponse.error (py "missing or invalid 'commit'"))
  end.

Definition _handle_control_request (r : ControlRequest) : io dict :=
  let t := request_type r in
  if str_eqb t (py "ping") then mret (ControlResponse.ok [])
  else if str_eqb t (py "deploy") then _handle_deploy_request (payload r)
  else if str_eqb t (py "status") then _handle_status_request
  else if str_eqb t (py "authority_snapshot") then _handle_authority_snapshot_request
  else if str_eqb t (py "set_spawning_obligation") then _handle_set_spawning_obligation (payload r)
  else if str_eqb t (py "clear_spawning_obligation") then _handle_clear_spawning_obligation
  else if str_eqb t (py "allocate_generation") then _handle_allocate_generation
  else if str_eqb t (py "ensure_run_intent") then _handle_ensure_run_intent (payload r)
  else mret (ControlResponse.error (py "unknown request type: " ++ t)).
End handlers.
