(* ===== verification/SupervisorFilesFacts.v ===== *)
(** What the reads of [SupervisorFiles] return, seen from the files, and the
    generations they record. *)

From S2P Require Import Prelude PyStr PyNum Json JsonFacts ProcFs SupervisorCodec SupervisorTheorems Durable StatePaths Store Mission RecordFiles MissionTheorems SupervisorFiles ControlRequests.
From stdpp Require Import gmap.

#[local] Open Scope Z_scope.
#[local] Arguments py : simpl never.

(** ** Files as read without a failing call *)

Definition seen_with {A} (absent : A) (err : exn) (parse : pystr -> res A) (f : option file) : res A :=
  match file_text f with
  | Ok raw => parse raw
  | Raise FileNotFoundError => Ok absent
  | Raise OSError => Raise err
  | Raise x => Raise x
  end.

Section views.
Context (e : environ) (fs : file_map).

Definition desired_seen : res (option SupervisorDesired) :=
  p ← desired_path e; seen_with None DesiredIntentError (fun raw => Some <$> desired_of_text raw) (fs !! p).

Definition state_seen : res SupervisorState :=
  p ← state_path e;
  match file_text (fs !! p) with
  | Ok raw => state_of_text raw
  | Raise FileNotFoundError => Ok fresh_state
  | Raise OSError => Ok held_state
  | Raise x => Raise x
  end.

Definition reserved_seen : res Z :=
  p ← reserved_generation_path e; seen_with 0 MissionAuthorityError reserved_of_text (fs !! p).

Definition mission_seen : res (option RollbackState) :=
  seen_with None DeployCtlError (fun raw => Some <$> rollback_of_text raw) (fs !! rollback_state_path e).

(** The generations on disk, 0 where there is none or it cannot be trusted. *)
Definition desired_gen : Z := match desired_seen with Ok (Some d) => de_generation d | _ => 0 end.
Definition reserved_gen : Z := match reserved_seen with Ok g => g | _ => 0 end.
Definition mission_gen : Z := match mission_seen with Ok (Some m) => rb_generation m | _ => 0 end.
Definition applied_gen : Z := match state_seen with Ok s => st_applied_generation s | _ => 0 end.
End views.

(** ** The reads *)

Section reads.
Context (e : environ) (E : event -> Prop) (R : file_map -> file_map -> Prop).
Hypothesis (E_quiet : E quiet_event).
Hypothesis (E_others : forall ev, E ev -> forall h fs, R fs (others_act e h (ev_others ev) fs)).

Definition faulty : Prop := exists ev, E ev /\ ev_fault ev <> Fine.

(** [r] is what the file says, or the error of a failing call. *)
Definition read_as {A} (failed seen r : res A) : Prop := r = seen \/ (r = failed /\ faulty).

Abbreviation T := (triple E).

Lemma text_spec (P : list lock -> file_map -> Prop) (p : path) :
  stable e R P -> T P (read_text e p) (fun r h fs => P h fs /\ read_as (Raise OSError) (file_text (fs !! p)) r).
Proof.
  intros HP. apply (triple_call e E R E_quiet E_others); [done|]. intros ev h fs He HPf. cbn. split; [done|].
  destruct (ev_fault ev) eqn:Ef; [by left|right; split; [done|]; exists ev; split; [done|congruence]..].
Qed.

Lemma triple_lifted {A : Type} (P : list lock -> file_map -> Prop) (m : io A) (r : res A) (Q : res A -> list lock -> file_map -> Prop) :
  (forall s, m s = (r, s)) -> (forall (h : list lock) (fs : file_map), P h fs -> Q r h fs) -> T P m Q.
Proof. intros Hm HQ s Hr HP. rewrite Hm. split_and!; [done|done|]. by apply HQ. Qed.

Lemma read_present_spec {A : Type} (P : list lock -> file_map -> Prop) (p : path) (absent : A) (err : exn) (parse : pystr -> io A) (f : pystr -> res A) :
  stable e R P -> (forall raw s, parse raw s = (f raw, s)) ->
  T P (read_present e p (mret absent) err parse)
    (fun r h fs => P h fs /\ read_as (Raise err) (seen_with absent err f (fs !! p)) r).
Proof.
  intros HP Hf. unfold read_present. eapply triple_bind; [eapply triple_attempt, (text_spec P p HP)| |done].
  intros raw. cbn. destruct raw as [raw|x].
  - eapply triple_lifted; [apply Hf|]. intros h fs [HPf [H|[? _]]]; [|done]. split; [done|left]. unfold seen_with. by rewrite <- H.
  - intros s Hr [HPf H]. assert (Hx : x = OSError /\ faulty \/ file_text (files s !! p) = Raise x).
    { destruct H as [->|[[= ->] ?]]; [by right|by left]. }
    assert (Hseen : file_text (files s !! p) = Raise x -> seen_with absent err f (files s !! p)
              = match x with FileNotFoundError => Ok absent | OSError => Raise err | _ => Raise x end).
    { unfold seen_with. by intros ->. }
    destruct Hx as [[-> Hfault]|Hx]; [by split_and!; try done; right|].
    destruct x; cbn; (split_and!; [done|done|done|]); left; by rewrite (Hseen Hx).
Qed.

Lemma lift_path_spec {A B : Type} (P : list lock -> file_map -> Prop) (r : res A) (k : A -> io B) (Q : res B -> list lock -> file_map -> Prop) :
  (forall (x : exn) (h : list lock) (fs : file_map), r = Raise x -> P h fs -> Q (Raise x) h fs) -> (forall a, r = Ok a -> T P (k a) Q) -> T P (a ← io_lift r; k a) Q.
Proof. intros Hx Hk s Hr HP. destruct r as [a|x]; cbn; [by apply Hk|]. split_and!; [done|done|]. by apply Hx. Qed.

Section with_P.
Context (P : list lock -> file_map -> Prop) (HP : stable e R P).

Lemma read_desired_spec :
  T P (read_desired_strict e) (fun r h fs => P h fs /\ read_as (Raise DesiredIntentError) (desired_seen e fs) r).
Proof.
  unfold read_desired_strict. apply lift_path_spec.
  - intros x h fs Hx HPf. split; [done|left]. unfold desired_seen. by rewrite Hx.
  - intros p Hp. eapply triple_mono; [done|eapply (read_present_spec P p None DesiredIntentError _ (fun raw => Some <$> desired_of_text raw)); [done|]|].
    + intros raw s. cbn. by destruct (desired_of_text raw).
    + intros r h fs. unfold desired_seen. by rewrite Hp.
Qed.

Lemma read_mission_spec :
  T P (read_rollback_state e) (fun r h fs => P h fs /\ read_as (Raise DeployCtlError) (mission_seen e fs) r).
Proof.
  eapply triple_mono; [done|eapply (read_present_spec P (rollback_state_path e) None DeployCtlError
    (fun raw => s ← io_lift (rollback_of_text raw); mret (Some s)) (fun raw => Some <$> rollback_of_text raw)); [done|]|done].
  intros raw s. cbn. by destruct (rollback_of_text raw).
Qed.

Lemma read_reserved_spec :
  T P (_reserved_generation e) (fun r h fs => P h fs /\ read_as (Raise MissionAuthorityError) (reserved_seen e fs) r).
Proof.
  unfold _reserved_generation. apply lift_path_spec.
  - intros x h fs Hx HPf. split; [done|left]. unfold reserved_seen. by rewrite Hx.
  - intros p Hp. eapply triple_mono; [done|eapply (read_present_spec P p 0 MissionAuthorityError _ reserved_of_text); [done|done]|].
    intros r h fs. unfold reserved_seen. by rewrite Hp.
Qed.

Lemma read_state_spec : T P (read_state e) (fun r h fs => P h fs /\ read_as (Ok held_state) (state_seen e fs) r).
Proof.
  unfold read_state. apply lift_path_spec.
  - intros x h fs Hx HPf. split; [done|left]. unfold state_seen. by rewrite Hx.
  - intros p Hp. eapply triple_bind; [eapply triple_attempt, (text_spec P p HP)| |done].
    intros raw s Hr [HPf H]. cbn in H. unfold state_seen. rewrite Hp. cbn.
    destruct raw as [raw|x]; cbn.
    + split_and!; [done|done|done|left]. destruct H as [<-|[? _]]; done.
    + destruct H as [Hx|[[= ->] Hf]]; [|by split_and!; try done; right].
      destruct x; cbn; (split_and!; [done|done|done|]); left; by rewrite <- Hx.
Qed.

(** A durable JSON write leaves the file as it was or holding the dict. *)
Lemma write_json_rule (p : path) (d : dict) :
  T P (write_json_durable e p d) (fun r h fs' => exists fs, P h fs
    /\ (r <> Ok tt /\ fs' = fs \/ exists data, json_file d = Ok data /\ fs' = <[p := Bytes data]> fs)).
Proof.
  unfold write_json_durable. apply lift_path_spec.
  - intros x h fs _ HPf. exists fs. split; [done|]. by left.
  - intros data Hd. apply (triple_call e E R E_quiet E_others); [done|]. intros ev h fs _ HPf. exists fs. split; [done|].
    unfold durable_change. destruct (ev_fault ev) as [|[]|[]]; cbn; eauto.
Qed.

(** So does a durable removal. *)
Lemma remove_rule (p : path) :
  T P (remove_durable e p) (fun r h fs' => exists fs, P h fs /\ (r <> Ok tt /\ fs' = fs \/ fs' = delete p fs)).
Proof.
  apply (triple_call e E R E_quiet E_others); [done|]. intros ev h fs _ HPf. exists fs. split; [done|].
  unfold durable_change. destruct (ev_fault ev) as [|[]|[]]; cbn; auto.
Qed.
End with_P.
End reads.

(** The generation space: what an allocation guarantees about the run intent, the
    reservation, the mission and the applied generation, while other processes
    act between any two calls. *)

(** No generation of the run intent or the reservation is taken back and, when
    [full], none of the mission or the state either.  The repository itself
    removes the mission, so only the first two hold of every writer. *)
Definition advances (full : Prop) (e : environ) (fs fs' : file_map) : Prop :=
  desired_gen e fs <= desired_gen e fs' /\ reserved_gen e fs <= reserved_gen e fs'
  /\ (full -> mission_gen e fs <= mission_gen e fs' /\ applied_gen e fs <= applied_gen e fs').

#[export] Instance advances_preorder full e : PreOrder (advances full e).
Proof. split; [by intros fs; split_and!|]. intros f1 f2 f3 (?&?&?) (?&?&?). split_and!; [lia..|intuition lia]. Qed.

(** Strings that survive JSON, as every decoded command line does. *)
Definition intent_plain (commit repo uv_path : pystr) (worker_id : option pystr) : bool :=
  str_wf commit && str_wf repo && str_wf uv_path && match worker_id with Some w => str_wf w | None => true end.

(** ** Reading what was written *)

Lemma desired_file d data :
  desired_wf d -> json_plain (JObj (desired_to_dict d)) = true -> json_file (desired_to_dict d) = Ok data ->
  (raw ← file_text (Some (Bytes data)); desired_of_text raw) = Ok d.
Proof.
  intros Hwf Hp Hd. destruct (json_file_read _ _ Hp Hd) as (raw & Hraw & Hload). rewrite Hraw. cbn [mbind res_bind].
  unfold desired_of_text, decoded_object. rewrite Hload. cbn [mbind res_bind]. rewrite desired_sorted, desired_round_trip by done.
  by rewrite (dw_schema d Hwf).
Qed.

Lemma state_file s data :
  state_wf s -> json_plain (JObj (state_to_dict s)) = true -> json_file (state_to_dict s) = Ok data ->
  (raw ← file_text (Some (Bytes data)); state_of_text raw) = Ok s.
Proof.
  intros Hwf Hp Hd. destruct (json_file_read _ _ Hp Hd) as (raw & Hraw & Hload). rewrite Hraw. cbn [mbind res_bind].
  unfold state_of_text. rewrite Hload. rewrite get_sorted by done. autorewrite with sorted.
  assert (_strict_int (dict_get (state_to_dict s) (py "schema_version")) = Some SCHEMA_VERSION) as ->.
  { unfold state_to_dict. cbn [app]. eval_get. cbn. by rewrite (stw_schema s Hwf). }
  cbn [Z.eqb SCHEMA_VERSION Pos.eqb]. by rewrite state_sorted, state_round_trip.
Qed.

Lemma reserved_file g data :
  1 <= g -> json_file [(py "generation", JInt g)] = Ok data ->
  (raw ← file_text (Some (Bytes data)); reserved_of_text raw) = Ok g.
Proof.
  intros Hg Hd. assert (Hp : json_plain (JObj [(py "generation", JInt g)]) = true) by done.
  destruct (json_file_read _ _ Hp Hd) as (raw & Hraw & Hload). rewrite Hraw. cbn [mbind res_bind].
  unfold reserved_of_text, decoded_object. rewrite Hload. cbn [mbind res_bind]. rewrite get_sorted by done. eval_get. cbn.
  destruct (Z.leb_spec g 0); [lia|done].
Qed.

Lemma seen_written {A} (absent : A) err parse data a :
  (raw ← file_text (Some (Bytes data)); parse raw) = Ok a -> seen_with absent err parse (Some (Bytes data)) = Ok a.
Proof. unfold seen_with. intros H. apply bind_Ok in H as (raw & Hraw & H). by rewrite Hraw. Qed.

(** ** What a parsed file records *)

Lemma desired_text_wf raw d : desired_of_text raw = Ok d -> desired_wf d.
Proof.
  unfold desired_of_text. intros H. res_step H. destruct (desired_from_dict a) as [d'|x] eqn:E; [|done].
  case_match; [|done]. injection H as <-. by eapply desired_parsed.
Qed.

Lemma state_text_wf raw s : state_of_text raw = Ok s -> state_wf s.
Proof.
  assert (Hheld : state_wf held_state) by (split; cbn; unfold nat_like; auto; lia).
  unfold state_of_text. intros H. repeat case_match; simplify_eq; eauto using state_parsed.
Qed.

Lemma reserved_text_positive raw g : reserved_of_text raw = Ok g -> 1 <= g.
Proof. unfold reserved_of_text. intros H. res_step H. repeat case_match; simplify_eq; bool_z; lia. Qed.

Lemma mission_text_positive raw m : rollback_of_text raw = Ok m -> 1 <= rb_generation m.
Proof. intros H. pose proof (mission_read_exact raw) as Hr. rewrite H in Hr. apply Hr. Qed.

Lemma seen_inv {A} (absent : A) err parse f a : seen_with absent err parse f = Ok a -> a = absent \/ exists raw, parse raw = Ok a.
Proof. unfold seen_with. intros H. repeat case_match; simplify_eq; eauto. Qed.

Lemma desired_seen_nat e fs d : desired_seen e fs = Ok (Some d) -> 0 <= de_generation d.
Proof.
  unfold desired_seen. intros H. res_step H. apply seen_inv in H as [?|(raw & H)]; [done|].
  destruct (desired_of_text raw) as [d'|] eqn:Ed; [|done]. injection H as <-. by apply desired_text_wf in Ed as [].
Qed.

Lemma state_seen_nat e fs s : state_seen e fs = Ok s -> 0 <= st_applied_generation s.
Proof.
  unfold state_seen. intros H. res_step H.
  assert (state_wf s) as []; [|done].
  repeat case_match; simplify_eq; try by eapply state_text_wf.
  all: split; cbn; unfold nat_like; auto; lia.
Qed.

Lemma reserved_seen_nat e fs g : reserved_seen e fs = Ok g -> 0 <= g.
Proof. unfold reserved_seen. intros H. res_step H. apply seen_inv in H as [->|(raw & H)]; [lia|]. apply reserved_text_positive in H. lia. Qed.

Lemma mission_seen_nat e fs m : mission_seen e fs = Ok (Some m) -> 0 <= rb_generation m.
Proof.
  unfold mission_seen. intros H. apply seen_inv in H as [?|(raw & H)]; [done|].
  destruct (rollback_of_text raw) as [m'|] eqn:Em; [|done]. injection H as <-. apply mission_text_positive in Em. lia.
Qed.

(** ** Allocation under the generation lock *)

Lemma waits_lock e l h p : l ∈ h -> guards e l p = true -> waits e h p = true.
Proof. intros Hl Hg. unfold waits. apply existsb_exists. exists l. by rewrite <- list_elem_of_In. Qed.

Lemma guards_desired e p : desired_path e = Ok p -> guards e generation_lock p = true.
Proof.
  intros H. assert (p <> []) by (unfold desired_path in H; res_inv H; by subst p). unfold guards. destruct p; [done|].
  by rewrite H, bool_decide_eq_true_2.
Qed.

Lemma guards_reserved e p : reserved_generation_path e = Ok p -> guards e generation_lock p = true.
Proof.
  intros H. assert (p <> []) by (unfold reserved_generation_path in H; res_inv H; by subst p). unfold guards. destruct p; [done|].
  rewrite H, (bool_decide_eq_true_2 (Ok _ = Ok _)) by done. by rewrite orb_true_r.
Qed.

Section allocation.
Context (full : Prop) (e : environ) (E : event -> Prop).
Hypothesis (E_quiet : E quiet_event).
Hypothesis (E_others : forall ev, E ev -> forall h fs, advances full e fs (others_act e h (ev_others ev) fs)).

Abbreviation T := (triple E).

(** From files [fs0] on, the generation lock is held over a run intent [ds] and a
    reservation [rs]. *)
Definition locked (fs0 : file_map) ds rs (h : list lock) (fs : file_map) : Prop :=
  generation_lock ∈ h /\ desired_seen e fs = ds /\ reserved_seen e fs = rs /\ advances full e fs0 fs.

Lemma locked_stable fs0 ds rs : stable e (advances full e) (locked fs0 ds rs).
Proof.
  intros h fs fs' [HR Hg] (Hl & Hd & Hr & Ha). split_and!; [done| | |by etrans].
  - rewrite <- Hd. unfold desired_seen. destruct (desired_path e) as [p|] eqn:Ep; [|done]. cbn.
    rewrite (Hg p); [done|]. eapply waits_lock; [done|]. by apply guards_desired.
  - rewrite <- Hr. unfold reserved_seen. destruct (reserved_generation_path e) as [p|] eqn:Ep; [|done]. cbn.
    rewrite (Hg p); [done|]. eapply waits_lock; [done|]. by apply guards_reserved.
Qed.

Lemma advances_stable (fs0 : file_map) : stable e (advances full e) (fun _ fs => advances full e fs0 fs).
Proof. intros h fs fs' [HR _] H. by etrans. Qed.

(** What an allocated generation exceeds. *)
Definition outranks (fs0 : file_map) (ds : res (option SupervisorDesired)) (rs : res Z) (g : Z) : Prop :=
  (exists d, ds = Ok d /\ match d with Some d => de_generation d < g | None => True end)
  /\ (exists r, rs = Ok r /\ r < g) /\ (full -> mission_gen e fs0 < g /\ (~ faulty E -> applied_gen e fs0 < g)) /\ 1 <= g.

Lemma mission_generation_spec P :
  stable e (advances full e) P ->
  T P (_mission_generation e) (fun r h fs => P h fs /\ match r with Ok g => g = mission_gen e fs | Raise _ => True end).
Proof.
  intros HP. unfold _mission_generation.
  eapply triple_bind; [eapply triple_attempt, (read_mission_spec e E (advances full e) E_quiet E_others P HP)| |done].
  intros m s Hr [HPf Hm]. destruct m as [[m|]|x].
  - cbn. split_and!; [done..|]. destruct Hm as [Hm|[? _]]; [|done]. unfold mission_gen. by rewrite <- Hm.
  - cbn. split_and!; [done..|]. destruct Hm as [Hm|[? _]]; [|done]. unfold mission_gen. by rewrite <- Hm.
  - destruct x; by split_and!.
Qed.

Lemma next_generation_spec fs0 ds rs :
  T (locked fs0 ds rs) (next_generation e) (fun r h fs => locked fs0 ds rs h fs
     /\ match r with Ok g => outranks fs0 ds rs g | Raise _ => True end).
Proof.
  set (P := locked fs0 ds rs). assert (HP : stable e (advances full e) P) by apply locked_stable.
  unfold next_generation. eapply triple_bind; [apply (read_state_spec e E (advances full e) E_quiet E_others P HP)| |by intros ??? [? _]].
  intros st. set (P1 := fun (h : list lock) (fs : file_map) => P h fs /\ 0 <= st_applied_generation st /\ (full -> ~ faulty E -> applied_gen e fs0 <= st_applied_generation st)).
  assert (HP1 : stable e (advances full e) P1). { intros h fs fs' Hr [H1 H2]. split; [by eapply HP|done]. }
  eapply (triple_mono E _ P1); [| |intros r h fs Hq; exact Hq].
  { intros h fs [HPf Hst]. split; [done|]. destruct HPf as (_ & _ & _ & _ & _ & Hna). unfold applied_gen in Hna at 2.
    destruct Hst as [Hst|[Hst Hf]].
    - rewrite <- Hst in Hna. split; [by eapply state_seen_nat|]. intros Hf _. by apply Hna.
    - injection Hst as ->. cbn. split; [lia|]. by intros _ ?. }
  eapply triple_bind; [apply (read_desired_spec e E (advances full e) E_quiet E_others P1 HP1)| |by intros ??? [[? _] _]].
  intros d. set (P2 := fun (h : list lock) (fs : file_map) => P1 h fs /\ ds = Ok d).
  assert (HP2 : stable e (advances full e) P2). { intros h fs fs' Hr [H1 H2]. split; [by eapply HP1|done]. }
  eapply (triple_mono E _ P2); [| |intros r h fs Hq; exact Hq].
  { intros h fs [HPf Hd]. split; [done|]. destruct HPf as [(_ & <- & _) _]. destruct Hd as [->|[? _]]; done. }
  eapply triple_bind; [apply (mission_generation_spec P2 HP2)| |by intros ??? [[[? _] _] _]].
  intros m. set (P3 := fun (h : list lock) (fs : file_map) => P2 h fs /\ (full -> mission_gen e fs0 <= m) /\ 0 <= m).
  assert (HP3 : stable e (advances full e) P3). { intros h fs fs' Hr [H1 H2]. split; [by eapply HP2|done]. }
  eapply (triple_mono E _ P3); [| |intros r h fs Hq; exact Hq].
  { intros h fs [HPf ->]. split; [done|]. destruct HPf as [[(_ & _ & _ & _ & _ & Hnm) _] _]. split; [apply Hnm|].
    unfold mission_gen. destruct (mission_seen e fs) as [[x|]|] eqn:Ex; [by eapply mission_seen_nat|lia..]. }
  eapply triple_bind; [apply (read_reserved_spec e E (advances full e) E_quiet E_others P3 HP3)| |by intros ??? [[[[? _] _] _] _]].
  intros r. apply triple_ret. intros h fs [[[[HPf Ha] Hds] Hm] Hr]. split; [done|].
  pose proof HPf as (_ & Hd & Hrs & _). destruct Hr as [Hr|[? _]]; [|done]. rewrite <- Hr in Hrs.
  pose proof (reserved_seen_nat e fs r (eq_sym Hr)). destruct Ha as [Ha1 Ha2]. destruct Hm as [Hm1 Hm2].
  split_and!; [|exists r; split; [done|lia]| |lia].
  2:{ intros Hfull. specialize (Hm1 Hfull). split; [lia|]. intros Hf. specialize (Ha2 Hfull Hf). lia. }
  exists d. split; [done|]. destruct d as [d|]; [lia|done].
Qed.

(** ** Writing the intent *)

Lemma triple_exists {X A : Type} (P : X -> list lock -> file_map -> Prop) (m : io A) (Q : res A -> list lock -> file_map -> Prop) :
  (forall x, T (P x) m Q) -> T (fun h fs => exists x, P x h fs) m Q.
Proof. intros H s Hr [x HP]. by apply (H x). Qed.

Lemma desired_path_name p : desired_path e = Ok p -> exists d, p = py "desired.json" :: d.
Proof. unfold desired_path. intros H. res_inv H. subst p. by eexists. Qed.

Lemma views_after_desired p f fs :
  desired_path e = Ok p ->
  reserved_seen e (<[p := f]> fs) = reserved_seen e fs /\ mission_gen e (<[p := f]> fs) = mission_gen e fs
  /\ applied_gen e (<[p := f]> fs) = applied_gen e fs.
Proof.
  intros [d ->]%desired_path_name. split_and!.
  - unfold reserved_seen, reserved_generation_path. destruct (supervisor_private_dir e) as [q|]; [|done]. cbn.
    by rewrite lookup_insert_ne.
  - unfold mission_gen, mission_seen. by rewrite lookup_insert_ne.
  - unfold applied_gen, state_seen. rewrite state_path_private. destruct (supervisor_private_dir e) as [q|]; [|done]. cbn.
    by rewrite lookup_insert_ne.
Qed.

Lemma write_desired_spec (P : list lock -> file_map -> Prop) (d : SupervisorDesired) :
  stable e (advances full e) P -> desired_wf d -> json_plain (JObj (desired_to_dict d)) = true ->
  T P (write_desired e d) (fun r h fs' => exists fs, P h fs
    /\ (r <> Ok tt /\ fs' = fs
        \/ desired_seen e fs' = Ok (Some d) /\ reserved_seen e fs' = reserved_seen e fs
           /\ mission_gen e fs' = mission_gen e fs /\ applied_gen e fs' = applied_gen e fs)).
Proof.
  intros HP Hwf Hp. unfold write_desired. apply lift_path_spec.
  - intros x h fs _ HPf. exists fs. split; [done|]. by left.
  - intros p Hpath. eapply triple_mono; [done|by apply (write_json_rule e E (advances full e) E_quiet E_others)|]. intros r h fs' (fs & HPf & H). exists fs. split; [done|].
    destruct H as [H|(data & Hd & ->)]; [by left|right]. split; [|by apply views_after_desired].
    unfold desired_seen. rewrite Hpath. cbn. rewrite lookup_insert_eq. apply seen_written.
    pose proof (desired_file d data Hwf Hp Hd) as H. apply bind_Ok in H as (raw & Hraw & H). rewrite Hraw. cbn. by rewrite H.
Qed.

Lemma time_spec (P : list lock -> file_map -> Prop) :
  stable e (advances full e) P ->
  T P (time_time e) (fun r h fs => P h fs /\ exists now : instant, r = Ok (i_float now)).
Proof. intros HP. apply (triple_call e E (advances full e) E_quiet E_others); [done|]. intros ev h fs _ HPf. split; [done|]. by exists (ev_now ev). Qed.

Lemma intent_wf g commit repo uv_path worker_id restart (now : instant) migration :
  0 <= g -> intent_plain commit repo uv_path worker_id = true ->
  let d := mkDesired SCHEMA_VERSION g commit repo uv_path worker_id restart (i_float now) migration in
  desired_wf d /\ json_plain (JObj (desired_to_dict d)) = true.
Proof.
  intros Hg Hp. pose proof (i_ok now) as Hi. unfold intent_plain in Hp. bool_z. split; [by repeat split; cbn|].
  unfold desired_to_dict. cbn -[plain_dict]. apply andb_true_iff. split; [by vm_compute|]. plain_members.
  by destruct worker_id.
Qed.

(** The intent [request_run] and its relatives write. *)
Definition intends g commit repo uv_path worker_id restart migration (fs : file_map) : Prop :=
  exists now : instant,
    desired_seen e fs = Ok (Some (mkDesired SCHEMA_VERSION g commit repo uv_path worker_id restart (i_float now) migration)).

Lemma outranks_seen fs0 ds rs h fs g :
  locked fs0 ds rs h fs -> outranks fs0 ds rs g -> desired_gen e fs < g /\ reserved_gen e fs < g.
Proof.
  intros (_ & Hds & Hrs & _) ((d & -> & Hd) & (r & -> & Hr) & _ & Hg). unfold desired_gen, reserved_gen.
  rewrite Hds, Hrs. split; [|done]. destruct d; [done|lia].
Qed.

(** What an allocation of [g] leaves, begun at [fs0]. *)
Definition allocated (fs0 : file_map) (g : Z) (fs : file_map) : Prop :=
  desired_gen e fs0 < g /\ reserved_gen e fs0 < g /\ (full -> mission_gen e fs0 < g /\ (~ faulty E -> applied_gen e fs0 < g))
  /\ g <= Z.max (desired_gen e fs) (reserved_gen e fs).

Lemma write_intent_spec fs0 ds rs commit repo uv_path worker_id restart migration :
  intent_plain commit repo uv_path worker_id = true ->
  T (locked fs0 ds rs) (_write_run_intent_locked e commit repo uv_path worker_id restart migration)
    (fun r h fs => advances full e fs0 fs
      /\ match r with
         | Ok g => allocated fs0 g fs /\ intends g commit repo uv_path worker_id restart migration fs
         | Raise _ => True
         end).
Proof.
  intros Hp. unfold _write_run_intent_locked.
  eapply triple_bind; [apply next_generation_spec| |by intros ??? [(_ & _ & _ & ?) _]].
  intros g. set (P := fun h (fs : file_map) => locked fs0 ds rs h fs /\ outranks fs0 ds rs g).
  assert (HP : stable e (advances full e) P). { intros h fs fs' Hr [H1 H2]. split; [by eapply locked_stable|done]. }
  eapply triple_bind; [apply (time_spec P HP)| |by intros ??? [[(_ & _ & _ & ?) _] _]].
  intros now s Hr [[Hl Ho] [i Hi]]. injection Hi as ->.
  assert (Hg : 0 <= g) by (destruct Ho as (_ & _ & _ & ?); lia).
  destruct (intent_wf g commit repo uv_path worker_id restart i migration Hg Hp) as [Hwf Hplain].
  revert s Hr Hl Ho. set (d := mkDesired _ _ _ _ _ _ _ _ _) in *.
  assert (HT : T P (_ ← write_desired e d; mret g) (fun r h fs => advances full e fs0 fs
      /\ match r with
         | Ok g => allocated fs0 g fs /\ intends g commit repo uv_path worker_id restart migration fs
         | Raise _ => True
         end)); [|by intros s Hr Hl Ho; apply (HT s Hr (conj Hl Ho))].
  assert (Hafter : forall h fs fs', P h fs -> desired_seen e fs' = Ok (Some d) -> reserved_seen e fs' = reserved_seen e fs ->
            mission_gen e fs' = mission_gen e fs -> applied_gen e fs' = applied_gen e fs ->
            advances full e fs0 fs' /\ allocated fs0 g fs').
  { intros h fs fs' [Hl Ho] Hd Hrs Hm Ha. destruct (outranks_seen _ _ _ _ _ _ Hl Ho) as [Hg1 Hg2].
    destruct Hl as (_ & _ & _ & Hadv). assert (desired_gen e fs' = g) as Hdg by (unfold desired_gen; by rewrite Hd).
    assert (reserved_gen e fs' = reserved_gen e fs) as Hrg by (unfold reserved_gen; by rewrite Hrs).
    destruct Hadv as (A1 & A2 & A3). destruct Ho as (_ & _ & O3 & O5). rewrite <- Hm, <- Ha in A3.
    split; [split_and!; [lia..|exact A3]|]. split_and!; [lia..|exact O3|lia]. }
  eapply triple_bind; [by apply (write_desired_spec P d HP)| |].
  - intros [] . apply triple_ret. intros h fs' (fs & HPf & [[Hne _]|(H1 & H2 & H3 & H4)]); [done|].
    destruct (Hafter h fs fs' HPf H1 H2 H3 H4) as [? ?]. split; [done|]. split; [done|]. by exists i.
  - intros x h fs' (fs & HPf & [[_ ->]|(H1 & H2 & H3 & H4)]); (split; [|done]).
    + by destruct HPf as [(_ & _ & _ & ?) _].
    + by apply (Hafter h fs fs' HPf H1 H2 H3 H4).
Qed.

(** Inside [generation_lock()], from the files the lock was taken over. *)
Lemma under_lock {A : Type} (fs0 : file_map) (body : io A) (Q : res A -> file_map -> Prop) :
  (forall ds rs, T (locked fs0 ds rs) body (fun r _ fs => Q r fs)) ->
  (forall (x : exn) (fs : file_map), advances full e fs0 fs -> Q (Raise x) fs) ->
  T (fun _ fs => advances full e fs0 fs) (with_lock e generation_lock body) (fun r _ fs => Q r fs).
Proof.
  intros Hb Hx. apply (triple_lock e E (advances full e) E_quiet E_others); [apply advances_stable| |by intros x h fs Ha; apply Hx].
  intros h0 _. eapply (triple_mono E _ (fun h fs => exists ds rs, locked fs0 ds rs h fs)); [| |intros r h fs Hq; exact Hq].
  - intros h fs [-> Ha]. do 2 eexists. split_and!; [by left|done|done|done].
  - apply triple_exists. intros ds. apply triple_exists. intros rs. apply Hb.
Qed.

(** How an allocation begun at [fs0] ends. *)
Definition allocates (fs0 : file_map) (r : res Z) (fs : file_map) : Prop :=
  advances full e fs0 fs /\ match r with Ok g => allocated fs0 g fs | Raise _ => True end.

Lemma request_run_spec fs0 commit repo uv_path worker_id restart migration :
  intent_plain commit repo uv_path worker_id = true ->
  T (fun _ fs => advances full e fs0 fs) (request_run e commit repo uv_path worker_id restart migration)
    (fun r _ fs => allocates fs0 r fs
       /\ match r with Ok g => intends g commit repo uv_path worker_id restart migration fs | Raise _ => True end).
Proof.
  intros Hp. unfold request_run.
  apply (under_lock fs0 _ (fun r fs => allocates fs0 r fs
       /\ match r with Ok g => intends g commit repo uv_path worker_id restart migration fs | Raise _ => True end)); [|by intros x fs; unfold allocates].
  intros ds rs. eapply triple_mono; [done|by apply write_intent_spec|]. intros r h fs [Ha Hr]. unfold allocates. destruct r; tauto.
Qed.

Lemma reserved_path_name p : reserved_generation_path e = Ok p -> exists d, p = py "reserved_generation.json" :: d.
Proof. unfold reserved_generation_path. intros H. res_inv H. subst p. by eexists. Qed.

Lemma views_after_reserved p f fs :
  reserved_generation_path e = Ok p ->
  desired_gen e (<[p := f]> fs) = desired_gen e fs /\ mission_gen e (<[p := f]> fs) = mission_gen e fs
  /\ applied_gen e (<[p := f]> fs) = applied_gen e fs.
Proof.
  intros [d ->]%reserved_path_name. split_and!.
  - unfold desired_gen, desired_seen, desired_path. destruct (supervisor_private_dir e) as [q|]; [|done]. cbn.
    by rewrite lookup_insert_ne.
  - unfold mission_gen, mission_seen. by rewrite lookup_insert_ne.
  - unfold applied_gen, state_seen. rewrite state_path_private. destruct (supervisor_private_dir e) as [q|]; [|done]. cbn.
    by rewrite lookup_insert_ne.
Qed.

Lemma reserve_spec fs0 :
  T (fun _ fs => advances full e fs0 fs) (reserve_generation e) (fun r _ fs => allocates fs0 r fs
     /\ match r with Ok g => reserved_gen e fs = g | Raise _ => True end).
Proof.
  unfold reserve_generation. apply (under_lock fs0 _ (fun r fs => allocates fs0 r fs
     /\ match r with Ok g => reserved_gen e fs = g | Raise _ => True end)); [|by intros x fs; unfold allocates]. intros ds rs.
  eapply triple_bind; [apply next_generation_spec| |by intros ??? [(_ & _ & _ & ?) _]].
  intros g. set (P := fun h (fs : file_map) => locked fs0 ds rs h fs /\ outranks fs0 ds rs g).
  assert (HP : stable e (advances full e) P). { intros h fs fs' Hr [H1 H2]. split; [by eapply locked_stable|done]. }
  apply lift_path_spec; [by intros ? ? ? _ [(_ & _ & _ & ?) _]|]. intros p Hpath.
  assert (Hafter : forall h fs data, P h fs -> json_file [(py "generation", JInt g)] = Ok data ->
            (advances full e fs0 (<[p := Bytes data]> fs) /\ allocated fs0 g (<[p := Bytes data]> fs))
            /\ reserved_gen e (<[p := Bytes data]> fs) = g).
  { intros h fs data [Hl Ho] Hd. destruct (outranks_seen _ _ _ _ _ _ Hl Ho) as [Hg1 Hg2].
    destruct (views_after_reserved p (Bytes data) fs Hpath) as (V1 & V2 & V3).
    assert (Hrg : reserved_gen e (<[p := Bytes data]> fs) = g).
    { unfold reserved_gen, reserved_seen. rewrite Hpath. cbn. rewrite lookup_insert_eq.
      rewrite (seen_written _ _ _ _ g); [done|]. apply reserved_file; [|done]. by destruct Ho as (_ & _ & _ & ?). }
    destruct Hl as (_ & _ & _ & A1 & A2 & A3). destruct Ho as (_ & _ & O3 & O5). rewrite <- V2, <- V3 in A3.
    split; [|done]. split; [split_and!; [lia..|exact A3]|]. split_and!; [lia..|exact O3|lia]. }
  eapply triple_bind; [by apply (write_json_rule e E (advances full e) E_quiet E_others P HP)| |].
  - intros []. apply triple_ret. intros h fs' (fs & HPf & [[Hne _]|(data & Hd & ->)]); [done|].
    by apply (Hafter h fs data HPf Hd).
  - intros x h fs' (fs & HPf & [[_ ->]|(data & Hd & ->)]); (split; [|done]); (split; [|done]).
    + by destruct HPf as [(_ & _ & _ & ?) _].
    + by apply (Hafter h fs data HPf Hd).
Qed.
End allocation.
