(* ===== verification/GenerationTheorems.v ===== *)
(** Generations never collide, an untrusted authority blocks allocation, and
    ensuring an intent is idempotent. *)

From S2P Require Import Prelude PyStr PyNum Json JsonFacts ProcFs Durable StatePaths SupervisorCodec SupervisorTheorems Store Mission RecordFiles MissionTheorems SupervisorFiles ControlRequests SupervisorFilesFacts LifecycleState.
From stdpp Require Import gmap.
From Stdlib Require Import Sorted.

#[local] Open Scope Z_scope.
#[local] Arguments py : simpl never.

(** ** The environment of a run *)

(** Other processes take no generation of the run intent or the reservation back
    and, when [full], none of the mission or the state either. *)
Definition others_advance (full : Prop) (e : environ) (s : store) : Prop :=
  forall ev, In ev (events s) -> forall fs, advances full e fs (ev_others ev fs).

(** Waiting for a lock does not make another process go back. *)
Lemma masked_advances full e h act fs : advances full e fs (act fs) -> advances full e fs (others_act e h act fs).
Proof.
  intros (H1 & H2 & H). split_and!; [| |intros Hf; destruct (H Hf) as [H3 H4]; split].
  - unfold desired_gen, desired_seen in *. destruct (desired_path e) as [p|]; [|done]. cbn in *.
    rewrite others_act_lookup. by destruct (waits e h p).
  - unfold reserved_gen, reserved_seen in *. destruct (reserved_generation_path e) as [p|]; [|done]. cbn in *.
    rewrite others_act_lookup. by destruct (waits e h p).
  - unfold mission_gen, mission_seen in *. rewrite others_act_lookup. by destruct (waits e h _).
  - unfold applied_gen, state_seen in *. destruct (state_path e) as [p|]; [|done]. cbn in *.
    rewrite others_act_lookup. by destruct (waits e h p).
Qed.

Definition no_fault (s : store) : Prop := forall ev, In ev (events s) -> ev_fault ev = Fine.

(** The events of [s], and silence after them. *)
Definition event_of (s : store) (ev : event) : Prop := In ev (events s) \/ ev = quiet_event.

Lemma event_of_quiet s : event_of s quiet_event.
Proof. by right. Qed.

Lemma event_of_respectful s : Store.respectful (event_of s) s.
Proof. apply List.Forall_forall. intros ev H. by left. Qed.

Lemma event_of_advance full e s : others_advance full e s ->
  forall ev, event_of s ev -> forall h fs, advances full e fs (others_act e h (ev_others ev) fs).
Proof. intros H ev [Hev| ->] h fs; apply masked_advances; [by apply H|done]. Qed.

Lemma not_faulty s : no_fault s -> ~ faulty (event_of s).
Proof. intros H (ev & [Hev| ->] & Hf); [by apply Hf, H|done]. Qed.

(** ** One allocation *)

(** The generation of a returned request outranks every generation on disk when
    it began, and those stay. *)
Definition outranks_all (e : environ) (s : store) (r : res Z) (s' : store) : Prop :=
  advances True e (files s) (files s')
  /\ match r with
     | Ok g => desired_gen e (files s) < g /\ reserved_gen e (files s) < g /\ mission_gen e (files s) < g
         /\ (no_fault s -> applied_gen e (files s) < g)
         /\ g <= Z.max (desired_gen e (files s')) (reserved_gen e (files s'))
     | Raise _ => True
     end.

Lemma allocates_outranks e s r s' :
  allocates True e (event_of s) (files s) r (files s') -> outranks_all e s r s'.
Proof.
  intros [Ha Hr]. split; [done|]. destruct r as [g|]; [|done]. destruct Hr as (H1 & H2 & [H3 H4] & H5); [done|].
  split_and!; auto using not_faulty.
Qed.

(** A run intent the supervisor is asked for gets a generation above every one on
    disk: above the current intent, the reservation and the mission, whatever
    calls fail and whatever other processes do between two calls, and above the
    applied generation when no read fails.  When the request returns, the file
    holds exactly the intent asked for; when it raises, no generation went back. *)
Theorem run_intent_outranks e s commit repo uv_path worker_id restart migration :
  others_advance True e s -> intent_plain commit repo uv_path worker_id = true ->
  let '(r, s') := request_run e commit repo uv_path worker_id restart migration s in
  outranks_all e s r s'
  /\ match r with Ok g => intends e g commit repo uv_path worker_id restart migration (files s') | Raise _ => True end.
Proof.
  intros Ho Hp.
  pose proof (request_run_spec True e (event_of s) (event_of_quiet s) (event_of_advance True e s Ho) (files s) commit repo uv_path
    worker_id restart migration Hp s (event_of_respectful s) (reflexivity _)) as (_ & _ & Ha & Hi).
  destruct (request_run _ _ _ _ _ _ _ s) as [r s']. cbn in *. split; [by apply allocates_outranks|done].
Qed.

(** ** Many allocations *)

Inductive request :=
  | RequestRun (commit repo uv_path : pystr) (worker_id : option pystr) (restart migration : bool)
  | AllocateGeneration.

Definition perform (e : environ) (q : request) : io Z :=
  match q with
  | RequestRun commit repo uv_path worker_id restart migration => request_run e commit repo uv_path worker_id restart migration
  | AllocateGeneration => reserve_generation e
  end.

Definition request_plain (q : request) : bool :=
  match q with RequestRun commit repo uv_path worker_id _ _ => intent_plain commit repo uv_path worker_id | _ => true end.

(** The generations handed out by [qs], one after the other; a request that
    raises hands out none. *)
Fixpoint serve (e : environ) (qs : list request) (s : store) : list Z * store :=
  match qs with
  | [] => ([], s)
  | q :: qs =>
      let '(r, s1) := perform e q s in
      let '(gs, s2) := serve e qs s1 in
      (match r with Ok g => g :: gs | Raise _ => gs end, s2)
  end.

Definition frontier (e : environ) (fs : file_map) : Z := Z.max (desired_gen e fs) (reserved_gen e fs).

Lemma perform_outranks e (E : event -> Prop) q s :
  E quiet_event -> (forall ev, E ev -> forall h fs, advances False e fs (others_act e h (ev_others ev) fs)) ->
  Store.respectful E s -> request_plain q = true ->
  let '(r, s') := perform e q s in
  Store.respectful E s' /\ frontier e (files s) <= frontier e (files s')
  /\ match r with Ok g => frontier e (files s) < g <= frontier e (files s') | Raise _ => True end.
Proof.
  intros Eq Eo Hr Hp. unfold frontier.
  assert (H : Store.respectful E (perform e q s).2 /\ allocates False e E (files s) (perform e q s).1 (files (perform e q s).2)).
  { destruct q as [commit repo uv_path worker_id restart migration|]; cbn [perform].
    - pose proof (request_run_spec False e E Eq Eo (files s) commit repo uv_path worker_id restart migration Hp s Hr (reflexivity _)) as (? & _ & ? & _).
      done.
    - pose proof (reserve_spec False e E Eq Eo (files s) s Hr (reflexivity _)) as (? & _ & ? & _). done. }
  destruct (perform e q s) as [r s']. cbn in H. destruct H as (H1 & (H2 & H3 & _) & H4). split; [done|]. split; [lia|].
  destruct r; [|done]. destruct H4 as (? & ? & _ & ?). lia.
Qed.

Lemma serve_increasing e E qs s :
  E quiet_event -> (forall ev, E ev -> forall h fs, advances False e fs (others_act e h (ev_others ev) fs)) ->
  Store.respectful E s -> forallb request_plain qs = true ->
  Forall (fun g => frontier e (files s) < g <= frontier e (files (serve e qs s).2)) (serve e qs s).1
  /\ StronglySorted Z.lt (serve e qs s).1 /\ frontier e (files s) <= frontier e (files (serve e qs s).2).
Proof.
  intros Eq Eo. revert s. induction qs as [|q qs IH]; intros s Hr Hp; [by repeat constructor|].
  cbn [forallb serve] in *. apply andb_true_iff in Hp as [Hq Hp]. pose proof (perform_outranks e E q s Eq Eo Hr Hq) as H.
  destruct (perform e q s) as [r s1]. destruct H as (Hr1 & Hf & Hg). destruct (IH s1 Hr1 Hp) as (IH1 & IH2 & IH3).
  destruct (serve e qs s1) as [gs s2]. cbn in *.
  assert (Hgs : Forall (fun g => frontier e (files s) < g <= frontier e (files s2)) gs).
  { eapply Forall_impl; [exact IH1|]. cbn. lia. }
  destruct r as [g|]; [|split_and!; [done|done|lia]]. split_and!; [constructor; [lia|done]| |lia].
  constructor; [done|]. eapply Forall_impl; [exact IH1|]. cbn. lia.
Qed.

(** C22: Over any sequence of run requests and reservations, by any processes, with
    failing calls and other writers in between, the generations handed out
    strictly increase, so no two are equal, and all exceed the run intent's and
    the reservation's at the start.  The one condition on the other writers is
    that none lowers the generation the run intent or the reservation records;
    they may do anything else, such as removing the mission, as the supervisor's
    cold migration and the repair commands do, or the daemon's state. *)
Theorem generations_increase e s qs :
  others_advance False e s -> forallb request_plain qs = true ->
  let '(gs, s') := serve e qs s in
  StronglySorted Z.lt gs
  /\ Forall (fun g => desired_gen e (files s) < g /\ reserved_gen e (files s) < g) gs.
Proof.
  intros Ho Hp. destruct (serve_increasing e (event_of s) qs s (event_of_quiet s) (event_of_advance False e s Ho)
    (event_of_respectful s) Hp) as (H1 & H2 & _).
  destruct (serve e qs s) as [gs s']. cbn in *. split; [done|]. eapply Forall_impl; [exact H1|]. unfold frontier. cbn. lia.
Qed.

(** ** Alone *)

(** No other process touches the files meanwhile. *)
Definition idle (s : store) : Prop := forall ev, In ev (events s) -> forall fs, ev_others ev fs = fs.

Lemma others_idle e h act fs : act fs = fs -> others_act e h act fs = fs.
Proof. intros H. apply map_eq. intros p. rewrite others_act_lookup, H. by destruct (waits e h p). Qed.

Section alone.
Context (e : environ) (E : event -> Prop).
Hypothesis (E_quiet : E quiet_event) (E_idle : forall ev, E ev -> forall fs, ev_others ev fs = fs).

Lemma E_same ev : E ev -> forall h (fs : file_map), fs = others_act e h (ev_others ev) fs.
Proof. intros H h fs. symmetry. by apply others_idle, E_idle. Qed.

Abbreviation T := (triple E).

Definition at_files (fs0 : file_map) (h : list lock) (fs : file_map) : Prop := fs = fs0.

Lemma at_files_stable fs0 : stable e eq (at_files fs0).
Proof. by intros h fs fs' [<- _]. Qed.

Definition untrusted (fs : file_map) : Prop :=
  is_raise (desired_seen e fs) = true \/ is_raise (mission_seen e fs) = true \/ is_raise (reserved_seen e fs) = true.

Definition fails {A : Type} (fs0 : file_map) (r : res A) (h : list lock) (fs : file_map) : Prop :=
  fs = fs0 /\ is_raise r = true.

Lemma read_as_raise {A : Type} (x : exn) (seen r : res A) :
  read_as E (Raise x) seen r -> is_raise seen = true -> is_raise r = true.
Proof. by intros [->|[-> _]]. Qed.

Lemma next_generation_blocked fs0 : untrusted fs0 -> T (at_files fs0) (next_generation e) (fails fs0).
Proof.
  intros Hu. pose proof (at_files_stable fs0) as HP. unfold next_generation.
  eapply triple_bind; [apply (read_state_spec e E eq E_quiet E_same _ HP)| |].
  2:{ intros x h fs [HPf _]. by split. }
  intros st. eapply (triple_mono E _ (at_files fs0)); [by intros h fs [? _]| |intros r h fs Hq; exact Hq].
  eapply triple_bind; [apply (read_desired_spec e E eq E_quiet E_same _ HP)| |].
  2:{ intros x h fs [HPf _]. by split. }
  intros d. destruct Hu as [Hd|Hu].
  { intros s Hr [HPf Hs]. unfold at_files in HPf. rewrite HPf in Hs. by apply read_as_raise in Hs. }
  eapply (triple_mono E _ (at_files fs0)); [by intros h fs [? _]| |intros r h fs Hq; exact Hq].
  eapply triple_bind.
  { unfold _mission_generation. eapply triple_bind; [eapply triple_attempt, (read_mission_spec e E eq E_quiet E_same _ HP)| |done].
    intros m. apply (triple_mono E _ (fun h fs => at_files fs0 h fs /\ read_as E (Raise DeployCtlError) (mission_seen e fs) m) _ _
      (fun r h fs => at_files fs0 h fs /\ (is_raise (mission_seen e fs0) = true -> is_raise r = true))); [done| |intros r h fs Hq; exact Hq].
    intros s Hr [HPf Hm]. unfold at_files in HPf. rewrite HPf in Hm.
    destruct m as [[m|]|x]; [..|destruct x]; (split_and!; [done|done|done|]); intros Hx; by apply read_as_raise in Hm. }
  2:{ intros x h fs [HPf _]. by split. }
  intros m. destruct Hu as [Hm|Hr].
  { intros s Hr [_ Hs]. by apply Hs in Hm. }
  eapply (triple_mono E _ (at_files fs0)); [by intros h fs [? _]| |intros r h fs Hq; exact Hq].
  eapply triple_bind; [apply (read_reserved_spec e E eq E_quiet E_same _ HP)| |].
  2:{ intros x h fs [HPf _]. by split. }
  intros r s Hrs [HPf Hs]. unfold at_files in HPf. rewrite HPf in Hs. by apply read_as_raise in Hs.
Qed.

Lemma blocked_under_lock {A : Type} fs0 (k : Z -> io A) :
  untrusted fs0 -> T (at_files fs0) (with_lock e generation_lock (g ← next_generation e; k g)) (fails fs0).
Proof.
  intros Hu. apply (triple_lock e E eq E_quiet E_same); [apply at_files_stable| |by intros x h fs ?].
  intros h0 _. eapply (triple_mono E _ (at_files fs0)); [by intros h fs [_ ?]| |intros r h fs Hq; exact Hq].
  eapply triple_bind; [by apply next_generation_blocked| |].
  - intros g s _ [_ ?]. done.
  - intros x h fs [? _]. by split.
Qed.
End alone.

(** An authority that is present but cannot be trusted, be it the run intent, the
    mission or the reservation, blocks every allocation: the request raises and
    no file changes. *)
Theorem untrusted_authority_blocks e s q :
  idle s -> untrusted e (files s) ->
  exists x s', perform e q s = (Raise x, s') /\ files s' = files s.
Proof.
  intros Hi Hu.
  assert (Hidle : forall ev, event_of s ev -> forall fs, ev_others ev fs = fs) by (intros ev [H| ->] fs; [by apply Hi|done]).
  assert (H : fails (files s) (perform e q s).1 (held s) (files (perform e q s).2)).
  { destruct q; cbn [perform]; unfold request_run, _write_run_intent_locked, reserve_generation;
      eapply (blocked_under_lock e (event_of s) (event_of_quiet s) Hidle (files s) _ Hu s (event_of_respectful s)); done. }
  destruct (perform e q s) as [r s']. destruct H as [Hf Hr]. destruct r as [|x]; [done|]. by exists x, s'.
Qed.

(** ** A concrete run *)

Definition a_token : pystr := List.repeat 97 64.
Definition an_environ : environ := mkEnviron {[SUPERVISOR_STATE_TOKEN_ENV := a_token]} [py "operator"; py "home"] [].

(** Another process publishes a status before the second call. *)
Definition status_published : event :=
  mkEvent (fun fs => <[status_path an_environ := Bytes [123; 125]]> fs) Fine epoch.
Definition a_store : store := mkStore ∅ [] [quiet_event; status_published].

Lemma status_advances full f fs : advances full an_environ fs (<[status_path an_environ := f]> fs).
Proof.
  unfold advances, desired_gen, reserved_gen, mission_gen, applied_gen, desired_seen, reserved_seen, mission_seen, state_seen.
  assert (H : forall p, p <> status_path an_environ -> (<[status_path an_environ := f]> fs : file_map) !! p = fs !! p).
  { intros p Hp. by rewrite lookup_insert_ne. }
  rewrite (H (rollback_state_path an_environ)) by (vm_compute; congruence).
  destruct (desired_path an_environ) as [p1|] eqn:E1; [|by vm_compute in E1].
  destruct (reserved_generation_path an_environ) as [p2|] eqn:E2; [|by vm_compute in E2].
  destruct (state_path an_environ) as [p3|] eqn:E3; [|by vm_compute in E3]. cbn.
  rewrite !H; [by split_and!|..].
  all: vm_compute; vm_compute in E1, E2, E3; congruence.
Qed.

Lemma a_store_advances : others_advance True an_environ a_store.
Proof. intros ev [<-|[<-|[]]] fs; [done|apply status_advances]. Qed.

Lemma run_intent_outranks_witness :
  let '(r, s') := request_run an_environ (py "c0ffee") (py "/repo") (py "/uv") None false false a_store in
  r = Ok 1 /\ outranks_all an_environ a_store r s'.
Proof.
  pose proof (run_intent_outranks an_environ a_store (py "c0ffee") (py "/repo") (py "/uv") None false false
    a_store_advances eq_refl) as H.
  assert (Hr : (request_run an_environ (py "c0ffee") (py "/repo") (py "/uv") None false false a_store).1 = Ok 1) by (vm_compute; reflexivity).
  destruct (request_run _ _ _ _ _ _ _ _) as [r s']. cbn in Hr. split; [done|]. apply H.
Defined.

Definition a_run : request := RequestRun (py "c0ffee") (py "/repo") (py "/uv") None false false.

(** Another process publishes a status, and one removes the mission. *)
Definition mission_removed : event := mkEvent (delete (rollback_state_path an_environ)) Fine epoch.
Definition a_cleared_store : store := mkStore ∅ [] [quiet_event; status_published; mission_removed].

Lemma removal_advances fs : advances False an_environ fs (delete (rollback_state_path an_environ) fs).
Proof.
  assert (H : forall p, rollback_state_path an_environ <> p -> delete (rollback_state_path an_environ) (fs : file_map) !! p = fs !! p).
  { intros p Hp. by rewrite lookup_delete_ne. }
  unfold advances, desired_gen, reserved_gen, desired_seen, reserved_seen.
  destruct (desired_path an_environ) as [p1|] eqn:E1; [|by vm_compute in E1].
  destruct (reserved_generation_path an_environ) as [p2|] eqn:E2; [|by vm_compute in E2]. cbn.
  rewrite !H; [by split_and!|..].
  all: vm_compute; vm_compute in E1, E2; congruence.
Qed.

Lemma a_cleared_store_advances : others_advance False an_environ a_cleared_store.
Proof. intros ev [<-|[<-|[<-|[]]]] fs; [done|apply status_advances|apply removal_advances]. Qed.

Lemma generations_increase_witness :
  let '(gs, s') := serve an_environ [AllocateGeneration; a_run; AllocateGeneration] a_cleared_store in
  gs = [1; 2; 3] /\ StronglySorted Z.lt gs.
Proof.
  pose proof (generations_increase an_environ a_cleared_store [AllocateGeneration; a_run; AllocateGeneration] a_cleared_store_advances eq_refl) as H.
  assert (Hr : (serve an_environ [AllocateGeneration; a_run; AllocateGeneration] a_cleared_store).1 = [1; 2; 3]) by (vm_compute; reflexivity).
  destruct (serve _ _ _) as [gs s']. cbn in Hr. split; [done|]. apply H.
Defined.

(** A mission file that is not JSON. *)
Definition torn_mission : store := mkStore {[rollback_state_path an_environ := Bytes [123]]} [] [].

Lemma untrusted_authority_blocks_witness :
  exists x s', perform an_environ AllocateGeneration torn_mission = (Raise x, s') /\ files s' = files torn_mission.
Proof.
  apply (untrusted_authority_blocks an_environ torn_mission AllocateGeneration).
  - by intros ev [].
  - right. left. vm_compute. reflexivity.
Defined.

(** A daemon state at generation 5 whose read fails counts as generation 0: the
    generation allocated does not exceed the applied one. *)
Definition applied_five : SupervisorState :=
  mkState SCHEMA_VERSION 5 MODE_IDLE None None None false false None false INTENT_RUN 0 None None None false None None None.
Definition unreadable_state : store :=
  match state_path an_environ, json_file (state_to_dict applied_five) with
  | Ok p, Ok data => mkStore {[p := Bytes data]} [] [quiet_event; mkEvent id (Refused false) epoch]
  | _, _ => a_store
  end.

Example applied_generation_outrun :
  applied_gen an_environ (files unreadable_state) = 5 /\ (perform an_environ AllocateGeneration unreadable_state).1 = Ok 1.
Proof. by vm_compute. Qed.

(** A generation that is only computed, not reserved, is handed out again. *)
Example unreserved_generation_repeats :
  let '(g1, s1) := with_lock an_environ generation_lock (next_generation an_environ) a_store in
  let '(g2, _) := with_lock an_environ generation_lock (next_generation an_environ) s1 in
  g1 = Ok 1 /\ g2 = Ok 1.
Proof. by vm_compute. Qed.
