(* ===== verification/Calm.v ===== *)
(** Runs without interference: when no call fails and no other process touches
    the files, an operation of [SupervisorFiles] is a function of the files.
    [yields] states that function; the theorems about the run intent, the
    obligations and the identity file are its instances. *)

From S2P Require Import Prelude PyStr PyNum Json JsonFacts ProcFs LifecycleState SupervisorCodec SupervisorTheorems Durable StatePaths Store Mission RecordFiles MissionTheorems SupervisorFiles ControlRequests SupervisorFilesFacts GenerationTheorems.
From stdpp Require Import gmap.

#[local] Open Scope Z_scope.
#[local] Arguments py : simpl never.

Definition calm_event (ev : event) : Prop := ev_fault ev = Fine /\ forall fs, ev_others ev fs = fs.
Definition calm (s : store) : Prop := Forall calm_event (events s).

Lemma calm_head s : calm s -> calm_event (List.hd quiet_event (events s)).
Proof. unfold calm. intros H. destruct (events s); [done|]. by apply Forall_inv in H. Qed.

Lemma calm_tail s fs h : calm s -> calm (mkStore fs h (tail (events s))).
Proof. unfold calm. cbn. intros H. destruct (events s); [done|]. by apply Forall_inv_tail in H. Qed.

Section yields.
Context (e : environ).

(** Begun in [s], [m] ends with a result and files that satisfy [Q]. *)
Definition ends {A : Type} (m : io A) (s : store) (Q : res A -> file_map -> Prop) : Prop :=
  calm (m s).2 /\ held (m s).2 = held s /\ Q (m s).1 (files (m s).2).

(** It ends with exactly [r] and the files [fs]. *)
Definition yields {A : Type} (m : io A) (s : store) (r : res A) (fs : file_map) : Prop :=
  ends m s (fun r' fs' => r' = r /\ fs' = fs).

Lemma yields_ends {A : Type} (m : io A) s r fs (Q : res A -> file_map -> Prop) : yields m s r fs -> Q r fs -> ends m s Q.
Proof. intros (? & ? & Hr & Hf) HQ. unfold ends. by rewrite Hr, Hf. Qed.

Lemma yields_result {A : Type} (m : io A) (s : store) (r : res A) (fs : file_map) :
  yields m s r fs -> (m s).1 = r /\ files (m s).2 = fs.
Proof. by intros (_ & _ & ? & ?). Qed.

Lemma yields_ret {A : Type} (a : A) s : calm s -> yields (mret a) s (Ok a) (files s).
Proof. intros Hc. by unfold yields, ends; split_and!. Qed.

Lemma yields_raise {A : Type} x s : calm s -> yields (A := A) (io_raise x) s (Raise x) (files s).
Proof. intros Hc. by unfold yields, ends; split_and!. Qed.

Lemma yields_lift {A : Type} (r : res A) s : calm s -> yields (io_lift r) s r (files s).
Proof. intros Hc. by unfold yields, ends; split_and!. Qed.

Lemma yields_bind {A B : Type} (m : io A) (f : A -> io B) s a fs1 (Q : res B -> file_map -> Prop) :
  yields m s (Ok a) fs1 ->
  (forall s1, calm s1 -> held s1 = held s -> files s1 = fs1 -> ends (f a) s1 Q) ->
  ends (m ≫= f) s Q.
Proof.
  intros (Hc & Hh & Hr & Hf) H. unfold ends, mbind, io_bind in *. destruct (m s) as [[a'|] s1]; [|done].
  cbn in *. injection Hr as ->. specialize (H s1 Hc Hh Hf). by rewrite Hh in H.
Qed.

Lemma yields_bind_raise {A B : Type} (m : io A) (f : A -> io B) s x fs :
  yields m s (Raise x) fs -> yields (m ≫= f) s (Raise x) fs.
Proof. unfold yields, ends, mbind, io_bind. destruct (m s) as [[a'|] s1]; cbn; intros (?&?&?&?); [done|]. split_and!; congruence. Qed.

Lemma yields_attempt {A : Type} (m : io A) s r fs : yields m s r fs -> yields (attempt m) s (Ok r) fs.
Proof. unfold yields, ends, attempt. destruct (m s). cbn. intros (?&?&->&?). done. Qed.

Lemma yields_call {A : Type} (f : event -> file_map -> res A * file_map) s :
  calm s ->
  let '(r, fs) := f (List.hd quiet_event (events s)) (files s) in yields (call e f) s r fs.
Proof.
  intros Hc. destruct (calm_head s Hc) as [Hf Ho]. unfold yields, ends, call.
  assert (Hsame : others_act e (held s) (ev_others (List.hd quiet_event (events s))) (files s) = files s).
  { apply map_eq. intros p. rewrite others_act_lookup, Ho. by destruct (waits e _ p). }
  rewrite Hsame. destruct (f _ _) as [r fs]. split_and!; [by apply calm_tail|done..].
Qed.

Lemma yields_read p s : calm s -> yields (read_text e p) s (file_text (files s !! p)) (files s).
Proof.
  intros Hc. pose proof (yields_call (fun ev fs => (match ev_fault ev with Fine => file_text (fs !! p) | _ => Raise OSError end, fs)) s Hc) as H.
  cbn in H. by rewrite (proj1 (calm_head s Hc)) in H.
Qed.

Lemma yields_lstat p s :
  calm s -> yields (lstat e p) s (match files s !! p with Some _ => Ok tt | None => Raise FileNotFoundError end) (files s).
Proof.
  intros Hc. eapply (yields_call (fun ev fs => (match ev_fault ev with Fine => match fs !! p with Some _ => Ok tt | None => Raise FileNotFoundError end | _ => Raise OSError end, fs))) in Hc as H.
  cbn in H. by rewrite (proj1 (calm_head s Hc)) in H.
Qed.

Lemma yields_change p f s :
  calm s -> yields (call e (durable_change p f)) s (Ok tt) (partial_alter (fun _ => f) p (files s)).
Proof.
  intros Hc. pose proof (yields_call (durable_change p f) s Hc) as H. unfold durable_change in *.
  by rewrite (proj1 (calm_head s Hc)) in H.
Qed.

Lemma yields_write p d data s :
  calm s -> json_file d = Ok data -> yields (write_json_durable e p d) s (Ok tt) (<[p := Bytes data]> (files s)).
Proof.
  intros Hc Hd. unfold write_json_durable. rewrite Hd. eapply yields_bind; [by apply yields_lift|].
  intros s1 Hc1 _ <-. by apply yields_change.
Qed.

Lemma yields_time s : calm s -> exists now : instant, yields (time_time e) s (Ok (i_float now)) (files s).
Proof. intros Hc. exists (ev_now (List.hd quiet_event (events s))). by apply (yields_call (fun ev fs => (Ok (i_float (ev_now ev)), fs))). Qed.

(** An uncontended lock is granted. *)
Lemma ends_lock {A : Type} (l : lock) (body : io A) s (Q : res A -> file_map -> Prop) :
  calm s -> l ∉ held s ->
  (forall s1, calm s1 -> files s1 = files s -> held s1 = l :: held s -> ends body s1 Q) ->
  ends (with_lock e l body) s Q.
Proof.
  intros Hc Hl H. destruct (calm_head s Hc) as [Hf Ho].
  assert (Hsame : others_act e (held s) (ev_others (List.hd quiet_event (events s))) (files s) = files s).
  { apply map_eq. intros p. rewrite others_act_lookup, Ho. by destruct (waits e _ p). }
  unfold ends, with_lock, releasing, mbind, io_bind, acquire. rewrite Hf, Hsame, bool_decide_eq_false_2 by done. cbn.
  set (s1 := mkStore _ _ _). destruct (H s1) as (Hc1 & Hh & HQ); [by apply calm_tail|done..|].
  destruct (body s1) as [r' s']. cbn in *. split_and!; [done| |done]. rewrite Hh. cbn.
  destruct (lock_eq_dec l l); [|done]. apply List.notin_remove. by rewrite <- list_elem_of_In.
Qed.

(** ** The reads *)

Lemma yields_present {A : Type} (p : path) (absent : A) err (parse : pystr -> io A) (f : pystr -> res A) s :
  calm s -> (forall raw s, parse raw s = (f raw, s)) ->
  yields (read_present e p (mret absent) err parse) s (seen_with absent err f (files s !! p)) (files s).
Proof.
  intros Hc Hp. unfold read_present, seen_with. eapply yields_bind; [by apply yields_attempt, yields_read|].
  intros s1 Hc1 _ <-. destruct (file_text _) as [raw|x].
  - unfold yields, ends. rewrite Hp. by split_and!.
  - destruct x; first [by apply yields_ret|by apply yields_raise].
Qed.

Lemma yields_desired s : calm s -> yields (read_desired_strict e) s (desired_seen e (files s)) (files s).
Proof.
  intros Hc. unfold read_desired_strict, desired_seen. destruct (desired_path e) as [p|x]; [|by apply yields_bind_raise, yields_lift].
  eapply yields_bind; [by apply yields_lift|]. intros s1 Hc1 _ <-. cbn.
  apply yields_present; [done|]. intros raw s2. cbn. by destruct (desired_of_text raw).
Qed.

Lemma yields_state s : calm s -> yields (read_state e) s (state_seen e (files s)) (files s).
Proof.
  intros Hc. unfold read_state, state_seen. destruct (state_path e) as [p|x]; [|by apply yields_bind_raise, yields_lift].
  eapply yields_bind; [by apply yields_lift|]. intros s1 Hc1 _ <-. cbn.
  eapply yields_bind; [by apply yields_attempt, yields_read|]. intros s2 Hc2 _ <-.
  destruct (file_text _) as [raw|x]; [by apply yields_lift|].
  destruct x; first [by apply yields_ret|by apply yields_raise].
Qed.

Lemma yields_reserved s : calm s -> yields (_reserved_generation e) s (reserved_seen e (files s)) (files s).
Proof.
  intros Hc. unfold _reserved_generation, reserved_seen. destruct (reserved_generation_path e) as [p|x]; [|by apply yields_bind_raise, yields_lift].
  eapply yields_bind; [by apply yields_lift|]. intros s1 Hc1 _ <-. cbn. by apply yields_present.
Qed.

(** The mission's generation as an allocation takes it. *)
Definition mission_generation_seen (fs : file_map) : res Z :=
  match mission_seen e fs with
  | Ok None => Ok 0
  | Ok (Some m) => Ok (rb_generation m)
  | Raise DeployCtlError => Raise MissionAuthorityError
  | Raise x => Raise x
  end.

Lemma yields_mission s : calm s -> yields (_mission_generation e) s (mission_generation_seen (files s)) (files s).
Proof.
  intros Hc. unfold _mission_generation, mission_generation_seen. eapply yields_bind.
  - apply yields_attempt, (yields_present (rollback_state_path e) None DeployCtlError
      (fun raw => s ← io_lift (rollback_of_text raw); mret (Some s)) (fun raw => Some <$> rollback_of_text raw)); [done|].
    intros raw s2. cbn. by destruct (rollback_of_text raw).
  - intros s1 Hc1 _ <-. unfold mission_seen. destruct (seen_with _ _ _ _) as [[m|]|x]; [by apply yields_ret..|].
    destruct x; by apply yields_raise.
Qed.

(** The next generation, as a function of the files. *)
Definition next_generation_seen (fs : file_map) : res Z :=
  state ← state_seen e fs;
  desired ← desired_seen e fs;
  mission ← mission_generation_seen fs;
  reserved ← reserved_seen e fs;
  Ok (Z.max (Z.max (Z.max (st_applied_generation state) (match desired with Some d => de_generation d | None => 0 end)) mission) reserved + 1).

(** A call that only reads. *)
Lemma yields_then {A B : Type} (m : io A) (f : A -> io B) s (a : res A) (r : A -> res B) :
  calm s -> yields m s a (files s) ->
  (forall v s1, a = Ok v -> calm s1 -> held s1 = held s -> files s1 = files s -> yields (f v) s1 (r v) (files s)) ->
  yields (m ≫= f) s (v ← a; r v) (files s).
Proof.
  intros Hc Hm H. destruct a as [v|x]; cbn; [|by apply yields_bind_raise].
  eapply yields_bind; [exact Hm|]. intros s1 Hc1 Hh Hf. by apply H.
Qed.

Lemma yields_next s : calm s -> yields (next_generation e) s (next_generation_seen (files s)) (files s).
Proof.
  intros Hc. unfold next_generation, next_generation_seen.
  apply yields_then; [done|by apply yields_state|]. intros st s1 _ Hc1 _ <-.
  apply yields_then; [done|by apply yields_desired|]. intros d s2 _ Hc2 _ <-.
  apply yields_then; [done|by apply yields_mission|]. intros m s3 _ Hc3 _ <-.
  apply yields_then; [done|by apply yields_reserved|]. intros rv s4 _ Hc4 _ <-.
  by apply yields_ret.
Qed.
End yields.

(** What the operations on the supervisor's files guarantee: the first run intent
    wins, blocking authority is never relaxed by a late writer, the obligation
    requests leave the obligation as it was, a pending request is consumed only
    once it is acknowledged. *)

(** ** The first run intent wins *)

Section ensure.
Context (e : environ) (t : pystr) (Ht : supervisor_state_token e = Ok (Some t)).

(** An existing intent or mission decides the answer, and nothing is written. *)
Lemma ensure_existing commit repo uv_path worker_id s :
  calm s -> generation_lock ∉ held s ->
  (forall x, desired_seen e (files s) = Raise x ->
     yields (ensure_run_intent e commit repo uv_path worker_id) s (Raise x) (files s))
  /\ (forall d, desired_seen e (files s) = Ok (Some d) ->
     yields (ensure_run_intent e commit repo uv_path worker_id) s
       (if str_eqb (de_commit d) commit then Ok (de_generation d) else Raise DesiredAuthorityConflictError) (files s))
  /\ (desired_seen e (files s) = Ok None -> files s !! rollback_state_path e <> None ->
     yields (ensure_run_intent e commit repo uv_path worker_id) s (Raise DesiredAuthorityConflictError) (files s)).
Proof.
  intros Hc Hl. unfold ensure_run_intent. rewrite Ht. split_and!.
  - intros x Hd. eapply yields_bind; [by apply yields_lift|]. intros s1 Hc1 Hh1 Hf1. rewrite <- Hf1 in Hd |- *.
    apply ends_lock; [done|by rewrite Hh1|]. intros s2 Hc2 Hf2 _. rewrite <- Hf2 in Hd |- *.
    apply yields_bind_raise. rewrite <- Hd. by apply yields_desired.
  - intros d Hd. eapply yields_bind; [by apply yields_lift|]. intros s1 Hc1 Hh1 Hf1. rewrite <- Hf1 in Hd |- *.
    apply ends_lock; [done|by rewrite Hh1|]. intros s2 Hc2 Hf2 _. rewrite <- Hf2 in Hd |- *.
    eapply yields_bind; [rewrite <- Hd; by apply yields_desired|]. intros s3 Hc3 _ <-. cbn.
    destruct (str_eqb _ _); [by apply yields_ret|by apply yields_raise].
  - intros Hd Hm. eapply yields_bind; [by apply yields_lift|]. intros s1 Hc1 Hh1 Hf1. rewrite <- Hf1 in Hd, Hm |- *.
    apply ends_lock; [done|by rewrite Hh1|]. intros s2 Hc2 Hf2 _. rewrite <- Hf2 in Hd, Hm |- *.
    eapply yields_bind; [rewrite <- Hd; by apply yields_desired|]. intros s3 Hc3 _ Hf3. rewrite <- Hf3 in Hm |- *. cbn.
    eapply (yields_bind _ _ _ true (files s3)).
    + unfold mission_state_exists_strict. eapply yields_bind; [by apply yields_attempt, yields_lstat|].
      intros s4 Hc4 _ Hf4. destruct (files s3 !! _); [|done]. rewrite <- Hf4. by apply yields_ret.
    + intros s4 Hc4 _ <-. by apply yields_raise.
Qed.
(** With neither, the intent is written at the next generation. *)
Lemma ensure_fresh commit repo uv_path worker_id s :
  calm s -> generation_lock ∉ held s -> desired_seen e (files s) = Ok None -> files s !! rollback_state_path e = None ->
  ends (ensure_run_intent e commit repo uv_path worker_id) s (fun r fs =>
    match r with
    | Raise _ => fs = files s
    | Ok g =>
        next_generation_seen e (files s) = Ok g
        /\ exists (now : instant) data p,
             let d := mkDesired SCHEMA_VERSION g commit repo uv_path worker_id false (i_float now) false in
             desired_path e = Ok p /\ json_file (desired_to_dict d) = Ok data /\ fs = <[p := Bytes data]> (files s)
    end).
Proof.
  intros Hc Hl Hd Hm. unfold ensure_run_intent. rewrite Ht.
  eapply yields_bind; [by apply yields_lift|]. intros s1 Hc1 Hh1 Hf1. apply ends_lock; [done|by rewrite Hh1|].
  intros s2 Hc2 Hf2 _. eapply yields_bind; [rewrite <- Hd, <- Hf1, <- Hf2; by apply yields_desired|]. intros s3 Hc3 _ Hf3. cbn.
  assert (Hs3 : files s3 = files s) by congruence. eapply (yields_bind _ _ _ false (files s)).
  { unfold mission_state_exists_strict. eapply yields_bind; [by apply yields_attempt, yields_lstat|].
    intros s4 Hc4 _ Hf4. rewrite Hs3, Hm. rewrite <- Hs3, <- Hf4. by apply yields_ret. }
  intros s4 Hc4 _ Hf4. unfold _write_run_intent_locked. rewrite <- Hf4.
  destruct (next_generation_seen e (files s4)) as [g|x] eqn:Hg.
  2:{ eapply yields_ends; [apply yields_bind_raise; rewrite <- Hg; by apply yields_next|done]. }
  eapply yields_bind; [rewrite <- Hg; by apply yields_next|]. intros s5 Hc5 _ Hf5.
  destruct (yields_time e s5 Hc5) as [now Hnow]. eapply yields_bind; [exact Hnow|]. intros s6 Hc6 _ Hf6.
  assert (Hs6 : files s6 = files s4) by congruence. unfold write_desired.
  destruct (desired_path e) as [p|x] eqn:Hp; [|unfold desired_seen in Hd; by rewrite Hp in Hd].
  set (d := mkDesired _ _ _ _ _ _ _ _ _). destruct (json_file (desired_to_dict d)) as [data|x] eqn:Hj.
  - eapply (yields_bind _ _ _ tt (<[p := Bytes data]> (files s6))).
    + eapply yields_bind; [by apply yields_lift|]. intros s7 Hc7 _ <-. by apply yields_write.
    + intros s7 Hc7 _ Hf7. eapply yields_ends; [by apply yields_ret|]. split; [done|]. exists now, data, p. split_and!; [done|exact Hj|].
      rewrite Hf7. f_equal. congruence.
  - eapply (yields_ends _ _ (Raise x) (files s6)); [|done]. apply yields_bind_raise.
    eapply yields_bind; [by apply yields_lift|]. intros s7 Hc7 _ <-. apply yields_bind_raise. rewrite Hj. by apply yields_lift.
Qed.
End ensure.

(** ** Blocking authority *)

(** What [write_state_preserving_authority] carries over. *)
Definition authority (s : SupervisorState) : option UnresolvedChild * bool * bool * option SpawningObligation * bool :=
  (st_unresolved_child s, st_ownership_hold_malformed s, st_unresolved_hold_malformed s, st_spawning s, st_spawning_hold_malformed s).

Lemma carried_authority s c : authority (carry_authority s c) = authority c.
Proof. done. Qed.

Lemma carry_wf s c : state_wf s -> state_wf c -> state_wf (carry_authority s c).
Proof. intros [] []. by split. Qed.

Lemma carry_members s c kv :
  In kv (state_to_dict (carry_authority s c)) -> In kv (state_to_dict s) \/ In kv (state_to_dict c).
Proof.
  unfold state_to_dict. rewrite !in_app_iff. intros [H|[H|H]]; [|by auto..].
  cbn [In] in H. repeat (destruct H as [H|H]; [first [left; left; rewrite <- H; cbn; tauto|right; left; rewrite <- H; cbn; tauto]|]). done.
Qed.

Abbreviation state_plain s := (json_plain (JObj (state_to_dict s))).

Lemma carry_plain s c : state_plain s = true -> state_plain c = true -> state_plain (carry_authority s c) = true.
Proof.
  cbn [json_plain]. intros [Hs1 Hs2]%andb_true_iff [Hc1 Hc2]%andb_true_iff. apply andb_true_iff. split.
  - replace (map fst (state_to_dict (carry_authority s c))) with (map fst (state_to_dict s)); [done|].
    unfold state_to_dict. by rewrite !map_app.
  - rewrite forallb_forall in Hs2, Hc2. apply forallb_forall. intros kv [H|H]%carry_members; auto.
Qed.

Lemma ensure_needs_token e commit repo uv_path worker_id s g :
  (ensure_run_intent e commit repo uv_path worker_id s).1 = Ok g -> exists t, supervisor_state_token e = Ok (Some t).
Proof. unfold ensure_run_intent. destruct (supervisor_state_token e) as [[t|]|x]; [by eexists|done|done]. Qed.

Lemma next_generation_positive e fs g : next_generation_seen e fs = Ok g -> 0 <= g.
Proof.
  unfold next_generation_seen. intros H. apply bind_Ok in H as (st & Hst & H). res_inv H. apply state_seen_nat in Hst. lia.
Qed.

(** C25: Once a run intent for a commit is ensured, the file records that commit at the
    generation returned; every later request for the commit gets the same
    generation, one for another commit is refused, and neither changes a file. *)
Theorem ensured_intent_wins e s commit repo uv_path worker_id g :
  calm s -> generation_lock ∉ held s -> intent_plain commit repo uv_path worker_id = true ->
  (ensure_run_intent e commit repo uv_path worker_id s).1 = Ok g ->
  let s1 := (ensure_run_intent e commit repo uv_path worker_id s).2 in
  (exists d, desired_seen e (files s1) = Ok (Some d) /\ de_commit d = commit /\ de_generation d = g)
  /\ (forall d, desired_seen e (files s) = Ok (Some d) -> files s1 = files s)
  /\ forall commit' repo' uv_path' worker_id',
       let '(r, s2) := ensure_run_intent e commit' repo' uv_path' worker_id' s1 in
       r = (if str_eqb commit commit' then Ok g else Raise DesiredAuthorityConflictError) /\ files s2 = files s1.
Proof.
  intros Hc Hl Hp Hr s1. destruct (ensure_needs_token _ _ _ _ _ _ _ Hr) as [t Ht].
  assert (Hs1 : calm s1 /\ held s1 = held s
    /\ (exists d, desired_seen e (files s1) = Ok (Some d) /\ de_commit d = commit /\ de_generation d = g)
    /\ (forall d, desired_seen e (files s) = Ok (Some d) -> files s1 = files s)).
  { destruct (ensure_existing e t Ht commit repo uv_path worker_id s Hc Hl) as (H1 & H2 & H3).
    destruct (desired_seen e (files s)) as [[d|]|x] eqn:Hd.
    - destruct (H2 d eq_refl) as (Hc1 & Hh1 & Hr1 & Hf1). rewrite Hr in Hr1. fold s1 in Hc1, Hh1, Hf1.
      split_and!; [done|done| |done]. exists d. rewrite Hf1. destruct (str_eqb_spec (de_commit d) commit); [|done].
      split_and!; [done..|congruence].
    - destruct (files s !! rollback_state_path e) eqn:Hm.
      { destruct H3 as (_ & _ & Hr1 & _); [done|done|]. congruence. }
      destruct (ensure_fresh e t Ht commit repo uv_path worker_id s Hc Hl Hd Hm) as (Hc1 & Hh1 & HQ).
      rewrite Hr in HQ. destruct HQ as (Hg & now & data & p & Hp1 & Hj & Hf1). fold s1 in Hc1, Hh1, Hf1.
      split_and!; [done|done| |done].
      exists (mkDesired SCHEMA_VERSION g commit repo uv_path worker_id false (i_float now) false). split; [|done].
      destruct (intent_wf g commit repo uv_path worker_id false now false (next_generation_positive _ _ _ Hg) Hp) as [Hwf Hpl].
      unfold desired_seen. rewrite Hp1, Hf1. cbn [mbind res_bind]. rewrite lookup_insert_eq. apply seen_written.
      pose proof (desired_file _ data Hwf Hpl Hj) as H. apply bind_Ok in H as (raw & Hraw & H). rewrite Hraw. cbn. by rewrite H.
    - destruct (H1 x eq_refl) as (_ & _ & Hr1 & _). congruence. }
  destruct Hs1 as (Hc1 & Hh1 & (d & Hd & Hdc & Hdg) & Hkeep). split; [by exists d|]. split; [done|].
  intros commit' repo' uv_path' worker_id'. rewrite <- Hh1 in Hl.
  destruct (ensure_existing e t Ht commit' repo' uv_path' worker_id' s1 Hc1 Hl) as (_ & H2 & _).
  destruct (H2 d Hd) as (_ & _ & Hr2 & Hf2). rewrite Hdc, Hdg in Hr2. by destruct (ensure_run_intent _ _ _ _ _ s1).
Qed.

Definition fresh_store : store := mkStore ∅ [] [].

Lemma ensured_intent_wins_witness :
  let s1 := (ensure_run_intent an_environ (py "c0ffee") (py "/repo") (py "/uv") None fresh_store).2 in
  let '(r, s2) := ensure_run_intent an_environ (py "bad") (py "/repo") (py "/uv") None s1 in
  r = (if str_eqb (py "c0ffee") (py "bad") then Ok 1 else Raise DesiredAuthorityConflictError) /\ files s2 = files s1.
Proof.
  apply (ensured_intent_wins an_environ fresh_store (py "c0ffee") (py "/repo") (py "/uv") None 1);
    [constructor|by intros ?%elem_of_nil|vm_compute; reflexivity|vm_compute; reflexivity].
Defined.

(** ** The obligation requests *)

Lemma state_seen_wf e fs st : state_seen e fs = Ok st -> state_wf st.
Proof.
  assert (Hheld : state_wf held_state) by (split; cbn; unfold nat_like; auto; lia).
  assert (Hfresh : state_wf fresh_state) by (split; cbn; unfold nat_like; auto; lia).
  unfold state_seen. intros H. res_step H. repeat case_match; simplify_eq; try done. by eapply state_text_wf.
Qed.

Lemma state_written e fs p st data :
  state_path e = Ok p -> state_wf st -> state_plain st = true -> json_file (state_to_dict st) = Ok data ->
  state_seen e (<[p := Bytes data]> fs) = Ok st.
Proof.
  intros Hp Hwf Hpl Hd. unfold state_seen. rewrite Hp. cbn [mbind res_bind]. rewrite lookup_insert_eq.
  pose proof (state_file st data Hwf Hpl Hd) as H. apply bind_Ok in H as (raw & -> & H). done.
Qed.

(** Alone, the authority-preserving write installs the state with the authority
    the file held. *)
Lemma preserving_write_calm e p s st x data :
  calm s -> consumer_lock ∉ held s -> state_path e = Ok p -> state_seen e (files s) = Ok st ->
  json_file (state_to_dict (carry_authority x st)) = Ok data ->
  yields (write_state_preserving_authority e x) s (Ok tt) (<[p := Bytes data]> (files s)).
Proof.
  intros Hc Hl Hp Hst Hd. unfold write_state_preserving_authority. apply ends_lock; [done|done|].
  intros s1 Hc1 Hf1 _. eapply yields_bind; [rewrite <- Hst, <- Hf1; by apply yields_state|].
  intros s2 Hc2 _ Hf2. unfold write_state. rewrite Hp. eapply yields_bind; [by apply yields_lift|].
  intros s3 Hc3 _ Hf3. replace (files s) with (files s3) by congruence. by apply yields_write.
Qed.

(** How both handlers answer. *)
Definition spawning_reply (e : environ) (o : option SpawningObligation) (failure : pystr) : io dict :=
  r ← attempt (write_spawning e o);
  match r with
  | Ok _ => mret (ControlResponse.ok [])
  | Raise _ => mret (ControlResponse.error failure)
  end.

(** A well-formed request to record a spawn obligation, and a request to clear it,
    are answered with success and leave the state a reader finds exactly as it
    was: the obligation is neither recorded nor cleared. *)
Theorem obligation_requests_inert e describe s st data p obligation_data obligation :
  calm s -> consumer_lock ∉ held s ->
  state_seen e (files s) = Ok st -> state_plain st = true -> json_file (state_to_dict st) = Ok data ->
  dict_get p (py "obligation") = JObj obligation_data -> spawning_from_dict obligation_data = Ok obligation ->
  forall handler, handler = _handle_set_spawning_obligation e describe p \/ handler = _handle_clear_spawning_obligation e ->
  exists s', handler s = (Ok (ControlResponse.ok []), s') /\ state_seen e (files s') = Ok st.
Proof.
  intros Hc Hl Hst Hpl Hd Hget Hobl handler Hh.
  assert (Hwf : state_wf st) by by eapply state_seen_wf.
  destruct (state_path e) as [sp|x] eqn:Hsp; [|unfold state_seen in Hst; by rewrite Hsp in Hst].
  assert (Hcarry : forall o, carry_authority (with_spawning o st) st = st) by (intros o; by destruct st).
  assert (Hw : forall o, yields (write_spawning e o) s (Ok tt) (<[sp := Bytes data]> (files s))).
  { intros o. unfold write_spawning. eapply yields_bind; [rewrite <- Hst; by apply yields_state|].
    intros s1 Hc1 Hh1 Hf1. rewrite <- Hf1 in Hst |- *. rewrite <- Hh1 in Hl.
    apply (preserving_write_calm e sp s1 st _ data); [done..|]. by rewrite Hcarry. }
  assert (Ha : exists o failure, handler = spawning_reply e o failure).
  { destruct Hh as [->| ->]; do 2 eexists; [|done]. unfold _handle_set_spawning_obligation. by rewrite Hget, Hobl. }
  destruct Ha as (o & failure & ->).
  assert (Hy : yields (spawning_reply e o failure) s (Ok (ControlResponse.ok [])) (<[sp := Bytes data]> (files s))).
  { eapply yields_bind; [apply yields_attempt, Hw|]. intros s1 Hc1 _ <-. by apply yields_ret. }
  apply yields_result in Hy as [Hr Hf]. eexists. split; [|rewrite Hf; by apply state_written].
  by rewrite <- Hr, <- surjective_pairing.
Qed.

Definition an_obligation : SpawningObligation :=
  mkSpawning (py "ab12") (py "c0ffee") 7 11 None None zero None true.

Lemma obligation_requests_inert_witness :
  exists s', _handle_set_spawning_obligation an_environ (fun _ => []) [(py "obligation", JObj (spawning_to_dict an_obligation))]
    fresh_store = (Ok (ControlResponse.ok []), s') /\ state_seen an_environ (files s') = Ok fresh_state.
Proof.
  destruct (json_file (state_to_dict fresh_state)) as [data|] eqn:Hd; [|by vm_compute in Hd].
  eapply (obligation_requests_inert an_environ (fun _ => []) fresh_store fresh_state data
    [(py "obligation", JObj (spawning_to_dict an_obligation))] (spawning_to_dict an_obligation) an_obligation).
  - constructor.
  - by intros ?%elem_of_nil.
  - vm_compute. reflexivity.
  - vm_compute. reflexivity.
  - exact Hd.
  - vm_compute. reflexivity.
  - vm_compute. reflexivity.
  - by left.
Defined.

(** ** Late writers *)

(** The authority a reader finds in a state that JSON preserves. *)
Definition seen_authority (e : environ) (fs : file_map) :=
  match state_seen e fs with
  | Ok st => if state_plain st then Some (authority st) else None
  | Raise _ => None
  end.

Definition keeps_authority (e : environ) (fs fs' : file_map) : Prop := seen_authority e fs' = seen_authority e fs.

(** Other processes leave the recorded authority as it is. *)
Definition others_keep_authority (e : environ) (s : store) : Prop :=
  forall ev, In ev (events s) -> forall fs, keeps_authority e fs (ev_others ev fs).

Lemma masked_authority e h act fs : keeps_authority e fs (act fs) -> keeps_authority e fs (others_act e h act fs).
Proof.
  unfold keeps_authority, seen_authority, state_seen. destruct (state_path e) as [p|]; [|done]. cbn [mbind res_bind].
  rewrite others_act_lookup. by destruct (waits e h p).
Qed.

Lemma seen_authority_written e fs p st data :
  state_path e = Ok p -> state_wf st -> state_plain st = true -> json_file (state_to_dict st) = Ok data ->
  state_seen e (<[p := Bytes data]> fs) = Ok st /\ seen_authority e (<[p := Bytes data]> fs) = Some (authority st).
Proof. intros Hp Hwf Hpl Hd. unfold seen_authority. rewrite (state_written e fs p st data) by done. by rewrite Hpl. Qed.

(** The authority after a write: the one before, or that of [held_state], which
    blocks until an operator repairs it. *)
Definition authority_kept (e : environ) (x : SupervisorState) a (r : res unit) (fs : file_map) : Prop :=
  exists a', seen_authority e fs = Some a' /\ (a' = a \/ a' = authority held_state)
  /\ (r = Ok tt -> exists c, authority c = a' /\ state_seen e fs = Ok (carry_authority x c)).

Lemma preserving_write_spec e (E : event -> Prop) (E_quiet : E quiet_event)
    (E_keep : forall ev, E ev -> forall h fs, keeps_authority e fs (others_act e h (ev_others ev) fs)) x a :
  state_wf x -> state_plain x = true ->
  triple E (fun _ fs => seen_authority e fs = Some a) (write_state_preserving_authority e x) (fun r _ fs => authority_kept e x a r fs).
Proof.
  intros Hwf Hpl. set (P := fun (_ : list lock) (fs : file_map) => seen_authority e fs = Some a).
  assert (HP : stable e (keeps_authority e) P). { intros h fs fs' [HR _] H. unfold P. by rewrite HR. }
  assert (Hraise : forall y h fs, P h fs -> authority_kept e x a (Raise y) fs).
  { intros y h fs H. exists a. by split_and!; [|left|]. }
  apply (triple_lock e E (keeps_authority e) E_quiet E_keep _ _ _ _ HP); [|by intros; eapply Hraise].
  intros h0 _. eapply (triple_mono E _ P); [by intros h fs [_ ?]| |intros r h fs H; exact H].
  eapply triple_bind; [apply (read_state_spec e E (keeps_authority e) E_quiet E_keep _ HP)| |by intros ? ? ? [? _]; eapply Hraise].
  intros c. set (P1 := fun (h : list lock) (fs : file_map) => P h fs /\ state_wf c /\ state_plain c = true
    /\ (authority c = a \/ authority c = authority held_state)).
  assert (HP1 : stable e (keeps_authority e) P1). { intros h fs fs' Hr [H1 H2]. split; [by eapply HP|done]. }
  eapply (triple_mono E _ P1); [| |intros r h fs H; exact H].
  { intros h fs [HPf [Hc|[[= ->] _]]]; (split; [done|]).
    - unfold P, seen_authority in HPf. rewrite <- Hc in HPf. destruct (state_plain c) eqn:Ec; [|done]. injection HPf as HPf.
      split_and!; [by eapply state_seen_wf|done|by left].
    - split_and!; [split; cbn; unfold nat_like; auto; lia|by vm_compute|by right]. }
  unfold write_state. apply lift_path_spec; [by intros y h fs _ [HPf _]; eapply Hraise|]. intros p Hp.
  eapply triple_mono; [done|apply (write_json_rule e E (keeps_authority e) E_quiet E_keep P1 HP1)|].
  intros r h fs' (fs & (HPf & Hcw & Hcp & Hca) & [[Hr ->]|(data & Hd & ->)]).
  - exists a. by split_and!; [|left|].
  - destruct (seen_authority_written e fs p (carry_authority x c) data) as [H1 H2]; [done|by apply carry_wf|by apply carry_plain|done|].
    exists (authority c). split_and!; [done|done|]. intros _. by exists c.
Qed.

(** C23: Whatever calls fail and whatever other processes write meanwhile without
    touching the blocking authority, a late authority-preserving write does not
    relax it: a reader then finds the obligations and holds that were recorded,
    or, when the state could not be read, the hold that blocks every replacement.
    A write that returns has installed every other field of its state. *)
Theorem late_write_keeps_authority e s x a :
  others_keep_authority e s -> state_wf x -> state_plain x = true -> seen_authority e (files s) = Some a ->
  let '(r, s') := write_state_preserving_authority e x s in authority_kept e x a r (files s').
Proof.
  intros Ho Hwf Hpl Ha.
  assert (Hk : forall ev, event_of s ev -> forall h fs, keeps_authority e fs (others_act e h (ev_others ev) fs)).
  { intros ev [Hev| ->] h fs; apply masked_authority; [by apply Ho|done]. }
  destruct (preserving_write_spec e (event_of s) (event_of_quiet s) Hk x a Hwf Hpl s (event_of_respectful s) Ha) as (_ & _ & H).
  by destruct (write_state_preserving_authority e x s).
Qed.

(** A read that fails while an obligation is recorded. *)
Definition obliged : SupervisorState := with_spawning (Some an_obligation) fresh_state.
Definition obliged_store (evs : list event) : store :=
  match state_path an_environ, json_file (state_to_dict obliged) with
  | Ok p, Ok data => mkStore {[p := Bytes data]} [] evs
  | _, _ => fresh_store
  end.
Definition failing_read : list event := [quiet_event; mkEvent id (Refused false) epoch].

Lemma late_write_keeps_authority_witness :
  let '(r, s') := write_state_preserving_authority an_environ fresh_state (obliged_store failing_read) in
  authority_kept an_environ fresh_state (authority obliged) r (files s').
Proof.
  apply (late_write_keeps_authority an_environ (obliged_store failing_read) fresh_state (authority obliged)).
  - intros ev Hin fs. replace (events (obliged_store failing_read)) with failing_read in Hin by (vm_compute; reflexivity).
    destruct Hin as [<-|[<-|[]]]; done.
  - split; cbn; unfold nat_like; auto; lia.
  - vm_compute. reflexivity.
  - vm_compute. reflexivity.
Defined.

(** The failing read costs the obligation: the hold replaces it. *)
Example failed_read_drops_obligation :
  state_seen an_environ (files (write_state_preserving_authority an_environ fresh_state (obliged_store failing_read)).2)
  = Ok (carry_authority fresh_state held_state)
  /\ st_spawning held_state = None /\ st_ownership_hold_malformed held_state = true.
Proof. by vm_compute. Qed.
