(* ===== verification/Promotion.v ===== *)
(** The pending install request ([promote_pending_request] of
    [src/lubko/supervise.py]): it is removed only once its acknowledgment is on
    disk, and an acknowledged success names the generation of a recorded run
    intent for its commit. *)

From S2P Require Import Prelude PyStr PyNum Json JsonFacts ProcFs Durable StatePaths SupervisorCodec SupervisorTheorems Store Mission RecordFiles MissionTheorems SupervisorFiles ControlRequests SupervisorFilesFacts LifecycleState GenerationTheorems.
From stdpp Require Import gmap.

#[local] Open Scope Z_scope.
#[local] Arguments py : simpl never.

(** The file [f] records [commit] at generation [g]. *)
Definition records (e : environ) (commit : pystr) (g : Z) (fs : file_map) : Prop :=
  exists d, desired_seen e fs = Ok (Some d) /\ de_commit d = commit /\ de_generation d = g.

Section promotion.
Context (e : environ) (request_id : pystr) (q : path).
Hypothesis (Hq : pending_request_ack_path e request_id = Ok q).

Abbreviation p := (pending_request_path e).

(** What other processes leave alone: the request, its acknowledgment, the intent. *)
Definition undisturbed (fs fs' : file_map) : Prop :=
  fs' !! p = fs !! p /\ fs' !! q = fs !! q /\ forall d, desired_path e = Ok d -> fs' !! d = fs !! d.

Lemma masked_undisturbed h act fs : undisturbed fs (act fs) -> undisturbed fs (others_act e h act fs).
Proof.
  intros (H1 & H2 & H3). split_and!; [..|intros d Hd; specialize (H3 d Hd)]; rewrite others_act_lookup; by case_match.
Qed.

Context (E : event -> Prop) (E_quiet : E quiet_event).
Hypothesis (E_others : forall ev, E ev -> forall h fs, undisturbed fs (others_act e h (ev_others ev) fs)).

Abbreviation T := (triple E).

(** The request and its acknowledgment are [v] and [w]. *)
Definition files_are (v w : option file) (_ : list lock) (fs : file_map) : Prop := fs !! p = v /\ fs !! q = w.

Lemma files_are_stable v w : stable e undisturbed (files_are v w).
Proof. intros h fs fs' [(H1 & H2 & _) _] [<- <-]. by split. Qed.
#[local] Hint Resolve files_are_stable : core.

Lemma records_stable v w commit g : stable e undisturbed (fun h fs => files_are v w h fs /\ records e commit g fs).
Proof.
  intros h fs fs' Hr [H (d & Hd & H')]. split; [by eapply files_are_stable|]. exists d. split; [|done].
  rewrite <- Hd. unfold desired_seen. destruct (desired_path e) as [dp|] eqn:Ep; [|done]. cbn. destruct Hr as [(_ & _ & H3) _]. by rewrite H3.
Qed.

Lemma ack_path_name : q = (request_id ++ py ".json") :: py "pending-ack" :: supervisor_dir e.
Proof. pose proof Hq as H. unfold pending_request_ack_path in H. apply bind_Ok in H as (? & _ & [= <-]). done. Qed.

Lemma paths_apart : p <> q /\ forall d, desired_path e = Ok d -> d <> p /\ d <> q.
Proof.
  rewrite ack_path_name. split; [intros H%(f_equal length); cbn in H; lia|]. intros d Hd.
  unfold desired_path in Hd. apply bind_Ok in Hd as (dir & Hdir & [= <-]). apply private_dir_ok in Hdir as (t & Ht & ->).
  apply token_found in Ht as (_ & _ & Ht). split.
  - intros H%(f_equal length). cbn in H. lia.
  - unfold child_path. intros [= _ H]. apply (token_not_public t Ht). subst t. cbn. auto.
Qed.

(** ** The run intent of a request *)

Lemma next_spec v w :
  T (files_are v w) (next_generation e) (fun r h fs => files_are v w h fs /\ match r with Ok g => 0 <= g | Raise _ => True end).
Proof.
  unfold next_generation.
  eapply triple_bind; [apply (read_state_spec e E undisturbed E_quiet E_others _ (files_are_stable v w))| |by intros ??? [? _]].
  intros st. set (P := fun h fs => files_are v w h fs /\ 0 <= st_applied_generation st).
  assert (HP : stable e undisturbed P). { intros h fs fs' Hr [H1 H2]. split; [by eapply files_are_stable|done]. }
  eapply (triple_mono E _ P); [| |intros r h fs H; exact H].
  { intros h fs [HPf [H|[[= ->] _]]]; (split; [done|]); [by eapply state_seen_nat|cbn; lia]. }
  eapply triple_bind; [apply (read_desired_spec e E undisturbed E_quiet E_others P HP)| |by intros ??? [[? _] _]].
  intros d. eapply (triple_mono E _ P); [by intros h fs [? _]| |intros r h fs H; exact H].
  eapply (triple_bind E P _ _ (fun _ => P)); [|intros m|by intros ??? [? _]].
  - unfold _mission_generation.
    eapply triple_bind; [eapply triple_attempt, (read_mission_spec e E undisturbed E_quiet E_others P HP)| |done].
    intros m. eapply (triple_mono E _ P _ _ (fun r => P)); [by intros h fs [? _]| |done].
    intros s Hr HPf. destruct m as [[m|]|x]; [..|destruct x]; by split_and!.
  - eapply triple_bind; [apply (read_reserved_spec e E undisturbed E_quiet E_others P HP)| |by intros ??? [[? _] _]].
    intros rv. apply triple_ret. intros h fs [[HPf Ha] _]. split; [done|]. lia.
Qed.

Lemma write_desired_records v w (d : SupervisorDesired) :
  desired_wf d -> json_plain (JObj (desired_to_dict d)) = true ->
  T (files_are v w) (write_desired e d) (fun r h fs => files_are v w h fs
     /\ (r = Ok tt -> records e (de_commit d) (de_generation d) fs)).
Proof.
  intros Hwf Hpl. unfold write_desired. apply lift_path_spec; [by intros x h fs _ H; split|].
  intros dp Hdp. destruct paths_apart as [_ Hap]. destruct (Hap dp Hdp) as [Ha1 Ha2].
  eapply triple_mono; [done|apply (write_json_rule e E undisturbed E_quiet E_others _ (files_are_stable v w))|].
  intros r h fs' (fs & HPf & [[Hr ->]|(data & Hd & ->)]); [by split|]. split.
  - unfold files_are. rewrite !lookup_insert_ne by done. exact HPf.
  - intros _. exists d. split; [|done]. unfold desired_seen. rewrite Hdp. cbn [mbind res_bind]. rewrite lookup_insert_eq.
    apply seen_written. pose proof (desired_file d data Hwf Hpl Hd) as H. apply bind_Ok in H as (raw & Hraw & H). rewrite Hraw. cbn. by rewrite H.
Qed.

(** The intent is recorded when the request is granted. *)
Definition granted v w commit (r : res Z) (h : list lock) (fs : file_map) : Prop :=
  files_are v w h fs /\ match r with Ok g => records e commit g fs | Raise _ => True end.

Lemma write_intent_records v w commit repo uv_path worker_id :
  intent_plain commit repo uv_path worker_id = true ->
  T (files_are v w) (_write_run_intent_locked e commit repo uv_path worker_id false false) (granted v w commit).
Proof.
  intros Hp. unfold _write_run_intent_locked. eapply triple_bind; [apply next_spec| |by intros x h fs [? _]; split].
  intros g. set (P := fun h fs => files_are v w h fs /\ 0 <= g).
  assert (HP : stable e undisturbed P). { intros h fs fs' Hr [H1 H2]. split; [by eapply files_are_stable|done]. }
  eapply triple_bind.
  - apply (triple_call e E undisturbed E_quiet E_others P _ (fun r h fs => P h fs /\ exists now : instant, r = Ok (i_float now)) HP).
    intros ev h fs _ H. split; [done|]. by exists (ev_now ev).
  - intros now s Hr [[HPf Hg] [i [= ->]]].
    destruct (intent_wf g commit repo uv_path worker_id false i false Hg Hp) as [Hwf Hpl].
    assert (HT : T (files_are v w) (_ ← write_desired e (mkDesired SCHEMA_VERSION g commit repo uv_path worker_id false (i_float i) false); mret g)
              (granted v w commit)); [|by apply HT].
    eapply triple_bind; [by apply write_desired_records| |by intros x h fs [? _]; split].
    intros []. apply triple_ret. intros h fs [H1 H2]. split; [done|]. by apply H2.
  - intros x h fs [[H _] _]. by split.
Qed.

Lemma ensure_records v w commit repo uv_path worker_id :
  intent_plain commit repo uv_path worker_id = true ->
  T (files_are v w) (ensure_run_intent e commit repo uv_path worker_id) (granted v w commit).
Proof.
  intros Hp. unfold ensure_run_intent. apply lift_path_spec; [by intros x h fs _ H; split|].
  intros [t|] _; [|by apply triple_raise; intros h fs H; split].
  apply (triple_lock e E undisturbed E_quiet E_others _ _ _ _ (files_are_stable v w)); [|by intros x h fs H; split].
  intros h0 _. eapply (triple_mono E _ (files_are v w)); [by intros h fs [_ H]| |intros r h fs H; exact H].
  eapply triple_bind; [apply (read_desired_spec e E undisturbed E_quiet E_others _ (files_are_stable v w))| |by intros x h fs [? _]; split].
  intros [d|].
  - destruct (str_eqb_spec (de_commit d) commit) as [Hc|_]; [|by apply triple_raise; intros h fs [H _]; split].
    apply triple_ret. intros h fs [HPf [H|[? _]]]; [|done]. split; [done|]. by exists d.
  - eapply (triple_mono E _ (files_are v w)); [by intros h fs [H _]| |intros r h fs H; exact H].
    eapply (triple_bind E _ _ _ (fun _ => files_are v w)).
    + unfold mission_state_exists_strict. eapply triple_bind.
      * eapply triple_attempt, (triple_call e E undisturbed E_quiet E_others _ _ (fun _ => files_are v w) (files_are_stable v w)).
        intros ev h fs _ H. cbn. by destruct (ev_fault ev).
      * intros r. eapply (triple_mono E _ (files_are v w) _ _ (fun _ => files_are v w)); [done| |done].
        intros s Hr H. destruct r as [?|x]; [|destruct x]; by split_and!.
      * done.
    + intros [|]; [apply triple_raise; intros h fs H; by split|].
      eapply triple_mono; [intros h fs H; exact H|by apply write_intent_records|done].
    + intros x h fs H. by split.
Qed.

(** ** The acknowledgment *)

(** [q] acknowledges the request with [ok]: a success names the generation of a
    recorded intent for [commit]. *)
Definition acknowledged (commit : pystr) (ok : bool) (fs : file_map) : Prop :=
  exists generation error data, fs !! q = Some (Bytes data) /\ json_file (ack_dict ok generation error) = Ok data
  /\ (ok = true -> exists g, generation = Some g /\ records e commit g fs).

Definition processed v commit (r : res bool) (_ : list lock) (fs : file_map) : Prop :=
  fs !! p = v /\ match r with Ok ok => acknowledged commit ok fs | Raise _ => True end.

Lemma ack_written v w commit ok generation error (P : list lock -> file_map -> Prop) :
  stable e undisturbed P -> (forall h fs, P h fs -> files_are v w h fs) ->
  (ok = true -> exists g, generation = Some g /\ forall h fs, P h fs -> records e commit g fs) ->
  T P (_ ← _write_pending_ack e request_id ok generation error; mret ok) (processed v commit).
Proof.
  intros HP Hfiles Hok. destruct paths_apart as [Hpq Hap]. unfold _write_pending_ack.
  eapply triple_bind.
  - apply lift_path_spec; [intros x h fs Hx; by rewrite Hq in Hx|]. intros q' Hq'.
    assert (q' = q) as -> by (rewrite Hq in Hq'; congruence).
    apply (write_json_rule e E undisturbed E_quiet E_others P HP).
  - intros []. apply triple_ret. intros h fs' (fs & HPf & [[Hr _]|(data & Hd & ->)]); [done|].
    destruct (Hfiles h fs HPf) as [Hv _]. split; [by rewrite lookup_insert_ne|].
    exists generation, error, data. split_and!; [apply lookup_insert_eq|done|]. intros Ht. destruct (Hok Ht) as (g & Hg & Hrec).
    exists g. split; [done|]. destruct (Hrec h fs HPf) as (d & Hd1 & Hd2). exists d. split; [|done].
    rewrite <- Hd1. unfold desired_seen. destruct (desired_path e) as [dp|] eqn:Edp; [|done]. cbn [mbind res_bind].
    rewrite lookup_insert_ne; [done|]. intros ->. by apply (Hap dp).
  - intros x h fs' (fs & HPf & [[_ ->]|(data & _ & ->)]); (split; [|done]); destruct (Hfiles h fs HPf) as [Hv _]; [done|].
    by rewrite lookup_insert_ne.
Qed.

Lemma refused v w commit error : T (files_are v w) (refuse e request_id error) (processed v commit).
Proof. by apply (ack_written v w commit false None (Some error) (files_are v w)). Qed.

Lemma string_or_wf d k : json_plain (JObj d) = true -> str_wf (string_or (dict_get d k) []) = true.
Proof.
  intros H%(dict_get_plain _ k). by destruct (dict_get d k).
Qed.

Lemma promote_validated v w d commit :
  json_plain (JObj d) = true -> dict_get d (py "commit") = JStr commit ->
  T (files_are v w) (_promote_pending_request_validated e d request_id) (processed v commit).
Proof.
  intros Hpl Hcommit. unfold _promote_pending_request_validated. rewrite Hcommit.
  destruct commit as [|c commit']; [apply refused|]. set (commit := c :: commit') in *.
  eapply triple_bind; [eapply triple_attempt, (ensure_records v w)| |done].
  { unfold intent_plain. rewrite !string_or_wf by done. pose proof (dict_get_plain d (py "commit") Hpl) as H. rewrite Hcommit in H.
    cbn [json_plain] in H. rewrite H. pose proof (dict_get_plain d (py "worker_id") Hpl) as Hw. by destruct (dict_get d (py "worker_id")). }
  intros [g|x].
  - eapply triple_mono; [done|apply (ack_written v w commit true (Some g) None (fun h fs => files_are v w h fs /\ records e commit g fs))|done].
    + apply records_stable.
    + by intros h fs [H _].
    + intros _. exists g. split; [done|]. by intros h fs [_ H].
  - apply (triple_mono E _ (files_are v w) _ _ (processed v commit)); [by intros h fs [H _]| |done].
    destruct x; first [apply refused|by apply triple_raise; intros h fs [H _]; split].
Qed.

(** How the promotion of a request with content [v] ends. *)
Definition promoted v commit (r : res bool) (fs : file_map) : Prop :=
  (fs !! p = v \/ fs !! p = None /\ exists ok, acknowledged commit ok fs)
  /\ (r = Ok true -> fs !! p = None /\ acknowledged commit true fs).

Lemma promote_spec v w raw d commit :
  file_text v = Ok raw -> json_loads raw = Ok (JObj d) -> json_plain (JObj d) = true ->
  dict_get d (py "request_id") = JStr request_id -> dict_get d (py "commit") = JStr commit ->
  T (files_are v w) (promote_pending_request e) (fun r _ fs => promoted v commit r fs).
Proof.
  intros Hraw Hload Hpl Hid Hcommit. unfold promote_pending_request. destruct paths_apart as [Hpq Hap].
  apply (triple_lock e E undisturbed E_quiet E_others _ _ _ _ (files_are_stable v w)); [|by intros x h fs [H _]; split; [left|]].
  intros h0 _. eapply (triple_mono E _ (files_are v w)); [by intros h fs [_ H]| |intros r h fs H; exact H].
  eapply (triple_bind E _ _ _ (fun r h fs => files_are v w h fs /\ (r = Ok None \/ r = Ok (Some d)))).
  - unfold _load_pending_request. eapply triple_bind;
      [eapply triple_attempt, (text_spec e E undisturbed E_quiet E_others _ p (files_are_stable v w))| |done].
    intros r s Hr [HPf H]. assert (Hr' : r = Ok raw \/ r = Raise OSError).
    { destruct H as [->|[-> _]]; [left|by right]. destruct HPf as [-> _]. done. }
    destruct Hr' as [->| ->]; cbn; [rewrite Hload|]; split_and!; auto.
  - intros o. destruct o as [d'|]; [|by apply triple_ret; intros h fs [[H _] _]; split; [left|]].
    intros s Hr [HPf [|[= ->]]]; [done|]. revert s Hr HPf. rewrite Hid.
    assert (validate_pending_request_id request_id = Ok request_id) as ->.
    { pose proof Hq as H. unfold pending_request_ack_path in H. apply bind_Ok in H as (i & Hi & _). rewrite Hi.
      unfold validate_pending_request_id in Hi. by destruct (_ || _). }
    assert (HT : T (files_are v w) (processed ← _promote_pending_request_validated e d request_id; _ ← remove_durable e p; mret processed)
              (fun r _ fs => promoted v commit r fs)); [|exact HT].
    eapply triple_bind; [by apply promote_validated| |by intros x h fs [H _]; split; [left|]].
    intros ok. set (P := processed v commit (Ok ok)).
    assert (HP : stable e undisturbed P).
    { intros h fs fs' [HR Hw] [H1 (g & err & data & H2 & H3 & H4)]. pose proof HR as (R1 & R2 & R3). split; [by rewrite R1|].
      exists g, err, data. split_and!; [by rewrite R2|done|]. intros Ht. destruct (H4 Ht) as (g0 & Hg & Hrec). exists g0. split; [done|].
      by apply (records_stable v (Some (Bytes data)) commit g0 h fs fs'). }
    assert (Hdel : forall h fs, P h fs -> acknowledged commit ok (delete p fs)).
    { intros h fs [_ (g & err & data & H2 & H3 & H4)]. exists g, err, data. split_and!; [by rewrite lookup_delete_ne|done|].
      intros Ht. destruct (H4 Ht) as (g0 & Hg & d0 & Hd1 & Hd2). exists g0. split; [done|]. exists d0. split; [|done].
      rewrite <- Hd1. unfold desired_seen. destruct (desired_path e) as [dp|] eqn:Edp; [|done]. cbn [mbind res_bind].
      rewrite lookup_delete_ne; [done|]. intros Heq. destruct (Hap dp eq_refl). congruence. }
    eapply triple_bind; [apply (remove_rule e E undisturbed E_quiet E_others P HP)| |].
    + intros []. apply triple_ret. intros h fs' (fs & HPf & [[Hr _]| ->]); [done|]. split.
      * right. split; [apply lookup_delete_eq|]. exists ok. by eapply Hdel.
      * intros [= ->]. split; [apply lookup_delete_eq|]. by eapply Hdel.
    + intros x h fs' (fs & HPf & [[_ ->]| ->]); (split; [|done]); [left; by destruct HPf|right].
      split; [apply lookup_delete_eq|]. exists ok. by eapply Hdel.
  - by intros x h fs [[H _] _]; split; [left|].
Qed.
End promotion.

(** C24: Whatever calls fail, while the other processes leave the request, its
    acknowledgment and the run intent alone: a well-formed pending request is
    removed only after its acknowledgment is on disk, and when the promotion
    reports success, the acknowledgment is a success that names the generation of
    the recorded run intent for the requested commit. *)
Theorem request_acknowledged_before_removal e s request_id q data raw d commit :
  pending_request_ack_path e request_id = Ok q ->
  (forall ev, In ev (events s) -> forall fs, undisturbed e q fs (ev_others ev fs)) ->
  files s !! pending_request_path e = Some (Bytes data) -> decode_text data = Ok raw ->
  json_loads raw = Ok (JObj d) -> json_plain (JObj d) = true ->
  dict_get d (py "request_id") = JStr request_id -> dict_get d (py "commit") = JStr commit ->
  let '(r, s') := promote_pending_request e s in
  promoted e q (Some (Bytes data)) commit r (files s').
Proof.
  intros Hq Ho Hp Hraw Hload Hpl Hid Hcommit.
  assert (He : forall ev, event_of s ev -> forall h fs, undisturbed e q fs (others_act e h (ev_others ev) fs)).
  { intros ev [Hev| ->] h fs; apply masked_undisturbed; [by apply Ho|by split_and!]. }
  destruct (promote_spec e request_id q Hq (event_of s) (event_of_quiet s) He (Some (Bytes data)) (files s !! q) raw d commit
    Hraw Hload Hpl Hid Hcommit s (event_of_respectful s) (conj Hp eq_refl)) as (_ & _ & H).
  by destruct (promote_pending_request e s).
Qed.

Definition a_request_id : pystr := List.repeat 98 32.
Definition a_request : dict := sorted_dict (pending_dict (py "c0ffee") (py "/repo") (py "/uv") None a_request_id).
Definition a_request_text : pystr := match json_dumps_sorted (JObj a_request) with Ok t => t ++ [10] | Raise _ => [] end.
(** The removal of the request fails. *)
Definition requested : store :=
  mkStore {[pending_request_path an_environ := Bytes a_request_text]} [] (List.repeat quiet_event 11 ++ [mkEvent id (Refused false) epoch]).

Lemma request_acknowledged_before_removal_witness :
  exists q, let '(r, s') := promote_pending_request an_environ requested in
  promoted an_environ q (Some (Bytes a_request_text)) (py "c0ffee") r (files s').
Proof.
  eexists. apply (request_acknowledged_before_removal an_environ requested a_request_id _ a_request_text a_request_text a_request (py "c0ffee")).
  - vm_compute. reflexivity.
  - intros ev Hin fs. replace (ev_others ev fs) with fs; [by split_and!|].
    cbn in Hin. repeat (destruct Hin as [<-|Hin]; [done|]). done.
  - vm_compute. reflexivity.
  - vm_compute. reflexivity.
  - vm_compute. reflexivity.
  - vm_compute. reflexivity.
  - vm_compute. reflexivity.
  - vm_compute. reflexivity.
Defined.

(** With every call succeeding, the request is promoted to generation 1. *)
Example promoted_alone :
  (promote_pending_request an_environ (mkStore (files requested) [] [])).1 = Ok true.
Proof. vm_compute. reflexivity. Qed.
