(* ===== verification/Programs.v ===== *)
(** Programs that ask the world: a [tree] asks questions of some interface and goes on
    with the answers; a [method] may raise, and changes what its object remembers.
    Nothing is assumed about the answers. *)

From S2P Require Import Prelude.
From stdpp Require Import base.

(** A program whose questions are [call]s: [call B] is a question answered by a [B]. *)
Inductive tree (call : Type -> Type) (A : Type) :=
  | Done (a : A)
  | Ask {B : Type} (c : call B) (k : B -> tree call A).
Arguments Done {call A} _.
Arguments Ask {call A B} _ _.

(** A method: it may raise, and changes what the object remembers. *)
Definition method (call : Type -> Type) (memory A : Type) : Type := memory -> tree call (res A * memory).

Section programs.
Context {call : Type -> Type} {memory : Type}.

#[local] Abbreviation tree := (tree call).
#[local] Abbreviation method := (method call memory).

#[export] Instance tree_bind : MBind tree := fun A B f =>
  fix go t := match t with Done a => f a | Ask c k => Ask c (fun b => go (k b)) end.

#[export] Instance method_ret : MRet method := fun A a d => Done (Ok a, d).
#[export] Instance method_bind : MBind method := fun A B f m d =>
  mbind (M := tree) (fun rd : res A * memory =>
    match rd with
    | (Ok a, d') => f a d'
    | (Raise x, d') => Done (Raise x, d')
    end) (m d).

Definition raise {A} (x : exn) : method A := fun d => Done (Raise x, d).
Definition of_res {A} (r : res A) : method A := fun d => Done (r, d).
Definition ask {B} (c : call B) : method B := fun d => Ask c (fun b => Done (Ok b, d)).
Definition ask_res {B} (c : call (res B)) : method B := fun d => Ask c (fun r => Done (r, d)).
Definition self : method memory := fun d => Done (Ok d, d).
Definition update (f : memory -> memory) : method unit := fun d => Done (Ok tt, f d).

(** The outcome of [m], an exception included. *)
Definition outcome {A} (m : method A) : method (res A) := fun d =>
  mbind (M := tree) (fun rd : res A * memory => Done (Ok rd.1, rd.2)) (m d).

(** [try: m finally: last] *)
Definition finally {A} (m : method A) (last : method unit) : method A :=
  r ← outcome m; _ ← last; of_res r.
End programs.

(** [zoom get put m]: [m] run on a part of the object. *)
Definition zoom {call : Type -> Type} {memory part A : Type} (get : memory -> part) (put : part -> memory -> memory)
    (m : method call part A) : method call memory A := fun d =>
  mbind (M := tree call) (fun rp : res A * part => Done (rp.1, put rp.2 d)) (m (get d)).

(** Traces of programs, and the rules that show every trace is accepted by a monitor.

    A monitor reads the questions and answers of a run in order and gives up on
    the first question it forbids.  [watched] holds of a method when no answers
    lead it to a forbidden question; it composes along the method's text. *)

(** ** Runs *)

Section runs.
Context {call : Type -> Type}.

Inductive exchange :=
  | Exchange {B : Type} (c : call B) (answer : B).

(** [runs t tr a]: [t] may ask and be answered [tr], and end with [a]. *)
Inductive runs {A : Type} : tree call A -> list exchange -> A -> Prop :=
  | runs_done a : runs (Done a) [] a
  | runs_ask {B} (c : call B) (k : B -> tree call A) b tr a :
      runs (k b) tr a -> runs (Ask c k) (Exchange c b :: tr) a.

Lemma runs_done_inv {A : Type} (a : A) tr a' : runs (Done a) tr a' -> tr = [] /\ a' = a.
Proof.
  intros H. refine (match H in runs t tr a' return match t with Done a => tr = [] /\ a' = a | Ask _ _ => True end with
                    | runs_done a => conj eq_refl eq_refl | runs_ask _ _ _ _ _ _ => I end).
Qed.

Lemma runs_ask_inv {A B : Type} (c : call B) (k : B -> tree call A) tr a :
  runs (Ask c k) tr a -> exists b tr', tr = Exchange c b :: tr' /\ runs (k b) tr' a.
Proof.
  intros H. refine (match H in runs t tr a return match t with Done _ => True | Ask c k => exists b tr', tr = Exchange c b :: tr' /\ runs (k b) tr' a end with
                    | runs_done _ => I | runs_ask c k b tr a Hr => _ end).
  exists b, tr. by split.
Qed.

Lemma runs_seq {A B : Type} (t : tree call A) (f : A -> tree call B) tr tr' a b :
  runs t tr a -> runs (f a) tr' b -> runs (mbind (M := tree call) f t) (tr ++ tr') b.
Proof. intros H Hf. induction H as [a|C c k x tr a H IH]; cbn; [done|]. constructor. by apply IH. Qed.

Lemma runs_seq_inv {A B : Type} (t : tree call A) (f : A -> tree call B) tr b :
  runs (mbind (M := tree call) f t) tr b -> exists a tr1 tr2, tr = tr1 ++ tr2 /\ runs t tr1 a /\ runs (f a) tr2 b.
Proof.
  revert tr. induction t as [a|C c k IH]; cbn; intros tr H; [exists a, [], tr; split; [done|]; by split; [constructor|]|].
  apply runs_ask_inv in H as (x & tr' & -> & H). apply IH in H as (a & tr1 & tr2 & -> & H1 & H2).
  exists a, (Exchange c x :: tr1), tr2. split; [done|]. by split; [constructor|].
Qed.

(** The run against a world that answers from its state. *)
Fixpoint drive {S A : Type} (answer : S -> forall B : Type, call B -> B * S) (t : tree call A) (st : S) : list exchange * A :=
  match t with
  | Done a => ([], a)
  | Ask c k =>
      let '(b, st') := answer st _ c in
      let '(tr, a) := drive answer (k b) st' in (Exchange c b :: tr, a)
  end.

Lemma drive_runs {S A : Type} (answer : S -> forall B : Type, call B -> B * S) (t : tree call A) st :
  runs t (drive answer t st).1 (drive answer t st).2.
Proof.
  revert st. induction t as [a|B c k IH]; intros st; cbn; [constructor|].
  destruct (answer st B c) as [b st']. specialize (IH b st'). destruct (drive answer (k b) st') as [tr a]. by constructor.
Qed.

End runs.
Arguments exchange : clear implicits.

(** The runs of a method, by its text. *)
Section method_runs.
Context {call : Type -> Type} {memory : Type}.
Abbreviation method := (method call memory).

Lemma runs_bind_inv {A B : Type} (m : method A) (f : A -> method B) d tr r :
  runs ((m ≫= f) d) tr r ->
  exists tr1 r1 d1, runs (m d) tr1 (r1, d1) /\
    match r1 with Ok a => exists tr2, tr = tr1 ++ tr2 /\ runs (f a d1) tr2 r | Raise x => tr = tr1 /\ r = (Raise x, d1) end.
Proof.
  intros H. apply runs_seq_inv in H as ([r1 d1] & tr1 & tr2 & -> & H1 & H2). exists tr1, r1, d1. split; [done|].
  destruct r1 as [a|x]; [by exists tr2|]. apply runs_done_inv in H2 as [-> ->]. by rewrite app_nil_r.
Qed.
Lemma runs_bind {A B : Type} (m : method A) (f : A -> method B) d tr1 a d1 tr2 r :
  runs (m d) tr1 (Ok a, d1) -> runs (f a d1) tr2 r -> runs ((m ≫= f) d) (tr1 ++ tr2) r.
Proof. intros H1 H2. by eapply runs_seq. Qed.

Lemma runs_mret_inv {A : Type} (a : A) (d : memory) tr r : runs ((mret a : method A) d) tr r -> tr = [] /\ r = (Ok a, d).
Proof. apply runs_done_inv. Qed.
Lemma runs_raise_inv {A : Type} x (d : memory) tr r : runs ((raise x : method A) d) tr r -> tr = [] /\ r = (Raise x, d).
Proof. apply runs_done_inv. Qed.
Lemma runs_of_res_inv {A : Type} (v : res A) (d : memory) tr r : runs ((of_res v : method A) d) tr r -> tr = [] /\ r = (v, d).
Proof. apply runs_done_inv. Qed.
Lemma runs_ask_ok_inv {B : Type} (c : call B) (d : memory) tr r :
  runs (ask c d) tr r -> exists b, tr = [Exchange c b] /\ r = (Ok b, d).
Proof. intros H. apply runs_ask_inv in H as (b & ? & -> & H). apply runs_done_inv in H as [-> ->]. by exists b. Qed.
Lemma runs_ask_res_inv {B : Type} (c : call (res B)) (d : memory) tr r :
  runs (ask_res c d) tr r -> exists b, tr = [Exchange c b] /\ r = (b, d).
Proof. intros H. apply runs_ask_inv in H as (b & ? & -> & H). apply runs_done_inv in H as [-> ->]. by exists b. Qed.
Lemma runs_outcome_inv {A : Type} (m : method A) d tr r :
  runs (outcome m d) tr r -> exists r1 d1, runs (m d) tr (r1, d1) /\ r = (Ok r1, d1).
Proof.
  intros H. apply runs_seq_inv in H as ([r1 d1] & tr1 & tr2 & -> & H1 & H2). apply runs_done_inv in H2 as [-> ->].
  rewrite app_nil_r. by exists r1, d1.
Qed.
Lemma runs_outcome {A : Type} (m : method A) d tr r1 d1 : runs (m d) tr (r1, d1) -> runs (outcome m d) tr (Ok r1, d1).
Proof. intros H. rewrite <-(app_nil_r tr). eapply runs_seq; [done|]. constructor. Qed.

Lemma runs_finally_inv {A : Type} (m : method A) last d tr r :
  runs (finally m last d) tr r -> exists r1 d1 tr1 r2 d2 tr2, runs (m d) tr1 (r1, d1) /\ runs (last d1) tr2 (r2, d2)
    /\ tr = tr1 ++ tr2 /\ r = (match r2 with Ok _ => r1 | Raise x => Raise x end, d2).
Proof.
  intros H. apply runs_bind_inv in H as (tr1 & ? & ? & (r1 & d1 & H1 & [= -> ->])%runs_outcome_inv & tr2 & -> & H2).
  apply runs_bind_inv in H2 as (tr2' & r2 & d2 & Hl & H2). exists r1, d1, tr1, r2, d2, tr2'. split; [done|]. split; [done|].
  destruct r2 as [u|x]; [destruct H2 as (tr3 & -> & [-> ->]%runs_of_res_inv); by rewrite app_nil_r|by destruct H2 as [-> ->]].
Qed.

Lemma runs_finally {A : Type} (m : method A) last d tr1 r1 d1 tr2 d2 :
  runs (m d) tr1 (r1, d1) -> runs (last d1) tr2 (Ok tt, d2) -> runs (finally m last d) (tr1 ++ tr2) (r1, d2).
Proof.
  intros H1 H2. eapply runs_bind; [by apply runs_outcome|]. rewrite <-(app_nil_r tr2). eapply runs_bind; [done|]. constructor.
Qed.

Lemma runs_ask_one {B : Type} (c : call B) b (d : memory) : runs (ask c d) [Exchange c b] (Ok b, d).
Proof. repeat constructor. Qed.
Lemma runs_ask_res_one {B : Type} (c : call (res B)) b (d : memory) : runs (ask_res c d) [Exchange c b] (b, d).
Proof. repeat constructor. Qed.
End method_runs.

(** Follow the run [H] of a method, question by question. *)
Ltac run_step H :=
  lazymatch type of H with
  | runs ((_ ≫= _) _) _ _ =>
      let H1 := fresh "Hfirst" in
      apply runs_bind_inv in H as (? & ? & ? & H1 & H); run_step H1; cbn beta iota in H
  | runs (mret _ _) _ _ => apply runs_mret_inv in H as [? ?]; simplify_eq
  | runs (raise _ _) _ _ => apply runs_raise_inv in H as [? ?]; simplify_eq
  | runs (of_res _ _) _ _ => apply runs_of_res_inv in H as [? ?]; simplify_eq
  | runs (ask _ _) _ _ => apply runs_ask_ok_inv in H as (? & ? & ?); simplify_eq
  | runs (ask_res _ _) _ _ => apply runs_ask_res_inv in H as (? & ? & ?); simplify_eq
  | runs (outcome _ _) _ _ => apply runs_outcome_inv in H as (? & ? & H & ?); simplify_eq; run_step H
  | runs (match ?x with _ => _ end _) _ _ => destruct x eqn:?
  | match ?x with _ => _ end => destruct x eqn:?
  | ex _ => destruct H as (? & ? & H); simplify_eq
  | _ /\ _ => destruct H as [? ?]; simplify_eq
  end.
Ltac run_through H := repeat (run_step H; try done).

Section monitor.
Context {call : Type -> Type} {memory W : Type} (step : W -> forall B : Type, call B -> B -> option W).

Fixpoint accepts (w : W) (tr : list (exchange call)) : option W :=
  match tr with
  | [] => Some w
  | Exchange c b :: tr => match step w _ c b with Some w' => accepts w' tr | None => None end
  end.

Fixpoint safe {A : Type} (t : tree call A) (Q : A -> W -> Prop) (w : W) : Prop :=
  match t with
  | Done a => Q a w
  | Ask c k => forall b, match step w _ c b with Some w' => safe (k b) Q w' | None => False end
  end.

Lemma safe_runs {A : Type} (t : tree call A) Q w tr a :
  safe t Q w -> runs t tr a -> exists w', accepts w tr = Some w' /\ Q a w'.
Proof.
  intros Hs Hr. revert w Hs. induction Hr as [a|B c k b tr a Hr IH]; cbn; intros w Hs; [by exists w|].
  specialize (Hs b). destruct (step w B c b) as [w'|]; [by apply IH|done].
Qed.

Lemma safe_mono {A : Type} (t : tree call A) (Q Q' : A -> W -> Prop) w :
  safe t Q w -> (forall a w', Q a w' -> Q' a w') -> safe t Q' w.
Proof.
  intros Hs HQ. revert w Hs. induction t as [a|B c k IH]; cbn; intros w Hs; [by apply HQ|].
  intros b. specialize (Hs b). destruct (step w B c b); [by apply IH|done].
Qed.

Lemma safe_seq {A B : Type} (t : tree call A) (f : A -> tree call B) Q w :
  safe t (fun a w' => safe (f a) Q w') w -> safe (mbind (M := tree call) f t) Q w.
Proof.
  revert w. induction t as [a|C c k IH]; cbn; intros w Hs; [done|].
  intros b. specialize (Hs b). destruct (step w C c b); [by apply IH|done].
Qed.

(** ** Methods *)

Abbreviation condition := (memory -> W -> Prop).

Definition watched {A : Type} (P : condition) (m : method call memory A) (Q : res A -> condition) : Prop :=
  forall d w, P d w -> safe (m d) (fun rd w' => Q rd.1 rd.2 w') w.

Lemma watched_runs {A : Type} P (m : method call memory A) Q d w tr rd :
  watched P m Q -> P d w -> runs (m d) tr rd -> exists w', accepts w tr = Some w' /\ Q rd.1 rd.2 w'.
Proof. intros Hm HP Hr. by apply (safe_runs (m d) (fun rd w' => Q rd.1 rd.2 w') w tr rd (Hm d w HP) Hr). Qed.

Lemma watched_mono {A : Type} (P P' : condition) (m : method call memory A) (Q Q' : res A -> condition) :
  watched P m Q -> (forall d w, P' d w -> P d w) -> (forall r d w, Q r d w -> Q' r d w) -> watched P' m Q'.
Proof. intros Hm HP HQ d w H. eapply safe_mono; [by apply Hm, HP|]. intros rd w'. apply HQ. Qed.

Lemma watched_bind {A B : Type} (P : condition) (m : method call memory A) (f : A -> method call memory B) (M : res A -> condition) (Q : res B -> condition) :
  watched P m M -> (forall a, watched (M (Ok a)) (f a) Q) -> (forall x d w, M (Raise x) d w -> Q (Raise x) d w) ->
  watched P (m ≫= f) Q.
Proof.
  intros Hm Hf Hx d w HP. apply safe_seq. eapply safe_mono; [by apply Hm|].
  intros [[a|x] d'] w' HM; cbn in *; [by apply Hf|by apply Hx].
Qed.

Lemma watched_ret {A : Type} (P : condition) (a : A) (Q : res A -> condition) :
  (forall d w, P d w -> Q (Ok a) d w) -> watched P (mret a) Q.
Proof. intros H d w HP. by apply H. Qed.

Lemma watched_raise {A : Type} (P : condition) x (Q : res A -> condition) :
  (forall d w, P d w -> Q (Raise x) d w) -> watched P (raise x) Q.
Proof. intros H d w HP. by apply H. Qed.

Lemma watched_of_res {A : Type} (P : condition) (r : res A) (Q : res A -> condition) :
  (forall d w, P d w -> Q r d w) -> watched P (of_res r) Q.
Proof. intros H d w HP. by apply H. Qed.

Lemma watched_self (P : condition) (Q : res memory -> condition) :
  (forall d w, P d w -> Q (Ok d) d w) -> watched P self Q.
Proof. intros H d w HP. by apply H. Qed.

Lemma watched_update (P : condition) f (Q : res unit -> condition) :
  (forall d w, P d w -> Q (Ok tt) (f d) w) -> watched P (update f) Q.
Proof. intros H d w HP. by apply H. Qed.

Lemma watched_ask {B : Type} (P : condition) (c : call B) (Q : res B -> condition) :
  (forall d w b, P d w -> exists w', step w _ c b = Some w' /\ Q (Ok b) d w') -> watched P (ask c) Q.
Proof. intros H d w HP b. destruct (H d w b HP) as (w' & -> & HQ). exact HQ. Qed.

Lemma watched_ask_res {B : Type} (P : condition) (c : call (res B)) (Q : res B -> condition) :
  (forall d w r, P d w -> exists w', step w _ c r = Some w' /\ Q r d w') -> watched P (ask_res c) Q.
Proof. intros H d w HP b. destruct (H d w b HP) as (w' & -> & HQ). exact HQ. Qed.

Lemma watched_outcome {A : Type} (P : condition) (m : method call memory A) (Q : res A -> condition) :
  watched P m Q -> watched P (outcome m) (fun r d w => match r with Ok r => Q r d w | Raise _ => False end).
Proof. intros Hm d w HP. apply safe_seq. eapply safe_mono; [by apply Hm|]. by intros [r d'] w'. Qed.

Lemma watched_finally {A : Type} (P : condition) (m : method call memory A) (last : method call memory unit) (M Q : res A -> condition) :
  watched P m M -> (forall r, watched (M r) last (fun r' => match r' with Ok _ => Q r | Raise x => Q (Raise x) end)) ->
  watched P (finally m last) Q.
Proof.
  intros Hm Hl. unfold finally. eapply watched_bind; [by apply watched_outcome|intros r|done].
  eapply watched_bind; [apply Hl| |by intros x d w].
  intros []. by apply watched_of_res.
Qed.

(** ** Methods that keep a condition *)

(** [keeps I m]: [m] asks nothing forbidden while [I] holds, and keeps [I]. *)
Definition keeps {A : Type} (I : condition) (m : method call memory A) : Prop := watched I m (fun _ => I).

Lemma keeps_bind {A B : Type} I (m : method call memory A) (f : A -> method call memory B) :
  keeps I m -> (forall a, keeps I (f a)) -> keeps I (m ≫= f).
Proof. intros Hm Hf. by eapply watched_bind. Qed.

(** A first part that keeps the precondition. *)
Lemma watched_keeps {A B : Type} (P : condition) (m : method call memory A) (f : A -> method call memory B) Q :
  keeps P m -> (forall x d w, P d w -> Q (Raise x) d w) -> (forall a, watched P (f a) Q) -> watched P (m ≫= f) Q.
Proof. intros Hm Hx Hf. by eapply watched_bind. Qed.

(** The whole of [m] keeps the precondition, and that is enough. *)
Lemma watched_kept {A : Type} (P I : condition) (m : method call memory A) (Q : res A -> condition) :
  keeps I m -> (forall d w, P d w -> I d w) -> (forall r d w, I d w -> Q r d w) -> watched P m Q.
Proof. intros Hm HP HQ. by eapply watched_mono. Qed.

Lemma keeps_ret {A : Type} I (a : A) : keeps I (mret a).
Proof. by apply watched_ret. Qed.
Lemma keeps_raise {A : Type} I x : keeps (A := A) I (raise x).
Proof. by apply watched_raise. Qed.
Lemma keeps_of_res {A : Type} I (r : res A) : keeps I (of_res r).
Proof. by apply watched_of_res. Qed.
Lemma keeps_self I : keeps I self.
Proof. by apply watched_self. Qed.
Lemma keeps_update I f : (forall d w, I d w -> I (f d) w) -> keeps I (update f).
Proof. intros H. by apply watched_update. Qed.

Lemma keeps_outcome {A : Type} I (m : method call memory A) : keeps I m -> keeps I (outcome m).
Proof. intros H. eapply watched_mono; [by apply watched_outcome|done|]. by intros [?|?]. Qed.

Lemma keeps_finally {A : Type} I (m : method call memory A) last : keeps I m -> keeps I last -> keeps I (finally m last).
Proof. intros Hm Hl. eapply watched_finally; [exact Hm|]. intros r. eapply watched_mono; [exact Hl|done|]. by intros [?|?]. Qed.

(** A question the monitor does not mind: it is always accepted, and keeps [I]. *)
Definition harmless {B : Type} (I : condition) (c : call B) : Prop :=
  forall d w b, I d w -> exists w', step w _ c b = Some w' /\ I d w'.

Lemma keeps_ask {B : Type} I (c : call B) : harmless I c -> keeps I (ask c).
Proof. intros H. apply watched_ask. intros d w b HP. by apply H. Qed.
Lemma keeps_ask_res {B : Type} I (c : call (res B)) : harmless I c -> keeps I (ask_res c).
Proof. intros H. apply watched_ask_res. intros d w b HP. by apply H. Qed.

(** Look at what the object remembers, and go on knowing it. *)
Lemma watched_self_bind {A : Type} (P : condition) (f : memory -> method call memory A) Q :
  (forall d, watched (fun d' w => P d' w /\ d' = d) (f d) Q) -> watched P (self ≫= f) Q.
Proof. intros Hf d w HP. by apply (Hf d d w). Qed.

Lemma watched_false {A : Type} (P : condition) (m : method call memory A) Q : (forall d w, ~ P d w) -> watched P m Q.
Proof. intros H d w HP. by destruct (H d w HP). Qed.
End monitor.

(** ** Facts a run does not take away *)

(** [more w w']: what the monitor knows in [w] it still knows in [w']. *)
Section lasting.
Context {call : Type -> Type} {W : Type} (step : W -> forall B : Type, call B -> B -> option W) (more : W -> W -> Prop).
Context `{!PreOrder more} (Hstep : forall w B c b w', step w B c b = Some w' -> more w w').

Definition lasting (F : W -> Prop) : Prop := forall w w', more w w' -> F w -> F w'.

Lemma safe_more {A : Type} (t : tree call A) Q w : safe step t Q w -> safe step t (fun a w' => Q a w' /\ more w w') w.
Proof.
  revert w. induction t as [a|B c k IH]; cbn; intros w H; [by split|].
  intros b. specialize (H b). destruct (step w B c b) as [w'|] eqn:Hs; [|done].
  eapply safe_mono; [apply IH, H|]. intros a w'' [Ha Hm]. split; [done|]. etrans; [by eapply Hstep|done].
Qed.

Lemma watched_lasting {memory A : Type} F P (m : method call memory A) Q : lasting F ->
  watched step P m Q -> watched step (fun d w => P d w /\ F w) m (fun r d w => Q r d w /\ F w).
Proof.
  intros HF Hm d w [HP Hw]. eapply safe_mono; [by apply safe_more, Hm|]. intros a w' [Ha Hg]. split; [done|by eapply HF].
Qed.
End lasting.

(** A method on a part of the object. *)
Lemma watched_zoom {call : Type -> Type} {memory part W A : Type} (step : W -> forall B : Type, call B -> B -> option W)
    (get : memory -> part) put (P : memory -> W -> Prop) (m : method call part A) (Q : res A -> memory -> W -> Prop) :
  (forall d, watched step (fun l w => l = get d /\ P d w) m (fun r l w => Q r (put l d) w)) -> watched step P (zoom get put m) Q.
Proof. intros H d w HP. apply safe_seq. eapply safe_mono; [by apply (H d (get d) w)|]. by intros [r l] w'. Qed.

(** Walk a method's text; [known] knows the questions, [remembered] the changes. *)
Ltac keep_step known remembered :=
  lazymatch goal with
  | |- keeps _ _ (mbind _ _) => apply keeps_bind; [|intros ?]
  | |- keeps _ _ (mret _) => apply keeps_ret
  | |- keeps _ _ (raise _) => apply keeps_raise
  | |- keeps _ _ (of_res _) => apply keeps_of_res
  | |- keeps _ _ self => apply keeps_self
  | |- keeps _ _ (outcome _) => apply keeps_outcome
  | |- keeps _ _ (finally _ _) => apply keeps_finally
  | |- keeps _ _ (ask _) => apply keeps_ask; solve [known]
  | |- keeps _ _ (ask_res _) => apply keeps_ask_res; solve [known]
  | |- keeps _ _ (update _) => apply keeps_update; intros ? ? ?; solve [remembered]
  | |- keeps _ _ (match ?x with _ => _ end) => destruct x
  | |- keeps _ _ (let _ := _ in _) => cbv zeta
  end.
