(* ===== verification/Daemon.v ===== *)
(** The supervisor daemon ([SupervisorDaemon] of [src/lubko/supervisor.py]): its
    settings, its decisions about generations and backoff, the state it keeps in
    memory, and the programs its methods are.

    A method is a program that asks the outside world and goes on with the answer
    ([tree]): an operation on the state files ([Files], one of [SupervisorFiles]),
    a statement on the authority row ([lifecycle_authority.py], [AuthorityDb]), a
    look at /proc, a process started, signalled or waited for.  Nothing is assumed
    about the answers: what [DaemonTheorems] proves holds whatever they are. *)

From S2P Require Import Prelude PyStr PyNum Json ProcFs LifecycleState AuthorityRow Durable StatePaths SupervisorCodec Store Mission SupervisorFiles Programs.
From Corelib Require Import SpecFloat.
From stdpp Require Import gmap.

#[local] Open Scope Z_scope.
#[local] Arguments py : simpl never.

(** ** Settings *)

Record Settings := mkSettings {
  poll_interval_seconds : pyfloat;
  backoff_base_seconds : pyfloat;
  backoff_max_seconds : pyfloat;
  stable_window_seconds : pyfloat;
  stop_grace_seconds : pyfloat;
  identity_timeout_seconds : pyfloat;
  postgres_timeout_seconds : pyfloat;
  lock_timeout_seconds : pyfloat;
  probe_timeout_seconds : pyfloat;
  readiness_interval_seconds : pyfloat;
  no_progress_grace_seconds : pyfloat;
  no_progress_required_probes : Z;
}.

Definition positive (f : pyfloat) : bool := float_ltb zero f.

(** [Settings.__post_init__] *)
Definition settings_valid (s : Settings) : bool :=
  forallb is_finite [poll_interval_seconds s; backoff_base_seconds s; backoff_max_seconds s; stable_window_seconds s;
    stop_grace_seconds s; identity_timeout_seconds s; postgres_timeout_seconds s; lock_timeout_seconds s;
    probe_timeout_seconds s; readiness_interval_seconds s; no_progress_grace_seconds s]
  && forallb positive [poll_interval_seconds s; backoff_base_seconds s; stable_window_seconds s; stop_grace_seconds s;
    identity_timeout_seconds s; postgres_timeout_seconds s; lock_timeout_seconds s; probe_timeout_seconds s;
    readiness_interval_seconds s; no_progress_grace_seconds s]
  && negb (float_ltb (backoff_max_seconds s) (backoff_base_seconds s))
  && (1 <=? no_progress_required_probes s).

(** The defaults of [Settings]. *)
Definition default_settings : Settings :=
  mkSettings (float_of_int 1) (float_of_int 2) (float_of_int 120) (float_of_int 30) (float_of_int 5) (float_of_int 5)
    (float_of_int 2) (float_of_int 5) (float_of_int 15) (float_of_int 5) (float_of_int 60) 3.

(** [2.0 ** exponent] for an exponent that is no less than 0. *)
Definition two_to_the (exponent : Z) : res pyfloat :=
  if 1023 <? exponent then Raise OverflowError else Ok (float_of_int (2 ^ exponent)).

Definition _backoff_seconds (s : Settings) (restart_count : Z) : res pyfloat :=
  p ← two_to_the (Z.max 0 (restart_count - 1));
  Ok (float_min (float_mul (backoff_base_seconds s) p) (backoff_max_seconds s)).

(** ** Which worker is intended *)

Inductive action := Run (commit : option pystr) | Hold.

Definition _derive_without_mission (desired_commit : option pystr) : action :=
  match desired_commit with Some c => Run (Some c) | None => Hold end.

Definition _derive_with_mission (mission : RollbackState) (desired_gen : Z) (desired_commit : option pystr) : action :=
  let pending := str_eqb (rb_status mission) PENDING in
  if rb_generation mission <? desired_gen then
    match desired_commit with Some c => Run (Some c) | None => Hold end
  else if pending && negb (owned (rb_supervisor_owned mission)) then Hold
  else if desired_gen <? rb_generation mission then
    if pending then Run (Some (rb_commit mission)) else Hold
  else if pending then
    match desired_commit with
    | Some c => if str_eqb (rb_commit mission) c then Run (Some (rb_commit mission)) else Hold
    | None => Hold
    end
  else Hold.

(** ** What the daemon remembers *)

Inductive QueueConsumption := CONSUMED | NOT_CONSUMED | INDETERMINATE.

Record _NoProgressEvidence := mkEvidenceOf {
  np_token : pystr;
  np_first_observed_at : pyfloat;
  np_consecutive_probes : Z;
}.

(** [proc] is the pid of the [Popen] handle held; [connected] whether the
    authority connection is open. *)
Record daemon := mkDaemon {
  proc : option Z;
  _authority : option AuthorityClaim;
  connected : bool;
  _active_child : option WorkerChild;
  _mem_next_attempt_at : option pyfloat;
  _no_progress : option _NoProgressEvidence;
}.

Definition set_proc (p : option Z) (d : daemon) : daemon :=
  mkDaemon p (_authority d) (connected d) (_active_child d) (_mem_next_attempt_at d) (_no_progress d).
Definition set_connected (c : bool) (d : daemon) : daemon :=
  mkDaemon (proc d) (_authority d) c (_active_child d) (_mem_next_attempt_at d) (_no_progress d).
Definition set_active (c : option WorkerChild) (d : daemon) : daemon :=
  mkDaemon (proc d) (_authority d) (connected d) c (_mem_next_attempt_at d) (_no_progress d).
Definition set_mem_next (t : option pyfloat) (d : daemon) : daemon :=
  mkDaemon (proc d) (_authority d) (connected d) (_active_child d) t (_no_progress d).
Definition set_no_progress (n : option _NoProgressEvidence) (d : daemon) : daemon :=
  mkDaemon (proc d) (_authority d) (connected d) (_active_child d) (_mem_next_attempt_at d) n.

(** [_note_progress_observation], of one probe. *)
Definition _note_progress_observation (child : WorkerChild) (consumption : QueueConsumption) (now : pyfloat)
    (n : option _NoProgressEvidence) : option _NoProgressEvidence :=
  match consumption with
  | CONSUMED => None
  | INDETERMINATE => n
  | NOT_CONSUMED =>
      let current := match n with Some c => c | None => mkEvidenceOf (ch_token child) now 0 end in
      Some (mkEvidenceOf (np_token current) (np_first_observed_at current) (np_consecutive_probes current + 1))
  end.

Definition _no_progress_evidence_confirms (s : Settings) (child : WorkerChild) (now : pyfloat)
    (n : option _NoProgressEvidence) : bool :=
  match n with
  | None => false
  | Some ev =>
      if negb (str_eqb (np_token ev) (ch_token child)) then false
      else if np_consecutive_probes ev <? no_progress_required_probes s then false
      else float_leb (no_progress_grace_seconds s) (float_sub now (np_first_observed_at ev))
  end.

(** ** Questions to the world *)

Inductive call : Type -> Type :=
  (** an operation on the state files *)
  | Files {A : Type} (m : io A) : call (res A)
  | Acquire (l : lock) : call (res unit)
  | Release (l : lock) : call unit
  | Monotonic : call pyfloat
  | Time : call pyfloat
  (** /proc, as one method call sees it *)
  | Proc : call procfs
  | BootId : call (option pystr)
  (** the authority row *)
  | Connect : call (res unit)
  | CloseConnection : call unit
  | ConfirmAuthority (claim : AuthorityClaim) : call (res bool)
  | ReadRow (server : pystr) : call (res (option AuthorityRow))
  | CommitSpawn (claim : AuthorityClaim) (spawn : SpawnObligation) : call (res bool)
  | ClearSpawn (claim : AuthorityClaim) : call (res bool)
  | PublishWorker (claim : AuthorityClaim) (spawn_token : pystr) (worker : WorkerRecord) : call (res bool)
  | ClearWorker (claim : AuthorityClaim) (token : pystr) : call (res bool)
  (** what [reconcile_authority_facts] reads *)
  | Sources : call sources
  | Failpoint (name : pystr) : call (res unit)
  (** processes: a [Popen] of the worker of a commit under a token, its handle *)
  | Popen (executable : path) (commit token worker_id : pystr) : call (res Z)
  | Poll (pid : Z) : call (option Z)
  | Wait (pid : Z) (timeout : pyfloat) : call (res Z)
  | WaitpidNoHang (pid : Z) : call (res unit)
  | Terminate (pid : Z) : call unit
  | Kill (pid : Z) : call unit
  | OpenPidfd (pid : Z) : call (res Z)
  | SignalPidfd (fd : Z) (forced : bool) : call unit
  | ClosePidfd (fd : Z) : call unit
  | Sleep (seconds : pyfloat) : call unit
  (** [lifecycle.py] and [worker.py] *)
  | StopWorker (meta : WorkerMeta) (grace : pyfloat) : call (res bool)
  | RecoverOwnedGroups (token : pystr) : call (res unit)
  | DrainSentinelMatches (token : pystr) : call bool
  | CheckReadiness (child : WorkerChild) (cwd : pystr) : call (res (bool * QueueConsumption))
  | WorkerHealthy (child : WorkerChild) : call (res bool)
  | SafetyBreach (child : WorkerChild) : call (res bool)
  | PublishSurfaces (token : pystr) : call (res unit)
  | PruneArtifacts (token : pystr) : call (res unit)
  (** the sealed runtimes ([cli.py]) *)
  | CurrentCommit : call (res (option pystr))
  | RuntimeIsUsable (commit : pystr) : call (res bool)
  | RuntimeSatisfies (commit : pystr) : call (res bool)
  | EntryExecutable (commit : pystr) : call (res (option path))
  (** identifiers and the host *)
  | TokenHex : call pystr
  | EnvWorkerId : call (option pystr)
  | Hostname : call pystr
  | PdeathsigSupported : call bool
  (** the parts of a tick that are not modelled *)
  | MaybeHandoff : call (res unit)
  | CompleteColdMigration : call (res unit)
  | ConvergeStartupArtifacts : call (res unit).

Abbreviation tree := (Programs.tree call).
(** A method: it may raise, and changes what the daemon remembers. *)
Abbreviation method := (Programs.method call daemon).

Definition with_lock_of {A} (l : lock) (body : method A) : method A :=
  _ ← ask_res (Acquire l); finally body (ask (Release l)).
