(* ===== verification/DaemonWorkers.v ===== *)
(** The daemon and the workers it finds ([SupervisorDaemon] of
    [src/lubko/supervisor.py]): the authority row seen through its connection, the
    published worker, its retirement, and the resolution of obligations left by an
    interrupted spawn. *)

From S2P Require Import Prelude PyStr PyNum Json ProcFs LifecycleState AuthorityRow Durable StatePaths SupervisorCodec Store Mission SupervisorFiles ControlRequests Programs Daemon.
From stdpp Require Import gmap.

#[local] Open Scope Z_scope.
#[local] Arguments py : simpl never.

(** ** Identities *)

(** [str(path)] *)
Definition path_text (p : path) : pystr := concat (map (fun n => 47 :: n) (rev p)).

(** [cli_commit_dir(commit)] *)
Definition cli_commit_dir (e : environ) (commit : pystr) : res path :=
  if COMMIT_RE commit then Ok (child_path (cli_root_dir e) commit) else Raise CliError.

Definition _runtime_dir (e : environ) (commit : option pystr) : res pystr :=
  match commit with
  | Some ((_ :: _) as c) => p ← cli_commit_dir e c; Ok (path_text p)
  | _ => Ok []
  end.

Definition worker_log_path (e : environ) (incarnation : pystr) : path :=
  child_path (child_path (worker_state_dir e) (py "logs")) (py "worker-" ++ incarnation ++ py ".log").

Definition _child_to_meta (e : environ) (child : WorkerChild) (repo : pystr) : WorkerMeta :=
  mkMeta WorkerMetadata.SCHEMA_VERSION STATE_RUNNING (Some (ch_pid child)) (Some (ch_pgid child)) (Some (ch_sid child))
    (Some (ch_start_time_ticks child)) (Some (ch_token child)) repo None (Some (ch_worker_id child))
    (path_text (worker_log_path e (ch_token child))) (Some (ch_spawned_at child)) None.

Definition _db_worker_meta (e : environ) (record : WorkerRecord) : res WorkerMeta :=
  repo ← _runtime_dir e (Some (wk_commit record));
  Ok (mkMeta WorkerMetadata.SCHEMA_VERSION STATE_RUNNING (Some (wk_pid record)) (Some (wk_pgid record)) (Some (wk_sid record))
        (Some (wk_start_time_ticks record)) (Some (wk_token record)) repo (Some (wk_commit record)) (Some (wk_worker_id record))
        (path_text (worker_log_path e (wk_token record))) None None).

Definition _db_worker_record (child : WorkerChild) (commit : pystr) : WorkerRecord :=
  mkWorker (ch_token child) commit (ch_pid child) (ch_pgid child) (ch_sid child) (ch_start_time_ticks child) (ch_worker_id child).

Definition _db_worker_to_child (record : WorkerRecord) (now : pyfloat) : WorkerChild :=
  mkChild (wk_pid record) (wk_pgid record) (wk_sid record) (wk_start_time_ticks record) (wk_token record) (wk_worker_id record) now.

Definition _db_spawn_record (o : SpawningObligation) : SpawnObligation :=
  mkSpawn (so_token o) (so_commit o) (so_creator_pid o) (so_creator_start_time_ticks o) (so_boot_id o) (so_pid o)
    (so_start_time_ticks o) (so_parent_death_signal o).

Definition _db_record_matches_child (record : option WorkerRecord) (child : WorkerChild) (commit : option pystr) : bool :=
  match record with
  | None => false
  | Some r =>
      match commit with Some c => str_eqb (wk_commit r) c | None => true end
      && str_eqb (wk_token r) (ch_token child) && (wk_pid r =? ch_pid child) && (wk_pgid r =? ch_pgid child)
      && (wk_sid r =? ch_sid child) && (wk_start_time_ticks r =? ch_start_time_ticks child)
      && str_eqb (wk_worker_id r) (ch_worker_id child)
  end.

Definition with_pid (pid ticks : option Z) (o : SpawningObligation) : SpawningObligation :=
  mkSpawning (so_token o) (so_commit o) (so_creator_pid o) (so_creator_start_time_ticks o) pid ticks (so_created_at o)
    (so_boot_id o) (so_parent_death_signal o).

(** [replace(state, unresolved_child=...)] and its likes *)
Definition with_unresolved (u : option UnresolvedChild) (s : SupervisorState) : SupervisorState :=
  mkState (st_schema_version s) (st_applied_generation s) (st_mode s) (st_commit s) (st_child s) u
    (st_ownership_hold_malformed s) (st_unresolved_hold_malformed s) (st_spawning s) (st_spawning_hold_malformed s) (st_intent s)
    (st_restart_count s) (st_next_attempt_at s) (st_last_exit s) (st_last_spawn_at s) (st_ready s)
    (st_next_readiness_at s) (st_boot_id s) (st_supervisor_runtime_commit s).
Definition with_child (c : option WorkerChild) (s : SupervisorState) : SupervisorState :=
  mkState (st_schema_version s) (st_applied_generation s) (st_mode s) (st_commit s) c (st_unresolved_child s)
    (st_ownership_hold_malformed s) (st_unresolved_hold_malformed s) (st_spawning s) (st_spawning_hold_malformed s) (st_intent s)
    (st_restart_count s) (st_next_attempt_at s) (st_last_exit s) (st_last_spawn_at s) (st_ready s)
    (st_next_readiness_at s) (st_boot_id s) (st_supervisor_runtime_commit s).
Definition with_next_attempt (t : option pyfloat) (s : SupervisorState) : SupervisorState :=
  mkState (st_schema_version s) (st_applied_generation s) (st_mode s) (st_commit s) (st_child s) (st_unresolved_child s)
    (st_ownership_hold_malformed s) (st_unresolved_hold_malformed s) (st_spawning s) (st_spawning_hold_malformed s) (st_intent s)
    (st_restart_count s) t (st_last_exit s) (st_last_spawn_at s) (st_ready s)
    (st_next_readiness_at s) (st_boot_id s) (st_supervisor_runtime_commit s).
Definition with_readiness (ready : bool) (t : option pyfloat) (s : SupervisorState) : SupervisorState :=
  mkState (st_schema_version s) (st_applied_generation s) (st_mode s) (st_commit s) (st_child s) (st_unresolved_child s)
    (st_ownership_hold_malformed s) (st_unresolved_hold_malformed s) (st_spawning s) (st_spawning_hold_malformed s) (st_intent s)
    (st_restart_count s) (st_next_attempt_at s) (st_last_exit s) (st_last_spawn_at s) ready
    t (st_boot_id s) (st_supervisor_runtime_commit s).

Section workers.
(** [me] is [os.getpid()]; [fuel] bounds the turns of the polling loops. *)
Context (e : environ) (s : Settings) (me : Z) (fuel : nat).

(** ** State files *)

Definition read_state : method SupervisorState := ask_res (Files (SupervisorFiles.read_state e)).
Definition write_state (st : SupervisorState) : method unit := ask_res (Files (SupervisorFiles.write_state e st)).
(** [write_state(f(read_state()))] *)
Definition rewrite_state (f : SupervisorState -> SupervisorState) : method unit := st ← read_state; write_state (f st).

Definition _write_state_authority_safe (st : SupervisorState) : method bool :=
  r ← outcome (ask_res (Files (write_state_preserving_authority e st)));
  match r with
  | Ok _ => mret true
  | Raise ConsumerLockTimeoutError => mret false
  | Raise x => raise x
  end.

Definition is_durability (x : exn) : bool := match x with DurabilityError => true | _ => false end.

(** A write of a cache: its failure is dropped. *)
Definition _cache_spawn_local (f : SupervisorState -> SupervisorState) : method unit :=
  st ← read_state;
  r ← outcome (write_state (f st));
  match r with
  | Ok _ => mret tt
  | Raise x => if is_os_error x || is_durability x then mret tt else raise x
  end.

Definition write_meta (meta : WorkerMeta) : method unit :=
  _ ← ask_res (Failpoint (py "metadata_publication"));
  ask_res (Files (write_json_durable e (child_path (worker_state_dir e) (py "meta.json")) (WorkerMetadata.to_dict meta))).

(** ** The authority row *)

Definition _discard_authority_connection : method unit :=
  d ← self;
  if connected d then
    _ ← update (set_connected false);
    ask CloseConnection
  else mret tt.

Definition unreachable (x : exn) : bool :=
  match x with AuthorityUnavailableError | DatabaseError => true | _ => false end.

Definition _spawn_authority_connection : method bool :=
  d ← self;
  if connected d then mret true
  else
    r ← outcome (ask_res Connect);
    match r with
    | Ok _ => _ ← update (set_connected true); mret true
    | Raise x => if unreachable x then _ ← _discard_authority_connection; mret false else raise x
    end.

Definition _confirm_authority : method bool :=
  d ← self;
  match _authority d with
  | None => mret false
  | Some claim =>
      r ← outcome (
        _ ← (if connected d then mret tt else _ ← ask_res Connect; update (set_connected true));
        ask_res (ConfirmAuthority claim));
      match r with
      | Ok confirmed => mret confirmed
      | Raise x => if unreachable x then _ ← _discard_authority_connection; mret false else raise x
      end
  end.

(** The common shape of the operations on the row: [closed] without a claim, a
    connection or a trusted answer; [refused] says whether [AuthorityError] is
    answered so too. *)
Definition on_row {A B : Type} (closed : B) (refused : bool) (q : AuthorityClaim -> call (res A)) (k : A -> method B) : method B :=
  d ← self;
  match _authority d with
  | None => mret closed
  | Some claim =>
      reached ← _spawn_authority_connection;
      match reached with
      | false => mret closed
      | true =>
          r ← outcome (ask_res (q claim));
          match r with
          | Ok a => k a
          | Raise AuthorityError => if refused then mret closed else raise AuthorityError
          | Raise x => if unreachable x then _ ← _discard_authority_connection; mret closed else raise x
          end
      end
  end.

Definition _commit_spawn_authority (o : SpawningObligation) : method bool :=
  on_row false true (fun claim => CommitSpawn claim (_db_spawn_record o)) mret.
Definition _clear_spawn_authority : method bool := on_row false false ClearSpawn mret.
Definition _publish_worker_authority (child : WorkerChild) (commit token : pystr) : method bool :=
  on_row false true (fun claim => PublishWorker claim token (_db_worker_record child commit)) mret.
Definition _clear_worker_authority (token : pystr) : method bool :=
  on_row false false (fun claim => ClearWorker claim token) mret.

(** [(ok, obligation)] as an option: [None] when the caller must hold. *)
Definition _read_spawn_authority : method (option (option SpawningObligation)) :=
  on_row None true (fun claim => ReadRow (cl_server claim)) (fun row =>
    match mbind (M := option) row_spawn row with
    | None => mret (Some None)
    | Some o =>
        now ← ask Time;
        mret (Some (Some (mkSpawning (sp_token o) (sp_commit o) (sp_creator_pid o) (sp_creator_start_time_ticks o) (sp_pid o)
          (sp_start_time_ticks o) now (sp_boot_id o) (sp_parent_death_signal o))))
    end).

Definition _read_worker_authority : method (option (option WorkerRecord)) :=
  on_row None true (fun claim => ReadRow (cl_server claim)) (fun row => mret (row_worker <$> row)).

(** ** Live workers *)

(** [lifecycle.worker_alive(meta)] *)
Definition meta_alive (meta : WorkerMeta) : method bool := pf ← ask Proc; of_res (worker_alive pf meta).
Definition start_ticks (pid : Z) : method (option Z) := pf ← ask Proc; mret (proc_start_ticks pf pid).

Definition _active_worker_live : method bool :=
  d ← self;
  match _active_child d, proc d with
  | Some child, Some p =>
      if negb (p =? ch_pid child) then mret false
      else
        code ← ask (Poll p);
        match code with
        | Some _ => mret false
        | None => ticks ← start_ticks (ch_pid child); mret (opt_eqb ticks (Some (ch_start_time_ticks child)))
        end
  | _, _ => mret false
  end.

Definition _child_alive (st : SupervisorState) : method bool :=
  match st_child st with
  | None => mret false
  | Some child =>
      repo ← of_res (_runtime_dir e (st_commit st));
      alive ← meta_alive (_child_to_meta e child repo);
      match alive with
      | false => mret false
      | true => pf ← ask Proc; mret (opt_eqb (process_ppid pf (ch_pid child)) (Some me))
      end
  end.

(** The published worker is the one remembered. *)
Definition is_active (d : daemon) (token : pystr) : bool :=
  match _active_child d with Some c => str_eqb (ch_token c) token | None => false end.

Definition forget_active (token : pystr) : method unit := update (fun d => if is_active d token then set_active None d else d).

(** Owned groups of [token], unless a clean drain is recorded. *)
Definition recover_unless_drained (token : pystr) : method unit :=
  drained ← (match token with [] => mret false | _ => ask (DrainSentinelMatches token) end);
  match drained with
  | true => mret tt
  | false => ask_res (RecoverOwnedGroups token)
  end.

Definition recovered (m : method unit) : method bool :=
  r ← outcome m;
  match r with
  | Ok _ => mret true
  | Raise OwnedGroupRecoveryError => mret false
  | Raise x => raise x
  end.

Definition _recover_spawn_owned_groups (token : pystr) : method bool := recovered (ask_res (RecoverOwnedGroups token)).

Definition _retire_db_worker (record : WorkerRecord) : method bool :=
  meta ← of_res (_db_worker_meta e record);
  live ← meta_alive meta;
  stopped ← (match live with true => ask_res (StopWorker meta (stop_grace_seconds s)) | false => mret true end);
  match stopped with
  | false => mret false
  | true =>
      drained ← recovered (recover_unless_drained (wk_token record));
      match drained with
      | false => mret false
      | true =>
          cleared ← _clear_worker_authority (wk_token record);
          match cleared with
          | false => mret false
          | true => _ ← forget_active (wk_token record); mret true
          end
      end
  end.

(** The published worker runs [commit], is the one remembered, and lives. *)
Definition runs_ours (record : WorkerRecord) (commit : pystr) : method bool :=
  d ← self;
  if is_active d (wk_token record) && str_eqb (wk_commit record) commit then _active_worker_live else mret false.

Definition _reconcile_db_worker (commit : pystr) : method bool :=
  d ← self;
  match _authority d with
  | None => mret false
  | Some _ =>
      record ← _read_worker_authority;
      match record with
      | None => mret false
      | Some None => mret true
      | Some (Some record) =>
          ours ← runs_ours record commit;
          match ours with
          | true => mret true
          | false =>
              (* only logged *)
              _ ← (if negb (str_eqb (wk_commit record) commit) then _ ← start_ticks (wk_pid record); mret tt else mret tt);
              _retire_db_worker record
          end
      end
  end.

Definition _db_worker_running (commit : pystr) : method (option bool) :=
  d ← self;
  match _authority d with
  | None => mret None
  | Some _ =>
      record ← _read_worker_authority;
      match record with
      | None => mret None
      | Some None => mret (Some false)
      | Some (Some record) => ours ← runs_ours record commit; mret (Some ours)
      end
  end.
End workers.
