(* ===== verification/DaemonObligations.v ===== *)
(** The obligations an interrupted spawn leaves ([SupervisorDaemon] of
    [src/lubko/supervisor.py]): how a child that may still live is converged by
    exact signals, and when a recorded obligation counts as resolved. *)

From S2P Require Import Prelude PyStr PyNum Json ProcFs LifecycleState AuthorityRow Durable StatePaths SupervisorCodec Store Mission SupervisorFiles ControlRequests Programs Daemon DaemonWorkers.
From stdpp Require Import gmap.

#[local] Open Scope Z_scope.
#[local] Arguments py : simpl never.

Definition IDENTITY_POLL_SECONDS : pyfloat := float_of_decimal false 2 (-2).

Definition _identity_is_private_session (i : ProcessIdentity) : bool := (id_pgid i =? id_pid i) && (id_sid i =? id_pid i).

Section obligations.
Context (e : environ) (s : Settings) (me : Z) (fuel : nat).

(** [now + self.settings.poll_interval_seconds] as the next attempt *)
Definition hold_for_a_poll : method unit :=
  now ← ask Monotonic;
  rewrite_state e (with_next_attempt (Some (float_add now (poll_interval_seconds s)))).

(** ** Children that may still live *)

Definition _owned_hold_child (hold : UnresolvedChild) : method bool :=
  d ← self;
  match proc d with
  | Some p =>
      if negb (p =? un_pid hold) then mret false
      else
        r ← outcome (ask_res (WaitpidNoHang p));
        match r with
        | Raise ChildProcessError => mret false
        | Raise x => raise x
        | Ok _ =>
            match un_start_time_ticks hold with
            | None => mret true
            | Some t => ticks ← start_ticks (un_pid hold); mret (opt_eqb ticks (Some t))
            end
        end
  | None => mret false
  end.

Definition _unresolved_alive (hold : UnresolvedChild) : method bool :=
  ours ← _owned_hold_child hold;
  match ours with
  | true => code ← ask (Poll (un_pid hold)); mret (match code with None => true | Some _ => false end)
  | false =>
      ticks ← start_ticks (un_pid hold);
      mret (match un_start_time_ticks hold with
            | None => match ticks with Some _ => true | None => false end
            | Some t => opt_eqb ticks (Some t)
            end)
  end.

Fixpoint await_exit (fuel : nat) (deadline : pyfloat) (hold : UnresolvedChild) : method bool :=
  match fuel with
  | O => raise OutOfFuel
  | S fuel =>
      alive ← _unresolved_alive hold;
      match alive with
      | false => mret true
      | true =>
          now ← ask Monotonic;
          if float_leb deadline now then mret false
          else _ ← ask (Sleep IDENTITY_POLL_SECONDS); await_exit fuel deadline hold
      end
  end.

Definition _await_unresolved_exit (hold : UnresolvedChild) : method bool :=
  now ← ask Monotonic;
  await_exit fuel (float_add now (stop_grace_seconds s)) hold.

Definition _converge_unresolved (hold : UnresolvedChild) : method bool :=
  alive ← _unresolved_alive hold;
  match alive with
  | false => mret true
  | true =>
      match un_start_time_ticks hold with
      | None => _await_unresolved_exit hold
      | Some ticks =>
          pinned ← outcome (ask_res (OpenPidfd (un_pid hold)));
          match pinned with
          | Raise x => if is_os_error x || bool_decide (x = AttributeError) then mret false else raise x
          | Ok fd =>
              finally (
                now_ticks ← start_ticks (un_pid hold);
                if negb (opt_eqb now_ticks (Some ticks)) then mret false
                else
                  _ ← ask (SignalPidfd fd false);
                  gone ← _await_unresolved_exit hold;
                  match gone with
                  | true => mret true
                  | false => _ ← ask (SignalPidfd fd true); _await_unresolved_exit hold
                  end)
                (ask (ClosePidfd fd))
          end
      end
  end.

(** [proc.wait(timeout)] returned *)
Definition reaped (p : Z) : method bool :=
  r ← outcome (ask_res (Wait p (stop_grace_seconds s)));
  match r with
  | Ok _ => mret true
  | Raise TimeoutExpired => mret false
  | Raise x => raise x
  end.

Definition _converge_direct_child (p : Z) : method bool :=
  _ ← ask (Terminate p);
  gone ← reaped p;
  match gone with
  | true => mret true
  | false => _ ← ask (Kill p); reaped p
  end.

(** ** Recorded obligations *)

Definition _adopt_db_published (o : SpawningObligation) : method bool :=
  d ← self;
  match _authority d with
  | None => mret false
  | Some _ =>
      record ← _read_worker_authority;
      match record with
      | Some (Some record) =>
          if negb (str_eqb (wk_token record) (so_token o)) then mret false
          else
            now ← ask Time;
            _ ← update (set_active (Some (_db_worker_to_child record now)));
            _ ← _cache_spawn_local e (with_spawning None);
            mret true
      | _ => mret false
      end
  end.

Definition _publication_in_progress (st : SupervisorState) (o : SpawningObligation) : bool :=
  match st_child st, so_pid o with
  | Some child, Some pid =>
      match st_commit st with Some c => str_eqb c (so_commit o) | None => false end
      && str_eqb (ch_token child) (so_token o) && (ch_pid child =? pid)
      && opt_eqb (Some (ch_start_time_ticks child)) (so_start_time_ticks o)
  | _, _ => false
  end.

Definition git_commit_of (commit : pystr) (m : WorkerMeta) : WorkerMeta :=
  mkMeta (meta_schema_version m) (meta_state m) (meta_pid m) (meta_pgid m) (meta_sid m) (meta_start_time_ticks m)
    (meta_token m) (meta_repo m) (Some commit) (meta_worker_id m) (meta_log_path m) (meta_started_at m) (meta_stopped_at m).

Definition _finish_publication (st : SupervisorState) (o : SpawningObligation) : method bool :=
  match st_child st with
  | None => mret false
  | Some child =>
      repo ← of_res (_runtime_dir e (Some (so_commit o)));
      r ← outcome (write_meta e (git_commit_of (so_commit o) (_child_to_meta e child repo)));
      match r with
      | Raise x => if is_os_error x || is_durability x then mret false else raise x
      | Ok _ =>
          cleared ← _clear_spawn_authority;
          match cleared with
          | false => mret false
          | true => _ ← _cache_spawn_local e (with_spawning None); mret true
          end
      end
  end.

(** [a is not None and b is not None and a != b] *)
Definition other_boot (a b : option pystr) : bool :=
  match a, b with Some a, Some b => negb (str_eqb a b) | _, _ => false end.

(** The creator recorded is this process. *)
Definition created_here (o : SpawningObligation) : method bool :=
  if negb (so_creator_start_time_ticks o =? 0) && (so_creator_pid o =? me) then
    ticks ← start_ticks me; mret (opt_eqb ticks (Some (so_creator_start_time_ticks o)))
  else mret false.

Definition _resolve_pidless_spawn (o : SpawningObligation) : method bool :=
  boot ← ask BootId;
  if other_boot (so_boot_id o) boot then mret true
  else
    here ← created_here o;
    match here with
    | true =>
        d ← self;
        running ← (match proc d with
                   | Some p => code ← ask (Poll p); mret (match code with None => true | Some _ => false end)
                   | None => mret false
                   end);
        match running with
        | true => mret false
        | false =>
            _ ← (match proc d with
                 | Some p => _ ← outcome (ask_res (Wait p (stop_grace_seconds s))); update (set_proc None)
                 | None => mret tt
                 end);
            _recover_spawn_owned_groups (so_token o)
        end
    | false =>
        if negb (so_parent_death_signal o) then mret false
        else
          supported ← ask PdeathsigSupported;
          match supported with
          | false => mret false
          | true => _recover_spawn_owned_groups (so_token o)
          end
    end.

Definition _resolve_identified_spawn (o : SpawningObligation) (pid : Z) : method bool :=
  let hold := mkUnresolved pid (so_start_time_ticks o) (so_token o) (so_created_at o) in
  alive ← _unresolved_alive hold;
  match alive with
  | false =>
      clean ← _recover_spawn_owned_groups (so_token o);
      match clean with
      | false => mret false
      | true =>
          st ← read_state e;
          _ ← (match st_unresolved_child st with
               | Some leftover => if (un_pid leftover =? un_pid hold) && str_eqb (un_token leftover) (un_token hold)
                              then write_state e (with_unresolved None st) else mret tt
               | None => mret tt
               end);
          mret true
      end
  | true =>
      _ ← rewrite_state e (with_unresolved (Some hold));
      gone ← _converge_unresolved hold;
      match gone with
      | false => _ ← hold_for_a_poll; mret false
      | true =>
          clean ← _recover_spawn_owned_groups (so_token o);
          match clean with
          | false => mret false
          | true => _ ← rewrite_state e (with_unresolved None); mret true
          end
      end
  end.

Definition _settle_spawning_obligation (st : SupervisorState) (o : SpawningObligation) : method bool :=
  if _publication_in_progress st o then _finish_publication st o
  else
    resolved ← (match so_pid o with None => _resolve_pidless_spawn o | Some pid => _resolve_identified_spawn o pid end);
    match resolved with
    | false => mret false
    | true =>
        cleared ← _clear_spawn_authority;
        match cleared with
        | false => mret false
        | true => _ ← _cache_spawn_local e (with_spawning None); mret true
        end
    end.

Definition _resolve_spawning_obligation : method bool :=
  st ← read_state e;
  if st_spawning_hold_malformed st then _ ← hold_for_a_poll; mret false
  else
    match st_spawning st with
    | None =>
        o ← _read_spawn_authority;
        match o with
        | None => mret false
        | Some None => mret true
        | Some (Some o) =>
            _ ← _cache_spawn_local e (with_spawning (Some o));
            _settle_spawning_obligation st o
        end
    | Some o =>
        adopted ← _adopt_db_published o;
        match adopted with
        | true => mret true
        | false => _settle_spawning_obligation st o
        end
    end.

Definition _resolve_unresolved_child : method bool :=
  st ← read_state e;
  if st_ownership_hold_malformed st || st_unresolved_hold_malformed st then _ ← hold_for_a_poll; mret false
  else
    match st_unresolved_child st with
    | None => mret true
    | Some hold =>
        src ← ask Sources;
        facts ← of_res (reconcile_authority_facts src);
        if negb (authorize_recovery facts) then _ ← hold_for_a_poll; mret false
        else
          gone ← _converge_unresolved hold;
          match gone with
          | false => _ ← hold_for_a_poll; mret false
          | true =>
              clean ← _recover_spawn_owned_groups (un_token hold);
              match clean with
              | false => mret false
              | true => _ ← rewrite_state e (with_unresolved None); mret true
              end
          end
    end.
End obligations.
