(* ===== verification/DaemonSpawn.v ===== *)
(** Starting a worker ([SupervisorDaemon] of [src/lubko/supervisor.py]): the intent
    derived from the durable records, the fenced obligation committed before the
    process starts, the proof of its identity, its publication, and what is done
    with a process that cannot be published. *)

From S2P Require Import Prelude PyStr PyNum Json ProcFs LifecycleState AuthorityRow Durable StatePaths SupervisorCodec Store Mission SupervisorFiles ControlRequests Programs Daemon DaemonWorkers DaemonObligations.
From stdpp Require Import gmap.

#[local] Open Scope Z_scope.
#[local] Arguments py : simpl never.

Definition FAILPOINT_SUPERVISOR_SPAWNING_WRITE : pystr := py "supervisor.spawning_write".
Definition FAILPOINT_SUPERVISOR_PID_UPGRADE : pystr := py "supervisor.pid_upgrade_write".
Definition FAILPOINT_SUPERVISOR_SPAWNING_CLEARANCE : pystr := py "supervisor.spawning_clearance".
Definition FAILPOINT_SUPERVISOR_UNRESOLVED_CHILD : pystr := py "supervisor.unresolved_child_write".

Section spawn.
Context (e : environ) (s : Settings) (me : Z) (fuel : nat).

(** ** The intent *)

(** The sealed runtime an operator confirmed, when it can be run. *)
Definition confirmed_runtime : method action :=
  confirmed ← ask_res CurrentCommit;
  match confirmed with
  | None => mret Hold
  | Some c =>
      usable ← ask_res (RuntimeIsUsable c);
      mret (match usable with true => Run (Some c) | false => Hold end)
  end.

Definition _derive_action : method action :=
  desired ← outcome (ask_res (Files (read_desired_strict e)));
  match desired with
  | Raise DesiredIntentError => confirmed_runtime
  | Raise x => raise x
  | Ok desired =>
      mission ← outcome (ask_res (Files (read_rollback_state e)));
      match mission with
      | Raise DeployCtlError => confirmed_runtime
      | Raise x => raise x
      | Ok None => mret (_derive_without_mission (de_commit <$> desired))
      | Ok (Some mission) =>
          mret (_derive_with_mission mission (match desired with Some d => de_generation d | None => 0 end) (de_commit <$> desired))
      end
  end.

(** ** After the process has started *)

Fixpoint wait_identity (fuel : nat) (deadline : pyfloat) (pid : Z) : method (option ProcessIdentity) :=
  match fuel with
  | O => raise OutOfFuel
  | S fuel =>
      pf ← ask Proc;
      match process_identity pf pid with
      | Some i =>
          if (id_pgid i =? pid) && (id_sid i =? pid) then mret (Some i) else wait_more fuel deadline pid
      | None => wait_more fuel deadline pid
      end
  end
with wait_more (fuel : nat) (deadline : pyfloat) (pid : Z) : method (option ProcessIdentity) :=
  match fuel with
  | O => raise OutOfFuel
  | S fuel =>
      d ← self;
      exited ← (match proc d with
                | Some p => code ← ask (Poll p); mret (match code with Some _ => true | None => false end)
                | None => mret false
                end);
      match exited with
      | true => mret None
      | false =>
          now ← ask Monotonic;
          if float_leb deadline now then mret None
          else _ ← ask (Sleep IDENTITY_POLL_SECONDS); wait_identity fuel deadline pid
      end
  end.

Definition _wait_for_identity (pid : Z) : method (option ProcessIdentity) :=
  now ← ask Monotonic;
  wait_identity fuel (float_add now (identity_timeout_seconds s)) pid.

Fixpoint observe_identity (fuel : nat) (deadline : pyfloat) (p : Z) : method (option ProcessIdentity) :=
  match fuel with
  | O => raise OutOfFuel
  | S fuel =>
      pf ← ask Proc;
      match process_identity pf p with
      | Some i => mret (Some i)
      | None =>
          code ← ask (Poll p);
          match code with
          | Some _ => mret None
          | None =>
              now ← ask Monotonic;
              if float_leb deadline now then mret None
              else _ ← ask (Sleep IDENTITY_POLL_SECONDS); observe_identity fuel deadline p
          end
      end
  end.

Definition _await_observable_identity (p : Z) : method (option ProcessIdentity) :=
  now ← ask Monotonic;
  observe_identity fuel (float_add now (stop_grace_seconds s)) p.

Definition _release_unproven_spawn_authority (token : pystr) (hold_persisted : bool) : method bool :=
  clean ← _recover_spawn_owned_groups token;
  match clean with
  | false => mret false
  | true =>
      st ← read_state e;
      _ ← write_state e (with_spawning None (if hold_persisted then with_unresolved None st else st));
      _ ← update (set_proc None);
      mret true
  end.

(** [UnresolvedChild(..., spawned_at=time.time())], recorded in place of the
    obligation. *)
Definition record_hold (pid : Z) (ticks : option Z) (token : pystr) : method unit :=
  st ← read_state e;
  now ← ask Time;
  write_state e (with_spawning None (with_unresolved (Some (mkUnresolved pid ticks token now)) st)).

Definition _record_proven_private_child (i : ProcessIdentity) (token worker_id : pystr) : method unit :=
  _ ← ask_res (Failpoint FAILPOINT_SUPERVISOR_SPAWNING_CLEARANCE);
  st ← read_state e;
  now ← ask Time;
  write_state e (with_spawning None (with_unresolved None
    (with_child (Some (mkChild (id_pid i) (id_pgid i) (id_sid i) (id_start_time_ticks i) token worker_id now)) st))).

Definition _persist_unobservable_hold (p : Z) (token : pystr) (already_persisted : bool) : method bool :=
  if already_persisted then mret true else _ ← record_hold p None token; mret true.

Definition _record_shared_group_hold (p : Z) (i : ProcessIdentity) (token : pystr) : method unit :=
  record_hold p (Some (id_start_time_ticks i)) token.

Definition poll_if (b : bool) (p : Z) : method (option Z) := if b then ask (Poll p) else mret None.

(** The loop of [_settle_unproven_spawn]: whether it was left by [break] rather
    than by returning. *)
Fixpoint settle (fuel : nat) (p : Z) (token worker_id : pystr) (hold_persisted : bool) : method bool :=
  match fuel with
  | O => raise OutOfFuel
  | S fuel =>
      gone ← _converge_direct_child s p;
      match gone with
      | true => _ ← _release_unproven_spawn_authority token hold_persisted; mret false
      | false =>
          observed ← _await_observable_identity p;
          code ← poll_if (match observed with None => true | Some _ => false end) p;
          match code, observed with
          | Some _, _ => _ ← _release_unproven_spawn_authority token hold_persisted; mret false
          | None, Some i =>
              _ ← (if _identity_is_private_session i then _record_proven_private_child i token worker_id
                   else _record_shared_group_hold p i token);
              mret true
          | None, None =>
              persisted ← _persist_unobservable_hold p token hold_persisted;
              _ ← ask (Sleep IDENTITY_POLL_SECONDS);
              settle fuel p token worker_id persisted
          end
      end
  end.

Definition _settle_unproven_spawn (p : Z) (token worker_id : pystr) : method unit :=
  code ← ask (Poll p);
  match code with
  | Some _ => _ ← _release_unproven_spawn_authority token false; mret tt
  | None =>
      broke ← settle fuel p token worker_id false;
      match broke with
      | false => mret tt
      | true =>
          (* which message is left, and logged *)
          _ ← read_state e;
          mret tt
      end
  end.

Definition _preserve_blocking_obligation (o : SpawningObligation) (pid : Z) (ticks : option Z) : method unit :=
  r ← outcome (
    st ← read_state e;
    let current := match st_spawning st with Some c => c | None => o end in
    write_state e (with_spawning (Some (with_pid (Some pid) ticks current)) st));
  match r with
  | Ok _ => mret tt
  | Raise x => if is_durability x then mret tt else raise x
  end.

Definition _recover_unpublished_spawn (p : Z) (o : SpawningObligation) (ticks : option Z) : method unit :=
  gone ← _converge_direct_child s p;
  match gone with
  | true =>
      _ ← update (set_proc None);
      clean ← _recover_spawn_owned_groups (so_token o);
      match clean with
      | false => _preserve_blocking_obligation o p ticks
      | true => rewrite_state e (with_spawning None)
      end
  | false =>
      _ ← ask_res (Failpoint FAILPOINT_SUPERVISOR_UNRESOLVED_CHILD);
      record_hold p ticks (so_token o)
  end.

Definition _publish_spawned_child (p : Z) (o : SpawningObligation) (ticks : option Z) (token worker_id : pystr) : method (option WorkerChild) :=
  _ ← ask_res (Failpoint FAILPOINT_SUPERVISOR_PID_UPGRADE);
  src ← ask Sources;
  facts ← of_res (reconcile_authority_facts src);
  match check_authority_invariants facts with
  | _ :: _ => _ ← _recover_unpublished_spawn p o ticks; mret None
  | [] =>
      r ← outcome (
        st ← read_state e;
        write_state e (with_spawning (Some (with_pid (Some p) ticks o)) st));
      _ ← (match r with
           | Ok _ => mret tt
           | Raise x => if is_os_error x || is_durability x then mret tt else raise x
           end);
      identity ← _wait_for_identity p;
      match identity with
      | None => _ ← _settle_unproven_spawn p token worker_id; mret None
      | Some i =>
          now ← ask Time;
          mret (Some (mkChild (id_pid i) (id_pgid i) (id_sid i) (id_start_time_ticks i) token worker_id now))
      end
  end.

(** ** Starting the process *)

Definition _resolve_spawn_executable (commit : pystr) : method (option path) :=
  usable ← ask_res (RuntimeIsUsable commit);
  match usable with
  | false => mret None
  | true => ask_res (EntryExecutable commit)
  end.

Definition is_subprocess_error (x : exn) : bool := match x with SubprocessError | TimeoutExpired => true | _ => false end.

(** [a or b] of strings *)
Definition or_else (a : option pystr) (b : method pystr) : method pystr :=
  match a with Some ((_ :: _) as w) => mret w | _ => b end.

Definition spawn_worker_id : method pystr :=
  desired ← ask_res (Files (read_desired e));
  or_else (mbind (M := option) de_worker_id desired) (w ← ask EnvWorkerId; or_else w (ask Hostname)).

Definition _spawn_worker (commit : pystr) : method (option WorkerChild) :=
  executable ← _resolve_spawn_executable commit;
  match executable with
  | None => mret None
  | Some executable =>
      token ← ask TokenHex;
      worker_id ← spawn_worker_id;
      supported ← ask PdeathsigSupported;
      match supported with
      | false => mret None
      | true =>
          ticks ← start_ticks me;
          now ← ask Time;
          boot ← ask BootId;
          let o := mkSpawning token commit me (default 0 ticks) None None now boot true in
          _ ← ask_res (Failpoint FAILPOINT_SUPERVISOR_SPAWNING_WRITE);
          src ← ask Sources;
          facts ← of_res (reconcile_authority_facts src);
          if negb (authorize_spawn facts) then mret None
          else
            committed ← _commit_spawn_authority o;
            match committed with
            | false => mret None
            | true =>
                _ ← _cache_spawn_local e (with_spawning (Some o));
                p ← outcome (_ ← of_res (cli_commit_dir e commit); ask_res (Popen executable commit token worker_id));
                match p with
                | Raise x =>
                    if is_os_error x || is_subprocess_error x then
                      cleared ← _clear_spawn_authority;
                      match cleared with
                      | false => mret None
                      | true => _ ← _cache_spawn_local e (with_spawning None); mret None
                      end
                    else raise x
                | Ok p =>
                    _ ← update (set_proc (Some p));
                    child_ticks ← start_ticks p;
                    _publish_spawned_child p o child_ticks token worker_id
                end
            end
      end
  end.

(** ** Publication *)

Definition _spawn_obligation_for (child : WorkerChild) : method (option SpawningObligation) :=
  st ← read_state e;
  match st_spawning st with
  | Some o => mret (Some o)
  | None =>
      o ← _read_spawn_authority;
      mret (match o with
            | Some (Some o) => if str_eqb (so_token o) (ch_token child) then Some o else None
            | _ => None
            end)
  end.

Definition run_of (commit : pystr) (st : SupervisorState) : SupervisorState :=
  mkState (st_schema_version st) (st_applied_generation st) MODE_RUN (Some commit) (st_child st) (st_unresolved_child st)
    (st_ownership_hold_malformed st) (st_unresolved_hold_malformed st) (st_spawning st) (st_spawning_hold_malformed st)
    INTENT_RUN (st_restart_count st) (st_next_attempt_at st) (st_last_exit st) (st_last_spawn_at st) (st_ready st)
    (st_next_readiness_at st) (st_boot_id st) (st_supervisor_runtime_commit st).
Definition spawned_at (t : pyfloat) (st : SupervisorState) : SupervisorState :=
  mkState (st_schema_version st) (st_applied_generation st) (st_mode st) (st_commit st) (st_child st) (st_unresolved_child st)
    (st_ownership_hold_malformed st) (st_unresolved_hold_malformed st) (st_spawning st) (st_spawning_hold_malformed st)
    (st_intent st) (st_restart_count st) (st_next_attempt_at st) (st_last_exit st) (Some t) (st_ready st)
    (st_next_readiness_at st) (st_boot_id st) (st_supervisor_runtime_commit st).

Definition _record_spawn_failure (commit : pystr) (now : pyfloat) : method unit :=
  st ← read_state e;
  st' ← read_state e;
  backoff ← of_res (_backoff_seconds s (st_restart_count st'));
  write_state e (with_next_attempt (Some (float_add now backoff)) (with_readiness false None (run_of commit st))).

(** [self._proc is not None and self._converge_direct_child(self._proc)] *)
Definition converge_held : method bool :=
  d ← self; match proc d with Some p => _converge_direct_child s p | None => mret false end.

Definition _converge_spawn_without_obligation (child : WorkerChild) (now : pyfloat) : method unit :=
  st ← read_state e;
  backoff ← of_res (_backoff_seconds s (st_restart_count st));
  let next := Some (float_add now backoff) in
  let persist :=
    st ← read_state e;
    at_ ← ask Time;
    write_state e (with_next_attempt next
      (with_unresolved (Some (mkUnresolved (ch_pid child) (Some (ch_start_time_ticks child)) (ch_token child) at_)) st)) in
  gone ← converge_held;
  match gone with
  | true =>
      _ ← update (set_proc None);
      clean ← _recover_spawn_owned_groups (ch_token child);
      match clean with
      | true => rewrite_state e (with_next_attempt next)
      | false => persist
      end
  | false => persist
  end.

(** A cache write whose [OSError] or [DurabilityError] is dropped. *)
Definition dropping (m : method unit) : method unit :=
  r ← outcome m;
  match r with
  | Ok _ => mret tt
  | Raise x => if is_os_error x || is_durability x then mret tt else raise x
  end.

Definition _cache_published_child (child : WorkerChild) (commit : pystr) (now : pyfloat) (o : SpawningObligation) : method unit :=
  st ← read_state e;
  let published :=
    with_spawning (Some (with_pid (Some (ch_pid child)) (Some (ch_start_time_ticks child)) o))
      (with_readiness false (Some (float_add now (readiness_interval_seconds s)))
         (spawned_at now (with_next_attempt None (with_child (Some child) (run_of commit st))))) in
  _ ← dropping (write_state e published);
  repo ← of_res (_runtime_dir e (Some commit));
  _ ← dropping (write_meta e (git_commit_of commit (_child_to_meta e child repo)));
  cleared ← _clear_spawn_authority;
  match cleared with
  | false => mret tt
  | true => _cache_spawn_local e (with_spawning None)
  end.

(** Under the generation lock: the child started, unless the intent changed. *)
Definition spawn_intended (commit : pystr) : method (option (option WorkerChild)) :=
  with_lock_of generation_lock (
    _ ← read_state e;
    action ← _derive_action;
    match action with
    | Run (Some c) =>
        if negb (str_eqb c commit) then mret None
        else
          confirmed ← _confirm_authority;
          match confirmed with
          | false => mret None
          | true => child ← _spawn_worker commit; mret (Some child)
          end
    | _ => mret None
    end).

Definition _spawn_and_publish (commit : pystr) : method unit :=
  started ← spawn_intended commit;
  match started with
  | None => mret tt
  | Some child =>
      now ← ask Monotonic;
      match child with
      | None => _record_spawn_failure commit now
      | Some child =>
          found ← _spawn_obligation_for child;
          d ← self;
          published ← (match found, _authority d with
                       | Some o, Some _ => _publish_worker_authority child commit (so_token o)
                       | _, _ => mret true
                       end);
          match found, published with
          | Some o, true =>
              _ ← update (fun d => set_mem_next None (set_active (Some child) d));
              _cache_published_child child commit now o
          | _, _ => _converge_spawn_without_obligation child now
          end
      end
  end.

(** ** The decision to start one *)

Definition _gate_db_spawn : method bool :=
  d ← self;
  match _authority d with
  | None => mret false
  | Some _ =>
      match _mem_next_attempt_at d with
      | None => mret true
      | Some t => now ← ask Monotonic; mret (negb (float_ltb now t))
      end
  end.

(** [if not m: return] *)
Definition unless_held (m : method bool) (next : method unit) : method unit :=
  ok ← m;
  match ok with true => next | false => mret tt end.

Definition _ensure_consumer_locked (commit : pystr) : method unit :=
  unless_held _confirm_authority (
  unless_held _gate_db_spawn (
  unless_held (_resolve_spawning_obligation e s me fuel) (
  unless_held (_resolve_unresolved_child e s fuel) (
  unless_held (_reconcile_db_worker e s commit) (
    running ← _db_worker_running commit;
    match running with
    | Some false => _spawn_and_publish commit
    | _ => mret tt
    end))))).

Definition _ensure_worker (commit : pystr) : method unit :=
  r ← outcome (with_lock_of consumer_lock (_ensure_consumer_locked commit));
  match r with
  | Ok _ | Raise ConsumerLockTimeoutError => mret tt
  | Raise x => raise x
  end.
End spawn.
