(* ===== verification/DaemonTick.v ===== *)
(** One reconciliation cycle of the daemon ([SupervisorDaemon.reconcile] of
    [src/lubko/supervisor.py]): retirement, crashes and their backoff, the run
    intents of the deployment commands, readiness, and the cycle itself. *)

From S2P Require Import Prelude PyStr PyNum Json ProcFs LifecycleState AuthorityRow Durable StatePaths SupervisorCodec Store Mission SupervisorFiles ControlRequests Programs Daemon DaemonWorkers DaemonObligations DaemonSpawn.
From stdpp Require Import gmap.

#[local] Open Scope Z_scope.
#[local] Arguments py : simpl never.

Definition with_restart (n : Z) (st : SupervisorState) : SupervisorState :=
  mkState (st_schema_version st) (st_applied_generation st) (st_mode st) (st_commit st) (st_child st) (st_unresolved_child st)
    (st_ownership_hold_malformed st) (st_unresolved_hold_malformed st) (st_spawning st) (st_spawning_hold_malformed st)
    (st_intent st) n (st_next_attempt_at st) (st_last_exit st) (st_last_spawn_at st) (st_ready st)
    (st_next_readiness_at st) (st_boot_id st) (st_supervisor_runtime_commit st).
Definition with_last_exit (x : option LastExit) (st : SupervisorState) : SupervisorState :=
  mkState (st_schema_version st) (st_applied_generation st) (st_mode st) (st_commit st) (st_child st) (st_unresolved_child st)
    (st_ownership_hold_malformed st) (st_unresolved_hold_malformed st) (st_spawning st) (st_spawning_hold_malformed st)
    (st_intent st) (st_restart_count st) (st_next_attempt_at st) x (st_last_spawn_at st) (st_ready st)
    (st_next_readiness_at st) (st_boot_id st) (st_supervisor_runtime_commit st).
Definition with_intent (i : pystr) (st : SupervisorState) : SupervisorState :=
  mkState (st_schema_version st) (st_applied_generation st) (st_mode st) (st_commit st) (st_child st) (st_unresolved_child st)
    (st_ownership_hold_malformed st) (st_unresolved_hold_malformed st) (st_spawning st) (st_spawning_hold_malformed st)
    i (st_restart_count st) (st_next_attempt_at st) (st_last_exit st) (st_last_spawn_at st) (st_ready st)
    (st_next_readiness_at st) (st_boot_id st) (st_supervisor_runtime_commit st).
Definition with_applied (g : Z) (st : SupervisorState) : SupervisorState :=
  mkState (st_schema_version st) g (st_mode st) (st_commit st) (st_child st) (st_unresolved_child st)
    (st_ownership_hold_malformed st) (st_unresolved_hold_malformed st) (st_spawning st) (st_spawning_hold_malformed st)
    (st_intent st) (st_restart_count st) (st_next_attempt_at st) (st_last_exit st) (st_last_spawn_at st) (st_ready st)
    (st_next_readiness_at st) (st_boot_id st) (st_supervisor_runtime_commit st).
Definition with_boot (b : option pystr) (st : SupervisorState) : SupervisorState :=
  mkState (st_schema_version st) (st_applied_generation st) (st_mode st) (st_commit st) (st_child st) (st_unresolved_child st)
    (st_ownership_hold_malformed st) (st_unresolved_hold_malformed st) (st_spawning st) (st_spawning_hold_malformed st)
    (st_intent st) (st_restart_count st) None (st_last_exit st) None false
    None b (st_supervisor_runtime_commit st).

Section tick.
Context (e : environ) (s : Settings) (me : Z) (fuel : nat).

(** ** Start of the daemon *)

Definition normalize_cross_boot_state : method unit :=
  st ← read_state e;
  if st_ownership_hold_malformed st then mret tt
  else
    boot ← ask BootId;
    match boot, st_boot_id st with
    | Some b, Some b' => if str_eqb b b' then mret tt else _ ← _write_state_authority_safe e (with_boot boot st); mret tt
    | _, _ => _ ← _write_state_authority_safe e (with_boot boot st); mret tt
    end.

(** ** Retirement *)

Definition _retire_child (authority_locked : bool) : method bool :=
  st ← read_state e;
  match st_child st with
  | None => mret true
  | Some child =>
      confirmed ← _confirm_authority;
      match confirmed with
      | false => mret false
      | true =>
          record ← _read_worker_authority;
          match record with
          | None => mret false
          | Some record =>
              if negb (_db_record_matches_child record child (st_commit st)) then mret false
              else
                repo ← of_res (_runtime_dir e (st_commit st));
                let meta := _child_to_meta e child repo in
                alive ← meta_alive meta;
                permitted ← (match alive with
                             | true => src ← ask Sources; facts ← of_res (reconcile_authority_facts src); mret (authorize_retirement facts)
                             | false => mret true
                             end);
                match permitted with
                | false => mret false
                | true =>
                    stopped ← ask_res (StopWorker meta (stop_grace_seconds s));
                    match stopped with
                    | false => mret false
                    | true =>
                        _ ← recover_unless_drained (ch_token child);
                        d ← self;
                        _ ← (match proc d with
                             | Some p => _ ← outcome (ask_res (Wait p (stop_grace_seconds s))); update (set_proc None)
                             | None => mret tt
                             end);
                        let retired st := with_readiness false None (with_child None st) in
                        written ← (if authority_locked then _ ← rewrite_state e retired; mret true
                                   else _write_state_authority_safe e (retired st));
                        match written with
                        | false => mret false
                        | true => _ ← forget_active (ch_token child); mret true
                        end
                    end
                end
          end
      end
  end.

Definition _clear_child : method unit :=
  _ ← update (set_proc None);
  cleared ← read_state e;
  _ ← (match st_child cleared with Some c => forget_active (ch_token c) | None => mret tt end);
  st ← read_state e;
  _ ← _write_state_authority_safe e (with_child None st);
  mret tt.

Definition _ensure_held : method unit :=
  st ← read_state e;
  match st_child st with
  | Some _ => _ ← _retire_child false; mret tt
  | None => mret tt
  end.

(** ** Crashes *)

Definition _last_proc_returncode : method (option Z) :=
  d ← self;
  match proc d with Some p => ask (Poll p) | None => mret None end.

Definition _handle_crash (st : SupervisorState) (now : pyfloat) : method unit :=
  code ← _last_proc_returncode;
  clean ← (match st_child st with Some child => recovered (recover_unless_drained (ch_token child)) | None => mret true end);
  match clean with
  | false =>
      at_ ← ask Time;
      backoff ← of_res (_backoff_seconds s (st_restart_count st + 1));
      _ ← _write_state_authority_safe e (with_readiness false None (with_next_attempt (Some (float_add now backoff))
            (with_intent INTENT_RUN (with_last_exit (Some (mkExit code at_)) st))));
      mret tt
  | true =>
      backoff ← of_res (_backoff_seconds s (st_restart_count st + 1));
      at_ ← ask Time;
      written ← _write_state_authority_safe e (with_child None (with_intent INTENT_RUN (with_last_exit (Some (mkExit code at_))
            (with_next_attempt (Some (float_add now backoff)) (with_restart (st_restart_count st + 1) st)))));
      match written with
      | false => mret tt
      | true =>
          _ ← update (set_proc None);
          match st_child st with Some child => forget_active (ch_token child) | None => mret tt end
      end
  end.

Definition _handle_db_crash (now : pyfloat) : method unit :=
  d ← self;
  match _active_child d with
  | None => mret tt
  | Some child =>
      clean ← _recover_spawn_owned_groups (ch_token child);
      match clean with
      | false => mret tt
      | true =>
          cleared ← _clear_worker_authority (ch_token child);
          match cleared with
          | false => mret tt
          | true =>
              _ ← update (set_active None);
              d ← self;
              _ ← (match proc d with
                   | Some p => _ ← outcome (ask_res (Wait p (stop_grace_seconds s))); update (set_proc None)
                   | None => mret tt
                   end);
              st ← read_state e;
              backoff ← of_res (_backoff_seconds s (st_restart_count st + 1));
              let next := Some (float_add now backoff) in
              _ ← update (set_mem_next next);
              r ← outcome (
                st ← read_state e;
                count ← read_state e;
                code ← _last_proc_returncode;
                at_ ← ask Time;
                _write_state_authority_safe e (with_child None (with_intent INTENT_RUN (with_last_exit (Some (mkExit code at_))
                  (with_next_attempt next (with_restart (st_restart_count count + 1) st))))));
              match r with
              | Ok _ => mret tt
              | Raise x => if is_os_error x || is_durability x || bool_decide (x = ConsumerLockTimeoutError) then mret tt else raise x
              end
          end
      end
  end.

Definition _in_backoff (now : pyfloat) : method bool :=
  st ← read_state e;
  mret (match st_next_attempt_at st with Some t => float_ltb now t | None => false end).

Definition _maybe_reset_backoff (st : SupervisorState) (now : pyfloat) : method unit :=
  if (st_restart_count st =? 0) && bool_decide (st_next_attempt_at st = None) then mret tt
  else
    alive ← _child_alive e me st;
    match alive, st_last_spawn_at st with
    | true, Some t =>
        if float_ltb (float_sub now t) (stable_window_seconds s) then mret tt
        else
          _ ← _write_state_authority_safe e (with_last_exit None (with_next_attempt None (with_restart 0 st)));
          mret tt
    | _, _ => mret tt
    end.

Definition _db_crash_blocks (now : pyfloat) : method bool :=
  d ← self;
  live ← (match _active_child d with None => mret true | Some _ => _active_worker_live end);
  match live with
  | true => mret false
  | false =>
      _ ← _handle_db_crash now;
      d ← self;
      match _mem_next_attempt_at d with
      | Some t => if float_ltb now t then mret true else _in_backoff now
      | None => _in_backoff now
      end
  end.

(** ** Run intents *)

(** A new deadline for the next attempt, on a fresh reading of the state. *)
Definition back_off (restart_count : Z) : method unit :=
  now ← ask Monotonic;
  st ← read_state e;
  backoff ← of_res (_backoff_seconds s restart_count);
  _ ← _write_state_authority_safe e (with_next_attempt (Some (float_add now backoff)) st);
  mret tt.

Definition applied (d : SupervisorDesired) (preserve_readiness : bool) (st : SupervisorState) : SupervisorState :=
  with_readiness (if preserve_readiness then st_ready st else false) (if preserve_readiness then st_next_readiness_at st else None)
    (with_next_attempt None (with_restart 0 (run_of (de_commit d) (with_applied (de_generation d) st)))).

Definition is_commit (commit : option pystr) (c : pystr) : bool :=
  match commit with Some c' => str_eqb c' c | None => false end.

Definition _apply_desired (desired : SupervisorDesired) : method unit :=
  match de_commit desired with
  | [] => mret tt
  | commit =>
      st ← read_state e;
      d ← self;
      match _authority d with
      | None => mret tt
      | Some _ =>
          running ← _db_worker_running commit;
          match running with
          | None => mret tt
          | Some running =>
              let already_running := running && negb (de_restart desired) in
              launchable ← (match already_running with true => mret true | false => ask_res (RuntimeSatisfies commit) end);
              match launchable with
              | false => back_off (st_restart_count st)
              | true =>
                  st ← (match already_running with true => mret st | false => read_state e end);
                  retired ← (match already_running with true => mret true | false => _retire_child false end);
                  match retired with
                  | false => back_off (st_restart_count st)
                  | true =>
                      current ← read_state e;
                      preserve ← (if already_running && is_commit (st_commit current) commit then _child_alive e me current else mret false);
                      written ← _write_state_authority_safe e (applied desired preserve current);
                      match written, already_running with
                      | true, false => _ensure_worker e s me fuel commit
                      | _, _ => mret tt
                      end
                  end
              end
          end
      end
  end.

(** Whether the cycle ends here. *)
Definition _apply_newer_desired (st : SupervisorState) (commit : option pystr) : method bool :=
  desired ← outcome (ask_res (Files (read_desired_strict e)));
  match desired with
  | Raise DesiredIntentError =>
      confirmed ← ask_res CurrentCommit;
      usable ← (match commit, confirmed with
                | Some c, Some c' => if str_eqb c c' then ask_res (RuntimeIsUsable c) else mret false
                | _, _ => mret false
                end);
      match usable with
      | true => mret false
      | false => _ ← _ensure_held; mret true
      end
  | Raise x => raise x
  | Ok None => mret false
  | Ok (Some d) =>
      if is_commit commit (de_commit d) && (st_applied_generation st <? de_generation d)
      then _ ← _apply_desired d; mret true
      else mret false
  end.

Definition _record_mission_progress (commit : pystr) : method unit :=
  desired ← outcome (ask_res (Files (read_desired_strict e)));
  match desired with
  | Raise DesiredIntentError => mret tt
  | Raise x => raise x
  | Ok desired =>
      mission ← outcome (ask_res (Files (read_rollback_state e)));
      match mission with
      | Raise DeployCtlError | Ok None => mret tt
      | Raise x => raise x
      | Ok (Some m) =>
          if negb (str_eqb (rb_status m) PENDING) || negb (str_eqb (rb_commit m) commit)
             || (rb_generation m <? match desired with Some d => de_generation d | None => 0 end)
          then mret tt
          else
            current ← read_state e;
            alive ← (if bool_decide (is_Some (st_child current)) && is_commit (st_commit current) commit
                        && (st_applied_generation current <? rb_generation m)
                     then _child_alive e me current else mret false);
            match alive with
            | true => _ ← _write_state_authority_safe e (with_applied (rb_generation m) current); mret tt
            | false => mret tt
            end
      end
  end.

(** ** Readiness *)

Definition _record_not_ready (st : SupervisorState) (now : pyfloat) : method unit :=
  _ ← _write_state_authority_safe e (with_readiness false (Some (float_add now (readiness_interval_seconds s))) st);
  mret tt.

Definition _record_health_retirement (now : pyfloat) : method unit :=
  st ← read_state e;
  let restart_count := st_restart_count st + 1 in
  backoff ← of_res (_backoff_seconds s restart_count);
  written ← _write_state_authority_safe e (with_readiness false None (with_intent INTENT_RUN
    (with_next_attempt (Some (float_add now backoff)) (with_restart restart_count st))));
  match written with
  | false => mret tt
  | true => update (fun d => set_no_progress None (set_proc None d))
  end.

Definition _retire_child_for_safety : method unit :=
  _ ← update (set_no_progress None);
  _ ← _retire_child false;
  mret tt.

Definition _retire_child_for_absent_forward_progress (now : pyfloat) : method unit :=
  retired ← _retire_child false;
  match retired with
  | false => mret tt
  | true => _record_health_retirement now
  end.

Definition confirms (child : WorkerChild) (now : pyfloat) : method bool :=
  d ← self; mret (_no_progress_evidence_confirms s child now (_no_progress d)).

Definition _probe_readiness (now : pyfloat) : method unit :=
  st ← read_state e;
  match st_child st with
  | None => mret tt
  | Some child =>
      alive ← _child_alive e me st;
      match alive with
      | false => mret tt
      | true =>
          _ ← update (fun d => match _no_progress d with
                               | Some ev => if str_eqb (np_token ev) (ch_token child) then d else set_no_progress None d
                               | None => d
                               end);
          if st_ready st then
            healthy ← ask_res (WorkerHealthy child);
            match healthy with
            | true => update (set_no_progress None)
            | false =>
                breach ← ask_res (SafetyBreach child);
                match breach with
                | true => _retire_child_for_safety
                | false =>
                    absent ← confirms child now;
                    match absent with
                    | true => _retire_child_for_absent_forward_progress now
                    | false => _record_not_ready st now
                    end
                end
            end
          else if match st_next_readiness_at st with Some t => float_ltb now t | None => false end then mret tt
          else
            cwd ← of_res (_runtime_dir e (st_commit st));
            probe ← ask_res (CheckReadiness child cwd);
            _ ← update (fun d => set_no_progress (_note_progress_observation child probe.2 now (_no_progress d)) d);
            absent ← confirms child now;
            match absent with
            | true => _retire_child_for_absent_forward_progress now
            | false =>
                if negb probe.1 then _record_not_ready st now
                else
                  published ← outcome (ask_res (PublishSurfaces (ch_token child)));
                  _ ← (match published with
                       | Ok _ => mret tt
                       | Raise x => if is_os_error x then mret tt else raise x
                       end);
                  written ← _write_state_authority_safe e (with_readiness true None st);
                  match written with
                  | false => mret tt
                  | true =>
                      pruned ← outcome (ask_res (PruneArtifacts (ch_token child)));
                      match pruned with
                      | Ok _ => mret tt
                      | Raise x => if is_os_error x then mret tt else raise x
                      end
                  end
            end
      end
  end.

(** ** The cycle *)

(** What the recorded child's death or stability demands; whether the cycle ends
    here. *)
Definition observe_child (st : SupervisorState) (now : pyfloat) : method bool :=
  alive ← _child_alive e me st;
  match st_child st, alive with
  | Some child, false =>
      repo ← of_res (_runtime_dir e (st_commit st));
      reparented ← meta_alive (_child_to_meta e child repo);
      match reparented with
      | true => mret false
      | false =>
          if negb (str_eqb (st_intent st) INTENT_RUN) then _ ← _clear_child; mret false
          else _ ← _handle_crash st now; _in_backoff now
      end
  | _, _ =>
      blocked ← _db_crash_blocks now;
      match blocked with
      | true => mret true
      | false => _ ← _maybe_reset_backoff st now; mret false
      end
  end.

Definition reconcile (now : pyfloat) : method unit :=
  _ ← ask_res (Files (promote_pending_request e));
  st ← read_state e;
  if st_ownership_hold_malformed st then _ ← _write_state_authority_safe e st; mret tt
  else
    _ ← ask_res MaybeHandoff;
    action ← _derive_action e;
    applied ← (match action with Run commit => _apply_newer_desired st commit | Hold => mret false end);
    match applied with
    | true => mret tt
    | false =>
        ended ← observe_child st now;
        match ended, action with
        | true, _ => mret tt
        | false, Hold => _ensure_held
        | false, Run commit =>
            waiting ← _in_backoff now;
            match waiting, commit with
            | false, Some commit =>
                _ ← _ensure_worker e s me fuel commit;
                _ ← _record_mission_progress commit;
                _ ← _probe_readiness now;
                _ ← ask_res CompleteColdMigration;
                ask_res ConvergeStartupArtifacts
            | _, _ => mret tt
            end
        end
    end.
End tick.
