(* ===== verification/DaemonRuns.v ===== *)
(** Monitors of the daemon's traces: the rules for locks, and what a monitor must not
    mind for the methods that start, publish and signal nothing to be kept. *)

From S2P Require Import Prelude PyStr PyNum Json AuthorityRow ProcFs LifecycleState SupervisorCodec Durable StatePaths Store Mission SupervisorFiles ControlRequests Programs Daemon DaemonWorkers DaemonObligations DaemonSpawn DaemonTick.
From stdpp Require Import gmap.

#[local] Open Scope Z_scope.
#[local] Arguments py : simpl never.

Abbreviation exchange := (Programs.exchange call).

Section monitor.
Context {W : Type} (step : W -> forall B : Type, call B -> B -> option W).

Abbreviation condition := (daemon -> W -> Prop).
#[local] Abbreviation keeps := (keeps (memory := daemon) step).
#[local] Abbreviation watched := (watched (memory := daemon) step).
#[local] Abbreviation harmless := (harmless (memory := daemon) step).

(** A body under a lock: [Entered] holds once it is held. *)
Lemma watched_lock {A : Type} (I Entered : condition) (M Q : res A -> condition) l (body : method A) :
  (forall d w r, I d w -> exists w', step w _ (Acquire l) r = Some w' /\ (match r with Ok _ => Entered d w' | Raise x => Q (Raise x) d w' end)) ->
  watched Entered body M ->
  (forall r d w b, M r d w -> exists w', step w _ (Release l) b = Some w' /\ Q r d w') ->
  watched I (with_lock_of l body) Q.
Proof.
  intros Ha Hb Hr. unfold with_lock_of.
  eapply (watched_bind _ _ _ _ (fun r d w => match r with Ok _ => Entered d w | Raise x => Q (Raise x) d w end)); [by apply watched_ask_res| |done].
  intros []. eapply watched_finally; [exact Hb|]. intros r.
  apply watched_ask. intros d w b. apply Hr.
Qed.

Lemma keeps_lock {A : Type} (I Inner : condition) l (body : method A) :
  (forall d w r, I d w -> exists w', step w _ (Acquire l) r = Some w' /\ (if r is Ok _ then Inner d w' else I d w')) ->
  keeps Inner body ->
  (forall d w b, Inner d w -> exists w', step w _ (Release l) b = Some w' /\ I d w') ->
  keeps I (with_lock_of l body).
Proof. intros Ha Hb Hr. apply (watched_lock I Inner (fun _ => Inner)); [exact Ha|exact Hb|intros _; exact Hr]. Qed.

Lemma keeps_plain_lock {A : Type} (I : condition) l (body : method A) :
  harmless I (Acquire l) -> harmless I (Release l) -> keeps I body -> keeps I (with_lock_of l body).
Proof.
  intros Ha Hr Hb. eapply keeps_lock; [|exact Hb|exact Hr].
  intros d w r HI. destruct (Ha d w r HI) as (w' & Hs & HI'). exists w'. by destruct r.
Qed.

(** ** Methods that start no process, publish nothing and signal nothing by name *)

(** What a monitor of the steps that prepare a spawn must not mind. *)
Record still (I : condition) : Prop := {
  q_files {A : Type} (m : io A) : harmless I (Files m);
  q_monotonic : harmless I Monotonic;
  q_time : harmless I Time;
  q_proc : harmless I Proc;
  q_boot : harmless I BootId;
  q_connect : harmless I Connect;
  q_close : harmless I CloseConnection;
  q_failpoint n : harmless I (Failpoint n);
  q_poll p : harmless I (Poll p);
  q_waitpid p : harmless I (WaitpidNoHang p);
  q_sleep t : harmless I (Sleep t);
  q_usable c : harmless I (RuntimeIsUsable c);
  q_executable c : harmless I (EntryExecutable c);
  q_current : harmless I CurrentCommit;
  q_token : harmless I TokenHex;
  q_env : harmless I EnvWorkerId;
  q_host : harmless I Hostname;
  q_pdeathsig : harmless I PdeathsigSupported;
  q_connected d w b : I d w -> I (set_connected b d) w;
}.

(** What it must not mind for the other methods below to be kept. *)
Record quiet (I : condition) : Prop := {
  q_still : still I;
  q_read_row n : harmless I (ReadRow n);
  q_clear_spawn c : harmless I (ClearSpawn c);
  q_clear_worker c t : harmless I (ClearWorker c t);
  q_sources : harmless I Sources;
  q_wait p t : harmless I (Wait p t);
  q_pidfd p : harmless I (OpenPidfd p);
  q_signal fd b : harmless I (SignalPidfd fd b);
  q_close_pidfd fd : harmless I (ClosePidfd fd);
  q_recover t : harmless I (RecoverOwnedGroups t);
  q_drained t : harmless I (DrainSentinelMatches t);
  q_readiness c w : harmless I (CheckReadiness c w);
  q_healthy c : harmless I (WorkerHealthy c);
  q_breach c : harmless I (SafetyBreach c);
  q_surfaces t : harmless I (PublishSurfaces t);
  q_prune t : harmless I (PruneArtifacts t);
  q_satisfies c : harmless I (RuntimeSatisfies c);
  q_handoff : harmless I MaybeHandoff;
  q_migration : harmless I CompleteColdMigration;
  q_artifacts : harmless I ConvergeStartupArtifacts;
  (** and what the daemon remembers besides its process *)
  q_active d w c : I d w -> I (set_active c d) w;
  q_mem_next d w t : I d w -> I (set_mem_next t d) w;
  q_no_progress d w n : I d w -> I (set_no_progress n d) w;
  q_reaped d w : I d w -> I (set_proc None d) w;
}.

(** A fact about what is remembered beside the condition. *)
Lemma harmless_and {B : Type} (I : condition) (F : daemon -> Prop) (c : call B) :
  harmless I c -> harmless (fun d w => I d w /\ F d) c.
Proof. intros H d w b [HI HF]. destruct (H d w b HI) as (w' & Hs & HI'). by exists w'. Qed.

Lemma still_and (I : condition) (F : daemon -> Prop) :
  still I -> (forall d b, F d -> F (set_connected b d)) -> still (fun d w => I d w /\ F d).
Proof. intros H HF. split; intros; try (apply harmless_and, H).
  destruct_and!. split; [by apply (q_connected _ H)|by apply HF].
Qed.
End monitor.

Create HintDb daemon discriminated.
#[export] Hint Constants Opaque : daemon.
#[export] Hint Resolve q_still q_files q_monotonic q_time q_proc q_boot q_connect q_close q_read_row q_clear_spawn q_clear_worker
  q_sources q_failpoint q_poll q_wait q_waitpid q_pidfd q_signal q_close_pidfd q_sleep q_recover q_drained q_readiness q_healthy
  q_breach q_surfaces q_prune q_current q_usable q_satisfies q_executable q_token q_env q_host q_pdeathsig q_handoff q_migration
  q_artifacts : daemon.

(** A change of what the daemon remembers besides its process. *)
Ltac remembered :=
  repeat case_match; try assumption;
  repeat first [ assumption
               | match goal with
                 | H : still _ _ |- _ => apply (q_connected _ _ H)
                 | H : quiet _ _ |- _ =>
                     first [ apply (q_connected _ _ (q_still _ _ H)) | apply (q_active _ _ H) | apply (q_mem_next _ _ H)
                           | apply (q_no_progress _ _ H) | apply (q_reaped _ _ H) ]
                 end ].

(** Walk a method's text. *)
Ltac keep := repeat (first [keep_step ltac:(eauto 5 with daemon) ltac:(remembered) | solve [eauto 5 with daemon]]).

(** The methods of the daemon that keep every condition the monitor of a theorem
    is indifferent to: all but those that start, publish or stop a worker, and,
    given what those ask is harmless or justified, these too. *)

(** ** State files, connections and runtimes *)

Section still.
Context {W : Type} (step : W -> forall B : Type, call B -> B -> option W) (I : daemon -> W -> Prop) (HI : still step I).
Context (e : environ).

Abbreviation K := (keeps step I).

Lemma read_state_kept : K (read_state e).
Proof. unfold read_state. keep. Qed.
#[local] Hint Resolve read_state_kept : daemon.
Lemma write_state_kept st : K (write_state e st).
Proof. unfold write_state. keep. Qed.
#[local] Hint Resolve write_state_kept : daemon.
Lemma rewrite_state_kept f : K (rewrite_state e f).
Proof. unfold rewrite_state. keep. Qed.
#[local] Hint Resolve rewrite_state_kept : daemon.
Lemma write_safe_kept st : K (_write_state_authority_safe e st).
Proof. unfold _write_state_authority_safe. keep. Qed.
#[local] Hint Resolve write_safe_kept : daemon.
Lemma cache_kept f : K (_cache_spawn_local e f).
Proof. unfold _cache_spawn_local. keep. Qed.
#[local] Hint Resolve cache_kept : daemon.
Lemma write_meta_kept m : K (write_meta e m).
Proof. unfold write_meta. keep. Qed.
#[local] Hint Resolve write_meta_kept : daemon.
Lemma discard_kept : K _discard_authority_connection.
Proof. unfold _discard_authority_connection. keep. Qed.
#[local] Hint Resolve discard_kept : daemon.
Lemma connection_kept : K _spawn_authority_connection.
Proof. unfold _spawn_authority_connection. keep. Qed.
#[local] Hint Resolve connection_kept : daemon.
Lemma meta_alive_kept m : K (meta_alive m).
Proof. unfold meta_alive. keep. Qed.
#[local] Hint Resolve meta_alive_kept : daemon.
Lemma start_ticks_kept p : K (start_ticks p).
Proof. unfold start_ticks. keep. Qed.
#[local] Hint Resolve start_ticks_kept : daemon.
Lemma executable_kept c : K (_resolve_spawn_executable c).
Proof. unfold _resolve_spawn_executable. keep. Qed.
#[local] Hint Resolve executable_kept : daemon.
Lemma or_else_kept a b : K b -> K (or_else a b).
Proof. intros H. unfold or_else. keep. Qed.
#[local] Hint Resolve or_else_kept : daemon.
Lemma worker_id_kept : K (spawn_worker_id e).
Proof. unfold spawn_worker_id. keep; apply or_else_kept; keep; apply or_else_kept; keep. Qed.
#[local] Hint Resolve worker_id_kept : daemon.
Lemma confirmed_runtime_kept : K confirmed_runtime.
Proof. unfold confirmed_runtime. keep. Qed.
#[local] Hint Resolve confirmed_runtime_kept : daemon.
Lemma derive_action_kept : K (_derive_action e).
Proof. unfold _derive_action. keep. Qed.
#[local] Hint Resolve derive_action_kept : daemon.
Lemma active_live_kept : K _active_worker_live.
Proof. unfold _active_worker_live. keep. Qed.
#[local] Hint Resolve active_live_kept : daemon.
Lemma runs_ours_kept r c : K (runs_ours r c).
Proof. unfold runs_ours. keep. Qed.
#[local] Hint Resolve runs_ours_kept : daemon.
Lemma owned_hold_kept h : K (_owned_hold_child h).
Proof. unfold _owned_hold_child. keep. Qed.
#[local] Hint Resolve owned_hold_kept : daemon.
Lemma unresolved_alive_kept h : K (_unresolved_alive h).
Proof. unfold _unresolved_alive. keep. Qed.
#[local] Hint Resolve unresolved_alive_kept : daemon.
Lemma await_exit_kept n t h : K (await_exit n t h).
Proof. induction n; cbn [await_exit]; keep. Qed.
#[local] Hint Resolve await_exit_kept : daemon.
Lemma await_unresolved_kept s fuel h : K (_await_unresolved_exit s fuel h).
Proof. unfold _await_unresolved_exit. keep. Qed.
#[local] Hint Resolve await_unresolved_kept : daemon.
End still.

#[export] Hint Resolve read_state_kept write_state_kept rewrite_state_kept write_safe_kept cache_kept write_meta_kept discard_kept connection_kept meta_alive_kept start_ticks_kept executable_kept or_else_kept worker_id_kept confirmed_runtime_kept derive_action_kept active_live_kept runs_ours_kept
  owned_hold_kept unresolved_alive_kept await_exit_kept await_unresolved_kept : daemon.

(** A question about the row: [M a] holds when [a] answers it, [N] when nothing does. *)
Lemma on_row_watched {W A B : Type} (step : W -> forall B : Type, call B -> B -> option W) (P N : daemon -> W -> Prop)
    (M : A -> daemon -> W -> Prop) (closed : B) refused (q : AuthorityClaim -> call (res A)) k Q :
  still step P -> still step N ->
  (forall d w claim r, P d w -> _authority d = Some claim ->
     exists w', step w _ (q claim) r = Some w' /\ (if r is Ok a then M a d w' else N d w')) ->
  (forall d w, P d w -> N d w) -> (forall d w, N d w -> Q (Ok closed) d w) -> (forall x d w, N d w -> Q (Raise x) d w) ->
  (forall a, watched step (M a) (k a) Q) ->
  watched step P (on_row closed refused q k) Q.
Proof.
  intros HP HN Hq HPN HQc HQx Hk. unfold on_row. apply watched_self_bind. intros d0.
  destruct (_authority d0) as [claim|] eqn:Hd0; [|apply watched_ret; intros d w [? _]; by apply HQc, HPN].
  apply (watched_mono step (fun d w => P d w /\ _authority d = Some claim) _ _ Q); [|by intros d w [? ->]|done].
  pose proof (still_and step P (fun d => _authority d = Some claim) HP ltac:(done)) as Hst.
  apply watched_keeps; [by apply (connection_kept step _ Hst)|intros x d w [? _]; by apply HQx, HPN|].
  intros [|]; [|apply watched_ret; intros d w [? _]; by apply HQc, HPN].
  eapply (watched_bind step _ _ _ (fun r d w => if r is Ok r then (if r is Ok a then M a d w else N d w) else False)); [| |done].
  - eapply (watched_mono step (fun d w => P d w /\ _authority d = Some claim));
      [apply (watched_outcome step _ _ (fun r d w => if r is Ok a then M a d w else N d w)), watched_ask_res| |]; try done.
    intros d w r [? ?]. by apply Hq.
  - assert (watched step N (_ ← _discard_authority_connection; mret closed) Q) as Hdis.
    { apply watched_keeps; [by apply discard_kept|done|]. intros []. by apply watched_ret. }
    assert (forall x, watched step N (raise x) Q) as Hraise by (intros x; by apply watched_raise, HQx).
    assert (watched step N (mret closed) Q) as Hret by by apply watched_ret.
    intros [a|x]; [by apply Hk|].
    destruct x; try destruct refused; first [exact Hdis|exact Hret|exact (Hraise _)].
Qed.

(** Confirming the authority: [M] holds when the answer is yes. *)
Lemma confirm_watched {W : Type} (step : W -> forall B : Type, call B -> B -> option W) (P M : daemon -> W -> Prop) :
  still step P ->
  (forall d w claim r, P d w -> _authority d = Some claim ->
     exists w', step w _ (ConfirmAuthority claim) r = Some w' /\ (if r is Ok true then M d w' else P d w')) ->
  watched step P _confirm_authority (fun r d w => if r is Ok true then M d w else P d w).
Proof.
  intros HP Hq. unfold _confirm_authority. apply watched_self_bind. intros d0.
  destruct (_authority d0) as [claim|] eqn:Hd0; [|apply watched_ret; by intros d w [? _]].
  apply (watched_mono step (fun d w => P d w /\ _authority d = Some claim) _ _ (fun r d w => if r is Ok true then M d w else P d w));
    [|by intros d w [? ->]|done].
  pose proof (still_and step P (fun d => _authority d = Some claim) HP ltac:(done)) as Hst.
  eapply (watched_bind step _ _ _ (fun r d w => if r is Ok r then (if r is Ok true then M d w else P d w) else False)); [| |done].
  - eapply (watched_mono step (fun d w => P d w /\ _authority d = Some claim));
      [apply (watched_outcome step _ _ (fun r d w => if r is Ok true then M d w else P d w))| |]; try done.
    apply watched_keeps; [destruct (connected d0); keep|by intros x d w [? _]|]. intros _.
    apply watched_ask_res. intros d w r [? ?]. by apply Hq.
  - assert (watched step P (_ ← _discard_authority_connection; mret false)
      (fun r d w => if r is Ok true then M d w else P d w)) as Hdis.
    { apply watched_keeps; [by apply discard_kept|done|]. intros []. by apply watched_ret. }
    intros [b|x]; [by apply watched_ret|]. destruct (unreachable x); [exact Hdis|by apply watched_raise].
Qed.

(** A guard that ends the method unless it answers yes. *)
Lemma watched_unless {W : Type} (step : W -> forall B : Type, call B -> B -> option W) (P M : daemon -> W -> Prop) m next Q :
  watched step P m (fun r => match r with Ok true => M | Ok false => Q (Ok tt) | Raise x => Q (Raise x) end) ->
  watched step M next Q -> watched step P (unless_held m next) Q.
Proof. intros Hm Hn. eapply watched_bind; [exact Hm| |done]. intros [|]; [done|by apply watched_ret]. Qed.

Section kept.
Context {W : Type} (step : W -> forall B : Type, call B -> B -> option W) (I : daemon -> W -> Prop) (HI : quiet step I).
Context (e : environ) (s : Settings) (me : Z) (fuel : nat).

Abbreviation K := (keeps step I).

(** ** The authority row *)


Lemma confirm_kept : (forall c, harmless step I (ConfirmAuthority c)) -> K _confirm_authority.
Proof. intros H. unfold _confirm_authority. keep. Qed.
#[local] Hint Resolve confirm_kept : daemon.

Lemma on_row_kept {A B : Type} (closed : B) refused (q : AuthorityClaim -> call (res A)) k :
  (forall c, harmless step I (q c)) -> (forall a, K (k a)) -> K (on_row closed refused q k).
Proof. intros Hq Hk. unfold on_row. keep. Qed.
#[local] Hint Resolve on_row_kept : daemon.

Lemma clear_spawn_kept : K _clear_spawn_authority.
Proof. unfold _clear_spawn_authority. apply on_row_kept; intros; keep. Qed.
#[local] Hint Resolve clear_spawn_kept : daemon.
Lemma clear_worker_kept t : K (_clear_worker_authority t).
Proof. unfold _clear_worker_authority. apply on_row_kept; intros; keep. Qed.
#[local] Hint Resolve clear_worker_kept : daemon.
Lemma read_spawn_kept : K _read_spawn_authority.
Proof. unfold _read_spawn_authority. apply on_row_kept; intros; keep. Qed.
#[local] Hint Resolve read_spawn_kept : daemon.
Lemma read_worker_kept : K _read_worker_authority.
Proof. unfold _read_worker_authority. apply on_row_kept; intros; keep. Qed.
#[local] Hint Resolve read_worker_kept : daemon.

(** ** Live workers *)

Lemma child_alive_kept st : K (_child_alive e me st).
Proof. unfold _child_alive. keep. Qed.
#[local] Hint Resolve child_alive_kept : daemon.
Lemma forget_kept t : K (forget_active t).
Proof. unfold forget_active. keep. Qed.
#[local] Hint Resolve forget_kept : daemon.
Lemma recover_unless_kept t : K (recover_unless_drained t).
Proof. unfold recover_unless_drained. keep. Qed.
#[local] Hint Resolve recover_unless_kept : daemon.
Lemma recovered_kept m : K m -> K (recovered m).
Proof. intros H. unfold recovered. keep. Qed.
#[local] Hint Resolve recovered_kept : daemon.
Lemma recover_groups_kept t : K (_recover_spawn_owned_groups t).
Proof. apply recovered_kept. keep. Qed.
#[local] Hint Resolve recover_groups_kept : daemon.
Lemma db_running_kept c : K (_db_worker_running c).
Proof. unfold _db_worker_running. keep. Qed.
#[local] Hint Resolve db_running_kept : daemon.

(** ** Obligations *)

Lemma hold_kept : K (hold_for_a_poll e s).
Proof. unfold hold_for_a_poll. keep. Qed.
#[local] Hint Resolve hold_kept : daemon.
Lemma converge_unresolved_kept h : K (_converge_unresolved s fuel h).
Proof. unfold _converge_unresolved. keep. Qed.
#[local] Hint Resolve converge_unresolved_kept : daemon.
Lemma adopt_kept o : K (_adopt_db_published e o).
Proof. unfold _adopt_db_published. keep. Qed.
#[local] Hint Resolve adopt_kept : daemon.
Lemma finish_kept st o : K (_finish_publication e st o).
Proof. unfold _finish_publication. keep. Qed.
#[local] Hint Resolve finish_kept : daemon.
Lemma created_here_kept o : K (created_here me o).
Proof. unfold created_here. keep. Qed.
#[local] Hint Resolve created_here_kept : daemon.
Lemma pidless_kept o : K (_resolve_pidless_spawn s me o).
Proof. unfold _resolve_pidless_spawn. keep. Qed.
#[local] Hint Resolve pidless_kept : daemon.
Lemma identified_kept o p : K (_resolve_identified_spawn e s fuel o p).
Proof. unfold _resolve_identified_spawn. keep. Qed.
#[local] Hint Resolve identified_kept : daemon.
Lemma settle_obligation_kept st o : K (_settle_spawning_obligation e s me fuel st o).
Proof. unfold _settle_spawning_obligation. keep. Qed.
#[local] Hint Resolve settle_obligation_kept : daemon.
Lemma resolve_spawning_kept : K (_resolve_spawning_obligation e s me fuel).
Proof. unfold _resolve_spawning_obligation. keep. Qed.
#[local] Hint Resolve resolve_spawning_kept : daemon.
Lemma resolve_unresolved_kept : K (_resolve_unresolved_child e s fuel).
Proof. unfold _resolve_unresolved_child. keep. Qed.
#[local] Hint Resolve resolve_unresolved_kept : daemon.

(** ** Around a spawn *)

Lemma observe_identity_kept n t p : K (observe_identity n t p).
Proof. induction n; cbn [observe_identity]; keep. Qed.
#[local] Hint Resolve observe_identity_kept : daemon.
Lemma await_observable_kept p : K (_await_observable_identity s fuel p).
Proof. unfold _await_observable_identity. keep. Qed.
#[local] Hint Resolve await_observable_kept : daemon.
Lemma release_kept t b : K (_release_unproven_spawn_authority e t b).
Proof. unfold _release_unproven_spawn_authority. keep. Qed.
#[local] Hint Resolve release_kept : daemon.
Lemma record_hold_kept p ticks t : K (record_hold e p ticks t).
Proof. unfold record_hold. keep. Qed.
#[local] Hint Resolve record_hold_kept : daemon.
Lemma record_private_kept i t w : K (_record_proven_private_child e i t w).
Proof. unfold _record_proven_private_child. keep. Qed.
#[local] Hint Resolve record_private_kept : daemon.
Lemma persist_hold_kept p t b : K (_persist_unobservable_hold e p t b).
Proof. unfold _persist_unobservable_hold. keep. Qed.
#[local] Hint Resolve persist_hold_kept : daemon.
Lemma preserve_kept o p t : K (_preserve_blocking_obligation e o p t).
Proof. unfold _preserve_blocking_obligation. keep. Qed.
#[local] Hint Resolve preserve_kept : daemon.
Lemma obligation_for_kept c : K (_spawn_obligation_for e c).
Proof. unfold _spawn_obligation_for. keep. Qed.
#[local] Hint Resolve obligation_for_kept : daemon.
Lemma spawn_failure_kept c t : K (_record_spawn_failure e s c t).
Proof. unfold _record_spawn_failure. keep. Qed.
#[local] Hint Resolve spawn_failure_kept : daemon.
Lemma dropping_kept m : K m -> K (dropping m).
Proof. intros H. unfold dropping. keep. Qed.
#[local] Hint Resolve dropping_kept : daemon.
Lemma cache_published_kept c m t o : K (_cache_published_child e s c m t o).
Proof. unfold _cache_published_child. keep. Qed.
#[local] Hint Resolve cache_published_kept : daemon.
Lemma gate_kept : K _gate_db_spawn.
Proof. unfold _gate_db_spawn. keep. Qed.
#[local] Hint Resolve gate_kept : daemon.

(** ** Around a tick *)

Lemma normalize_kept : K (normalize_cross_boot_state e).
Proof. unfold normalize_cross_boot_state. keep. Qed.
#[local] Hint Resolve normalize_kept : daemon.
Lemma clear_child_kept : K (_clear_child e).
Proof. unfold _clear_child. keep. Qed.
#[local] Hint Resolve clear_child_kept : daemon.
Lemma returncode_kept : K _last_proc_returncode.
Proof. unfold _last_proc_returncode. keep. Qed.
#[local] Hint Resolve returncode_kept : daemon.
Lemma handle_crash_kept st t : K (_handle_crash e s st t).
Proof. unfold _handle_crash. keep. Qed.
#[local] Hint Resolve handle_crash_kept : daemon.
Lemma handle_db_crash_kept t : K (_handle_db_crash e s t).
Proof. unfold _handle_db_crash. keep. Qed.
#[local] Hint Resolve handle_db_crash_kept : daemon.
Lemma in_backoff_kept t : K (_in_backoff e t).
Proof. unfold _in_backoff. keep. Qed.
#[local] Hint Resolve in_backoff_kept : daemon.
Lemma reset_backoff_kept st t : K (_maybe_reset_backoff e s me st t).
Proof. unfold _maybe_reset_backoff. keep. Qed.
#[local] Hint Resolve reset_backoff_kept : daemon.
Lemma crash_blocks_kept t : K (_db_crash_blocks e s t).
Proof. unfold _db_crash_blocks. keep. Qed.
#[local] Hint Resolve crash_blocks_kept : daemon.
Lemma back_off_kept n : K (back_off e s n).
Proof. unfold back_off. keep. Qed.
#[local] Hint Resolve back_off_kept : daemon.
Lemma mission_progress_kept c : K (_record_mission_progress e me c).
Proof. unfold _record_mission_progress. keep. Qed.
#[local] Hint Resolve mission_progress_kept : daemon.
Lemma not_ready_kept st t : K (_record_not_ready e s st t).
Proof. unfold _record_not_ready. keep. Qed.
#[local] Hint Resolve not_ready_kept : daemon.
Lemma health_retirement_kept t : K (_record_health_retirement e s t).
Proof. unfold _record_health_retirement. keep. Qed.
#[local] Hint Resolve health_retirement_kept : daemon.
Lemma confirms_kept c t : K (confirms s c t).
Proof. unfold confirms. keep. Qed.
#[local] Hint Resolve confirms_kept : daemon.
Lemma observe_child_kept st t : K (observe_child e s me st t).
Proof. unfold observe_child. keep. Qed.
#[local] Hint Resolve observe_child_kept : daemon.
End kept.

#[export] Hint Resolve confirm_kept on_row_kept clear_spawn_kept clear_worker_kept read_spawn_kept read_worker_kept child_alive_kept forget_kept recover_unless_kept recovered_kept recover_groups_kept db_running_kept hold_kept converge_unresolved_kept adopt_kept finish_kept created_here_kept pidless_kept identified_kept settle_obligation_kept resolve_spawning_kept resolve_unresolved_kept observe_identity_kept await_observable_kept release_kept record_hold_kept record_private_kept persist_hold_kept preserve_kept obligation_for_kept spawn_failure_kept dropping_kept cache_published_kept gate_kept normalize_kept clear_child_kept returncode_kept handle_crash_kept handle_db_crash_kept in_backoff_kept reset_backoff_kept crash_blocks_kept back_off_kept mission_progress_kept not_ready_kept health_retirement_kept confirms_kept observe_child_kept : daemon.

(** ** Stopping and converging a worker *)

Section direct.
Context {W : Type} (step : W -> forall B : Type, call B -> B -> option W) (I : daemon -> W -> Prop) (HI : quiet step I).
Context (e : environ) (s : Settings) (me : Z) (fuel : nat).

Abbreviation K := (keeps step I).

Lemma retire_db_kept r : (forall m g, harmless step I (StopWorker m g)) -> K (_retire_db_worker e s r).
Proof. intros H. unfold _retire_db_worker. keep. Qed.
#[local] Hint Resolve retire_db_kept : daemon.
Lemma reconcile_db_kept c : (forall m g, harmless step I (StopWorker m g)) -> K (_reconcile_db_worker e s c).
Proof. intros H. unfold _reconcile_db_worker. keep. Qed.
Lemma retire_child_kept b :
  (forall c, harmless step I (ConfirmAuthority c)) -> (forall m g, harmless step I (StopWorker m g)) -> K (_retire_child e s b).
Proof. intros Hc H. unfold _retire_child. keep. Qed.

(** The process [p] may be signalled through its handle. *)
Context (p : Z) (Hterm : harmless step I (Terminate p)) (Hkill : harmless step I (Kill p)).

Lemma reaped_kept : K (reaped s p).
Proof. unfold reaped. keep. Qed.
#[local] Hint Resolve reaped_kept : daemon.
Lemma converge_direct_kept : K (_converge_direct_child s p).
Proof. unfold _converge_direct_child. keep. Qed.
#[local] Hint Resolve converge_direct_kept : daemon.
Lemma wait_identity_kept n t : K (wait_identity n t p) /\ K (wait_more n t p).
Proof. induction n as [|n [IH1 IH2]]; cbn [wait_identity wait_more]; split; keep. Qed.
Lemma wait_for_identity_kept : K (_wait_for_identity s fuel p).
Proof. unfold _wait_for_identity. keep. apply wait_identity_kept. Qed.
Lemma poll_if_kept b : K (poll_if b p).
Proof. unfold poll_if. keep. Qed.
#[local] Hint Resolve wait_for_identity_kept poll_if_kept : daemon.
Lemma settle_kept n t w b : K (settle e s fuel n p t w b).
Proof. revert b. induction n; intros b; cbn [settle]; unfold _record_shared_group_hold; keep. Qed.
#[local] Hint Resolve settle_kept : daemon.
Lemma settle_unproven_kept t w : K (_settle_unproven_spawn e s fuel p t w).
Proof. unfold _settle_unproven_spawn. keep. Qed.
Lemma recover_unpublished_kept o t : K (_recover_unpublished_spawn e s p o t).
Proof. unfold _recover_unpublished_spawn. keep. Qed.
#[local] Hint Resolve settle_unproven_kept recover_unpublished_kept : daemon.
Lemma publish_spawned_kept o c t w : K (_publish_spawned_child e s fuel p o c t w).
Proof. unfold _publish_spawned_child. keep. Qed.
End direct.

#[export] Hint Resolve retire_db_kept reconcile_db_kept retire_child_kept reaped_kept converge_direct_kept wait_for_identity_kept
  poll_if_kept settle_kept settle_unproven_kept recover_unpublished_kept publish_spawned_kept : daemon.

(** ** The cycle, given the parts that start and retire workers *)

(** A handle held may be signalled: [J p] says so while [I] goes on. *)
Definition owns {W : Type} (step : W -> forall B : Type, call B -> B -> option W) (I : daemon -> W -> Prop)
    (J : Z -> daemon -> W -> Prop) : Prop :=
  forall p, quiet step (J p) /\ harmless step (J p) (Terminate p) /\ harmless step (J p) (Kill p)
    /\ (forall d w, J p d w -> I d w) /\ (forall d w, I d w -> proc d = Some p -> J p d w).

Lemma owns_all {W : Type} (step : W -> forall B : Type, call B -> B -> option W) I :
  quiet step I -> (forall p, harmless step I (Terminate p)) -> (forall p, harmless step I (Kill p)) -> owns step I (fun _ => I).
Proof. intros HI Ht Hk p. by split_and!. Qed.

Section cycle.
Context {W : Type} (step : W -> forall B : Type, call B -> B -> option W) (I : daemon -> W -> Prop) (HI : quiet step I).
Context (e : environ) (s : Settings) (me : Z) (fuel : nat).

Abbreviation K := (keeps step I).

Lemma converge_held_kept J : owns step I J -> K (converge_held s).
Proof.
  intros HJ. apply watched_self_bind. intros d. destruct (proc d) as [p|] eqn:Hp.
  - destruct (HJ p) as (Hq & Ht & Hk & HJI & HIJ).
    eapply watched_mono; [by apply (converge_direct_kept step (J p) Hq)| |by auto].
    intros d' w [HId ->]. by apply HIJ.
  - apply watched_ret. by intros d' w [HId _].
Qed.
#[local] Hint Resolve converge_held_kept : daemon.
Lemma converge_without_kept J c t : owns step I J -> K (_converge_spawn_without_obligation e s c t).
Proof. intros HJ. unfold _converge_spawn_without_obligation. keep. Qed.

Lemma spawn_and_publish_kept J c :
  (forall cl t w, harmless step I (PublishWorker cl t w)) -> owns step I J -> K (spawn_intended e s me fuel c) ->
  K (_spawn_and_publish e s me fuel c).
Proof.
  intros Hp HJ Hs. unfold _spawn_and_publish, _publish_worker_authority, on_row.
  assert (forall c t, K (_converge_spawn_without_obligation e s c t)) by (intros; by eapply converge_without_kept).
  keep.
Qed.

Lemma ensure_consumer_kept c :
  K _confirm_authority -> K (_reconcile_db_worker e s c) -> K (_spawn_and_publish e s me fuel c) -> K (_ensure_consumer_locked e s me fuel c).
Proof. intros Hc Hr Hs. unfold _ensure_consumer_locked, unless_held. keep. Qed.

(** [reconcile] keeps what its retirements and its spawns keep. *)
Section tick.
Context (Hretire : forall b, K (_retire_child e s b)) (Hensure : forall c, K (_ensure_worker e s me fuel c)).

#[local] Hint Resolve Hretire Hensure : daemon.

Lemma apply_desired_kept d : K (_apply_desired e s me fuel d).
Proof. unfold _apply_desired. keep. Qed.
Lemma ensure_held_kept : K (_ensure_held e s).
Proof. unfold _ensure_held. keep. Qed.
#[local] Hint Resolve apply_desired_kept ensure_held_kept : daemon.
Lemma apply_newer_kept st c : K (_apply_newer_desired e s me fuel st c).
Proof. unfold _apply_newer_desired. keep. Qed.
Lemma safety_retirement_kept : K (_retire_child_for_safety e s).
Proof. unfold _retire_child_for_safety. keep. Qed.
Lemma progress_retirement_kept t : K (_retire_child_for_absent_forward_progress e s t).
Proof. unfold _retire_child_for_absent_forward_progress. keep. Qed.
#[local] Hint Resolve apply_newer_kept safety_retirement_kept progress_retirement_kept : daemon.
Lemma probe_kept t : K (_probe_readiness e s me t).
Proof. unfold _probe_readiness. keep. Qed.
#[local] Hint Resolve probe_kept : daemon.
Lemma reconcile_kept t : K (reconcile e s me fuel t).
Proof. unfold reconcile. keep. Qed.
End tick.
End cycle.
