(* ===== verification/DaemonFence.v ===== *)
(** No worker is started outside the fence: the locks, the confirmed authority, the
    sources that authorize it and the obligation committed for it, whatever the world
    answers. *)

From S2P Require Import Prelude PyStr PyNum Json ProcFs LifecycleState AuthorityRow Durable StatePaths SupervisorCodec Store Mission SupervisorFiles ControlRequests Programs Daemon DaemonWorkers DaemonObligations DaemonSpawn DaemonTick DaemonRuns.
From stdpp Require Import gmap.

#[local] Open Scope Z_scope.
#[local] Arguments py : simpl never.

(** ** Starting a worker, in general *)

Section spawning.
Context {W : Type} (step : W -> forall B : Type, call B -> B -> option W).
Context (e : environ) (s : Settings) (me : Z) (fuel : nat) (commit : pystr).

(** [J] holds before the sources are read, [Authorized] once they authorize a spawn,
    [Committed o] once [o] is on the row, [Started p o] once [p] runs for it, and
    [Lost] when it could not be started. *)
Context (J Authorized Lost : daemon -> W -> Prop) (Committed : SpawningObligation -> daemon -> W -> Prop)
  (Started : Z -> SpawningObligation -> pystr -> daemon -> W -> Prop) (Q : res (option WorkerChild) -> daemon -> W -> Prop).

Context (HJ : still step J) (HA : still step Authorized) (HL : quiet step Lost) (HC : forall o, still step (Committed o)).
Context (Hsources : forall d w src, J d w -> exists w', step w _ Sources src = Some w' /\ J d w'
  /\ (forall facts, reconcile_authority_facts src = Ok facts -> authorize_spawn facts = true -> Authorized d w')).
Context (Hcommit : forall o claim d w r, Authorized d w -> _authority d = Some claim -> so_commit o = commit ->
  exists w', step w _ (CommitSpawn claim (_db_spawn_record o)) r = Some w'
    /\ (if r is Ok true then Committed o d w' else J d w')).
Context (Hpopen : forall o exe wid d w r, Committed o d w -> so_commit o = commit ->
  exists w', step w _ (Popen exe commit (so_token o) wid) r = Some w'
    /\ (if r is Ok p then Started p o wid (set_proc (Some p) d) w' else Lost d w')).
Context (Hstarted : forall p o wid, so_commit o = commit -> watched step (Started p o wid)
  (child_ticks ← start_ticks p; _publish_spawned_child e s fuel p o child_ticks (so_token o) wid) Q).
Context (HJraise : forall x d w, J d w -> Q (Raise x) d w) (HJnone : forall d w, J d w -> Q (Ok None) d w).
Context (HAJ : forall d w, Authorized d w -> J d w) (HCL : forall o d w, Committed o d w -> Lost d w)
  (HLQ : forall x d w, Lost d w -> Q (Raise x) d w) (HLN : forall d w, Lost d w -> Q (Ok None) d w).

Lemma commit_watched o : so_commit o = commit ->
  watched step Authorized (_commit_spawn_authority o) (fun r d w => if r is Ok true then Committed o d w else J d w).
Proof.
  intros Ho. unfold _commit_spawn_authority. eapply (on_row_watched step _ J (fun r d w => if r is true then Committed o d w else J d w)); try done.
  - intros d w claim r HP Hc. destruct (Hcommit o claim d w r HP Hc Ho) as (w' & Hs & H). exists w'. by destruct r as [[|]|].
  - intros [|]; by apply watched_ret.
Qed.

Lemma spawn_worker_watched : watched step J (_spawn_worker e s me fuel commit) Q.
Proof.
  unfold _spawn_worker.
  apply (watched_keeps step J); [keep|done|intros [exe|]; [|by apply watched_ret]].
  apply (watched_keeps step J); [keep|done|intros token].
  apply (watched_keeps step J); [keep|done|intros wid].
  apply (watched_keeps step J); [keep|done|intros [|]; [|by apply watched_ret]].
  apply (watched_keeps step J); [keep|done|intros ticks].
  apply (watched_keeps step J); [keep|done|intros now].
  apply (watched_keeps step J); [keep|done|intros boot]. cbv zeta.
  set (o := mkSpawning token _ _ _ _ _ _ _ _).
  apply (watched_keeps step J); [keep|done|intros _].
  eapply (watched_bind step _ _ _ (fun r d w => if r is Ok src then J d w /\ (forall facts, reconcile_authority_facts src = Ok facts ->
    authorize_spawn facts = true -> Authorized d w) else J d w)); [|intros src|by intros x d w; apply HJraise].
  { apply watched_ask. intros d w src HJd. destruct (Hsources d w src HJd) as (w' & ? & ? & ?). by exists w'. }
  eapply (watched_bind step _ _ _ (fun r d w => if r is Ok facts then J d w /\ (authorize_spawn facts = true -> Authorized d w) else J d w));
    [|intros facts|by intros x d w; apply HJraise].
  { apply watched_of_res. intros d w [HJd Hf]. destruct (reconcile_authority_facts src); naive_solver. }
  destruct (authorize_spawn facts); cbn [negb]; [|apply watched_ret; intros d w [? _]; by apply HJnone].
  eapply watched_bind; [eapply watched_mono; [by apply (commit_watched o)|intros d w [_ H]; by apply H|done]| |by intros x d w; apply HJraise].
  intros [|]; [|by apply watched_ret].
  apply (watched_keeps step (Committed o)); [by apply (cache_kept step _ (HC o))|by intros; eapply HLQ, HCL|intros _].
  eapply (watched_bind step _ _ _ (fun r d w => if r is Ok r then (if r is Ok p then Started p o wid (set_proc (Some p) d) w else Lost d w) else False));
    [|intros [p|x]|done].
  { eapply watched_mono; [apply (watched_outcome step (Committed o)
      _ (fun r d w => if r is Ok p then Started p o wid (set_proc (Some p) d) w else Lost d w))| |]; try done.
    eapply (watched_bind step _ _ _ (fun r d w => if r is Ok _ then Committed o d w else Lost d w)); [|intros dir|done].
    - apply watched_of_res. intros d w HP. by destruct (cli_commit_dir e commit); [|eapply HCL].
    - apply watched_ask_res. intros d w r HP. by apply (Hpopen o). }
  - eapply (watched_bind step _ _ _ (fun r d w => if r is Ok _ then Started p o wid d w else False)); [|intros _|done].
    { by apply watched_update. }
    exact (Hstarted p o wid eq_refl).
  - destruct (is_os_error x || is_subprocess_error x); [|apply watched_raise; intros d w; apply HLQ].
    assert (watched step Lost (mret None) Q) as Hnone by by apply watched_ret.
    apply (watched_keeps step Lost); [keep|by auto|intros [|]; [|done]].
    apply (watched_keeps step Lost); [keep|by auto|done].
Qed.

End spawning.

(** ** No worker outside the fence *)

Module Fence.
Record fence := mkFence {
  consumer : bool;
  generation : bool;
  (** the authority confirmed since the generation lock was taken *)
  confirmed : option AuthorityClaim;
  (** what the last sources read say of a spawn *)
  authorized : bool;
  (** the obligation on the row that no process has been started for *)
  obliged : option SpawnObligation;
}.

Definition acquired (l : lock) (w : fence) : fence :=
  match l with
  | consumer_lock => mkFence true (generation w) (confirmed w) (authorized w) (obliged w)
  | generation_lock => mkFence (consumer w) true None false None
  | _ => w
  end.
Definition released (l : lock) (w : fence) : fence :=
  match l with
  | consumer_lock => mkFence false (generation w) (confirmed w) (authorized w) (obliged w)
  | generation_lock => mkFence (consumer w) false None false None
  | _ => w
  end.

Definition is_claim (a : option AuthorityClaim) (claim : AuthorityClaim) : bool := bool_decide (a = Some claim).
Definition is_obliged (a : option SpawnObligation) (commit token : pystr) : bool :=
  match a with Some o => str_eqb (sp_commit o) commit && str_eqb (sp_token o) token | None => false end.

Definition step (w : fence) (B : Type) (c : call B) : B -> option fence :=
  match c in call B return B -> option fence with
  | Acquire l => fun r => Some (if r is Ok _ then acquired l w else w)
  | Release l => fun _ => Some (released l w)
  | ConfirmAuthority claim => fun r =>
      Some (mkFence (consumer w) (generation w) (if r is Ok true then Some claim else None) (authorized w) (obliged w))
  | Sources => fun src =>
      Some (mkFence (consumer w) (generation w) (confirmed w)
        (if reconcile_authority_facts src is Ok facts then authorize_spawn facts else false) (obliged w))
  | CommitSpawn claim o => fun r =>
      if consumer w && generation w && is_claim (confirmed w) claim && authorized w
      then Some (mkFence (consumer w) (generation w) (confirmed w) (authorized w) (if r is Ok true then Some o else None))
      else None
  | Popen _ commit token _ => fun _ =>
      if consumer w && generation w && is_obliged (obliged w) commit token
      then Some (mkFence (consumer w) (generation w) (confirmed w) (authorized w) None)
      else None
  | _ => fun _ => Some w
  end.

Abbreviation condition := (daemon -> fence -> Prop).
Definition anything : condition := fun _ _ => True.
Definition locked : condition := fun _ w => consumer w = true.
Definition both : condition := fun _ w => consumer w = true /\ generation w = true.
Definition trusted : condition := fun d w => both d w /\ confirmed w = _authority d.
Definition permitted : condition := fun d w => trusted d w /\ authorized w = true.
Definition committed (o : SpawningObligation) : condition := fun d w => both d w /\ obliged w = Some (_db_spawn_record o).

Lemma anything_quiet : quiet step anything.
Proof. repeat split; intros; try (intros ? ? ? ?; cbn); try by eexists. Qed.
Lemma locked_quiet : quiet step locked.
Proof. repeat split; intros; try (intros ? ? ? ?; cbn); try (by eexists); try done. Qed.
Lemma both_quiet : quiet step both.
Proof. repeat split; intros; try (intros ? ? ? ?; cbn); try (by eexists); try done; try apply H. Qed.
Lemma trusted_still : still step trusted.
Proof. split; intros; try (intros ? ? ? ?; cbn); try (by eexists); try done; try apply H. Qed.
Lemma permitted_still : still step permitted.
Proof. split; intros; try (intros ? ? ? ?; cbn); try (by eexists); try done; try apply H. Qed.
Lemma committed_still o : still step (committed o).
Proof. split; intros; try (intros ? ? ? ?; cbn); try (by eexists); try done; try apply H. Qed.

Section fenced.
Context (e : environ) (s : Settings) (me : Z) (fuel : nat).

Lemma spawn_worker_both c : watched step trusted (_spawn_worker e s me fuel c) (fun _ => both).
Proof.
  apply (spawn_worker_watched step e s me fuel c trusted permitted both committed (fun _ _ _ => both));
    auto using trusted_still, permitted_still, both_quiet, committed_still.
  - intros d w src H. eexists. split; [done|]. split; [done|]. intros facts Hf Ha. split; [done|]. cbn. by rewrite Hf.
  - intros o claim d w r [[[Hc Hg] Hf] Ha] Hd _. cbn. unfold is_claim. rewrite Hc, Hg, Ha, bool_decide_true by congruence.
    eexists. split; [done|]. by destruct r as [[|]|].
  - intros o exe wid d w r [[Hc Hg] Ho] <-. cbn. unfold is_obliged. rewrite Hc, Hg, Ho. cbn. rewrite !str_eqb_refl.
    eexists. split; [done|]. by destruct r.
  - intros p o wid _. pose proof both_quiet. apply keeps_bind; [keep|intros t].
    apply publish_spawned_kept; [done|by intros d w b Hb; eexists..].
  - by intros _ d w [H _].
  - by intros d w [H _].
  - by intros d w [H _].
  - by intros o d w [H _].
Qed.

Lemma spawn_intended_locked c : keeps step locked (spawn_intended e s me fuel c).
Proof.
  pose proof both_quiet. apply (keeps_lock step locked both).
  - intros d w r Hw. eexists. split; [done|]. by destruct r.
  - apply keeps_bind; [keep|intros _]. apply keeps_bind; [keep|]. intros [[c'|]|]; [|keep..].
    destruct (negb (str_eqb c' c)); [keep|].
    eapply watched_bind; [apply (confirm_watched step both trusted); [keep|]| |done].
    + intros d w claim r Hw Hd. eexists. split; [done|]. by destruct r as [[|]|].
    + intros [|]; [|by apply watched_ret]. eapply watched_bind; [apply spawn_worker_both| |done].
      intros ch. by apply watched_ret.
  - intros d w b [Hw _]. eexists. by split.
Qed.

Lemma ensure_worker_fenced c : keeps step anything (_ensure_worker e s me fuel c).
Proof.
  pose proof locked_quiet as Hq. unfold _ensure_worker. keep.
  apply (keeps_lock step anything locked); [by intros d w [[]|x]; eexists| |by intros d w; eexists].
  apply ensure_consumer_kept; [done|apply confirm_kept; [done|by intros cl d w b Hb; eexists]|apply reconcile_db_kept; [done|by intros m g d w b Hb; eexists]|].
  apply (spawn_and_publish_kept step locked Hq e s me fuel (fun _ => locked)); [by intros cl t r d w b Hb; eexists| |apply spawn_intended_locked].
  by apply owns_all; [|intros p d w b Hb; eexists..].
Qed.

(** C1: Whatever the files, the database, the kernel and the other programs answer, a
    cycle commits a spawn obligation only while it holds the consumer lock and the
    generation lock, has had its own authority claim confirmed by the database since
    it took the generation lock, and the sources it read last authorize a spawn; and
    it starts a worker only while it still holds both locks, for the commit and the
    token of the obligation committed last, and at most once for each. *)
Theorem spawn_fenced now d tr rd w :
  runs (reconcile e s me fuel now d) tr rd -> is_Some (accepts step w tr).
Proof.
  intros Hr. pose proof anything_quiet as Hq.
  destruct (watched_runs step anything (reconcile e s me fuel now) (fun _ => anything) d w tr rd) as (w' & -> & _); [|done|done|done].
  apply reconcile_kept; [done|intros b; apply retire_child_kept; [done|by intros cl d' w' b' Hb; eexists|by intros m g d' w' b' Hb; eexists]|apply ensure_worker_fenced].
Qed.
End fenced.
End Fence.
