(* ===== verification/DaemonPublication.v ===== *)
(** No worker is published unproven: the row names only the process started last, as
    the leader of a session of its own it was seen to be. *)

From S2P Require Import Prelude PyStr PyNum Json ProcFs LifecycleState AuthorityRow Durable StatePaths SupervisorCodec Store Mission SupervisorFiles ControlRequests Programs Daemon DaemonWorkers DaemonObligations DaemonSpawn DaemonTick DaemonRuns DaemonFence.
From stdpp Require Import gmap.

#[local] Open Scope Z_scope.
#[local] Arguments py : simpl never.

(** ** No worker published unproven *)

Module Proven.
(** A worker started: its pid, commit, token and id. *)
Record started := mkStarted { ws_pid : Z; ws_commit : pystr; ws_token : pystr; ws_id : pystr }.

(** The worker started last, and the identities observed of it since. *)
Record state := mkProof { worker : option started; identities : list ProcessIdentity }.

Definition published_as (ws : started) (i : ProcessIdentity) : WorkerRecord :=
  mkWorker (ws_token ws) (ws_commit ws) (ws_pid ws) (ws_pid ws) (ws_pid ws) (id_start_time_ticks i) (ws_id ws).

(** [pf] shows the worker as the leader of a session and a group of its own. *)
Definition observed (pf : procfs) (w : state) : list ProcessIdentity :=
  match worker w with
  | Some ws =>
      match process_identity pf (ws_pid ws) with
      | Some i => if _identity_is_private_session i then i :: identities w else identities w
      | None => identities w
      end
  | None => identities w
  end.

Definition proven (w : state) (record : WorkerRecord) : bool :=
  match worker w with
  | Some ws => existsb (fun i => bool_decide (record = published_as ws i)) (identities w)
  | None => false
  end.

Definition step (w : state) (B : Type) (c : call B) : B -> option state :=
  match c in call B return B -> option state with
  | Popen _ commit token worker_id => fun r => Some (if r is Ok p then mkProof (Some (mkStarted p commit token worker_id)) [] else w)
  | Proc => fun pf => Some (mkProof (worker w) (observed pf w))
  | PublishWorker _ _ record => fun _ => if proven w record then Some w else None
  | _ => fun _ => Some w
  end.

Definition anything : daemon -> state -> Prop := fun _ _ => True.
Definition running (ws : started) : daemon -> state -> Prop := fun _ w => worker w = Some ws.
Definition seen (ws : started) (i : ProcessIdentity) : daemon -> state -> Prop := fun _ w =>
  worker w = Some ws /\ i ∈ identities w /\ id_pid i = ws_pid ws /\ id_pgid i = ws_pid ws /\ id_sid i = ws_pid ws.

Lemma unwatched_quiet : quiet step anything.
Proof. repeat split; intros; try (intros ? ? ? ?; cbn); try by eexists. Qed.
Lemma running_quiet ws : quiet step (running ws).
Proof. repeat split; intros; try (intros ? ? ? ?; cbn); try (by eexists); done. Qed.
Lemma observed_mono pf w i : i ∈ identities w -> i ∈ observed pf w.
Proof. intros H. unfold observed. repeat case_match; try done. by apply list_elem_of_further. Qed.
Lemma seen_quiet ws i : quiet step (seen ws i).
Proof.
  split; [split|..]; intros; try (intros ? ? ? (?&?&?&?&?); eexists; split; [reflexivity|by split_and!; try apply observed_mono]); done.
Qed.

Lemma process_identity_pid pf pid i : process_identity pf pid = Some i -> id_pid i = pid.
Proof.
  unfold process_identity. destruct (process_is_zombie pf pid); [done|].
  destruct (proc_start_ticks pf pid); [|done]. destruct (pf_getpgid pf pid); [|done]. destruct (pf_getsid pf pid); [|done].
  by intros [= <-].
Qed.

Section proven.
Context (e : environ) (s : Settings) (me : Z) (fuel : nat).

Lemma wait_identity_seen ws n t :
  watched step (running ws) (wait_identity n t (ws_pid ws)) (fun r d w => if r is Ok (Some i) then seen ws i d w else running ws d w)
  /\ watched step (running ws) (wait_more n t (ws_pid ws)) (fun r d w => if r is Ok (Some i) then seen ws i d w else running ws d w).
Proof.
  pose proof (running_quiet ws). induction n as [|n [IH1 IH2]]; cbn [wait_identity wait_more]; split; try by apply watched_raise.
  - eapply (watched_bind step _ _ _ (fun r d w => match r with
      | Ok pf => running ws d w /\ (forall i, process_identity pf (ws_pid ws) = Some i -> _identity_is_private_session i = true -> i ∈ identities w)
      | Raise _ => False end)); [| |done].
    + apply watched_ask. intros d w pf Hw. eexists. split; [reflexivity|]. split; [done|]. cbn. unfold observed. rewrite Hw.
      intros i -> ->. by left.
    + intros pf. destruct (process_identity pf (ws_pid ws)) as [i|] eqn:Hi;
        [|eapply watched_mono; [exact IH2|by intros d w [? _]|done]].
      destruct ((id_pgid i =? ws_pid ws) && (id_sid i =? ws_pid ws)) eqn:Hp;
        [|eapply watched_mono; [exact IH2|by intros d w [? _]|done]].
      apply watched_ret. intros d w [Hw Hin]. apply andb_prop in Hp as [Hg%Z.eqb_eq Hs%Z.eqb_eq].
      pose proof (process_identity_pid pf _ i Hi) as Hid. split_and!; try done.
      apply Hin; [done|]. unfold _identity_is_private_session. by rewrite Hid, Hg, Hs, Z.eqb_refl.
  - apply watched_keeps; [keep|done|intros d0].
    apply watched_keeps; [destruct (proc d0); keep|done|]. intros [|]; [by apply watched_ret|].
    apply watched_keeps; [keep|done|]. intros now. destruct (float_leb t now); [by apply watched_ret|].
    apply watched_keeps; [keep|done|]. intros _. exact IH1.
Qed.

(** A child published: a worker started, proven. *)
Definition child_proven (commit : pystr) (ch : WorkerChild) (w : state) : Prop :=
  exists ws i, seen ws i (mkDaemon None None false None None None) w /\ ws_commit ws = commit
    /\ ch_token ch = ws_token ws /\ ch_worker_id ch = ws_id ws
    /\ ch_pid ch = id_pid i /\ ch_pgid ch = id_pgid i /\ ch_sid ch = id_sid i /\ ch_start_time_ticks ch = id_start_time_ticks i.

Lemma publish_spawned_proven ws o t :
  watched step (running ws) (_publish_spawned_child e s fuel (ws_pid ws) o t (ws_token ws) (ws_id ws))
    (fun r d w => if r is Ok (Some ch) then child_proven (ws_commit ws) ch w else True).
Proof.
  pose proof (running_quiet ws). unfold _publish_spawned_child.
  apply watched_keeps; [keep|done|intros _].
  apply watched_keeps; [keep|done|intros src].
  apply watched_keeps; [keep|done|intros facts].
  assert (forall m : method unit, keeps step (running ws) m -> watched step (running ws) (_ ← m; mret None)
    (fun (r : res (option WorkerChild)) d w => if r is Ok (Some ch) then child_proven (ws_commit ws) ch w else True)) as Hnone.
  { intros m Hm. apply watched_keeps; [done|done|]. intros _. by apply watched_ret. }
  assert (forall p, harmless step (running ws) (Terminate p)) by (intros p d w b Hb; by eexists).
  assert (forall p, harmless step (running ws) (Kill p)) by (intros p d w b Hb; by eexists).
  destruct (check_authority_invariants facts); [|apply Hnone; eauto with daemon].
  apply watched_keeps; [keep|done|intros r].
  apply watched_keeps; [destruct r; keep|done|intros _].
  eapply (watched_bind step _ _ _ (fun r d w => if r is Ok (Some i) then seen ws i d w else running ws d w)); [|intros [i|]|done].
  - unfold _wait_for_identity. apply watched_keeps; [keep|done|intros now]. apply (proj1 (wait_identity_seen ws _ _)).
  - apply (watched_keeps step (seen ws i)); [pose proof (seen_quiet ws i); keep|done|intros now].
    apply watched_ret. intros d w Hseen. by exists ws, i.
  - apply Hnone. eauto with daemon.
Qed.

Lemma spawn_worker_proven c :
  watched step anything (_spawn_worker e s me fuel c) (fun r _ w => if r is Ok (Some ch) then child_proven c ch w else True).
Proof.
  pose proof unwatched_quiet as Hq.
  apply (spawn_worker_watched step e s me fuel c anything anything anything (fun _ => anything)
    (fun p o wid => running (mkStarted p (so_commit o) (so_token o) wid))); auto with daemon.
  - intros d w src _. by eexists.
  - intros o claim d w [[|]|x] _ _ _; by eexists.
  - intros o exe wid d w [p|x] _ <-; by eexists.
  - intros p o wid <-. apply watched_keeps; [pose proof (running_quiet (mkStarted p (so_commit o) (so_token o) wid)); keep|done|intros t].
    apply (publish_spawned_proven (mkStarted p (so_commit o) (so_token o) wid)).
Qed.

Lemma spawn_intended_proven c :
  watched step anything (spawn_intended e s me fuel c) (fun r _ w => if r is Ok (Some (Some ch)) then child_proven c ch w else True).
Proof.
  pose proof unwatched_quiet as Hq.
  apply (watched_lock step anything anything (fun r _ w => if r is Ok (Some (Some ch)) then child_proven c ch w else True)).
  - intros d w [r|x] _; by eexists.
  - apply watched_keeps; [keep|done|intros _]. apply watched_keeps; [keep|done|]. intros [[c'|]|]; try by apply watched_ret.
    destruct (negb (str_eqb c' c)); [by apply watched_ret|].
    apply watched_keeps; [apply confirm_kept; [done|by intros cl d w b Hb; eexists]|done|]. intros [|]; [|by apply watched_ret].
    eapply watched_bind; [apply spawn_worker_proven|intros ch; by apply watched_ret|done].
  - intros [[[ch|]|]|x] d w b H; by eexists.
Qed.

Definition proven_for (commit : pystr) (ch : WorkerChild) : daemon -> state -> Prop := fun _ w => child_proven commit ch w.

Lemma proven_for_quiet c ch : quiet step (proven_for c ch).
Proof.
  assert (forall B (q : call B) d w b, (forall ws i, harmless step (seen ws i) q) -> proven_for c ch d w ->
    exists w', step w B q b = Some w' /\ proven_for c ch d w') as Hl.
  { intros B q d w b Hq (ws & i & Hs & Hrest). destruct (Hq ws i _ w b Hs) as (w' & Hw & Hs'). exists w'. split; [done|]. by exists ws, i. }
  pose proof seen_quiet as Hseen.
  split; [split|..]; intros; first [by intros d' w' b' H'; apply Hl; [intros; eauto with daemon|]|done].
Qed.

Lemma publish_accepted c ch claim t : harmless step (proven_for c ch) (PublishWorker claim t (_db_worker_record ch c)).
Proof.
  intros d w b (ws & i & (Hw & Hin & Hid & Hg & Hsid) & Hc & Ht & Hwid & Hp & Hpg & Hps & Htk). exists w. split; [|by exists ws, i].
  cbn. replace (proven w (_db_worker_record ch c)) with true; [done|]. unfold proven. rewrite Hw. symmetry. apply existsb_exists.
  exists i. split; [by apply list_elem_of_In|]. apply bool_decide_eq_true. unfold _db_worker_record, published_as. congruence.
Qed.

Lemma spawn_and_publish_proven c : keeps step anything (_spawn_and_publish e s me fuel c).
Proof.
  pose proof unwatched_quiet as Hq. unfold _spawn_and_publish.
  eapply watched_bind; [apply spawn_intended_proven| |done].
  intros [[ch|]|]; [|by apply (watched_kept step _ anything); [keep|..]|by apply watched_ret].
  pose proof (proven_for_quiet c ch) as Hp. pose proof (publish_accepted c ch).
  apply (watched_kept step _ (proven_for c ch)); [|done..].
  assert (owns step (proven_for c ch) (fun _ => proven_for c ch)) by (apply owns_all; [done|intros p d w b Hb; by eexists..]).
  assert (forall t, keeps step (proven_for c ch) (_converge_spawn_without_obligation e s ch t)) by (intros t; by eapply converge_without_kept).
  assert (forall t, keeps step (proven_for c ch) (_publish_worker_authority ch c t)).
  { intros t. unfold _publish_worker_authority. apply on_row_kept; [done|intros claim; auto|intros; keep]. }
  keep.
Qed.

Lemma ensure_worker_proven c : keeps step anything (_ensure_worker e s me fuel c).
Proof.
  pose proof unwatched_quiet as Hq. pose proof (spawn_and_publish_proven c).
  assert (keeps step anything (_ensure_consumer_locked e s me fuel c)).
  { apply ensure_consumer_kept; [done|apply confirm_kept; [done|by intros cl d w b Hb; eexists]|apply reconcile_db_kept; [done|intros m g d w b Hb; by eexists]|done]. }
  assert (keeps step anything (with_lock_of consumer_lock (_ensure_consumer_locked e s me fuel c))).
  { apply keeps_plain_lock; [intros d w b Hb; by eexists..|done]. }
  unfold _ensure_worker. keep.
Qed.

(** C2: Whatever the world answers, a cycle publishes on the authority row only the worker it
    started last: under the commit, the token and the worker id it was started with,
    and the pid [Popen] returned, once /proc has shown that pid to be alive as the
    leader of a session and of a process group of its own, and with the start time
    seen there. *)
Theorem publication_proven now d tr rd :
  runs (reconcile e s me fuel now d) tr rd -> is_Some (accepts step (mkProof None []) tr).
Proof.
  intros Hr. pose proof unwatched_quiet as Hq.
  destruct (watched_runs step anything (reconcile e s me fuel now) (fun _ => anything) d (mkProof None []) tr rd) as (w' & -> & _); [|done|done|done].
  apply reconcile_kept; [done|intros b; apply retire_child_kept; [done|by intros cl d' w' b' Hb; eexists|by intros m g d' w' b' Hb; eexists]|apply ensure_worker_proven].
Qed.
End proven.
End Proven.
