(* ===== verification/DaemonSignals.v ===== *)
(** No process is stopped unnamed: a worker only as the row names it, a process only
    through a handle held, and a pid only pinned and recognized. *)

From S2P Require Import Prelude PyStr PyNum Json ProcFs LifecycleState AuthorityRow Durable StatePaths SupervisorCodec Store Mission SupervisorFiles ControlRequests Programs Daemon DaemonWorkers DaemonObligations DaemonSpawn DaemonTick DaemonRuns DaemonFence.
From stdpp Require Import gmap.

#[local] Open Scope Z_scope.
#[local] Arguments py : simpl never.

(** ** No process stopped unnamed *)

Module Signals.
(** The processes started or held from the start, the worker the last reading of
    the row named, and whether the database confirmed the daemon's authority when
    last asked. *)
Record state := mkSignals { handles : list Z; named : option WorkerRecord; confirmed : bool }.

(** [meta] is the identity of the worker published as [r]. *)
Definition names (r : WorkerRecord) (meta : WorkerMeta) : bool :=
  bool_decide (meta_pid meta = Some (wk_pid r) /\ meta_pgid meta = Some (wk_pgid r) /\ meta_sid meta = Some (wk_sid r)
    /\ meta_start_time_ticks meta = Some (wk_start_time_ticks r) /\ meta_token meta = Some (wk_token r)
    /\ meta_worker_id meta = Some (wk_worker_id r)).

Definition step (w : state) (B : Type) (c : call B) : B -> option state :=
  match c in call B return B -> option state with
  | Popen _ _ _ _ => fun r => Some (if r is Ok p then mkSignals (p :: handles w) (named w) (confirmed w) else w)
  | ReadRow _ => fun r => Some (mkSignals (handles w) (if r is Ok (Some row) then row_worker row else None) (confirmed w))
  | ConfirmAuthority _ => fun r => Some (mkSignals (handles w) (named w) (if r is Ok true then true else false))
  | StopWorker meta _ => fun _ =>
      match named w with
      | Some r => if confirmed w && names r meta then Some w else None
      | None => None
      end
  | Terminate p | Kill p => fun _ => if bool_decide (p ∈ handles w) then Some w else None
  | _ => fun _ => Some w
  end.

Abbreviation condition := (daemon -> state -> Prop).
Definition held : condition := fun d w => forall p, proc d = Some p -> p ∈ handles w.
Definition owned (p : Z) : condition := fun d w => held d w /\ p ∈ handles w.
Definition sure : condition := fun d w => held d w /\ confirmed w = true.
Definition naming (r : WorkerRecord) : condition := fun d w => sure d w /\ named w = Some r.

Lemma held_quiet : quiet step held.
Proof. split; [split|..]; intros; try (intros ? ? ? ?; by eexists); done. Qed.
Lemma owned_quiet p : quiet step (owned p).
Proof. split; [split|..]; intros; try (intros ? ? ? ?; by eexists); try done. by split; [|apply H]. Qed.
Lemma sure_quiet : quiet step sure.
Proof. split; [split|..]; intros; try (intros ? ? ? ?; by eexists); try done. by split; [|apply H]. Qed.
Lemma naming_still r : still step (naming r).
Proof. split; intros; try (intros ? ? ? ?; by eexists); done. Qed.

Lemma held_owns : owns step held owned.
Proof.
  intros p. split; [apply owned_quiet|].
  split_and!; try (intros d w b [Hh Hp]; exists w; cbn; by rewrite bool_decide_true); [by intros d w [? _]|]. intros d w Hh Hp. by split; [|apply Hh].
Qed.

Section signalled.
Context (e : environ) (s : Settings) (me : Z) (fuel : nat).

Lemma confirm_sure : watched step held _confirm_authority (fun r d w => if r is Ok true then sure d w else held d w).
Proof.
  apply confirm_watched; [apply held_quiet|]. intros d w claim r Hh _. eexists. split; [reflexivity|]. by destruct r as [[|]|].
Qed.

(** A reading of the row while [sure]. *)
Definition read_as (r : res (option (option WorkerRecord))) : condition := fun d w =>
  sure d w /\ (if r is Ok (Some (Some record)) then named w = Some record else True).

Lemma read_worker_named : watched step sure _read_worker_authority read_as.
Proof.
  unfold _read_worker_authority.
  apply (on_row_watched step sure sure (fun row d w => sure d w /\ named w = mbind (M := option) row_worker row)); try apply sure_quiet; try done.
  - intros d w claim [row|x] Hs _; eexists; (split; [reflexivity|]); [|done]. split; [done|]. by destruct row.
  - intros row. apply watched_ret. intros d w [Hs Hn]. split; [done|]. destruct row as [row|]; [|done].
    cbn in *. by destruct (row_worker row).
Qed.

Lemma stop_named r meta g : names r meta = true ->
  watched step (naming r) (ask_res (StopWorker meta g)) (fun _ => sure).
Proof. intros Hm. apply watched_ask_res. intros d w b [[Hh Hc] Hn]. exists w. cbn. by rewrite Hn, Hc, Hm. Qed.

Lemma retire_db_sure r : watched step (naming r) (_retire_db_worker e s r) (fun _ => sure).
Proof.
  pose proof (naming_still r). pose proof sure_quiet. unfold _retire_db_worker.
  assert (forall (x : exn) d w, naming r d w -> sure d w) as Hnx by by intros x d w [? _].
  eapply (watched_bind step _ _ _ (fun m d w => match m with Ok meta => naming r d w /\ names r meta = true | Raise _ => sure d w end)); [|intros meta|done].
  - apply watched_of_res. intros d w Hn. unfold _db_worker_meta. destruct (_runtime_dir e (Some (wk_commit r))); cbn; [|by apply Hn].
    split; [done|]. by apply bool_decide_eq_true.
  - destruct (names r meta) eqn:Hm; [|by apply watched_false; intros d w [_ ?]].
    apply (watched_mono step (naming r) _ _ (fun _ => sure)); [|by intros d w [? _]|done].
    apply watched_keeps; [keep|by auto|intros live].
    eapply (watched_bind step _ _ _ (fun _ => sure)); [|intros stopped|done].
    + destruct live; [by apply stop_named|apply watched_ret; by intros d w [? _]].
    + apply (watched_kept step _ sure); [|done..]. destruct stopped; keep.
Qed.

Lemma reconcile_db_sure c : keeps step sure (_reconcile_db_worker e s c).
Proof.
  pose proof sure_quiet. unfold _reconcile_db_worker.
  apply keeps_bind; [keep|intros d0]. destruct (_authority d0); [|keep].
  eapply watched_bind; [apply read_worker_named| |by intros x d w [? _]].
  intros [[record|]|]; try by apply watched_ret; intros d w [? _].
  pose proof (naming_still record).
  apply (watched_keeps step (naming record)); [keep|by intros x d w [? _]|].
  intros [|]; [apply watched_ret; by intros d w [? _]|].
  apply (watched_keeps step (naming record)); [keep|by intros x d w [? _]|]. intros _. apply retire_db_sure.
Qed.

Lemma retire_child_held b : keeps step held (_retire_child e s b).
Proof.
  pose proof held_quiet as Hhq. pose proof sure_quiet as Hsq. unfold _retire_child.
  apply keeps_bind; [keep|intros st]. destruct (st_child st) as [child|]; [|keep].
  eapply watched_bind; [apply confirm_sure| |done]. intros [|]; [|by apply watched_ret].
  eapply watched_bind; [apply read_worker_named| |by intros x d w [[? _] _]].
  intros [[record|]|]; [|apply watched_ret; by intros d w [[? _] _]..].
  destruct (_db_record_matches_child (Some record) child (st_commit st)) eqn:Hm; cbn [negb]; [|apply watched_ret; by intros d w [[? _] _]].
  pose proof (naming_still record) as Hns.
  apply (watched_keeps step (naming record)); [keep|by intros x d w [[? _] _]|intros repo].
  apply (watched_keeps step (naming record)); [keep|by intros x d w [[? _] _]|intros alive].
  apply (watched_keeps step (naming record)); [|by intros x d w [[? _] _]|intros [|]; [|apply watched_ret; by intros d w [[? _] _]]].
  - destruct alive; [|keep]. apply keeps_bind; [apply keeps_ask; intros d w x ?; by eexists|]. intros src. keep.
  - eapply watched_bind; [apply (stop_named record)| |by intros x d w [? _]].
    + apply bool_decide_eq_true. unfold _db_record_matches_child in Hm. rewrite !andb_true_iff, !str_eqb_eq, !Z.eqb_eq in Hm. cbn.
      destruct_and!. split_and!; congruence.
    + intros stopped. apply (watched_kept step _ sure); [|done|by intros r d w [? _]]. destruct stopped; keep.
Qed.

Lemma spawn_intended_held c : keeps step held (spawn_intended e s me fuel c).
Proof.
  pose proof held_quiet as Hq. apply keeps_plain_lock; [intros d w b Hb; by eexists..|].
  apply keeps_bind; [keep|intros _]. apply keeps_bind; [keep|]. intros [[c'|]|]; [|keep..].
  destruct (negb (str_eqb c' c)); [keep|].
  apply keeps_bind; [apply confirm_kept; [done|intros cl d w b Hb; by eexists]|]. intros [|]; [|keep].
  apply keeps_bind; [|intros ch; keep].
  apply (spawn_worker_watched step e s me fuel c held held held (fun _ => held) (fun p _ _ => owned p)); auto with daemon.
  - intros d w src Hh. by eexists.
  - intros o claim d w [[|]|x] Hh _ _; by eexists.
  - intros o exe wid d w [p|x] Hh _; eexists; (split; [reflexivity|]); [|done]. split; [|by left]. intros p' [= <-]. by left.
  - intros p o wid _. pose proof (owned_quiet p). destruct (held_owns p) as (_ & Ht & Hk & _).
    apply (watched_kept step _ (owned p)); [|done|by intros r d w [? _]].
    apply keeps_bind; [keep|intros t]. by apply publish_spawned_kept.
Qed.

Lemma ensure_worker_held c : keeps step held (_ensure_worker e s me fuel c).
Proof.
  pose proof held_quiet as Hhq. pose proof sure_quiet as Hsq. unfold _ensure_worker. keep.
  apply keeps_plain_lock; [intros d w b Hb; by eexists..|]. unfold _ensure_consumer_locked.
  assert (forall m next, keeps step sure m -> watched step sure next (fun _ => held) -> watched step sure (unless_held m next) (fun _ => held)) as Hnext.
  { intros m next Hm Hn. apply (watched_unless step sure sure); [|done]. eapply watched_mono; [exact Hm|done|]. by intros [[|]|] d w; [|intros [? _]..]. }
  apply (watched_unless step held sure); [eapply watched_mono; [apply confirm_sure|done|by intros [[|]|]]|].
  apply Hnext; [keep|]. apply Hnext; [keep|]. apply Hnext; [keep|]. apply Hnext; [apply reconcile_db_sure|].
  apply (watched_mono step held _ _ (fun _ => held)); [|by intros d w [? _]|done].
  assert (keeps step held (_spawn_and_publish e s me fuel c)).
  { apply (spawn_and_publish_kept step held Hhq e s me fuel owned); [intros cl t r d w b Hb; by eexists|apply held_owns|apply spawn_intended_held]. }
  change (keeps step held (running ← _db_worker_running c; match running with Some false => _spawn_and_publish e s me fuel c | _ => mret tt end)).
  keep.
Qed.

(** C3: Whatever the world answers, a cycle asks to stop only the worker that the last
    reading of the authority row named, by the pid, group, session, start time, token
    and worker id recorded there, and only when the database confirmed the daemon's
    authority when last asked; and it terminates or kills through a handle only
    processes it started itself or held when the cycle began. *)
Theorem signals_authorized now d tr rd n c :
  runs (reconcile e s me fuel now d) tr rd ->
  is_Some (accepts step (mkSignals (option_list (proc d)) n c) tr).
Proof.
  intros Hr.
  destruct (watched_runs step held (reconcile e s me fuel now) (fun _ => held) d (mkSignals (option_list (proc d)) n c) tr rd)
    as (w' & -> & _); [| |done|done].
  - apply reconcile_kept; [apply held_quiet|apply retire_child_held|apply ensure_worker_held].
  - intros p Hp. cbn. rewrite Hp. by left.
Qed.
End signalled.
End Signals.

(** ** An orphan is signalled only pinned and recognized *)

Module Pidfd.
(** A pidfd open on the child, and whether /proc has since shown the recorded start
    time at its pid. *)
Inductive state := Closed | Pinned (fd : Z) (recognized : bool).

Definition recognizes (hold : UnresolvedChild) (pf : procfs) : bool :=
  match un_start_time_ticks hold with
  | Some t => opt_eqb (proc_start_ticks pf (un_pid hold)) (Some t)
  | None => false
  end.

Definition step (hold : UnresolvedChild) (w : state) (B : Type) (c : call B) : B -> option state :=
  match c in call B return B -> option state with
  | OpenPidfd p => fun r =>
      match r, w with
      | Ok fd, Closed => if p =? un_pid hold then Some (Pinned fd false) else None
      | Ok _, Pinned _ _ => None
      | Raise _, _ => Some w
      end
  | Proc => fun pf => Some (match w with Pinned fd seen => Pinned fd (seen || recognizes hold pf) | Closed => Closed end)
  | SignalPidfd fd _ => fun _ => match w with Pinned fd' true => if fd =? fd' then Some w else None | _ => None end
  | ClosePidfd fd => fun _ => match w with Pinned fd' _ => if fd =? fd' then Some Closed else None | Closed => None end
  | Terminate _ | Kill _ | StopWorker _ _ | Popen _ _ _ _ => fun _ => None
  | _ => fun _ => Some w
  end.

Section pinned.
Context (s : Settings) (fuel : nat) (hold : UnresolvedChild).

Definition closed : daemon -> state -> Prop := fun _ w => w = Closed.
Definition pinned (fd : Z) : daemon -> state -> Prop := fun _ w => exists seen, w = Pinned fd seen.
Definition recognized (fd : Z) : daemon -> state -> Prop := fun _ w => w = Pinned fd true.

Lemma closed_still : still (step hold) closed.
Proof. split; intros; try (intros ? ? ? ->; by eexists); done. Qed.
Lemma recognized_still fd : still (step hold) (recognized fd).
Proof. split; intros; try (intros ? ? ? ->; by eexists); done. Qed.

Lemma signals_kept fd forced : keeps (step hold) (recognized fd) (ask (SignalPidfd fd forced)).
Proof. apply keeps_ask. intros d w b ->. eexists. cbn. by rewrite Z.eqb_refl. Qed.

Lemma pinned_signalled fd t : un_start_time_ticks hold = Some t ->
  watched (step hold) (pinned fd) (
    now_ticks ← start_ticks (un_pid hold);
    if negb (opt_eqb now_ticks (Some t)) then mret false
    else
      _ ← ask (SignalPidfd fd false);
      gone ← _await_unresolved_exit s fuel hold;
      match gone with
      | true => mret true
      | false => _ ← ask (SignalPidfd fd true); _await_unresolved_exit s fuel hold
      end) (fun _ => pinned fd).
Proof.
  intros Ht. pose proof (recognized_still fd).
  assert (forall d w, recognized fd d w -> pinned fd d w) as Hrp by (intros d w ->; by exists true).
  eapply (watched_bind _ _ _ _ (fun r d w => match r with
    | Ok ticks => if opt_eqb ticks (Some t) then recognized fd d w else pinned fd d w | Raise _ => False end)); [|intros ticks|done].
  - eapply (watched_bind _ _ _ _ (fun r d w => match r with
      | Ok pf => if recognizes hold pf then recognized fd d w else pinned fd d w | Raise _ => False end)); [|intros pf|done].
    + apply watched_ask. intros d w pf [seen ->]. eexists. split; [reflexivity|]. destruct (recognizes hold pf); [by rewrite orb_true_r|by eexists].
    + apply watched_ret. intros d w Hr. cbn in Hr. unfold recognizes in Hr. by rewrite Ht in Hr.
  - destruct (opt_eqb ticks (Some t)); cbn [negb]; [|by apply watched_ret].
    apply (watched_kept _ _ (recognized fd)); [|done|by auto].
    apply keeps_bind; [apply signals_kept|intros _]. apply keeps_bind; [keep|intros [|]]; [keep|].
    apply keeps_bind; [apply signals_kept|intros _]. keep.
Qed.

(** C26: Whatever the world answers, converging a child left by an interrupted spawn
    sends signals only through a pidfd opened on its pid, after /proc has shown the
    recorded start time at that pid while the pidfd was open; and the pidfd is closed
    however the convergence ends. *)
Theorem orphan_signalled_exactly d tr rd :
  runs (_converge_unresolved s fuel hold d) tr rd -> accepts (step hold) Closed tr = Some Closed.
Proof.
  pose proof closed_still. intros Hr.
  destruct (watched_runs (step hold) closed (_converge_unresolved s fuel hold) (fun _ => closed) d Closed tr rd) as (w' & -> & ->);
    [|done|done|done].
  change (keeps (step hold) closed (_converge_unresolved s fuel hold)). unfold _converge_unresolved.
  apply keeps_bind; [keep|intros [|]]; [|keep]. destruct (un_start_time_ticks hold) as [t|] eqn:Ht; [|keep].
  eapply (watched_bind _ _ _ _ (fun r d w => match r with Ok (Ok fd) => pinned fd d w | Ok (Raise _) => closed d w | Raise _ => False end));
    [|intros [fd|x]|done].
  - eapply (watched_mono (step hold) closed); [apply (watched_outcome _ _ _ (fun r d w => match r with Ok fd => pinned fd d w | Raise _ => closed d w end)),
      watched_ask_res| |]; [|done|done].
    intros d' w [fd|x] ->; eexists; cbn; rewrite ?Z.eqb_refl; (split; [reflexivity|]); [by exists false|done].
  - eapply watched_finally; [by apply pinned_signalled|]. intros r. apply watched_ask. intros d' w b [seen ->]. eexists. cbn. by rewrite Z.eqb_refl.
  - destruct (is_os_error x || _); [by apply watched_ret|by apply watched_raise].
Qed.
End pinned.
End Pidfd.
