(* ===== verification/DaemonTheorems.v ===== *)
(** The decisions of the daemon about generations, backoff and lack of progress, and
    a cycle that starts and publishes a worker. *)

From S2P Require Import Prelude PyStr PyNum FloatFacts Json ProcFs LifecycleState AuthorityRow Durable StatePaths SupervisorCodec Store Mission SupervisorFiles ControlRequests Programs Daemon DaemonWorkers DaemonObligations DaemonSpawn DaemonTick DaemonRuns DaemonFence DaemonPublication DaemonSignals.
From Corelib Require Import SpecFloat.
From stdpp Require Import gmap.

#[local] Open Scope Z_scope.
#[local] Arguments py : simpl never.

(** ** Which worker is intended *)

(** C27: With a mission recorded, a worker is intended exactly when the intent is newer
    than the mission and names it, or the mission is pending, has been handed to the
    supervisor and names it, and the intent is older than the mission or of its
    generation with the same commit: the higher generation decides, and a tie that
    disagrees runs nothing. *)
Theorem higher_generation_decides m g c x :
  _derive_with_mission m g c = Run (Some x) <->
  (rb_generation m < g /\ c = Some x)
  \/ (rb_status m = PENDING /\ owned (rb_supervisor_owned m) = true /\ x = rb_commit m
      /\ (g < rb_generation m \/ (g = rb_generation m /\ c = Some x))).
Proof.
  rewrite <- str_eqb_eq. unfold _derive_with_mission. split.
  - destruct (Z.ltb_spec (rb_generation m) g); [destruct c; naive_solver|].
    destruct (str_eqb (rb_status m) PENDING), (owned (rb_supervisor_owned m)); cbn; try done;
      destruct (Z.ltb_spec g (rb_generation m)); try done; [naive_solver|].
    destruct c as [c|]; [|done]. destruct (str_eqb (rb_commit m) c) eqn:Hc; [|done].
    intros [= <-]. apply str_eqb_eq in Hc as <-. assert (g = rb_generation m) by lia. by auto 10.
  - intros [[Hg ->]|(-> & -> & -> & [Hg|[-> ->]])]; cbn.
    + by rewrite (proj2 (Z.ltb_lt _ _) Hg).
    + by rewrite (proj2 (Z.ltb_lt _ _) Hg), (proj2 (Z.ltb_ge _ _) (Z.lt_le_incl _ _ Hg)).
    + by rewrite Z.ltb_irrefl, str_eqb_refl.
Qed.

(** ** Backoff *)

(** A float that is neither negative nor a NaN. *)
Definition nonneg (f : pyfloat) : bool :=
  match f with S754_zero _ => true | S754_infinity b | S754_finite b _ _ => negb b | S754_nan => false end.

Lemma shr_1_nonneg mrs : 0 <= shr_m mrs -> 0 <= shr_m (shr_1 mrs).
Proof. destruct mrs as [[|[p|p|]|p] r t]; cbn; lia. Qed.

Lemma shr_nonneg mrs e n : 0 <= shr_m mrs -> 0 <= shr_m (shr mrs e n).1.
Proof.
  intros H. destruct n as [|p|p]; cbn; try done.
  revert mrs H. induction p as [p IH|p IH|]; intros mrs H; cbn; auto using shr_1_nonneg.
Qed.

Lemma rounded_nonneg m e : nonneg (binary_round_aux 53 1024 false (Zpos m) e loc_Exact) = true.
Proof.
  unfold binary_round_aux, shr_fexp.
  destruct (shr (shr_record_of_loc (Zpos m) loc_Exact) e _) as [mrs e'] eqn:H1.
  pose proof (shr_nonneg (shr_record_of_loc (Zpos m) loc_Exact) e (fexp 53 1024 (Zdigits2 (Zpos m) + e) - e) ltac:(cbn; lia)) as Hm.
  rewrite H1 in Hm. cbn in Hm.
  set (mx := round_nearest_even _ _). assert (0 <= mx) as Hmx.
  { unfold mx, round_nearest_even. destruct (loc_of_shr_record mrs) as [|[]]; try case_match; lia. }
  destruct (shr (shr_record_of_loc mx loc_Exact) e' _) as [mrs' e''] eqn:H2.
  pose proof (shr_nonneg (shr_record_of_loc mx loc_Exact) e' (fexp 53 1024 (Zdigits2 mx + e') - e') Hmx) as Hm'.
  rewrite H2 in Hm'. cbn in Hm'. destruct (shr_m mrs') as [|p|p]; [done| |lia]. by case_match.
Qed.

Lemma mul_nonneg a b : is_finite a = true -> is_finite b = true -> nonneg a = true -> nonneg b = true ->
  nonneg (float_mul a b) = true.
Proof.
  destruct a as [|[]| |[]], b as [|[]| |[]]; try done. intros _ _ _ _. apply rounded_nonneg.
Qed.

Lemma nonneg_total a b : nonneg a = true -> nonneg b = true -> float_ltb b a = false -> float_leb a b = true.
Proof. intros Ha Hb. apply float_leb_total; [by destruct a|by destruct b]. Qed.

Lemma float_ltb_irrefl f : float_ltb f f = false.
Proof.
  unfold float_ltb, SFltb. destruct f as [[]|[]| |[] m e]; try done; cbn; rewrite Z.compare_refl; [|by change (PosDef.Pos.compare_cont Eq m m) with (Pos.compare m m); rewrite Pos.compare_refl].
  change (PosDef.Pos.compare_cont Eq m m) with (Pos.compare m m). by rewrite Pos.compare_refl.
Qed.

Lemma nonneg_zero f : nonneg f = true -> float_leb zero f = true.
Proof. by destruct f as [[]|[]| |[]]. Qed.

Lemma power_finite k : 0 <= k <= 1023 -> is_finite (float_of_int (2 ^ k)) && nonneg (float_of_int (2 ^ k)) = true.
Proof.
  intros Hk. assert (forallb (fun n => let f := float_of_int (2 ^ Z.of_nat n) in is_finite f && nonneg f) (seq 0 1024) = true) as H
    by (vm_compute; reflexivity).
  rewrite forallb_forall in H. rewrite <- (Z2Nat.id k) by lia. apply H, in_seq. lia.
Qed.

Lemma settings_nonneg s : settings_valid s = true ->
  is_finite (backoff_base_seconds s) = true /\ nonneg (backoff_base_seconds s) = true /\ nonneg (backoff_max_seconds s) = true.
Proof.
  unfold settings_valid. cbn [forallb]. rewrite !andb_true_iff. intros H. destruct_and!.
  assert (forall f, Daemon.positive f = true -> nonneg f = true) as Hp by by intros [[]|[]| |[]].
  assert (forall a b, nonneg a = true -> float_ltb b a = false -> is_finite b = true -> nonneg b = true) as Hm.
  { intros [[]|[]| |[]] [[]|[]| |[]]; done. }
  split_and!; auto. eapply Hm; [apply Hp|..]; [|by apply negb_true_iff|]; eassumption.
Qed.

(** With valid settings the backoff before the next attempt is never negative nor above
    the configured maximum, while the restart count is at most 1024; above that the
    computation raises [OverflowError]. *)
Theorem backoff_bounded s n : settings_valid s = true ->
  match _backoff_seconds s n with
  | Ok t => n <= 1024 /\ float_leb zero t = true /\ float_leb t (backoff_max_seconds s) = true
  | Raise x => 1024 < n /\ x = OverflowError
  end.
Proof.
  intros Hs. destruct (settings_nonneg s Hs) as (Hbf & Hb & Hm). unfold _backoff_seconds, two_to_the.
  destruct (Z.ltb_spec 1023 (Z.max 0 (n - 1))); [split; [lia|done]|].
  destruct (andb_prop _ _ (power_finite (Z.max 0 (n - 1)) ltac:(lia))) as [Hpf Hp].
  pose proof (mul_nonneg _ _ Hbf Hpf Hb Hp) as Hr.
  cbn -[float_of_int float_mul]. set (r := float_mul _ _) in *. split; [lia|].
  unfold float_min. destruct (float_ltb (backoff_max_seconds s) r) eqn:Hlt.
  - split; [by apply nonneg_zero|]. apply nonneg_total; [done..|apply float_ltb_irrefl].
  - split; [by apply nonneg_zero|by apply nonneg_total].
Qed.

Lemma backoff_bounded_witness :
  settings_valid default_settings = true
  /\ match _backoff_seconds default_settings 5 with
     | Ok t => 5 <= 1024 /\ float_leb zero t = true /\ float_leb t (backoff_max_seconds default_settings) = true
     | Raise x => 1024 < 5 /\ x = OverflowError
     end.
Proof. split; [reflexivity|]. apply (backoff_bounded default_settings 5). reflexivity. Defined.

(** ** A crash loop that has run too long *)

Lemma backoff_overflows s n : 1024 < n -> _backoff_seconds s n = Raise OverflowError.
Proof. intros Hn. unfold _backoff_seconds, two_to_the. by destruct (Z.ltb_spec 1023 (Z.max 0 (n - 1))); [|lia]. Qed.

(** Nothing written, nothing forgotten. *)
Definition unwritten (w : unit) (B : Type) (c : call B) : B -> option unit :=
  match c in call B return B -> option unit with Files _ => fun _ => None | _ => fun _ => Some tt end.

(** C31: Once a worker has been restarted 1024 times without a stable run, the handling of
    its next crash always raises, before it writes the state file and with the dead
    worker still remembered: whatever the world answers, this cycle neither clears the
    dead worker nor schedules another attempt. *)
Theorem crash_loop_wedges e s st now d tr rd : 1024 <= st_restart_count st ->
  runs (_handle_crash e s st now d) tr rd ->
  (exists x, rd.1 = Raise x) /\ rd.2 = d /\ accepts unwritten tt tr = Some tt.
Proof.
  intros Hn Hr. set (I := fun (d' : daemon) (_ : unit) => d' = d).
  assert (forall p, harmless unwritten I (Poll p)) by (intros p d' [] b ?; by exists tt).
  assert (forall t, harmless unwritten I (DrainSentinelMatches t)) by (intros t d' [] b ?; by exists tt).
  assert (forall t, harmless unwritten I (RecoverOwnedGroups t)) by (intros t d' [] b ?; by exists tt).
  assert (harmless unwritten I Time) by (intros d' [] b ?; by exists tt).
  set (Q := fun (r : res unit) d' (w : unit) => (exists x, r = Raise x) /\ I d' w).
  assert (forall x d' w, I d' w -> Q (Raise x) d' w) as Hx by (intros x d' w ?; split; [by exists x|done]).
  assert (watched unwritten I (_handle_crash e s st now) Q) as Hw.
  { unfold _handle_crash, _last_proc_returncode, recovered, recover_unless_drained. rewrite backoff_overflows by lia.
    apply watched_keeps; [keep|by auto|intros code].
    apply watched_keeps; [keep|by auto|intros [|]].
    - intros d' w HI. by apply Hx.
    - apply watched_keeps; [keep|by auto|intros at_]. intros d' w HI. by apply Hx. }
  destruct (watched_runs unwritten I (_handle_crash e s st now) Q d tt tr rd Hw eq_refl Hr) as ([] & Ha & [Hr' Hd]). by split_and!.
Qed.

(** ** Lack of progress *)

(** The evidence after the probes of one child, in order. *)
Definition observed_probes (child : WorkerChild) (probes : list (QueueConsumption * pyfloat)) : option _NoProgressEvidence :=
  fold_left (fun n probe => _note_progress_observation child probe.1 probe.2 n) probes None.

(** The times of the failed probes since the last that succeeded, the latest probe
    first. *)
Fixpoint failed_since_progress (latest : list (QueueConsumption * pyfloat)) : list pyfloat :=
  match latest with
  | [] | (CONSUMED, _) :: _ => []
  | (INDETERMINATE, _) :: earlier => failed_since_progress earlier
  | (NOT_CONSUMED, t) :: earlier => t :: failed_since_progress earlier
  end.

Lemma observed_snoc child probes probe :
  observed_probes child (probes ++ [probe]) = _note_progress_observation child probe.1 probe.2 (observed_probes child probes).
Proof. unfold observed_probes. by rewrite fold_left_app. Qed.

Lemma observed_evidence child probes :
  observed_probes child probes =
  match last (failed_since_progress (rev probes)) with
  | None => None
  | Some first => Some (mkEvidenceOf (ch_token child) first (Z.of_nat (length (failed_since_progress (rev probes)))))
  end.
Proof.
  induction probes as [|[c t] probes IH] using rev_ind; [done|].
  rewrite observed_snoc, rev_app_distr, IH. cbn [rev app fst snd]. destruct c; cbn; try done.
  destruct (failed_since_progress (rev probes)) as [|t' l] eqn:Hf; [done|]. cbn.
  change (last (t :: t' :: l)) with (last (t' :: l)).
  destruct (last (t' :: l)) eqn:Hl; [|by apply last_None in Hl]. cbn. do 2 f_equal. cbn. lia.
Qed.

(** C28: A worker counts as making no progress exactly when, since the last probe that found
    its queue consumed, at least the required number of probes (and at least one) found
    it not consumed, the first of them at least the grace period ago; probes that could
    not tell count neither way. *)
Theorem no_progress_exact s child probes now :
  _no_progress_evidence_confirms s child now (observed_probes child probes) =
  match last (failed_since_progress (rev probes)) with
  | None => false
  | Some first =>
      (no_progress_required_probes s <=? Z.of_nat (length (failed_since_progress (rev probes))))
      && float_leb (no_progress_grace_seconds s) (float_sub now first)
  end.
Proof.
  rewrite observed_evidence. destruct (last _); [|done]. cbn. rewrite str_eqb_refl. cbn.
  by destruct (Z.ltb_spec (Z.of_nat (length (failed_since_progress (rev probes)))) (no_progress_required_probes s)),
    (Z.leb_spec (no_progress_required_probes s) (Z.of_nat (length (failed_since_progress (rev probes))))); [lia|..|lia].
Qed.

(** ** Polling ends *)

(** The readings of the clock that come before the deadline. *)
Definition reads_early (deadline : pyfloat) (x : exchange) : nat :=
  match x with
  | Exchange c b =>
      match c in call B return B -> nat with
      | Monotonic => fun now => if float_leb deadline now then 0%nat else 1%nat
      | _ => fun _ => 0%nat
      end b
  end.
Definition early (deadline : pyfloat) (tr : list exchange) : nat := sum_list_with (reads_early deadline) tr.

Definition count_early (deadline : pyfloat) (w : nat) (B : Type) (c : call B) (b : B) : option nat :=
  Some (w + reads_early deadline (Exchange c b))%nat.

Lemma accepts_early deadline w tr : accepts (count_early deadline) w tr = Some (w + early deadline tr)%nat.
Proof.
  revert w. induction tr as [|[B c b] tr IH]; intros w; cbn [accepts early sum_list_with]; [by rewrite Nat.add_0_r|].
  unfold count_early at 1. cbn -[reads_early]. rewrite IH. f_equal. unfold early. cbn -[reads_early]. lia.
Qed.

Section polling.
Context (deadline : pyfloat).
Abbreviation from k := (fun (_ : daemon) (w : nat) => (k <= w)%nat).

Lemma from_still k : still (count_early deadline) (from k).
Proof. split; intros; try (intros d w b Hk; eexists; split; [reflexivity|lia]). done. Qed.

(** After a reading before the deadline. *)
Lemma read_clock k : watched (count_early deadline) (from k) (ask Monotonic)
  (fun r _ w => match r with Ok now => (k + (if float_leb deadline now then 0 else 1) <= w)%nat | Raise _ => False end).
Proof. apply watched_ask. intros d w now Hk. eexists. split; [reflexivity|]. cbn. case_match; lia. Qed.

(** The next round of a loop: the clock read before the deadline, then a sleep. *)
Lemma next_round {A : Type} k (turn : bool -> method A) (Q : res A -> daemon -> nat -> Prop) :
  watched (count_early deadline) (from k) (turn true) Q ->
  watched (count_early deadline) (from (S k)) (turn false) Q ->
  watched (count_early deadline) (from k) (now ← ask Monotonic; turn (float_leb deadline now)) Q.
Proof.
  intros Ht Hf. eapply watched_bind; [apply read_clock| |done]. intros now. cbv beta iota.
  destruct (float_leb deadline now).
  - eapply watched_mono; [exact Ht|intros d w H; cbv beta; lia|done].
  - eapply watched_mono; [exact Hf|intros d w H; cbv beta; lia|done].
Qed.

Lemma wait_identity_exhausts fuel pid k :
  watched (count_early deadline) (from k) (wait_identity fuel deadline pid)
    (fun r _ w => match r with Ok _ => True | Raise _ => (2 * k + fuel <= 2 * w + 1)%nat end)
  /\ watched (count_early deadline) (from k) (wait_more fuel deadline pid)
    (fun r _ w => match r with Ok _ => True | Raise _ => (2 * k + fuel <= 2 * w)%nat end).
Proof.
  revert k. induction fuel as [|fuel IH]; intros k; cbn [wait_identity wait_more].
  - split; apply watched_raise; intros; lia.
  - pose proof (from_still k) as Hk. pose proof (from_still (S k)) as Hk'. split.
    + eapply (watched_bind _ _ _ _ (fun r _ w => match r with Ok _ => (k <= w)%nat | Raise _ => False end)); [|intros pf|done].
      { apply watched_ask. intros d w pf Hw. eexists. split; [reflexivity|lia]. }
      assert (watched (count_early deadline) (from k) (wait_more fuel deadline pid)
        (fun r _ w => match r with Ok _ => True | Raise _ => (2 * k + S fuel <= 2 * w + 1)%nat end)) as Hmore.
      { eapply watched_mono; [apply IH|intros ? ? Hw; exact Hw|]. intros [?|?] ? ?; [done|cbn; lia]. }
      destruct (process_identity pf pid); [|exact Hmore]. case_match; [by apply watched_ret|exact Hmore].
    + eapply (watched_bind _ _ _ _ (fun r _ w => match r with Ok _ => (k <= w)%nat | Raise _ => False end)); [|intros d0|done].
      { by apply watched_self. }
      eapply (watched_bind _ _ _ _ (fun r _ w => match r with Ok _ => (k <= w)%nat | Raise _ => False end)); [|intros exited|done].
      { destruct (proc d0); [|apply watched_ret; intros ? ? Hw; exact Hw].
        eapply (watched_bind _ _ _ _ (fun r _ w => match r with Ok _ => (k <= w)%nat | Raise _ => False end)); [|intros c|done].
        - apply watched_ask. intros d w c Hw. eexists. split; [reflexivity|cbn; lia].
        - apply watched_ret; intros ? ? Hw; exact Hw. }
      destruct exited; [by apply watched_ret|].
      apply (next_round k (fun b => if b then mret None else _ ← ask (Sleep IDENTITY_POLL_SECONDS); wait_identity fuel deadline pid)); [by apply watched_ret|].
      eapply (watched_bind _ _ _ _ (fun r _ w => match r with Ok _ => (S k <= w)%nat | Raise _ => False end)); [|intros _|done].
      { apply watched_ask. intros d w b Hw. eexists. split; [reflexivity|cbn; lia]. }
      eapply watched_mono; [apply IH|intros ? ? Hw; exact Hw|]. intros [?|?] ? ?; [done|cbn; lia].
Qed.
End polling.

(** Waiting for the identity of a started worker ends: whatever the world answers, the
    loop can exhaust its fuel only by reading the clock before the deadline once for
    every two units of it, so it ends by itself as soon as the clock passes the
    deadline. *)
Theorem identity_wait_ends fuel deadline pid d tr rd :
  runs (wait_identity fuel deadline pid d) tr rd -> (2 * early deadline tr + 1 < fuel)%nat -> exists i, rd.1 = Ok i.
Proof.
  intros Hr Hn. destruct (watched_runs (count_early deadline) _ _ _ d 0%nat tr rd (proj1 (wait_identity_exhausts deadline fuel pid 0)) (Nat.le_0_l 0) Hr)
    as (w & Ha & HQ).
  rewrite accepts_early in Ha. injection Ha as <-. destruct rd.1; [by eexists|lia].
Qed.
