(* ===== verification/DaemonCycle.v ===== *)
(** A cycle on a machine: the run intent of a deployment command starts and publishes
    a worker, and the theorems about the daemon apply to it. *)

From S2P Require Import Prelude PyStr PyNum Json ProcFs LifecycleState AuthorityRow Durable StatePaths SupervisorCodec Store Mission SupervisorFiles ControlRequests SupervisorFilesFacts GenerationTheorems Programs Daemon DaemonWorkers DaemonObligations DaemonSpawn DaemonTick DaemonRuns DaemonFence DaemonPublication DaemonSignals DaemonTheorems.
From stdpp Require Import gmap.

#[local] Open Scope Z_scope.

(** ** The machine *)

Record machine := mkMachine { disk : Store.store; row : AuthorityRow; popped : list Z; ticking : Z }.

Definition a_commit : pystr := List.repeat 99 40.
Definition worker_token : pystr := List.repeat 100 32.
Definition daemon_pid : Z := 77.
Definition worker_pid : Z := 4242.

Definition worker_stat : pybytes := py "4242 (lubko) S 77 4242 4242 0 -1 0 0 0 0 0 7 3 0 0 20 0 1 0 9000 0 0".
Definition daemon_stat : pybytes := py "77 (lubko) S 1 77 77 0 -1 0 0 0 0 0 7 3 0 0 20 0 1 0 500 0 0".

Definition proc_of (pids : list Z) : procfs :=
  let runs pid := bool_decide (pid ∈ pids) in
  mkProcfs
    (fun pid => if runs pid then ReadOk (if pid =? daemon_pid then daemon_stat else worker_stat) else ReadNotFound)
    (fun _ => ReadNotFound)
    (fun pid => if runs pid then ReadOk (LIFECYCLE_MARKER_VAR ++ py "=" ++ worker_token) else ReadNotFound)
    (fun pid => if runs pid then Some pid else None) (fun pid => if runs pid then Some pid else None)
    daemon_pid None.

Definition nothing_running : sources :=
  mkSources (proc_of []) (Ok None) (Ok None) (Ok None) (Ok (mkSupervisorView 0 None false false false false false false)).

Definition with_row (r : AuthorityRow) (m : machine) : machine := mkMachine (disk m) r (popped m) (ticking m).
Definition set_spawn (o : option SpawnObligation) (r : AuthorityRow) : AuthorityRow :=
  mkRow (row_server r) (row_epoch r) (row_generation r) (row_owner r) o (row_worker r).
Definition set_worker (w : option WorkerRecord) (r : AuthorityRow) : AuthorityRow :=
  mkRow (row_server r) (row_epoch r) (row_generation r) (row_owner r) (row_spawn r) w.

Definition machine_answer (m : machine) (B : Type) (c : Daemon.call B) : B * machine :=
  match c in Daemon.call B return B * machine with
  | Files q => let '(r, st) := q (disk m) in (r, mkMachine st (row m) (popped m) (ticking m))
  | Acquire _ => (Ok tt, m)
  | Release _ => (tt, m)
  | Monotonic | Time => (float_of_int (ticking m), mkMachine (disk m) (row m) (popped m) (ticking m + 1))
  | Proc => (proc_of (daemon_pid :: popped m), m)
  | BootId => (Some (py "boot"), m)
  | Connect => (Ok tt, m)
  | CloseConnection => (tt, m)
  | ConfirmAuthority _ => (Ok true, m)
  | ReadRow _ => (Ok (Some (row m)), m)
  | CommitSpawn _ o => (Ok true, with_row (set_spawn (Some o) (row m)) m)
  | ClearSpawn _ => (Ok true, with_row (set_spawn None (row m)) m)
  | PublishWorker _ _ w => (Ok true, with_row (set_worker (Some w) (row m)) m)
  | ClearWorker _ _ => (Ok true, with_row (set_worker None (row m)) m)
  | Sources => (nothing_running, m)
  | Failpoint _ => (Ok tt, m)
  | Popen _ _ _ _ => (Ok worker_pid, mkMachine (disk m) (row m) (worker_pid :: popped m) (ticking m))
  | Poll p => (if bool_decide (p ∈ popped m) then None else Some 0, m)
  | Wait _ _ => (Ok 0, m)
  | WaitpidNoHang _ => (Ok tt, m)
  | Terminate _ | Kill _ => (tt, m)
  | OpenPidfd _ => (Ok 9, m)
  | SignalPidfd _ _ => (tt, mkMachine (disk m) (row m) [] (ticking m))
  | ClosePidfd _ => (tt, m)
  | Sleep _ => (tt, m)
  | StopWorker _ _ => (Ok true, mkMachine (disk m) (row m) [] (ticking m))
  | RecoverOwnedGroups _ => (Ok tt, m)
  | DrainSentinelMatches _ => (false, m)
  | CheckReadiness _ _ => (Ok (true, CONSUMED), m)
  | WorkerHealthy _ => (Ok true, m)
  | SafetyBreach _ => (Ok false, m)
  | PublishSurfaces _ | PruneArtifacts _ => (Ok tt, m)
  | CurrentCommit => (Ok (Some a_commit), m)
  | RuntimeIsUsable _ | RuntimeSatisfies _ => (Ok true, m)
  | EntryExecutable _ => (Ok (Some [py "lubko-worker"]), m)
  | TokenHex => (worker_token, m)
  | EnvWorkerId => (None, m)
  | Hostname => (py "host", m)
  | PdeathsigSupported => (true, m)
  | MaybeHandoff | CompleteColdMigration | ConvergeStartupArtifacts => (Ok tt, m)
  end.

(** After [lubko deploy run], with no worker yet. *)
Definition requested_run : Store.store :=
  (request_run an_environ a_commit (py "/repo") (py "/uv") None false false (Store.mkStore ∅ [] [])).2.
Definition a_machine : machine := mkMachine requested_run (mkRow (py "server") 3 0 None None None) [] 100.
Definition a_daemon : daemon := mkDaemon None (Some (mkClaim (py "server") 3 daemon_pid 500 (py "boot"))) false None None None.

Definition a_cycle : list exchange * (res unit * daemon) :=
  drive machine_answer (reconcile an_environ default_settings daemon_pid 10 (float_of_int 1) a_daemon) a_machine.
Lemma a_cycle_runs : runs (reconcile an_environ default_settings daemon_pid 10 (float_of_int 1) a_daemon) a_cycle.1 a_cycle.2.
Proof. unfold a_cycle. exact (drive_runs machine_answer (reconcile an_environ default_settings daemon_pid 10 (float_of_int 1) a_daemon) a_machine). Qed.

(** What a trace starts and publishes. *)
Definition starts (x : exchange) : option (pystr * pystr) :=
  match x with Exchange (Popen _ c t _) _ => Some (c, t) | _ => None end.
Definition publishes (x : exchange) : option WorkerRecord :=
  match x with Exchange (PublishWorker _ _ w) _ => Some w | _ => None end.

Definition stops (x : exchange) : option (option Z) :=
  match x with Exchange (StopWorker meta _) _ => Some (meta_pid meta) | _ => None end.
Definition signals (x : exchange) : option (Z * bool) :=
  match x with Exchange (SignalPidfd fd forced) _ => Some (fd, forced) | _ => None end.

Definition a_record : WorkerRecord := mkWorker worker_token a_commit worker_pid worker_pid worker_pid 9000 (py "host").

(** The request is applied: the worker is started under a committed obligation,
    published and remembered. *)
Example cycle_starts_and_publishes :
  a_cycle.2.1 = Ok tt /\ omap starts a_cycle.1 = [(a_commit, worker_token)] /\ omap publishes a_cycle.1 = [a_record]
  /\ ch_pid <$> _active_child a_cycle.2.2 = Some worker_pid.
Proof. vm_compute. by split_and!. Qed.

Lemma spawn_fenced_witness :
  omap starts a_cycle.1 = [(a_commit, worker_token)]
  /\ is_Some (accepts Fence.step (Fence.mkFence false false None false None) a_cycle.1).
Proof.
  split; [vm_compute; reflexivity|].
  apply (Fence.spawn_fenced an_environ default_settings daemon_pid 10 (float_of_int 1) a_daemon _ a_cycle.2), a_cycle_runs.
Defined.

Lemma publication_proven_witness :
  omap publishes a_cycle.1 = [a_record] /\ is_Some (accepts Proven.step (Proven.mkProof None []) a_cycle.1).
Proof.
  split; [vm_compute; reflexivity|].
  apply (Proven.publication_proven an_environ default_settings daemon_pid 10 (float_of_int 1) a_daemon _ a_cycle.2), a_cycle_runs.
Defined.

(** Another commit is published when the request arrives: its worker is stopped. *)
Definition other_record : WorkerRecord :=
  mkWorker worker_token (List.repeat 97 40) worker_pid worker_pid worker_pid 9000 (py "host").
Definition busy_machine : machine :=
  mkMachine requested_run (mkRow (py "server") 3 0 None None (Some other_record)) [worker_pid] 100.
Definition busy_cycle : list exchange * (res unit * daemon) :=
  drive machine_answer (reconcile an_environ default_settings daemon_pid 10 (float_of_int 1) a_daemon) busy_machine.
Lemma busy_cycle_runs : runs (reconcile an_environ default_settings daemon_pid 10 (float_of_int 1) a_daemon) busy_cycle.1 busy_cycle.2.
Proof. unfold busy_cycle. exact (drive_runs machine_answer (reconcile an_environ default_settings daemon_pid 10 (float_of_int 1) a_daemon) busy_machine). Qed.

Lemma signals_authorized_witness :
  omap stops busy_cycle.1 = [Some worker_pid]
  /\ is_Some (accepts Signals.step (Signals.mkSignals [] None false) busy_cycle.1).
Proof.
  split; [vm_compute; reflexivity|].
  apply (Signals.signals_authorized an_environ default_settings daemon_pid 10 (float_of_int 1) a_daemon _ busy_cycle.2), busy_cycle_runs.
Defined.

(** A child left by an interrupted spawn, still running. *)
Definition an_orphan : UnresolvedChild := mkUnresolved worker_pid (Some 9000) worker_token (float_of_int 5).
Definition convergence : list exchange * (res bool * daemon) :=
  drive machine_answer (_converge_unresolved default_settings 10 an_orphan a_daemon) busy_machine.
Lemma convergence_runs : runs (_converge_unresolved default_settings 10 an_orphan a_daemon) convergence.1 convergence.2.
Proof. unfold convergence. exact (drive_runs machine_answer (_converge_unresolved default_settings 10 an_orphan a_daemon) busy_machine). Qed.

Lemma orphan_signalled_exactly_witness :
  convergence.2.1 = Ok true /\ omap signals convergence.1 = [(9, false)]
  /\ accepts (Pidfd.step an_orphan) Pidfd.Closed convergence.1 = Some Pidfd.Closed.
Proof.
  split; [vm_compute; reflexivity|]. split; [vm_compute; reflexivity|].
  apply (Pidfd.orphan_signalled_exactly default_settings 10 an_orphan a_daemon _ convergence.2), convergence_runs.
Defined.

(** The worker of a state restarted 1024 times has died. *)
Definition worn_out : SupervisorState :=
  mkState SCHEMA_VERSION 5 MODE_RUN (Some a_commit)
    (Some (mkChild worker_pid worker_pid worker_pid 9000 worker_token (py "host") (float_of_int 5)))
    None false false None false INTENT_RUN 1024 None None None false None None None.
Definition crash : list exchange * (res unit * daemon) :=
  drive machine_answer (_handle_crash an_environ default_settings worn_out (float_of_int 7) a_daemon) a_machine.
Lemma crash_runs : runs (_handle_crash an_environ default_settings worn_out (float_of_int 7) a_daemon) crash.1 crash.2.
Proof. unfold crash. exact (drive_runs machine_answer (_handle_crash an_environ default_settings worn_out (float_of_int 7) a_daemon) a_machine). Qed.

Lemma crash_loop_wedges_witness :
  crash.2.1 = Raise OverflowError /\ (exists x, crash.2.1 = Raise x) /\ crash.2.2 = a_daemon /\ accepts unwritten tt crash.1 = Some tt.
Proof.
  split; [vm_compute; reflexivity|].
  apply (crash_loop_wedges an_environ default_settings worn_out (float_of_int 7) a_daemon); [done|apply crash_runs].
Defined.

(** The environment of the published worker cannot be read: its record is cleared
    although it runs, its absence is not proven, and nothing stopped it. *)
Definition blind_proc : procfs :=
  let pf := proc_of [daemon_pid; worker_pid] in
  mkProcfs (pf_stat pf) (pf_status pf) (fun _ => ReadError) (pf_getpgid pf) (pf_getsid pf) (pf_getpid pf) (pf_entries pf).
Definition blind_answer (m : machine) (B : Type) (c : Daemon.call B) : B * machine :=
  match c in Daemon.call B return B * machine with
  | Proc => (blind_proc, m)
  | c => machine_answer m _ c
  end.
Definition clears (x : exchange) : option pystr :=
  match x with Exchange (ClearWorker _ t) _ => Some t | _ => None end.

Example unreadable_worker_cleared :
  let '(tr, rd) := drive blind_answer (_retire_db_worker an_environ default_settings other_record a_daemon) busy_machine in
  rd.1 = Ok true /\ omap stops tr = [] /\ omap clears tr = [worker_token]
  /\ process_absence_proven blind_proc worker_pid (Some 9000) = false.
Proof. vm_compute. by split_and!. Qed.

Definition a_wait : list exchange * (res (option ProcessIdentity) * daemon) :=
  drive machine_answer (wait_identity 20 (float_of_int 103) 99 a_daemon) a_machine.
Lemma a_wait_runs : runs (wait_identity 20 (float_of_int 103) 99 a_daemon) a_wait.1 a_wait.2.
Proof. unfold a_wait. exact (drive_runs machine_answer (wait_identity 20 (float_of_int 103) 99 a_daemon) a_machine). Qed.

(** No process 99 exists: the wait gives up after three early readings. *)
Lemma identity_wait_ends_witness : early (float_of_int 103) a_wait.1 = 3%nat /\ exists i, a_wait.2.1 = Ok i.
Proof.
  split; [vm_compute; reflexivity|].
  apply (identity_wait_ends 20 (float_of_int 103) 99 a_daemon a_wait.1 a_wait.2); [apply a_wait_runs|].
  vm_compute. lia.
Defined.
