(* ===== verification/WorkerSettings.v ===== *)
(** The worker's settings ([Settings] of [src/lubko/worker.py]) with their validation,
    the deadline of a turn's database work, which scan is late, and which database
    errors mean that the connection is lost.

    Proved: a turn's database work ends before the lease of any owned job becomes
    unsafe. *)

From S2P Require Import Prelude PyStr PyNum FloatFacts Json.
From Corelib Require Import SpecFloat.

#[local] Open Scope Z_scope.
#[local] Arguments py : simpl never.

(** ** Settings *)

Record Settings := mkSettings {
  worker_id : pystr;
  poll_interval_seconds : pyfloat;
  process_poll_interval_seconds : pyfloat;
  cancel_grace_seconds : pyfloat;
  server : pystr;
  worker_incarnation : pystr;
  lease_duration_seconds : pyfloat;
  lease_refresh_interval_seconds : pyfloat;
  lease_recovery_interval_seconds : pyfloat;
  output_publication_interval_seconds : pyfloat;
  health_publish_interval_seconds : pyfloat;
  claim_batch_limit : Z;
  lease_safety_margin_seconds : pyfloat;
  db_operation_timeout_seconds : pyfloat;
  gc_retention_seconds : pyfloat;
  gc_interval_seconds : pyfloat;
  gc_batch_limit : Z;
  output_spool_max_bytes : Z;
  spawn_deadline_seconds : pyfloat;
}.

Definition MAX_GC_BATCH_LIMIT : Z := 100.

Section settings.
Context (s : Settings).

Definition _validate_finite_timing : bool :=
  forallb is_finite [poll_interval_seconds s; process_poll_interval_seconds s; cancel_grace_seconds s; lease_duration_seconds s;
    lease_refresh_interval_seconds s; lease_recovery_interval_seconds s; output_publication_interval_seconds s;
    health_publish_interval_seconds s; lease_safety_margin_seconds s; db_operation_timeout_seconds s; gc_retention_seconds s;
    gc_interval_seconds s; spawn_deadline_seconds s].

Definition _validate_lease_timing : bool :=
  if float_leb (lease_duration_seconds s) zero then false
  else if float_leb (lease_refresh_interval_seconds s) zero then false
  else if float_leb (lease_recovery_interval_seconds s) zero then false
  else if float_leb (lease_duration_seconds s) (lease_refresh_interval_seconds s) then false
  else if float_ltb (lease_safety_margin_seconds s) zero || float_leb (lease_duration_seconds s) (lease_safety_margin_seconds s) then false
  else negb (float_leb (float_sub (float_sub (lease_duration_seconds s) (lease_safety_margin_seconds s)) (lease_refresh_interval_seconds s))
                       (db_operation_timeout_seconds s)).

Definition _validate_output_and_gc : bool :=
  if float_leb (output_publication_interval_seconds s) zero then false
  else if float_leb (health_publish_interval_seconds s) zero then false
  else if claim_batch_limit s <=? 0 then false
  else if float_leb (db_operation_timeout_seconds s) zero then false
  else if float_ltb (gc_retention_seconds s) zero then false
  else if float_leb (gc_interval_seconds s) zero then false
  else if gc_batch_limit s <=? 0 then false
  else negb (MAX_GC_BATCH_LIMIT <? gc_batch_limit s).

Definition _validate_spool : bool := negb (output_spool_max_bytes s <=? 0).

(** [Settings.__post_init__] *)
Definition settings_valid : bool :=
  _validate_finite_timing && (match server s with [] => false | _ => true end)
  && _validate_lease_timing && _validate_output_and_gc && _validate_spool.

(** The instant at which an owned job's lease becomes unsafe. *)
Definition unsafe_at (last_heartbeat_at : pyfloat) : pyfloat :=
  float_sub (float_add last_heartbeat_at (lease_duration_seconds s)) (lease_safety_margin_seconds s).

(** [min] of a list that is not empty *)
Definition float_minimum (f : pyfloat) (fs : list pyfloat) : pyfloat := fold_left float_min fs f.

Definition operation_deadline_at (now_mono : pyfloat) (heartbeat_origins : list pyfloat) : pyfloat :=
  let limit := float_add now_mono (db_operation_timeout_seconds s) in
  match map unsafe_at heartbeat_origins with
  | [] => limit
  | f :: fs => let earliest := float_minimum f fs in if float_ltb earliest limit then earliest else limit
  end.

End settings.

(** The defaults of [Settings], which has none for the name of the worker, its server
    and its incarnation, nor for the three intervals given here. *)
Definition default_settings (worker_id server incarnation : pystr) (poll process_poll cancel_grace : pyfloat) : Settings :=
  mkSettings worker_id poll process_poll cancel_grace server incarnation (float_of_int 30) (float_of_int 5) (float_of_int 10)
    (float_of_int 1) (float_of_int 1) 8 (float_of_int 5) (float_of_int 15) (float_of_int 3600) (float_of_int 60) 100
    (4 * 1024 * 1024) (float_of_int 30).

Definition _scan_schedule_overdue (now_mono scheduled_at db_operation_timeout process_poll_interval : pyfloat) : bool :=
  if float_leb scheduled_at zero then false
  else float_ltb (float_add scheduled_at (float_add db_operation_timeout process_poll_interval)) now_mono.

(** ** Database errors *)

(** A [psycopg.Error]: its SQLSTATE, whether it is an [OperationalError]. *)
Record db_error := mkDbError { sqlstate : option pystr; operational : bool }.

(** The connection, if there is one, is [broken] or [closed]: [unusable]. *)
Definition _is_connectivity_error_check (exc : db_error) (unusable : option bool) : bool :=
  match sqlstate exc with
  | Some code => if str_eqb (take 2 code) (py "08") then true else operational exc && default false unusable
  | None => operational exc && default false unusable
  end.

(** ** The deadline of a turn *)

Lemma float_minimum_below f fs : is_number f = true -> Forall (fun g => is_number g = true) fs ->
  is_number (float_minimum f fs) = true /\ float_leb (float_minimum f fs) f = true
  /\ Forall (fun g => float_leb (float_minimum f fs) g = true) fs.
Proof.
  revert f. induction fs as [|g fs IH]; intros f Hf Hfs; cbn; [by repeat split; [|apply float_leb_refl|]|].
  inversion_clear Hfs as [|? ? Hg Hr]. destruct (float_min_below f g Hf Hg) as [H1 H2].
  destruct (float_leb_number _ _ H1) as [Hm _]. destruct (IH _ Hm Hr) as (Hn & Hle & Hall).
  repeat split; [done|by eapply float_leb_trans|]. constructor; [by eapply float_leb_trans|done].
Qed.

Lemma float_minimum_attained f fs : In (float_minimum f fs) (f :: fs).
Proof.
  revert f. induction fs as [|g fs IH]; intros f; [by left|]. cbn. destruct (IH (float_min f g)) as [H|H]; [|by right; right].
  unfold float_minimum in *. cbn in *. rewrite <-H. unfold float_min. destruct (float_ltb g f); [by right; left|by left].
Qed.

(** The deadline of a turn's database work is within the configured timeout, and no
    owned job's lease becomes unsafe before it; it is no earlier than one of these
    makes it. *)
Theorem deadline_within_leases s now origins :
  is_number (float_add now (db_operation_timeout_seconds s)) = true ->
  Forall (fun o => is_number (unsafe_at s o) = true) origins ->
  float_leb (operation_deadline_at s now origins) (float_add now (db_operation_timeout_seconds s)) = true
  /\ Forall (fun o => float_leb (operation_deadline_at s now origins) (unsafe_at s o) = true) origins
  /\ (operation_deadline_at s now origins = float_add now (db_operation_timeout_seconds s)
      \/ exists o, In o origins /\ operation_deadline_at s now origins = unsafe_at s o).
Proof.
  intros Hlim Hor. unfold operation_deadline_at. destruct origins as [|o os]; cbn [map].
  - split; [by apply float_leb_refl|]. split; [constructor|by left].
  - inversion_clear Hor as [|? ? Ho Hos]. assert (Hos' : Forall (fun g => is_number g = true) (map (unsafe_at s) os)) by by apply Forall_map.
    destruct (float_minimum_below _ _ Ho Hos') as (Hn & Hle & Hall). pose proof (float_minimum_attained (unsafe_at s o) (map (unsafe_at s) os)) as Hatt.
    apply (Forall_map (unsafe_at s)) in Hall. destruct (float_ltb _ _) eqn:Hlt.
    + split; [by apply float_ltb_leb|]. split; [by constructor|]. right. by apply (in_map_iff (unsafe_at s) (o :: os)) in Hatt as (o' & <- & ?); exists o'.
    + apply float_leb_total in Hlt; [|done..]. split; [by apply float_leb_refl|]. split; [|by left].
      constructor; [by eapply float_leb_trans|]. eapply Forall_impl; [exact Hall|]. intros o'. by apply float_leb_trans.
Qed.

Lemma deadline_within_leases_witness :
  let s := default_settings [] [] [] zero zero zero in
  float_leb (operation_deadline_at s (float_of_int 100) [float_of_int 80; float_of_int 99]) (unsafe_at s (float_of_int 80)) = true.
Proof.
  set (s := default_settings [] [] [] zero zero zero).
  destruct (deadline_within_leases s (float_of_int 100) [float_of_int 80; float_of_int 99]) as (_ & Hall & _);
    [reflexivity|repeat constructor|]. inversion Hall. assumption.
Defined.
