(* ===== verification/JobQueue.v ===== *)
(** The job queue ([src/lubko/worker.py], "Database operations"): the rows of
    [lubko.jobs] and every statement the workers run on them: claim, cancellation,
    leases, recovery of stale jobs, finalization, quarantine, the reaper of retired
    protocol versions, publication, deletion and collection.

    A row's payload is what [CASE WHEN payload IS JSON THEN payload END::jsonb]
    makes of its text: a JSON value, or SQL's NULL ([None]) when the text is no JSON;
    [::text] of a value is a text that denotes it.  A number that PostgreSQL prints
    without a fraction is a [JInt].  A statement acts on each row it selects as one
    atomic change of that row: it locks the row and evaluates its condition on the
    version it locked.  [now()] reaches a statement as the text [to_char] makes of
    it.  A selection without an order, whose limit PostgreSQL may fill with any
    rows, takes those of least id. *)

From S2P Require Import Prelude PyStr PyNum Json Uuid Protocol WorkerSettings.
From stdpp Require Import gmap sorting.

#[local] Open Scope Z_scope.
#[local] Arguments py : simpl never.

(** ** SQL on JSON values *)

Definition payload := option json.

(** [j->'k'] *)
Definition sget (k : pystr) (j : payload) : payload :=
  match j with Some (JObj d) => dict_lookup k d | _ => None end.

(** [j->'state'->'k'] *)
Definition state_of (k : pystr) (j : payload) : payload := sget k (sget (py "state") j).

(** [jsonb_typeof(j) = 'string'], [= 'number'] *)
Definition is_jstring (j : payload) : bool := match j with Some (JStr _) => true | _ => false end.
Definition is_jnumber (j : payload) : bool := match j with Some (JInt _ | JFloat _) => true | _ => false end.

(** [jsonb_set(j, '{path}', v)]: the parents of the last key must exist.  No array
    is among them, except where [path_error] says so. *)
Fixpoint jsonb_set (path : list pystr) (v j : json) : json :=
  match path, j with
  | [k], JObj d => JObj (dict_set d k v)
  | k :: path, JObj d =>
      match dict_lookup k d with
      | Some inner => JObj (dict_set d k (jsonb_set path v inner))
      | None => j
      end
  | _, _ => j
  end.

(** [_jsonb_set_chain] *)
Definition _jsonb_set_chain (base : json) (updates : list (list pystr * json)) : json :=
  fold_left (fun j update => jsonb_set update.1 update.2 j) updates base.

(** [t = 's'] in a condition, where NULL is not true. *)
Definition is_text (t : option pystr) (s : pystr) : bool :=
  match t with Some t => str_eqb t s | None => false end.

(** [lower(...)] of an ASCII letter *)
Definition lower (c : Z) : Z := if (65 <=? c) && (c <=? 90) then c + 32 else c.

(** ** Timestamps *)

Definition digit (c : Z) : bool := (48 <=? c) && (c <=? 57).
Definition two_digits (s : pystr) (lo hi : Z) : bool :=
  match s with
  | [a; b] => digit a && digit b && (lo <=? digits_val s) && (digits_val s <=? hi)
  | _ => false
  end.

(** The year ends a leap year: its digits, as the pattern lists them. *)
Definition leap_year (y : pystr) : bool :=
  match y with
  | [a; b; c; d] =>
      let fourth c d :=
        ((c =? 48) && ((d =? 52) || (d =? 56)))
        || (existsb (Z.eqb c) [50; 52; 54; 56] && existsb (Z.eqb d) [48; 52; 56])
        || (existsb (Z.eqb c) [49; 51; 53; 55; 57] && existsb (Z.eqb d) [50; 54]) in
      fourth c d
      || ((c =? 48) && (d =? 48)
          && ((existsb (Z.eqb a) [48; 50; 52; 54; 56] && existsb (Z.eqb b) [48; 52; 56])
              || (existsb (Z.eqb a) [49; 51; 53; 55; 57] && existsb (Z.eqb b) [50; 54])))
  | _ => false
  end.

Definition month_day (year month day : pystr) : bool :=
  let m := digits_val month in
  two_digits month 1 12
  && (two_digits day 1 (if m =? 2 then 28 else if existsb (Z.eqb m) [4; 6; 9; 11] then 30 else 31)
      || ((m =? 2) && leap_year year && two_digits day 29 29)).

(** [s ~ GC_FINISHED_AT_PATTERN] *)
Definition GC_FINISHED_AT_PATTERN (s : pystr) : bool :=
  (length s =? 27)%nat
  && forallb digit (slice 0 4 s)
  && month_day (slice 0 4 s) (slice 5 7 s) (slice 8 10 s)
  && str_eqb (slice 4 5 s ++ slice 7 8 s ++ slice 10 11 s ++ slice 13 14 s ++ slice 16 17 s ++ slice 19 20 s ++ slice 26 27 s) (py "--T::.Z")
  && two_digits (slice 11 13 s) 0 23 && two_digits (slice 14 16 s) 0 59 && two_digits (slice 17 19 s) 0 59
  && forallb digit (slice 20 26 s).

(** [v ~ pattern AND left(v, 4) <> '0000'] of a JSON string *)
Definition canonical_stamp (j : payload) : bool :=
  match j with
  | Some (JStr s) => GC_FINISHED_AT_PATTERN s && negb (str_eqb (take 4 s) (py "0000"))
  | _ => false
  end.

(** [CANCEL_REQUESTED_SQL] *)
Definition cancel_requested (p : payload) : bool := canonical_stamp (state_of (py "cancel_requested_at") p).

(** ** The table *)

Abbreviation table := (gmap Z payload).

(** A statement's effect on a row: the new value, or [None] when its condition does
    not hold there. *)
Definition row_update := payload -> option json.

(** [UPDATE ... WHERE id = id AND ...]: the row written. *)
Definition update_at (f : row_update) (id : Z) (t : table) : table * option json :=
  match t !! id with
  | Some p => match f p with Some j => (<[id := Some j]> t, Some j) | None => (t, None) end
  | None => (t, None)
  end.

(** The same for each of [ids]: the rows written, in order. *)
Fixpoint update_all (f : row_update) (ids : list Z) (t : table) : table * list (Z * json) :=
  match ids with
  | [] => (t, [])
  | id :: ids =>
      let '(t, row) := update_at f id t in
      let '(t, rows) := update_all f ids t in
      (t, match row with Some j => (id, j) :: rows | None => rows end)
  end.

Section queue.
(** PostgreSQL's text of a fraction, an array or an object; the order of texts in
    the database's collation. *)
Context (render : json -> pystr) (text_leb : pystr -> pystr -> bool).

(** [j->>...] *)
Definition stext (j : payload) : option pystr :=
  match j with
  | None | Some JNull => None
  | Some (JStr s) => Some s
  | Some (JBool b) => Some (if b then py "true" else py "false")
  | Some (JInt z) => Some (int_repr z)
  | Some j => Some (render j)
  end.

Definition text_lt (a b : pystr) : bool := negb (text_leb b a).

(** [str(row[0])] of a nullable text *)
Definition py_str (t : option pystr) : pystr := default (py "None") t.

Definition status_of (p : payload) : option pystr := stext (state_of (py "status") p).
Definition has_status (p : payload) (s : pystr) : bool := is_text (status_of p) s.
Definition is_type (p : payload) (ty : pystr) : bool := is_text (stext (sget (py "type") p)) ty.

(** [SERVER_MATCH_SQL] *)
Definition server_match (p : payload) (srv : pystr) : bool :=
  is_jstring (sget (py "server") p) && is_text (stext (sget (py "server") p)) srv.

Definition is_terminal (p : payload) : bool :=
  has_status p STATUS_SUCCEEDED || has_status p STATUS_FAILED || has_status p STATUS_CANCELLED.

(** [status NOT IN ('succeeded', 'failed', 'cancelled')]: NULL when there is none. *)
Definition not_terminal (p : payload) : bool :=
  match status_of p with Some _ => negb (is_terminal p) | None => false end.

(** The row is run by this incarnation of the worker. *)
Definition owned_by (s : Settings) (p : payload) : bool :=
  is_text (stext (state_of (py "worker_id") p)) (worker_id s)
  && is_text (stext (state_of (py "worker_incarnation") p)) (worker_incarnation s).

Definition set_when (cond : bool) (p : payload) (updates : list (list pystr * json)) : option json :=
  match cond, p with true, Some j => Some (_jsonb_set_chain j updates) | _, _ => None end.

Definition in_state (k : pystr) : list pystr := [py "state"; k].

(** ** Claim *)

(** [claim_version_predicate] *)
Definition current_version (p : payload) : bool :=
  is_jnumber (sget (py "v") p) && is_text (stext (sget (py "v") p)) (int_repr CURRENT_PROTOCOL_VERSION).

Definition claimable (s : Settings) (p : payload) : bool :=
  is_type p JOB_TYPE_COMMAND && current_version p && server_match p (server s) && has_status p STATUS_PENDING.

Definition claim_row (s : Settings) (now lease : pystr) : row_update := fun p =>
  set_when (claimable s p) p [
    (in_state (py "status"), JStr STATUS_RUNNING);
    (in_state (py "created_at"), JStr (default now (stext (state_of (py "created_at") p))));
    (in_state (py "started_at"), JStr now);
    (in_state (py "worker_id"), JStr (worker_id s));
    (in_state (py "worker_incarnation"), JStr (worker_incarnation s));
    (in_state (py "lease_expires_at"), JStr lease);
    (in_state (py "updated_at"), JStr now)].

(** [ORDER BY text, id], where a missing text comes last. *)
Definition before (a b : option pystr * Z) : bool :=
  match a.1, b.1 with
  | Some x, Some y => text_lt x y || (text_leb x y && (a.2 <=? b.2))
  | Some _, None => true
  | None, Some _ => false
  | None, None => a.2 <=? b.2
  end.

Definition insert_by (x : option pystr * Z) : list (option pystr * Z) -> list (option pystr * Z) :=
  fix go l := match l with [] => [x] | y :: l' => if before x y then x :: l else y :: go l' end.
Definition sorted_by (l : list (option pystr * Z)) : list (option pystr * Z) := fold_right insert_by [] l.

(** The rows that satisfy a condition and that no other transaction has locked, in
    the order of a key, at most [limit] of them. *)
Definition select (locked : Z -> bool) (cond : payload -> bool) (key : payload -> option pystr) (limit : Z) (t : table) : list Z :=
  let rows := List.filter (fun ip => cond ip.2 && negb (locked ip.1)) (map_to_list t) in
  take (Z.to_nat limit) (snd <$> sorted_by ((fun ip => (key ip.2, ip.1)) <$> rows)).

Definition created_at (p : payload) : option pystr := stext (state_of (py "created_at") p).

Definition claim_jobs (locked : Z -> bool) (s : Settings) (limit : Z) (now lease : pystr) (t : table) : table * list (Z * json) :=
  update_all (claim_row s now lease) (select locked (claimable s) created_at limit t) t.

(** ** Cancellation *)

Definition cancelled_result : json :=
  JObj [(py "stdout", JStr []); (py "stderr", JStr []); (py "exit_code", JNull);
        (py "cancellation_note", JStr (py "cancelled before the worker claimed the job"))].

Definition cancel_pending (srv now : pystr) : row_update := fun p =>
  set_when (server_match p srv && has_status p STATUS_PENDING) p [
    (in_state (py "status"), JStr STATUS_CANCELLED);
    (in_state (py "cancel_requested_at"), JStr now);
    (in_state (py "finished_at"), JStr now);
    (in_state (py "updated_at"), JStr now);
    ([py "result"], cancelled_result)].

Definition cancel_running (srv now : pystr) : row_update := fun p =>
  set_when (server_match p srv && has_status p STATUS_RUNNING) p [
    (in_state (py "cancel_requested_at"), JStr now);
    (in_state (py "updated_at"), JStr now)].

(** The last transaction of [request_cancel], which only reads. *)
Definition cancel_answer (srv : pystr) (row : option payload) : res pystr :=
  match row with
  | None => Raise ValueError
  | Some p => if str_eqb (py_str (stext (sget (py "server") p))) srv then Ok (py_str (status_of p)) else Raise ValueError
  end.

(** [request_cancel] when nothing else happens between its transactions. *)
Definition request_cancel (id : Z) (srv now : pystr) (t : table) : table * res pystr :=
  match update_at (cancel_pending srv now) id t with
  | (t, Some j) => (t, Ok (py_str (status_of (Some j))))
  | (t, None) =>
      match update_at (cancel_running srv now) id t with
      | (t, Some j) => (t, Ok (py_str (status_of (Some j))))
      | (t, None) => (t, cancel_answer srv (t !! id))
      end
  end.

Definition discovered (s : Settings) (p : payload) : bool :=
  is_type p JOB_TYPE_COMMAND && server_match p (server s) && has_status p STATUS_RUNNING && cancel_requested p && owned_by s p.

(** Without an order, at most [CANCEL_DISCOVERY_LIMIT] rows. *)
Definition CANCEL_DISCOVERY_LIMIT : Z := 100.
Definition discover_cancellations (s : Settings) (t : table) : list Z :=
  take (Z.to_nat CANCEL_DISCOVERY_LIMIT) (fst <$> List.filter (fun ip => discovered s ip.2) (map_to_list t)).

(** ** Leases *)

Definition refreshable (s : Settings) (p : payload) : bool :=
  is_type p JOB_TYPE_COMMAND && server_match p (server s) && has_status p STATUS_RUNNING && owned_by s p.

Definition refresh_row (s : Settings) (now lease : pystr) : row_update := fun p =>
  set_when (refreshable s p) p [
    (in_state (py "lease_expires_at"), JStr lease);
    (in_state (py "updated_at"), JStr now)].

Definition bulk_refresh_leases (s : Settings) (root_ids : list Z) (now lease : pystr) (t : table) : table * list Z :=
  let '(t, rows) := update_all (refresh_row s now lease) root_ids t in (t, fst <$> rows).

(** [UTC_ISO_TEXT_SQL] is past the lease, when the lease is a timestamp. *)
Definition lease_expired (now : pystr) (p : payload) : bool :=
  canonical_stamp (state_of (py "lease_expires_at") p)
  && match stext (state_of (py "lease_expires_at") p) with Some l => text_lt l now | None => false end.

Definition stale (srv now : pystr) (p : payload) : bool :=
  is_type p JOB_TYPE_COMMAND && server_match p srv && has_status p STATUS_RUNNING && lease_expired now p.

(** [_recovery_result_expression] *)
Definition _recovery_result_expression (p : payload) : json :=
  let or_else t other := default other t in
  JObj [(py "stdout", JStr []); (py "stderr", JStr []); (py "exit_code", JNull);
        (py "recovery_note", JStr (
          py "lease expired at " ++ or_else (stext (state_of (py "lease_expires_at") p)) (py "<none>")
          ++ py "; owning server " ++ or_else (stext (sget (py "server") p)) (py "<unknown>")
          ++ py "; owning worker " ++ or_else (stext (state_of (py "worker_id") p)) (py "<unknown>")
          ++ py " (incarnation " ++ or_else (stext (state_of (py "worker_incarnation") p)) (py "<unknown>")
          ++ py ") stopped heartbeating; job marked failed rather than re-executed"))].

Definition recover_row (srv now : pystr) : row_update := fun p =>
  set_when (stale srv now p) p [
    (in_state (py "status"), JStr STATUS_FAILED);
    (in_state (py "finished_at"), JStr now);
    (in_state (py "recovered_at"), JStr now);
    (in_state (py "updated_at"), JStr now);
    ([py "result"], _recovery_result_expression p)].

Definition LEASE_RECOVERY_LIMIT : Z := 100.

Definition recover_stale_jobs (locked : Z -> bool) (srv now : pystr) (t : table) : table * list (Z * json) :=
  update_all (recover_row srv now) (select locked (stale srv now) (fun _ => None) LEASE_RECOVERY_LIMIT t) t.

(** ** Finalization *)

Record JobResult := mkResult {
  jr_status : pystr;
  jr_exit_code : Z;
  jr_stdout : pystr;
  jr_stderr : pystr;
  jr_cancellation_note : option pystr;
}.

Definition finish_row (r : JobResult) (srv now : pystr) : row_update := fun p =>
  let cancelled := cancel_requested p in
  let note := match jr_cancellation_note r with
              | Some n => JStr n
              | None => if cancelled then JStr (py "cancelled by request") else JNull
              end in
  set_when (is_type p JOB_TYPE_COMMAND && server_match p srv && has_status p STATUS_RUNNING) p [
    (in_state (py "status"), JStr (if cancelled then STATUS_CANCELLED else jr_status r));
    (in_state (py "finished_at"), JStr now);
    (in_state (py "updated_at"), JStr now);
    ([py "result"], JObj [(py "stdout", JStr (jr_stdout r)); (py "stderr", JStr (jr_stderr r));
                          (py "exit_code", JInt (jr_exit_code r)); (py "cancellation_note", note)])].

Definition _read_job_status (id : Z) (t : table) : option pystr := (fun p => py_str (status_of p)) <$> t !! id.

(** [finish_job] when nothing else happens between its transactions. *)
Definition finish_job (id : Z) (r : JobResult) (srv now : pystr) (t : table) : table * option pystr :=
  match update_at (finish_row r srv now) id t with
  | (t, Some j) => (t, Some (py_str (status_of (Some j))))
  | (t, None) => (t, _read_job_status id t)
  end.

(** [reason.replace("\x00", "\ufffd")] *)
Definition no_nul (reason : pystr) : pystr := map (fun c => if c =? 0 then 0xFFFD else c) reason.

(** The failure of a row that is not terminal, its reason under [key]. *)
Definition fail_row (key reason srv now : pystr) : row_update := fun p =>
  set_when (is_type p JOB_TYPE_COMMAND && server_match p srv && not_terminal p) p [
    (in_state (py "status"), JStr STATUS_FAILED);
    (in_state (py "finished_at"), JStr now);
    (in_state (py "updated_at"), JStr now);
    (in_state key, JStr (no_nul reason))].

Definition _quarantine_job (id : Z) (reason srv now : pystr) (t : table) : table :=
  (update_at (fail_row (py "quarantine_reason") reason srv now) id t).1.
Definition fail_unsupported_job (id : Z) (diagnostic srv now : pystr) (t : table) : table :=
  (update_at (fail_row (py "unsupported_protocol_version_reason") diagnostic srv now) id t).1.

(** The version is the text of an integer that is below the current one, as the
    statement compares texts; anything but an integer qualifies too. *)
Definition integer_text (v : pystr) : bool :=
  match v with
  | 45 :: (_ :: _) as ds => forallb digit (tail v)
  | _ :: _ => forallb digit v
  | [] => false
  end.
Definition retired_text (v : pystr) : bool :=
  let current := int_repr CURRENT_PROTOCOL_VERSION in
  str_eqb (take 1 v) (py "-")
  || (length v <? length current)%nat
  || ((length v =? length current)%nat && text_lt v current).

Definition retired (p : payload) : bool :=
  match is_jnumber (sget (py "v") p), stext (sget (py "v") p) with
  | true, Some v => if integer_text v then retired_text v else true
  | _, _ => true
  end.

(** [_REAP_UNSUPPORTED_TEMPLATE] *)
Definition reapable (srv : pystr) (p : payload) : bool :=
  is_type p JOB_TYPE_COMMAND && server_match p srv && has_status p STATUS_PENDING && retired p.

(** [int(str(version))] of a number; a text of too many digits, or of a fraction,
    raises [ValueError]. *)
Definition parsed_version (p : payload) : option Z :=
  match sget (py "v") p with Some (JInt z) => if int_repr_ok z then Some z else None | _ => None end.

Definition reap_diagnostic (p : payload) : option pystr :=
  match parsed_version p with
  | Some z =>
      match reaper_disposition z with
      | CLAIMABLE => None
      | FAIL_CLOSED =>
          Some (py "protocol version " ++ int_repr z ++ py " is below the retired current version "
                ++ int_repr CURRENT_PROTOCOL_VERSION ++ py "; the job is failed closed")
      end
  | None => Some (py "payload 'v' must be an integer protocol version; the malformed pending job is failed closed")
  end.

Fixpoint reap_rows (srv now : pystr) (ids : list Z) (t : table) : table * list Z :=
  match ids with
  | [] => (t, [])
  | id :: ids =>
      match t !! id with
      | None => reap_rows srv now ids t
      | Some p =>
          match reap_diagnostic p with
          | None => reap_rows srv now ids t
          | Some d =>
              let '(t, reaped) := reap_rows srv now ids (fail_unsupported_job id d srv now t) in
              (t, id :: reaped)
          end
      end
  end.

Definition reap_unsupported_jobs (locked : Z -> bool) (s : Settings) (limit : Z) (now : pystr) (t : table) : table * list Z :=
  reap_rows (server s) now (select locked (reapable (server s)) created_at limit t) t.

(** ** A running job's process and output *)

Definition persist_row (s : Settings) (pid pgid start_ticks : Z) (now : pystr) : row_update := fun p =>
  set_when (server_match p (server s) && owned_by s p && has_status p STATUS_RUNNING) p [
    (in_state (py "process_pid"), JInt pid);
    (in_state (py "process_pgid"), JInt pgid);
    (in_state (py "process_start_time_ticks"), JInt start_ticks);
    (in_state (py "updated_at"), JStr now)].

Definition _persist_process (id : Z) (s : Settings) (pid pgid start_ticks : Z) (now : pystr) (t : table) : table * bool :=
  match update_at (persist_row s pid pgid start_ticks now) id t with
  | (t, Some _) => (t, true)
  | (t, None) => (t, false)
  end.

(** The root that [publish_output] locks: its collection has not begun. *)
Definition publishable (srv : pystr) (p : payload) : bool :=
  is_type p JOB_TYPE_COMMAND && server_match p srv && negb (is_text (stext (state_of (py "gc") p)) (py "true")).

Definition _output_update (output : json) (srv now : pystr) : row_update := fun p =>
  set_when (is_type p JOB_TYPE_COMMAND && server_match p srv) p [
    ([py "output"], output); (in_state (py "updated_at"), JStr now)].

(** [INSERT INTO lubko.jobs]: a taken id fails the whole transaction. *)
Fixpoint insert_rows (rows : list (Z * json)) (t : table) : res table :=
  match rows with
  | [] => Ok t
  | (id, j) :: rows => match t !! id with Some _ => Raise DatabaseError | None => insert_rows rows (<[id := Some j]> t) end
  end.

(** [jsonb_set] of a key below [state] fails when that is an array. *)
Definition path_error (p : payload) : bool := match sget (py "state") p with Some (JArr _) => true | _ => false end.

(** The transaction of [publish_output]: whether the root was there. *)
Definition publish_rows (id : Z) (chunks : list (Z * json)) (output : json) (srv now : pystr) (t : table) : table * res bool :=
  match t !! id with
  | Some p =>
      if publishable srv p then
        match insert_rows chunks t with
        | Ok t' => if path_error p then (t, Raise DatabaseError) else ((update_at (_output_update output srv now) id t').1, Ok true)
        | Raise x => (t, Raise x)
        end
      else (t, Ok false)
  | None => (t, Ok false)
  end.

(** ** Deletion *)

Definition same_server_chunk (srv thread : pystr) (p : payload) : bool :=
  is_type p JOB_TYPE_OUTPUT_CHUNK
  && match stext (sget (py "thread") p) with Some t => str_eqb (map lower t) (map lower thread) | None => false end
  && server_match p srv.

Definition delete_where (cond : Z -> payload -> bool) (t : table) : table := filter (fun ip => cond ip.1 ip.2 = false) t.

Definition delete_job_and_chunks (id : Z) (srv : pystr) (t : table) : table * res unit :=
  let foreign := match t !! id with Some p => negb (str_eqb (py_str (stext (sget (py "server") p))) srv) | None => false end in
  if foreign then (t, Raise ValueError)
  else
    let t := delete_where (fun i p => (i =? id) && is_type p JOB_TYPE_COMMAND && server_match p srv) t in
    (delete_where (fun _ p => same_server_chunk srv (uuid_str id) p) t, Ok tt).

(** ** Collection *)

(** The row is terminal since before the cutoff. *)
Definition expired_root (srv cutoff : pystr) (p : payload) : bool :=
  is_type p JOB_TYPE_COMMAND && server_match p srv && is_terminal p
  && canonical_stamp (state_of (py "finished_at") p)
  && match stext (state_of (py "finished_at") p) with Some f => text_lt f cutoff | None => false end.

Definition unmarked (p : payload) : bool :=
  match state_of (py "gc") p with None | Some JNull | Some (JBool false) => true | _ => false end.
Definition marked (p : payload) : bool :=
  match state_of (py "gc") p with Some (JBool true) => true | _ => false end.

Definition finished_at (p : payload) : option pystr := stext (state_of (py "finished_at") p).

Definition mark_row (srv cutoff : pystr) : row_update := fun p =>
  set_when (expired_root srv cutoff p && unmarked p) p [(in_state (py "gc"), JBool true)].

(** Phase 1. *)
Definition gc_mark (locked : Z -> bool) (s : Settings) (cutoff : pystr) (t : table) : table * list Z :=
  let cond p := expired_root (server s) cutoff p && unmarked p in
  let '(t, rows) := update_all (mark_row (server s) cutoff) (select locked cond finished_at (gc_batch_limit s) t) t in
  (t, fst <$> rows).

(** Phase 2: some of the chunks of one marked root, and the root when none is
    left: the root selected, the chunks deleted, whether the root was. *)
Definition gc_sweep (locked : Z -> bool) (s : Settings) (cutoff : pystr) (t : table) : table * option (Z * Z * bool) :=
  match select locked (fun p => expired_root (server s) cutoff p && marked p) (fun _ => None) 1 t with
  | [] => (t, None)
  | root :: _ =>
      let thread := uuid_str root in
      let chunks := select locked (same_server_chunk (server s) thread) (fun _ => None) (gc_batch_limit s) t in
      let t := delete_where (fun i _ => existsb (Z.eqb i) chunks) t in
      let left_ := existsb (fun ip => same_server_chunk (server s) thread ip.2) (map_to_list t) in
      (if left_ then t else delete root t, Some (root, Z.of_nat (length chunks), negb left_))
  end.

(** [thread ~* GC_THREAD_UUID_PATTERN], then [thread::uuid] *)
Definition hex_digit_any (c : Z) : bool := digit c || ((97 <=? lower c) && (lower c <=? 102)).
Definition GC_THREAD_UUID_PATTERN (t : pystr) : bool :=
  (length t =? 36)%nat
  && str_eqb (slice 8 9 t ++ slice 13 14 t ++ slice 18 19 t ++ slice 23 24 t) (py "----")
  && forallb hex_digit_any (slice 0 8 t ++ slice 9 13 t ++ slice 14 18 t ++ slice 19 23 t ++ slice 24 36 t).

(** The chunk's root is not in the table as a command. *)
Definition orphan (t : table) (p : payload) : bool :=
  match stext (sget (py "thread") p) with
  | Some thread =>
      if GC_THREAD_UUID_PATTERN thread then
        match uuid_of_text thread with
        | Some root => match t !! root with Some r => negb (is_type r JOB_TYPE_COMMAND) | None => true end
        | None => true
        end
      else true
  | None => true
  end.

(** Phase 3. *)
Definition gc_orphans (locked : Z -> bool) (s : Settings) (t : table) : table * Z :=
  let cond p := is_type p JOB_TYPE_OUTPUT_CHUNK && server_match p (server s) && orphan t p in
  let ids := select locked cond (fun _ => None) (gc_batch_limit s) t in
  (delete_where (fun i _ => existsb (Z.eqb i) ids) t, Z.of_nat (length ids)).

Definition _gc_phase_bound_hit (marked gc_roots : Z) (chunk_counts : list Z) (orphans limit : Z) : bool :=
  if limit <=? 0 then false
  else if (limit <=? marked) || (1 <=? gc_roots) || (limit <=? orphans) then true
  else existsb (fun count => limit <=? count) chunk_counts.

(** [collect_transport] when nothing else happens between its transactions. *)
Definition collect_transport (locked : Z -> bool) (s : Settings) (cutoff : pystr) (t : table) : table * (list Z * Z * Z * bool) :=
  let '(t, roots) := gc_mark locked s cutoff t in
  let '(t, swept) := gc_sweep locked s cutoff t in
  let '(t, orphans) := gc_orphans locked s t in
  let '(gc_roots, chunk_counts) := match swept with Some (_, n, _) => (1, [n]) | None => (0, []) end in
  (t, (roots, fold_left Z.add chunk_counts 0, orphans,
       _gc_phase_bound_hit (Z.of_nat (length roots)) gc_roots chunk_counts orphans (gc_batch_limit s))).
End queue.
