(* ===== verification/JobQueueFacts.v ===== *)
(** What the statements on the queue do to one row: the values that
    [_jsonb_set_chain] leaves under each key, and the changes a row may see. *)

From S2P Require Import Prelude PyStr PyNum Json JsonFacts Uuid Protocol WorkerSettings JobQueue.
From stdpp Require Import gmap sorting.

#[local] Open Scope Z_scope.
#[local] Arguments py : simpl never.

(** ** Values under a chain of [jsonb_set] *)

Lemma lookup_set d k v k' : dict_lookup k' (dict_set d k v) = if str_eqb k' k then Some v else dict_lookup k' d.
Proof.
  induction d as [|[k0 v0] d IH]; cbn; [by destruct (str_eqb k' k)|].
  destruct (str_eqb k k0) eqn:H0; cbn.
  - apply str_eqb_eq in H0 as ->. by destruct (str_eqb k' k0).
  - destruct (str_eqb k' k0) eqn:H1; [|exact IH]. apply str_eqb_eq in H1 as ->.
    destruct (str_eqb k0 k) eqn:H2; [|done]. apply str_eqb_eq in H2 as ->. by rewrite str_eqb_refl in H0.
Qed.

(** A payload with an object under [state]. *)
Definition stateful (j : json) : bool :=
  match sget (py "state") (Some j) with Some (JObj _) => true | _ => false end.

(** The paths the statements set: a key of the state, or a top-level key besides it. *)
Definition path_is (a b : list pystr) : bool := bool_decide (a = b).
Definition settable (path : list pystr) : bool :=
  match path with
  | [k] => negb (str_eqb k (py "state"))
  | [s; _] => str_eqb s (py "state")
  | _ => false
  end.

(** The value an update leaves at [path], if it sets it. *)
Definition assigned (path : list pystr) (updates : list (list pystr * json)) : option json :=
  fold_left (fun a u => if path_is u.1 path then Some u.2 else a) updates None.

Lemma set_stateful path v j : settable path = true -> stateful j = true -> stateful (jsonb_set path v j) = true.
Proof.
  unfold stateful. destruct path as [|k [|k2 [|]]]; try done; cbn; intros Hp Hj; destruct j as [| | | | | |d]; try done; cbn in *.
  - rewrite lookup_set. destruct (str_eqb (py "state") k) eqn:Hk; [|done].
    apply str_eqb_eq in Hk as <-. by rewrite str_eqb_refl in Hp.
  - apply str_eqb_eq in Hp as ->. destruct (dict_lookup (py "state") d) as [[]|] eqn:Hd; try done. cbn. by rewrite lookup_set, str_eqb_refl.
Qed.

Lemma set_state path v j k : settable path = true -> stateful j = true ->
  state_of k (Some (jsonb_set path v j)) = if path_is path (in_state k) then Some v else state_of k (Some j).
Proof.
  unfold stateful, state_of, path_is. destruct path as [|k1 [|k2 [|]]]; try done; cbn; intros Hp Hj; destruct j as [| | | | | |d]; try done; cbn in *.
  - rewrite bool_decide_false by done. rewrite lookup_set.
    destruct (str_eqb (py "state") k1) eqn:Hk; [apply str_eqb_eq in Hk as <-; by rewrite str_eqb_refl in Hp|done].
  - apply str_eqb_eq in Hp as ->. destruct (dict_lookup (py "state") d) as [[]|] eqn:Hd; try done. cbn.
    rewrite lookup_set, str_eqb_refl. cbn. rewrite lookup_set. destruct (str_eqb k k2) eqn:Hk.
    + apply str_eqb_eq in Hk as ->. by rewrite bool_decide_true.
    + rewrite bool_decide_false; [done|]. intros [= ->]. by rewrite str_eqb_refl in Hk.
Qed.

Lemma set_stateless path v j k : settable path = true -> stateful j = false ->
  stateful (jsonb_set path v j) = false /\ state_of k (Some (jsonb_set path v j)) = None.
Proof.
  unfold stateful, state_of. destruct path as [|k1 [|k2 [|]]]; try done; cbn; intros Hp Hj; destruct j as [| | | | | |d]; try done; cbn in *.
  - rewrite lookup_set. destruct (str_eqb (py "state") k1) eqn:Hk; [apply str_eqb_eq in Hk as <-; by rewrite str_eqb_refl in Hp|].
    by destruct (dict_lookup (py "state") d) as [[]|].
  - apply str_eqb_eq in Hp as ->. destruct (dict_lookup (py "state") d) as [[]|] eqn:Hd; try done; cbn; rewrite ?lookup_set, ?str_eqb_refl, ?Hd; done.
Qed.

Definition is_object (j : json) : bool := match j with JObj _ => true | _ => false end.

Lemma set_object path v j : settable path = true -> is_object j = true -> is_object (jsonb_set path v j) = true.
Proof.
  destruct path as [|k1 [|k2 [|]]]; try done; cbn; intros Hp Hj; destruct j as [| | | | | |d]; try done; cbn in *.
  by destruct (dict_lookup k1 d).
Qed.

Lemma set_top path v j k : settable path = true -> is_object j = true -> str_eqb k (py "state") = false ->
  sget k (Some (jsonb_set path v j)) = if path_is path [k] then Some v else sget k (Some j).
Proof.
  unfold path_is. destruct path as [|k1 [|k2 [|]]]; try done; cbn; intros Hp Hj Hk; destruct j as [| | | | | |d]; try done; cbn in *.
  - rewrite lookup_set. destruct (str_eqb k k1) eqn:H1.
    + apply str_eqb_eq in H1 as ->. by rewrite bool_decide_true.
    + rewrite bool_decide_false; [done|]. intros [= ->]. by rewrite str_eqb_refl in H1.
  - apply str_eqb_eq in Hp as ->. rewrite bool_decide_false by done. destruct (dict_lookup (py "state") d) eqn:Hd; [|done]. cbn.
    by rewrite lookup_set, Hk.
Qed.

Lemma chain_snoc j updates u : _jsonb_set_chain j (updates ++ [u]) = jsonb_set u.1 u.2 (_jsonb_set_chain j updates).
Proof. unfold _jsonb_set_chain. by rewrite fold_left_app. Qed.

Lemma assigned_snoc path updates u : assigned path (updates ++ [u]) = if path_is u.1 path then Some u.2 else assigned path updates.
Proof. unfold assigned. by rewrite fold_left_app. Qed.

Definition all_settable (updates : list (list pystr * json)) : bool := forallb (fun u => settable u.1) updates.

Section chain.
Context (updates : list (list pystr * json)) (Hu : all_settable updates = true) (j : json).

Lemma chain_stateful : stateful (_jsonb_set_chain j updates) = stateful j.
Proof.
  revert Hu. induction updates as [|u l IH] using rev_ind; [done|]. unfold all_settable. rewrite forallb_app, chain_snoc. cbn.
  intros [Hl Hs]%andb_prop. rewrite andb_true_r in Hs. destruct (stateful j) eqn:Hj.
  - apply set_stateful; [done|by apply IH].
  - apply (set_stateless _ _ _ []); [done|by apply IH].
Qed.

Lemma chain_object : is_object j = true -> is_object (_jsonb_set_chain j updates) = true.
Proof.
  revert Hu. induction updates as [|u l IH] using rev_ind; [done|]. unfold all_settable. rewrite forallb_app, chain_snoc. cbn.
  intros [Hl Hs]%andb_prop Hj. rewrite andb_true_r in Hs. apply set_object; [done|by apply IH].
Qed.

End chain.

Lemma settable_snoc updates u : all_settable (updates ++ [u]) = true <-> all_settable updates = true /\ settable u.1 = true.
Proof. unfold all_settable. rewrite forallb_app. cbn. by rewrite andb_true_r, andb_true_iff. Qed.

Lemma chain_state updates j k : all_settable updates = true ->
  state_of k (Some (_jsonb_set_chain j updates)) =
  if stateful j then match assigned (in_state k) updates with Some v => Some v | None => state_of k (Some j) end else None.
Proof.
  induction updates as [|u l IH] using rev_ind.
  - intros _. cbn. unfold stateful, state_of. destruct (sget (py "state") (Some j)) as [[]|]; done.
  - intros [Hl Hs]%settable_snoc. specialize (IH Hl). rewrite chain_snoc, assigned_snoc.
    destruct (stateful j) eqn:Hj.
    + rewrite set_state; [|done|by rewrite chain_stateful]. by destruct (path_is u.1 (in_state k)).
    + apply set_stateless; [done|by rewrite chain_stateful].
Qed.

Lemma chain_top updates j k : all_settable updates = true -> is_object j = true -> str_eqb k (py "state") = false ->
  sget k (Some (_jsonb_set_chain j updates)) = match assigned [k] updates with Some v => Some v | None => sget k (Some j) end.
Proof.
  intros Hu Hj Hk. revert Hu. induction updates as [|u l IH] using rev_ind; [done|].
  intros [Hl Hs]%settable_snoc. rewrite chain_snoc, assigned_snoc, set_top, IH by (try done; by apply chain_object).
  by destruct (path_is u.1 [k]).
Qed.

(** A row with a status has an object for its state. *)
Lemma state_of_stateful k j v : state_of k (Some j) = Some v -> stateful j = true.
Proof. unfold state_of, stateful. by destruct (sget (py "state") (Some j)) as [[]|]. Qed.

Lemma sget_object k j v : sget k (Some j) = Some v -> is_object j = true.
Proof. by destruct j. Qed.

Lemma set_when_inv cond p updates j : set_when cond p updates = Some j ->
  cond = true /\ exists j0, p = Some j0 /\ j = _jsonb_set_chain j0 updates.
Proof. destruct cond, p; [|done..]. intros [= <-]. split; [done|by eexists]. Qed.

(** *** Keys that a change sets or keeps *)

Lemma state_kept updates j k : all_settable updates = true -> assigned (in_state k) updates = None ->
  state_of k (Some (_jsonb_set_chain j updates)) = state_of k (Some j).
Proof.
  intros Hu Ha. rewrite chain_state, Ha by done. destruct (stateful j) eqn:Hj; [done|].
  destruct (state_of k (Some j)) eqn:H; [|done]. by rewrite (state_of_stateful _ _ _ H) in Hj.
Qed.

Lemma state_set updates j k v : all_settable updates = true -> stateful j = true -> assigned (in_state k) updates = Some v ->
  state_of k (Some (_jsonb_set_chain j updates)) = Some v.
Proof. intros Hu Hj Ha. by rewrite chain_state, Hj, Ha. Qed.

Lemma top_kept updates j k : all_settable updates = true -> str_eqb k (py "state") = false -> assigned [k] updates = None ->
  sget k (Some (_jsonb_set_chain j updates)) = sget k (Some j).
Proof.
  intros Hu Hk Ha. destruct (is_object j) eqn:Hj; [by rewrite chain_top, Ha|].
  assert (Hs : forall l, _jsonb_set_chain j l = j).
  { induction l as [|u l IH] using rev_ind; [done|]. rewrite chain_snoc, IH. by destruct j, u as [[|? []] ?]. }
  by rewrite Hs.
Qed.

Lemma top_set updates j k v : all_settable updates = true -> stateful j = true -> str_eqb k (py "state") = false ->
  assigned [k] updates = Some v -> sget k (Some (_jsonb_set_chain j updates)) = Some v.
Proof. intros Hu Hj Hk Ha. rewrite chain_top, Ha; [done..|by destruct j|done]. Qed.

Lemma has_status_inv render j s : has_status render (Some j) s = true -> stateful j = true /\ status_of render (Some j) = Some s.
Proof.
  unfold has_status, status_of. intros H. destruct (state_of (py "status") (Some j)) as [v|] eqn:Hv; [|done].
  split; [exact (state_of_stateful _ _ _ Hv)|]. destruct (stext render (Some v)); [|done]. cbn in H. by apply str_eqb_eq in H as ->.
Qed.

Ltac changed_keys := repeat first [rewrite state_kept by done | erewrite state_set by first [reflexivity | eassumption]]; cbn [snd].

(** ** The changes a row may see *)

Section changes.
Context (render : json -> pystr) (text_leb : pystr -> pystr -> bool).

Inductive change :=
  | Claimed (s : Settings) (now lease : pystr)
  | PendingCancelled (srv now : pystr)
  | CancelRequested (srv now : pystr)
  | Refreshed (s : Settings) (now lease : pystr)
  | Recovered (srv now : pystr)
  | Finished (r : JobResult) (srv now : pystr)
  | Failed (quarantined : bool) (reason srv now : pystr)
  | Persisted (s : Settings) (pid pgid start_ticks : Z) (now : pystr)
  | Published (output : json) (srv now : pystr)
  | Marked (srv cutoff : pystr).

Definition row_of (c : change) : row_update :=
  match c with
  | Claimed s now lease => claim_row render s now lease
  | PendingCancelled srv now => cancel_pending render srv now
  | CancelRequested srv now => cancel_running render srv now
  | Refreshed s now lease => refresh_row render s now lease
  | Recovered srv now => recover_row render text_leb srv now
  | Finished r srv now => finish_row render r srv now
  | Failed quarantined reason srv now =>
      fail_row render (if quarantined then py "quarantine_reason" else py "unsupported_protocol_version_reason") reason srv now
  | Persisted s pid pgid ticks now => persist_row render s pid pgid ticks now
  | Published output srv now => _output_update render output srv now
  | Marked srv cutoff => mark_row render text_leb srv cutoff
  end.

(** What the callers and the clock guarantee: a job ends with a final status, and
    the text of the time of a cancellation is a timestamp. *)
Definition FINAL_STATUSES : list pystr := [STATUS_SUCCEEDED; STATUS_FAILED; STATUS_CANCELLED].
Definition is_final (status : pystr) : bool := existsb (str_eqb status) FINAL_STATUSES.
Definition sound (c : change) : bool :=
  match c with
  | CancelRequested _ now => canonical_stamp (Some (JStr now))
  | Finished r _ _ => is_final (jr_status r)
  | _ => true
  end.

Definition row_change (p p' : payload) : Prop := exists c j, sound c = true /\ row_of c p = Some j /\ p' = Some j.

(** ** Statements change rows only so *)

(** What [op] makes of the rows it leaves: unchanged or changed by one of [row_of],
    any number of times. *)
Definition evolves (t t' : table) : Prop :=
  forall id p', t' !! id = Some p' -> exists p, t !! id = Some p /\ rtc row_change p p'.

Lemma evolves_refl t : evolves t t.
Proof. intros id p' H. exists p'. by split. Qed.

Lemma evolves_trans t t' t'' : evolves t t' -> evolves t' t'' -> evolves t t''.
Proof.
  intros H1 H2 id p'' Hp. destruct (H2 id p'' Hp) as (p' & Hp' & Hr). destruct (H1 id p' Hp') as (p & Hp0 & Hr').
  exists p. split; [done|by etrans].
Qed.

Lemma update_at_evolves c id t : sound c = true -> evolves t (update_at (row_of c) id t).1.
Proof.
  intros Hc. unfold update_at. destruct (t !! id) as [p|] eqn:Hp; [|apply evolves_refl].
  destruct (row_of c p) as [j|] eqn:Hj; [|apply evolves_refl]. intros i p'. cbn. destruct (decide (i = id)) as [->|].
  - rewrite lookup_insert_eq. intros [= <-]. exists p. split; [done|]. apply rtc_once. by exists c, j.
  - rewrite lookup_insert_ne by done. intros H. by exists p'.
Qed.

Lemma update_all_evolves c ids t : sound c = true -> evolves t (update_all (row_of c) ids t).1.
Proof.
  intros Hc. revert t. induction ids as [|id ids IH]; intros t; cbn; [apply evolves_refl|].
  pose proof (update_at_evolves c id t Hc) as H. destruct (update_at (row_of c) id t) as [t1 row].
  specialize (IH t1). destruct (update_all (row_of c) ids t1) as [t2 rows]. by eapply evolves_trans.
Qed.

Lemma delete_where_evolves cond t : evolves t (delete_where cond t).
Proof. intros id p' [H _]%map_lookup_filter_Some. by exists p'. Qed.

Lemma delete_evolves id t : evolves t (delete id t).
Proof. intros i p' [_ H]%lookup_delete_Some. by exists p'. Qed.

(** One statement, or one transaction of several. *)
Inductive operation :=
  | Enqueue (id : Z) (j : json)
  | ClaimJobs (locked : Z -> bool) (s : Settings) (limit : Z) (now lease : pystr)
  | CancelPending (id : Z) (srv now : pystr)
  | CancelRunning (id : Z) (srv now : pystr)
  | RefreshLeases (s : Settings) (root_ids : list Z) (now lease : pystr)
  | RecoverStale (locked : Z -> bool) (srv now : pystr)
  | FinishJob (id : Z) (r : JobResult) (srv now : pystr)
  | Quarantine (id : Z) (reason srv now : pystr)
  | ReapUnsupported (locked : Z -> bool) (s : Settings) (limit : Z) (now : pystr)
  | PersistProcess (id : Z) (s : Settings) (pid pgid start_ticks : Z) (now : pystr)
  | PublishOutput (id : Z) (chunks : list (Z * json)) (output : json) (srv now : pystr)
  | DeleteJob (id : Z) (srv : pystr)
  | MarkRoots (locked : Z -> bool) (s : Settings) (cutoff : pystr)
  | SweepRoot (locked : Z -> bool) (s : Settings) (cutoff : pystr)
  | SweepOrphans (locked : Z -> bool) (s : Settings).

Definition perform (op : operation) (t : table) : table :=
  match op with
  | Enqueue id j => match insert_rows [(id, j)] t with Ok t' => t' | Raise _ => t end
  | ClaimJobs locked s limit now lease => (claim_jobs render text_leb locked s limit now lease t).1
  | CancelPending id srv now => (update_at (cancel_pending render srv now) id t).1
  | CancelRunning id srv now => (update_at (cancel_running render srv now) id t).1
  | RefreshLeases s ids now lease => (bulk_refresh_leases render s ids now lease t).1
  | RecoverStale locked srv now => (recover_stale_jobs render text_leb locked srv now t).1
  | FinishJob id r srv now => (finish_job render id r srv now t).1
  | Quarantine id reason srv now => _quarantine_job render id reason srv now t
  | ReapUnsupported locked s limit now => (reap_unsupported_jobs render text_leb locked s limit now t).1
  | PersistProcess id s pid pgid ticks now => (_persist_process render id s pid pgid ticks now t).1
  | PublishOutput id chunks output srv now => (publish_rows render id chunks output srv now t).1
  | DeleteJob id srv => (delete_job_and_chunks render id srv t).1
  | MarkRoots locked s cutoff => (gc_mark render text_leb locked s cutoff t).1
  | SweepRoot locked s cutoff => (gc_sweep render text_leb locked s cutoff t).1
  | SweepOrphans locked s => (gc_orphans render text_leb locked s t).1
  end.

Lemma insert_rows_kept rows t t' id p : insert_rows rows t = Ok t' -> t !! id = Some p -> t' !! id = Some p.
Proof.
  revert t. induction rows as [|[i j] rows IH]; cbn; [by intros t [= <-]|]. intros t.
  destruct (t !! i) eqn:Hi; [done|]. intros H Hp. apply (IH _ H). rewrite lookup_insert_ne; [done|]. by intros ->; rewrite Hi in Hp.
Qed.

Lemma fail_evolves (quarantined : bool) id reason srv now t :
  evolves t (update_at (fail_row render (if quarantined then py "quarantine_reason" else py "unsupported_protocol_version_reason") reason srv now) id t).1.
Proof. exact (update_at_evolves (Failed quarantined reason srv now) id t eq_refl). Qed.

Lemma reap_rows_evolves srv now ids t : evolves t (reap_rows render srv now ids t).1.
Proof.
  revert t. induction ids as [|id ids IH]; intros t; cbn; [apply evolves_refl|].
  destruct (t !! id) as [p|]; [|apply IH]. destruct (reap_diagnostic p) as [d|]; [|apply IH].
  specialize (IH (fail_unsupported_job render id d srv now t)). destruct (reap_rows render srv now ids _) as [t' reaped].
  by apply (evolves_trans _ _ _ (fail_evolves false id d srv now t)).
Qed.

Lemma gc_sweep_evolves locked s cutoff t : evolves t (gc_sweep render text_leb locked s cutoff t).1.
Proof.
  unfold gc_sweep. destruct (select _ _ _ _ _ t) as [|root l]; [apply evolves_refl|]. cbn.
  eapply evolves_trans; [apply delete_where_evolves|]. case_match; [apply evolves_refl|apply delete_evolves].
Qed.

Lemma claim_jobs_evolves locked s limit now lease t : evolves t (claim_jobs render text_leb locked s limit now lease t).1.
Proof. by apply (update_all_evolves (Claimed s now lease)). Qed.

(** The same of an operation. *)
Definition sound_op (op : operation) : bool :=
  match op with
  | CancelRunning _ _ now => canonical_stamp (Some (JStr now))
  | FinishJob _ r _ _ => is_final (jr_status r)
  | _ => true
  end.

(** A row that is there before and after an operation was only changed by [row_of]. *)
Lemma perform_row op t id p p' : sound_op op = true -> t !! id = Some p -> perform op t !! id = Some p' -> rtc row_change p p'.
Proof.
  intros Hop Hp. assert (Hev : forall t', evolves t t' -> t' !! id = Some p' -> rtc row_change p p').
  { intros t' He H. destruct (He id p' H) as (p0 & Hp0 & Hr). congruence. }
  destruct op; cbn [perform]; cbn in Hop.
  - destruct (insert_rows [(id0, j)] t) as [t'|] eqn:Hi; [|apply Hev, evolves_refl].
    rewrite (insert_rows_kept _ _ _ _ _ Hi Hp). by intros [= <-].
  - apply Hev, claim_jobs_evolves.
  - apply Hev. by apply (update_at_evolves (PendingCancelled srv now)).
  - apply Hev. by apply (update_at_evolves (CancelRequested srv now)).
  - pose proof (update_all_evolves (Refreshed s now lease) root_ids t eq_refl) as H. unfold bulk_refresh_leases.
    cbn [row_of] in H. destruct (update_all (refresh_row render s now lease) root_ids t) as [t' rows]. by apply Hev.
  - apply Hev. by apply (update_all_evolves (Recovered srv now)).
  - pose proof (update_at_evolves (Finished r srv now) id0 t Hop) as H. unfold finish_job. cbn [row_of] in H.
    destruct (update_at (finish_row render r srv now) id0 t) as [t' []]; by apply Hev.
  - apply Hev, (fail_evolves true).
  - apply Hev, reap_rows_evolves.
  - pose proof (update_at_evolves (Persisted s pid pgid start_ticks now) id0 t eq_refl) as H. unfold _persist_process. cbn [row_of] in H.
    destruct (update_at (persist_row render s pid pgid start_ticks now) id0 t) as [t' []]; by apply Hev.
  - unfold publish_rows. destruct (t !! id0) as [q|]; [|apply Hev, evolves_refl]. destruct (publishable render srv q); [|apply Hev, evolves_refl].
    destruct (insert_rows chunks t) as [t'|] eqn:Hi; [|apply Hev, evolves_refl]. destruct (path_error q); [apply Hev, evolves_refl|].
    intros H. destruct (update_at_evolves (Published output srv now) id0 t' eq_refl id p' H) as (p0 & Hp0 & Hr).
    rewrite (insert_rows_kept _ _ _ _ _ Hi Hp) in Hp0. by injection Hp0 as <-.
  - unfold delete_job_and_chunks. case_match; [apply Hev, evolves_refl|]. cbn [fst].
    apply Hev. eapply evolves_trans; apply delete_where_evolves.
  - unfold gc_mark. match goal with |- context [update_all _ ?ids t] => pose proof (update_all_evolves (Marked (server s) cutoff) ids t eq_refl) as H end.
    cbn [row_of] in H. destruct (update_all (mark_row render text_leb (server s) cutoff) _ t) as [t' rows]. by apply Hev.
  - apply Hev, gc_sweep_evolves.
  - apply Hev, delete_where_evolves.
Qed.

(** ** Sequences of operations *)

Definition perform_all (ops : list operation) (t : table) : table := fold_left (fun t op => perform op t) ops t.

(** The row of [id] is there after each operation. *)
Fixpoint stays (id : Z) (ops : list operation) (t : table) : Prop :=
  match ops with
  | [] => True
  | op :: ops => is_Some (perform op t !! id) /\ stays id ops (perform op t)
  end.

Lemma perform_all_row ops t id p : forallb sound_op ops = true -> t !! id = Some p -> stays id ops t ->
  exists p', perform_all ops t !! id = Some p' /\ rtc row_change p p'.
Proof.
  revert t p. induction ops as [|op ops IH]; cbn; intros t p; [by exists p|].
  intros [Hop Hops]%andb_prop Hp [[p1 H1] Hs]. destruct (IH _ p1 Hops H1 Hs) as (p' & Hp' & Hr). exists p'. split; [done|].
  etrans; [by eapply perform_row|done].
Qed.
End changes.

(** What a selection of the queue returns: rows that satisfy its condition and that no
    other transaction has locked, each once, the first ones in its order, and all of
    them when the limit leaves room. *)

Section select.
Context (text_leb : pystr -> pystr -> bool).

Abbreviation key := (option pystr * Z)%type.
#[local] Abbreviation before := (before text_leb).
#[local] Abbreviation insert_by := (insert_by text_leb).
#[local] Abbreviation sorted_by := (sorted_by text_leb).
#[local] Abbreviation select := (select text_leb).

Lemma insert_by_cons x y l : insert_by x (y :: l) = if before x y then x :: y :: l else y :: insert_by x l.
Proof. done. Qed.

Lemma insert_by_perm x l : insert_by x l ≡ₚ x :: l.
Proof.
  induction l as [|y l IH]; [done|]. rewrite insert_by_cons. destruct (before x y); [done|]. rewrite IH. constructor.
Qed.

Lemma sorted_by_perm l : sorted_by l ≡ₚ l.
Proof. induction l as [|x l IH]; [done|]. cbn. rewrite insert_by_perm. by constructor. Qed.

(** *** The order *)

Section order.
Context (leb_total : forall a b, text_leb a b = true \/ text_leb b a = true).
Context (leb_trans : forall a b c, text_leb a b = true -> text_leb b c = true -> text_leb a c = true).

Lemma before_total (a b : key) : before a b = false -> before b a = true.
Proof.
  destruct a as [[x|] i], b as [[y|] j]; unfold JobQueue.before, text_lt; cbn [negb orb andb fst snd]; try done.
  - destruct (leb_total x y) as [H|H], (text_leb x y), (text_leb y x); cbn [negb orb andb]; intros; try done; lia.
  - intros. lia.
Qed.

Lemma before_trans (a b c : key) : before a b = true -> before b c = true -> before a c = true.
Proof.
  destruct a as [[x|] i], b as [[y|] j], c as [[z|] k]; unfold JobQueue.before, text_lt; cbn; try done; [|intros; lia].
  rewrite !orb_true_iff, !andb_true_iff, !negb_true_iff. intros H1 H2.
  assert (Hxy : text_leb x y = true) by (destruct H1 as [H|[H _]]; [by destruct (leb_total x y); congruence|done]).
  assert (Hyz : text_leb y z = true) by (destruct H2 as [H|[H _]]; [by destruct (leb_total y z); congruence|done]).
  destruct (text_leb z x) eqn:Hzx; [|by left]. right.
  assert (text_leb y x = true) by by eapply leb_trans. assert (text_leb z y = true) by by eapply leb_trans.
  split; [by eapply leb_trans|]. destruct H1 as [H1|[_ H1]], H2 as [H2|[_ H2]]; try congruence. lia.
Qed.

Lemma insert_by_sorted x l : StronglySorted (fun a b => before a b = true) l -> StronglySorted (fun a b => before a b = true) (insert_by x l).
Proof.
  induction 1 as [|y l Hl IH Hy]; [by repeat constructor|]. rewrite insert_by_cons. destruct (before x y) eqn:Hxy.
  - constructor; [by constructor|]. constructor; [done|]. eapply Forall_impl; [exact Hy|]. intros z. by apply before_trans.
  - constructor; [done|]. rewrite insert_by_perm. constructor; [by apply before_total|done].
Qed.

Lemma sorted_by_sorted l : StronglySorted (fun a b => before a b = true) (sorted_by l).
Proof. induction l; cbn; [constructor|by apply insert_by_sorted]. Qed.
End order.

(** *** The rows *)

Section rows.
Context (locked : Z -> bool) (cond : payload -> bool) (kf : payload -> option pystr) (limit : Z) (t : table).

(** The row may be selected. *)
Definition candidate (id : Z) : bool := match t !! id with Some p => cond p && negb (locked id) | None => false end.

Definition keys_of : list key :=
  (fun ip => (kf ip.2, ip.1)) <$> List.filter (fun ip => cond ip.2 && negb (locked ip.1)) (map_to_list t).

Lemma select_unfold : select locked cond kf limit t = snd <$> take (Z.to_nat limit) (sorted_by keys_of).
Proof. unfold JobQueue.select. by rewrite fmap_take. Qed.

Lemma keys_of_elem k id : (k, id) ∈ keys_of <-> exists p, t !! id = Some p /\ k = kf p /\ candidate id = true.
Proof.
  unfold keys_of, candidate. rewrite list_elem_of_fmap. split.
  - intros ([i p] & [= -> ->] & [Hp Hc]%list_elem_of_In%List.filter_In). apply list_elem_of_In, elem_of_map_to_list in Hp.
    exists p. cbn in *. by rewrite Hp.
  - intros (p & Hp & -> & Hc). rewrite Hp in Hc. exists (id, p). split; [done|].
    apply list_elem_of_In, List.filter_In. split; [by apply list_elem_of_In, elem_of_map_to_list|done].
Qed.

Lemma keys_of_ids : NoDup keys_of.*2.
Proof.
  unfold keys_of. rewrite <-list_fmap_compose. unfold compose. cbn.
  change (NoDup ((List.filter (fun ip => cond ip.2 && negb (locked ip.1)) (map_to_list t)).*1)).
  generalize (NoDup_fst_map_to_list t). induction (map_to_list t) as [|[i p] l IH]; [done|]. cbn. intros [Hi Hl]%NoDup_cons.
  destruct (cond p && _); cbn; [|by apply IH]. constructor; [|by apply IH].
  intros ([i' q] & -> & [Hq _]%list_elem_of_In%List.filter_In)%list_elem_of_fmap. apply Hi, list_elem_of_fmap. exists (i', q). split; [done|]. by apply list_elem_of_In.
Qed.

Lemma select_nodup : NoDup (select locked cond kf limit t).
Proof.
  rewrite select_unfold, fmap_take. apply (sublist_NoDup _ (snd <$> sorted_by keys_of)); [|apply sublist_take].
  rewrite sorted_by_perm. apply keys_of_ids.
Qed.

Lemma select_elem id : id ∈ select locked cond kf limit t -> candidate id = true.
Proof.
  rewrite select_unfold, list_elem_of_fmap. intros ([k i] & -> & (n & Hn & _)%elem_of_take). apply list_elem_of_lookup_2 in Hn.
  rewrite sorted_by_perm in Hn. by apply keys_of_elem in Hn as (p & _ & _ & Hc).
Qed.

Lemma select_cond id : id ∈ select locked cond kf limit t -> exists p, t !! id = Some p /\ cond p = true /\ locked id = false.
Proof.
  intros H%select_elem. unfold candidate in H. destruct (t !! id) as [p|]; [|done]. exists p.
  by apply andb_prop in H as [? ?%negb_true_iff].
Qed.

(** A candidate is left out only when the limit is reached. *)
Lemma select_full id : candidate id = true -> id ∉ select locked cond kf limit t -> length (select locked cond kf limit t) = Z.to_nat limit.
Proof.
  intros Hc Hn. rewrite select_unfold, length_fmap, length_take in *. assert (Z.to_nat limit < length (sorted_by keys_of))%nat; [|lia].
  apply Nat.nle_gt. intros Hle. apply Hn. rewrite take_ge by done. unfold candidate in Hc.
  destruct (t !! id) as [p|] eqn:Hp; [|done]. apply list_elem_of_fmap. exists (kf p, id). split; [done|].
  rewrite sorted_by_perm, keys_of_elem. exists p. unfold candidate. by rewrite Hp.
Qed.

(** The rows selected come before those left. *)
Lemma select_first id id' p p' :
  (forall a b, text_leb a b = true \/ text_leb b a = true) ->
  (forall a b c, text_leb a b = true -> text_leb b c = true -> text_leb a c = true) ->
  t !! id = Some p -> t !! id' = Some p' ->
  id ∈ select locked cond kf limit t -> candidate id' = true -> id' ∉ select locked cond kf limit t ->
  before (kf p, id) (kf p', id') = true.
Proof.
  intros Htot Htr Hp Hp' Hi Hc Hn. pose proof (sorted_by_sorted Htot Htr keys_of) as Hs.
  rewrite select_unfold in *. rewrite <-(take_drop (Z.to_nat limit) (sorted_by keys_of)) in Hs.
  apply (StronglySorted_app_1_elem_of _ _ _ _ _ Hs).
  - apply list_elem_of_fmap in Hi as ([k i] & -> & Hk). assert ((k, i) ∈ keys_of) as (q & Hq & -> & _)%keys_of_elem.
    { rewrite <-sorted_by_perm. apply elem_of_take in Hk as (n & Hk & _). by apply list_elem_of_lookup_2 in Hk. }
    cbn in *. by assert (p = q) as -> by congruence.
  - assert ((kf p', id') ∈ sorted_by keys_of) as H by (rewrite sorted_by_perm, keys_of_elem; by exists p').
    rewrite <-(take_drop (Z.to_nat limit) (sorted_by keys_of)), elem_of_app in H. destruct H as [H|H]; [|done].
    destruct Hn. apply list_elem_of_fmap. by exists (kf p', id').
Qed.
End rows.
End select.

(** ** Updates of several rows *)

Lemma update_at_other f id i t : i <> id -> (update_at f id t).1 !! i = t !! i.
Proof. intros Hi. unfold update_at. destruct (t !! id) as [p|]; [destruct (f p); [by apply lookup_insert_ne|]|]; done. Qed.

Lemma update_all_other f i ids t : i ∉ ids -> (update_all f ids t).1 !! i = t !! i.
Proof.
  revert t. induction ids as [|id ids IH]; [done|]. intros t [Hi Hids]%not_elem_of_cons. cbn.
  pose proof (update_at_other f id i t Hi) as H. destruct (update_at f id t) as [t1 row]. specialize (IH t1 Hids).
  destruct (update_all f ids t1). cbn in *. congruence.
Qed.

(** An update of rows that all meet its condition writes each of them. *)
Lemma update_all_written f ids t : NoDup ids -> (forall id, id ∈ ids -> exists p j, t !! id = Some p /\ f p = Some j) ->
  fst <$> (update_all f ids t).2 = ids
  /\ forall id j, (id, j) ∈ (update_all f ids t).2 -> (exists p, t !! id = Some p /\ f p = Some j) /\ (update_all f ids t).1 !! id = Some (Some j).
Proof.
  revert t. induction ids as [|id ids IH]; intros t; [by intros; split; [|intros ? ? ?%elem_of_nil]|].
  intros [Hid Hnd]%NoDup_cons Hall. destruct (Hall id) as (p & j & Hp & Hj); [by left|]. cbn. unfold update_at. rewrite Hp, Hj.
  destruct (IH (<[id := Some j]> t) Hnd) as [Hfst Hrows].
  { intros i Hi. rewrite lookup_insert_ne by by intros ->. apply Hall. by right. }
  pose proof (update_all_other f id ids (<[id := Some j]> t) Hid) as Hkeep. rewrite lookup_insert_eq in Hkeep.
  destruct (update_all f ids (<[id := Some j]> t)) as [t' rows]. cbn in *. split; [by rewrite Hfst|].
  intros i k [[= -> ->]|Hk]%elem_of_cons; [split; [by exists p|done]|]. destruct (Hrows i k Hk) as ((q & Hq & Hqk) & Ht'). split; [|done].
  exists q. split; [|done]. rewrite lookup_insert_ne in Hq; [done|]. intros ->. apply Hid. rewrite <-Hfst.
  apply list_elem_of_fmap. by exists (i, k).
Qed.
