(* ===== verification/JobQueueTheorems.v ===== *)
(** What the queue guarantees of a job: its life as a state machine that every
    operation refines, one execution, a request that never changes, a cancellation
    that is never lost, servers that never touch each other's rows. *)

From S2P Require Import Prelude PyStr PyNum Json JsonFacts Uuid Protocol WorkerSettings JobQueue JobQueueFacts.
From stdpp Require Import gmap sorting.

#[local] Open Scope Z_scope.
#[local] Arguments py : simpl never.

(** ** The life of a job *)

(** [requested] says whether a cancellation was; a job that is over has its status,
    its result and the time it finished; [Unknown] is a row without one of the
    protocol's statuses. *)
Inductive life :=
  | Waiting (requested : bool)
  | Running (worker incarnation : payload) (requested : bool)
  | Over (status : pystr) (result finished : payload)
  | Unknown.

Inductive job_step : life -> life -> Prop :=
  | step_claim requested worker incarnation :
      job_step (Waiting requested) (Running (Some (JStr worker)) (Some (JStr incarnation)) requested)
  | step_request worker incarnation requested :
      job_step (Running worker incarnation requested) (Running worker incarnation true)
  | step_cancel requested now :
      job_step (Waiting requested) (Over STATUS_CANCELLED (Some cancelled_result) (Some (JStr now)))
  | step_finish worker incarnation (requested : bool) status result now :
      is_final status = true ->
      job_step (Running worker incarnation requested)
               (Over (if requested then STATUS_CANCELLED else status) (Some result) (Some (JStr now)))
  | step_fail l result now :
      match l with Over _ _ _ => False | _ => True end ->
      job_step l (Over STATUS_FAILED result (Some (JStr now))).

Section theorems.
Context (render : json -> pystr) (text_leb : pystr -> pystr -> bool).

Definition life_of (p : payload) : life :=
  match status_of render p with
  | Some s =>
      if str_eqb s STATUS_PENDING then Waiting (cancel_requested p)
      else if str_eqb s STATUS_RUNNING then
        Running (state_of (py "worker_id") p) (state_of (py "worker_incarnation") p) (cancel_requested p)
      else if is_final s then Over s (sget (py "result") p) (state_of (py "finished_at") p)
      else Unknown
  | None => Unknown
  end.

(** The keys that [life_of] reads. *)
Definition life_keys : list (list pystr) :=
  [in_state (py "status"); in_state (py "cancel_requested_at"); in_state (py "worker_id");
   in_state (py "worker_incarnation"); in_state (py "finished_at"); [py "result"]].

Lemma life_kept updates j : all_settable updates = true ->
  (fun path => assigned path updates) <$> life_keys = replicate 6 None ->
  life_of (Some (_jsonb_set_chain j updates)) = life_of (Some j).
Proof.
  intros Hu [= H1 H2 H3 H4 H5 H6]. unfold life_of, status_of, cancel_requested. by rewrite !state_kept, top_kept.
Qed.

Lemma final_cases s : is_final s = true -> s = STATUS_SUCCEEDED \/ s = STATUS_FAILED \/ s = STATUS_CANCELLED.
Proof. unfold is_final. cbn. rewrite !orb_true_iff, !str_eqb_eq. intros [?|[?|[?|[=]]]]; auto. Qed.

Lemma life_waiting p : status_of render p = Some STATUS_PENDING -> life_of p = Waiting (cancel_requested p).
Proof. unfold life_of. by intros ->. Qed.

Lemma life_running p : status_of render p = Some STATUS_RUNNING ->
  life_of p = Running (state_of (py "worker_id") p) (state_of (py "worker_incarnation") p) (cancel_requested p).
Proof. unfold life_of. by intros ->. Qed.

Lemma life_over p s : status_of render p = Some s -> is_final s = true -> life_of p = Over s (sget (py "result") p) (state_of (py "finished_at") p).
Proof. unfold life_of. intros -> H. rewrite H. by destruct (final_cases _ H) as [->|[->| ->]]. Qed.

(** The row after a change that sets [status]. *)
Lemma status_set updates j s : all_settable updates = true -> stateful j = true ->
  assigned (in_state (py "status")) updates = Some (JStr s) -> status_of render (Some (_jsonb_set_chain j updates)) = Some s.
Proof. intros Hu Hj Ha. unfold status_of. by rewrite (state_set _ _ _ _ Hu Hj Ha). Qed.

Lemma status_kept updates j : all_settable updates = true ->
  assigned (in_state (py "status")) updates = None -> status_of render (Some (_jsonb_set_chain j updates)) = status_of render (Some j).
Proof. intros Hu Ha. unfold status_of. by rewrite state_kept. Qed.

(** A row that a change ends: [status], the result, the time it finished. *)
Lemma life_ended updates j s now : all_settable updates = true -> stateful j = true -> is_final s = true ->
  assigned (in_state (py "status")) updates = Some (JStr s) -> assigned (in_state (py "finished_at")) updates = Some (JStr now) ->
  life_of (Some (_jsonb_set_chain j updates)) =
  Over s (match assigned [py "result"] updates with Some r => Some r | None => sget (py "result") (Some j) end) (Some (JStr now)).
Proof.
  intros Hu Hj Hs Ha Hf. rewrite (life_over _ s) by (done || by apply status_set). rewrite (state_set _ _ _ _ Hu Hj Hf). f_equal.
  by destruct (assigned [py "result"] updates) eqn:Hr; [apply top_set|apply top_kept].
Qed.

(** ** Every change is a step of the life, or none *)

Lemma not_terminal_inv j : not_terminal render (Some j) = true ->
  stateful j = true /\ match life_of (Some j) with Over _ _ _ => False | _ => True end.
Proof.
  unfold not_terminal, is_terminal, has_status, life_of. destruct (status_of render (Some j)) as [s|] eqn:Hs; [|done]. cbn [is_text]. intros Hn. split.
  - unfold status_of in Hs. destruct (state_of (py "status") (Some j)) eqn:H; [exact (state_of_stateful _ _ _ H)|done].
  - destruct (is_final s) eqn:Hf; [|by destruct (str_eqb s STATUS_PENDING), (str_eqb s STATUS_RUNNING)]. by destruct (final_cases s Hf) as [->|[->| ->]].
Qed.

Lemma change_step c p j : sound c = true -> row_of render text_leb c p = Some j ->
  life_of (Some j) = life_of p \/ job_step (life_of p) (life_of (Some j)).
Proof.
  intros Hc Hj. destruct c; cbn in Hj;
    apply set_when_inv in Hj as [Hcond (j0 & -> & ->)];
    unfold claimable, refreshable, stale, expired_root in Hcond; rewrite ?andb_true_iff in Hcond; destruct_and?;
    try match goal with H : has_status _ _ _ = true |- _ => apply has_status_inv in H as [Hs Hst] end.
  - right. rewrite (life_waiting _ Hst), life_running by by apply status_set. unfold cancel_requested. changed_keys. constructor.
  - right. rewrite (life_waiting _ Hst), (life_ended _ _ STATUS_CANCELLED now) by done. constructor.
  - right. rewrite (life_running _ Hst), life_running by by rewrite status_kept. unfold cancel_requested at 2. changed_keys.
    change (canonical_stamp (Some (JStr now)) = true) in Hc. rewrite Hc. constructor.
  - left. by apply life_kept.
  - right. rewrite (life_running _ Hst), (life_ended _ _ STATUS_FAILED now) by done. by constructor.
  - right. rewrite (life_running _ Hst). rewrite (life_ended _ _ (if cancel_requested (Some j0) then STATUS_CANCELLED else jr_status r) now) by first [done | by destruct (cancel_requested _)]. by constructor.
  - right. destruct (not_terminal_inv _ ltac:(eassumption)) as [Hs Ho].
    destruct quarantined; rewrite (life_ended _ _ STATUS_FAILED now) by done; by constructor.
  - left. by apply life_kept.
  - left. by apply life_kept.
  - left. by apply life_kept.
Qed.

Lemma changes_steps p p' : rtc (row_change render text_leb) p p' -> rtc job_step (life_of p) (life_of p').
Proof.
  induction 1 as [|p p1 p' (c & j & Hc & Hj & ->) _ IH]; [done|].
  by destruct (change_step c p j Hc Hj) as [<-|]; [|eapply rtc_l].
Qed.

(** *** The lives that a step can lead to *)

Lemma over_final s result finished l : rtc job_step (Over s result finished) l -> l = Over s result finished.
Proof. remember (Over s result finished) as o eqn:Ho. induction 1 as [|l0 l1 l Hs _ IH]; [done|]. subst. by inversion Hs. Qed.

(** A running job of which a cancellation was requested. *)
Definition cancelling (l : life) : bool :=
  match l with
  | Running _ _ requested => requested
  | Over s _ _ => str_eqb s STATUS_CANCELLED || str_eqb s STATUS_FAILED
  | _ => false
  end.

Lemma cancelling_kept l l' : cancelling l = true -> rtc job_step l l' -> cancelling l' = true.
Proof.
  intros Hl Hr. induction Hr as [|l0 l1 l' Hs _ IH]; [done|]. apply IH. by destruct Hs; cbn in Hl |- *; subst.
Qed.

Lemma cancelling_inv p : cancelling (life_of p) = true ->
  status_of render p = Some STATUS_RUNNING /\ cancel_requested p = true
  \/ status_of render p = Some STATUS_CANCELLED \/ status_of render p = Some STATUS_FAILED.
Proof.
  unfold life_of. destruct (status_of render p) as [s|]; [|done].
  destruct (str_eqb s STATUS_PENDING); [done|]. destruct (str_eqb s STATUS_RUNNING) eqn:Hs.
  - apply str_eqb_eq in Hs as ->. by left.
  - destruct (is_final s); [|done]. cbn. rewrite orb_true_iff, !str_eqb_eq. intros [->| ->]; auto.
Qed.

Lemma cancel_accepted srv now p j : cancel_running render srv now p = Some j -> canonical_stamp (Some (JStr now)) = true ->
  cancelling (life_of (Some j)) = true.
Proof.
  intros ([_ Hst]%andb_prop & j0 & -> & ->)%set_when_inv Hn. apply has_status_inv in Hst as [Hs Hst].
  rewrite life_running by by rewrite status_kept. unfold cancelling, cancel_requested. by changed_keys.
Qed.

(** *** The history of a table *)

(** C7: The queue refines the life of a job: whatever operations run, in any order and by any
    workers, as long as the row is there its life only takes the steps of [job_step],
    and the status, result and finishing time of a job that is over never change. *)
Theorem lifecycle_refines ops t id p :
  forallb sound_op ops = true -> t !! id = Some p -> stays render text_leb id ops t ->
  exists p', perform_all render text_leb ops t !! id = Some p' /\ rtc job_step (life_of p) (life_of p')
    /\ (forall s result finished, life_of p = Over s result finished -> life_of p' = life_of p).
Proof.
  intros Hops Hp Hs. destruct (perform_all_row _ _ _ _ _ _ Hops Hp Hs) as (p' & Hp' & Hr%changes_steps). exists p'. repeat split; [done..|].
  intros s result finished Ho. rewrite Ho in *. by apply over_final.
Qed.

(** C9: A cancellation accepted while the job runs is never lost: whatever happens after,
    while the row is there the job still runs with the request recorded, or it ended
    cancelled or failed; a later success of its process does not count. *)
Theorem cancellation_wins ops t id srv now j t1 :
  update_at (cancel_running render srv now) id t = (t1, Some j) -> canonical_stamp (Some (JStr now)) = true ->
  forallb sound_op ops = true -> stays render text_leb id ops t1 ->
  exists p', perform_all render text_leb ops t1 !! id = Some p'
    /\ (status_of render p' = Some STATUS_RUNNING /\ cancel_requested p' = true
        \/ status_of render p' = Some STATUS_CANCELLED \/ status_of render p' = Some STATUS_FAILED).
Proof.
  unfold update_at. destruct (t !! id) as [p|]; [|done]. destruct (cancel_running render srv now p) as [j'|] eqn:Hj; [|done].
  intros [= <- <-] Hn Hops Hs. destruct (perform_all_row _ _ _ _ _ _ Hops (lookup_insert_eq _ _ _) Hs) as (p' & Hp' & Hr%changes_steps).
  exists p'. split; [done|]. apply cancelling_inv, (cancelling_kept _ _ (cancel_accepted _ _ _ _ Hj Hn) Hr).
Qed.

(** ** One execution *)

(** How often the row of [id] is handed to a worker by an operation, and by a history. *)
Definition claims (id : Z) (op : operation) (t : table) : nat :=
  match op with
  | ClaimJobs locked s limit now lease => count_occ Z.eq_dec (fst <$> (claim_jobs render text_leb locked s limit now lease t).2) id
  | _ => 0
  end.

Fixpoint claims_all (id : Z) (ops : list operation) (t : table) : nat :=
  match ops with
  | [] => 0
  | op :: ops => claims id op t + claims_all id ops (perform render text_leb op t)
  end.

(** The executions a row may still see. *)
Definition executions (p : payload) : nat := match life_of p with Waiting _ => 1 | _ => 0 end.

Lemma steps_executions l l' : rtc job_step l l' ->
  ((match l' with Waiting _ => 1 | _ => 0 end) <= match l with Waiting _ => 1 | _ => 0 end)%nat.
Proof. induction 1 as [|l0 l1 l' Hs _ IH]; [done|]. destruct Hs; lia. Qed.

Lemma changes_executions p p' : rtc (row_change render text_leb) p p' -> (executions p' <= executions p)%nat.
Proof. intros H. by apply steps_executions, changes_steps. Qed.

Lemma claim_executions s now lease p j : claim_row render s now lease p = Some j ->
  executions p = 1%nat /\ executions (Some j) = 0%nat.
Proof.
  intros (Hc & j0 & -> & ->)%set_when_inv. unfold claimable in Hc. rewrite !andb_true_iff in Hc. destruct Hc as (_ & Hst).
  apply has_status_inv in Hst as [Hs Hst]. unfold executions. rewrite (life_waiting _ Hst), life_running by by apply status_set. done.
Qed.

Lemma update_all_claims s now lease ids id t p p' :
  t !! id = Some p -> (update_all (claim_row render s now lease) ids t).1 !! id = Some p' ->
  (count_occ Z.eq_dec (fst <$> (update_all (claim_row render s now lease) ids t).2) id + executions p' <= executions p)%nat.
Proof.
  revert t p. induction ids as [|i ids IH]; intros t p Hp; cbn; [rewrite Hp; intros [= <-]; lia|].
  unfold update_at. destruct (t !! i) as [q|] eqn:Hi.
  2: { specialize (IH t p Hp). by destruct (update_all _ ids t). }
  destruct (claim_row render s now lease q) as [j|] eqn:Hq.
  2: { specialize (IH t p Hp). by destruct (update_all _ ids t). }
  specialize (IH (<[i := Some j]> t)). destruct (update_all _ ids (<[i := Some j]> t)) as [t' rows]. cbn in *.
  destruct (Z.eq_dec i id) as [->|Hne].
  - intros Hp'. specialize (IH _ (lookup_insert_eq _ _ _) Hp'). apply claim_executions in Hq as [H1 H2].
    assert (q = p) as -> by congruence. lia.
  - rewrite lookup_insert_ne in IH by done. by apply IH.
Qed.

Lemma perform_claims op t id p p' : sound_op op = true -> t !! id = Some p -> perform render text_leb op t !! id = Some p' ->
  (claims id op t + executions p' <= executions p)%nat.
Proof.
  intros Hop Hp Hp'. pose proof (changes_executions _ _ (perform_row _ _ _ _ _ _ _ Hop Hp Hp')).
  destruct op; try (cbn [claims]; lia). by eapply update_all_claims.
Qed.

(** C8: A job is executed at most once: in any history of operations that leaves its row in
    place, workers are handed the row at most once, and never if it was not pending. *)
Theorem executed_once ops t id p :
  forallb sound_op ops = true -> t !! id = Some p -> stays render text_leb id ops t ->
  (claims_all id ops t <= match status_of render p with Some s => if str_eqb s STATUS_PENDING then 1 else 0 | None => 0 end)%nat.
Proof.
  assert (Hall : forall ops t p, forallb sound_op ops = true -> t !! id = Some p -> stays render text_leb id ops t ->
                 (claims_all id ops t <= executions p)%nat).
  { clear. induction ops as [|op ops IH]; intros t p; cbn; [lia|]. intros [Hop Hops]%andb_prop Hp [[p' Hp'] Hs].
    specialize (IH _ _ Hops Hp' Hs). pose proof (perform_claims _ _ _ _ _ Hop Hp Hp'). lia. }
  intros Hops Hp Hs. etrans; [by eapply Hall|]. unfold executions, life_of. by repeat (case_match; simplify_eq; try lia).
Qed.

(** ** The request *)

(** The top-level keys that updates may set. *)
Definition outcome_keys : list pystr := [py "state"; py "result"; py "output"].
Definition top_paths (updates : list (list pystr * json)) : bool :=
  forallb (fun u => match u.1 with [k] => existsb (str_eqb k) [py "result"; py "output"] | _ => true end) updates.

Lemma top_unassigned updates k : top_paths updates = true -> ~ In k outcome_keys -> assigned [k] updates = None.
Proof.
  intros Hu Hk. induction updates as [|u l IH] using rev_ind; [done|]. unfold top_paths in Hu. rewrite forallb_app in Hu.
  apply andb_prop in Hu as [Hl Hu]. rewrite assigned_snoc, IH by done. unfold path_is. rewrite bool_decide_false; [done|].
  destruct u as [[|k' []] v]; cbn in *; try done. intros [= ->]. rewrite andb_true_r, !orb_true_iff, !str_eqb_eq in Hu.
  apply Hk. destruct Hu as [->|[->|]]; auto. done.
Qed.

Lemma change_request c p j k : row_of render text_leb c p = Some j -> ~ In k outcome_keys -> sget k (Some j) = sget k p.
Proof.
  intros Hj Hk. assert (str_eqb k (py "state") = false) as Hs.
  { destruct (str_eqb k (py "state")) eqn:H; [|done]. apply str_eqb_eq in H as ->. by destruct Hk; left. }
  destruct c; cbn in Hj; apply set_when_inv in Hj as [_ (j0 & -> & ->)]; try destruct quarantined;
    (apply top_kept; [done|done|by apply top_unassigned]).
Qed.

(** C15: The request is immutable: no operation changes any top-level key of a row besides
    its state, its result and its output, so the server, type, version and process of
    a job are those it was submitted with. *)
Theorem request_immutable ops t id p k :
  forallb sound_op ops = true -> t !! id = Some p -> stays render text_leb id ops t -> ~ In k outcome_keys ->
  exists p', perform_all render text_leb ops t !! id = Some p' /\ sget k p' = sget k p.
Proof.
  intros Hops Hp Hs Hk. destruct (perform_all_row _ _ _ _ _ _ Hops Hp Hs) as (p' & Hp' & Hr). exists p'. split; [done|].
  clear -Hr Hk. induction Hr as [|p p1 p' (c & j & _ & Hj & ->) _ IH]; [done|]. by rewrite IH, (change_request _ _ _ _ Hj Hk).
Qed.

End theorems.
