(* ===== verification/JobQueueServers.v ===== *)
(** The statements of one server on a queue that several share: the rows of the
    others stay as they are. *)

From S2P Require Import Prelude PyStr PyNum Json JsonFacts Uuid Protocol WorkerSettings JobQueue JobQueueFacts.
From stdpp Require Import gmap sorting.

#[local] Open Scope Z_scope.
#[local] Arguments py : simpl never.

Section servers.
Context (render : json -> pystr) (text_leb : pystr -> pystr -> bool).

(** The server that an operation, or a change, acts for; an insertion acts for none. *)
Definition op_server (op : operation) : option pystr :=
  match op with
  | Enqueue _ _ => None
  | ClaimJobs _ s _ _ _ | RefreshLeases s _ _ _ | ReapUnsupported _ s _ _ | PersistProcess _ s _ _ _ _
  | MarkRoots _ s _ | SweepRoot _ s _ | SweepOrphans _ s => Some (server s)
  | CancelPending _ srv _ | CancelRunning _ srv _ | RecoverStale _ srv _ | FinishJob _ _ srv _ | Quarantine _ _ srv _
  | PublishOutput _ _ _ srv _ | DeleteJob _ srv => Some srv
  end.

Definition change_server (c : change) : pystr :=
  match c with
  | Claimed s _ _ | Refreshed s _ _ | Persisted s _ _ _ _ => server s
  | PendingCancelled srv _ | CancelRequested srv _ | Recovered srv _ | Finished _ srv _ | Failed _ _ srv _
  | Published _ srv _ | Marked srv _ => srv
  end.

Lemma change_matches c p j : row_of render text_leb c p = Some j -> server_match render p (change_server c) = true.
Proof.
  intros Hj. destruct c; cbn in Hj; apply set_when_inv in Hj as [Hc _];
    unfold claimable, refreshable, stale, expired_root in Hc; rewrite ?andb_true_iff in Hc; tauto.
Qed.

(** The rows of other servers are left alone. *)
Definition spares (srv : pystr) (t t' : table) : Prop :=
  forall id p, t !! id = Some p -> server_match render p srv = false -> t' !! id = Some p.

#[local] Instance spares_preorder srv : PreOrder (spares srv).
Proof. split; [by intros t id p|]. intros t1 t2 t3 H1 H2 id p Hp Hs. eauto. Qed.

Lemma update_at_spares c id t : spares (change_server c) t (update_at (row_of render text_leb c) id t).1.
Proof.
  unfold update_at. destruct (t !! id) as [q|] eqn:Hq; [|done]. destruct (row_of render text_leb c q) as [j|] eqn:Hj; [|done].
  intros i p Hp Hs. cbn. rewrite lookup_insert_ne; [done|]. intros ->.
  rewrite Hp in Hq. injection Hq as ->. by rewrite (change_matches _ _ _ Hj) in Hs.
Qed.

Lemma update_all_spares c ids t : spares (change_server c) t (update_all (row_of render text_leb c) ids t).1.
Proof.
  revert t. induction ids as [|id ids IH]; intros t; cbn; [done|].
  pose proof (update_at_spares c id t) as H. destruct (update_at (row_of render text_leb c) id t) as [t1 row].
  specialize (IH t1). destruct (update_all (row_of render text_leb c) ids t1) as [t2 rows]. by etrans.
Qed.

Lemma delete_where_spares srv cond t :
  (forall id p, cond id p = true -> t !! id = Some p -> server_match render p srv = true) -> spares srv t (delete_where cond t).
Proof.
  intros Hc id p Hp Hs. apply map_lookup_filter_Some. split; [done|]. cbn. destruct (cond id p) eqn:H; [|done].
  by rewrite (Hc _ _ H Hp) in Hs.
Qed.

Lemma insert_rows_spares srv rows t t' : insert_rows rows t = Ok t' -> spares srv t t'.
Proof. intros Hi id p Hp _. by eapply insert_rows_kept. Qed.

Lemma reap_rows_spares srv now ids t : spares srv t (reap_rows render srv now ids t).1.
Proof.
  revert t. induction ids as [|id ids IH]; intros t; cbn; [done|].
  destruct (t !! id) as [p|]; [|done]. destruct (reap_diagnostic p) as [d|]; [|done].
  specialize (IH (fail_unsupported_job render id d srv now t)). destruct (reap_rows render srv now ids _) as [t' reaped].
  etrans; [exact (update_at_spares (Failed false d srv now) id t)|done].
Qed.

Lemma same_server_chunk_match srv thread p : same_server_chunk render srv thread p = true -> server_match render p srv = true.
Proof. unfold same_server_chunk. by intros [_ ?]%andb_prop. Qed.

(** Only selected rows are deleted. *)
Lemma delete_selected_spares srv locked cond kf limit t :
  (forall p, cond p = true -> server_match render p srv = true) ->
  spares srv t (delete_where (fun i _ => existsb (Z.eqb i) (select text_leb locked cond kf limit t)) t).
Proof.
  intros Hc. apply delete_where_spares. intros id p (i & Hi & ->%Z.eqb_eq)%existsb_exists Hp. apply list_elem_of_In in Hi.
  apply select_cond in Hi as (q & Hq & Hcq & _). apply Hc. by assert (p = q) as -> by congruence.
Qed.

Lemma gc_sweep_spares locked s cutoff t : spares (server s) t (gc_sweep render text_leb locked s cutoff t).1.
Proof.
  unfold gc_sweep. destruct (select _ _ _ _ 1 t) as [|root l] eqn:Hsel; [done|]. cbn.
  assert (Hd := delete_selected_spares (server s) locked (same_server_chunk render (server s) (uuid_str root)) (fun _ => None) (gc_batch_limit s) t
                  (fun p => same_server_chunk_match _ _ p)).
  case_match; [done|]. intros id p Hp Hs. rewrite lookup_delete_ne; [by apply Hd|]. intros ->.
  assert (id ∈ id :: l) as Hr by by left. rewrite <-Hsel in Hr. apply select_cond in Hr as (q & Hq & Hc & _).
  rewrite Hp in Hq. injection Hq as ->. unfold expired_root in Hc. rewrite !andb_true_iff in Hc. destruct_and!. congruence.
Qed.

(** C10: Servers are isolated: an operation of one server neither changes nor deletes a row
    whose server, as a JSON string, is not its own. *)
Theorem server_isolated op t srv id p :
  op_server op = Some srv -> t !! id = Some p -> server_match render p srv = false ->
  perform render text_leb op t !! id = Some p.
Proof.
  intros Hop. revert id p. change (spares srv t (perform render text_leb op t)). destruct op; try discriminate; injection Hop as <-; cbn [perform].
  - apply (update_all_spares (Claimed s now lease)).
  - apply (update_at_spares (PendingCancelled srv0 now)).
  - apply (update_at_spares (CancelRequested srv0 now)).
  - pose proof (update_all_spares (Refreshed s now lease) root_ids t) as H. unfold bulk_refresh_leases.
    cbn [row_of] in H. by destruct (update_all (refresh_row render s now lease) root_ids t).
  - apply (update_all_spares (Recovered srv0 now)).
  - pose proof (update_at_spares (Finished r srv0 now) id t) as H. unfold finish_job. cbn [row_of] in H.
    by destruct (update_at (finish_row render r srv0 now) id t) as [t' []].
  - apply (update_at_spares (Failed true reason srv0 now)).
  - apply reap_rows_spares.
  - pose proof (update_at_spares (Persisted s pid pgid start_ticks now) id t) as H. unfold _persist_process. cbn [row_of] in H.
    by destruct (update_at (persist_row render s pid pgid start_ticks now) id t) as [t' []].
  - unfold publish_rows. destruct (t !! id) as [q|]; [|done]. destruct (publishable render srv0 q); [|done].
    destruct (insert_rows chunks t) as [t'|] eqn:Hi; [|done]. destruct (path_error q); [done|].
    etrans; [by eapply insert_rows_spares|apply (update_at_spares (Published output srv0 now))].
  - unfold delete_job_and_chunks. case_match; [done|]. cbn [fst]. etrans; apply delete_where_spares; intros i p.
    + rewrite !andb_true_iff. tauto.
    + intros Hc _. by apply same_server_chunk_match in Hc.
  - unfold gc_mark. match goal with |- context [update_all _ ?ids t] => pose proof (update_all_spares (Marked (server s) cutoff) ids t) as H end.
    cbn [row_of] in H. by destruct (update_all (mark_row render text_leb (server s) cutoff) _ t).
  - apply gc_sweep_spares.
  - apply delete_selected_spares. intros p. rewrite !andb_true_iff. tauto.
Qed.
End servers.

(** Which jobs a worker claims, the oldest first, and which the reaper fails: the
    texts that the statements compare decide the protocol's version policy. *)

Section claims.
Context (render : json -> pystr) (text_leb : pystr -> pystr -> bool).

Lemma claimable_stateful s j : claimable render s (Some j) = true -> stateful j = true.
Proof.
  unfold claimable. intros [_ H]%andb_prop. unfold has_status, status_of in H.
  destruct (state_of (py "status") (Some j)) as [v|] eqn:Hv; [|done]. exact (state_of_stateful _ _ _ Hv).
Qed.

Lemma claim_row_owned s now lease p j : claim_row render s now lease p = Some j ->
  status_of render (Some j) = Some STATUS_RUNNING /\ owned_by render s (Some j) = true
  /\ state_of (py "lease_expires_at") (Some j) = Some (JStr lease).
Proof.
  intros (Hc & j0 & -> & ->)%set_when_inv. apply claimable_stateful in Hc. unfold status_of, owned_by. changed_keys.
  cbn [stext is_text]. by rewrite !str_eqb_refl.
Qed.

(** C13: A claim takes the oldest jobs: every row claimed was claimable and not locked by
    another transaction, is now running and owned by this incarnation, and a claimable
    unlocked row is left only when the limit is reached, by rows that all come before
    it in order of creation time and id. *)
Theorem claims_oldest locked s limit now lease t t' rows :
  (forall a b, text_leb a b = true \/ text_leb b a = true) ->
  (forall a b c, text_leb a b = true -> text_leb b c = true -> text_leb a c = true) ->
  claim_jobs render text_leb locked s limit now lease t = (t', rows) ->
  (forall id j, (id, j) ∈ rows ->
     (exists p, t !! id = Some p /\ claimable render s p = true /\ locked id = false) /\ t' !! id = Some (Some j)
     /\ status_of render (Some j) = Some STATUS_RUNNING /\ owned_by render s (Some j) = true)
  /\ (forall id' p', t !! id' = Some p' -> claimable render s p' = true -> locked id' = false -> id' ∉ fst <$> rows ->
     length rows = Z.to_nat limit
     /\ forall id p, id ∈ fst <$> rows -> t !! id = Some p -> before text_leb (created_at render p, id) (created_at render p', id') = true).
Proof.
  intros Htot Htr Hc. set (ids := select text_leb locked (claimable render s) (created_at render) limit t).
  destruct (update_all_written (claim_row render s now lease) ids t) as [Hids Hrows]; [apply select_nodup| |].
  { intros id (p & Hp & Hcl & _)%select_cond. destruct p as [j|]; [|by unfold claimable in Hcl].
    exists (Some j). unfold claim_row, set_when. rewrite Hcl. by eexists. }
  unfold claim_jobs in Hc. fold ids in Hc. rewrite Hc in Hids, Hrows. cbn in Hids, Hrows. split.
  - intros id j Hj. destruct (Hrows id j Hj) as ((p & Hp & Hcj) & Ht'). destruct (claim_row_owned _ _ _ _ _ Hcj) as (Hst & Ho & _).
    split; [|done]. assert (id ∈ ids) as Hid by (rewrite <-Hids; apply list_elem_of_fmap; by exists (id, j)).
    apply select_cond in Hid as (q & Hq & Hcl & Hl). by exists q.
  - intros id' p' Hp' Hcl Hl Hn. rewrite Hids in *.
    assert (candidate locked (claimable render s) t id' = true) as Hcand by by (unfold candidate; rewrite Hp', Hcl, Hl).
    split; [rewrite <-(length_fmap fst), Hids; by eapply select_full|]. intros id p Hid Hp. by eapply (select_first text_leb locked (claimable render s)).
Qed.

(** ** Versions *)

Lemma nat_repr_long n : 10 <= n -> (2 <= length (nat_repr n))%nat.
Proof.
  intros Hn. unfold nat_repr. assert (3 <= Z.log2 n) by (change 3 with (Z.log2 10); by apply Z.log2_le_mono).
  destruct (Z.to_nat (Z.log2 n)) as [|fuel] eqn:Hf; [lia|]. cbn. destruct (Z.ltb_spec n 10); [lia|].
  rewrite dec_digits_acc. destruct (n / 10 <? 10); [rewrite ?dec_digits_acc|rewrite dec_digits_acc]; rewrite ?length_app; cbn; lia.
Qed.

(** The collation orders the digits. *)
Context (digits_ordered : forall a b, 48 <= a <= 57 -> 48 <= b <= 57 -> text_leb [a] [b] = (a <=? b)).

Lemma small_repr z : 0 <= z < 10 -> int_repr z = [48 + z].
Proof.
  intros Hz. assert (z = 0 \/ z = 1 \/ z = 2 \/ z = 3 \/ z = 4 \/ z = 5 \/ z = 6 \/ z = 7 \/ z = 8 \/ z = 9) as H by lia.
  by repeat destruct H as [->|H]; [..|subst].
Qed.

Lemma nat_repr_forallb n : 0 <= n -> forallb digit (nat_repr n) = true.
Proof.
  intros Hn. apply forallb_forall. intros c Hc. apply list_elem_of_In in Hc. pose proof (nat_repr_digits n Hn) as Hd.
  rewrite Forall_forall in Hd. exact (Hd c Hc).
Qed.

(** The text of an integer is one, and is that of the current version or below it
    exactly when the integer is. *)
Lemma int_repr_version z :
  integer_text (int_repr z) = true /\ retired_text text_leb (int_repr z) = (z <? 4) /\ str_eqb (int_repr z) (int_repr 4) = (z =? 4).
Proof.
  assert (z < 0 \/ 0 <= z < 10 \/ 10 <= z) as [Hz|[Hz|Hz]] by lia.
  - unfold int_repr. destruct (Z.ltb_spec z 0); [|lia]. destruct (nat_repr_lead (- z)) as (d & r & Hd & Hdr); [lia|].
    pose proof (nat_repr_forallb (- z) ltac:(lia)) as Hf. rewrite Hd in *. repeat split.
    + exact Hf.
    + symmetry. by apply Z.ltb_lt; lia.
    + symmetry. by apply Z.eqb_neq; lia.
  - rewrite small_repr by done. unfold retired_text, text_lt, CURRENT_PROTOCOL_VERSION. change (int_repr 4) with [52].
    assert (str_eqb [48 + z] [52] = (z =? 4)) as -> by (cbn; rewrite andb_true_r; lia).
    assert (str_eqb (take 1 [48 + z]) (py "-") = false) as -> by (change (py "-") with [45]; cbn; lia).
    rewrite digits_ordered by lia. repeat split; [|cbn [length Nat.ltb Nat.leb Nat.eqb orb andb]; lia].
    unfold integer_text. assert (forallb digit [48 + z] = true) as Hd by (cbn; unfold digit; lia).
    repeat case_match; done || lia.
  - assert (int_repr z = nat_repr z) as -> by (unfold int_repr; by destruct (Z.ltb_spec z 0); [lia|]).
    pose proof (nat_repr_long z Hz) as Hl. destruct (nat_repr_lead z) as (d & r & Hd & Hdr); [lia|].
    pose proof (nat_repr_forallb z ltac:(lia)) as Hf. rewrite Hd in *. cbn in Hl. repeat split.
    + unfold integer_text. repeat case_match; done || lia.
    + unfold retired_text, CURRENT_PROTOCOL_VERSION. change (int_repr 4) with [52].
      assert (str_eqb (take 1 (d :: r)) (py "-") = false) as -> by (change (py "-") with [45]; cbn; lia).
      destruct r; [cbn in Hl; lia|]. cbn. lia.
    + change (int_repr 4) with [52]. destruct r; [cbn in Hl; lia|]. cbn. rewrite andb_false_r. lia.
Qed.

(** On a payload with an integer version, the texts that the statements compare decide
    as the protocol's version policy does: the claim takes exactly the claimable
    version, the reaper exactly the retired ones, and never both. *)
Theorem version_policy_refined p z :
  sget (py "v") p = Some (JInt z) ->
  (current_version render p = true <-> classify_job_version z = CLAIMABLE)
  /\ (retired render text_leb p = true <-> reaper_disposition z = FAIL_CLOSED)
  /\ (current_version render p = true -> retired render text_leb p = false).
Proof.
  intros Hp. destruct (int_repr_version z) as (Hi & Hr & Hc). unfold current_version, retired, CURRENT_PROTOCOL_VERSION.
  rewrite Hp. cbn [is_jnumber stext is_text andb]. rewrite Hi, Hr, Hc. unfold classify_job_version, version_supported, reaper_disposition, CURRENT_PROTOCOL_VERSION.
  destruct (Z.eqb_spec z 4), (Z.ltb_spec z 4); repeat split; done || lia.
Qed.
End claims.
