(* ===== verification/JobQueueCollection.v ===== *)
(** Deletion and collection: the only rows the statements ever remove, and what a
    pass of the collector that reports no more work leaves. *)

From S2P Require Import Prelude PyStr PyNum Json JsonFacts Uuid Protocol WorkerSettings JobQueue JobQueueFacts.
From stdpp Require Import gmap sorting.

#[local] Open Scope Z_scope.
#[local] Arguments py : simpl never.

(** ** Rows that stay *)

Definition lasting (t t' : table) : Prop := forall id, is_Some (t !! id) -> is_Some (t' !! id).

#[export] Instance lasting_preorder : PreOrder lasting.
Proof. split; [by intros t id|]. intros t1 t2 t3 H1 H2 id Hid. auto. Qed.

Lemma insert_lasting id p t : lasting t (<[id := p]> t).
Proof. intros i Hi. destruct (decide (i = id)) as [->|]; [by rewrite lookup_insert_eq|by rewrite lookup_insert_ne]. Qed.

Lemma update_at_lasting f id t : lasting t (update_at f id t).1.
Proof. unfold update_at. destruct (t !! id) as [p|]; [|done]. destruct (f p); [apply insert_lasting|done]. Qed.

Lemma update_all_lasting f ids t : lasting t (update_all f ids t).1.
Proof.
  revert t. induction ids as [|id ids IH]; intros t; cbn; [done|]. pose proof (update_at_lasting f id t) as H.
  destruct (update_at f id t) as [t1 row]. specialize (IH t1). destruct (update_all f ids t1). by etrans.
Qed.

Lemma insert_rows_lasting rows t t' : insert_rows rows t = Ok t' -> lasting t t'.
Proof.
  revert t. induction rows as [|[i j] rows IH]; cbn; [by intros t [= <-]|]. intros t.
  destruct (t !! i); [done|]. intros H. etrans; [apply insert_lasting|by apply IH].
Qed.

Section collection.
Context (render : json -> pystr) (text_leb : pystr -> pystr -> bool).

Lemma reap_rows_lasting srv now ids t : lasting t (reap_rows render srv now ids t).1.
Proof.
  revert t. induction ids as [|id ids IH]; intros t; cbn; [done|].
  destruct (t !! id) as [p|]; [|done]. destruct (reap_diagnostic p) as [d|]; [|done].
  specialize (IH (fail_unsupported_job render id d srv now t)). destruct (reap_rows render srv now ids _).
  etrans; [apply update_at_lasting|done].
Qed.

(** ** Rows that go *)

(** The row [p] of [id] may be removed from [t] by [op]. *)
Inductive removable (t : table) (id : Z) (p : payload) : operation -> Prop :=
  | removable_job srv :
      is_type render p JOB_TYPE_COMMAND = true -> server_match render p srv = true ->
      removable t id p (DeleteJob id srv)
  | removable_job_chunk root srv :
      same_server_chunk render srv (uuid_str root) p = true ->
      removable t id p (DeleteJob root srv)
  | removable_root locked s cutoff :
      expired_root render text_leb (server s) cutoff p = true -> marked p = true -> locked id = false ->
      (forall i q, perform render text_leb (SweepRoot locked s cutoff) t !! i = Some q -> same_server_chunk render (server s) (uuid_str id) q = false) ->
      removable t id p (SweepRoot locked s cutoff)
  | removable_chunk locked s cutoff root q :
      t !! root = Some q -> expired_root render text_leb (server s) cutoff q = true -> marked q = true ->
      same_server_chunk render (server s) (uuid_str root) p = true -> locked id = false ->
      removable t id p (SweepRoot locked s cutoff)
  | removable_orphan locked s :
      is_type render p JOB_TYPE_OUTPUT_CHUNK = true -> server_match render p (server s) = true -> orphan render t p = true -> locked id = false ->
      removable t id p (SweepOrphans locked s).

Lemma delete_where_inv cond (t : table) id p : t !! id = Some p -> delete_where cond t !! id = None -> cond id p = true.
Proof.
  intros Hp [H|H]%map_lookup_filter_None; [congruence|]. specialize (H p Hp). cbn in H. by destruct (cond id p).
Qed.

Lemma selected_inv (ids : list Z) (t : table) id p : t !! id = Some p -> delete_where (fun i _ => existsb (Z.eqb i) ids) t !! id = None -> id ∈ ids.
Proof. intros Hp (i & Hi & ->%Z.eqb_eq)%(delete_where_inv _ _ _ _ Hp)%existsb_exists. by apply list_elem_of_In. Qed.

Lemma swept_justified locked s cutoff t id p :
  t !! id = Some p -> perform render text_leb (SweepRoot locked s cutoff) t !! id = None -> removable t id p (SweepRoot locked s cutoff).
Proof.
  intros Hp Hgone. pose proof Hgone as Hg. cbn [perform] in Hg. unfold gc_sweep in Hg.
  destruct (select text_leb locked _ _ 1 t) as [|root l] eqn:Hsel; [cbn in Hg; congruence|]. cbn in Hg.
  assert (root ∈ root :: l) as Hr by by left. rewrite <-Hsel in Hr. apply select_cond in Hr as (q & Hq & [He Hm]%andb_prop & Hl).
  set (chunks := select text_leb locked (same_server_chunk render (server s) (uuid_str root)) (fun _ => None) (gc_batch_limit s) t) in Hg.
  assert (Hchunk : delete_where (fun i _ => existsb (Z.eqb i) chunks) t !! id = None -> removable t id p (SweepRoot locked s cutoff)).
  { intros (p' & Hp' & Hs & Hlk)%(selected_inv _ _ _ _ Hp)%select_cond. assert (p' = p) as -> by congruence. by apply (removable_chunk _ _ _ _ _ _ root q). }
  destruct (existsb _ _) eqn:Hleft; [by apply Hchunk|]. destruct (decide (root = id)) as [->|Hne].
  - rewrite Hp in Hq. injection Hq as ->. apply removable_root; [done..|]. intros i r Hi. cbn [perform] in Hi. unfold gc_sweep in Hi.
    rewrite Hsel in Hi. cbn in Hi. fold chunks in Hi. rewrite Hleft in Hi. apply lookup_delete_Some in Hi as [_ Hi].
    destruct (same_server_chunk render (server s) (uuid_str id) r) eqn:Hc; [|done]. rewrite <-Hleft. symmetry. apply existsb_exists.
    exists (i, r). split; [by apply list_elem_of_In, elem_of_map_to_list|done].
  - rewrite lookup_delete_ne in Hg by done. by apply Hchunk.
Qed.

Lemma deleted_justified root srv t id p :
  t !! id = Some p -> perform render text_leb (DeleteJob root srv) t !! id = None -> removable t id p (DeleteJob root srv).
Proof.
  intros Hp. cbn [perform]. unfold delete_job_and_chunks. case_match; cbn [fst]; [congruence|].
  set (t1 := delete_where _ t). destruct (t1 !! id) as [p1|] eqn:H1.
  - intros Hg%(delete_where_inv _ _ _ _ H1). apply map_lookup_filter_Some in H1 as [H1 _].
    assert (p1 = p) as -> by congruence. by apply removable_job_chunk.
  - intros _. apply (delete_where_inv _ _ _ _ Hp) in H1. rewrite !andb_true_iff in H1. destruct H1 as [[->%Z.eqb_eq Hty] Hs].
    by apply removable_job.
Qed.

Lemma orphans_justified locked s t id p :
  t !! id = Some p -> perform render text_leb (SweepOrphans locked s) t !! id = None -> removable t id p (SweepOrphans locked s).
Proof.
  intros Hp. cbn [perform]. intros (q & Hq & Hc & Hl)%(selected_inv _ _ _ _ Hp)%select_cond. assert (q = p) as -> by congruence.
  rewrite !andb_true_iff in Hc. destruct Hc as [[Hty Hs] Ho]. by constructor.
Qed.

(** C11: A row disappears only when a job is deleted by name (the job and its chunks), when
    the collector removes an expired, marked root of which no chunk is left or a chunk
    of such a root, or when it removes an orphaned chunk; never by any other
    operation.  The collector never removes a row that another transaction has
    locked; the deletion by name skips no lock, it waits for them. *)
Theorem rows_removed_only_so op t id p : t !! id = Some p -> perform render text_leb op t !! id = None -> removable t id p op.
Proof.
  intros Hp. assert (Hstay : forall t', lasting t t' -> t' !! id = None -> removable t id p op).
  { intros t' Hl Hn. destruct (Hl id) as [q Hq]; [by exists p|]. congruence. }
  destruct op; [..|by apply deleted_justified| |by apply swept_justified|by apply orphans_justified]; apply Hstay; cbn [perform].
  - destruct (insert_rows _ t) eqn:Hi; [by eapply insert_rows_lasting|done].
  - apply update_all_lasting.
  - apply update_at_lasting.
  - apply update_at_lasting.
  - pose proof (update_all_lasting (refresh_row render s now lease) root_ids t). unfold bulk_refresh_leases. by destruct (update_all _ _ t).
  - apply update_all_lasting.
  - pose proof (update_at_lasting (finish_row render r srv now) id0 t). unfold finish_job. by destruct (update_at _ _ t) as [? []].
  - apply update_at_lasting.
  - apply reap_rows_lasting.
  - pose proof (update_at_lasting (persist_row render s pid pgid start_ticks now) id0 t). unfold _persist_process. by destruct (update_at _ _ t) as [? []].
  - unfold publish_rows. destruct (t !! id0) as [q|]; [|done]. destruct (publishable render srv q); [|done].
    destruct (insert_rows chunks t) as [t'|] eqn:Hi; [|done]. destruct (path_error q); [done|]. etrans; [by eapply insert_rows_lasting|apply update_at_lasting].
  - unfold gc_mark. match goal with |- context [update_all ?f ?ids t] => pose proof (update_all_lasting f ids t) end. by destruct (update_all _ _ t).
Qed.
(** ** A pass that reports no more work *)

Lemma mark_row_marked srv cutoff p j : mark_row render text_leb srv cutoff p = Some j -> unmarked (Some j) = false.
Proof.
  intros (Hc & j0 & -> & ->)%set_when_inv. unfold expired_root in Hc. rewrite !andb_true_iff in Hc. destruct Hc as [[[[_ Ht] _] _] _].
  assert (stateful j0 = true) as Hs.
  { unfold is_terminal in Ht. rewrite !orb_true_iff in Ht. by destruct Ht as [[H|H]|H]; apply has_status_inv in H as [? _]. }
  unfold unmarked. by changed_keys.
Qed.

Lemma mark_complete locked s cutoff t t1 roots id p :
  gc_mark render text_leb locked s cutoff t = (t1, roots) -> (Z.of_nat (length roots) < gc_batch_limit s) ->
  t1 !! id = Some p -> locked id = false -> expired_root render text_leb (server s) cutoff p = true -> unmarked p = false.
Proof.
  unfold gc_mark. set (cond p := expired_root render text_leb (server s) cutoff p && unmarked p).
  set (ids := select text_leb locked cond (finished_at render) (gc_batch_limit s) t).
  destruct (update_all_written (mark_row render text_leb (server s) cutoff) ids t) as [Hids Hrows]; [apply select_nodup| |].
  { intros i (q & Hq & Hc & _)%select_cond. destruct q as [j|]; [|done]. exists (Some j). unfold mark_row, set_when.
    fold (cond (Some j)). rewrite Hc. by eexists. }
  pose proof (update_all_other (mark_row render text_leb (server s) cutoff) id ids t) as Hother.
  destruct (update_all _ ids t) as [t' rows] eqn:Hall in *. cbn in *. intros [= <- <-] Hlim Hp Hl He.
  destruct (decide (id ∈ ids)) as [Hin|Hout].
  - rewrite <-Hids in Hin. apply list_elem_of_fmap in Hin as ([i j] & -> & Hj). destruct (Hrows i j Hj) as ((q & _ & Hm) & Ht').
    cbn in *. pose proof (eq_trans (eq_sym Hp) Ht') as [= ->]. by eapply mark_row_marked.
  - rewrite Hother in Hp by done. destruct (unmarked p) eqn:Hu; [|done]. exfalso.
    assert (candidate locked cond t id = true) as Hcand by (unfold candidate, cond; by rewrite Hp, He, Hu, Hl).
    pose proof (select_full text_leb _ _ (finished_at render) (gc_batch_limit s) _ _ Hcand Hout) as Hlen. fold ids in Hlen.
    rewrite length_fmap, <-(length_fmap fst), Hids in Hlim. lia.
Qed.

Lemma sweep_complete locked s cutoff t t' id p :
  gc_sweep render text_leb locked s cutoff t = (t', None) ->
  t' = t /\ (t !! id = Some p -> locked id = false -> expired_root render text_leb (server s) cutoff p = true -> marked p = false).
Proof.
  unfold gc_sweep. destruct (select _ _ _ _ 1 t) as [|root l] eqn:Hsel; [|done]. intros [= <-]. split; [done|]. intros Hp Hl He.
  destruct (marked p) eqn:Hm; [|done]. exfalso.
  assert (candidate locked (fun p => expired_root render text_leb (server s) cutoff p && marked p) t id = true) as Hc
    by (unfold candidate; by rewrite Hp, He, Hm, Hl).
  pose proof (select_full text_leb _ _ (fun _ => None) 1 _ _ Hc) as Hlen. rewrite Hsel in Hlen. by discriminate (Hlen (not_elem_of_nil _)).
Qed.

Lemma chunk_not_command p : is_type render p JOB_TYPE_OUTPUT_CHUNK = true -> is_type render p JOB_TYPE_COMMAND = false.
Proof. unfold is_type. destruct (stext render _) as [s|]; [|done]. cbn [is_text]. by intros ->%str_eqb_eq. Qed.

Lemma orphan_deleted ids t p :
  (forall i q, t !! i = Some q -> i ∈ ids -> is_type render q JOB_TYPE_COMMAND = false) ->
  orphan render (delete_where (fun i _ => existsb (Z.eqb i) ids) t) p = orphan render t p.
Proof.
  intros Hids. unfold orphan. destruct (stext render _) as [thread|]; [|done]. destruct (GC_THREAD_UUID_PATTERN thread); [|done].
  destruct (uuid_of_text thread) as [root|]; [|done]. unfold delete_where. destruct (t !! root) as [r|] eqn:Hr.
  - destruct (existsb (Z.eqb root) ids) eqn:He.
    + rewrite map_lookup_filter_None_2; [|right; intros q Hq; cbn; rewrite He; done].
      apply existsb_exists in He as (i & Hi & ->%Z.eqb_eq). by rewrite (Hids i r Hr) by by apply list_elem_of_In.
    + by rewrite (map_lookup_filter_Some_2 _ _ _ r).
  - rewrite map_lookup_filter_None_2; [done|by left].
Qed.

Lemma orphans_complete locked s t t' n id p :
  gc_orphans render text_leb locked s t = (t', n) -> n < gc_batch_limit s ->
  t' !! id = Some p -> locked id = false -> is_type render p JOB_TYPE_OUTPUT_CHUNK = true -> server_match render p (server s) = true ->
  orphan render t' p = false.
Proof.
  unfold gc_orphans. set (cond p := is_type render p JOB_TYPE_OUTPUT_CHUNK && server_match render p (server s) && orphan render t p).
  set (ids := select text_leb locked cond (fun _ => None) (gc_batch_limit s) t). intros [= <- <-] Hn Hp Hl Hty Hs.
  rewrite orphan_deleted.
  - apply map_lookup_filter_Some in Hp as [Hp Hout]. cbn in Hout. destruct (orphan render t p) eqn:Ho; [|done]. exfalso.
    assert (candidate locked cond t id = true) as Hc by (unfold candidate, cond; by rewrite Hp, Hty, Hs, Ho, Hl).
    pose proof (select_full text_leb _ _ (fun _ => None) (gc_batch_limit s) _ _ Hc) as Hlen. fold ids in Hlen.
    rewrite Hlen in Hn; [lia|]. intros Hin%list_elem_of_In. apply not_true_iff_false in Hout. apply Hout, existsb_exists. exists id. split; [done|lia].
  - intros i q Hq (q' & Hq' & Hc & _)%select_cond. assert (q' = q) as -> by congruence. unfold cond in Hc.
    rewrite !andb_true_iff in Hc. by apply chunk_not_command, Hc.
Qed.

(** C12: A pass of the collector that reports no saturated phase leaves nothing to collect
    among the rows no other transaction has locked: no expired root whose collection
    could begin or go on, and no orphaned chunk of its server. *)
Theorem collection_complete locked s cutoff t t' roots chunks orphans id p :
  0 < gc_batch_limit s -> collect_transport render text_leb locked s cutoff t = (t', (roots, chunks, orphans, false)) ->
  t' !! id = Some p -> locked id = false ->
  (expired_root render text_leb (server s) cutoff p = true -> unmarked p = false /\ marked p = false)
  /\ (is_type render p JOB_TYPE_OUTPUT_CHUNK = true -> server_match render p (server s) = true -> orphan render t' p = false).
Proof.
  unfold collect_transport. intros Hlim. destruct (gc_mark _ _ _ _ _ t) as [t1 roots'] eqn:Hmark.
  destruct (gc_sweep _ _ _ _ _ t1) as [t2 swept] eqn:Hsweep. destruct (gc_orphans _ _ _ _ t2) as [t3 n] eqn:Horph.
  destruct swept as [[[root n0] gone]|]; intros [= <- <- <- <- Hb]; unfold _gc_phase_bound_hit in Hb;
    (destruct (Z.leb_spec (gc_batch_limit s) 0); [lia|]); [by rewrite orb_true_r in Hb|].
  destruct (_ || _) eqn:Hor in Hb; [done|]. rewrite !orb_false_iff in Hor. destruct Hor as [[Hm _] Hn]. intros Hp Hl.
  assert (Hp2 : t2 !! id = Some p).
  { unfold gc_orphans in Horph. injection Horph as <- _. by apply map_lookup_filter_Some in Hp as [Hp _]. }
  destruct (sweep_complete _ _ _ _ _ id p Hsweep) as [-> Hs]. split.
  - intros He. split; [|by apply Hs]. eapply mark_complete; [exact Hmark|lia|exact Hp2|done..].
  - intros Hty Hsrv. eapply orphans_complete; [exact Horph|lia|exact Hp|done..].
Qed.
End collection.
