(* ===== verification/JobQueueExamples.v ===== *)
(** The theorems on the queue at a table of two jobs, with texts compared by code
    points. *)

From S2P Require Import Prelude PyStr PyNum Json JsonFacts Uuid Protocol WorkerSettings JobQueue JobQueueFacts JobQueueTheorems JobQueueServers JobQueueCollection.
From stdpp Require Import gmap sorting.

#[local] Open Scope Z_scope.

(** *** The order of code points *)

Fixpoint code_leb (a b : pystr) : bool :=
  match a, b with
  | [], _ => true
  | _, [] => false
  | x :: a, y :: b => (x <? y) || ((x =? y) && code_leb a b)
  end.

Lemma code_leb_total a b : code_leb a b = true \/ code_leb b a = true.
Proof.
  revert b. induction a as [|x a IH]; intros [|y b]; cbn; auto.
  destruct (Z.ltb_spec x y), (Z.ltb_spec y x), (Z.eqb_spec x y), (Z.eqb_spec y x); cbn; auto; lia.
Qed.

Lemma code_leb_trans a b c : code_leb a b = true -> code_leb b c = true -> code_leb a c = true.
Proof.
  revert b c. induction a as [|x a IH]; intros [|y b] [|z c]; cbn; try done.
  rewrite !orb_true_iff, !andb_true_iff. intros [H1|[H1 H1']] [H2|[H2 H2']]; [left; lia..|].
  right. split; [lia|by eapply IH].
Qed.

Lemma code_leb_digits a b : 48 <= a <= 57 -> 48 <= b <= 57 -> code_leb [a] [b] = (a <=? b).
Proof. intros _ _. cbn. lia. Qed.

(** *** The table *)

Definition no_text (j : json) : pystr := [].
Definition unlocked (id : Z) : bool := false.
Definition here : Settings :=
  default_settings (py "worker") (py "here") (py "first") (float_of_int 1) (float_of_int 1) (float_of_int 5).
Definition at_noon : pystr := py "2026-01-02T12:00:00.000000Z".
Definition next_noon : pystr := py "2026-01-03T12:00:00.000000Z".

Definition a_job (server created : pystr) : json :=
  JObj [(py "v", JInt 4); (py "type", JStr JOB_TYPE_COMMAND); (py "server", JStr server);
        (py "state", JObj [(py "status", JStr STATUS_PENDING); (py "created_at", JStr created)])].

Definition older : json := a_job (py "here") (py "2026-01-01T00:00:00.000000Z").
Definition newer : json := a_job (py "here") (py "2026-01-02T00:00:00.000000Z").
Definition elsewhere : json := a_job (py "there") (py "2026-01-01T00:00:00.000000Z").
Definition two_jobs : table := <[1 := Some newer]> (<[2 := Some older]> (<[3 := Some elsewhere]> ∅)).

Definition succeeded : JobResult := mkResult STATUS_SUCCEEDED 0 (py "out") [] None.

(** The older job runs, is cancelled while it does, and finishes. *)
Definition claim_one : operation := ClaimJobs unlocked here 1 at_noon next_noon.
Definition an_execution : list operation :=
  [claim_one; PersistProcess 2 here 10 10 5 at_noon; RefreshLeases here [2] at_noon next_noon;
   CancelRunning 2 (py "here") at_noon; FinishJob 2 succeeded (py "here") at_noon;
   ClaimJobs unlocked here 1 at_noon next_noon].

Ltac by_computing := vm_compute; repeat split; try eexists; reflexivity.

Lemma lifecycle_refines_witness : exists p', perform_all no_text code_leb an_execution two_jobs !! 2 = Some p'
  /\ rtc job_step (life_of no_text (Some older)) (life_of no_text p').
Proof.
  destruct (lifecycle_refines no_text code_leb an_execution two_jobs 2 (Some older)) as (p' & Hp' & Hr & _); [by_computing..|].
  exists p'. exact (conj Hp' Hr).
Defined.

Definition running_table : table := perform_all no_text code_leb [claim_one] two_jobs.

Lemma cancellation_wins_witness :
  exists p', perform_all no_text code_leb [FinishJob 2 succeeded (py "here") at_noon] (update_at (cancel_running no_text (py "here") at_noon) 2 running_table).1 !! 2 = Some p'
    /\ (status_of no_text p' = Some STATUS_RUNNING /\ cancel_requested p' = true
        \/ status_of no_text p' = Some STATUS_CANCELLED \/ status_of no_text p' = Some STATUS_FAILED).
Proof.
  apply (cancellation_wins no_text code_leb [FinishJob 2 succeeded (py "here") at_noon] running_table 2 (py "here") at_noon
           (default JNull (update_at (cancel_running no_text (py "here") at_noon) 2 running_table).2)); by_computing.
Defined.

Lemma executed_once_witness : (claims_all no_text code_leb 2 an_execution two_jobs <= 1)%nat.
Proof. apply (executed_once no_text code_leb an_execution two_jobs 2 (Some older)); by_computing. Defined.

Lemma request_immutable_witness :
  exists p', perform_all no_text code_leb an_execution two_jobs !! 2 = Some p' /\ sget (py "server") p' = Some (JStr (py "here")).
Proof.
  apply (request_immutable no_text code_leb an_execution two_jobs 2 (Some older)); [by_computing..|].
  intros Hin. cbn in Hin. by repeat destruct Hin as [Hin|Hin].
Defined.

Lemma server_isolated_witness : perform no_text code_leb claim_one two_jobs !! 3 = Some (Some elsewhere).
Proof. apply (server_isolated no_text code_leb claim_one two_jobs (py "here")); by_computing. Defined.

(** The worker claims one of its two jobs: the older. *)
Lemma claims_oldest_witness :
  let '(t', rows) := claim_jobs no_text code_leb unlocked here 1 at_noon next_noon two_jobs in
  length rows = 1%nat /\ before code_leb (created_at no_text (Some older), 2) (created_at no_text (Some newer), 1) = true.
Proof.
  destruct (claim_jobs no_text code_leb unlocked here 1 at_noon next_noon two_jobs) as [t' rows] eqn:Hc.
  destruct (claims_oldest no_text code_leb unlocked here 1 at_noon next_noon two_jobs t' rows code_leb_total code_leb_trans Hc) as [_ Hleft].
  assert (Hids : fst <$> rows = [2]) by (apply (f_equal (fun r => fst <$> r.2)) in Hc; cbn [snd] in Hc; rewrite <-Hc; vm_compute; reflexivity).
  destruct (Hleft 1 (Some newer)) as [Hlen Hbefore]; [by_computing..|rewrite Hids; intros H%list_elem_of_singleton; discriminate H|].
  split; [exact Hlen|]. apply Hbefore; [rewrite Hids; by apply list_elem_of_singleton|by_computing].
Defined.

Lemma version_policy_refined_witness :
  let old := Some (JObj [(py "v", JInt 3)]) in
  current_version no_text old = false /\ retired no_text code_leb old = true.
Proof.
  destruct (version_policy_refined no_text code_leb code_leb_digits (Some (JObj [(py "v", JInt 3)])) 3) as (Hc & Hr & Hn); [by_computing|].
  split; [|apply Hr; reflexivity]. destruct (current_version _ _) eqn:H; [|reflexivity]. assert (Hd := proj1 Hc eq_refl). discriminate Hd.
Defined.

(** A job that ended the day before, its collection begun, and a chunk of it. *)
Definition ended : json :=
  JObj [(py "type", JStr JOB_TYPE_COMMAND); (py "server", JStr (py "here"));
        (py "state", JObj [(py "status", JStr STATUS_SUCCEEDED); (py "finished_at", JStr at_noon); (py "gc", JBool true)])].
Definition its_chunk : json :=
  JObj [(py "type", JStr JOB_TYPE_OUTPUT_CHUNK); (py "server", JStr (py "here")); (py "thread", JStr (uuid_str 7))].
Definition ended_table : table := <[7 := Some ended]> (<[8 := Some its_chunk]> two_jobs).

Lemma rows_removed_only_so_witness : removable no_text code_leb ended_table 7 (Some ended) (SweepRoot unlocked here next_noon).
Proof. apply (rows_removed_only_so no_text code_leb (SweepRoot unlocked here next_noon) ended_table 7 (Some ended)); by_computing. Defined.

(** The collector has nothing to do with the two jobs. *)
Lemma collection_complete_witness : exists p, two_jobs !! 2 = Some p
  /\ (expired_root no_text code_leb (py "here") next_noon p = true -> unmarked p = false /\ marked p = false).
Proof.
  exists (Some older). split; [by_computing|].
  apply (collection_complete no_text code_leb unlocked here next_noon two_jobs two_jobs [] 0 0 2 (Some older)); by_computing.
Defined.
