(* ===== verification/WorkerWorld.v ===== *)
(** The worker ([Supervisor] of [src/lubko/worker.py]): the jobs it tracks, what it
    remembers, and the questions its methods ask.

    A method is a program that asks the outside world and goes on with the answer
    ([Programs]).  A look at /proc is a question of its own each time a source line
    reads it; a statement on [lubko.jobs] is a question answered by what it returned
    or raised ([JobQueue] says what the statements do); a lane of the spawn pool is
    reached through the operations of its future ([WorkerStarts]).  The jobs are
    mutable objects shared by the registry and the loops over its snapshots: they
    live in a store by identifier, which outlives their registration. *)

From S2P Require Import Prelude PyStr PyNum Json ProcFs Protocol Output Capture WorkerSettings JobQueue Programs.
From stdpp Require Import gmap.

#[local] Open Scope Z_scope.
#[local] Arguments py : simpl never.

Definition SIGTERM : Z := 15.
Definition SIGKILL : Z := 9.

(** ** Gated starts *)

(** [Job]: what a lane is asked to start. *)
Record JobSpec := mkSpec { sp_id : Z; sp_cwd : pystr; sp_process : list pystr }.

(** [_SpawnResult] and [GatedSpawn], whose fields are the same.  [g_proc] is the
    [Popen] object, [g_pid] its pid. *)
Record GatedSpawn := mkGated {
  g_proc : Z;
  g_pid : Z;
  g_pgid : Z;
  g_stdout : OutputStream;
  g_stderr : OutputStream;
  g_gate_fd : Z;
  g_stdout_read_fd : Z;
  g_stderr_read_fd : Z;
}.

(** ** Jobs *)

(** The reasons to stop a job. *)
Inductive stop_reason := CANCEL | SHUTDOWN | LEASE | ROW_LOST | PERSIST | QUARANTINE | SPOOL.

#[export] Instance stop_reason_eq_dec : EqDecision stop_reason.
Proof. solve_decision. Defined.

(** [ActiveJob].  [capture] holds the fields of its output: id, version, streams and
    [spool_evicted]. *)
Record job := mkActive {
  capture : ActiveJob;
  proc : Z;
  pid : Z;
  pgid : Z;
  started_mono : pyfloat;
  claimed_at : pyfloat;
  completed : bool;
  returncode : option Z;
  cancel_requested : bool;
  term_sent : bool;
  kill_sent : bool;
  stop_started : option pyfloat;
  stop_reason_of : option stop_reason;
  cancellation_note : option pystr;
  lease_evicted : bool;
  row_lost : bool;
  finalized : bool;
  quarantined : bool;
  quarantine_pending : bool;
  quarantine_retries : Z;
  quarantine_next_retry_at : pyfloat;
  last_heartbeat_at : pyfloat;
  start_ticks : Z;
  owned_members : gmap Z Z;
}.

(** Assignments to the fields of a job. *)
Definition set_capture (v : ActiveJob) (j : job) : job :=
    mkActive v (proc j) (pid j) (pgid j) (started_mono j) (claimed_at j) (completed j) (returncode j) (cancel_requested j) (term_sent j) (kill_sent j)
    (stop_started j) (stop_reason_of j) (cancellation_note j) (lease_evicted j) (row_lost j) (finalized j) (quarantined j) (quarantine_pending j)
    (quarantine_retries j) (quarantine_next_retry_at j) (last_heartbeat_at j) (start_ticks j) (owned_members j).
Definition set_completed (v : bool) (j : job) : job :=
    mkActive (capture j) (proc j) (pid j) (pgid j) (started_mono j) (claimed_at j) v (returncode j) (cancel_requested j) (term_sent j) (kill_sent j)
    (stop_started j) (stop_reason_of j) (cancellation_note j) (lease_evicted j) (row_lost j) (finalized j) (quarantined j) (quarantine_pending j)
    (quarantine_retries j) (quarantine_next_retry_at j) (last_heartbeat_at j) (start_ticks j) (owned_members j).
Definition set_returncode (v : option Z) (j : job) : job :=
    mkActive (capture j) (proc j) (pid j) (pgid j) (started_mono j) (claimed_at j) (completed j) v (cancel_requested j) (term_sent j) (kill_sent j)
    (stop_started j) (stop_reason_of j) (cancellation_note j) (lease_evicted j) (row_lost j) (finalized j) (quarantined j) (quarantine_pending j)
    (quarantine_retries j) (quarantine_next_retry_at j) (last_heartbeat_at j) (start_ticks j) (owned_members j).
Definition set_cancel_requested (v : bool) (j : job) : job :=
    mkActive (capture j) (proc j) (pid j) (pgid j) (started_mono j) (claimed_at j) (completed j) (returncode j) v (term_sent j) (kill_sent j)
    (stop_started j) (stop_reason_of j) (cancellation_note j) (lease_evicted j) (row_lost j) (finalized j) (quarantined j) (quarantine_pending j)
    (quarantine_retries j) (quarantine_next_retry_at j) (last_heartbeat_at j) (start_ticks j) (owned_members j).
Definition set_term_sent (v : bool) (j : job) : job :=
    mkActive (capture j) (proc j) (pid j) (pgid j) (started_mono j) (claimed_at j) (completed j) (returncode j) (cancel_requested j) v (kill_sent j)
    (stop_started j) (stop_reason_of j) (cancellation_note j) (lease_evicted j) (row_lost j) (finalized j) (quarantined j) (quarantine_pending j)
    (quarantine_retries j) (quarantine_next_retry_at j) (last_heartbeat_at j) (start_ticks j) (owned_members j).
Definition set_kill_sent (v : bool) (j : job) : job :=
    mkActive (capture j) (proc j) (pid j) (pgid j) (started_mono j) (claimed_at j) (completed j) (returncode j) (cancel_requested j) (term_sent j) v
    (stop_started j) (stop_reason_of j) (cancellation_note j) (lease_evicted j) (row_lost j) (finalized j) (quarantined j) (quarantine_pending j)
    (quarantine_retries j) (quarantine_next_retry_at j) (last_heartbeat_at j) (start_ticks j) (owned_members j).
Definition set_stop_started (v : option pyfloat) (j : job) : job :=
    mkActive (capture j) (proc j) (pid j) (pgid j) (started_mono j) (claimed_at j) (completed j) (returncode j) (cancel_requested j) (term_sent j)
    (kill_sent j) v (stop_reason_of j) (cancellation_note j) (lease_evicted j) (row_lost j) (finalized j) (quarantined j) (quarantine_pending j)
    (quarantine_retries j) (quarantine_next_retry_at j) (last_heartbeat_at j) (start_ticks j) (owned_members j).
Definition set_stop_reason (v : option stop_reason) (j : job) : job :=
    mkActive (capture j) (proc j) (pid j) (pgid j) (started_mono j) (claimed_at j) (completed j) (returncode j) (cancel_requested j) (term_sent j)
    (kill_sent j) (stop_started j) v (cancellation_note j) (lease_evicted j) (row_lost j) (finalized j) (quarantined j) (quarantine_pending j)
    (quarantine_retries j) (quarantine_next_retry_at j) (last_heartbeat_at j) (start_ticks j) (owned_members j).
Definition set_cancellation_note (v : option pystr) (j : job) : job :=
    mkActive (capture j) (proc j) (pid j) (pgid j) (started_mono j) (claimed_at j) (completed j) (returncode j) (cancel_requested j) (term_sent j)
    (kill_sent j) (stop_started j) (stop_reason_of j) v (lease_evicted j) (row_lost j) (finalized j) (quarantined j) (quarantine_pending j)
    (quarantine_retries j) (quarantine_next_retry_at j) (last_heartbeat_at j) (start_ticks j) (owned_members j).
Definition set_lease_evicted (v : bool) (j : job) : job :=
    mkActive (capture j) (proc j) (pid j) (pgid j) (started_mono j) (claimed_at j) (completed j) (returncode j) (cancel_requested j) (term_sent j)
    (kill_sent j) (stop_started j) (stop_reason_of j) (cancellation_note j) v (row_lost j) (finalized j) (quarantined j) (quarantine_pending j)
    (quarantine_retries j) (quarantine_next_retry_at j) (last_heartbeat_at j) (start_ticks j) (owned_members j).
Definition set_row_lost (v : bool) (j : job) : job :=
    mkActive (capture j) (proc j) (pid j) (pgid j) (started_mono j) (claimed_at j) (completed j) (returncode j) (cancel_requested j) (term_sent j)
    (kill_sent j) (stop_started j) (stop_reason_of j) (cancellation_note j) (lease_evicted j) v (finalized j) (quarantined j) (quarantine_pending j)
    (quarantine_retries j) (quarantine_next_retry_at j) (last_heartbeat_at j) (start_ticks j) (owned_members j).
Definition set_finalized (v : bool) (j : job) : job :=
    mkActive (capture j) (proc j) (pid j) (pgid j) (started_mono j) (claimed_at j) (completed j) (returncode j) (cancel_requested j) (term_sent j)
    (kill_sent j) (stop_started j) (stop_reason_of j) (cancellation_note j) (lease_evicted j) (row_lost j) v (quarantined j) (quarantine_pending j)
    (quarantine_retries j) (quarantine_next_retry_at j) (last_heartbeat_at j) (start_ticks j) (owned_members j).
Definition set_quarantined (v : bool) (j : job) : job :=
    mkActive (capture j) (proc j) (pid j) (pgid j) (started_mono j) (claimed_at j) (completed j) (returncode j) (cancel_requested j) (term_sent j)
    (kill_sent j) (stop_started j) (stop_reason_of j) (cancellation_note j) (lease_evicted j) (row_lost j) (finalized j) v (quarantine_pending j)
    (quarantine_retries j) (quarantine_next_retry_at j) (last_heartbeat_at j) (start_ticks j) (owned_members j).
Definition set_quarantine_pending (v : bool) (j : job) : job :=
    mkActive (capture j) (proc j) (pid j) (pgid j) (started_mono j) (claimed_at j) (completed j) (returncode j) (cancel_requested j) (term_sent j)
    (kill_sent j) (stop_started j) (stop_reason_of j) (cancellation_note j) (lease_evicted j) (row_lost j) (finalized j) (quarantined j) v
    (quarantine_retries j) (quarantine_next_retry_at j) (last_heartbeat_at j) (start_ticks j) (owned_members j).
Definition set_quarantine_retries (v : Z) (j : job) : job :=
    mkActive (capture j) (proc j) (pid j) (pgid j) (started_mono j) (claimed_at j) (completed j) (returncode j) (cancel_requested j) (term_sent j)
    (kill_sent j) (stop_started j) (stop_reason_of j) (cancellation_note j) (lease_evicted j) (row_lost j) (finalized j) (quarantined j)
    (quarantine_pending j) v (quarantine_next_retry_at j) (last_heartbeat_at j) (start_ticks j) (owned_members j).
Definition set_quarantine_next_retry_at (v : pyfloat) (j : job) : job :=
    mkActive (capture j) (proc j) (pid j) (pgid j) (started_mono j) (claimed_at j) (completed j) (returncode j) (cancel_requested j) (term_sent j)
    (kill_sent j) (stop_started j) (stop_reason_of j) (cancellation_note j) (lease_evicted j) (row_lost j) (finalized j) (quarantined j)
    (quarantine_pending j) (quarantine_retries j) v (last_heartbeat_at j) (start_ticks j) (owned_members j).
Definition set_last_heartbeat_at (v : pyfloat) (j : job) : job :=
    mkActive (capture j) (proc j) (pid j) (pgid j) (started_mono j) (claimed_at j) (completed j) (returncode j) (cancel_requested j) (term_sent j)
    (kill_sent j) (stop_started j) (stop_reason_of j) (cancellation_note j) (lease_evicted j) (row_lost j) (finalized j) (quarantined j)
    (quarantine_pending j) (quarantine_retries j) (quarantine_next_retry_at j) v (start_ticks j) (owned_members j).
Definition set_owned_members (v : gmap Z Z) (j : job) : job :=
    mkActive (capture j) (proc j) (pid j) (pgid j) (started_mono j) (claimed_at j) (completed j) (returncode j) (cancel_requested j) (term_sent j)
    (kill_sent j) (stop_started j) (stop_reason_of j) (cancellation_note j) (lease_evicted j) (row_lost j) (finalized j) (quarantined j)
    (quarantine_pending j) (quarantine_retries j) (quarantine_next_retry_at j) (last_heartbeat_at j) (start_ticks j) v.

Definition spool_evicted (j : job) : bool := job_spool_evicted (capture j).
Definition set_spool_evicted (j : job) : job := set_capture (evict (capture j)) j.
Definition stream_of (j : job) (n : stream_name) : OutputStream := job_stream (capture j) n.
Definition put_stream (n : stream_name) (s : OutputStream) (j : job) : job := set_capture (set_stream (capture j) n s) j.

(** ** What the worker remembers *)

Record _RetryTerminalization := mkRetry { retries : Z; next_retry_at : pyfloat }.

(** Its future is reached by the identifier of the job. *)
Record _StartAttempt := mkAttempt {
  at_job_spec : JobSpec;
  at_claim_mono : pyfloat;
  at_version : Z;
  at_submitted_at : pyfloat;
}.

(** Dictionaries by identifier, in the order of insertion. *)
Definition od_get {A} (k : Z) (d : list (Z * A)) : option A := snd <$> List.find (fun kv => kv.1 =? k) d.
Definition od_del {A} (k : Z) (d : list (Z * A)) : list (Z * A) := List.filter (fun kv => negb (kv.1 =? k)) d.
Fixpoint od_set {A} (k : Z) (a : A) (d : list (Z * A)) : list (Z * A) :=
  match d with
  | [] => [(k, a)]
  | (k', a') :: d => if k' =? k then (k, a) :: d else (k', a') :: od_set k a d
  end.

(** [active] is the order of the registry, whose values are in [objects]; [conn]
    whether there is a connection; [drawn] the identifiers drawn so far. *)
Record worker := mkWorker {
  objects : gmap Z job;
  active : list Z;
  _retry_terminations : list (Z * _RetryTerminalization);
  conn : bool;
  _stopping : bool;
  _next_recovery_at : pyfloat;
  _next_lease_refresh_at : pyfloat;
  _next_cancel_scan_at : pyfloat;
  _next_reconnect_at : pyfloat;
  _next_reaper_at : pyfloat;
  _next_claim_scan_at : pyfloat;
  _next_health_publish_at : pyfloat;
  _pending_starts : list (Z * _StartAttempt);
  drawn : nat;
}.

Definition set_objects (v : gmap Z job) (w : worker) : worker :=
    mkWorker v (active w) (_retry_terminations w) (conn w) (_stopping w) (_next_recovery_at w) (_next_lease_refresh_at w) (_next_cancel_scan_at w)
    (_next_reconnect_at w) (_next_reaper_at w) (_next_claim_scan_at w) (_next_health_publish_at w) (_pending_starts w) (drawn w).
Definition set_active (v : list Z) (w : worker) : worker :=
    mkWorker (objects w) v (_retry_terminations w) (conn w) (_stopping w) (_next_recovery_at w) (_next_lease_refresh_at w) (_next_cancel_scan_at w)
    (_next_reconnect_at w) (_next_reaper_at w) (_next_claim_scan_at w) (_next_health_publish_at w) (_pending_starts w) (drawn w).
Definition set_retry_terminations (v : list (Z * _RetryTerminalization)) (w : worker) : worker :=
    mkWorker (objects w) (active w) v (conn w) (_stopping w) (_next_recovery_at w) (_next_lease_refresh_at w) (_next_cancel_scan_at w)
    (_next_reconnect_at w) (_next_reaper_at w) (_next_claim_scan_at w) (_next_health_publish_at w) (_pending_starts w) (drawn w).
Definition set_conn (v : bool) (w : worker) : worker :=
    mkWorker (objects w) (active w) (_retry_terminations w) v (_stopping w) (_next_recovery_at w) (_next_lease_refresh_at w) (_next_cancel_scan_at w)
    (_next_reconnect_at w) (_next_reaper_at w) (_next_claim_scan_at w) (_next_health_publish_at w) (_pending_starts w) (drawn w).
Definition set_stopping (v : bool) (w : worker) : worker :=
    mkWorker (objects w) (active w) (_retry_terminations w) (conn w) v (_next_recovery_at w) (_next_lease_refresh_at w) (_next_cancel_scan_at w)
    (_next_reconnect_at w) (_next_reaper_at w) (_next_claim_scan_at w) (_next_health_publish_at w) (_pending_starts w) (drawn w).
Definition set_next_recovery_at (v : pyfloat) (w : worker) : worker :=
    mkWorker (objects w) (active w) (_retry_terminations w) (conn w) (_stopping w) v (_next_lease_refresh_at w) (_next_cancel_scan_at w)
    (_next_reconnect_at w) (_next_reaper_at w) (_next_claim_scan_at w) (_next_health_publish_at w) (_pending_starts w) (drawn w).
Definition set_next_lease_refresh_at (v : pyfloat) (w : worker) : worker :=
    mkWorker (objects w) (active w) (_retry_terminations w) (conn w) (_stopping w) (_next_recovery_at w) v (_next_cancel_scan_at w)
    (_next_reconnect_at w) (_next_reaper_at w) (_next_claim_scan_at w) (_next_health_publish_at w) (_pending_starts w) (drawn w).
Definition set_next_cancel_scan_at (v : pyfloat) (w : worker) : worker :=
    mkWorker (objects w) (active w) (_retry_terminations w) (conn w) (_stopping w) (_next_recovery_at w) (_next_lease_refresh_at w) v
    (_next_reconnect_at w) (_next_reaper_at w) (_next_claim_scan_at w) (_next_health_publish_at w) (_pending_starts w) (drawn w).
Definition set_next_reconnect_at (v : pyfloat) (w : worker) : worker :=
    mkWorker (objects w) (active w) (_retry_terminations w) (conn w) (_stopping w) (_next_recovery_at w) (_next_lease_refresh_at w)
    (_next_cancel_scan_at w) v (_next_reaper_at w) (_next_claim_scan_at w) (_next_health_publish_at w) (_pending_starts w) (drawn w).
Definition set_next_reaper_at (v : pyfloat) (w : worker) : worker :=
    mkWorker (objects w) (active w) (_retry_terminations w) (conn w) (_stopping w) (_next_recovery_at w) (_next_lease_refresh_at w)
    (_next_cancel_scan_at w) (_next_reconnect_at w) v (_next_claim_scan_at w) (_next_health_publish_at w) (_pending_starts w) (drawn w).
Definition set_next_claim_scan_at (v : pyfloat) (w : worker) : worker :=
    mkWorker (objects w) (active w) (_retry_terminations w) (conn w) (_stopping w) (_next_recovery_at w) (_next_lease_refresh_at w)
    (_next_cancel_scan_at w) (_next_reconnect_at w) (_next_reaper_at w) v (_next_health_publish_at w) (_pending_starts w) (drawn w).
Definition set_next_health_publish_at (v : pyfloat) (w : worker) : worker :=
    mkWorker (objects w) (active w) (_retry_terminations w) (conn w) (_stopping w) (_next_recovery_at w) (_next_lease_refresh_at w)
    (_next_cancel_scan_at w) (_next_reconnect_at w) (_next_reaper_at w) (_next_claim_scan_at w) v (_pending_starts w) (drawn w).
Definition set_pending_starts (v : list (Z * _StartAttempt)) (w : worker) : worker :=
    mkWorker (objects w) (active w) (_retry_terminations w) (conn w) (_stopping w) (_next_recovery_at w) (_next_lease_refresh_at w)
    (_next_cancel_scan_at w) (_next_reconnect_at w) (_next_reaper_at w) (_next_claim_scan_at w) (_next_health_publish_at w) v (drawn w).
Definition set_drawn (v : nat) (w : worker) : worker :=
    mkWorker (objects w) (active w) (_retry_terminations w) (conn w) (_stopping w) (_next_recovery_at w) (_next_lease_refresh_at w)
    (_next_cancel_scan_at w) (_next_reconnect_at w) (_next_reaper_at w) (_next_claim_scan_at w) (_next_health_publish_at w) (_pending_starts w) v.

(** [Supervisor.__init__] *)
Definition new_worker : worker :=
  mkWorker ∅ [] [] false false zero zero zero zero zero zero zero [] 0.

Definition register (k : Z) (w : worker) : worker :=
  if bool_decide (k ∈ active w) then w else set_active (active w ++ [k]) w.
Definition unregister (k : Z) (w : worker) : worker := set_active (List.filter (fun k' => negb (k' =? k)) (active w)) w.
Definition put_job (k : Z) (j : job) (w : worker) : worker := set_objects (<[k := j]> (objects w)) w.

(** ** Questions to the world *)

Inductive call : Type -> Type :=
  | Monotonic : call pyfloat
  | Wall : call pyfloat
  | Sleep (seconds : pyfloat) : call unit
  (** /proc, as one reading of it sees it *)
  | Proc : call procfs
  | OpenPidfd (pid : Z) : call (res Z)
  | SendSignal (fd sig : Z) : call (res unit)
  (** [with suppress(OSError): os.close(fd)] *)
  | Close (fd : Z) : call unit
  (** a [Popen] object: [poll()], and a wait whose failure is suppressed *)
  | Poll (proc : Z) : call (option Z)
  | Wait (proc : Z) (timeout : pyfloat) : call unit
  | KillGroup (pgid sig : Z) : call (res unit)
  | WriteGate (fd : Z) : call (res unit)
  | IsDirectory (path : pystr) : call bool
  (** what a lane asks to start a job: a capture buffer, a pipe, the wrapper behind its
      gate (the [Popen] object and its pid), a read end without blocking, a group *)
  | NewBuffer : call (res OutputStream)
  | MakePipe : call (res (Z * Z))
  | Popen (job : JobSpec) (gate_r stdout_w stderr_w : Z) : call (res (Z * Z))
  | SetNonblocking (fd : Z) : call (res unit)
  | GetPgid (pid : Z) : call (res Z)
  (** capture pipes: which are readable, whether one is bad, what a read of one
      gives, and which buffers can be extended by what *)
  | Readable (fds : list Z) : call (res (list Z))
  | BadFd (fd : Z) : call bool
  | ReadPipe (fd : option Z) : call read_outcome
  | Memory : call (pybytes -> pybytes -> bool)
  (** the spawn pool and its futures, by job *)
  | Submit (job : JobSpec) : call bool
  | FutureDone (id : Z) : call bool
  | FutureResult (id : Z) : call (res GatedSpawn)
  | InstallCallback (id : Z) : call (option (res GatedSpawn))
  | CancelFuture (id : Z) : call unit
  | ShutDownPool : call unit
  (** the connection, and the exception last caught: what it is to psycopg, whether
      the connection is broken or closed, and its text *)
  | Connect : call (res unit)
  | VerifyTable : call (res unit)
  | CloseConnection : call unit
  | InstallDeadline (deadline : pyfloat) : call (res unit)
  | Caught : call (db_error * bool)
  | CaughtText : call pystr
  (** [repr(text)] *)
  | Repr (text : pystr) : call pystr
  (** statements *)
  | RecoverStale : call (res (list Z))
  | RefreshLeases (ids : list Z) : call (res (list Z))
  | DiscoverCancellations : call (res (list Z))
  | ClaimJobs (limit : Z) : call (res (list (Z * pystr)))
  | ReapUnsupported (limit : Z) : call (res (list Z))
  | PersistProcess (id pid pgid ticks : Z) : call (res bool)
  | FinishJob (id : Z) (result : JobResult) : call (res (option pystr))
  | QuarantineRow (id : Z) (reason : pystr) : call (res unit)
  | PublishRows (id : Z) (chunks : list (Z * pystr)) (output : pystr) : call (res bool)
  | OwnedRunningRows (incarnation : pystr) : call (res (list (pystr * json * json)))
  (** whether a signal handler has requested the shutdown meanwhile *)
  | ShutdownRequested : call bool
  | WriteHealth : call unit
  | WriteSentinel (incarnation : pystr) : call (res unit)
  | StartCollector : call unit
  | StopCollector : call unit.

Abbreviation tree := (Programs.tree call).
Abbreviation method := (Programs.method call worker).
(** A function whose only state is the ledger it is given, by reference. *)
Abbreviation with_ledger := (Programs.method call (gmap Z Z)).

(** ** Shared steps *)

Definition job_of (k : Z) : method job :=
  w ← self; match objects w !! k with Some j => mret j | None => raise KeyError end.
Definition change (k : Z) (f : job -> job) : method unit :=
  update (fun w => match objects w !! k with Some j => put_job k (f j) w | None => w end).

(** [self._stopping], which a signal handler may set. *)
Definition stopping : method bool :=
  w ← self; if _stopping w then mret true else ask ShutdownRequested.

Fixpoint for_each {memory A} (l : list A) (body : A -> Programs.method call memory unit) : Programs.method call memory unit :=
  match l with
  | [] => mret tt
  | a :: l => _ ← body a; for_each l body
  end.

(** A function on a job's ledger, which it changes in place. *)
Definition ledger_of (k : Z) (w : worker) : gmap Z Z := default ∅ (owned_members <$> objects w !! k).
Definition put_ledger (k : Z) (l : gmap Z Z) (w : worker) : worker :=
  match objects w !! k with Some j => put_job k (set_owned_members l j) w | None => w end.
Definition on_ledger {A} (k : Z) (m : with_ledger A) : method A := zoom (ledger_of k) (put_ledger k) m.
