(* ===== verification/WorkerGroups.v ===== *)
(** The process groups of jobs ([src/lubko/worker.py], from
    [_parse_owned_running_group_row] to [recover_owned_job_groups]): which members of a
    numeric group are provably a job's, how they are signalled, and the recovery of
    the groups a dead worker left.

    The ledger of a group, the members recorded under proof with their start times,
    is the memory of these methods ([with_ledger]). *)

From S2P Require Import Prelude PyStr PyNum Json Uuid ProcFs Protocol Output Capture WorkerSettings JobQueue Programs WorkerWorld.
From stdpp Require Import gmap.

#[local] Open Scope Z_scope.
#[local] Arguments py : simpl never.

(** [Path("/proc")] as one reading sees it. *)
Definition group_members (pf : procfs) (pgid : Z) : list Z :=
  match pf_entries pf with
  | Some entries =>
      map digits_val (List.filter (fun name => isdigit name && opt_eqb (process_pgrp pf (digits_val name)) (Some pgid)) entries)
  | None => match pf_getpgid pf pgid with Some _ => [pgid] | None => [] end
  end.

Definition JOB_ID_ENV : pystr := py "LUBKO_JOB_ID".

(** The marker of the first entry of the environment that has one. *)
Fixpoint marker_of (entries : list pybytes) : option pybytes :=
  match entries with
  | [] => None
  | entry :: entries =>
      match PyStr.strip_prefix (JOB_ID_ENV ++ py "=") entry with Some m => Some m | None => marker_of entries end
  end.

Definition job_marker (pf : procfs) (pid : Z) : option pystr :=
  match pf_environ pf pid with
  | ReadOk data => utf8_decode <$> marker_of (split_on 0 data)
  | ReadNotFound | ReadError => None
  end.

Inductive GroupReclaimDecision := GONE | RECLAIM | UNRESOLVED.

Record _OwnedGroupView := mkView { leader_ours : bool; pids : list Z }.

(** [view.leader_ours or view.pids] *)
Definition view_alive (v : _OwnedGroupView) : bool := leader_ours v || negb (bool_decide (pids v = [])).

Section ledger.
Context {memory : Type}.

#[local] Abbreviation method := (Programs.method call memory).

Definition group_has_members (pgid : Z) : method bool :=
  pf ← ask Proc; mret (ProcFs.group_has_members pf pgid).
Definition start_ticks_of (pid : Z) : method (option Z) :=
  pf ← ask Proc; mret (proc_start_ticks pf pid).
Definition _group_member_pids (pgid : Z) : method (list Z) :=
  pf ← ask Proc; mret (group_members pf pgid).
Definition _process_job_id (pid : Z) : method (option pystr) :=
  pf ← ask Proc; mret (job_marker pf pid).

Definition _group_reclaim_decision (pgid : Z) (start_ticks : option Z) : method GroupReclaimDecision :=
  alive ← group_has_members pgid;
  if negb alive then mret GONE
  else match start_ticks with
       | Some t =>
           if t <=? 0 then mret UNRESOLVED
           else
             live ← start_ticks_of pgid;
             mret (match live with Some l => if l =? t then RECLAIM else UNRESOLVED | None => UNRESOLVED end)
       | None => mret UNRESOLVED
       end.

(** The pidfd is closed whatever happens once it is open. *)
Definition _pin_and_signal (pid sig expected_ticks : Z) : method bool :=
  fd ← outcome (ask_res (OpenPidfd pid));
  match fd with
  | Raise _ => mret false
  | Ok fd =>
      finally
        (ticks ← start_ticks_of pid;
         if negb (opt_eqb ticks (Some expected_ticks)) then mret false
         else
           sent ← outcome (ask_res (SendSignal fd sig));
           mret (match sent with Ok _ => true | Raise _ => false end))
        (ask (Close fd))
  end.
End ledger.

(** ** Proofs of membership *)

Definition _proven_member_ticks (pid : Z) (marker : option pystr) : with_ledger (option Z) :=
  member_ticks ← start_ticks_of pid;
  match member_ticks with
  | None => mret None
  | Some t =>
      ledger ← self;
      if opt_eqb (ledger !! pid) (Some t) then mret (Some t)
      else match marker with
           | None => mret None
           | Some m =>
               seen ← _process_job_id pid;
               mret (if match seen with Some s => str_eqb s m | None => false end then Some t else None)
           end
  end.

(** The pids of the list that are proven, in its order. *)
Fixpoint proven_members (pids : list Z) (pgid : Z) (marker : option pystr) : with_ledger (list Z) :=
  match pids with
  | [] => mret []
  | pid :: pids =>
      if pid =? pgid then proven_members pids pgid marker
      else
        ticks ← _proven_member_ticks pid marker;
        others ← proven_members pids pgid marker;
        mret (match ticks with Some _ => pid :: others | None => others end)
  end.

Definition _ledger_owned_members (pgid : Z) (marker : option pystr) : with_ledger (list Z) :=
  members ← _group_member_pids pgid; proven_members members pgid marker.

(** A member whose identity can be read is recorded. *)
Definition record_member (pid : Z) : with_ledger unit :=
  member_ticks ← start_ticks_of pid;
  match member_ticks with Some t => update (fun ledger => <[pid := t]> ledger) | None => mret tt end.

Definition _classify_group (pgid : Z) (start_ticks : option Z) (marker : option pystr) : with_ledger _OwnedGroupView :=
  alive ← group_has_members pgid;
  if negb alive then mret (mkView false [])
  else
    leader_ticks ← start_ticks_of pgid;
    if match start_ticks with Some t => (0 <? t) && opt_eqb leader_ticks (Some t) | None => false end
    then
      members ← _group_member_pids pgid;
      _ ← for_each members record_member;
      mret (mkView true [])
    else
      members ← _ledger_owned_members pgid marker;
      mret (mkView false members).

(** ** Signals *)

(** Whether any member was proven at the moment of its signal. *)
Fixpoint _signal_owned_pids (pids : list Z) (sig : Z) (marker : option pystr) : with_ledger bool :=
  match pids with
  | [] => mret false
  | pid :: pids =>
      ticks ← _proven_member_ticks pid marker;
      match ticks with
      | None => _signal_owned_pids pids sig marker
      | Some t =>
          _ ← _pin_and_signal pid sig t;
          _ ← _signal_owned_pids pids sig marker;
          mret true
      end
  end.

(** [emit] of [_terminate_one_group], and the body of [_signal_owned_group]. *)
Definition emit (pgid sig : Z) (marker : option pystr) (view : _OwnedGroupView) : with_ledger bool :=
  candidates ← (if leader_ours view then _group_member_pids pgid else mret (pids view));
  _signal_owned_pids candidates sig marker.

Definition _owned_group_view (k : Z) (j : job) : method _OwnedGroupView :=
  on_ledger k (_classify_group (pgid j) (Some (start_ticks j)) (Some (uuid_str k))).

Definition _signal_owned_group (k sig : Z) : method unit :=
  j ← job_of k;
  view ← _owned_group_view k j;
  _ ← on_ledger k (emit (pgid j) sig (Some (uuid_str k)) view);
  mret tt.

Definition _owned_group_alive (k : Z) : method bool :=
  j ← job_of k; view ← _owned_group_view k j; mret (view_alive view).

(** ** Termination of one group *)

(** [while time.monotonic() < deadline and group_has_members(pgid): sleep] *)
Fixpoint await_members (fuel : nat) (deadline : pyfloat) (pgid : Z) : with_ledger unit :=
  match fuel with
  | O => raise OutOfFuel
  | S fuel =>
      now ← ask Monotonic;
      if negb (float_ltb now deadline) then mret tt
      else
        alive ← group_has_members pgid;
        if negb alive then mret tt
        else _ ← ask (Sleep (float_of_ratio false 1 20)); await_members fuel deadline pgid
  end.

(** Whether no member is proven before the deadline. *)
Fixpoint await_reaped (fuel : nat) (deadline : pyfloat) (view : with_ledger _OwnedGroupView) : with_ledger bool :=
  match fuel with
  | O => raise OutOfFuel
  | S fuel =>
      now ← ask Monotonic;
      if negb (float_ltb now deadline) then mret false
      else
        current ← view;
        if negb (view_alive current) then mret true
        else _ ← ask (Sleep (float_of_ratio false 1 20)); await_reaped fuel deadline view
  end.

Definition _terminate_one_group (fuel : nat) (pgid start_ticks : Z) (cancel_grace_seconds : pyfloat) (marker : option pystr)
    : with_ledger bool :=
  let view := _classify_group pgid (Some start_ticks) marker in
  first ← view;
  emitted ← emit pgid SIGTERM marker first;
  if negb emitted then mret true
  else
    now ← ask Monotonic;
    _ ← await_members fuel (float_add now cancel_grace_seconds) pgid;
    current ← view;
    _ ← emit pgid SIGKILL marker current;
    now ← ask Monotonic;
    reaped ← await_reaped fuel (float_add now cancel_grace_seconds) view;
    if reaped : bool then mret true
    else final ← view; mret (negb (view_alive final)).

(** ** Recovery of a dead worker's groups *)

Definition positive_int (j : json) : option Z :=
  match j with JInt z => if 0 <? z then Some z else None | _ => None end.

Definition _parse_owned_running_group_row (row_id : pystr) (pgid start_ticks : json) : option Z * option Z * pystr :=
  (positive_int pgid, positive_int start_ticks, row_id).

Definition _owned_running_groups {memory} (incarnation : pystr) : Programs.method call memory (list (option Z * option Z * pystr)) :=
  rows ← ask_res (OwnedRunningRows incarnation);
  mret (map (fun '(row_id, pgid, ticks) => _parse_owned_running_group_row row_id pgid ticks)
            (List.filter (fun '(_, pgid, _) => match pgid with JNull => false | _ => true end) rows)).

Record ReclaimedGroups := mkReclaimed {
  reaped : list Z;
  surviving : list Z;
  unresolved : list Z;
  malformed : list pystr;
}.

Definition nothing_reclaimed : ReclaimedGroups := mkReclaimed [] [] [] [].
Definition add_reaped (p : Z) (r : ReclaimedGroups) := mkReclaimed (reaped r ++ [p]) (surviving r) (unresolved r) (malformed r).
Definition add_surviving (p : Z) (r : ReclaimedGroups) := mkReclaimed (reaped r) (surviving r ++ [p]) (unresolved r) (malformed r).
Definition add_unresolved (p : Z) (r : ReclaimedGroups) := mkReclaimed (reaped r) (surviving r) (unresolved r ++ [p]) (malformed r).
Definition add_malformed (m : pystr) (r : ReclaimedGroups) := mkReclaimed (reaped r) (surviving r) (unresolved r) (malformed r ++ [m]).

(** A ledger of its own for each group. *)
Definition with_new_ledger {memory A} (m : with_ledger A) : Programs.method call memory A := zoom (fun _ => ∅) (fun _ d => d) m.

Fixpoint reclaim_groups {memory} (fuel : nat) (grace : pyfloat) (groups : list (option Z * option Z * pystr)) (r : ReclaimedGroups)
    : Programs.method call memory ReclaimedGroups :=
  match groups with
  | [] => mret r
  | (None, _, marker) :: groups => reclaim_groups fuel grace groups (add_malformed marker r)
  | (Some pgid, start_ticks, marker) :: groups =>
      decision ← _group_reclaim_decision pgid start_ticks;
      match decision with
      | GONE => reclaim_groups fuel grace groups r
      | RECLAIM =>
          gone ← with_new_ledger (_terminate_one_group fuel pgid (default 0 start_ticks) grace (Some marker));
          reclaim_groups fuel grace groups (if gone : bool then add_reaped pgid r else add_surviving pgid r)
      | UNRESOLVED => reclaim_groups fuel grace groups (add_unresolved pgid r)
      end
  end.

Definition recover_owned_job_groups {memory} (fuel : nat) (incarnation : pystr) (grace : pyfloat)
    : Programs.method call memory ReclaimedGroups :=
  groups ← _owned_running_groups incarnation;
  reclaim_groups fuel grace groups nothing_reclaimed.
