(* ===== verification/WorkerJobs.v ===== *)
(** What the worker does to one job ([src/lubko/worker.py]): stopping it, observing
    its process and escalating, draining its pipes within the bound of its spool,
    releasing its buffers, and the terminal status of its row. *)

From S2P Require Import Prelude PyStr PyNum Json Uuid ProcFs Protocol Output Capture WorkerSettings JobQueue Programs WorkerWorld WorkerGroups.
From stdpp Require Import gmap.

#[local] Open Scope Z_scope.
#[local] Arguments py : simpl never.

(** ** Stopping a job *)

Definition _stop_note (reason : stop_reason) : pystr :=
  match reason with
  | CANCEL => py "cancelled by request: sent SIGTERM to process group"
  | SHUTDOWN => py "cancelled: worker shutting down; sent SIGTERM to process group"
  | LEASE => py "terminated because its lease could not be refreshed during a database outage"
  | ROW_LOST => py "terminated because its job row was recovered while the daemon was unable to reach the database"
  | PERSIST => py "terminated because its process identity could not be recorded"
  | SPOOL => py "terminated because its local stdout/stderr capture buffer was unavailable or exceeded the configured safe bound"
  | QUARANTINE => py "stopped"
  end.

(** The assignments of [request_stop]. *)
Definition mark_stopped (reason : stop_reason) (now : pyfloat) (j : job) : job :=
  set_cancellation_note (Some (_stop_note reason)) (set_stop_reason (Some reason) (set_stop_started (Some now) (set_term_sent true j))).

Definition request_stop (k : Z) (reason : stop_reason) : method unit :=
  j ← job_of k;
  if term_sent j then mret tt
  else
    now ← ask Monotonic;
    _ ← change k (mark_stopped reason now);
    _signal_owned_group k SIGTERM.

Definition request_group_reap (k : Z) : method unit :=
  j ← job_of k;
  if term_sent j then mret tt
  else
    now ← ask Monotonic;
    _ ← change k (fun j => set_stop_started (Some now) (set_term_sent true j));
    _signal_owned_group k SIGTERM.

Definition note_killed (j : job) : job :=
  match cancellation_note j with
  | Some note => set_cancellation_note (Some (note ++ py "; grace period expired, sent SIGKILL")) j
  | None => j
  end.

Definition signal_kill (k : Z) : method unit :=
  _ ← change k (set_kill_sent true);
  _ ← _signal_owned_group k SIGKILL;
  change k note_killed.

(** [job.completed and not _owned_group_alive(job)] *)
Definition gone (k : Z) : method bool :=
  j ← job_of k;
  if completed j then alive ← _owned_group_alive k; mret (negb alive) else mret false.

(** [proc.poll()] of a job that is not known to have ended. *)
Definition observe_exit (k : Z) : method unit :=
  j ← job_of k;
  if completed j then mret tt
  else
    code ← ask (Poll (proc j));
    match code with
    | Some c => change k (fun j => set_returncode (Some c) (set_completed true j))
    | None => mret tt
    end.

Definition reap_leftover (k : Z) : method unit :=
  j ← job_of k;
  if completed j && negb (term_sent j) then
    alive ← _owned_group_alive k;
    if alive : bool then request_group_reap k else mret tt
  else mret tt.

Section escalation.
Context (s : Settings).

Definition escalate (k : Z) (now : pyfloat) : method unit :=
  j ← job_of k;
  match term_sent j && negb (kill_sent j), stop_started j with
  | true, Some started =>
      let grace_elapsed := float_leb (cancel_grace_seconds s) (float_sub now started) in
      code ← ask (Poll (proc j));
      let leader_alive := match code with None => true | Some _ => false end in
      if grace_elapsed then
        alive ← (if leader_alive then mret true else _owned_group_alive k);
        if alive : bool then signal_kill k else mret tt
      else mret tt
  | _, _ => mret tt
  end.

Definition _observe_and_escalate (k : Z) (now : pyfloat) : method bool :=
  _ ← observe_exit k;
  _ ← reap_leftover k;
  _ ← escalate k now;
  gone k.

Definition _service_processes : method unit :=
  now ← ask Monotonic;
  w ← self;
  for_each (active w) (fun k => _ ← _observe_and_escalate k now; mret tt).
End escalation.

(** ** Draining *)

(** What one read of a pipe gives; no more than it is asked for. *)
#[export] Instance one_read : Pipe read_outcome := {
  os_read o n := (match o with ReadBytes data => ReadBytes (take (Z.to_nat n) data) | _ => o end, WouldBlock);
  unread _ := [];
}.

(** What a read of each of the job's pipes gives, and which buffers can grow. *)
Definition pipes_of (cap : ActiveJob) : method (stream_name -> read_outcome) :=
  out ← ask (ReadPipe (os_fd (job_stdout cap)));
  err ← ask (ReadPipe (os_fd (job_stderr cap)));
  mret (fun n => match n with Stdout => out | Stderr => err end).

Definition _drain_active_stream (k : Z) (n : stream_name) (bound : Z) : method unit :=
  j ← job_of k;
  pipes ← pipes_of (capture j);
  can_extend ← ask Memory;
  let '(cap, failed, _) := Capture._drain_active_stream can_extend pipes (capture j) n bound in
  _ ← change k (set_capture cap);
  if failed : bool then request_stop k SPOOL else mret tt.

Definition _drain_completed_streams (k : Z) (bound : Z) : method bool :=
  j ← job_of k;
  pipes ← pipes_of (capture j);
  can_extend ← ask Memory;
  let '(cap, failed, progress, _) := Capture._drain_completed_streams can_extend pipes (capture j) bound in
  _ ← change k (set_capture cap);
  _ ← (if failed : bool then request_stop k SPOOL else mret tt);
  mret progress.

(** The streams of a job that can be drained. *)
Definition open_streams (j : job) : list stream_name :=
  if spool_evicted j then []
  else List.filter (fun n => match os_fd (stream_of j n) with Some _ => negb (os_eof (stream_of j n)) | None => false end) OUTPUT_STREAMS.

Definition _drain_candidates (w : worker) : list (Z * stream_name) :=
  flat_map (fun k => match objects w !! k with Some j => map (pair k) (open_streams j) | None => [] end) (active w).

Definition fd_of (w : worker) (kn : Z * stream_name) : list Z :=
  match objects w !! kn.1 with
  | Some j => match os_fd (stream_of j kn.2) with Some fd => [fd] | None => [] end
  | None => []
  end.

Definition isolate_bad_fds (candidates : list (Z * stream_name)) : method unit :=
  for_each candidates (fun '(k, n) =>
    j ← job_of k;
    match os_fd (stream_of j n) with
    | None => mret tt
    | Some fd =>
        bad ← ask (BadFd fd);
        if negb bad then mret tt
        else
          _ ← change k set_spool_evicted;
          _ ← ask (Close fd);
          _ ← change k (fun j => put_stream n (close_fd (stream_of j n)) j);
          request_stop k SPOOL
    end).

Definition drain_readable (readable : list Z) (bound : Z) (candidates : list (Z * stream_name)) : method unit :=
  for_each candidates (fun '(k, n) =>
    j ← job_of k;
    match os_fd (stream_of j n) with
    | Some fd => if bool_decide (fd ∈ readable) then _drain_active_stream k n bound else mret tt
    | None => mret tt
    end).

Section drain.
Context (s : Settings).

Definition _drain_captures : method unit :=
  w ← self;
  match _drain_candidates w with
  | [] => mret tt
  | candidates =>
      readable ← outcome (ask_res (Readable (flat_map (fd_of w) candidates)));
      match readable with
      | Raise OSError | Raise ValueError => isolate_bad_fds candidates
      | Raise x => raise x
      | Ok [] => mret tt
      | Ok readable => drain_readable readable (output_spool_max_bytes s) candidates
      end
  end.

Definition _enforce_spool_bounds : method unit :=
  w ← self;
  for_each (active w) (fun k =>
    j ← job_of k;
    if completed j then mret tt
    else if spool_overflow (capture j) (output_spool_max_bytes s) then
      _ ← change k set_spool_evicted; request_stop k SPOOL
    else mret tt).
End drain.

(** ** Ends *)

(** [cleanup_job] on one stream, but for the closing of its pipe. *)
Definition released (s : OutputStream) : OutputStream := set_data (set_pending (set_eof (close_fd s)) []) [].

Definition close_stream (k : Z) (n : stream_name) : method unit :=
  j ← job_of k;
  _ ← (match os_fd (stream_of j n) with Some fd => ask (Close fd) | None => mret tt end);
  change k (fun j => put_stream n (released (stream_of j n)) j).

Definition cleanup_job (k : Z) : method unit := for_each OUTPUT_STREAMS (close_stream k).

(** [cleanup_job(job); job.finalized = True; self.active.pop(job.id, None)] *)
Definition untrack (k : Z) : method unit :=
  _ ← cleanup_job k; _ ← change k (set_finalized true); update (unregister k).
Definition _untrack_lost_job (k : Z) : method unit := untrack k.

Definition _finalize_status (j : job) : pystr :=
  match stop_reason_of j with
  | Some (CANCEL | SHUTDOWN) => STATUS_CANCELLED
  | Some (LEASE | ROW_LOST | PERSIST | QUARANTINE | SPOOL) => STATUS_FAILED
  | None =>
      if cancel_requested j then STATUS_CANCELLED
      else match returncode j with Some 0 => STATUS_SUCCEEDED | _ => STATUS_FAILED end
  end.

Definition EXECUTION_ERROR_EXIT_CODE : Z := 127.
Definition PROTOCOL_ERROR_EXIT_CODE : Z := 2.

(** The result of a job that was not run. *)
Definition not_run (code : Z) (reason : pystr) : JobResult := mkResult STATUS_FAILED code [] reason None.

Definition _preflight_failure (spec : JobSpec) : method (option JobResult) :=
  exists_ ← ask (IsDirectory (sp_cwd spec));
  if exists_ : bool then mret None
  else
    cwd ← ask (Repr (sp_cwd spec));
    mret (Some (not_run EXECUTION_ERROR_EXIT_CODE (py "unable to enter working directory " ++ cwd ++ py ": directory does not exist"))).
