(* ===== verification/WorkerStarts.v ===== *)
(** Starting a job behind its gate ([src/lubko/worker.py]): [spawn_job] in a lane of
    the pool, the future that carries its result to the supervisor, the release of the
    gate and the abort of a start that must not run. *)

From S2P Require Import Prelude PyStr PyNum Json Uuid ProcFs Protocol Output Capture WorkerSettings JobQueue Programs WorkerWorld WorkerGroups WorkerJobs.
From stdpp Require Import gmap.

#[local] Open Scope Z_scope.
#[local] Arguments py : simpl never.

Definition close_all {memory} (fds : list Z) : Programs.method call memory unit := for_each fds (fun fd => ask (Close fd)).

(** [_signal_group]: a group that is gone is no failure. *)
Definition _signal_group {memory} (pgid sig : Z) : Programs.method call memory unit :=
  r ← outcome (ask_res (KillGroup pgid sig));
  match r with
  | Ok _ | Raise ProcessLookupError => mret tt
  | Raise x => raise x
  end.

Definition SESSION_ESTABLISH_TIMEOUT_SECONDS : pyfloat := float_of_int 1.

(** ** [spawn_job] *)

Section spawn.
Context {memory : Type}.

#[local] Abbreviation method := (Programs.method call memory).

Fixpoint await_session (fuel : nat) (deadline : pyfloat) (pid : Z) : method Z :=
  match fuel with
  | O => raise OutOfFuel
  | S fuel =>
      pgid ← outcome (ask_res (GetPgid pid));
      match pgid with
      | Raise ProcessLookupError => mret pid
      | Raise x => raise x
      | Ok pgid =>
          if pgid =? pid then mret pgid
          else
            now ← ask Monotonic;
            if float_leb deadline now then mret pid
            else _ ← ask (Sleep (float_of_ratio false 1 100)); await_session fuel deadline pid
      end
  end.

Definition _wait_for_session (fuel : nat) (pid : Z) : method Z :=
  now ← ask Monotonic; await_session fuel (float_add now SESSION_ESTABLISH_TIMEOUT_SECONDS) pid.

Definition _prepare_capture_fds (fuel : nat) (pid stdout_w stderr_w stdout_r stderr_r : Z) : method Z :=
  _ ← close_all [stdout_w; stderr_w];
  _ ← for_each [stdout_r; stderr_r] (fun fd => ask_res (SetNonblocking fd));
  _wait_for_session fuel pid.

(** [while proc.poll() is None: killpg; sleep], a failing kill suppressed. *)
Fixpoint kill_child (fuel : nat) (proc pid : Z) : method unit :=
  match fuel with
  | O => raise OutOfFuel
  | S fuel =>
      code ← ask (Poll proc);
      match code with
      | Some _ => mret tt
      | None =>
          _ ← outcome (ask_res (KillGroup pid SIGKILL));
          _ ← ask (Sleep (float_of_ratio false 1 50));
          kill_child fuel proc pid
      end
  end.

(** The descriptors made so far are closed before the failure goes on; those not yet
    made are -1. *)
Definition closing {A} (fds : list Z) (m : method A) : method A :=
  r ← outcome m;
  match r with
  | Ok a => mret a
  | Raise OSError => _ ← close_all fds; raise OSError
  | Raise x => raise x
  end.

Definition spawn_job (fuel : nat) (job : JobSpec) : method GatedSpawn :=
  stdout_stream ← ask_res NewBuffer;
  stderr_stream ← ask_res NewBuffer;
  '(gate_r, gate_w) ← closing [-1; -1; -1; -1; -1; -1] (ask_res MakePipe);
  '(stdout_r, stdout_w) ← closing [gate_r; gate_w; -1; -1; -1; -1] (ask_res MakePipe);
  '(stderr_r, stderr_w) ← closing [gate_r; gate_w; stdout_r; stdout_w; -1; -1] (ask_res MakePipe);
  '(proc, pid) ← closing [gate_r; gate_w; stdout_r; stdout_w; stderr_r; stderr_w] (ask_res (Popen job gate_r stdout_w stderr_w));
  _ ← ask (Close gate_r);
  prepared ← outcome (_prepare_capture_fds fuel pid stdout_w stderr_w stdout_r stderr_r);
  match prepared with
  | Ok pgid => mret (mkGated proc pid pgid stdout_stream stderr_stream gate_w stdout_r stderr_r)
  | Raise x =>
      _ ← kill_child fuel proc pid;
      _ ← close_all [gate_w; stdout_r; stdout_w; stderr_r; stderr_w];
      raise x
  end.

(** ** Releasing and aborting *)

Definition release_gate (gate_fd : Z) : method bool :=
  written ← outcome (ask_res (WriteGate gate_fd));
  match written with
  | Ok _ => _ ← ask (Close gate_fd); mret true
  | Raise OSError => _ ← ask (Close gate_fd); mret false
  | Raise x => raise x
  end.

(** [while proc.poll() is None and time.monotonic() < deadline: kill; sleep] *)
Fixpoint kill_gated (fuel : nat) (deadline : pyfloat) (proc pgid : Z) : method unit :=
  match fuel with
  | O => raise OutOfFuel
  | S fuel =>
      code ← ask (Poll proc);
      match code with
      | Some _ => mret tt
      | None =>
          now ← ask Monotonic;
          if negb (float_ltb now deadline) then mret tt
          else
            _ ← _signal_group pgid SIGKILL;
            _ ← ask (Sleep (float_of_ratio false 1 50));
            kill_gated fuel deadline proc pgid
      end
  end.

Definition abort_gated_start (fuel : nat) (proc pgid gate_fd : Z) : method bool :=
  _ ← ask (Close gate_fd);
  now ← ask Monotonic;
  _ ← kill_gated fuel (float_add now (float_of_int 5)) proc pgid;
  code ← ask (Poll proc);
  match code with
  | Some _ => _ ← ask (Wait proc (float_of_int 5)); mret true
  | None => mret false
  end.

(** [while proc.poll() is None: kill; sleep] *)
Fixpoint kill_until_reaped (fuel : nat) (proc pgid : Z) : method unit :=
  match fuel with
  | O => raise OutOfFuel
  | S fuel =>
      code ← ask (Poll proc);
      match code with
      | Some _ => mret tt
      | None =>
          _ ← _signal_group pgid SIGKILL;
          _ ← ask (Sleep (float_of_ratio false 1 20));
          kill_until_reaped fuel proc pgid
      end
  end.

Definition await_gated_group_gone (fuel : nat) (g : GatedSpawn) : method unit :=
  _ ← kill_until_reaped fuel (g_proc g) (g_pgid g);
  _ ← ask (Wait (g_proc g) (float_of_int 5));
  close_all [g_stdout_read_fd g; g_stderr_read_fd g].

Definition _abort_and_converge (fuel : nat) (g : GatedSpawn) : method unit :=
  aborted ← abort_gated_start fuel (g_proc g) (g_pgid g) (g_gate_fd g);
  if aborted : bool then close_all [g_stdout_read_fd g; g_stderr_read_fd g]
  else await_gated_group_gone fuel g.

(** The same steps, for a start whose row has already been failed. *)
Definition _abort_and_reap_late (fuel : nat) (g : GatedSpawn) : method unit := _abort_and_converge fuel g.

(** [_make_late_completion_callback], called with a future that holds [result]. *)
Definition late_completion (fuel : nat) (result : res GatedSpawn) : method unit :=
  match result with Ok g => _abort_and_reap_late fuel g | Raise _ => mret tt end.
End spawn.

(** ** The future of a start *)

(** [_SpawnFuture], with the one callback that is ever installed. *)
Record _SpawnFuture := mkFuture {
  f_result : option (res GatedSpawn);
  f_done : bool;
  f_cancelled : bool;
  f_executed : bool;
  f_callback : bool;
}.

Definition new_future : _SpawnFuture := mkFuture None false false false false.

(** Each operation is one section under the future's lock; what it answers says
    whether the callback is called once the lock is released, and with what. *)
Definition set_result (result : res GatedSpawn) (f : _SpawnFuture) : _SpawnFuture * option GatedSpawn :=
  let fires := (negb (f_cancelled f) || f_executed f) && f_callback f in
  (mkFuture (Some result) true (f_cancelled f) (f_executed f) (f_callback f),
   match result with Ok g => if fires then Some g else None | Raise _ => None end).

Definition install_callback (f : _SpawnFuture) : _SpawnFuture * option (option (res GatedSpawn)) :=
  if f_done f then (f, Some (f_result f)) else (mkFuture (f_result f) (f_done f) (f_cancelled f) (f_executed f) true, None).

Definition cancel (f : _SpawnFuture) : _SpawnFuture :=
  mkFuture (f_result f) true true (f_executed f) (f_callback f).

Definition try_claim_execution (f : _SpawnFuture) : _SpawnFuture * bool :=
  if f_cancelled f then (f, false)
  else (mkFuture (f_result f) (f_done f) (f_cancelled f) true (f_callback f), true).
