(* ===== verification/WorkerLeases.v ===== *)
(** The worker's leases and what the database tells it about its jobs
    ([src/lubko/worker.py]): eviction before a lease can expire, the bulk heartbeat,
    the recovery of stale rows, requested cancellations; and the rows it gives up on. *)

From S2P Require Import Prelude PyStr PyNum Json Uuid ProcFs Protocol Output Capture WorkerSettings JobQueue Programs WorkerWorld WorkerGroups WorkerJobs.
From stdpp Require Import gmap.

#[local] Open Scope Z_scope.
#[local] Arguments py : simpl never.

Definition QUARANTINE_MAX_RETRIES : Z := 5.
Definition QUARANTINE_RETRY_BASE_SECONDS : pyfloat := float_of_ratio false 1 2.
(** [QUARANTINE_RETRY_BASE_SECONDS * (2**n)] *)
Definition retry_delay (n : Z) : pyfloat := float_mul QUARANTINE_RETRY_BASE_SECONDS (float_of_int (2 ^ n)).

(** ** Errors of the database *)

Definition _is_connectivity_error : method bool :=
  '(exc, unusable) ← ask Caught;
  w ← self;
  mret (_is_connectivity_error_check exc (if conn w then Some unusable else None)).

(** [False] when the terminalization failed and has to be retried. *)
Definition _quarantine_job (k : Z) (reason : pystr) : method bool :=
  r ← outcome (ask_res (QuarantineRow k (no_nul reason)));
  match r with
  | Ok _ => mret true
  | Raise DatabaseError =>
      lost ← _is_connectivity_error;
      if lost : bool then raise DatabaseError else mret false
  | Raise x => raise x
  end.

(** [with suppress(psycopg.Error): m] *)
Definition suppressing (m : method unit) : method unit :=
  r ← outcome m;
  match r with
  | Ok _ | Raise DatabaseError => mret tt
  | Raise x => raise x
  end.

(** Only with a connection. *)
Definition when_connected (m : method unit) : method unit := w ← self; if conn w then m else mret tt.

(** ** Leases *)

Section leases.
Context (s : Settings).

(** The snapshot of the worker's health, unless the last is recent. *)
Definition _publish_health (force : bool) : method unit :=
  now ← ask Wall;
  w ← self;
  if negb force && float_ltb now (_next_health_publish_at w) then mret tt
  else _ ← ask WriteHealth; update (set_next_health_publish_at (float_add now (health_publish_interval_seconds s))).

Definition _publish_health_force : method unit := _publish_health true.

Definition _enforce_lease_safety : method unit :=
  now ← ask Monotonic;
  w ← self;
  for_each (active w) (fun k =>
    j ← job_of k;
    if completed j || term_sent j then mret tt
    else if float_leb (unsafe_at s (last_heartbeat_at j)) now then
      _ ← change k (set_lease_evicted true); request_stop k LEASE
    else mret tt).

Definition out_of_heartbeat (j : job) : bool := finalized j || quarantined j || row_lost j || lease_evicted j.

Definition eligible (w : worker) (k : Z) : bool :=
  match objects w !! k with Some j => negb (out_of_heartbeat j) | None => false end.

Definition _heartbeat_root_ids (w : worker) : list Z := List.filter (eligible w) (active w).

Definition lose_row (k : Z) : method unit := _ ← change k (set_row_lost true); request_stop k ROW_LOST.

Definition apply_lease_refresh (refreshed : list Z) (refresh_mono : pyfloat) : method unit :=
  w ← self;
  for_each (active w) (fun k =>
    j ← job_of k;
    if out_of_heartbeat j then mret tt
    else if bool_decide (k ∈ refreshed) then change k (set_last_heartbeat_at refresh_mono)
    else lose_row k).

Definition _refresh_leases : method unit :=
  when_connected
    (refresh_mono ← ask Monotonic;
     w ← self;
     refreshed ← ask_res (RefreshLeases (_heartbeat_root_ids w));
     apply_lease_refresh refreshed refresh_mono).

Definition _refresh_leases_quietly : method unit := suppressing _refresh_leases.

(** ** Recovery, cancellation, retries *)

(** [job = self.active.get(k)]: [m], when the job is registered. *)
Definition if_active (k : Z) (m : method unit) : method unit :=
  w ← self; if bool_decide (k ∈ active w) then m else mret tt.

Definition _run_recovery : method unit :=
  when_connected (recovered ← ask_res RecoverStale; for_each recovered (fun k => if_active k (lose_row k))).

Definition _run_reaper : method unit :=
  when_connected (_ ← ask_res (ReapUnsupported LEASE_RECOVERY_LIMIT); mret tt).

Definition _discover_cancellations : method unit :=
  when_connected
    (found ← ask_res DiscoverCancellations;
     for_each found (fun k => if_active k
       (j ← job_of k;
        if cancel_requested j then mret tt
        else _ ← change k (set_cancel_requested true); request_stop k CANCEL))).

(** The loop of [_retry_terminalizations]; it ends early when the retries of a row are
    used up, and the worker stops. *)
Fixpoint retry_rows (now : pyfloat) (ids : list Z) : method unit :=
  match ids with
  | [] => mret tt
  | k :: ids =>
      w ← self;
      match od_get k (_retry_terminations w) with
      | None => raise KeyError
      | Some st =>
          if float_ltb now (next_retry_at st) then retry_rows now ids
          else if QUARANTINE_MAX_RETRIES <=? retries st then update (set_stopping true)
          else
            done ← _quarantine_job k (py "retry terminalization for " ++ uuid_str k);
            _ ← (if done : bool then update (fun w => set_retry_terminations (od_del k (_retry_terminations w)) w)
                 else
                   let n := retries st + 1 in
                   update (fun w => set_retry_terminations (od_set k (mkRetry n (float_add now (retry_delay n))) (_retry_terminations w)) w));
            retry_rows now ids
      end
  end.

Definition _retry_terminalizations : method unit :=
  w ← self;
  if negb (conn w) || bool_decide (_retry_terminations w = []) then mret tt
  else now ← ask Monotonic; retry_rows now (map fst (_retry_terminations w)).
End leases.
