(* ===== verification/WorkerFinalization.v ===== *)
(** Publishing the output of jobs and ending them ([src/lubko/worker.py]): the bounded
    cycle that publishes, trims and drains a completed job until its pipes are at their
    end, the terminal write, capture failures, quarantine. *)

From S2P Require Import Prelude PyStr PyNum Json Uuid ProcFs Protocol Output Capture WorkerSettings JobQueue Programs WorkerWorld WorkerGroups WorkerJobs WorkerLeases.
From stdpp Require Import gmap.

#[local] Open Scope Z_scope.
#[local] Arguments py : simpl never.

Definition DETACHED_CAPTURE_EOF_GRACE_SECONDS : pyfloat := float_of_int 5.
Definition CYCLE_TURNS : nat := Z.to_nat 100000.

(** What a publication, or a turn of the cycle, means for its caller. *)
Inductive publication := Published | Lost | CaptureFailed | Quarantined.
Inductive verdict := AtEof | Stop | WaitMore.

(** The row is terminalized as failed, or the retry of it is left pending. *)
Definition quarantine (k : Z) (reason : pystr) : method unit :=
  done ← _quarantine_job k reason;
  _ ← change k (if done : bool then set_quarantined true else set_quarantine_pending true);
  request_stop k QUARANTINE.

Section finalization.
Context (s : Settings) (uuid4 : nat -> Z).

(** [publish_output]: what [Output.publish_output] writes when it is committed, and
    whether it is. *)
Definition publish_output (k : Z) (names : list stream_name) (now : pyfloat) (force : bool) : method bool :=
  j ← job_of k;
  w ← self;
  match Output.publish_output uuid4 (capture j) names now (server s) force Committed (drawn w) with
  | (Raise x, _, _, n) => _ ← update (set_drawn n); raise x
  | (Ok _, None, _, n) => _ ← update (set_drawn n); mret true
  | (Ok _, Some wr, cap, n) =>
      _ ← update (set_drawn n);
      published ← ask_res (PublishRows k (wr_chunks wr) (wr_output wr));
      if published : bool then _ ← change k (set_capture cap); mret true else mret false
  end.

Definition _changed_streams (j : job) (now : pyfloat) : list stream_name :=
  List.filter (fun n =>
    let st := stream_of j n in
    negb (float_ltb (float_sub now (os_published_at st)) (output_publication_interval_seconds s))
    && negb (os_spool_start st + stream_size st =? os_published_size st)) OUTPUT_STREAMS.

(** [cleanup_job] and the health of the worker after the terminal write. *)
Definition _finalize_one (k : Z) : method bool :=
  w ← self;
  if negb (conn w) then mret false
  else
    j ← job_of k;
    let result := mkResult (_finalize_status j) (default 0 (returncode j)) (os_tail_text (job_stdout (capture j)))
                    (os_tail_text (job_stderr (capture j))) (cancellation_note j) in
    final ← outcome (ask_res (FinishJob k result));
    match final with
    | Raise DatabaseError =>
        lost ← _is_connectivity_error;
        if lost : bool then raise DatabaseError
        else text ← ask CaughtText; _ ← quarantine k (py "finalization error: " ++ text); mret false
    | Raise x => raise x
    | Ok None => _ ← change k (set_row_lost true); _ ← cleanup_job k; mret true
    | Ok (Some _) => _ ← ask Monotonic; _ ← cleanup_job k; _ ← _publish_health_force s; mret true
    end.

(** [job.finalized = True; self.active.pop(job.id, None)] *)
Definition drop_job (k : Z) : method unit := _ ← change k (set_finalized true); update (unregister k).

Definition _fail_capture_closed (k : Z) : method unit :=
  _ ← change k set_spool_evicted;
  _ ← request_stop k SPOOL;
  ended ← gone k;
  if negb ended then mret tt
  else
    w ← self;
    if negb (conn w) then untrack k
    else
      finalized ← outcome (_finalize_one k);
      match finalized with
      | Raise DatabaseError =>
          lost ← _is_connectivity_error;
          if lost : bool then raise DatabaseError
          else text ← ask CaughtText; quarantine k (py "capture failure finalize error: " ++ text)
      | Raise x => raise x
      | Ok true => drop_job k
      | Ok false => untrack k
      end.

Definition publish_job_output (k : Z) (now : pyfloat) : method unit :=
  when_connected
    (j ← job_of k;
     match _changed_streams j now with
     | [] => mret tt
     | changed =>
         published ← outcome (publish_output k changed now false);
         match published with
         | Ok true => mret tt
         | Ok false => lose_row k
         | Raise SpoolCaptureError => _fail_capture_closed k
         | Raise DatabaseError =>
             lost ← _is_connectivity_error;
             if lost : bool then raise DatabaseError
             else text ← ask CaughtText; quarantine k (py "publication error: " ++ text)
         | Raise OSError | Raise DbOperationDeadlineError => text ← ask CaughtText; quarantine k (py "publication error: " ++ text)
         | Raise x => raise x
         end
     end).

Definition publishable_job (j : job) : bool :=
  negb (completed j) && negb (finalized j) && negb (quarantined j) && negb (quarantine_pending j) && negb (spool_evicted j).

Definition _publish_all (now : pyfloat) : method unit :=
  when_connected
    (w ← self;
     for_each (active w) (fun k => j ← job_of k; if publishable_job j then publish_job_output k now else mret tt)).

Definition _publish_bounded (k : Z) (now : pyfloat) : method publication :=
  published ← outcome (publish_output k OUTPUT_STREAMS now true);
  match published with
  | Ok true => mret Published
  | Ok false => _ ← _untrack_lost_job k; mret Lost
  | Raise SpoolCaptureError => mret CaptureFailed
  | Raise DatabaseError =>
      lost ← _is_connectivity_error;
      if lost : bool then raise DatabaseError
      else text ← ask CaughtText; _ ← quarantine k (py "bounded publication error: " ++ text); mret Quarantined
  | Raise OSError | Raise DbOperationDeadlineError =>
      text ← ask CaughtText; _ ← quarantine k (py "bounded publication error: " ++ text); mret Quarantined
  | Raise x => raise x
  end.

Definition _publish_or_fail (k : Z) (now : pyfloat) : method bool :=
  outcome_ ← _publish_bounded k now;
  match outcome_ with
  | CaptureFailed => _ ← _fail_capture_closed k; mret false
  | Published => mret true
  | Lost | Quarantined => mret false
  end.
(** ** The bounded cycle of a completed job *)

(** Whether a stream progressed, and whether a buffer failed. *)
Definition _drain_or_fail_closed (k : Z) (bound : Z) : method (bool * bool) :=
  progressed ← outcome (_drain_completed_streams k bound);
  match progressed with
  | Ok p => mret (p, false)
  | Raise SpoolCaptureError => mret (false, true)
  | Raise x => raise x
  end.

(** A stream whose writer outlived the job; [false]: retained bytes do not fit. *)
Definition abandon_stream (k : Z) (bound : Z) (n : stream_name) : method bool :=
  j ← job_of k;
  let st := stream_of j n in
  match os_fd st with
  | None => mret true
  | Some fd =>
      can_extend ← ask Memory;
      let room := Z.max 0 (bound - _spool_used_bytes (capture j)) in
      let '(st, flushed) :=
        match os_pending st with
        | [] => (st, true)
        | _ => if room =? 0 then (st, false) else _flush_pending can_extend st (Some (Z.min room (py_len (os_pending st))))
        end in
      _ ← change k (put_stream n st);
      if flushed && bool_decide (os_pending st = []) then
        _ ← ask (Close fd); _ ← change k (put_stream n (set_eof (close_fd st))); mret true
      else _ ← _fail_capture_closed k; mret false
  end.

(** The streams in order, until one does not fit. *)
Fixpoint abandon_streams (k : Z) (bound : Z) (names : list stream_name) : method bool :=
  match names with
  | [] => mret true
  | n :: names =>
      closed ← abandon_stream k bound n;
      if closed : bool then abandon_streams k bound names else mret false
  end.

Definition _abandon_open_capture_streams (k : Z) (bound : Z) : method bool :=
  drained ← outcome (_drain_completed_streams k bound);
  match drained with
  | Ok _ | Raise SpoolCaptureError => abandon_streams k bound OUTPUT_STREAMS
  | Raise x => raise x
  end.

Definition _bounded_cycle_turn (k : Z) (bound : Z) (eof_deadline now : pyfloat) : method verdict :=
  '(progressed, failed_closed) ← _drain_or_fail_closed k bound;
  j ← job_of k;
  let used_before := if failed_closed : bool then None else Some (_spool_used_bytes (capture j)) in
  outcome_ ← (if failed_closed : bool then mret CaptureFailed else _publish_bounded k now);
  match outcome_ with
  | CaptureFailed => _ ← _fail_capture_closed k; mret Stop
  | Lost | Quarantined => mret Stop
  | Published =>
      j ← job_of k;
      let made_room := progressed || _spool_shrank (capture j) used_before in
      if _streams_at_eof (capture j) then mret AtEof
      else
        t ← ask Monotonic;
        if float_leb eof_deadline t then
          abandoned ← _abandon_open_capture_streams k bound;
          mret (if abandoned : bool then AtEof else Stop)
        else if negb made_room && match used_before with Some u => bound <=? u | None => false end then
          _ ← _fail_capture_closed k; mret Stop
        else if negb made_room then
          _ ← _refresh_leases_quietly; _ ← ask (Sleep (float_of_ratio false 1 20)); mret WaitMore
        else mret WaitMore
  end.

(** [for _ in range(100_000)]: when the turns are used up the job fails closed. *)
Fixpoint cycle_turns (turns : nat) (k : Z) (bound : Z) (eof_deadline now : pyfloat) : method bool :=
  match turns with
  | O => _ ← _fail_capture_closed k; mret false
  | S turns =>
      j ← job_of k;
      if _streams_at_eof (capture j) then mret true
      else
        v ← _bounded_cycle_turn k bound eof_deadline now;
        match v with
        | AtEof => mret true
        | Stop => mret false
        | WaitMore => cycle_turns turns k bound eof_deadline now
        end
  end.

Definition _bounded_finalization_cycle (k : Z) (bound : Z) : method bool :=
  now ← ask Monotonic;
  cycle_turns CYCLE_TURNS k bound (float_add now DETACHED_CAPTURE_EOF_GRACE_SECONDS) now.

Definition finalize_completed_job_bounded (k : Z) : method unit :=
  when_connected
    (j ← job_of k;
     if spool_evicted j then
       finalized ← _finalize_one k; if finalized : bool then drop_job k else mret tt
     else
       proceed ← _bounded_finalization_cycle k (output_spool_max_bytes s);
       if negb proceed then mret tt
       else
         now ← ask Monotonic;
         published ← _publish_or_fail k now;
         if negb published then mret tt
         else finalized ← _finalize_one k; if finalized : bool then drop_job k else mret tt).

(** ** Every completed job *)

Definition _try_finalize_one_completed (k : Z) : method unit :=
  r ← outcome (finalize_completed_job_bounded k);
  match r with
  | Raise DatabaseError => lost ← _is_connectivity_error; if lost : bool then raise DatabaseError else mret tt
  | Ok _ => mret tt
  | Raise x => raise x
  end.

(** The jobs whose row is terminal or to be made so again; it ends early when the
    retries of a job are used up, and the worker stops. *)
Fixpoint cleanup_quarantined (now : pyfloat) (ks : list Z) : method unit :=
  match ks with
  | [] => mret tt
  | k :: ks =>
      j ← job_of k;
      ended ← (if quarantined j then gone k else mret false);
      if ended : bool then _ ← untrack k; cleanup_quarantined now ks
      else
        pending ← (if quarantine_pending j then gone k else mret false);
        w ← self;
        if negb (pending && conn w) then cleanup_quarantined now ks
        else if float_ltb now (quarantine_next_retry_at j) then cleanup_quarantined now ks
        else if QUARANTINE_MAX_RETRIES <=? quarantine_retries j then update (set_stopping true)
        else
          done ← _quarantine_job k (py "quarantine retry for " ++ uuid_str k);
          _ ← (if done : bool then
                 _ ← change k (fun j => set_quarantine_pending false (set_quarantined true j)); untrack k
               else
                 let n := quarantine_retries j + 1 in
                 change k (fun j => set_quarantine_next_retry_at (float_add now (retry_delay n)) (set_quarantine_retries n j)));
          cleanup_quarantined now ks
  end.

Definition _cleanup_quarantined_jobs : method unit :=
  now ← ask Monotonic; w ← self; cleanup_quarantined now (active w).

Definition _finalize_completed : method unit :=
  when_connected
    (_ ← _cleanup_quarantined_jobs;
     w ← self;
     for_each (active w) (fun k =>
       j ← job_of k;
       if negb (completed j) || finalized j || quarantined j || quarantine_pending j then mret tt
       else
         alive ← _owned_group_alive k;
         if alive : bool then mret tt else _try_finalize_one_completed k)).
End finalization.
