(* ===== verification/WorkerLoop.v ===== *)
(** The worker's loop ([Supervisor] of [src/lubko/worker.py]): claiming and starting
    jobs, one turn, the outage of the database, the shutdown, and [run]. *)

From S2P Require Import Prelude PyStr PyNum Json Uuid ProcFs Protocol Output Capture WorkerSettings JobQueue Programs WorkerWorld WorkerGroups WorkerJobs WorkerStarts WorkerLeases WorkerFinalization.
From stdpp Require Import gmap.

#[local] Open Scope Z_scope.
#[local] Arguments py : simpl never.

Definition EMPTY_CLAIM_SCAN_INTERVAL_SECONDS : pyfloat := float_of_int 1.
(** [max(self.settings.poll_interval_seconds, 0.5)] *)
Definition poll_pause (s : Settings) : pyfloat := float_max (poll_interval_seconds s) (float_of_ratio false 1 2).

Section supervisor.
Context (s : Settings) (uuid4 : nat -> Z) (fuel : nat).

(** ** A start *)

(** A row that could be neither finished nor quarantined is kept to be retried. *)
Definition _finalize_immediate (k : Z) (result : JobResult) : method unit :=
  when_connected
    (r ← outcome (ask_res (FinishJob k result));
     match r with
     | Ok _ => mret tt
     | Raise DatabaseError =>
         lost ← _is_connectivity_error;
         if lost : bool then raise DatabaseError
         else
           text ← ask CaughtText;
           done ← _quarantine_job k (py "immediate finalization error: " ++ text);
           if done : bool then mret tt
           else update (fun w => match od_get k (_retry_terminations w) with
                                 | Some _ => w
                                 | None => set_retry_terminations (od_set k (mkRetry 0 zero) (_retry_terminations w)) w
                                 end)
     | Raise x => raise x
     end).

(** [Ok] the start times persisted before the release; [Raise] stands for the message
    of a start that failed. *)
Inductive pre_release := Persisted (start_ticks : Z) | NotRecorded (message : pystr).

Definition _pre_release_failure (k : Z) (g : GatedSpawn) : method pre_release :=
  ticks ← start_ticks_of (g_pid g);
  match ticks with
  | Some t =>
      if 0 <? t then
        persisted ← outcome (ask_res (PersistProcess k (g_pid g) (g_pgid g) t));
        match persisted with
        | Ok true => mret (Persisted t)
        | Ok false =>
            _ ← _abort_and_converge fuel g;
            mret (NotRecorded (py "unable to record process identity; job not started"))
        | Raise DatabaseError =>
            lost ← _is_connectivity_error;
            _ ← _abort_and_converge fuel g;
            if lost : bool then raise DatabaseError
            else mret (NotRecorded (py "unable to record process identity; job not started"))
        | Raise x => raise x
        end
      else
        _ ← _abort_and_converge fuel g;
        mret (NotRecorded (py "unable to record exact process identity; job not started"))
  | None =>
      _ ← _abort_and_converge fuel g;
      mret (NotRecorded (py "unable to record exact process identity; job not started"))
  end.

Definition with_fd (fd : Z) (st : OutputStream) : OutputStream :=
  mkStream (os_data st) (Some fd) (os_eof st) (os_pending st) (os_spool_start st) (os_published_size st) (os_published_at st)
    (os_archived_upto st) (os_last_chunk st) (os_sequence st) (os_tail_text st) (os_tail_start st) (os_tail_end st).

(** The job of a released start, its ledger holding its leader. *)
Definition activated (k : Z) (g : GatedSpawn) (version start_ticks : Z) (claim_mono now : pyfloat) : job :=
  mkActive
    (mkJob k version (with_fd (g_stdout_read_fd g) (g_stdout g)) (with_fd (g_stderr_read_fd g) (g_stderr g)) false)
    (g_proc g) (g_pid g) (g_pgid g) now claim_mono false None false false false None None None false false false false false
    0 zero zero start_ticks {[ g_pid g := start_ticks ]}.

Definition _activate_gated_job (k : Z) (g : GatedSpawn) (claim_mono : pyfloat) (version : Z) : method (option job) :=
  recorded ← _pre_release_failure k g;
  failure ←
    match recorded with
    | Persisted t =>
        released ← release_gate (g_gate_fd g);
        if released : bool then now ← ask Monotonic; mret (inl (activated k g version t claim_mono now))
        else _ ← _abort_and_converge fuel g; mret (inr (py "unable to release gated start; job not started"))
    | NotRecorded message => mret (inr message)
    end;
  match failure with
  | inl j => mret (Some j)
  | inr message => _ ← _finalize_immediate k (not_run EXECUTION_ERROR_EXIT_CODE message); mret None
  end.

Definition _handle_completed_attempt (k : Z) (a : _StartAttempt) : method unit :=
  w ← self;
  result ← ask (FutureResult k);
  match result with
  | Raise _ =>
      when_connected
        (text ← ask CaughtText;
         _finalize_immediate k (not_run EXECUTION_ERROR_EXIT_CODE (py "unable to execute job: " ++ text)))
  | Ok g =>
      if negb (conn w) then _abort_and_reap_late fuel g
      else
        j ← _activate_gated_job k g (at_claim_mono a) (at_version a);
        match j with
        | None => mret tt
        | Some j =>
            _ ← update (fun w => register k (put_job k (set_last_heartbeat_at (at_claim_mono a) j) w));
            _publish_health_force s
        end
  end.

(** A future that is done already calls the callback at once. *)
Definition abandon_start (k : Z) (reason : pystr) : method unit :=
  _ ← _finalize_immediate k (not_run EXECUTION_ERROR_EXIT_CODE reason);
  late ← ask (InstallCallback k);
  _ ← match late with Some result => late_completion fuel result | None => mret tt end;
  ask (CancelFuture k).

Definition _handle_timed_out_attempt (k : Z) : method unit :=
  _ ← ask Monotonic; abandon_start k (py "spawn timed out; job not started").

Definition forget_start (k : Z) : method unit := update (fun w => set_pending_starts (od_del k (_pending_starts w)) w).

Definition _poll_pending_starts (now : pyfloat) : method unit :=
  w ← self;
  for_each (map fst (_pending_starts w)) (fun k =>
    w ← self;
    match od_get k (_pending_starts w) with
    | None => raise KeyError
    | Some a =>
        done ← ask (FutureDone k);
        if done : bool then _ ← forget_start k; _handle_completed_attempt k a
        else if float_leb (spawn_deadline_seconds s) (float_sub now (at_submitted_at a)) then
          _ ← forget_start k; _handle_timed_out_attempt k
        else mret tt
    end).

Definition _cleanup_pending_starts : method unit :=
  w ← self;
  for_each (map fst (_pending_starts w)) (fun k =>
    _ ← forget_start k; abandon_start k (py "worker shutting down before spawn completed")).

(** ** Claims *)

Definition _start_job (k : Z) (payload : pystr) (claim_mono : pyfloat) : method unit :=
  when_connected
    match parse_payload (JStr payload) with
    | Raise ProtocolError =>
        text ← ask CaughtText;
        _finalize_immediate k (not_run PROTOCOL_ERROR_EXIT_CODE (py "invalid job payload: " ++ text))
    | Raise x => raise x
    | Ok p =>
        if negb (str_eqb (jp_server p) (server s)) then
          theirs ← ask (Repr (jp_server p));
          ours ← ask (Repr (server s));
          _finalize_immediate k
            (not_run PROTOCOL_ERROR_EXIT_CODE (py "job server " ++ theirs ++ py " does not match this daemon's server " ++ ours))
        else
          let spec := mkSpec k (rq_cwd (jp_request p)) (rq_process (jp_request p)) in
          failure ← _preflight_failure spec;
          match failure with
          | Some result => _finalize_immediate k result
          | None =>
              now ← ask Monotonic;
              submitted ← ask (Submit spec);
              if submitted : bool
              then update (fun w => set_pending_starts (od_set k (mkAttempt spec claim_mono (jp_version p) now) (_pending_starts w)) w)
              else _finalize_immediate k (not_run EXECUTION_ERROR_EXIT_CODE (py "spawn pool full; job not started"))
          end
    end.

Definition _claim_batch : method unit :=
  when_connected
    (stop ← stopping;
     if stop : bool then mret tt
     else
       claim_mono ← ask Monotonic;
       w ← self;
       if float_ltb claim_mono (_next_claim_scan_at w) then mret tt
       else
         claimed ← ask_res (ClaimJobs (claim_batch_limit s));
         _ ← update (set_next_claim_scan_at
                       (match claimed with [] => float_add claim_mono EMPTY_CLAIM_SCAN_INTERVAL_SECONDS | _ => zero end));
         for_each claimed (fun '(k, payload) => _start_job k payload claim_mono)).

(** ** The connection *)

Definition _connect : method unit :=
  connected ← outcome (ask_res Connect);
  match connected with
  | Raise DatabaseError => _ ← update (set_conn false); _publish_health_force s
  | Raise x => raise x
  | Ok _ =>
      now ← ask Monotonic;
      _ ← ask_res (InstallDeadline (float_add now (db_operation_timeout_seconds s)));
      verified ← outcome (ask_res VerifyTable);
      match verified with
      | Raise SchemaInvariantError => _ ← ask CloseConnection; raise SchemaInvariantError
      | Raise x => raise x
      | Ok _ => _ ← update (set_conn true); _publish_health_force s
      end
  end.

Definition _discard_db_connection : method unit :=
  _ ← when_connected (ask CloseConnection); update (set_conn false).

Definition _enter_outage : method unit :=
  _ ← _discard_db_connection; _ ← update (set_next_reconnect_at zero); _publish_health_force s.

Definition _outage_phase : method unit :=
  _ ← _enforce_lease_safety s;
  now ← ask Monotonic;
  w ← self;
  if float_ltb now (_next_reconnect_at w) then mret tt
  else
    _ ← _connect;
    w ← self;
    if conn w
    then update (fun w => set_next_reaper_at zero (set_next_lease_refresh_at zero (set_next_recovery_at zero w)))
    else now ← ask Monotonic; update (set_next_reconnect_at (float_add now (poll_pause s))).

Definition install_operation_deadline (deadline : pyfloat) : method unit := when_connected (ask_res (InstallDeadline deadline)).

(** ** A turn *)

(** The origins of the heartbeats the deadline must not outlive. *)
Definition heartbeat_origins (w : worker) : list pyfloat :=
  flat_map (fun k => match objects w !! k with
                     | Some j => if negb (completed j) && negb (term_sent j) && float_ltb zero (last_heartbeat_at j)
                                 then [last_heartbeat_at j] else []
                     | None => []
                     end) (active w).

Definition _operation_deadline (w : worker) (now_mono : pyfloat) : pyfloat := operation_deadline_at s now_mono (heartbeat_origins w).

(** [body], and its next time from the clock after it. *)
Definition scheduled (now due : pyfloat) (pause : pyfloat) (put : pyfloat -> worker -> worker) (body : method unit) : method unit :=
  if float_ltb now due then mret tt
  else _ ← body; t ← ask Monotonic; update (put (float_add t pause)).

Definition _db_phase (now : pyfloat) : method unit :=
  w ← self;
  _ ← scheduled now (_next_recovery_at w) (lease_recovery_interval_seconds s) set_next_recovery_at _run_recovery;
  w ← self;
  _ ← (if bool_decide (active w = []) then mret tt
       else scheduled now (_next_lease_refresh_at w) (lease_refresh_interval_seconds s) set_next_lease_refresh_at _refresh_leases);
  w ← self;
  _ ← scheduled now (_next_cancel_scan_at w) (poll_pause s) set_next_cancel_scan_at _discover_cancellations;
  stop ← stopping;
  _ ← (if stop : bool then mret tt else _claim_batch);
  _ ← _publish_all s uuid4 now;
  _ ← _finalize_completed s uuid4;
  _ ← _retry_terminalizations;
  w ← self;
  if float_ltb now (_next_reaper_at w) then mret tt
  else
    finally _run_reaper
      (t ← ask Monotonic; update (set_next_reaper_at (float_add t (lease_recovery_interval_seconds s)))).

Definition _tick (now : pyfloat) : method unit :=
  _ ← _service_processes s;
  _ ← _drain_captures s;
  _ ← _enforce_spool_bounds s;
  _ ← _poll_pending_starts now;
  stop ← stopping;
  if stop : bool then mret tt
  else
    w ← self;
    if negb (conn w) then _outage_phase
    else
      _ ← _enforce_lease_safety s;
      w ← self;
      _ ← install_operation_deadline (_operation_deadline w now);
      _db_phase now.

(** ** Shutdown *)

(** [all(self._observe_and_escalate(job, time.monotonic()) for job in ...)] *)
Fixpoint all_gone (ks : list Z) : method bool :=
  match ks with
  | [] => mret true
  | k :: ks =>
      now ← ask Monotonic;
      ended ← _observe_and_escalate s k now;
      if ended : bool then all_gone ks else mret false
  end.

Fixpoint drain_groups (fuel : nat) (deadline : pyfloat) : method unit :=
  match fuel with
  | O => raise OutOfFuel
  | S fuel =>
      now ← ask Monotonic;
      if negb (float_ltb now deadline) then mret tt
      else
        _ ← _drain_captures s;
        _ ← _refresh_leases_quietly;
        w ← self;
        ended ← all_gone (active w);
        if ended : bool then mret tt
        else _ ← ask (Sleep (float_of_ratio false 1 20)); drain_groups fuel deadline
  end.

(** The jobs of which a member is proven alive. *)
Fixpoint alive_jobs (ks : list Z) : method (list Z) :=
  match ks with
  | [] => mret []
  | k :: ks =>
      alive ← _owned_group_alive k;
      others ← alive_jobs ks;
      mret (if alive : bool then k :: others else others)
  end.

(** [all(not _owned_group_alive(job) for job in ...)] *)
Fixpoint none_alive (ks : list Z) : method bool :=
  match ks with
  | [] => mret true
  | k :: ks => alive ← _owned_group_alive k; if alive : bool then mret false else none_alive ks
  end.

Definition _drain_active_groups : method bool :=
  now ← ask Monotonic;
  _ ← drain_groups fuel (float_add now (cancel_grace_seconds s));
  _ ← _drain_captures s;
  w ← self;
  _ ← for_each (active w) (fun k =>
        now ← ask Monotonic;
        ended ← _observe_and_escalate s k now;
        if ended : bool then mret tt else signal_kill k);
  _ ← for_each (active w) (fun k => j ← job_of k; ask (Wait (proc j) (cancel_grace_seconds s)));
  _ ← _drain_captures s;
  none_alive (active w).

(** A job that no other reason stopped was stopped by the shutdown. *)
Definition stopped_by_shutdown (j : job) : job :=
  if negb (completed j) && bool_decide (stop_reason_of j = None)
  then set_cancellation_note (Some (_stop_note SHUTDOWN)) (set_stop_reason (Some SHUTDOWN) j) else j.

(** The loop of [_finalize_all_for_shutdown]; it ends early when the database is lost. *)
Fixpoint finalize_jobs (retained : list Z) (ks : list Z) : method unit :=
  match ks with
  | [] => mret tt
  | k :: ks =>
      j ← job_of k;
      if finalized j || bool_decide (pgid j ∈ retained) then finalize_jobs retained ks
      else
        _ ← change k stopped_by_shutdown;
        r ← outcome (finalize_completed_job_bounded s uuid4 k);
        match r with
        | Ok _ => finalize_jobs retained ks
        | Raise DbOperationDeadlineError => _discard_db_connection
        | Raise DatabaseError =>
            lost ← _is_connectivity_error;
            if lost : bool then _discard_db_connection else finalize_jobs retained ks
        | Raise x => raise x
        end
  end.

Definition _finalize_all_for_shutdown (retained : list Z) : method unit :=
  when_connected (w ← self; finalize_jobs retained (active w)).

Definition pgids_of (w : worker) (ks : list Z) : list Z := omap (fun k => pgid <$> objects w !! k) ks.

Definition _shutdown_finalize : method unit :=
  now ← ask Monotonic;
  _ ← install_operation_deadline (float_add now (db_operation_timeout_seconds s));
  w ← self;
  _ ← for_each (active w) (fun k => j ← job_of k; if completed j || term_sent j then mret tt else request_stop k SHUTDOWN);
  drained ← _drain_active_groups;
  if drained : bool then
    written ← outcome (ask_res (WriteSentinel (worker_incarnation s)));
    match written with
    | Ok _ | Raise OSError => _finalize_all_for_shutdown []
    | Raise x => raise x
    end
  else
    w ← self;
    surviving ← alive_jobs (active w);
    _finalize_all_for_shutdown (pgids_of w surviving).

Definition _cleanup_all_files : method unit := w ← self; for_each (active w) cleanup_job.

Definition _shutdown : method unit :=
  _ ← ask StopCollector;
  _ ← _cleanup_pending_starts;
  _ ← ask ShutDownPool;
  finally _shutdown_finalize (_ ← _cleanup_all_files; _ ← _discard_db_connection; ask WriteHealth).

(** ** The loop *)

(** A turn of [run] and what its handlers do. *)
Definition guarded_tick : method unit :=
  now ← ask Monotonic;
  r ← outcome (_tick now);
  match r with
  | Ok _ => mret tt
  | Raise DbOperationDeadlineError => _ ← _enter_outage; _enforce_lease_safety s
  | Raise DatabaseError =>
      lost ← _is_connectivity_error;
      if lost : bool then _ ← _enter_outage; _enforce_lease_safety s else update (set_stopping true)
  | Raise x => raise x
  end.

Fixpoint turns (n : nat) : method unit :=
  match n with
  | O => raise OutOfFuel
  | S n =>
      stop ← stopping;
      if stop : bool then mret tt
      else
        _ ← guarded_tick;
        _ ← _publish_health s false;
        _ ← ask (Sleep (process_poll_interval_seconds s));
        turns n
  end.

Definition run (n : nat) : method unit :=
  _ ← _connect;
  _ ← ask StartCollector;
  _ ← _publish_health s true;
  _ ← turns n;
  _shutdown.
End supervisor.
