(* ===== verification/WorkerRuns.v ===== *)
(** What the methods of the worker keep, for every monitor of its traces that is
    indifferent to most questions ([ordinary]) and most changes ([steady]). *)

From S2P Require Import Prelude PyStr PyNum Json Uuid ProcFs Protocol Output Capture Programs WorkerSettings JobQueue WorkerWorld WorkerGroups WorkerJobs WorkerStarts WorkerLeases WorkerFinalization WorkerLoop.
From stdpp Require Import gmap.

#[local] Open Scope Z_scope.
#[local] Arguments py : simpl never.

Abbreviation exchange := (Programs.exchange call).

(** The questions that no monitor below looks at. *)
Definition ordinary {B : Type} (c : call B) : bool :=
  match c with
  | Monotonic | Proc | OpenPidfd _ | SendSignal _ _ | Poll _ | KillGroup _ _ | WriteGate _ | FutureResult _ | InstallCallback _
  | PersistProcess _ _ _ _ | ClaimJobs _ | RefreshLeases _ | OwnedRunningRows _ => false
  | _ => true
  end.

(** A change of a job that leaves its identity, its ledger and its lease alone, and
    takes back neither its end nor the request to stop it. *)
Definition steady (f : job -> job) : Prop :=
  forall j, pgid (f j) = pgid j /\ start_ticks (f j) = start_ticks j /\ owned_members (f j) = owned_members j
    /\ last_heartbeat_at (f j) = last_heartbeat_at j
    /\ (completed j = true -> completed (f j) = true) /\ (term_sent j = true -> term_sent (f j) = true).

Definition changed (k : Z) (f : job -> job) (w : worker) : worker :=
  match objects w !! k with Some j => put_job k (f j) w | None => w end.

Create HintDb worker discriminated.
#[export] Hint Constants Opaque : worker.

Lemma keeps_for_each {memory W A : Type} (step : W -> forall B : Type, call B -> B -> option W) (I : memory -> W -> Prop) (l : list A) body :
  (forall a, keeps step I (body a)) -> keeps step I (for_each l body).
Proof. intros H. induction l as [|a l IH]; [apply keeps_ret|]. by apply keeps_bind. Qed.

Lemma keeps_for_each_in {memory W A : Type} (step : W -> forall B : Type, call B -> B -> option W) (I : memory -> W -> Prop) (l : list A) body :
  (forall a, In a l -> keeps step I (body a)) -> keeps step I (for_each l body).
Proof.
  intros H. induction l as [|a l IH]; [apply keeps_ret|]. apply keeps_bind; [apply H; by left|]. intros _. apply IH. intros b Hb. apply H. by right.
Qed.

Section keeps.
Context {W : Type} (step : W -> forall B : Type, call B -> B -> option W).

Abbreviation condition := (worker -> W -> Prop).
#[local] Abbreviation keeps := (keeps (memory := worker) step).
#[local] Abbreviation harmless := (harmless (memory := worker) step).

(** What a monitor must not mind for a method that starts nothing to keep [I]. *)
Record calm (I : condition) : Prop := {
  c_ordinary {B : Type} (c : call B) : ordinary c = true -> harmless I c;
  c_monotonic : harmless I Monotonic;
  c_poll p : harmless I (Poll p);
  c_change k f d w : steady f -> I d w -> I (changed k f d) w;
  c_other f d w : objects (f d) = objects d -> _pending_starts (f d) = _pending_starts d -> I d w -> I (f d) w;
  c_signal k sig : keeps I (_signal_owned_group k sig);
  c_alive k : keeps I (_owned_group_alive k);
}.

Section calm.
Context (I : condition) (HI : calm I).

Lemma keeps_ordinary {B : Type} (c : call B) : ordinary c = true -> keeps I (ask c).
Proof. intros H. by apply keeps_ask, (c_ordinary I HI). Qed.
Lemma keeps_ordinary_res {B : Type} (c : call (res B)) : ordinary c = true -> keeps I (ask_res c).
Proof. intros H. by apply keeps_ask_res, (c_ordinary I HI). Qed.
Lemma keeps_monotonic : keeps I (ask Monotonic).
Proof. by apply keeps_ask, (c_monotonic I HI). Qed.
Lemma keeps_poll p : keeps I (ask (Poll p)).
Proof. by apply keeps_ask, (c_poll I HI). Qed.
Lemma keeps_job_of k : keeps I (job_of k).
Proof. unfold job_of. apply keeps_bind; [apply keeps_self|]. intros w. destruct (objects w !! k); [apply keeps_ret|apply keeps_raise]. Qed.
Lemma keeps_change k f : steady f -> keeps I (change k f).
Proof. intros H. apply keeps_update. intros d w. by apply (c_change I HI). Qed.
Lemma keeps_other f : (forall d, objects (f d) = objects d) -> (forall d, _pending_starts (f d) = _pending_starts d) -> keeps I (update f).
Proof. intros H1 H2. apply keeps_update. intros d w. by apply (c_other I HI). Qed.
End calm.
End keeps.

(** Walk a method's text. *)
Ltac steadily := intros ?; repeat case_match; split_and!; try (intros ?); done.
Ltac walk_step :=
  first
    [ lazymatch goal with
      | |- keeps _ _ (mbind _ _) => apply keeps_bind; [|intros ?]
      | |- keeps _ _ (for_each _ _) => apply keeps_for_each; intros ?
      | |- keeps _ _ (mret _) => apply keeps_ret
      | |- keeps _ _ (raise _) => apply keeps_raise
      | |- keeps _ _ self => apply keeps_self
      | |- keeps _ _ (outcome _) => apply keeps_outcome
      | |- keeps _ _ (finally _ _) => apply keeps_finally
      | |- keeps _ _ (ask Monotonic) => eapply keeps_monotonic; eassumption
      | |- keeps _ _ (ask (Poll _)) => eapply keeps_poll; eassumption
      | |- keeps _ _ (ask _) => eapply keeps_ordinary; [eassumption|reflexivity]
      | |- keeps _ _ (ask_res _) => eapply keeps_ordinary_res; [eassumption|reflexivity]
      | |- keeps _ _ (job_of _) => apply keeps_job_of
      | |- keeps _ _ (change _ _) => eapply keeps_change; [eassumption|solve [steadily]]
      | |- keeps _ _ (update _) => eapply keeps_other; [eassumption|solve [intros; repeat case_match; reflexivity]..]
      | |- keeps _ _ (match ?x with _ => _ end) => destruct x
      | |- keeps _ _ (let _ := _ in _) => cbv zeta
      end
    | solve [eauto 4 with worker] ].
Ltac walk := repeat walk_step.
#[export] Hint Resolve c_signal c_alive : worker.

(** ** Groups, when the monitor minds none of their questions *)

Record unconcerned {memory W : Type} (step : W -> forall B : Type, call B -> B -> option W) (I : memory -> W -> Prop) : Prop := {
  u_proc : harmless step I Proc;
  u_open p : harmless step I (OpenPidfd p);
  u_send fd sig : harmless step I (SendSignal fd sig);
  u_close fd : harmless step I (Close fd);
}.

Section ledger.
Context {W : Type} (step : W -> forall B : Type, call B -> B -> option W) (J : gmap Z Z -> W -> Prop).
Context (HJ : unconcerned step J) (Hput : forall l l' w, J l w -> J l' w).

Ltac walk_ledger :=
  repeat first
    [ keep_step ltac:(first [by apply (u_proc _ _ HJ)|by apply (u_open _ _ HJ)|by apply (u_send _ _ HJ)|by apply (u_close _ _ HJ)])
                ltac:(by eapply Hput)
    | apply keeps_for_each; intros ?
    | solve [eauto 3 with worker] ].

Lemma proven_ticks_plain p m : keeps step J (_proven_member_ticks p m).
Proof. unfold _proven_member_ticks, start_ticks_of, _process_job_id. walk_ledger. Qed.
#[local] Hint Resolve proven_ticks_plain : worker.
Lemma classify_plain g t m : keeps step J (_classify_group g t m).
Proof.
  assert (forall l, keeps step J (proven_members l g m)) as Hp by (induction l as [|p l IH]; cbn [proven_members]; walk_ledger).
  unfold _classify_group, _ledger_owned_members, record_member, group_has_members, start_ticks_of, _group_member_pids. walk_ledger; apply Hp.
Qed.
Lemma emit_plain g sig m v : keeps step J (emit g sig m v).
Proof.
  assert (forall l, keeps step J (_signal_owned_pids l sig m)) as Hs.
  { induction l as [|p l IH]; cbn [_signal_owned_pids]; unfold _pin_and_signal, start_ticks_of; walk_ledger. }
  unfold emit, _group_member_pids. walk_ledger; apply Hs.
Qed.
End ledger.

Section plain.
Context {W : Type} (step : W -> forall B : Type, call B -> B -> option W) (I : worker -> W -> Prop).
Context (HI : unconcerned step I) (Hput : forall k l d w, I d w -> I (put_ledger k l d) w).

Lemma on_ledger_plain {A : Type} k (m : with_ledger A) :
  (forall d, keeps step (fun (_ : gmap Z Z) w => I d w) m) -> keeps step I (on_ledger k m).
Proof.
  intros H. apply watched_zoom. intros d. eapply watched_mono; [apply (H d)|by intros l w [_ ?]|].
  intros r l w. apply Hput.
Qed.

Lemma unconcerned_at d : unconcerned step (fun (_ : gmap Z Z) w => I d w).
Proof. split; intros; intros l w b Hw; [apply (u_proc _ _ HI)|apply (u_open _ _ HI)|apply (u_send _ _ HI)|apply (u_close _ _ HI)]; exact Hw. Qed.

Lemma view_plain k j : keeps step I (_owned_group_view k j).
Proof. apply on_ledger_plain. intros d. apply classify_plain; [apply unconcerned_at|done]. Qed.
Lemma signal_plain k sig : keeps step I (_signal_owned_group k sig).
Proof.
  unfold _signal_owned_group. apply keeps_bind; [apply keeps_job_of|intros j]. apply keeps_bind; [apply view_plain|intros v].
  apply keeps_bind; [|intros; apply keeps_ret]. apply on_ledger_plain. intros d. apply emit_plain, unconcerned_at.
Qed.
Lemma alive_plain k : keeps step I (_owned_group_alive k).
Proof.
  unfold _owned_group_alive. apply keeps_bind; [apply keeps_job_of|intros j]. apply keeps_bind; [apply view_plain|intros; apply keeps_ret].
Qed.
End plain.

(** The methods of the worker that keep every condition of a calm monitor: those of
    its jobs, its leases, its finalization and its shutdown; and the whole loop, given
    that the starts of jobs and the claims keep it. *)

Section calm.
Context {W : Type} (step : W -> forall B : Type, call B -> B -> option W) (I : worker -> W -> Prop) (HI : calm step I).
Context (s : Settings) (uuid4 : nat -> Z).

Abbreviation K := (keeps step I).

(** ** Jobs *)

Lemma stopping_kept : K stopping.
Proof. unfold stopping. walk. Qed.
#[local] Hint Resolve stopping_kept : worker.
Lemma request_stop_kept k r : K (request_stop k r).
Proof. unfold request_stop. walk. Qed.
#[local] Hint Resolve request_stop_kept : worker.
Lemma group_reap_kept k : K (request_group_reap k).
Proof. unfold request_group_reap. walk. Qed.
#[local] Hint Resolve group_reap_kept : worker.
Lemma signal_kill_kept k : K (signal_kill k).
Proof. unfold signal_kill, note_killed. walk. Qed.
#[local] Hint Resolve signal_kill_kept : worker.
Lemma gone_kept k : K (gone k).
Proof. unfold gone. walk. Qed.
#[local] Hint Resolve gone_kept : worker.
Lemma observe_kept k now : K (_observe_and_escalate s k now).
Proof. unfold _observe_and_escalate, observe_exit, reap_leftover, escalate. walk. Qed.
#[local] Hint Resolve observe_kept : worker.
Lemma service_kept : K (_service_processes s).
Proof. unfold _service_processes. walk. Qed.
#[local] Hint Resolve service_kept : worker.
Lemma pipes_kept cap : K (pipes_of cap).
Proof. unfold pipes_of. walk. Qed.
#[local] Hint Resolve pipes_kept : worker.
Lemma drain_active_kept k n b : K (_drain_active_stream k n b).
Proof. unfold _drain_active_stream. walk. Qed.
#[local] Hint Resolve drain_active_kept : worker.
Lemma drain_completed_kept k b : K (_drain_completed_streams k b).
Proof. unfold _drain_completed_streams. walk. Qed.
#[local] Hint Resolve drain_completed_kept : worker.
Lemma isolate_kept l : K (isolate_bad_fds l).
Proof. unfold isolate_bad_fds. walk. Qed.
#[local] Hint Resolve isolate_kept : worker.
Lemma drain_readable_kept r b l : K (drain_readable r b l).
Proof. unfold drain_readable. walk. Qed.
#[local] Hint Resolve drain_readable_kept : worker.
Lemma drain_captures_kept : K (_drain_captures s).
Proof. unfold _drain_captures. walk. Qed.
#[local] Hint Resolve drain_captures_kept : worker.
Lemma spool_bounds_kept : K (_enforce_spool_bounds s).
Proof. unfold _enforce_spool_bounds. walk. Qed.
#[local] Hint Resolve spool_bounds_kept : worker.
Lemma cleanup_job_kept k : K (cleanup_job k).
Proof. unfold cleanup_job, close_stream. walk. Qed.
#[local] Hint Resolve cleanup_job_kept : worker.
Lemma untrack_kept k : K (untrack k).
Proof. unfold untrack. walk. Qed.
#[local] Hint Resolve untrack_kept : worker.
Lemma untrack_lost_kept k : K (_untrack_lost_job k).
Proof. apply untrack_kept. Qed.
#[local] Hint Resolve untrack_lost_kept : worker.
Lemma preflight_kept spec : K (_preflight_failure spec).
Proof. unfold _preflight_failure. walk. Qed.
#[local] Hint Resolve preflight_kept : worker.

(** ** Leases *)

Lemma health_kept b : K (_publish_health s b).
Proof. unfold _publish_health. walk. Qed.
#[local] Hint Resolve health_kept : worker.
Lemma health_force_kept : K (_publish_health_force s).
Proof. apply health_kept. Qed.
#[local] Hint Resolve health_force_kept : worker.
Lemma connectivity_kept : K _is_connectivity_error.
Proof. unfold _is_connectivity_error. walk. Qed.
#[local] Hint Resolve connectivity_kept : worker.
Lemma quarantine_job_kept k r : K (_quarantine_job k r).
Proof. unfold _quarantine_job. walk. Qed.
#[local] Hint Resolve quarantine_job_kept : worker.
Lemma when_connected_kept m : K m -> K (when_connected m).
Proof. intros H. unfold when_connected. walk. Qed.
Lemma enforce_lease_kept : K (_enforce_lease_safety s).
Proof. unfold _enforce_lease_safety. walk. Qed.
#[local] Hint Resolve enforce_lease_kept : worker.
Lemma lose_row_kept k : K (lose_row k).
Proof. unfold lose_row. walk. Qed.
#[local] Hint Resolve lose_row_kept : worker.
(** The heartbeat changes nothing else of a job that [I] minds. *)
Lemma refresh_plain :
  (forall ids, harmless step I (RefreshLeases ids)) ->
  (forall k t d w, I d w -> I (changed k (set_last_heartbeat_at t) d) w) -> K _refresh_leases.
Proof.
  intros Hr Ht. unfold _refresh_leases, when_connected, apply_lease_refresh. walk.
  - by apply keeps_ask_res.
  - apply keeps_update. intros d w. apply Ht.
Qed.

Context (Hrefresh : K _refresh_leases).
#[local] Hint Resolve Hrefresh : worker.

Lemma refresh_quietly_kept : K _refresh_leases_quietly.
Proof. unfold _refresh_leases_quietly, suppressing. walk. Qed.
#[local] Hint Resolve refresh_quietly_kept : worker.
Lemma recovery_kept : K _run_recovery.
Proof. unfold _run_recovery, when_connected, if_active. walk. Qed.
#[local] Hint Resolve recovery_kept : worker.
Lemma reaper_kept : K _run_reaper.
Proof. unfold _run_reaper, when_connected. walk. Qed.
#[local] Hint Resolve reaper_kept : worker.
Lemma cancellations_kept : K _discover_cancellations.
Proof. unfold _discover_cancellations, when_connected, if_active. walk. Qed.
#[local] Hint Resolve cancellations_kept : worker.
Lemma retry_rows_kept now ids : K (retry_rows now ids).
Proof. induction ids as [|k ids IH]; cbn [retry_rows]; walk. Qed.
#[local] Hint Resolve retry_rows_kept : worker.
Lemma retry_kept : K _retry_terminalizations.
Proof. unfold _retry_terminalizations. walk. Qed.
#[local] Hint Resolve retry_kept : worker.

(** ** Finalization *)

Lemma quarantine_kept k r : K (quarantine k r).
Proof. unfold quarantine. walk. Qed.
#[local] Hint Resolve quarantine_kept : worker.
Lemma publish_output_kept k l now b : K (publish_output s uuid4 k l now b).
Proof. unfold publish_output. walk. Qed.
#[local] Hint Resolve publish_output_kept : worker.
Lemma finalize_one_kept k : K (_finalize_one s k).
Proof. unfold _finalize_one. walk. Qed.
#[local] Hint Resolve finalize_one_kept : worker.
Lemma drop_job_kept k : K (drop_job k).
Proof. unfold drop_job. walk. Qed.
#[local] Hint Resolve drop_job_kept : worker.
Lemma fail_closed_kept k : K (_fail_capture_closed s k).
Proof. unfold _fail_capture_closed. walk. Qed.
#[local] Hint Resolve fail_closed_kept : worker.
Lemma publish_job_kept k now : K (publish_job_output s uuid4 k now).
Proof. unfold publish_job_output, when_connected. walk. Qed.
#[local] Hint Resolve publish_job_kept : worker.
Lemma publish_all_kept now : K (_publish_all s uuid4 now).
Proof. unfold _publish_all, when_connected. walk. Qed.
#[local] Hint Resolve publish_all_kept : worker.
Lemma publish_bounded_kept k now : K (_publish_bounded s uuid4 k now).
Proof. unfold _publish_bounded. walk. Qed.
#[local] Hint Resolve publish_bounded_kept : worker.
Lemma publish_or_fail_kept k now : K (_publish_or_fail s uuid4 k now).
Proof. unfold _publish_or_fail. walk. Qed.
#[local] Hint Resolve publish_or_fail_kept : worker.
Lemma abandon_kept k b : K (_abandon_open_capture_streams s k b).
Proof.
  assert (forall names, K (abandon_streams s k b names)) as Hn.
  { induction names as [|n names IH]; cbn [abandon_streams]; unfold abandon_stream; walk. }
  unfold _abandon_open_capture_streams. walk; apply Hn.
Qed.
#[local] Hint Resolve abandon_kept : worker.
Lemma cycle_turn_kept k b t now : K (_bounded_cycle_turn s uuid4 k b t now).
Proof. unfold _bounded_cycle_turn, _drain_or_fail_closed. walk. Qed.
#[local] Hint Resolve cycle_turn_kept : worker.
Lemma cycle_turns_kept n k b t now : K (cycle_turns s uuid4 n k b t now).
Proof. induction n as [|n IH]; cbn [cycle_turns]; walk. Qed.
#[local] Hint Resolve cycle_turns_kept : worker.
Lemma finalize_bounded_kept k : K (finalize_completed_job_bounded s uuid4 k).
Proof. unfold finalize_completed_job_bounded, _bounded_finalization_cycle, when_connected. walk. Qed.
#[local] Hint Resolve finalize_bounded_kept : worker.
Lemma cleanup_quarantined_kept now ks : K (cleanup_quarantined now ks).
Proof. induction ks as [|k ks IH]; cbn [cleanup_quarantined]; walk. Qed.
#[local] Hint Resolve cleanup_quarantined_kept : worker.
Lemma finalize_completed_kept : K (_finalize_completed s uuid4).
Proof. unfold _finalize_completed, _cleanup_quarantined_jobs, _try_finalize_one_completed, when_connected. walk. Qed.
#[local] Hint Resolve finalize_completed_kept : worker.

(** ** Connection, turn, shutdown *)

Lemma finalize_immediate_kept k r : K (_finalize_immediate k r).
Proof. unfold _finalize_immediate, when_connected. walk. Qed.
#[local] Hint Resolve finalize_immediate_kept : worker.
Lemma connect_kept : K (_connect s).
Proof. unfold _connect. walk. Qed.
#[local] Hint Resolve connect_kept : worker.
Lemma disconnect_kept : K _discard_db_connection.
Proof. unfold _discard_db_connection, when_connected. walk. Qed.
#[local] Hint Resolve disconnect_kept : worker.
Lemma outage_kept : K (_enter_outage s).
Proof. unfold _enter_outage. walk. Qed.
#[local] Hint Resolve outage_kept : worker.
Lemma outage_phase_kept : K (_outage_phase s).
Proof. unfold _outage_phase. walk. Qed.
#[local] Hint Resolve outage_phase_kept : worker.
Lemma install_deadline_kept t : K (install_operation_deadline t).
Proof. unfold install_operation_deadline, when_connected. walk. Qed.
#[local] Hint Resolve install_deadline_kept : worker.
Lemma drain_groups_kept fuel t : K (drain_groups s fuel t).
Proof.
  assert (forall ks, K (all_gone s ks)) as Hg by (induction ks as [|k ks IH]; cbn [all_gone]; walk).
  induction fuel as [|fuel IH]; cbn [drain_groups]; walk; apply Hg.
Qed.
#[local] Hint Resolve drain_groups_kept : worker.
Lemma alive_jobs_kept ks : K (alive_jobs ks).
Proof. induction ks as [|k ks IH]; cbn [alive_jobs]; walk. Qed.
#[local] Hint Resolve alive_jobs_kept : worker.
Lemma none_alive_kept ks : K (none_alive ks).
Proof. induction ks as [|k ks IH]; cbn [none_alive]; walk. Qed.
#[local] Hint Resolve none_alive_kept : worker.
Lemma drain_active_groups_kept fuel : K (_drain_active_groups s fuel).
Proof. unfold _drain_active_groups. walk. Qed.
#[local] Hint Resolve drain_active_groups_kept : worker.
Lemma finalize_jobs_kept l ks : K (finalize_jobs s uuid4 l ks).
Proof. induction ks as [|k ks IH]; cbn [finalize_jobs]; unfold stopped_by_shutdown; walk. Qed.
#[local] Hint Resolve finalize_jobs_kept : worker.
Lemma shutdown_finalize_kept fuel : K (_shutdown_finalize s uuid4 fuel).
Proof. unfold _shutdown_finalize, _finalize_all_for_shutdown, when_connected. walk. Qed.
#[local] Hint Resolve shutdown_finalize_kept : worker.

(** Aborting starts, when [I] minds no kill of a group. *)
Section aborts.
Context (fuel : nat) (Hkill : forall g sig, harmless step I (KillGroup g sig)).

Lemma kill_kept g sig : K (_signal_group g sig).
Proof. unfold _signal_group. walk. by apply keeps_ask_res. Qed.
#[local] Hint Resolve kill_kept : worker.
Lemma abort_kept g : K (_abort_and_converge fuel g).
Proof.
  assert (forall n t p q, K (kill_gated n t p q)) as H1 by (intros n t p q; induction n as [|n IH]; cbn [kill_gated]; walk).
  assert (forall n p q, K (kill_until_reaped n p q)) as H2 by (intros n p q; induction n as [|n IH]; cbn [kill_until_reaped]; walk).
  unfold _abort_and_converge, abort_gated_start, await_gated_group_gone, close_all. walk; first [apply H1|apply H2].
Qed.
#[local] Hint Resolve abort_kept : worker.
Lemma gate_release_kept fd : harmless step I (WriteGate fd) -> K (release_gate fd).
Proof. intros H. unfold release_gate. walk. by apply keeps_ask_res. Qed.
Lemma abandon_start_kept k r : harmless step I (InstallCallback k) -> K (abandon_start fuel k r).
Proof. intros H. unfold abandon_start, late_completion, _abort_and_reap_late. walk. by apply keeps_ask. Qed.
End aborts.

(** Claiming, when [I] does not mind the statement, nor what starts are pending. *)
Lemma claim_plain :
  (forall n, harmless step I (ClaimJobs n)) -> (forall l d w, I d w -> I (set_pending_starts l d) w) -> K (_claim_batch s).
Proof.
  intros Hc Hp. unfold _claim_batch, _start_job, when_connected. walk.
  - by apply keeps_ask_res.
  - apply keeps_update. intros d w. apply Hp.
Qed.

(** ** The loop *)

Context (fuel : nat) (Hpoll : forall now, K (_poll_pending_starts s fuel now)) (Hclaim : K (_claim_batch s)) (Hcleanup : K (_cleanup_pending_starts fuel)).
#[local] Hint Resolve Hpoll Hclaim Hcleanup : worker.

Lemma db_phase_kept now : K (_db_phase s uuid4 now).
Proof. unfold _db_phase, scheduled. walk. Qed.
#[local] Hint Resolve db_phase_kept : worker.
Lemma tick_kept now : K (_tick s uuid4 fuel now).
Proof. unfold _tick. walk. Qed.
#[local] Hint Resolve tick_kept : worker.
Lemma turns_kept n : K (turns s uuid4 fuel n).
Proof. induction n as [|n IH]; cbn [turns]; unfold guarded_tick; walk. Qed.
#[local] Hint Resolve turns_kept : worker.
Lemma shutdown_kept : K (_shutdown s uuid4 fuel).
Proof. unfold _shutdown, _cleanup_all_files. walk. Qed.
#[local] Hint Resolve shutdown_kept : worker.
Lemma run_kept n : K (run s uuid4 fuel n).
Proof. unfold run. walk. Qed.
End calm.
