(* ===== verification/WorkerGate.v ===== *)
(** The gate of a start: it is released only once the row of the job has recorded the
    exact identity of the process behind it, and a group is killed by its number only
    while that process is an unreleased, unreaped child. *)

From S2P Require Import Prelude PyStr PyNum Json Uuid ProcFs Protocol Output Capture WorkerSettings JobQueue Programs WorkerWorld WorkerGroups WorkerJobs WorkerStarts WorkerLeases WorkerFinalization WorkerLoop WorkerRuns.
From stdpp Require Import gmap.

#[local] Open Scope Z_scope.
#[local] Arguments py : simpl never.

Module Gate.
(** The start last taken from its future, the last reading of /proc, whether the
    identity of the start has been recorded, whether its gate has been written, and
    the [Popen] last seen running. *)
Record state := mkGate {
  start : option (Z * GatedSpawn);
  seen : option procfs;
  recorded : bool;
  released : bool;
  running : option Z;
}.

Definition initial : state := mkGate None None false false None.

Definition taken (k : Z) (g : GatedSpawn) (w : state) : state := mkGate (Some (k, g)) (seen w) false false None.

(** [pid], [pgid] and [ticks] are those of the start of [k], as /proc shows it. *)
Definition identified (w : state) (k pid pgid ticks : Z) : bool :=
  match start w, seen w with
  | Some (k', g), Some pf =>
      (k =? k') && (pid =? g_pid g) && (pgid =? g_pgid g) && (0 <? ticks) && opt_eqb (proc_start_ticks pf pid) (Some ticks) && negb (released w)
  | _, _ => false
  end.

Definition releasable (w : state) (fd : Z) : bool :=
  match start w with Some (_, g) => (fd =? g_gate_fd g) && recorded w && negb (released w) | None => false end.

Definition killable (w : state) (pgid : Z) : bool :=
  match start w with Some (_, g) => (pgid =? g_pgid g) && negb (released w) && opt_eqb (running w) (Some (g_proc g)) | None => false end.

Definition step (w : state) (B : Type) (c : call B) : B -> option state :=
  match c in call B return B -> option state with
  | FutureResult k => fun r => Some (match r with Ok g => taken k g w | Raise _ => w end)
  | InstallCallback k => fun r => Some (match r with Some (Ok g) => taken k g w | _ => w end)
  | Proc => fun pf => Some (mkGate (start w) (Some pf) (recorded w) (released w) (running w))
  | Poll p => fun code => Some (mkGate (start w) (seen w) (recorded w) (released w) (match code with None => Some p | Some _ => None end))
  | PersistProcess k pid pgid ticks => fun r =>
      if identified w k pid pgid ticks
      then Some (mkGate (start w) (seen w) (match r with Ok true => true | _ => false end) (released w) (running w)) else None
  | WriteGate fd => fun r =>
      if releasable w fd
      then Some (mkGate (start w) (seen w) (recorded w) (match r with Ok _ => true | Raise _ => released w end) (running w)) else None
  | KillGroup pgid _ => fun _ => if killable w pgid then Some w else None
  | _ => fun _ => Some w
  end.

Abbreviation condition := (worker -> state -> Prop).
Definition any : condition := fun _ _ => True.
(** The start of [k] is taken and its gate not written. *)
Definition holding (k : Z) (g : GatedSpawn) : condition := fun _ w => start w = Some (k, g) /\ released w = false.
Definition holding_live (k : Z) (g : GatedSpawn) : condition := fun d w => holding k g d w /\ running w = Some (g_proc g).

Lemma ordinary_step w (B : Type) (c : call B) b : ordinary c = true -> step w B c b = Some w.
Proof. by destruct c. Qed.

Lemma any_unconcerned : unconcerned step any.
Proof. split; intros; intros d w b _; by eexists. Qed.

Lemma any_calm : calm step any.
Proof.
  split; try done.
  - intros B c H d w b _. exists w. by rewrite ordinary_step.
  - intros d w b _. by exists w.
  - intros p d w b _. by eexists.
  - intros k sig. by apply signal_plain; [apply any_unconcerned|].
  - intros k. by apply alive_plain; [apply any_unconcerned|].
Qed.

(** ** Aborting a start *)

Section abort.
Context (k : Z) (g : GatedSpawn) (fuel : nat).

Lemma holding_ask {B : Type} (c : call B) : ordinary c = true -> keeps step (holding k g) (ask c).
Proof. intros H. apply keeps_ask. intros d w b Hw. exists w. by rewrite ordinary_step. Qed.
Lemma holding_monotonic : keeps step (holding k g) (ask Monotonic).
Proof. apply keeps_ask. intros d w b Hw. by exists w. Qed.
Lemma holding_poll p : keeps step (holding k g) (ask (Poll p)).
Proof. apply keeps_ask. intros d w b Hw. by eexists. Qed.

Lemma poll_live : watched step (holding k g) (ask (Poll (g_proc g)))
  (fun r => match r with Ok None => holding_live k g | _ => holding k g end).
Proof. apply watched_ask. intros d w b [Hs Hr]. eexists. split; [reflexivity|]. by destruct b. Qed.

(** A kill of the live start's group. *)
Lemma signal_group_live : watched step (holding_live k g) (_signal_group (g_pgid g) SIGKILL) (fun _ => holding k g).
Proof.
  unfold _signal_group. eapply (watched_bind step _ _ _ (fun _ => holding k g)); [| |done].
  - eapply watched_mono; [apply (watched_outcome step (holding_live k g) _ (fun _ => holding k g)), watched_ask_res|done|by intros []].
    intros d w r [[Hs Hr] Hl]. exists w. cbn. unfold killable. rewrite Hs, Hr, Hl. cbn. by rewrite !Z.eqb_refl.
  - intros [|[]]; first [by apply keeps_ret|by apply keeps_raise].
Qed.

Lemma kill_gated_held n t : keeps step (holding k g) (kill_gated n t (g_proc g) (g_pgid g)).
Proof.
  induction n as [|n IH]; cbn [kill_gated]; [apply keeps_raise|].
  eapply watched_bind; [apply poll_live| |done]. intros [c|]; [apply keeps_ret|].
  eapply (watched_bind step _ _ _ (fun _ => holding_live k g)); [| |by intros x d w [? _]].
  - apply watched_ask. intros d w b Hw. by exists w.
  - intros now. destruct (negb _); [by apply watched_ret; intros d w [? _]|].
    eapply watched_bind; [apply signal_group_live| |done]. intros [].
    apply keeps_bind; [by apply holding_ask|intros []; exact IH].
Qed.

Lemma kill_until_held n : keeps step (holding k g) (kill_until_reaped n (g_proc g) (g_pgid g)).
Proof.
  induction n as [|n IH]; cbn [kill_until_reaped]; [apply keeps_raise|].
  eapply watched_bind; [apply poll_live| |done]. intros [c|]; [apply keeps_ret|].
  eapply watched_bind; [apply signal_group_live| |done]. intros [].
  apply keeps_bind; [by apply holding_ask|intros []; exact IH].
Qed.

Lemma close_all_held fds : keeps step (holding k g) (close_all fds).
Proof. apply keeps_for_each. intros fd. by apply holding_ask. Qed.

Lemma abort_held : keeps step (holding k g) (_abort_and_converge fuel g).
Proof.
  unfold _abort_and_converge, abort_gated_start, await_gated_group_gone.
  repeat first [apply keeps_bind; [|intros ?] | by apply holding_ask | apply holding_monotonic | apply kill_gated_held | apply kill_until_held
               | apply holding_poll | apply close_all_held | apply keeps_ret | case_match].
Qed.

(** ** Activating it *)

(** The ticks read are those the last reading of /proc showed. *)
Definition read (t : option Z) : condition := fun d w => holding k g d w /\ exists pf, seen w = Some pf /\ proc_start_ticks pf (g_pid g) = t.

Definition held_recorded : condition := fun d w => holding k g d w /\ recorded w = true.

Lemma pre_release_watched :
  watched step (holding k g) (_pre_release_failure fuel k g)
    (fun r => match r with Ok (Persisted _) => held_recorded | _ => holding k g end).
Proof.
  assert (forall (P : condition) m, (forall d w, P d w -> holding k g d w) ->
    watched step P (_ ← _abort_and_converge fuel g; mret (NotRecorded m)) (fun r => match r with Ok (Persisted _) => held_recorded | _ => holding k g end)) as Habort.
  { intros P m HP. eapply watched_mono; [|exact HP|intros r d w H; exact H].
    eapply (watched_bind step _ _ _ (fun _ => holding k g)); [apply abort_held|intros []; by apply watched_ret|done]. }
  unfold _pre_release_failure. eapply (watched_bind step _ _ _ (fun r => match r with Ok t => read t | _ => holding k g end)); [| |done].
  - unfold start_ticks_of. eapply (watched_bind step _ _ _ (fun r d w => match r with Ok pf => holding k g d w /\ seen w = Some pf | _ => False end)); [| |done].
    + apply watched_ask. intros d w pf Hw. by eexists.
    + intros pf. apply watched_ret. intros d w [Hw Hs]. split; [done|]. by exists pf.
  - intros [t|]; [|by apply Habort; intros d w [? _]]. destruct (0 <? t) eqn:Ht; [|by apply Habort; intros d w [? _]].
    eapply (watched_bind step _ _ _ (fun r => match r with Ok (Ok true) => held_recorded | Ok _ => holding k g | _ => fun _ _ => False end)); [| |done].
    + eapply watched_mono;
        [apply (watched_outcome step (read (Some t)) _ (fun r => match r with Ok true => held_recorded | _ => holding k g end)), watched_ask_res|done|].
      * intros d w r [[Hs Hr] (pf & Hpf & Ht')]. cbn. unfold identified. rewrite Hs, Hpf, Ht', Hr, Ht. cbn. rewrite !Z.eqb_refl. cbn.
        eexists. split; [reflexivity|]. by destruct r as [[]|].
      * intros [[[]|]|]; try done.
    + intros [[|]|x].
      * by apply watched_ret.
      * by apply Habort.
      * destruct x; try (by apply watched_raise).
        eapply watched_keeps; [|done|intros lost].
        -- unfold _is_connectivity_error. apply keeps_bind; [by apply holding_ask|]. intros [exc b]. apply keeps_bind; [apply keeps_self|intros; apply keeps_ret].
        -- destruct lost; [|by apply Habort].
           eapply (watched_bind step _ _ _ (fun _ => holding k g)); [apply abort_held|intros []; by apply watched_raise|done].
Qed.

Lemma release_watched : watched step held_recorded (release_gate (g_gate_fd g)) (fun r => match r with Ok true => any | _ => holding k g end).
Proof.
  unfold release_gate. eapply (watched_bind step _ _ _ (fun r => match r with Ok (Ok _) => any | Ok (Raise _) => holding k g | Raise _ => fun _ _ => False end)); [| |done].
  - eapply watched_mono; [apply (watched_outcome step held_recorded _ (fun r => match r with Ok _ => any | _ => holding k g end)), watched_ask_res|done|by intros [[]|]].
    intros d w r [[Hs Hr] Hrec]. cbn. unfold releasable. rewrite Hs, Hr, Hrec. cbn. rewrite Z.eqb_refl. cbn. eexists. split; [reflexivity|]. by destruct r.
  - intros [[]|x].
    + eapply (watched_bind step _ _ _ (fun r => match r with Ok _ => any | Raise _ => fun _ _ => False end));
        [apply watched_ask; intros d w b _; by exists w|intros []; by apply watched_ret|done].
    + destruct x; try (by apply watched_raise).
      eapply (watched_bind step _ _ _ (fun _ => holding k g)); [by apply holding_ask|intros []; by apply watched_ret|done].
Qed.

Lemma activate_watched t v : watched step (holding k g) (_activate_gated_job fuel k g t v) (fun _ => any).
Proof.
  unfold _activate_gated_job. eapply watched_bind; [apply pre_release_watched| |done].
  intros recorded. apply (watched_bind step _ _ _ (fun _ => any)); [| |done].
  - destruct recorded as [ticks|m]; [|by apply watched_ret].
    eapply watched_bind; [apply release_watched| |done]. intros [|].
    + eapply (watched_bind step _ _ _ (fun _ => any)); [apply keeps_ask; intros d w b _; by exists w|intros; by apply watched_ret|done].
    + eapply (watched_bind step _ _ _ (fun _ => holding k g)); [apply abort_held|intros []; by apply watched_ret|done].
  - pose proof any_calm. intros [j|m]; [by apply watched_ret|].
    apply keeps_bind; [by apply finalize_immediate_kept|intros; apply keeps_ret].
Qed.
End abort.

(** ** The loop *)

Section loop.
Context (s : Settings) (uuid4 : nat -> Z) (fuel : nat).

Lemma abandon_gated k reason : keeps step any (abandon_start fuel k reason).
Proof.
  pose proof any_calm. unfold abandon_start. apply keeps_bind; [by apply finalize_immediate_kept|intros []].
  eapply (watched_bind step _ _ _ (fun r => match r with Ok (Some (Ok g)) => holding k g | _ => any end)); [| |done].
  - apply watched_ask. intros d w r _. eexists. split; [reflexivity|]. by destruct r as [[]|].
  - intros late. eapply (watched_bind step _ _ _ (fun _ => any)); [|intros []; by apply keeps_ordinary|done].
    destruct late as [[g|x]|]; [|by apply watched_ret..]. by apply (watched_kept step _ (holding k g)); [apply abort_held|..].
Qed.

Lemma completed_kept k a : keeps step any (_handle_completed_attempt s fuel k a).
Proof.
  pose proof any_calm. unfold _handle_completed_attempt. apply keeps_bind; [apply keeps_self|intros d0].
  eapply (watched_bind step _ _ _ (fun r => match r with Ok (Ok g) => holding k g | _ => any end)); [| |done].
  - apply watched_ask. intros d w r _. eexists. split; [reflexivity|]. by destruct r.
  - intros [g|x].
    + destruct (negb (conn d0)); [by apply (watched_kept step _ (holding k g)); [apply abort_held|..]|].
      eapply watched_bind; [apply activate_watched| |done]. intros [j|]; [|by apply watched_ret].
      apply keeps_bind; [by apply keeps_update|intros; by apply health_force_kept].
    + apply when_connected_kept. apply keeps_bind; [by apply keeps_ordinary|intros; by apply finalize_immediate_kept].
Qed.

Lemma run_kept_any n : keeps step any (run s uuid4 fuel n).
Proof.
  pose proof any_calm. apply run_kept; try done.
  - by apply refresh_plain; [|intros ids d w b _; exists w|].
  - intros now. unfold _poll_pending_starts, _handle_timed_out_attempt, forget_start. walk; try (by apply keeps_update); first [apply completed_kept|apply abandon_gated|idtac].
  - by apply claim_plain; [|intros m d w b _; exists w|].
  - unfold _cleanup_pending_starts, forget_start. walk; [by apply keeps_update|apply abandon_gated].
Qed.

(** C18: In every run of the worker's loop, whatever it is answered: the gate of a
    start is successfully written at most once, and it is written only after the
    row of its job has recorded the pid and the group that the start reported and
    the positive start time that the last reading of /proc showed at that pid; and
    the loop kills a group by its number only while it is that of the start last
    taken from its future, whose gate has not been written and whose process, a
    child, was found running by the last poll. (A start that is never taken
    belongs to its lane: see [spawn_leaks_nothing].) *)
Theorem starts_gated n d tr r :
  runs (run s uuid4 fuel n d) tr r -> is_Some (accepts step initial tr).
Proof.
  intros Hr. destruct (watched_runs step any (run s uuid4 fuel n) _ d initial tr r (run_kept_any n) ltac:(done) Hr) as (w' & -> & _).
  by eexists.
Qed.
End loop.
End Gate.
