(* ===== verification/WorkerSignals.v ===== *)
(** No process is signalled unproven: a pidfd carries a signal only when, after it was
    opened, /proc showed its process with a start time that is proven to be that of a
    member of a job's group. *)

From S2P Require Import Prelude PyStr PyNum Json Uuid ProcFs Protocol Output Capture WorkerSettings JobQueue Programs WorkerWorld WorkerGroups WorkerJobs WorkerStarts WorkerLeases WorkerFinalization WorkerLoop WorkerRuns.
From stdpp Require Import gmap.

#[local] Open Scope Z_scope.
#[local] Arguments py : simpl never.

Module Members.
(** The groups on record: number, start time of the leader, marker of the job. *)
Abbreviation group := (Z * Z * pystr)%type.

(** [led g]: the last reading of /proc showed at [g] the leader on record; [listed p]:
    a reading that followed such a one showed [p] in that group; [proved p t]: [p] is a
    leader on record with start time [t], or was shown with it once it was listed;
    [carries p]: a reading showed the marker of a job on record in the environment of
    [p]; [pins fd]: the pid a pidfd was opened on, and its start time by the last
    reading since. *)
Record state := mkMembers {
  known : list group;
  led : Z -> bool;
  listed : Z -> bool;
  proved : Z -> Z -> bool;
  carries : Z -> bool;
  pins : Z -> option (Z * option Z);
}.

Definition initial : state := mkMembers [] (fun _ => false) (fun _ => false) (fun _ _ => false) (fun _ => false) (fun _ => None).

Definition shows (pf : procfs) (p t : Z) : bool := opt_eqb (proc_start_ticks pf p) (Some t).
Definition marked (pf : procfs) (p : Z) (m : pystr) : bool := match job_marker pf p with Some m' => str_eqb m' m | None => false end.

Definition reading (pf : procfs) (w : state) : state :=
  mkMembers (known w)
    (fun g => existsb (fun '(g', t, _) => (g' =? g) && shows pf g t) (known w))
    (fun p => listed w p || existsb (fun '(g, _, _) => led w g && existsb (Z.eqb p) (group_members pf g)) (known w))
    (fun p t => proved w p t || (listed w p && shows pf p t))
    (fun p => carries w p || existsb (fun '(_, _, m) => marked pf p m) (known w))
    (fun fd => match pins w fd with Some (p, _) => Some (p, proc_start_ticks pf p) | None => None end).

Definition pinned (fd p : Z) (w : state) : state :=
  mkMembers (known w) (led w) (listed w) (proved w) (carries w) (fun fd' => if fd' =? fd then Some (p, None) else pins w fd').

(** A start recorded in its row. *)
Definition persisted (k p g t : Z) (w : state) : state :=
  mkMembers ((g, t, uuid_str k) :: known w) (led w) (listed w) (fun p' t' => ((p' =? p) && (t' =? t)) || proved w p' t') (carries w) (pins w).

(** The rows of a dead worker. *)
Definition group_of_row (row : pystr * json * json) : list group :=
  let '(row_id, pgid, ticks) := row in
  match positive_int pgid, positive_int ticks with Some g, Some t => [(g, t, row_id)] | _, _ => [] end.
Definition found (rows : list (pystr * json * json)) (w : state) : state :=
  mkMembers (flat_map group_of_row rows ++ known w) (led w) (listed w) (proved w) (carries w) (pins w).

Definition vouched (w : state) (p t : Z) : bool := proved w p t || carries w p.
Definition sendable (w : state) (fd : Z) : bool :=
  match pins w fd with Some (p, Some t) => vouched w p t | _ => false end.

Definition step (w : state) (B : Type) (c : call B) : B -> option state :=
  match c in call B return B -> option state with
  | Proc => fun pf => Some (reading pf w)
  | OpenPidfd p => fun r => Some (match r with Ok fd => pinned fd p w | Raise _ => w end)
  | SendSignal fd _ => fun _ => if sendable w fd then Some w else None
  | PersistProcess k p g t => fun r => Some (match r with Ok true => persisted k p g t w | _ => w end)
  | OwnedRunningRows _ => fun r => Some (match r with Ok rows => found rows w | Raise _ => w end)
  | _ => fun _ => Some w
  end.

(** What is on record or proven stays so. *)
Record grows (w w' : state) : Prop := {
  g_known x : In x (known w) -> In x (known w');
  g_listed p : listed w p = true -> listed w' p = true;
  g_proved p t : proved w p t = true -> proved w' p t = true;
  g_carries p : carries w p = true -> carries w' p = true;
}.

Lemma reading_grows pf w : grows w (reading pf w).
Proof. split; cbn; intros; try done; apply orb_true_iff; by left. Qed.
Lemma pinned_grows fd p w : grows w (pinned fd p w).
Proof. by split. Qed.
Lemma persisted_grows k p g t w : grows w (persisted k p g t w).
Proof. split; cbn; intros; [by right|done|rewrite H; by rewrite orb_true_r|done]. Qed.
Lemma found_grows rows w : grows w (found rows w).
Proof. split; cbn; intros; [apply in_app_iff; by right|done..]. Qed.
Lemma vouched_grows w w' p t : grows w w' -> vouched w p t = true -> vouched w' p t = true.
Proof. intros Hg [H|H]%orb_true_iff; apply orb_true_iff; [left; by apply (g_proved _ _ Hg)|right; by apply (g_carries _ _ Hg)]. Qed.

Definition ledger_ok (l : gmap Z Z) (w : state) : Prop := forall p t, l !! p = Some t -> proved w p t = true.
Lemma ledger_grows l w w' : grows w w' -> ledger_ok l w -> ledger_ok l w'.
Proof. intros Hg Hl p t H. by apply (g_proved _ _ Hg), Hl. Qed.

#[export] Instance grows_preorder : PreOrder grows.
Proof. split; [by split|]. intros w1 w2 w3 [] []. split; auto. Qed.

Lemma step_grows w (B : Type) (c : call B) b w' : step w B c b = Some w' -> grows w w'.
Proof.
  destruct c; cbn; intros H; repeat case_match; simplify_eq; try done; auto using reading_grows, pinned_grows, persisted_grows, found_grows.
Qed.

Abbreviation stable := (lasting grows).

(** What is proven stays so along a method. *)
Lemma watched_stable {memory A : Type} F P (m : Programs.method call memory A) Q : stable F ->
  watched step P m Q -> watched step (fun d w => P d w /\ F w) m (fun r d w => Q r d w /\ F w).
Proof. apply (watched_lasting step grows step_grows). Qed.

(** ** One group *)

Section group.
Context (R : state -> Prop) (HR : forall w w', grows w w' -> R w -> R w').
Context (g t : Z) (m : pystr).

Abbreviation condition := (gmap Z Z -> state -> Prop).
Definition ours : condition := fun l w => In (g, t, m) (known w) /\ ledger_ok l w /\ R w.

Lemma ours_grows l w w' : grows w w' -> ours l w -> ours l w'.
Proof. intros Hg (Hk & Hl & Hw). split_and!; [by apply (g_known _ _ Hg)|by eapply ledger_grows|by eapply HR]. Qed.

(** A condition on what is proven beside [ours]. *)
Definition beside (F : state -> Prop) : condition := fun l w => ours l w /\ F w.

Lemma beside_proc F : stable F -> harmless step (beside F) Proc.
Proof. intros HF l w pf [Ho Hw]. exists (reading pf w). split; [done|]. pose proof (reading_grows pf w). split; [by eapply ours_grows|by eapply HF]. Qed.

Lemma beside_ticks F p : stable F ->
  watched step (beside F) (start_ticks_of p) (fun r l w => exists w0 pf, r = Ok (proc_start_ticks pf p) /\ w = reading pf w0 /\ beside F l w0).
Proof.
  intros HF. unfold start_ticks_of. eapply (watched_bind step _ _ _ (fun r l w => exists w0 pf, r = Ok pf /\ w = reading pf w0 /\ beside F l w0)); [| |by intros x l w (?&?&?&_)].
  - apply watched_ask. intros l w pf Hw. eexists. split; [reflexivity|]. by exists w, pf.
  - intros pf. apply watched_ret. intros l w (w0 & pf' & [= ->] & -> & H). by exists w0, pf'.
Qed.


(** A proven member. *)
Definition ticks_vouched (p : Z) (r : res (option Z)) : condition := fun l w =>
  ours l w /\ match r with Ok (Some u) => vouched w p u = true | _ => True end.

Lemma proven_ticks p : watched step ours (_proven_member_ticks p (Some m)) (ticks_vouched p).
Proof.
  unfold _proven_member_ticks.
  eapply (watched_bind step _ _ _ (fun _ => ours)); [| |by split].
  - eapply watched_mono; [apply (beside_ticks (fun _ => True)); done|by split|].
    intros r l w (w0 & pf & _ & -> & [Ho _]). eapply ours_grows; [apply reading_grows|done].
  - intros [u|]; [|by apply watched_ret]. apply watched_self_bind. intros l0.
    destruct (opt_eqb (l0 !! p) (Some u)) eqn:Hl.
    + apply watched_ret. intros l w [Ho ->]. split; [done|]. unfold vouched. apply orb_true_iff. left. destruct Ho as (_ & Hok & _). apply Hok.
      destruct (l0 !! p) as [u'|]; cbn in Hl; [|done]. apply Z.eqb_eq in Hl. by subst.
    + eapply (watched_bind step _ _ _ (fun r l w => ours l w /\ (r = Ok (Some m) -> carries w p = true))); [| |by intros x l w [? _]].
      * unfold _process_job_id. eapply (watched_bind step _ _ _ (fun r l w => match r with Ok pf => ours l w /\ (job_marker pf p = Some m -> carries w p = true) | _ => False end)); [| |done].
        -- apply watched_ask. intros l w pf [Ho _]. exists (reading pf w). split; [done|]. split; [eapply ours_grows; [apply reading_grows|done]|].
           intros Hm. cbn. apply orb_true_iff. right. apply existsb_exists. exists (g, t, m). split; [apply Ho|]. unfold marked. rewrite Hm. by apply str_eqb_eq.
        -- intros pf. apply watched_ret. intros l w [Ho Hm]. split; [done|]. intros [= H]. by apply Hm.
      * intros seen. apply watched_ret. intros l w [Ho Hm]. split; [done|]. destruct seen as [x|]; [|done].
        destruct (str_eqb x m) eqn:Hx; [|done]. apply str_eqb_eq in Hx. subst x. unfold vouched. rewrite Hm by done. by rewrite orb_true_r.
Qed.

Lemma pin_and_signal p sig u : watched step (fun l w => ours l w /\ vouched w p u = true) (_pin_and_signal p sig u) (fun _ => ours).
Proof.
  unfold _pin_and_signal.
  eapply (watched_bind step _ _ _ (fun r l w => match r with
    | Ok (Ok fd) => ours l w /\ vouched w p u = true /\ pins w fd = Some (p, None) | Ok _ => ours l w | Raise _ => False end)); [| |done].
  - eapply watched_mono; [apply (watched_outcome step (fun l w => ours l w /\ vouched w p u = true) _ (fun r l w => match r with Ok fd => ours l w /\ vouched w p u = true /\ pins w fd = Some (p, None) | _ => ours l w end)), watched_ask_res|done|intros [[]|] ? ? ?; assumption].
    intros l w r [Ho Hv]. eexists. split; [reflexivity|]. destruct r as [fd|]; [|done].
    split_and!; [eapply ours_grows; [apply pinned_grows|done]|done|]. cbn. by rewrite Z.eqb_refl.
  - intros [fd|]; [|by apply watched_ret]. apply (watched_finally step _ _ _ (fun _ => ours)).
    + eapply (watched_bind step _ _ _ (fun r l w => match r with
        | Ok v => ours l w /\ vouched w p u = true /\ pins w fd = Some (p, v) | Raise _ => False end)); [| |done].
      * unfold start_ticks_of. eapply (watched_bind step _ _ _ (fun r l w => match r with
          | Ok pf => ours l w /\ vouched w p u = true /\ pins w fd = Some (p, proc_start_ticks pf p) | Raise _ => False end)); [| |done].
        -- apply watched_ask. intros l w pf (Ho & Hv & Hp). pose proof (reading_grows pf w) as Hg. exists (reading pf w). split; [done|].
           split_and!; [by eapply ours_grows|by eapply vouched_grows|]. cbn. by rewrite Hp.
        -- intros pf. by apply watched_ret.
      * intros v. destruct (negb (opt_eqb v (Some u))) eqn:Hu; [by apply watched_ret; intros l w [? _]|].
        eapply (watched_bind step _ _ _ (fun _ => ours)); [|intros; by apply watched_ret|done].
        eapply watched_mono; [apply (watched_outcome step (fun l w => ours l w /\ vouched w p u = true /\ pins w fd = Some (p, v)) _ (fun _ => ours)), watched_ask_res|done|by intros [] ? ? ?].
        intros l w r (Ho & Hv & Hp). exists w. split; [|done]. destruct v as [v|]; cbn in Hu; [|done]. apply negb_false_iff, Z.eqb_eq in Hu. subst v.
        cbn. unfold sendable. by rewrite Hp, Hv.
    + intros r. apply watched_ask. intros l w b Hw. by exists w; destruct r.
Qed.

Lemma signal_pids l sig : keeps step ours (_signal_owned_pids l sig (Some m)).
Proof.
  induction l as [|p l IH]; cbn [_signal_owned_pids]; [apply keeps_ret|].
  eapply watched_bind; [apply proven_ticks| |by intros x d w [? _]]. intros [u|].
  - eapply (watched_bind step _ _ _ (fun _ => ours)); [apply pin_and_signal| |done]. intros _.
    apply keeps_bind; [exact IH|intros; apply keeps_ret].
  - eapply watched_mono; [exact IH|by intros d w [? _]|done].
Qed.

Lemma ours_proc : harmless step ours Proc.
Proof. intros l w pf Ho. exists (reading pf w). split; [done|]. eapply ours_grows; [apply reading_grows|done]. Qed.

Lemma emit_ours sig v : keeps step ours (emit g sig (Some m) v).
Proof.
  unfold emit, _group_member_pids. apply keeps_bind; [|intros l; apply signal_pids].
  destruct (leader_ours v); [|apply keeps_ret]. apply keeps_bind; [apply keeps_ask, ours_proc|intros; apply keeps_ret].
Qed.

(** ** Classification *)

Definition all_listed (l : list Z) (w : state) : Prop := forall p, In p l -> listed w p = true.

Lemma record_members l : watched step (beside (all_listed l)) (for_each l record_member) (fun _ => ours).
Proof.
  induction l as [|p l IH]; cbn [for_each]; [by apply watched_ret; intros d w [? _]|].
  eapply (watched_bind step _ _ _ (fun _ => beside (all_listed l))); [|intros []; exact IH|by intros x d w [? _]].
  unfold record_member. eapply watched_bind; [apply (beside_ticks (all_listed (p :: l)))| |by intros x d w (?&?&?&_)].
  - intros w w' Hg H q Hq. by apply (g_listed _ _ Hg), H.
  - assert (forall d w0 pf, beside (all_listed (p :: l)) d w0 -> beside (all_listed l) d (reading pf w0)) as Hrest.
    { intros d w0 pf [Ho Hl]. pose proof (reading_grows pf w0) as Hg. split; [by eapply ours_grows|]. intros q Hq. apply (g_listed _ _ Hg), Hl. by right. }
    intros [u|]; [apply watched_update|apply watched_ret]; intros d w (w0 & pf & [= Hu] & -> & Hb); pose proof (Hrest d w0 pf Hb) as [(Hk & Hok & Hw) Hl]; [|done].
    split; [|done]. split_and!; [done| |done]. intros q v. destruct (decide (q = p)) as [->|Hne]; [|rewrite lookup_insert_ne by done; apply Hok].
    rewrite lookup_insert_eq. intros [= <-]. cbn. destruct Hb as [_ Hlist]. rewrite (Hlist p) by by left. unfold shows. rewrite <-Hu. cbn. by rewrite Z.eqb_refl, orb_true_r.
Qed.

Lemma proven_members_ours l : keeps step ours (proven_members l g (Some m)).
Proof.
  induction l as [|p l IH]; cbn [proven_members]; [apply keeps_ret|]. destruct (p =? g); [exact IH|].
  apply keeps_bind; [|intros u; apply keeps_bind; [exact IH|intros; apply keeps_ret]].
  eapply watched_mono; [apply proven_ticks|done|by intros r d w [? _]].
Qed.

Lemma classify_ours : keeps step ours (_classify_group g (Some t) (Some m)).
Proof.
  unfold _classify_group, group_has_members, start_ticks_of.
  apply keeps_bind; [apply keeps_bind; [apply keeps_ask, ours_proc|intros; apply keeps_ret]|intros alive].
  destruct (negb alive); [apply keeps_ret|].
  eapply (watched_bind step _ _ _ (fun r l w => match r with Ok u => ours l w /\ (u = Some t -> led w g = true) | _ => False end)); [| |done].
  - eapply (watched_bind step _ _ _ (fun r l w => match r with Ok pf => ours l w /\ (proc_start_ticks pf g = Some t -> led w g = true) | _ => False end)); [| |done].
    + apply watched_ask. intros l w pf Ho. exists (reading pf w). split; [done|]. split; [eapply ours_grows; [apply reading_grows|done]|].
      intros Ht. cbn. apply existsb_exists. exists (g, t, m). split; [apply Ho|]. unfold shows. rewrite Ht. cbn. by rewrite !Z.eqb_refl.
    + intros pf. by apply watched_ret.
  - intros u. destruct ((0 <? t) && opt_eqb u (Some t)) eqn:Hu.
    + eapply (watched_bind step _ _ _ (fun r l w => match r with Ok l' => beside (all_listed l') l w | _ => False end)); [| |done].
      * unfold _group_member_pids. eapply (watched_bind step _ _ _ (fun r l w => match r with Ok pf => beside (all_listed (group_members pf g)) l w | _ => False end)); [| |done].
        -- apply watched_ask. intros l w pf [Ho Hled]. exists (reading pf w). split; [done|]. split; [eapply ours_grows; [apply reading_grows|done]|].
           intros p Hp. cbn. apply orb_true_iff. right. apply existsb_exists. exists (g, t, m). split; [apply Ho|].
           rewrite Hled; [apply existsb_exists; exists p; by rewrite Z.eqb_refl|].
           apply andb_true_iff in Hu as [_ Hu]. destruct u as [u|]; cbn in Hu; [|done]. apply Z.eqb_eq in Hu. by subst.
        -- intros pf. by apply watched_ret.
      * intros l. eapply watched_bind; [apply record_members|intros []; by apply watched_ret|done].
    + apply (watched_mono step ours _ _ (fun _ => ours)); [|by intros l w [Ho _]|done]. unfold _ledger_owned_members, _group_member_pids.
      apply keeps_bind; [|intros; apply keeps_ret]. apply keeps_bind; [|intros; apply proven_members_ours].
      apply keeps_bind; [apply keeps_ask, ours_proc|intros; apply keeps_ret].
Qed.
End group.

(** ** The worker *)

(** Every job is of a group on record, and its ledger is proven. *)
Definition job_ok (k : Z) (j : job) (w : state) : Prop :=
  In (pgid j, start_ticks j, uuid_str k) (known w) /\ ledger_ok (owned_members j) w.
Definition jobs_ok (d : worker) (w : state) : Prop := forall k j, objects d !! k = Some j -> job_ok k j w.

Lemma job_grows k j w w' : grows w w' -> job_ok k j w -> job_ok k j w'.
Proof. intros Hg [H1 H2]. split; [by apply (g_known _ _ Hg)|by eapply ledger_grows]. Qed.
Lemma jobs_grow d w w' : grows w w' -> jobs_ok d w -> jobs_ok d w'.
Proof. intros Hg H k j Hk. by eapply job_grows, H. Qed.

Lemma put_job_ok k j d w : job_ok k j w -> jobs_ok d w -> jobs_ok (put_job k j d) w.
Proof.
  intros Hj H k' j'. cbn. destruct (decide (k' = k)) as [->|Hne]; [rewrite lookup_insert_eq; by intros [= <-]|rewrite lookup_insert_ne by done; apply H].
Qed.

Lemma changed_ok k f d w : (forall j, pgid (f j) = pgid j /\ start_ticks (f j) = start_ticks j /\ owned_members (f j) = owned_members j) ->
  jobs_ok d w -> jobs_ok (changed k f d) w.
Proof.
  intros Hf H. unfold changed. destruct (objects d !! k) as [j|] eqn:Hk; [|done]. apply put_job_ok; [|done].
  destruct (Hf j) as (Hg & Ht & Ho). destruct (H k j Hk). split; [by rewrite Hg, Ht|by rewrite Ho].
Qed.

(** The job of [k] is of the group [g], whose leader started at [t]. *)
Definition of_group (k g t : Z) : worker -> state -> Prop := fun d w =>
  jobs_ok d w /\ exists j, objects d !! k = Some j /\ pgid j = g /\ start_ticks j = t.

(** A method on the ledger of a job. *)
Lemma on_ledger_ok {A : Type} k g t (m : with_ledger A) :
  (forall R, (forall w w', grows w w' -> R w -> R w') -> keeps step (ours R g t (uuid_str k)) m) ->
  keeps step (of_group k g t) (on_ledger k m).
Proof.
  intros Hm. apply watched_zoom. intros d l w [-> [Hd (j & Hj & Hg & Ht)]]. destruct (Hd k j Hj) as [Hk Hl]. rewrite Hg, Ht in Hk.
  eapply safe_mono.
  - refine (Hm (jobs_ok d) (jobs_grow d) _ w _). split_and!; [done|unfold ledger_of; by rewrite Hj|done].
  - intros [r l] w' (Hk' & Hl' & Hd'). cbn. unfold put_ledger. rewrite Hj. split.
    + apply put_job_ok; [|done]. split; [cbn; by rewrite Hg, Ht|done].
    + exists (set_owned_members l j). cbn. by rewrite lookup_insert_eq.
Qed.

(** A method that takes a job's group from the job. *)
Lemma with_group_ok {A : Type} k (body : job -> method A) :
  (forall j, keeps step (of_group k (pgid j) (start_ticks j)) (body j)) -> keeps step jobs_ok (job_of k ≫= body).
Proof.
  intros H. eapply (watched_bind step _ _ _ (fun r d w => match r with Ok j => of_group k (pgid j) (start_ticks j) d w | Raise _ => jobs_ok d w end)); [| |done].
  - unfold job_of. apply watched_self_bind. intros d0. destruct (objects d0 !! k) as [j|] eqn:Hj.
    + apply watched_ret. intros d w [Hd ->]. split; [done|]. by exists j.
    + apply watched_raise. by intros d w [Hd _].
  - intros j. eapply watched_mono; [apply H|done|by intros r d w [? _]].
Qed.

Lemma signal_group_ok k sig : keeps step jobs_ok (_signal_owned_group k sig).
Proof.
  unfold _signal_owned_group, _owned_group_view. apply with_group_ok. intros j.
  apply keeps_bind; [apply on_ledger_ok; intros R HR; by apply classify_ours|intros v].
  apply keeps_bind; [apply on_ledger_ok; intros R HR; by apply emit_ours|intros; apply keeps_ret].
Qed.

Lemma group_alive_ok k : keeps step jobs_ok (_owned_group_alive k).
Proof.
  unfold _owned_group_alive, _owned_group_view. apply with_group_ok. intros j.
  apply keeps_bind; [apply on_ledger_ok; intros R HR; by apply classify_ours|intros; apply keeps_ret].
Qed.

Lemma ordinary_members w (B : Type) (c : call B) b : ordinary c = true -> step w B c b = Some w.
Proof. by destruct c. Qed.

Lemma jobs_calm : calm step jobs_ok.
Proof.
  split.
  - intros B c H d w b Hd. exists w. by rewrite ordinary_members.
  - intros d w b Hd. by exists w.
  - intros p d w b Hd. by exists w.
  - intros k f d w Hf. apply changed_ok. intros j. by destruct (Hf j) as (?&?&?&?&_).
  - intros f d w Ho _ Hd k j. rewrite Ho. apply Hd.
  - apply signal_group_ok.
  - apply group_alive_ok.
Qed.
#[local] Hint Resolve jobs_calm : core.

Lemma jobs_kill g sig : harmless step jobs_ok (KillGroup g sig).
Proof. intros d w b Hd. by exists w. Qed.

(** ** Starting a job *)

Section loop.
Context (s : Settings) (uuid4 : nat -> Z) (fuel : nat).

Definition on_record (k : Z) (g : GatedSpawn) (t : Z) (w : state) : Prop :=
  In (g_pgid g, t, uuid_str k) (known w) /\ proved w (g_pid g) t = true.

Lemma pre_release_ok k g : watched step jobs_ok (_pre_release_failure fuel k g)
  (fun r d w => jobs_ok d w /\ match r with Ok (Persisted t) => on_record k g t w | _ => True end).
Proof.
  assert (forall m, watched step jobs_ok (_ ← _abort_and_converge fuel g; mret (NotRecorded m))
    (fun r d w => jobs_ok d w /\ match r with Ok (Persisted t) => on_record k g t w | _ => True end)) as Habort.
  { intros m. apply watched_keeps; [apply abort_kept; [done|apply jobs_kill]|by intros; split|intros []; by apply watched_ret]. }
  unfold _pre_release_failure. apply watched_keeps; [|by intros; split|].
  - unfold start_ticks_of. apply keeps_bind; [apply keeps_ask|intros; apply keeps_ret]. intros d w pf Hd. eexists. split; [reflexivity|]. eapply jobs_grow; [apply reading_grows|done].
  - intros [t|]; [|apply Habort]. destruct (0 <? t); [|apply Habort].
    eapply (watched_bind step _ _ _ (fun r d w => match r with Ok r => jobs_ok d w /\ (r = Ok true -> on_record k g t w) | Raise _ => False end)); [| |done].
    + eapply watched_mono; [apply (watched_outcome step jobs_ok _ (fun r d w => jobs_ok d w /\ (r = Ok true -> on_record k g t w))), watched_ask_res|done|by intros [] ? ? ?].
      intros d w r Hd. eexists. split; [reflexivity|]. destruct r as [[|]|]; try done.
      split; [eapply jobs_grow; [apply persisted_grows|done]|]. intros _. split; cbn; [by left|]. by rewrite !Z.eqb_refl.
    + intros [[|]|x].
      * apply watched_ret. intros d w [Hd H]. split; [done|]. by apply H.
      * eapply watched_mono; [apply Habort|by intros d w [? _]|done].
      * apply (watched_mono step jobs_ok _ _ (fun r d w => jobs_ok d w /\ match r with Ok (Persisted t) => on_record k g t w | _ => True end)); [|by intros d w [? _]|done].
        destruct x; try (apply watched_raise; by intros; split).
        apply watched_keeps; [by apply connectivity_kept|by intros; split|intros lost]. destruct lost; [|apply Habort].
        apply watched_keeps; [apply abort_kept; [done|apply jobs_kill]|by intros; split|intros []; apply watched_raise; by intros; split].
Qed.

Lemma activate_ok k g t v : watched step jobs_ok (_activate_gated_job fuel k g t v)
  (fun r d w => jobs_ok d w /\ match r with Ok (Some j) => job_ok k j w | _ => True end).
Proof.
  unfold _activate_gated_job. eapply watched_bind; [apply pre_release_ok| |by intros].
  intros recorded. eapply (watched_bind step _ _ _ (fun r d w => jobs_ok d w /\ match r with Ok (inl j) => job_ok k j w | _ => True end)); [| |by intros].
  - destruct recorded as [u|m]; [|by apply watched_ret].
    apply (watched_mono step (fun d w => jobs_ok d w /\ on_record k g u w) _ _
      (fun r d w => match r with Ok (inl j) => jobs_ok d w /\ job_ok k j w | _ => jobs_ok d w end)); [|done|intros [[j|m]|x] d w H; [exact H|by split..]].
    assert (forall m : pystr, watched step (fun d w => jobs_ok d w /\ on_record k g u w) (_ ← _abort_and_converge fuel g; mret (inr m))
      (fun (r : res (job + pystr)) d w => match r with Ok (inl j) => jobs_ok d w /\ job_ok k j w | _ => jobs_ok d w end)) as Habort.
    { intros m. apply (watched_mono step jobs_ok _ _ (fun r d w => match r with Ok (inl _) => False | _ => jobs_ok d w end)); [|by intros d w [? _]|by intros [[]|] ? ? ?].
      apply watched_keeps; [apply abort_kept; [done|apply jobs_kill]|done|intros []; by apply watched_ret]. }
    eapply watched_bind; [apply (watched_stable (on_record k g u) jobs_ok); [|apply (gate_release_kept step jobs_ok)]| |by intros x d w [? _]]; [|done|by intros d w b Hd; exists w|].
    + intros w w' Hg [Hk Hp]. split; [by apply (g_known _ _ Hg)|by apply (g_proved _ _ Hg)].
    + intros [|]; [|apply Habort].
      eapply (watched_bind step _ _ _ (fun _ d w => jobs_ok d w /\ on_record k g u w)); [apply watched_ask; intros d w b Hw; by exists w| |by intros x d w [? _]].
      intros now. apply watched_ret. intros d w [Hd [Hk Hp]]. split; [done|]. split; [done|]. intros p x Hv. cbn in Hv.
      apply lookup_singleton_Some in Hv as [<- <-]. exact Hp.
  - intros [j|m]; [by apply watched_ret|].
    apply (watched_mono step jobs_ok _ _ (fun r d w => jobs_ok d w /\ match r with Ok (Some j) => job_ok k j w | _ => True end)); [|by intros d w [? _]|done].
    apply watched_keeps; [by apply finalize_immediate_kept|by intros; split|intros []; by apply watched_ret].
Qed.

Lemma completed_ok k a : keeps step jobs_ok (_handle_completed_attempt s fuel k a).
Proof.
  unfold _handle_completed_attempt. apply keeps_bind; [apply keeps_self|intros d0].
  apply keeps_bind; [apply keeps_ask; intros d w b Hd; by exists w|intros [g|x]].
  - destruct (negb (conn d0)); [apply abort_kept; [done|apply jobs_kill]|].
    eapply watched_bind; [apply activate_ok| |by intros x d w [? _]]. intros [j|]; [|by apply watched_ret; intros d w [? _]].
    eapply (watched_bind step _ _ _ (fun _ => jobs_ok)); [|intros []; by apply health_force_kept|done].
    apply watched_update. intros d w [Hd Hj]. unfold register. case_bool_decide; by apply put_job_ok.
  - apply when_connected_kept. apply keeps_bind; [by apply keeps_ordinary|intros; by apply finalize_immediate_kept].
Qed.

Lemma run_ok n : keeps step jobs_ok (run s uuid4 fuel n).
Proof.
  assert (forall k r, keeps step jobs_ok (abandon_start fuel k r)) as Hab.
  { intros k r. apply abandon_start_kept; [done|apply jobs_kill|]. intros d w b Hd. by exists w. }
  apply run_kept; try done.
  - apply refresh_plain; [done|intros ids d w b Hd; by exists w|]. intros k t d w. by apply changed_ok.
  - intros now. unfold _poll_pending_starts, _handle_timed_out_attempt, forget_start. pose proof jobs_calm. walk;
      first [by apply keeps_update|apply completed_ok|apply Hab|apply keeps_ask; intros d w b Hd; by exists w].
  - apply claim_plain; [done|intros m d w b Hd; by exists w|done].
  - unfold _cleanup_pending_starts, forget_start. pose proof jobs_calm. walk; first [by apply keeps_update|apply Hab].
Qed.

(** C33: In every run of the worker's loop from a new worker, whatever it is answered,
    a signal goes through a pidfd only when a reading of /proc, made after the
    pidfd was opened on a pid, showed a start time of that pid for which there is
    proof: the process is a leader that a job's row recorded with this start time;
    or it was shown with it after it had been listed in a recorded group by the
    reading that followed one showing the recorded leader at the head of the
    group; or its environment was shown to carry the marker of a recorded job. *)
Theorem members_signalled n tr r :
  runs (run s uuid4 fuel n new_worker) tr r -> is_Some (accepts step initial tr).
Proof.
  intros Hr. destruct (watched_runs step jobs_ok (run s uuid4 fuel n) _ new_worker initial tr r (run_ok n) ltac:(done) Hr) as (w' & -> & _).
  by eexists.
Qed.
End loop.

(** ** The recovery of a dead worker's groups *)

Section recovery.
Context {memory : Type} (fuel : nat) (grace : pyfloat).

#[local] Abbreviation method := (Programs.method call memory).
Definition on_rows (l : list (option Z * option Z * pystr)) : memory -> state -> Prop := fun _ w =>
  forall g t m, In (Some g, Some t, m) l -> In (g, t, m) (known w).

Lemma on_rows_grows l w w' d : grows w w' -> on_rows l d w -> on_rows l d w'.
Proof. intros Hg H g t m Hi. by apply (g_known _ _ Hg), H. Qed.

Lemma terminate_ours R g t m : (forall w w', grows w w' -> R w -> R w') -> keeps step (ours R g t m) (_terminate_one_group fuel g t grace (Some m)).
Proof.
  intros HR.
  assert (keeps step (ours R g t m) (ask Monotonic)) as Hmono by (apply keeps_ask; intros l w b Hw; by exists w).
  assert (forall x, keeps step (ours R g t m) (ask (Sleep x))) as Hsleep by (intros x; apply keeps_ask; intros l w b Hw; by exists w).
  assert (keeps step (ours R g t m) (ask Proc)) as Hproc by by apply keeps_ask, ours_proc.
  assert (keeps step (ours R g t m) (_classify_group g (Some t) (Some m))) as Hview by by apply classify_ours.
  assert (forall v sig, keeps step (ours R g t m) (emit g sig (Some m) v)) as Hemit by (intros; by apply emit_ours).
  assert (forall n x, keeps step (ours R g t m) (await_members n x g)) as Hm.
  { intros n x. induction n as [|n IH]; cbn [await_members]; unfold group_has_members; repeat first [keep_step idtac idtac|done]. }
  assert (forall n x, keeps step (ours R g t m) (await_reaped n x (_classify_group g (Some t) (Some m)))) as Hr.
  { intros n x. induction n as [|n IH]; cbn [await_reaped]; repeat first [done|keep_step idtac idtac]. }
  unfold _terminate_one_group. repeat first [done|apply Hemit|apply Hm|apply Hr|keep_step idtac idtac].
Qed.

Lemma on_rows_proc l : keeps step (on_rows l) (ask Proc).
Proof. apply keeps_ask. intros d w pf H. eexists. split; [reflexivity|]. eapply on_rows_grows; [apply reading_grows|done]. Qed.

Lemma decision_rows l g st : watched step (on_rows l) (_group_reclaim_decision g st)
  (fun r d w => on_rows l d w /\ (r = Ok RECLAIM -> is_Some st)).
Proof.
  unfold _group_reclaim_decision, group_has_members, start_ticks_of.
  apply watched_keeps; [apply keeps_bind; [apply on_rows_proc|intros; apply keeps_ret]|by intros; split|intros alive].
  destruct (negb alive); [by apply watched_ret|]. destruct st as [t|]; [|by apply watched_ret].
  destruct (t <=? 0); [by apply watched_ret|].
  apply watched_keeps; [apply keeps_bind; [apply on_rows_proc|intros; apply keeps_ret]|by intros; split|intros live].
  apply watched_ret. intros d w H. split; [done|]. intros _. by eexists.
Qed.

Lemma reclaim_rows l : forall r, keeps step (on_rows l) (reclaim_groups fuel grace l r).
Proof.
  assert (forall x l d w, on_rows (x :: l) d w -> on_rows l d w) as Htail by (intros x l' d w H g t m Hi; apply H; by right).
  induction l as [|[[[g|] st] m] l IH]; intros r; cbn [reclaim_groups]; [apply keeps_ret| |].
  - set (all := (Some g, st, m) :: l).
    assert (forall r', watched step (on_rows all) (reclaim_groups fuel grace l r') (fun _ => on_rows all)) as Hrest.
    { intros r' d w H. eapply safe_mono; [apply (watched_stable (fun w => on_rows all d w) (on_rows l)); [|apply IH|]|].
      - intros w1 w2 Hg. by apply on_rows_grows.
      - split; [by eapply Htail|done].
      - intros [x d'] w' [_ H']. exact H'. }
    eapply watched_bind; [apply decision_rows| |by intros x d w [? _]]. intros [| |].
    + eapply watched_mono; [apply Hrest|by intros d w [? _]|done].
    + eapply (watched_bind step _ _ _ (fun _ => on_rows all)); [|intros gone; apply Hrest|done].
      apply watched_zoom. intros d0 x w [-> [H Hs]]. destruct (Hs eq_refl) as [t ->]. cbn [default].
      eapply safe_mono; [apply (terminate_ours (fun w => on_rows all d0 w) g t m)|].
      * intros w1 w2 Hg. by apply on_rows_grows.
      * split_and!; [apply H; by left|intros p u; by rewrite lookup_empty|done].
      * by intros [y l'] w' (_ & _ & ?).
    + eapply watched_mono; [apply Hrest|by intros d w [? _]|done].
  - intros d w H. eapply safe_mono; [apply (watched_stable (fun w => on_rows ((None, st, m) :: l) d w) (on_rows l)); [|apply IH|]|].
    + intros w1 w2 Hg. by apply on_rows_grows.
    + split; [by eapply Htail|done].
    + intros [x d'] w' [_ H']. exact H'.
Qed.

Lemma recover_watched inc : watched step (fun (_ : memory) _ => True) (recover_owned_job_groups fuel inc grace) (fun _ _ _ => True).
Proof.
  unfold recover_owned_job_groups, _owned_running_groups.
  eapply (watched_bind step _ _ _ (fun r d w => match r with Ok l => on_rows l d w | Raise _ => True end)); [| |done].
  - eapply (watched_bind step _ _ _ (fun r _ w => match r with Ok rows => forall x, In x (flat_map group_of_row rows) -> In x (known w) | Raise _ => True end)); [| |done].
    + apply watched_ask_res. intros d w r _. eexists. split; [reflexivity|]. destruct r as [rows|x]; [|done]. intros x Hx. cbn. apply in_app_iff. by left.
    + intros rows. apply watched_ret. intros d w H g t m Hi. apply H, in_flat_map.
      apply in_map_iff in Hi as ([[id pg] tk] & Hp & Hi). apply filter_In in Hi as [Hi _]. exists (id, pg, tk). split; [done|].
      unfold _parse_owned_running_group_row in Hp. injection Hp as Hpg Htk ->. cbn. rewrite Hpg, Htk. by left.
  - intros l. eapply watched_mono; [apply reclaim_rows|done|done].
Qed.

(** The same of the recovery of the groups a dead worker left: only members proven by
    the rows it reads are signalled, each through a pidfd that pins it. *)
Theorem recovery_signals_proven inc (d : memory) tr r :
  runs (recover_owned_job_groups fuel inc grace d) tr r -> is_Some (accepts step initial tr).
Proof.
  intros Hr. destruct (watched_runs step _ _ _ d initial tr r (recover_watched inc) I Hr) as (w' & -> & _). by eexists.
Qed.
End recovery.
End Members.
