(* ===== verification/WorkerRecovery.v ===== *)
(** The report of a recovery accounts for every group of the dead worker. *)

From S2P Require Import Prelude PyStr PyNum Json Uuid ProcFs Protocol Output Capture WorkerSettings JobQueue Programs WorkerWorld WorkerGroups WorkerRuns.
From stdpp Require Import gmap.

#[local] Open Scope Z_scope.
#[local] Arguments py : simpl never.

Module Accounts.
(** The readings of /proc and the rows found so far. *)
Record state := mkSeen { readings : list procfs; rows_found : list (list (pystr * json * json)) }.
Definition initial : state := mkSeen [] [].

Definition step (w : state) (B : Type) (c : call B) : B -> option state :=
  match c in call B return B -> option state with
  | Proc => fun pf => Some (mkSeen (pf :: readings w) (rows_found w))
  | OwnedRunningRows _ => fun r => Some (match r with Ok rows => mkSeen (readings w) (rows :: rows_found w) | Raise _ => w end)
  | _ => fun _ => Some w
  end.

(** The readings, and the rows found, in a trace. *)
Fixpoint seen (tr : list exchange) : list procfs :=
  match tr with
  | [] => []
  | Exchange c b :: tr => match c in call B return B -> list procfs with Proc => fun pf => [pf] | _ => fun _ => [] end b ++ seen tr
  end.
Fixpoint found (tr : list exchange) : list (list (pystr * json * json)) :=
  match tr with
  | [] => []
  | Exchange c b :: tr =>
      match c in call B return B -> list (list (pystr * json * json)) with
      | OwnedRunningRows _ => fun r => match r with Ok rows => [rows] | Raise _ => [] end
      | _ => fun _ => []
      end b ++ found tr
  end.

Lemma accepts_seen w tr w' : accepts step w tr = Some w' -> readings w' = rev (seen tr) ++ readings w /\ rows_found w' = rev (found tr) ++ rows_found w.
Proof.
  revert w. induction tr as [|[B c b] tr IH]; cbn; intros w H; [by injection H as ->|].
  destruct c; cbn in H |- *; try by apply IH.
  - apply IH in H as [-> ->]. cbn. by rewrite <-!app_assoc.
  - destruct b as [rows|x]; cbn in H |- *; [|by apply IH]. apply IH in H as [-> ->]. cbn. by rewrite <-!app_assoc.
Qed.

Abbreviation row := (option Z * option Z * pystr)%type.

(** What became of each row, in order.  A group is passed over only when a reading
    showed it without members; it is reported as reaped or surviving, having been
    signalled, only when a reading showed its leader with the positive start time of
    the row; any other group that a reading showed with members is unresolved, and a
    row without a group is malformed. *)
Inductive accounts (pfs : list procfs) : list row -> ReclaimedGroups -> Prop :=
  | acc_none : accounts pfs [] nothing_reclaimed
  | acc_malformed l r st m : accounts pfs l r -> accounts pfs (l ++ [(None, st, m)]) (add_malformed m r)
  | acc_gone l r g st m pf : In pf pfs -> ProcFs.group_has_members pf g = false -> accounts pfs l r -> accounts pfs (l ++ [(Some g, st, m)]) r
  | acc_reaped l r g t m pf : In pf pfs -> proc_start_ticks pf g = Some t -> 0 < t -> accounts pfs l r ->
      accounts pfs (l ++ [(Some g, Some t, m)]) (add_reaped g r)
  | acc_surviving l r g t m pf : In pf pfs -> proc_start_ticks pf g = Some t -> 0 < t -> accounts pfs l r ->
      accounts pfs (l ++ [(Some g, Some t, m)]) (add_surviving g r)
  | acc_unresolved l r g st m pf : In pf pfs -> ProcFs.group_has_members pf g = true -> accounts pfs l r ->
      accounts pfs (l ++ [(Some g, st, m)]) (add_unresolved g r).

Lemma accounts_more pfs pfs' l r : incl pfs pfs' -> accounts pfs l r -> accounts pfs' l r.
Proof.
  intros Hi H. induction H; [constructor|by constructor|eapply acc_gone|eapply acc_reaped|eapply acc_surviving|eapply acc_unresolved]; eauto.
Qed.

(** Readings and rows once seen stay so. *)
Record more (w w' : state) : Prop := { m_readings : incl (readings w) (readings w'); m_rows : incl (rows_found w) (rows_found w') }.

#[export] Instance more_preorder : PreOrder more.
Proof. split; [split; apply incl_refl|]. intros w1 w2 w3 [] []. split; by eapply incl_tran. Qed.

Lemma step_some w (B : Type) (c : call B) b : exists w', step w B c b = Some w'.
Proof. destruct c; by eexists. Qed.

Lemma step_more w (B : Type) (c : call B) b w' : step w B c b = Some w' -> more w w'.
Proof.
  destruct c; cbn; intros H; repeat case_match; simplify_eq; try done; split; first [apply incl_refl|by apply incl_tl, incl_refl].
Qed.

Lemma watched_any {memory A : Type} (P : memory -> state -> Prop) (m : Programs.method call memory A) : watched step P m (fun _ _ _ => True).
Proof.
  intros d w _. generalize (m d). intros t. revert w. induction t as [a|B c k IH]; cbn; intros w; [done|].
  intros b. destruct (step_some w B c b) as (w' & ->). apply IH.
Qed.

Section accounts.
Context {memory : Type} (fuel : nat) (grace : pyfloat).

Definition accounted (l : list row) (r : ReclaimedGroups) : memory -> state -> Prop := fun _ w => accounts (readings w) l r.

Lemma accounted_lasting l r d : lasting more (accounted l r d).
Proof. intros w w' [H _]. by apply accounts_more. Qed.

(** What the decision about a group has seen. *)
Definition decided (g : Z) (st : option Z) (x : GroupReclaimDecision) (w : state) : Prop :=
  match x with
  | GONE => exists pf, In pf (readings w) /\ ProcFs.group_has_members pf g = false
  | RECLAIM => exists pf t, In pf (readings w) /\ st = Some t /\ 0 < t /\ proc_start_ticks pf g = Some t
  | UNRESOLVED => exists pf, In pf (readings w) /\ ProcFs.group_has_members pf g = true
  end.

Lemma decided_lasting g st x : lasting more (decided g st x).
Proof. intros w w' [H _]. destruct x; cbn; [intros (pf & Hi & Hx); exists pf|intros (pf & t & Hi & Hx); exists pf, t|intros (pf & Hi & Hx); exists pf]; eauto. Qed.

(** A reading, remembered. *)
Lemma read_proc {A : Type} (F : state -> Prop) (f : procfs -> A) : lasting more F ->
  watched step (fun (_ : memory) w => F w) (pf ← ask Proc; mret (f pf))
    (fun r _ w => exists pf, r = Ok (f pf) /\ In pf (readings w) /\ F w).
Proof.
  intros HF. eapply (watched_bind step _ _ _ (fun r _ w => match r with Ok pf => In pf (readings w) /\ F w | Raise _ => False end)); [| |done].
  - apply watched_ask. intros d w pf Hw. eexists. split; [reflexivity|]. split; [by left|]. eapply HF; [|done]; split; [by apply incl_tl, incl_refl|apply incl_refl].
  - intros pf. apply watched_ret. intros d w [Hi Hw]. by exists pf.
Qed.

Lemma decision_accounts F g st : lasting more F ->
  watched step (fun (_ : memory) w => F w) (_group_reclaim_decision g st) (fun r _ w => match r with Ok x => decided g st x w /\ F w | Raise _ => True end).
Proof.
  intros HF. unfold _group_reclaim_decision, group_has_members, start_ticks_of. eapply watched_bind; [by apply read_proc| |done].
  intros alive. set (F' := fun w => F w /\ exists pf, In pf (readings w) /\ ProcFs.group_has_members pf g = alive).
  assert (lasting more F') as HF'. { intros w w' Hm [Hw (pf & Hi & Ha)]. split; [by eapply HF|]. exists pf. split; [by apply Hm|done]. }
  apply (watched_mono step (fun (_ : memory) w => F' w) _ _
    (fun r _ w => match r with Ok x => decided g st x w /\ F w | Raise _ => True end)); [|by intros d w (pf & [= ->] & Hi & Hw); split; [|exists pf]|done].
  destruct alive; cbn [negb]; [|by apply watched_ret; intros d w [Hw (pf & Hi & Ha)]; split; [exists pf|]].
  assert (forall (d : memory) w, F' w -> decided g st UNRESOLVED w /\ F w) as Hun by (intros _ w [Hw Ha]; by split).
  destruct st as [t|]; [|by apply watched_ret; intros d; apply Hun].
  destruct (t <=? 0) eqn:Ht; [by apply watched_ret; intros d; apply Hun|]. eapply watched_bind; [by apply read_proc| |done].
  intros live. apply watched_ret. intros d w (pf & [= ->] & Hi & Hw). destruct (proc_start_ticks pf g) as [u|] eqn:Hu; [|by apply Hun].
  destruct (u =? t) eqn:Hut; [|by apply Hun]. apply Z.eqb_eq in Hut. subst u. split; [|by destruct Hw]. exists pf, t. split_and!; try done. lia.
Qed.

Lemma reclaim_accounts l : forall past r,
  watched step (accounted past r) (reclaim_groups fuel grace l r) (fun x d w => match x with Ok r' => accounted (past ++ l) r' d w | Raise _ => True end).
Proof.
  induction l as [|[[[g|] st] m] l IH]; intros past r; cbn [reclaim_groups].
  - apply watched_ret. intros d w H. by rewrite app_nil_r.
  - assert (forall r' P, (forall d w, P d w -> accounted (past ++ [(Some g, st, m)]) r' d w) ->
      watched step P (reclaim_groups fuel grace l r') (fun x d w => match x with Ok r'' => accounted (past ++ (Some g, st, m) :: l) r'' d w | Raise _ => True end)) as Hrest.
    { intros r' P HP. eapply watched_mono; [apply IH|exact HP|]. intros [x|x] d w H; [|done]. by rewrite <-app_assoc in H. }
    eapply (watched_bind step _ _ _ (fun x d w => match x with Ok x => decided g st x w /\ accounted past r d w | Raise _ => True end)); [| |done].
    + intros d w H. apply (decision_accounts (accounted past r d) g st (accounted_lasting past r d) d w H).
    + intros [| |].
      * apply Hrest. intros d w [(pf & Hi & Ha) H]. by eapply acc_gone.
      * eapply (watched_bind step _ _ _ (fun x d w => decided g st RECLAIM w /\ accounted past r d w)); [| |done].
        -- intros d w H. assert (lasting more (fun w => decided g st RECLAIM w /\ accounted past r d w)) as Hl.
           { intros w1 w2 Hm [Ha Hb]. split; [by eapply decided_lasting|by eapply accounted_lasting]. }
           eapply safe_mono; [by apply (watched_lasting step more step_more _ (fun _ _ => True) _ (fun _ _ _ => True) Hl); [apply watched_any|]|].
           intros [x d'] w' [_ H']. exact H'.
        -- intros reaped. apply Hrest. intros d w [(pf & t & Hi & -> & Ht & Hp) H]. destruct reaped; [by eapply acc_reaped|by eapply acc_surviving].
      * apply Hrest. intros d w [(pf & Hi & Ha) H]. by eapply acc_unresolved.
  - eapply watched_mono; [apply IH|intros d w H; by constructor|]. intros [x|x] d w H; [|done]. by rewrite <-app_assoc in H.
Qed.

(** The rows with a group, parsed. *)
Definition rows_of (rows : list (pystr * json * json)) : list row :=
  map (fun '(row_id, pgid, ticks) => _parse_owned_running_group_row row_id pgid ticks)
      (List.filter (fun '(_, pgid, _) => match pgid with JNull => false | _ => true end) rows).

Lemma recover_accounts inc :
  watched step (fun (_ : memory) w => w = initial) (recover_owned_job_groups fuel inc grace)
    (fun x d w => match x with Ok r => exists rows, In rows (rows_found w) /\ accounts (readings w) (rows_of rows) r | Raise _ => True end).
Proof.
  unfold recover_owned_job_groups, _owned_running_groups.
  eapply (watched_bind step _ _ _ (fun x _ w => match x with Ok l => exists rows, l = rows_of rows /\ w = mkSeen [] [rows] | Raise _ => True end)); [| |done].
  - eapply (watched_bind step _ _ _ (fun x _ w => match x with Ok rows => w = mkSeen [] [rows] | Raise _ => True end)); [| |done].
    + apply watched_ask_res. intros d w [rows|x] ->; eexists; by split.
    + intros rows. apply watched_ret. intros d w ->. by exists rows.
  - intros l d w (rows & -> & ->). eapply safe_mono.
    + apply (watched_lasting step more step_more (fun w => In rows (rows_found w)) (accounted [] nothing_reclaimed) _ _ (fun w1 w2 Hm => m_rows _ _ Hm rows)
               (reclaim_accounts (rows_of rows) [] nothing_reclaimed) d). split; [constructor|by left].
    + intros [[r|x] d'] w' [H Hr]; [|done]. by exists rows.
Qed.

(** When a recovery returns, its report accounts for every row with a group that
    one statement found for the dead worker, in order, and for nothing else: a row
    is passed over only when a reading of /proc showed its group without members;
    it is reported reaped or surviving only when a reading showed a process at the
    group's number with the row's positive start time; it is reported unresolved
    only when a reading showed its group with members, and malformed when its
    group is not a positive number. *)
Theorem recovery_accounts inc (d : memory) tr r d' :
  runs (recover_owned_job_groups fuel inc grace d) tr (Ok r, d') -> exists rows, In rows (found tr) /\ accounts (seen tr) (rows_of rows) r.
Proof.
  intros Hr. destruct (watched_runs step _ _ _ d initial tr _ (recover_accounts inc) eq_refl Hr) as (w & Hw & rows & Hi & Ha).
  apply accepts_seen in Hw as [H1 H2]. cbn in H1, H2. rewrite app_nil_r in H1, H2. rewrite H2 in Hi. rewrite H1 in Ha. exists rows.
  split; [by apply in_rev|]. eapply accounts_more; [|exact Ha]. intros pf Hpf. by apply in_rev.
Qed.
End accounts.
End Accounts.
