(* ===== verification/WorkerLeaseSafety.v ===== *)
(** The leases of jobs: every job's lease counts from a reading of the clock before the
    statement that granted or renewed it, and no job outlives it unstopped. *)

From S2P Require Import Prelude PyStr PyNum FloatFacts Json Uuid ProcFs Protocol Output Capture WorkerSettings JobQueue Programs WorkerWorld WorkerGroups WorkerJobs WorkerStarts WorkerLeases WorkerFinalization WorkerLoop WorkerRuns.
From stdpp Require Import gmap.

#[local] Open Scope Z_scope.
#[local] Arguments py : simpl never.

Module Anchors.
(** The clock last read, and the instants from which a lease of each job may count: those
    read before a statement that claimed the job, or refreshed its lease. *)
Record state := mkAnchors { clock : option pyfloat; origins : Z -> list pyfloat }.
Definition initial : state := mkAnchors None (fun _ => []).

Definition granted (ids : list Z) (w : state) : state :=
  mkAnchors (clock w)
    (fun k => match clock w with Some t => if bool_decide (k ∈ ids) then t :: origins w k else origins w k | None => origins w k end).

Definition step (w : state) (B : Type) (c : call B) : B -> option state :=
  match c in call B return B -> option state with
  | Monotonic => fun t => Some (mkAnchors (Some t) (origins w))
  | ClaimJobs _ => fun r => Some (match r with Ok rows => granted (map fst rows) w | Raise _ => w end)
  | RefreshLeases _ => fun r => Some (match r with Ok ids => granted ids w | Raise _ => w end)
  | _ => fun _ => Some w
  end.

Definition more (w w' : state) : Prop := forall k t, In t (origins w k) -> In t (origins w' k).
#[export] Instance more_preorder : PreOrder more.
Proof. split; [by intros w k t|]. intros w1 w2 w3 H1 H2 k t H. by apply H2, H1. Qed.

Lemma granted_more ids w : more w (granted ids w).
Proof. intros k t H. cbn. repeat case_match; try done. by right. Qed.
Lemma clock_step_more w (B : Type) (c : call B) b w' : step w B c b = Some w' -> more w w'.
Proof. destruct c; cbn; intros H; repeat case_match; simplify_eq; first [apply granted_more|intros k t Hk; exact Hk]. Qed.
Lemma clock_step_some w (B : Type) (c : call B) b : exists w', step w B c b = Some w'.
Proof. destruct c; by eexists. Qed.

(** The lease of every job, and of every start that is pending, is anchored. *)
Definition anchored (d : worker) (w : state) : Prop :=
  (forall k j, objects d !! k = Some j -> In (last_heartbeat_at j) (origins w k))
  /\ (forall k a, In (k, a) (_pending_starts d) -> In (at_claim_mono a) (origins w k)).

Lemma anchored_more d w w' : more w w' -> anchored d w -> anchored d w'.
Proof. intros Hm [H1 H2]. split; intros; by apply Hm; eauto. Qed.

(** No question is refused, and all keep what is anchored. *)
Lemma anchored_ask {B : Type} (c : call B) : harmless step anchored c.
Proof. intros d w b H. destruct (clock_step_some w B c b) as [w' Hs]. exists w'. split; [done|]. eapply anchored_more; [by eapply clock_step_more|done]. Qed.

Lemma put_anchored k j d w : In (last_heartbeat_at j) (origins w k) -> anchored d w -> anchored (put_job k j d) w.
Proof.
  intros Hj [H1 H2]. split; [|done]. intros k' j'. cbn. destruct (decide (k' = k)) as [->|Hne]; [rewrite lookup_insert_eq; by intros [= <-]|rewrite lookup_insert_ne by done; apply H1].
Qed.

Lemma changed_anchored k f d w : (forall j, objects d !! k = Some j -> In (last_heartbeat_at (f j)) (origins w k)) -> anchored d w -> anchored (changed k f d) w.
Proof. intros Hf H. unfold changed. destruct (objects d !! k) as [j|] eqn:Hk; [|done]. apply put_anchored; [by apply Hf|done]. Qed.

Lemma anchored_unconcerned : unconcerned step anchored.
Proof. split; intros; apply anchored_ask. Qed.

Lemma ledger_anchored k l d w : anchored d w -> anchored (put_ledger k l d) w.
Proof. intros H. unfold put_ledger. destruct (objects d !! k) as [j|] eqn:Hk; [|done]. apply put_anchored; [|done]. cbn. by apply (proj1 H). Qed.

Lemma anchored_calm : calm step anchored.
Proof.
  split; intros; try apply anchored_ask.
  - apply changed_anchored; [|done]. intros j Hj. destruct (H j) as (_&_&_& -> &_). by apply (proj1 H0).
  - destruct H1 as [H1 H2]. split; [by rewrite H|by rewrite H0].
  - apply signal_plain; [apply anchored_unconcerned|]. intros k' l d w. apply ledger_anchored.
  - apply alive_plain; [apply anchored_unconcerned|]. intros k' l d w. apply ledger_anchored.
Qed.
#[local] Hint Resolve anchored_calm : core.

(** The instant [t] is an origin of all of [ids]. *)
Definition origin_of (t : pyfloat) (ids : list Z) (w : state) : Prop := forall k, In k ids -> In t (origins w k).
Lemma origin_lasting t ids : lasting more (origin_of t ids).
Proof. intros w w' Hm H k Hk. by apply Hm, H. Qed.

Lemma watched_origin {memory A : Type} F P (m : Programs.method call memory A) Q : lasting more F ->
  watched step P m Q -> watched step (fun d w => P d w /\ F w) m (fun r d w => Q r d w /\ F w).
Proof. apply (watched_lasting step more clock_step_more). Qed.

(** Nothing else matters while [t] is known to be an origin. *)
Lemma kept_beside {A : Type} (m : method A) F : lasting more F -> keeps step anchored m -> keeps step (fun d w => anchored d w /\ F w) m.
Proof. intros HF Hm. by apply watched_origin. Qed.

(** The clock, read before a statement about [ids]. *)
Lemma clock_then {A : Type} (k : pyfloat -> method A) Q :
  (forall t, watched step (fun d w => anchored d w /\ clock w = Some t) (k t) Q) -> watched step anchored (ask Monotonic ≫= k) Q.
Proof.
  intros H. eapply (watched_bind step _ _ _ (fun r d w => match r with Ok t => anchored d w /\ clock w = Some t | Raise _ => False end)); [| |done].
  - apply watched_ask. intros d w t Ha. eexists. split; [reflexivity|]. by split.
  - intros t. apply H.
Qed.

Lemma refresh_anchored : keeps step anchored _refresh_leases.
Proof.
  unfold _refresh_leases. apply when_connected_kept. apply clock_then. intros t. apply watched_self_bind. intros d0.
  eapply (watched_bind step _ _ _ (fun r d w => anchored d w /\ match r with Ok ids => origin_of t ids w | Raise _ => True end)); [| |by intros x d w [? _]].
  - apply watched_ask_res. intros d w r [[Ha Hc] _]. eexists. split; [reflexivity|]. destruct r as [ids|]; [|done].
    split; [eapply anchored_more; [apply granted_more|done]|]. intros k Hk. cbn. rewrite Hc, bool_decide_true by by apply list_elem_of_In. by left.
  - intros ids. apply (watched_mono step (fun d w => anchored d w /\ origin_of t ids w) _ _ (fun _ d w => anchored d w /\ origin_of t ids w)); [|done|by intros r d w [? _]].
    unfold apply_lease_refresh. apply watched_self_bind. intros d1.
    eapply (watched_mono step (fun d w => anchored d w /\ origin_of t ids w)); [|by intros d w [? _]|intros r d w H; exact H].
    apply keeps_for_each. intros k. apply keeps_bind; [apply keeps_job_of|intros j].
    destruct (out_of_heartbeat j); [apply keeps_ret|]. case_bool_decide as Hk.
    + apply keeps_update. intros d w [Ha Ho]. split; [|done]. apply changed_anchored; [|done]. intros j' _. cbn. by apply Ho, list_elem_of_In.
    + apply kept_beside; [apply origin_lasting|]. by apply lose_row_kept.
Qed.

Section loop.
Context (s : Settings) (uuid4 : nat -> Z) (fuel : nat).

Lemma start_job_anchored k payload t ids : In k ids -> keeps step (fun d w => anchored d w /\ origin_of t ids w) (_start_job s k payload t).
Proof.
  intros Hk. assert (forall {A} (m : method A), keeps step anchored m -> keeps step (fun d w => anchored d w /\ origin_of t ids w) m) as HK.
  { intros A m. apply kept_beside, origin_lasting. }
  unfold _start_job, when_connected. apply keeps_bind; [apply keeps_self|intros d0]. destruct (conn d0); [|apply keeps_ret].
  destruct (parse_payload _) as [p|[]]; try apply keeps_raise.
  - destruct (negb _).
    + apply HK. apply keeps_bind; [by apply keeps_ask, anchored_ask|intros theirs]. apply keeps_bind; [by apply keeps_ask, anchored_ask|intros ours]. by apply finalize_immediate_kept.
    + apply keeps_bind; [by apply HK, preflight_kept|]. intros [r|]; [by apply HK, finalize_immediate_kept|].
      apply keeps_bind; [apply HK, keeps_ask, anchored_ask|intros now]. apply keeps_bind; [apply HK, keeps_ask, anchored_ask|].
      intros [|]; [|by apply HK, finalize_immediate_kept]. apply keeps_update. intros d w [[H1 H2] Ho]. split; [|done]. split; [done|].
      intros k' a Ha. cbn in Ha.
      assert (In (k', a) (_pending_starts d) \/ k' = k /\ at_claim_mono a = t) as [Hin|[-> <-]]; [|by apply H2|by apply Ho].
      { clear -Ha. induction (_pending_starts d) as [|[k1 a1] l IH]; cbn in Ha; [destruct Ha as [[= <- <-]|[]]; by right|].
        destruct (k1 =? k) eqn:Hk; (destruct Ha as [[= <- <-]|Ha]; [|]).
        - by right.
        - left. by right.
        - left. by left.
        - destruct (IH Ha); [left; by right|by right]. }
  - apply HK. apply keeps_bind; [by apply keeps_ask, anchored_ask|intros text]. by apply finalize_immediate_kept.
Qed.

Lemma claim_anchored : keeps step anchored (_claim_batch s).
Proof.
  unfold _claim_batch. apply when_connected_kept. apply keeps_bind; [by apply stopping_kept|intros stop].
  destruct stop; [apply keeps_ret|]. apply clock_then. intros t. apply watched_self_bind. intros d0.
  destruct (float_ltb t _); [by apply watched_ret; intros d w [[? _] _]|].
  eapply (watched_bind step _ _ _ (fun r d w => anchored d w /\ match r with Ok rows => origin_of t (map fst rows) w | Raise _ => True end)); [| |by intros x d w [? _]].
  - apply watched_ask_res. intros d w r [[Ha Hc] _]. eexists. split; [reflexivity|]. destruct r as [rows|]; [|done].
    split; [eapply anchored_more; [apply granted_more|done]|]. intros k Hk. cbn. rewrite Hc, bool_decide_true by by apply list_elem_of_In. by left.
  - intros rows. apply (watched_mono step (fun d w => anchored d w /\ origin_of t (map fst rows) w) _ _ (fun _ d w => anchored d w /\ origin_of t (map fst rows) w)); [|done|by intros r d w [? _]].
    apply keeps_bind; [apply keeps_update; by intros d w|intros []].
    apply keeps_for_each_in. intros [k payload] Hk. apply start_job_anchored. by apply (in_map fst) in Hk.
Qed.

Lemma abandon_anchored k r : keeps step anchored (abandon_start fuel k r).
Proof. apply abandon_start_kept; [done|intros; apply anchored_ask..]. Qed.

Lemma forget_anchored k : keeps step anchored (forget_start k).
Proof.
  apply keeps_update. intros d w [H1 H2]. split; [done|]. intros k' a Ha. apply H2. unfold od_del in Ha. cbn in Ha. by apply filter_In in Ha as [? _].
Qed.

(** The job of a start whose claim is anchored. *)
Lemma completed_anchored k a : keeps step (fun d w => anchored d w /\ origin_of (at_claim_mono a) [k] w) (_handle_completed_attempt s fuel k a).
Proof.
  set (F := origin_of (at_claim_mono a) [k]).
  assert (forall {A} (m : method A), keeps step anchored m -> keeps step (fun d w => anchored d w /\ F w) m) as HK.
  { intros A m. apply kept_beside, origin_lasting. }
  assert (forall g, keeps step anchored (_abort_and_converge fuel g)) as Habort.
  { intros g. apply abort_kept; [done|intros; apply anchored_ask]. }
  unfold _handle_completed_attempt. apply keeps_bind; [apply keeps_self|intros d0].
  apply keeps_bind; [apply HK, keeps_ask, anchored_ask|intros [g|x]].
  - destruct (negb (conn d0)); [apply HK, Habort|]. apply keeps_bind.
    + apply HK. unfold _activate_gated_job, _pre_release_failure, start_ticks_of. pose proof anchored_calm.
      walk; first [apply keeps_ask, anchored_ask|apply keeps_ask_res, anchored_ask|apply Habort|by apply connectivity_kept
                  |by apply finalize_immediate_kept|apply gate_release_kept; [done|apply anchored_ask]].
    + intros [j|]; [|apply keeps_ret]. apply keeps_bind; [|intros []; by apply HK, health_force_kept].
      apply keeps_update. intros d w [Ha Ho]. split; [|done]. unfold register. case_bool_decide; (apply put_anchored; [|done]); apply Ho; by left.
  - apply HK, when_connected_kept. apply keeps_bind; [by apply keeps_ask, anchored_ask|intros text]. by apply finalize_immediate_kept.
Qed.

Lemma poll_anchored now : keeps step anchored (_poll_pending_starts s fuel now).
Proof.
  unfold _poll_pending_starts. apply keeps_bind; [apply keeps_self|intros d0]. apply keeps_for_each. intros k.
  apply watched_self_bind. intros d1. destruct (od_get k (_pending_starts d1)) as [a|] eqn:Hk; [|by apply watched_raise; intros d w [? _]].
  apply (watched_mono step (fun d w => anchored d w /\ origin_of (at_claim_mono a) [k] w) _ _ (fun _ d w => anchored d w /\ origin_of (at_claim_mono a) [k] w)); [| |by intros r d w [? _]].
  - assert (forall {A} (m : method A), keeps step anchored m -> keeps step (fun d w => anchored d w /\ origin_of (at_claim_mono a) [k] w) m) as HK.
    { intros A m. apply kept_beside, origin_lasting. }
    apply keeps_bind; [apply HK, keeps_ask, anchored_ask|intros [|]].
    + apply keeps_bind; [apply HK, forget_anchored|intros []; apply completed_anchored].
    + destruct (float_leb _ _); [|apply keeps_ret]. apply HK. apply keeps_bind; [apply forget_anchored|intros []].
      unfold _handle_timed_out_attempt. apply keeps_bind; [by apply keeps_ask, anchored_ask|intros t; apply abandon_anchored].
  - intros d w [Ha ->]. split; [done|]. intros k' [<-|[]]. apply (proj2 Ha).
    unfold od_get in Hk. destruct (List.find _ _) as [[k' a']|] eqn:Hf; [|done]. apply find_some in Hf as [Hi Heq]. injection Hk as ->. apply Z.eqb_eq in Heq. by cbn in Heq; subst.
Qed.

Lemma turns_anchored n : keeps step anchored (turns s uuid4 fuel n).
Proof. apply turns_kept; [done|apply refresh_anchored|apply poll_anchored|apply claim_anchored]. Qed.

(** C30: From a worker that tracks no job and no pending start, after any number of
    turns, however they went and whatever was answered, the lease of every job,
    and of every start that is pending, counts from an instant that the worker had
    read from its clock, as its last reading, when it made a statement that
    claimed the job or renewed its lease and that succeeded: never from the
    commit, from the start of the process or from a statement that failed. *)
Theorem leases_anchored n d tr r d' :
  objects d = ∅ -> _pending_starts d = [] -> runs (turns s uuid4 fuel n d) tr (r, d') ->
  exists w, accepts step initial tr = Some w /\ anchored d' w.
Proof.
  intros Ho Hp Hr.
  assert (anchored d initial) as Hd by (split; [by rewrite Ho|by rewrite Hp]).
  destruct (watched_runs step anchored _ _ d initial tr (r, d') (turns_anchored n) Hd Hr) as (w & Hw & H). by exists w.
Qed.
End loop.
End Anchors.

(** ** Enforcement *)

Module Enforced.
Definition step (w : unit) (B : Type) (c : call B) : B -> option unit := fun _ => Some tt.

Section enforced.
Context (s : Settings) (now : pyfloat).

(** The job has ended, is being stopped, or its lease is safe at [now]. *)
Definition safe_job (j : job) : Prop :=
  completed j = true \/ term_sent j = true \/ float_leb (unsafe_at s (last_heartbeat_at j)) now = false.
Definition all_safe (ks : list Z) (d : worker) (_ : unit) : Prop :=
  forall k, In k ks -> exists j, objects d !! k = Some j /\ safe_job j.

Lemma put_safe k j ks d w : safe_job j -> all_safe ks d w -> all_safe ks (put_job k j d) w.
Proof.
  intros Hj H k' Hk. cbn. destruct (decide (k' = k)) as [->|Hne]; [exists j; by rewrite lookup_insert_eq|].
  rewrite lookup_insert_ne by done. by apply H.
Qed.

(** A change that keeps jobs safe. *)
Lemma change_safe k f ks d w : (forall j, objects d !! k = Some j -> safe_job j -> safe_job (f j)) -> all_safe ks d w -> all_safe ks (changed k f d) w.
Proof.
  intros Hf H k' Hk. unfold changed. destruct (objects d !! k) as [j|] eqn:Hj; [|by apply H].
  cbn. destruct (decide (k' = k)) as [->|Hne]; [|rewrite lookup_insert_ne by done; by apply H].
  rewrite lookup_insert_eq. exists (f j). split; [done|]. destruct (H k Hk) as (j' & Hj' & Hs). rewrite Hj in Hj'. injection Hj' as <-. by apply Hf.
Qed.

Lemma steady_safe f j : steady f -> safe_job j -> safe_job (f j).
Proof. intros Hf Hs. destruct (Hf j) as (_&_&_&Hh&Hc&Ht). unfold safe_job. rewrite Hh. destruct Hs as [?|[?|?]]; auto. Qed.

Lemma harmless_all {memory B : Type} (I : memory -> unit -> Prop) (c : call B) : harmless step I c.
Proof. intros d [] b H. by exists tt. Qed.

Lemma all_safe_calm ks : calm step (all_safe ks).
Proof.
  assert (unconcerned step (all_safe ks)) as Hu by (split; intros; apply harmless_all).
  assert (forall k l d w, all_safe ks d w -> all_safe ks (put_ledger k l d) w) as Hl.
  { intros k l d w. apply (change_safe k (set_owned_members l)). by intros j _. }
  split; intros; try apply harmless_all.
  - apply change_safe; [|done]. intros j _. by apply steady_safe.
  - intros k Hk. rewrite H. by apply H1.
  - by apply signal_plain.
  - by apply alive_plain.
Qed.

Lemma request_stop_safe k reason ks :
  watched step (all_safe ks) (request_stop k reason) (fun r d w => match r with Ok _ => all_safe (k :: ks) d w | Raise _ => True end).
Proof.
  assert (forall j d w, objects d !! k = Some j -> safe_job j -> all_safe ks d w -> all_safe (k :: ks) d w) as Hadd.
  { intros j d w Hj Hs H k' [<-|Hk]; [by exists j|by apply H]. }
  unfold request_stop, job_of. eapply (watched_bind step _ _ _ (fun r d w => match r with Ok j => all_safe ks d w /\ objects d !! k = Some j | Raise _ => True end)); [| |done].
  - apply watched_self_bind. intros d0. destruct (objects d0 !! k) as [j|] eqn:Hj; [|by apply watched_raise]. apply watched_ret. by intros d w [H ->].
  - intros j. destruct (term_sent j) eqn:Ht; [apply watched_ret; intros d w [H Hj]; eapply Hadd; eauto; by right; left|].
    eapply (watched_bind step _ _ _ (fun r d w => all_safe ks d w /\ objects d !! k = Some j)); [| |done].
    + apply watched_ask. intros d [] b H. by exists tt.
    + intros t. eapply (watched_bind step _ _ _ (fun _ => all_safe (k :: ks))); [| |done].
      * apply watched_update. intros d w [H Hj]. rewrite Hj. apply (Hadd (mark_stopped reason t j)); [cbn; by rewrite lookup_insert_eq|by right; left|].
        apply put_safe; [by right; left|done].
      * intros []. eapply watched_mono; [apply (c_signal _ _ (all_safe_calm (k :: ks)))|done|by intros []].
Qed.

Lemma enforce_one k ks :
  watched step (all_safe ks)
    (j ← job_of k;
     if completed j || term_sent j then mret tt
     else if float_leb (unsafe_at s (last_heartbeat_at j)) now then _ ← change k (set_lease_evicted true); request_stop k LEASE
     else mret tt)
    (fun r d w => match r with Ok _ => all_safe (k :: ks) d w | Raise _ => True end).
Proof.
  unfold job_of. eapply (watched_bind step _ _ _ (fun r d w => match r with Ok j => all_safe ks d w /\ objects d !! k = Some j | Raise _ => True end)); [| |done].
  - apply watched_self_bind. intros d0. destruct (objects d0 !! k) as [j|] eqn:Hj; [|by apply watched_raise]. apply watched_ret. by intros d w [H ->].
  - intros j. assert (forall d w, safe_job j -> all_safe ks d w /\ objects d !! k = Some j -> all_safe (k :: ks) d w) as Hadd.
    { intros d w Hs [H Hj] k' [<-|Hk]; [by exists j|by apply H]. }
    destruct (completed j || term_sent j) eqn:Hc.
    { apply watched_ret. intros d w. apply Hadd. apply orb_true_iff in Hc as [?|?]; [by left|by right; left]. }
    destruct (float_leb _ now) eqn:Hu; [|apply watched_ret; intros d w; apply Hadd; by right; right].
    eapply (watched_bind step _ _ _ (fun _ => all_safe ks)); [| intros []; apply request_stop_safe|done].
    apply watched_update. intros d w [H _]. apply (change_safe k (set_lease_evicted true)); [by intros j' _|done].
Qed.

Lemma enforce_all ks : forall past,
  watched step (all_safe past) (for_each ks (fun k =>
     j ← job_of k;
     if completed j || term_sent j then mret tt
     else if float_leb (unsafe_at s (last_heartbeat_at j)) now then _ ← change k (set_lease_evicted true); request_stop k LEASE
     else mret tt)) (fun r d w => match r with Ok _ => all_safe (rev ks ++ past) d w | Raise _ => True end).
Proof.
  induction ks as [|k ks IH]; intros past; cbn [for_each]; [by apply watched_ret|].
  eapply watched_bind; [apply enforce_one| |done]. intros []. eapply watched_mono; [apply IH|done|].
  intros [[]|x] d w H; [|done]. cbn. by rewrite <-app_assoc.
Qed.
End enforced.

(** Once leases have been enforced, at an instant [now] read from the clock, every
    job of the registry has ended, is being stopped, or its lease is still safe at
    [now]; and the deadline the turn's statements are then given ends them before the
    lease of any job that runs on becomes unsafe. *)
Theorem no_lease_outlived s d tr d' start :
  runs (_enforce_lease_safety s d) tr (Ok tt, d') ->
  is_number (float_add start (db_operation_timeout_seconds s)) = true ->
  Forall (fun o => is_number (unsafe_at s o) = true) (heartbeat_origins d') ->
  exists now rest, tr = Exchange Monotonic now :: rest
  /\ (forall k, In k (active d) -> exists j, objects d' !! k = Some j /\ safe_job s now j)
  /\ (forall k j, In k (active d') -> objects d' !! k = Some j -> completed j = false -> term_sent j = false ->
        float_ltb zero (last_heartbeat_at j) = true ->
        float_leb (_operation_deadline s d' start) (unsafe_at s (last_heartbeat_at j)) = true).
Proof.
  intros Hr Hn Ho. apply runs_ask_inv in Hr as (now & rest & -> & Hr). exists now, rest. split; [done|]. split.
  - destruct (watched_runs step _ _ _ d tt rest (Ok tt, d') (enforce_all s now (active d) []) ltac:(by intros k []) Hr) as (w & _ & H).
    intros k Hk. apply (H k). rewrite app_nil_r. by apply in_rev in Hk.
  - intros k j Hk Hj Hc Ht Hh. destruct (deadline_within_leases s start (heartbeat_origins d') Hn Ho) as (_ & Hall & _).
    rewrite List.Forall_forall in Hall. apply Hall. unfold heartbeat_origins. apply in_flat_map. exists k. split; [done|].
    rewrite Hj, Hc, Ht, Hh. by left.
Qed.
End Enforced.
