(* ===== verification/WorkerFuture.v ===== *)
(** A start between its lane and the supervisor ([_SpawnFuture], [_SpawnExecutor] and
    the attempts of [Supervisor] in [src/lubko/worker.py]): the two threads interleave
    between any two operations of the future, and the start is taken care of once. *)

From S2P Require Import Prelude PyStr PyNum Json Uuid ProcFs Protocol Output Capture WorkerSettings JobQueue Programs WorkerWorld WorkerStarts.
From stdpp Require Import gmap.

#[local] Open Scope Z_scope.

Module Futures.
(** Where the lane is: its item waits in the queue, its callable runs, it is done. *)
Inductive lane := Queued | Running | Finished.

(** Where the supervisor is with the attempt: it polls it, fails its row, installs the
    callback, cancels the future; it has taken the result, given the attempt up, or left
    it behind by an exception. *)
Inductive supervisor := Waiting | FailingRow | Installing | Cancelling | Taken | GivenUp | LeftBehind.

(** What is done with a start: its gated process is activated, or aborted and reaped. *)
Inductive care := Activated (g : GatedSpawn) | Aborted (g : GatedSpawn).

Record attempt := mkAttempt {
  future : _SpawnFuture;
  lane_at : lane;
  supervisor_at : supervisor;
  produced : option GatedSpawn;
  cared : list care;
}.

Definition submitted : attempt := mkAttempt new_future Queued Waiting None [].

Definition started (r : res GatedSpawn) : option GatedSpawn := match r with Ok g => Some g | Raise _ => None end.
Definition aborted (o : option GatedSpawn) : list care := match o with Some g => [Aborted g] | None => [] end.
Definition activated (o : option GatedSpawn) : list care := match o with Some g => [Activated g] | None => [] end.

(** The start a callback called at once is given. *)
Definition called (o : option (option (res GatedSpawn))) : option GatedSpawn :=
  match o with Some (Some r) => started r | _ => None end.

Inductive step : attempt -> attempt -> Prop :=
  (* [_worker_loop] *)
  | lane_claims f p o c f' :
      try_claim_execution f = (f', true) -> step (mkAttempt f Queued p o c) (mkAttempt f' Running p o c)
  | lane_skips f p o c f' :
      try_claim_execution f = (f', false) -> step (mkAttempt f Queued p o c) (mkAttempt f' Finished p o c)
  | lane_refuses f p o c f' fired :
      set_result (Raise OSError) f = (f', fired) -> step (mkAttempt f Queued p o c) (mkAttempt f' Finished p o (c ++ aborted fired))
  | lane_returns f p o c r f' fired :
      set_result r f = (f', fired) -> step (mkAttempt f Running p o c) (mkAttempt f' Finished p (started r) (c ++ aborted fired))
  (* [_poll_pending_starts], [_handle_timed_out_attempt], [_cleanup_pending_starts] *)
  | takes f l o c :
      f_done f = true -> step (mkAttempt f l Waiting o c) (mkAttempt f l Taken o (c ++ activated (f_result f ≫= started)))
  | gives_up f l o c :
      step (mkAttempt f l Waiting o c) (mkAttempt f l FailingRow o c)
  | row_failed f l o c :
      step (mkAttempt f l FailingRow o c) (mkAttempt f l Installing o c)
  | row_raises f l o c :
      step (mkAttempt f l FailingRow o c) (mkAttempt f l LeftBehind o c)
  | installs f l o c f' now :
      install_callback f = (f', now) -> step (mkAttempt f l Installing o c) (mkAttempt f' l Cancelling o (c ++ aborted (called now)))
  | cancels f l o c :
      step (mkAttempt f l Cancelling o c) (mkAttempt (WorkerStarts.cancel f) l GivenUp o c).

(** What holds between any two operations. *)
Record consistent (a : attempt) : Prop := {
  co_result : produced a = (f_result (future a) ≫= started);
  co_open : lane_at a <> Finished -> f_result (future a) = None;
  co_executed : f_executed (future a) = true \/ produced a = None;
  co_running : lane_at a = Running -> f_executed (future a) = true;
  co_done : f_done (future a) = true <-> (f_cancelled (future a) = true \/ is_Some (f_result (future a)));
  co_cancelled : f_cancelled (future a) = true <-> supervisor_at a = GivenUp;
  co_callback : match supervisor_at a with
    | Cancelling | GivenUp => f_callback (future a) = true \/ lane_at a = Finished
    | _ => f_callback (future a) = false
    end;
  co_taken : supervisor_at a = Taken -> lane_at a = Finished;
  co_cared : cared a = match supervisor_at a with
    | Taken => activated (produced a) | Cancelling | GivenUp => aborted (produced a) | _ => [] end;
}.

Lemma submitted_consistent : consistent submitted.
Proof. split; cbn; try done; [by right|]. split; [done|]. by intros [|[? ?]]. Qed.

(** The goals of [consistent] that a step of the lane leaves. *)
Ltac settle Ho Hcb Ht fc := try done; first
  [ by left | by right | by intros _; apply Ho | by left; destruct Hcb | by intros H; specialize (Ht H) | by rewrite app_nil_r
  | by split; [intros _; right; eexists|] | by destruct fc ].

Lemma step_consistent a b : step a b -> consistent a -> consistent b.
Proof.
  intros Hs [Hr Ho He Hrun Hd Hc Hcb Ht Hca].
  destruct Hs as [f p o c f' Hf|f p o c f' Hf|f p o c f' fired Hf|f p o c r f' fired Hf|f l o c Hf|f l o c|f l o c|f l o c|f l o c f' now Hf|f l o c];
    cbn in *; destruct f as [fr fd fc fe fb]; unfold try_claim_execution, set_result, install_callback, WorkerStarts.cancel in *; cbn in *.
  - destruct fc; [done|]. injection Hf as <-. destruct p; split; cbn; settle Ho Hcb Ht true.
  - destruct fc; [|done]. injection Hf as <-. destruct p; split; cbn; settle Ho Hcb Ht true.
  - injection Hf as <- <-. rewrite Ho in Hr by done. cbn in Hr. subst. destruct p; split; cbn; settle Ho Hcb Ht true.
  - injection Hf as <- <-. rewrite Ho in Hr by done. rewrite (Hrun eq_refl) in *. cbn in Hr. subst.
    destruct p; try (by specialize (Ht eq_refl)); try (destruct Hcb as [->|?]; [|done]); subst; destruct r as [g|x]; split; cbn; settle Ho Ho Ho fc.
  - subst. split; cbn; try done.
    + split; intros H; [by apply Hc in H|done].
    + intros _. destruct l; try done; (destruct Hd as [Hd _]; destruct (Hd eq_refl) as [H|[? H]]; [by apply Hc in H|by rewrite Ho in H]).
  - subst. split; cbn; try done. split; intros H; [by apply Hc in H|done].
  - subst. split; cbn; try done. split; intros H; [by apply Hc in H|done].
  - subst. split; cbn; try done. split; intros H; [by apply Hc in H|done].
  - subst. destruct fd; injection Hf as <- <-.
    + assert (l = Finished) as ->.
      { destruct l; try done; (destruct Hd as [Hd _]; destruct (Hd eq_refl) as [H|[? H]]; [by apply Hc in H|by rewrite Ho in H]). }
      split; cbn; try done; first [by right|by destruct fr as [[g|x]|]|split; intros H; [by apply Hc in H|done]].
    + destruct fr as [r|]; [destruct Hd as [_ Hd]; by discriminate Hd; eauto|]. split; cbn; try done; first [by left|split; intros H; [by apply Hc in H|done]].
  - subst. split; cbn; try done. by split; [left|].
Qed.

(** What is reachable is consistent. *)
Lemma reachable_consistent a : rtc step submitted a -> consistent a.
Proof.
  intros H. assert (forall b, rtc step b a -> consistent b -> consistent a) as Hall; [|apply (Hall _ H), submitted_consistent].
  intros b Hb. induction Hb as [b|b c a Hs _ IH]; [done|]. intros Hc. by apply IH, (step_consistent b).
Qed.

(** However the lane and the supervisor interleave: a start that a lane produces is
    activated, or aborted and reaped, at most once and never both; once the lane is done
    and the supervisor has taken the result or given the attempt up, exactly once; it is
    activated only by a supervisor that took it; and a lane runs nothing once the
    attempt has been cancelled before it claimed it. *)
Theorem start_cared_once a : rtc step submitted a ->
  (length (cared a) <= 1)%nat
  /\ (forall g, In (Activated g) (cared a) -> supervisor_at a = Taken /\ produced a = Some g)
  /\ (forall g, In (Aborted g) (cared a) -> produced a = Some g)
  /\ (lane_at a = Finished -> supervisor_at a = Taken -> cared a = activated (produced a))
  /\ (lane_at a = Finished -> supervisor_at a = GivenUp -> cared a = aborted (produced a))
  /\ (lane_at a = Queued -> f_cancelled (future a) = true -> forall b, step a b -> lane_at b <> Running).
Proof.
  intros H. pose proof (reachable_consistent a H) as [Hr Ho He Hrun Hd Hc Hcb Ht Hca]. split_and!.
  - rewrite Hca. by destruct (supervisor_at a), (produced a); cbn; lia.
  - intros g Hg. rewrite Hca in Hg. destruct (supervisor_at a), (produced a); cbn in Hg; try done; by destruct Hg as [[= <-]|[]].
  - intros g Hg. rewrite Hca in Hg. destruct (supervisor_at a), (produced a); cbn in Hg; try done; by destruct Hg as [[= <-]|[]].
  - intros _ Hs. by rewrite Hca, Hs.
  - intros _ Hs. by rewrite Hca, Hs.
  - intros Hq Hx b Hs. destruct Hs as [f p o c f' Hf| | | | | | | | |]; cbn in *; try done; [|congruence..].
    unfold try_claim_execution in Hf. by rewrite Hx in Hf.
Qed.

Definition some_stream : OutputStream := mkStream [] None false [] 0 0 zero 0 None 0 [] 0 0.
Definition some_start : GatedSpawn := mkGated 1 4242 4242 some_stream some_stream 7 8 9.

(** A start that comes late, aborted by the lane. *)
Lemma start_cared_once_witness :
  let a := mkAttempt (mkFuture (Some (Ok some_start)) true true true true) Finished GivenUp (Some some_start) [Aborted some_start] in
  rtc step submitted a /\ cared a = aborted (produced a).
Proof.
  intros a. assert (rtc step submitted a) as H; [|split; [exact H|by apply (start_cared_once a H)]].
  eapply rtc_l; [by eapply lane_claims|]. eapply rtc_l; [apply gives_up|]. eapply rtc_l; [apply row_failed|].
  eapply rtc_l; [by eapply installs|]. eapply rtc_l; [apply cancels|]. eapply rtc_l; [by apply (lane_returns _ _ _ _ (Ok some_start))|]. apply rtc_refl.
Defined.

(** An exception while the row is failed leaves the attempt without a callback: its
    start, when it comes, is neither activated nor aborted. *)
Lemma start_left_behind :
  exists a, rtc step submitted a /\ lane_at a = Finished /\ produced a = Some some_start /\ cared a = [] /\ forall b, ~ step a b.
Proof.
  eexists. split; [|].
  - eapply rtc_l; [by eapply lane_claims|]. eapply rtc_l; [apply gives_up|]. eapply rtc_l; [apply row_raises|].
    eapply rtc_l; [by apply (lane_returns _ _ _ _ (Ok some_start))|]. apply rtc_refl.
  - cbn. split_and!; try done. intros b Hs. inversion Hs.
Qed.
End Futures.
