(* ===== verification/WorkerSpawn.v ===== *)
(** Starting a job leaks nothing: whatever fails on the way, the descriptors made are
    closed and the child is reaped before the failure goes on. *)

From S2P Require Import Prelude PyStr PyNum Json Uuid ProcFs Protocol Output Capture WorkerSettings JobQueue Programs WorkerWorld WorkerGroups WorkerJobs WorkerStarts WorkerRuns.
From stdpp Require Import gmap gmultiset.

#[local] Open Scope Z_scope.

Module Resources.
(** The descriptors made and not closed, the child not known to have ended, and whether
    a pipe or a process was refused with anything but an [OSError]. *)
Record state := mkHeld { open : gmultiset Z; child : option (Z * Z); odd : bool }.
Definition initial : state := mkHeld ∅ None false.

Definition refused {A} (r : res A) : bool := match r with Ok _ | Raise OSError => false | Raise _ => true end.

Definition step (w : state) (B : Type) (c : call B) : B -> option state :=
  match c in call B return B -> option state with
  | MakePipe => fun r => Some (mkHeld (match r with Ok (a, b) => open w ⊎ {[+ a; b +]} | Raise _ => open w end) (child w) (odd w || refused r))
  | Popen _ _ _ _ => fun r => Some (mkHeld (open w) (match r with Ok pp => Some pp | Raise _ => child w end) (odd w || refused r))
  | Close fd => fun _ => Some (mkHeld (open w ∖ {[+ fd +]}) (child w) (odd w))
  | Poll p => fun code =>
      Some (match code, child w with
            | Some _, Some (p', _) => if p =? p' then mkHeld (open w) None (odd w) else w
            | _, _ => w
            end)
  | KillGroup g _ => fun _ => match child w with Some (_, pid) => if g =? pid then Some w else None | None => None end
  | _ => fun _ => Some w
  end.

(** The multiset of a list of descriptors. *)
Abbreviation bag := (list_to_set_disj (C := gmultiset Z)).

Lemma bag_cons fd l : bag (fd :: l) ∖ {[+ fd +]} = bag l.
Proof. rewrite list_to_set_disj_cons. generalize (bag l). intros X. multiset_solver. Qed.
Lemma bag_pipe a b l : bag l ⊎ {[+ a; b +]} = bag (l ++ [a; b]).
Proof. rewrite list_to_set_disj_app, !list_to_set_disj_cons, list_to_set_disj_nil. generalize (bag l). intros X. multiset_solver. Qed.
Lemma nothing_closed fd : (∅ : gmultiset Z) ∖ {[+ fd +]} = ∅.
Proof. multiset_solver. Qed.

Lemma closed_between fd a : bag [fd] ∖ {[+ a +]} ∖ {[+ fd +]} = ∅.
Proof. rewrite list_to_set_disj_cons, list_to_set_disj_nil, (right_id_L ∅ (⊎)). multiset_solver. Qed.

Section spawn.
Context {memory : Type} (fuel : nat).

Abbreviation condition := (memory -> state -> Prop).
(** Exactly these are held. *)
Definition holds (fds : gmultiset Z) (c : option (Z * Z)) : condition := fun _ w => w = mkHeld fds c false.
(** Nothing is held, or the world refused oddly. *)
Definition clean : condition := fun _ w => odd w = true \/ w = initial.

(** A question that says nothing of what is held. *)
Lemma same {B : Type} fds c (q : call B) : (forall w b, step w B q b = Some w) -> keeps step (holds fds c) (ask q).
Proof. intros H. apply keeps_ask. intros d w b Hw. exists w. by rewrite H. Qed.
Lemma same_res {B : Type} fds c (q : call (res B)) : (forall w b, step w _ q b = Some w) -> keeps step (holds fds c) (ask_res q).
Proof. intros H. apply keeps_ask_res. intros d w b Hw. exists w. by rewrite H. Qed.

Definition without (fds : gmultiset Z) (l : list Z) : gmultiset Z := fold_left (fun s fd => s ∖ {[+ fd +]}) l fds.

Lemma closed fds c l : watched step (holds fds c) (close_all l) (fun _ => holds (without fds l) c).
Proof.
  revert fds. induction l as [|fd l IH]; intros fds; [by apply watched_ret|].
  unfold close_all. cbn [for_each]. eapply (watched_bind step _ _ _ (fun r => match r with Ok _ => holds (fds ∖ {[+ fd +]}) c | Raise _ => fun _ _ => False end)); [| |done].
  - apply watched_ask. intros d w b ->. by eexists.
  - intros []. apply IH.
Qed.

(** A pipe or a process that is refused: what was made is closed. *)
Lemma closing_watched {A : Type} (fds : gmultiset Z) c l (q : call (res A)) (P : A -> condition) :
  (forall d a, exists w', step (mkHeld fds c false) _ q (Ok a) = Some w' /\ P a d w') ->
  (forall x, step (mkHeld fds c false) _ q (Raise x) = Some (mkHeld fds c (refused (A := A) (Raise x)))) ->
  without fds l = ∅ -> c = None ->
  watched step (holds fds c) (closing l (ask_res q)) (fun r => match r with Ok a => P a | Raise _ => clean end).
Proof.
  intros Hok Hraise Hl ->. unfold closing.
  eapply (watched_bind step _ _ _ (fun r => match r with Ok (Ok a) => P a | Ok (Raise OSError) => holds fds None | Ok (Raise _) => clean | Raise _ => fun _ _ => False end)); [| |done].
  - eapply watched_mono; [apply (watched_outcome step (holds fds None) _ (fun r => match r with Ok a => P a | Raise OSError => holds fds None | Raise _ => clean end)), watched_ask_res|done|].
    + intros d w r ->. destruct r as [a|x]; [by apply Hok|]. rewrite Hraise. eexists. split; [done|]. destruct x; try (by left); done.
    + by intros [[a|[]]|x] d w.
  - intros [a|x]; [by apply watched_ret|]. destruct x; try (by apply watched_raise).
    eapply watched_bind; [apply closed|intros []; apply watched_raise; intros d w ->|intros y d w ->]; right; by rewrite Hl.
Qed.

Lemma kill_child_watched fds p pid n :
  watched step (holds fds (Some (p, pid))) (kill_child n p pid)
    (fun r => match r with Ok _ => holds fds None | Raise x => fun _ _ => x = OutOfFuel end).
Proof.
  induction n as [|n IH]; cbn [kill_child]; [by apply watched_raise|].
  eapply (watched_bind step _ _ _ (fun r => match r with Ok None => holds fds (Some (p, pid)) | Ok (Some _) => holds fds None | Raise _ => fun _ _ => False end)); [| |done].
  - apply watched_ask. intros d w [c|] ->; eexists; split; try reflexivity; cbn; try done. by rewrite Z.eqb_refl.
  - intros [c|]; [by apply watched_ret|].
    eapply (watched_bind step _ _ _ (fun r => match r with Ok _ => holds fds (Some (p, pid)) | Raise _ => fun _ _ => False end)); [| |done].
    + eapply watched_mono; [apply (watched_outcome step (holds fds (Some (p, pid))) _ (fun _ => holds fds (Some (p, pid)))), watched_ask_res|done|by intros []].
      intros d w r ->. eexists. split; [cbn; by rewrite Z.eqb_refl|done].
    + intros _. eapply (watched_bind step _ _ _ (fun r => match r with Ok _ => holds fds (Some (p, pid)) | Raise _ => fun _ _ => False end)); [|intros []; exact IH|done].
      apply watched_ask. intros d w b ->. by eexists.
Qed.

Lemma session_kept fds c n t pid : keeps step (holds fds c) (await_session n t pid).
Proof.
  induction n as [|n IH]; cbn [await_session]; [apply keeps_raise|].
  apply keeps_bind; [by apply keeps_outcome, same_res|]. intros [g|[]]; try apply keeps_raise; [|apply keeps_ret].
  destruct (g =? pid); [apply keeps_ret|]. apply keeps_bind; [by apply same|intros now].
  destruct (float_leb t now); [apply keeps_ret|]. apply keeps_bind; [by apply same|intros []; exact IH].
Qed.

Lemma prepare_watched fds c pid ow ew or er :
  watched step (holds fds c) (_prepare_capture_fds fuel pid ow ew or er) (fun _ => holds (without fds [ow; ew]) c).
Proof.
  unfold _prepare_capture_fds, _wait_for_session. eapply watched_bind; [apply closed| |done]. intros [].
  apply keeps_bind; [apply keeps_for_each; intros fd; by apply same_res|intros []].
  apply keeps_bind; [by apply same|intros now; apply session_kept].
Qed.

#[local] Ltac pipe := eexists; split; [reflexivity|unfold holds; cbn [open child odd]; by rewrite bag_pipe].
#[local] Ltac empties := unfold without; cbn [fold_left]; rewrite ?bag_cons; cbn; rewrite ?nothing_closed; reflexivity.

(** C29: Whatever the kernel answers, when spawn_job raises it holds nothing: every
    descriptor it made is closed and its child, if there was one, was found ended
    by a poll; the only group it ever kills by number is that of its own child,
    before a poll has found it ended; and when it returns, it holds just what it
    returns: the child, the write end of its gate and the read ends of its pipes.
    The raising half assumes that pipes and processes are refused with OSError
    only, and that the wait for a killed child ends; that descriptors are closed
    twice on one path is a finding. *)
Theorem spawn_leaks_nothing job (d : memory) tr r d' :
  runs (spawn_job fuel job d) tr (r, d') -> exists w, accepts step initial tr = Some w
  /\ match r with
     | Ok g => w = mkHeld {[+ g_gate_fd g; g_stdout_read_fd g; g_stderr_read_fd g +]} (Some (g_proc g, g_pid g)) false
     | Raise x => x = OutOfFuel \/ odd w = true \/ w = initial
     end.
Proof.
  intros Hr. assert (watched step (fun (_ : memory) w => w = initial) (spawn_job fuel job)
    (fun r _ w => match r with
     | Ok g => w = mkHeld {[+ g_gate_fd g; g_stdout_read_fd g; g_stderr_read_fd g +]} (Some (g_proc g, g_pid g)) false
     | Raise x => x = OutOfFuel \/ odd w = true \/ w = initial end)) as Hw; [|by destruct (watched_runs step _ _ _ d initial tr (r, d') Hw eq_refl Hr) as (w & ? & ?); exists w].
  clear. unfold spawn_job.
  do 2 (eapply (watched_bind step _ _ _ (fun _ => holds (bag []) None)); [by apply same_res|intros ?|by intros; right; right]).
  eapply watched_bind; [apply (closing_watched (bag []) None _ MakePipe (fun '(x, y) => holds (bag [x; y]) None))|intros [gr gw]|by intros x d w [?|?]; right; [left|right]];
    [intros ? [x y]; pipe|done|empties|done|].
  eapply watched_bind; [apply (closing_watched _ None _ MakePipe (fun '(x, y) => holds (bag [gr; gw; x; y]) None))|intros [or ow]|by intros x d w [?|?]; right; [left|right]];
    [intros ? [x y]; pipe|done|empties|done|].
  eapply watched_bind; [apply (closing_watched _ None _ MakePipe (fun '(x, y) => holds (bag [gr; gw; or; ow; x; y]) None))|intros [er ew]|by intros x d w [?|?]; right; [left|right]];
    [intros ? [x y]; pipe|done|empties|done|].
  eapply watched_bind; [apply (closing_watched _ None _ (Popen job gr ow ew) (fun '(p, pid) => holds (bag [gr; gw; or; ow; er; ew]) (Some (p, pid))))|intros [p pid]|by intros x d w [?|?]; right; [left|right]];
    [intros ? [x y]; by eexists|done|empties|done|].
  eapply (watched_bind step _ _ _ (fun r => match r with Ok _ => holds (bag [gw; or; ow; er; ew]) (Some (p, pid)) | Raise _ => fun _ _ => False end)); [|intros []|done].
  { apply watched_ask. intros d w b ->. eexists. split; [reflexivity|]. unfold holds. cbn [open child odd]. by rewrite bag_cons. }
  assert (without (bag [gw; or; ow; er; ew]) [ow; ew] = bag [gw; or; er]) as Hleft.
  { rewrite (list_to_set_disj_perm [gw; or; ow; er; ew] [ow; ew; gw; or; er]) by solve_Permutation. unfold without. cbn [fold_left]. by rewrite !bag_cons. }
  eapply (watched_bind step _ _ _ (fun r => match r with Ok _ => holds (bag [gw; or; er]) (Some (p, pid)) | Raise _ => fun _ _ => False end)); [| |done].
  { eapply watched_mono; [apply watched_outcome, prepare_watched|intros d w H; exact H|]. intros [r|x] d w H; [rewrite Hleft in H; exact H|destruct H]. }
  intros [pgid|x].
  { apply watched_ret. intros d w ->. cbn [g_gate_fd g_stdout_read_fd g_stderr_read_fd g_proc g_pid]. f_equal.
    by rewrite !list_to_set_disj_cons, list_to_set_disj_nil, (right_id_L ∅ (⊎)), (assoc_L (⊎)). }
  eapply watched_bind; [apply kill_child_watched| |by intros x' d w; left]. intros [].
  assert (without (bag [gw; or; er]) [gw; or; ow; er; ew] = ∅) as Hnone.
  { unfold without. cbn [fold_left]. by rewrite !bag_cons, closed_between, nothing_closed. }
  eapply watched_bind; [apply closed|intros []; apply watched_raise; intros d w ->|intros y d w ->]; right; right; by rewrite Hnone.
Qed.
End spawn.
End Resources.
