(* ===== verification/WorkerMachine.v ===== *)
(** The worker on a machine: a job is claimed, started, cancelled and finished, and the
    theorems about the worker apply to the run; and what failures of the database do. *)

From S2P Require Import Prelude PyStr PyNum FloatFacts Json Uuid ProcFs Protocol Output Capture WorkerSettings JobQueue Programs WorkerWorld WorkerGroups WorkerJobs WorkerStarts WorkerLeases WorkerFinalization WorkerLoop WorkerRuns WorkerGate WorkerSignals WorkerRecovery WorkerLeaseSafety WorkerFuture WorkerSpawn.
From stdpp Require Import gmap.

#[local] Open Scope Z_scope.

(** ** The machine *)

(** How the database fails, from an instant on: the heartbeat, the terminal write, the
    quarantine, the record of a process; and how the kernel fails to make a pipe
    nonblocking. *)
Record faults := mkFaults {
  f_from : Z;
  f_refresh : option exn;
  f_finish : option exn;
  f_quarantine : option exn;
  f_persist : option exn;
  f_nonblocking : option exn;
}.
Definition no_fault : faults := mkFaults 0 None None None None None.

(** The clock goes on with every pause; the process of the job ends when it is killed,
    or asked to terminate unless it is [stubborn]. *)
Record machine := mkMachine {
  ticking : Z;
  queue : list (Z * pystr);
  alive : bool;
  stubborn : bool;
  cancel_at : Z;
  shutdown_at : Z;
  faulty : faults;
  next_fd : Z;
}.

Definition job_pid : Z := 4242.
Definition job_stat : pybytes := py "4242 (sh) S 77 4242 4242 0 -1 0 0 0 0 0 7 3 0 0 20 0 1 0 9000 0 0".

Definition proc_of (m : machine) : procfs :=
  let runs pid := alive m && (pid =? job_pid) in
  mkProcfs
    (fun pid => if runs pid then ReadOk job_stat else ReadNotFound)
    (fun _ => ReadNotFound) (fun _ => ReadNotFound)
    (fun pid => if runs pid then Some pid else None) (fun pid => if runs pid then Some pid else None)
    77 (Some (if alive m then [py "self"; py "4242"] else [py "self"])).

Definition a_stream : OutputStream := mkStream [] None false [] 0 0 zero 0 None 0 [] 0 0.
Definition a_start : GatedSpawn := mkGated 1 job_pid job_pid a_stream a_stream 7 8 9.

Definition advance (m : machine) : machine := mkMachine (ticking m + 1) (queue m) (alive m) (stubborn m) (cancel_at m) (shutdown_at m) (faulty m) (next_fd m).
Definition set_queue (q : list (Z * pystr)) (m : machine) : machine := mkMachine (ticking m) q (alive m) (stubborn m) (cancel_at m) (shutdown_at m) (faulty m) (next_fd m).
Definition open_two (m : machine) : machine := mkMachine (ticking m) (queue m) (alive m) (stubborn m) (cancel_at m) (shutdown_at m) (faulty m) (next_fd m + 2).
Definition kill_job (m : machine) : machine := mkMachine (ticking m) (queue m) false (stubborn m) (cancel_at m) (shutdown_at m) (faulty m) (next_fd m).

Definition failing {A} (m : machine) (which : faults -> option exn) (a : A) : res A :=
  match which (faulty m) with
  | Some x => if f_from (faulty m) <=? ticking m then Raise x else Ok a
  | None => Ok a
  end.

Definition machine_answer (m : machine) (B : Type) (c : call B) : B * machine :=
  match c in call B return B * machine with
  | Monotonic | Wall => (float_of_int (ticking m), m)
  | Sleep _ => (tt, advance m)
  | Proc => (proc_of m, m)
  | OpenPidfd _ => (if alive m then Ok 20 else Raise OSError, m)
  | SendSignal _ sig => (Ok tt, if (sig =? SIGKILL) || negb (stubborn m) then kill_job m else m)
  | Close _ => (tt, m)
  | Poll _ => (if alive m then None else Some 0, m)
  | Wait _ _ => (tt, m)
  | KillGroup _ _ => (Ok tt, kill_job m)
  | WriteGate _ => (Ok tt, m)
  | IsDirectory _ => (true, m)
  | NewBuffer => (Ok a_stream, m)
  | MakePipe => (Ok (next_fd m, next_fd m + 1), open_two m)
  | Popen _ _ _ _ => (Ok (1, job_pid), m)
  | SetNonblocking _ => (failing m f_nonblocking tt, m)
  | GetPgid p => (Ok p, m)
  | Readable _ => (Ok [], m)
  | BadFd _ => (false, m)
  | ReadPipe _ => (if alive m then WouldBlock else ReadBytes [], m)
  | Memory => (fun _ _ => true, m)
  | Submit _ => (true, m)
  | FutureDone _ => (true, m)
  | FutureResult _ => (Ok a_start, m)
  | InstallCallback _ => (None, m)
  | CancelFuture _ | ShutDownPool => (tt, m)
  | Connect | VerifyTable => (Ok tt, m)
  | CloseConnection => (tt, m)
  | InstallDeadline _ => (Ok tt, m)
  | Caught => ((mkDbError None false, false), m)
  | CaughtText => ([], m)
  | Repr text => (text, m)
  | RecoverStale => (Ok [], m)
  | RefreshLeases ids => (failing m f_refresh ids, m)
  | DiscoverCancellations => (Ok (if cancel_at m <=? ticking m then [7] else []), m)
  | ClaimJobs _ => (Ok (queue m), set_queue [] m)
  | ReapUnsupported _ => (Ok [], m)
  | PersistProcess _ _ _ _ => (failing m f_persist true, m)
  | FinishJob _ r => (failing m f_finish (Some (jr_status r)), m)
  | QuarantineRow _ _ => (failing m f_quarantine tt, m)
  | PublishRows _ _ _ => (Ok true, m)
  | OwnedRunningRows _ => (Ok [(py "id", JInt job_pid, JInt 9000)], m)
  | ShutdownRequested => (shutdown_at m <=? ticking m, m)
  | WriteHealth | StartCollector | StopCollector => (tt, m)
  | WriteSentinel _ => (Ok tt, m)
  end.

Definition a_settings : Settings :=
  default_settings (py "w") (py "srv") (py "inc") (float_of_int 1) (float_of_ratio false 1 10) (float_of_int 5).
Definition some_uuid (n : nat) : Z := 1000 + Z.of_nat n.

Definition the_payload : pystr := match build_payload (JStr (py "srv")) (JStr (py "/tmp")) (JArr [JStr (py "sleep")]) (JInt 4) with
  | Ok d => match json_dumps (JObj d) with Ok text => text | Raise _ => [] end
  | Raise _ => []
  end.

(** A run of the whole worker. *)
Definition run_on (m : machine) : list exchange * (res unit * worker) := drive machine_answer (run a_settings some_uuid 30 40 new_worker) m.
Lemma run_on_runs m : runs (run a_settings some_uuid 30 40 new_worker) (run_on m).1 (run_on m).2.
Proof. exact (drive_runs machine_answer (run a_settings some_uuid 30 40 new_worker) m). Qed.

(** What a trace does. *)
Definition signals (x : exchange) : option Z := match x with Exchange (SendSignal _ sig) _ => Some sig | _ => None end.
Definition gates (x : exchange) : option Z := match x with Exchange (WriteGate fd) _ => Some fd | _ => None end.
Definition finishes (x : exchange) : option (Z * pystr) := match x with Exchange (FinishJob k r) _ => Some (k, jr_status r) | _ => None end.
Definition sentinels (x : exchange) : option pystr := match x with Exchange (WriteSentinel i) _ => Some i | _ => None end.

(** ** A run *)

(** A job is claimed at once, cancelled from 104 on, and the worker told to stop at 112. *)
Definition quiet : machine := mkMachine 100 [(7, the_payload)] true false 104 112 no_fault 30.

Example cancelled_run :
  let '(tr, (r, w)) := run_on quiet in
  r = Ok tt /\ omap gates tr = [7] /\ omap signals tr = [SIGTERM] /\ omap finishes tr = [(7, py "cancelled")]
  /\ omap sentinels tr = [py "inc"] /\ active w = [].
Proof. vm_compute. by split_and!. Qed.

Lemma starts_gated_witness : is_Some (accepts Gate.step Gate.initial (run_on quiet).1).
Proof. apply (Gate.starts_gated a_settings some_uuid 30 40 new_worker _ _ (run_on_runs quiet)). Defined.

Lemma members_signalled_witness :
  omap signals (run_on quiet).1 = [SIGTERM] /\ is_Some (accepts Members.step Members.initial (run_on quiet).1).
Proof.
  split; [by vm_compute|].
  apply (Members.members_signalled a_settings some_uuid 30 40 _ _ (run_on_runs quiet)).
Defined.

(** *** The groups of a dead worker *)

Definition recovery_on (m : machine) := drive machine_answer (recover_owned_job_groups 40 (py "dead") (float_of_int 5) tt) m.
Lemma recovery_on_runs m : runs (recover_owned_job_groups 40 (py "dead") (float_of_int 5) tt) (recovery_on m).1 (recovery_on m).2.
Proof. exact (drive_runs machine_answer (recover_owned_job_groups 40 (py "dead") (float_of_int 5) tt) m). Qed.

Lemma recovery_signals_proven_witness :
  omap signals (recovery_on quiet).1 = [SIGTERM] /\ is_Some (accepts Members.step Members.initial (recovery_on quiet).1).
Proof.
  split; [by vm_compute|].
  apply (Members.recovery_signals_proven 40 (float_of_int 5) (py "dead") tt _ _ (recovery_on_runs quiet)).
Defined.

Lemma recovery_accounts_witness :
  exists rows, In rows (Accounts.found (recovery_on quiet).1)
  /\ Accounts.accounts (Accounts.seen (recovery_on quiet).1) (Accounts.rows_of rows) (mkReclaimed [job_pid] [] [] []).
Proof.
  apply (Accounts.recovery_accounts 40 (float_of_int 5) (py "dead") tt _ _ tt).
  replace (Ok (mkReclaimed [job_pid] [] [] []), tt) with (recovery_on quiet).2 by by vm_compute.
  exact (recovery_on_runs quiet).
Defined.

(** *** Leases *)

Definition turns_on (n : nat) (m : machine) := drive machine_answer (turns a_settings some_uuid 40 n new_worker) m.

(** Between the claim and the cancellation the job is running, its lease counted from
    the clock before its last heartbeat. *)
Lemma leases_anchored_witness :
  is_Some (objects (turns_on 3 quiet).2.2 !! 7)
  /\ exists w, accepts Anchors.step Anchors.initial (turns_on 3 quiet).1 = Some w /\ Anchors.anchored (turns_on 3 quiet).2.2 w.
Proof.
  split; [vm_compute; by eexists|].
  apply (Anchors.leases_anchored a_settings some_uuid 40 3 new_worker _ (turns_on 3 quiet).2.1); [done|done|].
  rewrite <-surjective_pairing. exact (drive_runs machine_answer (turns a_settings some_uuid 40 3 new_worker) quiet).
Defined.
(** Two jobs, one of which was last heard of 1000 seconds ago. *)
Definition job_since (k : Z) (t : Z) : job :=
  set_last_heartbeat_at (float_of_int t) (activated k a_start 4 9000 (float_of_int t) (float_of_int t)).
Definition held : worker :=
  set_conn true (register 8 (put_job 8 (job_since 8 1) (register 7 (put_job 7 (job_since 7 1000) new_worker)))).
Definition late_hour : machine := mkMachine 1001 [] true false 5000 5000 no_fault 30.
Definition enforced := drive machine_answer (_enforce_lease_safety a_settings held) late_hour.

Lemma no_lease_outlived_witness :
  (term_sent <$> objects enforced.2.2 !! 7) = Some false /\ (term_sent <$> objects enforced.2.2 !! 8) = Some true
  /\ exists now rest, enforced.1 = Exchange Monotonic now :: rest
  /\ (forall k, In k (active held) -> exists j, objects enforced.2.2 !! k = Some j /\ Enforced.safe_job a_settings now j)
  /\ (forall k j, In k (active enforced.2.2) -> objects enforced.2.2 !! k = Some j -> completed j = false -> term_sent j = false ->
        float_ltb zero (last_heartbeat_at j) = true ->
        float_leb (_operation_deadline a_settings enforced.2.2 (float_of_int 1001)) (unsafe_at a_settings (last_heartbeat_at j)) = true).
Proof.
  split; [by vm_compute|]. split; [by vm_compute|].
  apply (Enforced.no_lease_outlived a_settings held enforced.1 enforced.2.2 (float_of_int 1001)).
  - replace (Ok tt) with enforced.2.1 by by vm_compute. rewrite <-surjective_pairing.
    exact (drive_runs machine_answer (_enforce_lease_safety a_settings held) late_hour).
  - by vm_compute.
  - apply List.Forall_forall, List.forallb_forall. by vm_compute.
Defined.

(** *** Spawning *)

Definition a_spec : JobSpec := mkSpec 7 (py "/tmp") [py "sleep"; py "60"].
Definition spawn_on (m : machine) := drive machine_answer (spawn_job 20 a_spec tt) m.
(** The kernel refuses to make the pipes nonblocking, once the child is there. *)
Definition refusing : machine := mkMachine 100 [] true false 104 112 (mkFaults 0 None None None None (Some OSError)) 30.

Lemma spawn_leaks_nothing_witness :
  (spawn_on refusing).2.1 = Raise OSError /\ exists w, accepts Resources.step Resources.initial (spawn_on refusing).1 = Some w
  /\ (Raise OSError = (Raise OutOfFuel : res unit) \/ Resources.odd w = true \/ w = Resources.initial).
Proof.
  split; [by vm_compute|].
  destruct (Resources.spawn_leaks_nothing 20 a_spec tt (spawn_on refusing).1 (spawn_on refusing).2.1 tt) as (w & Hw & H).
  - replace ((spawn_on refusing).2.1, tt) with (spawn_on refusing).2 by by vm_compute.
    exact (drive_runs machine_answer (spawn_job 20 a_spec tt) refusing).
  - exists w. split; [exact Hw|]. right.
    revert H. replace (spawn_on refusing).2.1 with (Raise OSError : res GatedSpawn) by by vm_compute. by intros [?|?].
Defined.

(** ** What failures of the database do *)

(** A job that ignores SIGTERM, and heartbeats that go over their deadline once the
    worker is told to stop: the exception leaves the drain, and the shutdown, without a
    SIGKILL and without the sentinel of a worker that has ended. *)
Definition stubborn_shutdown : machine :=
  mkMachine 100 [(7, the_payload)] true true 5000 110 (mkFaults 110 (Some DbOperationDeadlineError) None None None None) 30.
Example shutdown_cut_short :
  let '(tr, (r, w)) := run_on stubborn_shutdown in
  r = Raise DbOperationDeadlineError /\ omap gates tr = [7] /\ omap signals tr = [SIGTERM] /\ omap finishes tr = [] /\ omap sentinels tr = [].
Proof. vm_compute. by split_and!. Qed.

(** The record of the process goes over its deadline: the start is neither aborted nor
    closed, and the supervisor has forgotten it. *)
Definition closes (x : exchange) : option Z := match x with Exchange (Close fd) _ => Some fd | _ => None end.
Definition kills (x : exchange) : option Z := match x with Exchange (KillGroup g _) _ => Some g | _ => None end.
Definition callbacks (x : exchange) : option Z := match x with Exchange (InstallCallback k) _ => Some k | _ => None end.
Definition late_record : machine :=
  mkMachine 100 [(7, the_payload)] true false 5000 110 (mkFaults 100 None None None (Some DbOperationDeadlineError) None) 30.
Example record_cut_short :
  let '(tr, (r, w)) := run_on late_record in
  r = Ok tt /\ omap gates tr = [] /\ omap closes tr = [] /\ omap kills tr = [] /\ omap finishes tr = []
  /\ _pending_starts w = [] /\ active w = [].
Proof. vm_compute. by split_and!. Qed.

(** A start that is given up, and whose row cannot be failed in time: no callback is
    installed to abort it when it comes (what follows is [Futures.start_left_behind]). *)
Definition late_finish : machine :=
  mkMachine 100 [] true false 5000 5000 (mkFaults 0 None (Some DbOperationDeadlineError) None None None) 30.
Example giving_up_cut_short :
  let '(tr, (r, w)) := drive machine_answer (abandon_start 40 7 (py "spawn timed out; job not started") (set_conn true new_worker)) late_finish in
  r = Raise DbOperationDeadlineError /\ omap callbacks tr = [].
Proof. vm_compute. by split_and!. Qed.

(** A job whose output could not be held in memory, its process ended with 0, and its
    group reaped: the row says that it succeeded. *)
Definition reaped_job : job :=
  set_returncode (Some 0) (set_completed true (set_term_sent true (job_since 7 1000))).
Definition with_reaped : worker := set_conn true (register 7 (put_job 7 reaped_job new_worker)).
Definition ended : machine := mkMachine 1001 [] false false 5000 5000 no_fault 30.
Example capture_failure_succeeds :
  let '(tr, (r, w)) := drive machine_answer (_fail_capture_closed a_settings 7 with_reaped) ended in
  r = Ok tt /\ omap finishes tr = [(7, py "succeeded")] /\ active w = [].
Proof. vm_compute. by split_and!. Qed.

(** The same with a terminal write and a quarantine that both fail: the job, whose row
    is still to be terminalized, leaves the registry that would retry it. *)
Definition failing_writes : machine :=
  mkMachine 1001 [] false false 5000 5000 (mkFaults 0 None (Some DatabaseError) (Some DatabaseError) None None) 30.
Example pending_quarantine_dropped :
  let '(tr, (r, w)) := drive machine_answer (_fail_capture_closed a_settings 7 with_reaped) failing_writes in
  r = Ok tt /\ (quarantine_pending <$> objects w !! 7) = Some true /\ active w = [] /\ _retry_terminations w = [].
Proof. vm_compute. by split_and!. Qed.

(** The descriptors of the child's ends of its pipes are closed twice. *)
Example pipes_closed_twice : omap closes (spawn_on refusing).1 = [30; 33; 35; 31; 32; 33; 34; 35].
Proof. by vm_compute. Qed.

(** One row with an integer that Python refuses to read: the [ValueError] leaves the
    loop, without a shutdown of the jobs that run. *)
Definition poisoned : machine := mkMachine 100 [(7, the_payload); (8, [123; 34; 120; 34; 58] ++ repeat 49 4301 ++ [125])] true false 5000 5000 no_fault 30.
Example poisoned_payload_stops_worker :
  let '(tr, (r, w)) := run_on poisoned in
  r = Raise ValueError /\ _stopping w = false /\ omap sentinels tr = [] /\ map fst (_pending_starts w) = [7].
Proof. vm_compute. by split_and!. Qed.
