(* ===== verification/HealthSnapshot.v ===== *)
(** The worker's health snapshot ([src/lubko/health.py], [WorkerHealth]): its codec,
    strict about what it reads, and its file. *)

From S2P Require Import Prelude PyStr PyNum FloatFacts Json JsonFacts Uuid ProcFs SupervisorCodec Store Mission RecordFiles.
From Corelib Require Import SpecFloat.

#[local] Open Scope Z_scope.
#[local] Arguments py : simpl never.

Definition WORKER_HEALTH_SCHEMA_VERSION : Z := 1.
Definition _LEGACY_RICH_WORKER_HEALTH_SCHEMA_VERSION : Z := 3.
Definition WORKER_HEALTH_OBSERVABILITY_VERSION : Z := 3.

Record WorkerHealth := mkHealth {
  h_schema_version : Z;
  h_worker_id : pystr;
  h_worker_incarnation : pystr;
  h_pid : Z;
  h_start_time_ticks : Z;
  h_started_at : pyfloat;
  h_published_at : pyfloat;
  h_alive : bool;
  h_db_connected : bool;
  h_db_connected_at : option pyfloat;
  h_db_error_at : option pyfloat;
  h_active_jobs : Z;
  h_stopping_jobs : Z;
  h_completed_jobs : Z;
  h_oldest_active_job_age_seconds : option pyfloat;
  h_lease_safety_margin_seconds : pyfloat;
  h_min_lease_safety_remaining_seconds : option pyfloat;
  h_db_operation_deadline_seconds : pyfloat;
  h_db_last_activity_at : option pyfloat;
  h_db_deadline_breached_at : option pyfloat;
  h_db_deadline_breach_count : Z;
  h_capture_streams_open : Z;
  h_spool_held_bytes : Z;
  h_scan_batch_limit : Z;
  h_last_scan_batch_size : Z;
  h_last_cancellation_scan_at : option pyfloat;
  h_last_recovery_at : option pyfloat;
  h_last_gc_at : option pyfloat;
  h_cancellation_scan_overdue : bool;
  h_recovery_overdue : bool;
  h_gc_overdue : bool;
  h_gc_batch_limit : Z;
  h_gc_batch_bound_hit : bool;
  h_cancellation_batch_limit : Z;
  h_cancellation_batch_bound_hit : bool;
  h_recovery_batch_limit : Z;
  h_recovery_batch_bound_hit : bool;
  h_shutting_down : bool;
  h_oldest_active_job_id : option pystr;
}.

(** ** Writing *)

Definition _finite_or_zero (value : pyfloat) : pyfloat := if is_finite value then value else zero.
Definition _finite_or_none (value : option pyfloat) : option pyfloat :=
  match value with Some f => if is_finite f then Some f else None | None => None end.

Definition to_dict (h : WorkerHealth) : dict :=
  let number f := JFloat (_finite_or_zero f) in
  let optional f := json_opt JFloat (_finite_or_none f) in
  [(py "schema_version", JInt (h_schema_version h)); (py "observability_version", JInt WORKER_HEALTH_OBSERVABILITY_VERSION);
   (py "worker_id", JStr (h_worker_id h)); (py "worker_incarnation", JStr (h_worker_incarnation h)); (py "pid", JInt (h_pid h));
   (py "start_time_ticks", JInt (h_start_time_ticks h)); (py "started_at", number (h_started_at h));
   (py "published_at", number (h_published_at h)); (py "alive", JBool (h_alive h)); (py "db_connected", JBool (h_db_connected h));
   (py "db_connected_at", optional (h_db_connected_at h)); (py "db_error_at", optional (h_db_error_at h));
   (py "active_jobs", JInt (h_active_jobs h)); (py "stopping_jobs", JInt (h_stopping_jobs h));
   (py "completed_jobs", JInt (h_completed_jobs h));
   (py "oldest_active_job_age_seconds", optional (h_oldest_active_job_age_seconds h));
   (py "lease_safety_margin_seconds", number (h_lease_safety_margin_seconds h));
   (py "min_lease_safety_remaining_seconds", optional (h_min_lease_safety_remaining_seconds h));
   (py "db_operation_deadline_seconds", number (h_db_operation_deadline_seconds h));
   (py "db_last_activity_at", optional (h_db_last_activity_at h));
   (py "db_deadline_breached_at", optional (h_db_deadline_breached_at h));
   (py "db_deadline_breach_count", JInt (h_db_deadline_breach_count h));
   (py "capture_streams_open", JInt (h_capture_streams_open h)); (py "spool_held_bytes", JInt (h_spool_held_bytes h));
   (py "scan_batch_limit", JInt (h_scan_batch_limit h)); (py "last_scan_batch_size", JInt (h_last_scan_batch_size h));
   (py "last_cancellation_scan_at", optional (h_last_cancellation_scan_at h));
   (py "last_recovery_at", optional (h_last_recovery_at h)); (py "last_gc_at", optional (h_last_gc_at h));
   (py "cancellation_scan_overdue", JBool (h_cancellation_scan_overdue h)); (py "recovery_overdue", JBool (h_recovery_overdue h));
   (py "gc_overdue", JBool (h_gc_overdue h)); (py "gc_batch_limit", JInt (h_gc_batch_limit h));
   (py "gc_batch_bound_hit", JBool (h_gc_batch_bound_hit h));
   (py "cancellation_batch_limit", JInt (h_cancellation_batch_limit h));
   (py "cancellation_batch_bound_hit", JBool (h_cancellation_batch_bound_hit h));
   (py "recovery_batch_limit", JInt (h_recovery_batch_limit h));
   (py "recovery_batch_bound_hit", JBool (h_recovery_batch_bound_hit h));
   (py "shutting_down", JBool (h_shutting_down h)); (py "oldest_active_job_id", json_opt JStr (h_oldest_active_job_id h))].

(** ** Reading *)

Definition _required_json_int (value : json) (minimum : Z) : res Z :=
  match value with
  | JInt z => if z <? minimum then Raise ValueError else Ok z
  | _ => Raise TypeError
  end.

Definition _coerce_str (value : json) : res pystr :=
  match value with JNull => Ok [] | JStr s => Ok s | _ => Raise TypeError end.

Definition _required_nonempty_str (value : json) : res pystr :=
  match value with
  | JNull => Raise ValueError
  | _ => s ← _coerce_str value; match s with [] => Raise ValueError | _ => Ok s end
  end.

Definition _optional_uuid_str (value : json) : res (option pystr) :=
  match value with
  | JNull => Ok None
  | _ => s ← _required_nonempty_str value; match uuid_of_text s with Some u => Ok (Some (uuid_str u)) | None => Raise ValueError end
  end.

Definition _coerce_incarnation_token (value : json) : res pystr :=
  token ← _coerce_str value; _ ← validate_incarnation_token token; Ok token.

(** [float(value)] of an integer too large for a float raises [OverflowError]. *)
Definition _coerce_float (value : json) : res (option pyfloat) :=
  match value with
  | JNull => Ok None
  | JInt z => let f := float_of_int z in if is_finite f then Ok (Some f) else Raise OverflowError
  | JFloat f => Ok (Some f)
  | _ => Raise TypeError
  end.

Definition _optional_json_int_zero (value : json) (minimum : Z) : res Z :=
  match value with
  | JNull => Ok 0
  | JInt z => if z <? minimum then Raise ValueError else Ok z
  | _ => Raise TypeError
  end.

Definition _strict_bool (data : dict) (field : pystr) : res bool :=
  if dict_mem data field then match dict_get data field with JBool b => Ok b | _ => Raise TypeError end else Ok false.

Definition below (minimum : option pyfloat) (f : pyfloat) : bool := match minimum with Some m => float_ltb f m | None => false end.

Definition _required_finite_float (value : json) (minimum minimum_exclusive : option pyfloat) : res pyfloat :=
  match value with
  | JNull => Raise ValueError
  | _ =>
      r ← _coerce_float value;
      match r with
      | None => Raise ValueError
      | Some f =>
          if negb (is_finite f) then Raise ValueError
          else if below minimum f then Raise ValueError
          else if match minimum_exclusive with Some m => float_leb f m | None => false end then Raise ValueError
          else Ok f
      end
  end.

Definition _optional_finite_float (value : json) (minimum : option pyfloat) : res (option pyfloat) :=
  r ← _coerce_float value;
  match r with
  | None => Ok None
  | Some f => if negb (is_finite f) then Raise ValueError else if below minimum f then Raise ValueError else Ok (Some f)
  end.

(** Whether the snapshot says that it has the richer fields. *)
Definition rich_observability (raw : json) : res bool :=
  match raw with
  | JNull => Ok false
  | _ => v ← _required_json_int raw 1; if negb (v =? WORKER_HEALTH_OBSERVABILITY_VERSION) then Raise ValueError else Ok true
  end.

Definition from_dict (data : dict) : res WorkerHealth :=
  let field k := dict_get data (py k) in
  let count k := _optional_json_int_zero (field k) 0 in
  let timestamp k := _optional_finite_float (field k) (Some zero) in
  let flag k := _strict_bool data (py k) in
  version ← _required_json_int (field "schema_version"%string) 0;
  if negb ((version =? WORKER_HEALTH_SCHEMA_VERSION) || (version =? _LEGACY_RICH_WORKER_HEALTH_SCHEMA_VERSION)) then Raise ValueError
  else
    observability ← rich_observability (field "observability_version"%string);
    let rich := (version =? _LEGACY_RICH_WORKER_HEALTH_SCHEMA_VERSION) || observability in
    let defaulted k v := get_or data (py k) (if rich then JNull else v) in
    worker_id ← _required_nonempty_str (field "worker_id"%string);
    incarnation ← _coerce_incarnation_token (field "worker_incarnation"%string);
    pid ← _required_json_int (field "pid"%string) 1;
    ticks ← _required_json_int (field "start_time_ticks"%string) 1;
    started_at ← _required_finite_float (field "started_at"%string) (Some zero) None;
    published_at ← _required_finite_float (field "published_at"%string) (Some zero) None;
    alive ← flag "alive"%string;
    db_connected ← flag "db_connected"%string;
    db_connected_at ← timestamp "db_connected_at"%string;
    db_error_at ← timestamp "db_error_at"%string;
    active_jobs ← count "active_jobs"%string;
    stopping_jobs ← count "stopping_jobs"%string;
    completed_jobs ← count "completed_jobs"%string;
    oldest_age ← timestamp "oldest_active_job_age_seconds"%string;
    margin ← _required_finite_float (defaulted "lease_safety_margin_seconds"%string (JFloat zero)) (Some zero) None;
    remaining ← _optional_finite_float (field "min_lease_safety_remaining_seconds"%string) None;
    deadline ← _required_finite_float (defaulted "db_operation_deadline_seconds"%string (JFloat (float_of_int 1))) None (Some zero);
    last_activity ← timestamp "db_last_activity_at"%string;
    breached_at ← timestamp "db_deadline_breached_at"%string;
    breach_count ← count "db_deadline_breach_count"%string;
    streams_open ← count "capture_streams_open"%string;
    held ← count "spool_held_bytes"%string;
    scan_limit ← _required_json_int (defaulted "scan_batch_limit"%string (JInt 1)) 1;
    last_batch ← count "last_scan_batch_size"%string;
    last_scan ← timestamp "last_cancellation_scan_at"%string;
    last_recovery ← timestamp "last_recovery_at"%string;
    last_gc ← timestamp "last_gc_at"%string;
    scan_overdue ← flag "cancellation_scan_overdue"%string;
    recovery_overdue ← flag "recovery_overdue"%string;
    gc_overdue ← flag "gc_overdue"%string;
    gc_limit ← _required_json_int (defaulted "gc_batch_limit"%string (JInt 1)) 1;
    gc_hit ← flag "gc_batch_bound_hit"%string;
    cancel_limit ← _required_json_int (defaulted "cancellation_batch_limit"%string (JInt 1)) 1;
    cancel_hit ← flag "cancellation_batch_bound_hit"%string;
    recovery_limit ← _required_json_int (defaulted "recovery_batch_limit"%string (JInt 1)) 1;
    recovery_hit ← flag "recovery_batch_bound_hit"%string;
    shutting_down ← flag "shutting_down"%string;
    oldest_id ← _optional_uuid_str (field "oldest_active_job_id"%string);
    Ok (mkHealth version worker_id incarnation pid ticks started_at published_at alive db_connected db_connected_at db_error_at
          active_jobs stopping_jobs completed_jobs oldest_age margin remaining deadline last_activity breached_at breach_count
          streams_open held scan_limit last_batch last_scan last_recovery last_gc scan_overdue recovery_overdue gc_overdue
          gc_limit gc_hit cancel_limit cancel_hit recovery_limit recovery_hit shutting_down oldest_id).

(** [read_text] and what follows it: [None] is no snapshot. *)
Definition _read_health_file (f : option file) : res (option WorkerHealth) :=
  match file_text f with
  | Raise OSError | Raise FileNotFoundError => Ok None
  | Raise x => Raise x
  | Ok raw =>
      match json_loads raw with
      | Raise JSONDecodeError | Raise ValueError => Ok None
      | Raise x => Raise x
      | Ok (JObj d) =>
          match from_dict d with
          | Ok h => Ok (Some h)
          | Raise TypeError | Raise ValueError | Raise KeyError => Ok None
          | Raise x => Raise x
          end
      | Ok _ => Ok None
      end
  end.

(** What [write_worker_health] writes. *)
Definition health_file (h : WorkerHealth) : res pybytes := json_file (to_dict h).

(** The health snapshot survives its codec and its file: what is read back is the
    snapshot with what JSON cannot say left out, and nothing malformed is read. *)

(** Finite and positive. *)
Definition positive_finite (f : pyfloat) : Prop := finite f /\ float_leb f zero = false.

Record health_wf (h : WorkerHealth) : Prop := {
  hw_schema : In (h_schema_version h) [WORKER_HEALTH_SCHEMA_VERSION; _LEGACY_RICH_WORKER_HEALTH_SCHEMA_VERSION];
  hw_id : h_worker_id h <> [];
  hw_incarnation : token_ok (h_worker_incarnation h);
  hw_process : Forall (fun z => 1 <= z) [h_pid h; h_start_time_ticks h];
  hw_required : Forall non_negative_finite [h_started_at h; h_published_at h; h_lease_safety_margin_seconds h];
  hw_deadline : positive_finite (h_db_operation_deadline_seconds h);
  hw_times : Forall (all_opt non_negative_finite)
    [h_db_connected_at h; h_db_error_at h; h_oldest_active_job_age_seconds h; h_db_last_activity_at h; h_db_deadline_breached_at h;
     h_last_cancellation_scan_at h; h_last_recovery_at h; h_last_gc_at h];
  hw_remaining : all_opt finite (h_min_lease_safety_remaining_seconds h);
  hw_counts : Forall nat_like
    [h_active_jobs h; h_stopping_jobs h; h_completed_jobs h; h_db_deadline_breach_count h; h_capture_streams_open h;
     h_spool_held_bytes h; h_last_scan_batch_size h];
  hw_limits : Forall (fun z => 1 <= z)
    [h_scan_batch_limit h; h_gc_batch_limit h; h_cancellation_batch_limit h; h_recovery_batch_limit h];
  hw_oldest : all_opt (fun t => exists u, 0 <= u < 2 ^ 128 /\ t = uuid_str u) (h_oldest_active_job_id h);
}.

(** The snapshot as its file has it: numbers that are not finite are left out. *)
Definition wire_view (h : WorkerHealth) : WorkerHealth :=
  mkHealth (h_schema_version h) (h_worker_id h) (h_worker_incarnation h) (h_pid h) (h_start_time_ticks h)
    (_finite_or_zero (h_started_at h)) (_finite_or_zero (h_published_at h)) (h_alive h) (h_db_connected h)
    (_finite_or_none (h_db_connected_at h)) (_finite_or_none (h_db_error_at h)) (h_active_jobs h) (h_stopping_jobs h)
    (h_completed_jobs h) (_finite_or_none (h_oldest_active_job_age_seconds h)) (_finite_or_zero (h_lease_safety_margin_seconds h))
    (_finite_or_none (h_min_lease_safety_remaining_seconds h)) (_finite_or_zero (h_db_operation_deadline_seconds h))
    (_finite_or_none (h_db_last_activity_at h)) (_finite_or_none (h_db_deadline_breached_at h)) (h_db_deadline_breach_count h)
    (h_capture_streams_open h) (h_spool_held_bytes h) (h_scan_batch_limit h) (h_last_scan_batch_size h)
    (_finite_or_none (h_last_cancellation_scan_at h)) (_finite_or_none (h_last_recovery_at h)) (_finite_or_none (h_last_gc_at h))
    (h_cancellation_scan_overdue h) (h_recovery_overdue h) (h_gc_overdue h) (h_gc_batch_limit h) (h_gc_batch_bound_hit h)
    (h_cancellation_batch_limit h) (h_cancellation_batch_bound_hit h) (h_recovery_batch_limit h) (h_recovery_batch_bound_hit h)
    (h_shutting_down h) (h_oldest_active_job_id h).

Lemma finite_or_zero_idem f : _finite_or_zero (_finite_or_zero f) = _finite_or_zero f.
Proof. unfold _finite_or_zero. destruct (is_finite f) eqn:E; [by rewrite E|done]. Qed.
Lemma finite_or_none_idem o : _finite_or_none (_finite_or_none o) = _finite_or_none o.
Proof. destruct o as [f|]; cbn; [|done]. destruct (is_finite f) eqn:E; cbn; by rewrite ?E. Qed.

Lemma to_dict_wire h : to_dict (wire_view h) = to_dict h.
Proof. unfold to_dict, wire_view. cbn. by rewrite !finite_or_zero_idem, !finite_or_none_idem. Qed.

(** ** Fields *)

Lemma not_negative f : non_negative_finite f -> float_ltb f zero = false.
Proof. intros [_ H]. by destruct f as [[]|[]| |[] ? ?]. Qed.
Lemma not_below f : finite f -> float_ltb f zero = false -> non_negative_finite f.
Proof. intros H Hf. split; [done|]. by destruct f as [[]|[]| |[] ? ?]. Qed.

Section fields.
Context (d : dict) (k : pystr).

Lemma health_int_field z m : dict_get d k = JInt z -> m <= z -> _required_json_int (dict_get d k) m = Ok z.
Proof. intros -> H. cbn. by replace (z <? m) with false by lia. Qed.
Lemma count_field z : dict_get d k = JInt z -> nat_like z -> _optional_json_int_zero (dict_get d k) 0 = Ok z.
Proof. intros -> H. unfold nat_like in H. cbn. by replace (z <? 0) with false by lia. Qed.
Lemma flag_field b : dict_mem d k = true -> dict_get d k = JBool b -> _strict_bool d k = Ok b.
Proof. unfold _strict_bool. by intros -> ->. Qed.
Lemma present_field v v' : dict_mem d k = true -> dict_get d k = v -> get_or d k v' = v.
Proof. unfold get_or. by intros -> ->. Qed.
Lemma time_field o : dict_get d k = json_opt JFloat (_finite_or_none o) -> all_opt non_negative_finite o ->
  _optional_finite_float (dict_get d k) (Some zero) = Ok o.
Proof.
  intros ->. destruct o as [f|]; [|done]. intros [Hf Hn]. unfold finite in Hf. cbn. rewrite Hf. cbn. rewrite Hf. cbn.
  by rewrite not_negative.
Qed.
Lemma nonempty_field s : dict_get d k = JStr s -> s <> [] -> _required_nonempty_str (dict_get d k) = Ok s.
Proof. intros ->. by destruct s. Qed.
Lemma token_field t : dict_get d k = JStr t -> token_ok t -> _coerce_incarnation_token (dict_get d k) = Ok t.
Proof. intros -> H. unfold _coerce_incarnation_token. cbn [_coerce_str mbind res_bind]. by rewrite H. Qed.
Lemma id_field o : dict_get d k = json_opt JStr o -> all_opt (fun t => exists u, 0 <= u < 2 ^ 128 /\ t = uuid_str u) o ->
  _optional_uuid_str (dict_get d k) = Ok o.
Proof.
  intros ->. destruct o as [t|]; [|done]. intros (u & Hu & ->). unfold _optional_uuid_str. cbn [json_opt].
  unfold _required_nonempty_str. cbn [_coerce_str mbind res_bind].
  destruct (uuid_str u) as [|c t] eqn:E.
  - pose proof (uuid_of_text_str u Hu) as H. rewrite E in H. by vm_compute in H.
  - cbn [mbind res_bind]. rewrite <-E, uuid_of_text_str by done. by rewrite E.
Qed.
End fields.

Lemma required_float_ok f : non_negative_finite f -> _required_finite_float (JFloat f) (Some zero) None = Ok f.
Proof. intros [Hf Hn]. unfold finite in Hf. cbn. rewrite Hf. cbn. by rewrite not_negative. Qed.
Lemma positive_float_ok f : positive_finite f -> _required_finite_float (JFloat f) None (Some zero) = Ok f.
Proof. intros [Hf Hn]. unfold finite in Hf. cbn. rewrite Hf. cbn. by rewrite Hn. Qed.
Lemma limit_ok z m : m <= z -> _required_json_int (JInt z) m = Ok z.
Proof. intros H. cbn. by replace (z <? m) with false by lia. Qed.
Lemma remaining_ok o : all_opt finite o -> _optional_finite_float (json_opt JFloat (_finite_or_none o)) None = Ok o.
Proof. destruct o as [f|]; [|done]. cbn. unfold finite. intros Hf. rewrite Hf. cbn. by rewrite Hf. Qed.
Lemma finite_or_zero_ok f : finite f -> _finite_or_zero f = f.
Proof. unfold finite, _finite_or_zero. by intros ->. Qed.

(** Read the next field of the written snapshot [d] by the lemma of its kind. *)
Ltac next d lem :=
  rewrite lem by first [assumption | solve [unfold d; vm_compute; reflexivity]]; cbn [mbind res_bind].
(** The same for a number that is required. *)
Ltac next_number d k f lem :=
  replace (dict_get d (py k)) with (JFloat f) by (unfold d, to_dict; eval_get; rewrite finite_or_zero_ok by auto; reflexivity);
  rewrite lem by assumption; cbn [mbind res_bind].
Ltac next_default d k v := rewrite (present_field d (py k) v) by (unfold d; vm_compute; reflexivity).

Lemma health_round_trip h : health_wf h -> from_dict (to_dict h) = Ok h.
Proof.
  intros [Hsc Hid Hin Hp Hr Hdl Ht Hrem Hc Hl Hold].
  repeat match goal with H : Forall _ (_ :: _) |- _ => apply List.Forall_cons_iff in H as [? H] end.
  assert (0 <= h_schema_version h) by (by destruct Hsc as [<-|[<-|[]]]).
  assert (forall f, non_negative_finite f -> finite f) as Hfin by (by intros f []).
  unfold from_dict. cbv zeta. set (d := to_dict h).
  next d (health_int_field d (py "schema_version") (h_schema_version h) 0).
  replace (negb _) with false by (by destruct Hsc as [<-|[<-|[]]]).
  replace (dict_get d (py "observability_version")) with (JInt 3) by (unfold d, to_dict; by eval_get).
  change (rich_observability (JInt 3)) with (Ok true : res bool). cbn [mbind res_bind]. rewrite orb_true_r. cbv iota.
  next d (nonempty_field d (py "worker_id") (h_worker_id h)).
  next d (token_field d (py "worker_incarnation") (h_worker_incarnation h)).
  next d (health_int_field d (py "pid") (h_pid h) 1).
  next d (health_int_field d (py "start_time_ticks") (h_start_time_ticks h) 1).
  next_number d "started_at" (h_started_at h) required_float_ok.
  next_number d "published_at" (h_published_at h) required_float_ok.
  next d (flag_field d (py "alive") (h_alive h)).
  next d (flag_field d (py "db_connected") (h_db_connected h)).
  next d (time_field d (py "db_connected_at") (h_db_connected_at h)).
  next d (time_field d (py "db_error_at") (h_db_error_at h)).
  next d (count_field d (py "active_jobs") (h_active_jobs h)).
  next d (count_field d (py "stopping_jobs") (h_stopping_jobs h)).
  next d (count_field d (py "completed_jobs") (h_completed_jobs h)).
  next d (time_field d (py "oldest_active_job_age_seconds") (h_oldest_active_job_age_seconds h)).
  next_default d "lease_safety_margin_seconds" (JFloat (_finite_or_zero (h_lease_safety_margin_seconds h))).
  rewrite finite_or_zero_ok, required_float_ok by auto. cbn [mbind res_bind].
  replace (dict_get d (py "min_lease_safety_remaining_seconds"))
    with (json_opt JFloat (_finite_or_none (h_min_lease_safety_remaining_seconds h))) by (unfold d, to_dict; by eval_get).
  rewrite remaining_ok by done. cbn [mbind res_bind].
  next_default d "db_operation_deadline_seconds" (JFloat (_finite_or_zero (h_db_operation_deadline_seconds h))).
  rewrite finite_or_zero_ok, positive_float_ok by (done || by destruct Hdl). cbn [mbind res_bind].
  next d (time_field d (py "db_last_activity_at") (h_db_last_activity_at h)).
  next d (time_field d (py "db_deadline_breached_at") (h_db_deadline_breached_at h)).
  next d (count_field d (py "db_deadline_breach_count") (h_db_deadline_breach_count h)).
  next d (count_field d (py "capture_streams_open") (h_capture_streams_open h)).
  next d (count_field d (py "spool_held_bytes") (h_spool_held_bytes h)).
  next_default d "scan_batch_limit" (JInt (h_scan_batch_limit h)). rewrite limit_ok by done. cbn [mbind res_bind].
  next d (count_field d (py "last_scan_batch_size") (h_last_scan_batch_size h)).
  next d (time_field d (py "last_cancellation_scan_at") (h_last_cancellation_scan_at h)).
  next d (time_field d (py "last_recovery_at") (h_last_recovery_at h)).
  next d (time_field d (py "last_gc_at") (h_last_gc_at h)).
  next d (flag_field d (py "cancellation_scan_overdue") (h_cancellation_scan_overdue h)).
  next d (flag_field d (py "recovery_overdue") (h_recovery_overdue h)).
  next d (flag_field d (py "gc_overdue") (h_gc_overdue h)).
  next_default d "gc_batch_limit" (JInt (h_gc_batch_limit h)). rewrite limit_ok by done. cbn [mbind res_bind].
  next d (flag_field d (py "gc_batch_bound_hit") (h_gc_batch_bound_hit h)).
  next_default d "cancellation_batch_limit" (JInt (h_cancellation_batch_limit h)). rewrite limit_ok by done. cbn [mbind res_bind].
  next d (flag_field d (py "cancellation_batch_bound_hit") (h_cancellation_batch_bound_hit h)).
  next_default d "recovery_batch_limit" (JInt (h_recovery_batch_limit h)). rewrite limit_ok by done. cbn [mbind res_bind].
  next d (flag_field d (py "recovery_batch_bound_hit") (h_recovery_batch_bound_hit h)).
  next d (flag_field d (py "shutting_down") (h_shutting_down h)).
  next d (id_field d (py "oldest_active_job_id") (h_oldest_active_job_id h)).
  by destruct h.
Qed.

(** ** What is read *)

Lemma int_inv v m z : _required_json_int v m = Ok z -> m <= z.
Proof. destruct v; try done. cbn. case_match; [done|]. intros [= <-]. lia. Qed.
Lemma count_inv v z : _optional_json_int_zero v 0 = Ok z -> nat_like z.
Proof. unfold nat_like. destruct v; try done; cbn; [intros [= <-]; lia|]. case_match; [done|]. intros [= <-]. lia. Qed.
Lemma coerce_float_inv v o : _coerce_float v = Ok o -> v = JNull \/ exists f, o = Some f.
Proof. destruct v; try done; [by left| |]; right; [cbn in *; case_match; [|done]|]; injection H as <-; by eexists. Qed.
Lemma time_inv v o : _optional_finite_float v (Some zero) = Ok o -> all_opt non_negative_finite o.
Proof.
  unfold _optional_finite_float. intros H. res_step H. destruct a as [f|]; [|by injection H as <-].
  destruct (is_finite f) eqn:Hf; [|done]. cbn in H. destruct (float_ltb f zero) eqn:Hn; [done|]. injection H as <-. by apply not_below.
Qed.
Lemma remaining_inv v o : _optional_finite_float v None = Ok o -> all_opt finite o.
Proof.
  unfold _optional_finite_float. intros H. res_step H. destruct a as [f|]; [|by injection H as <-].
  destruct (is_finite f) eqn:Hf; [|done]. by injection H as <-.
Qed.
Lemma required_float_inv v f : _required_finite_float v (Some zero) None = Ok f -> non_negative_finite f.
Proof.
  unfold _required_finite_float. intros H. destruct v; try done; res_step H; destruct a as [g|]; try done;
    (destruct (is_finite g) eqn:Hf; [|done]); cbn in H; (destruct (float_ltb g zero) eqn:Hn; [done|]); injection H as <-; by apply not_below.
Qed.
Lemma positive_float_inv v f : _required_finite_float v None (Some zero) = Ok f -> positive_finite f.
Proof.
  unfold _required_finite_float. intros H. destruct v; try done; res_step H; destruct a as [g|]; try done;
    (destruct (is_finite g) eqn:Hf; [|done]); cbn in H; (destruct (float_leb g zero) eqn:Hn; [done|]); injection H as <-; by split.
Qed.
Lemma nonempty_inv v s : _required_nonempty_str v = Ok s -> s <> [].
Proof. unfold _required_nonempty_str. destruct v; try done; intros H; res_step H; by destruct a; try injection H as <-. Qed.
Lemma token_field_inv v t : _coerce_incarnation_token v = Ok t -> token_ok t.
Proof. unfold _coerce_incarnation_token. intros H. res_step H. destruct (validate_incarnation_token a) as [[]|] eqn:E; [|done]. by injection H as <-. Qed.
Lemma id_inv v o : _optional_uuid_str v = Ok o -> all_opt (fun t => exists u, 0 <= u < 2 ^ 128 /\ t = uuid_str u) o.
Proof.
  unfold _optional_uuid_str. intros H. destruct v; try (by injection H as <-); res_step H;
    (destruct (uuid_of_text a) as [u|] eqn:Hu; [|done]); injection H as <-; exists u; (split; [|done]);
    unfold uuid_of_text in Hu; repeat case_match; try done; injection Hu as <-; lia.
Qed.

Ltac field_inv :=
  repeat match goal with
  | H : _required_json_int _ _ = Ok _ |- _ => apply int_inv in H
  | H : _optional_json_int_zero _ _ = Ok _ |- _ => apply count_inv in H
  | H : _optional_finite_float _ (Some zero) = Ok _ |- _ => apply time_inv in H
  | H : _optional_finite_float _ None = Ok _ |- _ => apply remaining_inv in H
  | H : _required_finite_float _ (Some zero) None = Ok _ |- _ => apply required_float_inv in H
  | H : _required_finite_float _ None (Some zero) = Ok _ |- _ => apply positive_float_inv in H
  | H : _required_nonempty_str _ = Ok _ |- _ => apply nonempty_inv in H
  | H : _coerce_incarnation_token _ = Ok _ |- _ => apply token_field_inv in H
  | H : _optional_uuid_str _ = Ok _ |- _ => apply id_inv in H
  end.

Lemma health_parsed d h : from_dict d = Ok h -> health_wf h.
Proof.
  unfold from_dict. cbv zeta. intros H. res_step H.
  destruct ((a =? WORKER_HEALTH_SCHEMA_VERSION) || (a =? _LEGACY_RICH_WORKER_HEALTH_SCHEMA_VERSION)) eqn:Hv; [|done]. cbn [negb] in H.
  res_inv H. subst h. field_inv.
  split; cbn; auto 12 using List.Forall_cons, List.Forall_nil.
  unfold WORKER_HEALTH_SCHEMA_VERSION, _LEGACY_RICH_WORKER_HEALTH_SCHEMA_VERSION in *. lia.
Qed.

(** ** The file *)

Lemma scalar_fields_sorted v m x y :
  _required_json_int (sort_keys v) m = _required_json_int v m /\ _optional_json_int_zero (sort_keys v) m = _optional_json_int_zero v m
  /\ _optional_finite_float (sort_keys v) x = _optional_finite_float v x
  /\ _required_finite_float (sort_keys v) x y = _required_finite_float v x y
  /\ _required_nonempty_str (sort_keys v) = _required_nonempty_str v /\ _coerce_incarnation_token (sort_keys v) = _coerce_incarnation_token v
  /\ _optional_uuid_str (sort_keys v) = _optional_uuid_str v /\ rich_observability (sort_keys v) = rich_observability v.
Proof. by destruct v. Qed.

Lemma health_sorted d : json_plain (JObj d) = true -> from_dict (sorted_dict d) = from_dict d.
Proof.
  intros Hp.
  assert (forall k, _strict_bool (sorted_dict d) k = _strict_bool d k) as Hflag.
  { intros k. unfold _strict_bool. rewrite mem_sorted, get_sorted by done. by destruct (dict_get d k). }
  unfold from_dict. cbv zeta. rewrite !Hflag, !get_sorted by done.
  assert (forall v m, _required_json_int (sort_keys v) m = _required_json_int v m) as H1 by (intros; apply scalar_fields_sorted; exact None).
  assert (forall v m, _optional_json_int_zero (sort_keys v) m = _optional_json_int_zero v m) as H2 by (intros; apply scalar_fields_sorted; exact None).
  assert (forall v x, _optional_finite_float (sort_keys v) x = _optional_finite_float v x) as H3 by (intros; apply (scalar_fields_sorted v 0 x None)).
  assert (forall v x y, _required_finite_float (sort_keys v) x y = _required_finite_float v x y) as H4 by (intros; apply (scalar_fields_sorted v 0 x y)).
  assert (forall v, _required_nonempty_str (sort_keys v) = _required_nonempty_str v) as H5 by (intros v; apply (scalar_fields_sorted v 0 None None)).
  assert (forall v, _coerce_incarnation_token (sort_keys v) = _coerce_incarnation_token v) as H6 by (intros v; apply (scalar_fields_sorted v 0 None None)).
  assert (forall v, _optional_uuid_str (sort_keys v) = _optional_uuid_str v) as H7 by (intros v; apply (scalar_fields_sorted v 0 None None)).
  assert (forall v, rich_observability (sort_keys v) = rich_observability v) as H8 by (intros v; apply (scalar_fields_sorted v 0 None None)).
  assert (forall k v m, _required_json_int (get_or (sorted_dict d) k v) m = _required_json_int (get_or d k v) m) as H9.
  { intros k v m. unfold get_or. rewrite mem_sorted, get_sorted by done. destruct (dict_mem d k); [apply H1|done]. }
  assert (forall k v x y, _required_finite_float (get_or (sorted_dict d) k v) x y = _required_finite_float (get_or d k v) x y) as H10.
  { intros k v x y. unfold get_or. rewrite mem_sorted, get_sorted by done. destruct (dict_mem d k); [apply H4|done]. }
  rewrite !H1, !H2, !H3, !H4, !H5, !H6, !H7, !H8.
  apply bind_ext. intros version. destruct (negb _); [done|].
  repeat (rewrite ?H9, ?H10; apply bind_ext; intros ?). done.
Qed.

(** A snapshot that is well-formed once what JSON cannot say is left out reads back as
    that from its file. *)
Lemma health_read_back h data : health_wf (wire_view h) -> json_plain (JObj (to_dict h)) = true -> health_file h = Ok data ->
  _read_health_file (Some (Bytes data)) = Ok (Some (wire_view h)).
Proof.
  intros Hwf Hp Hd. destruct (json_file_read _ _ Hp Hd) as (raw & Hraw & Hload).
  unfold _read_health_file. rewrite Hraw, Hload, health_sorted by done. by rewrite <-to_dict_wire, health_round_trip.
Qed.

(** ** What escapes *)

(** The text of a snapshot that starts at [10 ^ 309]. *)
Definition huge_snapshot : dict :=
  [(py "schema_version", JInt 1); (py "worker_id", JStr (py "w")); (py "worker_incarnation", JStr (py "t")); (py "pid", JInt 1);
   (py "start_time_ticks", JInt 1); (py "started_at", JInt (10 ^ 309))].

(** A number too large for a float, and bytes that are not text, are not taken for the
    absence of a snapshot: the exception escapes. *)
Example huge_timestamp_escapes :
  (data ← json_file huge_snapshot; _read_health_file (Some (Bytes data))) = Raise OverflowError.
Proof. by vm_compute. Qed.
Example not_text_escapes : _read_health_file (Some (Bytes [255])) = Raise UnicodeDecodeError.
Proof. by vm_compute. Qed.
