(* ===== verification/HealthBuild.v ===== *)
(** The health snapshot that the worker publishes ([_build_health] and
    [_collect_health_aggregates] of [src/lubko/worker.py]): it is well-formed, so what
    the worker writes is what its readers read; and its lease margin is that of the job
    at most risk. *)

From S2P Require Import Prelude PyStr PyNum FloatFacts Json JsonFacts Uuid ProcFs SupervisorCodec Store Mission RecordFiles Output Capture WorkerSettings JobQueue Programs WorkerWorld WorkerJobs HealthSnapshot.
From Corelib Require Import SpecFloat.
From stdpp Require Import gmap.

#[local] Open Scope Z_scope.
#[local] Arguments py : simpl never.

(** What the collection thread last published. *)
Record _GcSnapshot := mkGc {
  last_gc_at : option pyfloat;
  next_gc_at : pyfloat;
  batch_bound_hit : bool;
  last_error_at : option pyfloat;
}.

Definition GC_PASS_TIMEOUT_SECONDS : pyfloat := float_of_int 5.

(** The attributes of [Supervisor] that only the snapshot reads. *)
Record reported := mkReported {
  r_started_at : pyfloat;
  r_start_time_ticks : Z;
  r_db_connected_at : option pyfloat;
  r_db_error_at : option pyfloat;
  r_completed_count : Z;
  r_last_db_activity_at : option pyfloat;
  r_db_deadline_breached_at : option pyfloat;
  r_db_deadline_breach_count : Z;
  r_last_claim_batch : Z;
  r_last_cancellation_scan_at : option pyfloat;
  r_last_recovery_at : option pyfloat;
  r_cancellation_batch_bound_hit : bool;
  r_recovery_batch_bound_hit : bool;
}.

(** [_record_db_deadline_breach] *)
Definition _record_db_deadline_breach (now : pyfloat) (r : reported) : reported :=
  mkReported (r_started_at r) (r_start_time_ticks r) (r_db_connected_at r) (r_db_error_at r) (r_completed_count r)
    (r_last_db_activity_at r) (Some now) (r_db_deadline_breach_count r + 1) (r_last_claim_batch r) (r_last_cancellation_scan_at r)
    (r_last_recovery_at r) (r_cancellation_batch_bound_hit r) (r_recovery_batch_bound_hit r).

(** ** Aggregates *)

Record _HealthAggregates := mkAggregates {
  ag_active_jobs : Z;
  ag_stopping_jobs : Z;
  ag_oldest_active_job_age_seconds : option pyfloat;
  ag_oldest_active_job_id : option pystr;
  ag_min_lease_safety_remaining_seconds : option pyfloat;
  ag_capture_streams_open : Z;
  ag_spool_held_bytes : Z;
  ag_cancellation_scan_overdue : bool;
  ag_recovery_overdue : bool;
  ag_gc_overdue : bool;
}.

Definition is_stopping (j : job) : bool :=
  term_sent j || kill_sent j || match stop_started j with Some _ => true | None => false end.

(** The age and the identifier of the oldest job so far. *)
Definition oldest_of (now : pyfloat) (oldest : option pyfloat * option pystr) (kj : Z * job) : option pyfloat * option pystr :=
  let '(k, j) := kj in
  if float_ltb zero (claimed_at j) then
    let age := float_sub now (claimed_at j) in
    let candidate := uuid_str k in
    let wins :=
      match oldest.1 with
      | None => true
      | Some a => float_ltb a age || (SFeqb age a && match oldest.2 with None => true | Some i => str_ltb candidate i end)
      end in
    if wins then (Some age, Some candidate) else oldest
  else oldest.

(** The job's lease is one that has to be refreshed. *)
Definition leased (j : job) : bool := negb (completed j) && negb (term_sent j) && float_ltb zero (last_heartbeat_at j).
Definition remaining (s : Settings) (now : pyfloat) (j : job) : pyfloat := float_sub (unsafe_at s (last_heartbeat_at j)) now.

Definition riskier (s : Settings) (now : pyfloat) (least : option pyfloat) (j : job) : option pyfloat :=
  if leased j then
    let r := remaining s now j in
    match least with None => Some r | Some l => if float_ltb r l then Some r else least end
  else least.

Definition streams_open (j : job) : Z :=
  Z.of_nat (length (List.filter (fun n => match os_fd (stream_of j n) with Some _ => negb (os_eof (stream_of j n)) | None => false end) OUTPUT_STREAMS)).
Definition held_bytes (j : job) : Z :=
  fold_left (fun z n => z + py_len (os_data (stream_of j n)) + py_len (os_pending (stream_of j n))) OUTPUT_STREAMS 0.

Definition total (f : job -> Z) (js : list job) : Z := fold_left (fun z j => z + f j) js 0.

(** The registry, in its order. *)
Definition registry (w : worker) : list (Z * job) :=
  omap (fun k => pair k <$> objects w !! k) (active w).

Section health.
Context (s : Settings).

Definition _collect_health_aggregates (w : worker) (gc : _GcSnapshot) (now_mono : pyfloat) : _HealthAggregates :=
  let jobs := registry w in
  let js := map snd jobs in
  let oldest := fold_left (oldest_of now_mono) jobs (None, None) in
  let overdue scheduled timeout := _scan_schedule_overdue now_mono scheduled timeout (process_poll_interval_seconds s) in
  mkAggregates (Z.of_nat (length jobs)) (total (fun j => if is_stopping j then 1 else 0) js) oldest.1 oldest.2
    (fold_left (riskier s now_mono) js None) (total streams_open js) (total held_bytes js)
    (overdue (_next_cancel_scan_at w) (db_operation_timeout_seconds s)) (overdue (_next_recovery_at w) (db_operation_timeout_seconds s))
    (overdue (next_gc_at gc) GC_PASS_TIMEOUT_SECONDS).

Definition _build_health (w : worker) (r : reported) (gc : _GcSnapshot) (pid : Z) (now_mono now_wall : pyfloat) (alive shutting_down : bool)
    : WorkerHealth :=
  let agg := _collect_health_aggregates w gc now_mono in
  mkHealth WORKER_HEALTH_SCHEMA_VERSION (worker_id s) (worker_incarnation s) pid (r_start_time_ticks r) (r_started_at r) now_wall
    alive (conn w) (r_db_connected_at r) (r_db_error_at r) (ag_active_jobs agg) (ag_stopping_jobs agg) (r_completed_count r)
    (ag_oldest_active_job_age_seconds agg) (lease_safety_margin_seconds s) (ag_min_lease_safety_remaining_seconds agg)
    (db_operation_timeout_seconds s) (r_last_db_activity_at r) (r_db_deadline_breached_at r) (r_db_deadline_breach_count r)
    (ag_capture_streams_open agg) (ag_spool_held_bytes agg) (claim_batch_limit s) (r_last_claim_batch r)
    (r_last_cancellation_scan_at r) (r_last_recovery_at r) (last_gc_at gc) (ag_cancellation_scan_overdue agg) (ag_recovery_overdue agg)
    (ag_gc_overdue agg) (gc_batch_limit s) (batch_bound_hit gc) CANCEL_DISCOVERY_LIMIT (r_cancellation_batch_bound_hit r)
    LEASE_RECOVERY_LIMIT (r_recovery_batch_bound_hit r) shutting_down (ag_oldest_active_job_id agg).
End health.

(** ** What the aggregates are *)

Lemma total_nat_like (f : job -> Z) js : (forall j, 0 <= f j) -> 0 <= total f js.
Proof.
  intros Hf. unfold total. assert (forall z, 0 <= z -> 0 <= fold_left (fun z j => z + f j) js z) as H; [|by apply H].
  induction js as [|j js IH]; cbn; intros z Hz; [done|]. apply IH. specialize (Hf j). lia.
Qed.

Lemma held_nat_like j : 0 <= held_bytes j.
Proof. unfold held_bytes, py_len. cbn. lia. Qed.

(** A time that is not before the epoch, if it is a number. *)
Definition not_before_zero (f : pyfloat) : Prop := float_ltb f zero = false.

Lemma required_sane f : not_before_zero f -> non_negative_finite (_finite_or_zero f).
Proof. unfold _finite_or_zero. destruct (is_finite f) eqn:E; [by intros; apply not_below|by split]. Qed.
Lemma optional_sane o : all_opt not_before_zero o -> all_opt non_negative_finite (_finite_or_none o).
Proof. destruct o as [f|]; cbn; [|done]. destruct (is_finite f) eqn:E; cbn; [by intros; apply not_below|done]. Qed.
Lemma optional_finite o : all_opt finite (_finite_or_none o).
Proof. destruct o as [f|]; cbn; [|done]. by destruct (is_finite f) eqn:E. Qed.

(** The oldest job is a registered one, of an age that is not negative. *)
Lemma oldest_sane now (jobs : list (Z * job)) :
  Forall (fun kj => 0 <= kj.1 < 2 ^ 128) jobs ->
  Forall (fun kj => float_ltb zero (claimed_at kj.2) = true -> not_before_zero (float_sub now (claimed_at kj.2))) jobs ->
  let oldest := fold_left (oldest_of now) jobs (None, None) in
  all_opt not_before_zero oldest.1 /\ all_opt (fun t => exists u, 0 <= u < 2 ^ 128 /\ t = uuid_str u) oldest.2.
Proof.
  intros Hid Hage. cbv zeta. assert (forall o : option pyfloat * option pystr,
      all_opt not_before_zero o.1 /\ all_opt (fun t => exists u, 0 <= u < 2 ^ 128 /\ t = uuid_str u) o.2 ->
      let o' := fold_left (oldest_of now) jobs o in
      all_opt not_before_zero o'.1 /\ all_opt (fun t => exists u, 0 <= u < 2 ^ 128 /\ t = uuid_str u) o'.2) as H; [|by apply H].
  induction jobs as [|[k j] jobs IH]; cbn [fold_left]; intros o Ho; [done|].
  apply List.Forall_cons_iff in Hid as [Hk Hid]. apply List.Forall_cons_iff in Hage as [Ha Hage].
  apply IH; [done..|]. unfold oldest_of. destruct (float_ltb zero (claimed_at j)) eqn:Hc; [|done].
  case_match; [|done]. split; cbn; [by apply Ha|by exists k].
Qed.

Lemma registry_ids w (P : Z -> Prop) : Forall P (active w) -> Forall (fun kj => P kj.1) (registry w).
Proof.
  intros H. unfold registry. apply List.Forall_forall. intros [k j] Hin. apply list_elem_of_In, list_elem_of_omap in Hin as (k' & Hk & Hj).
  destruct (objects w !! k'); [|done]. injection Hj as -> ->. rewrite List.Forall_forall in H. by apply H, list_elem_of_In.
Qed.

(** ** The lease margin *)

(** Folding [riskier] gives the least of what remains of the leases. *)
Lemma riskier_least s now js : Forall (fun j => leased j = true -> is_number (remaining s now j) = true) js ->
  match fold_left (riskier s now) js None with
  | None => Forall (fun j => leased j = false) js
  | Some least => is_number least = true /\ (exists j, In j js /\ leased j = true /\ least = remaining s now j)
      /\ Forall (fun j => leased j = true -> float_leb least (remaining s now j) = true) js
  end.
Proof.
  induction js as [|j js IH] using rev_ind; [constructor|]. intros [Hjs Hj]%Forall_app. rewrite List.Forall_cons_iff in Hj. destruct Hj as [Hj _].
  rewrite fold_left_app. cbn [fold_left]. specialize (IH Hjs). unfold riskier at 1.
  destruct (leased j) eqn:Hl.
  2:{ destruct (fold_left _ js None) as [least|].
      - destruct IH as (Hn & (j' & Hin & Hl' & He) & Hle). split; [done|]. split.
        + exists j'. rewrite in_app_iff. auto.
        + apply Forall_app. split; [done|]. constructor; [congruence|constructor].
      - apply Forall_app. by split; [|constructor; [|constructor]]. }
  specialize (Hj eq_refl). cbv zeta.
  assert (exists j', In j' (js ++ [j]) /\ leased j' = true /\ remaining s now j = remaining s now j') as Hself.
  { exists j. rewrite in_app_iff. cbn. auto. }
  destruct (fold_left _ js None) as [least|].
  - destruct IH as (Hn & (j' & Hin & Hl' & He) & Hle). destruct (float_ltb (remaining s now j) least) eqn:Hlt.
    + split; [done|]. split; [done|]. apply Forall_app. split.
      * rewrite List.Forall_forall in *. intros j1 H1 H2. eapply float_leb_trans; [by apply float_ltb_leb|by apply Hle].
      * constructor; [|constructor]. intros _. by apply float_leb_refl.
    + split; [done|]. split; [exists j'; rewrite in_app_iff; auto|]. apply Forall_app. split; [done|].
      constructor; [|constructor]. intros _. by apply float_leb_total.
  - split; [done|]. split; [done|]. apply Forall_app. split.
    + rewrite List.Forall_forall in *. intros j1 H1 H2. rewrite IH in H2; done.
    + constructor; [|constructor]. intros _. by apply float_leb_refl.
Qed.

(** The reported margin is negative exactly when a live job is past its safe instant. *)
Lemma negative_margin s now js : Forall (fun j => leased j = true -> is_number (remaining s now j) = true) js ->
  match fold_left (riskier s now) js None with Some least => float_ltb least zero | None => false end = true
  <-> exists j, In j js /\ leased j = true /\ float_ltb (remaining s now j) zero = true.
Proof.
  intros Hn. pose proof (riskier_least s now js Hn) as H. destruct (fold_left _ js None) as [least|].
  - destruct H as (Hleast & (j & Hin & Hl & He) & Hle). split.
    + intros Hneg. exists j. by rewrite <-He.
    + intros (j' & Hin' & Hl' & Hneg). rewrite List.Forall_forall in Hle. eapply float_leb_ltb_trans; [by apply Hle|done].
  - split; [done|]. intros (j & Hin & Hl & _). rewrite List.Forall_forall in H. by rewrite H in Hl.
Qed.

(** ** Publishing *)

Section published.
Context (s : Settings) (w : worker) (r : reported) (gc : _GcSnapshot) (own_pid : Z) (now_mono now_wall : pyfloat) (alive shutting_down : bool).

(** What a snapshot is built from is sane: the worker has a name, an incarnation fit
    for a file name and a process, its clocks do not show times before their zero, and
    its counters only count. *)
Record reportable : Prop := {
  rp_settings : settings_valid s = true;
  rp_name : worker_id s <> [];
  rp_token : token_ok (worker_incarnation s);
  rp_process : 1 <= own_pid /\ 1 <= r_start_time_ticks r;
  rp_clock : not_before_zero now_wall /\ not_before_zero (r_started_at r);
  rp_times : Forall (all_opt not_before_zero)
    [r_db_connected_at r; r_db_error_at r; r_last_db_activity_at r; r_db_deadline_breached_at r; r_last_cancellation_scan_at r;
     r_last_recovery_at r; last_gc_at gc];
  rp_counts : Forall nat_like [r_completed_count r; r_db_deadline_breach_count r; r_last_claim_batch r];
  rp_ids : Forall (fun k => 0 <= k < 2 ^ 128) (active w);
  rp_ages : Forall (fun kj => float_ltb zero (claimed_at kj.2) = true -> not_before_zero (float_sub now_mono (claimed_at kj.2))) (registry w);
}.

Lemma settings_reportable : settings_valid s = true ->
  non_negative_finite (lease_safety_margin_seconds s) /\ positive_finite (db_operation_timeout_seconds s)
  /\ 1 <= claim_batch_limit s /\ 1 <= gc_batch_limit s.
Proof.
  unfold settings_valid, _validate_finite_timing, _validate_lease_timing, _validate_output_and_gc, _validate_spool. cbn [forallb].
  intros H. repeat match goal with H : (_ && _) = true |- _ => apply andb_true_iff in H as [? ?] end.
  repeat match goal with
  | H : (if ?b then false else _) = true |- _ => destruct b eqn:?; [discriminate H|]
  | H : (_ || _) = false |- _ => apply orb_false_iff in H as [? ?]
  | H : (_ <=? 0) = false |- _ => apply Z.leb_gt in H
  end.
  split; [by apply not_below|]. split; [by split|]. lia.
Qed.

Lemma built_wf : reportable -> health_wf (wire_view (_build_health s w r gc own_pid now_mono now_wall alive shutting_down)).
Proof.
  intros [Hs Hname Htok [Hpid Hticks] [Hwall Hstart] Ht Hc Hids Hages].
  destruct (settings_reportable Hs) as (Hmargin & Htimeout & Hclaim & Hgc).
  destruct (oldest_sane now_mono (registry w) (registry_ids w _ Hids) Hages) as [Hold Holdid].
  repeat match goal with H : Forall _ (_ :: _) |- _ => apply List.Forall_cons_iff in H as [? H] end.
  pose proof (required_sane _ Hwall). pose proof (required_sane _ Hstart).
  assert (forall f, non_negative_finite f -> non_negative_finite (_finite_or_zero f)) as Hsame.
  { intros f Hf. rewrite finite_or_zero_ok; [done|]. by destruct Hf. }
  split; cbn -[fold_left total registry]; auto 12 using List.Forall_cons, List.Forall_nil, optional_sane, optional_finite.
  - rewrite finite_or_zero_ok; [done|]. by destruct Htimeout.
  - repeat apply List.Forall_cons; try apply List.Forall_nil; try done; unfold nat_like; try lia; apply total_nat_like.
    + intros j. by destruct (is_stopping j).
    + intros j. unfold streams_open. lia.
    + apply held_nat_like.
  - unfold CANCEL_DISCOVERY_LIMIT, LEASE_RECOVERY_LIMIT. repeat (apply List.Forall_cons; [lia|]). apply List.Forall_nil.
Qed.
End published.

(** The snapshot that the worker publishes is read back by whoever opens its file, field
    by field; only numbers that are not finite are left out. *)
Theorem published_health_read_back s w r gc own_pid now_mono now_wall alive shutting_down data :
  let h := _build_health s w r gc own_pid now_mono now_wall alive shutting_down in
  reportable s w r gc own_pid now_mono now_wall -> json_plain (JObj (to_dict h)) = true -> health_file h = Ok data ->
  _read_health_file (Some (Bytes data)) = Ok (Some (wire_view h)).
Proof. intros h Hr. by apply health_read_back, built_wf. Qed.

(** ** A worker with a job past its safe instant *)

Module HealthExample.
Definition settings : Settings := default_settings (py "w-1") (py "h1") (py "tok2") (float_of_int 1) (float_of_int 1) (float_of_int 5).
Definition stream : OutputStream := mkStream (py "ab") None false [] 0 2 zero 0 None 0 [] 0 0.
Definition late : job :=
  mkActive (mkJob 7 1 stream stream false) 1 400 400 (float_of_int 900) (float_of_int 900) false None false false false None None None
    false false false false false 0 zero (float_of_int 1000) 9000 ∅.
Definition w : worker := set_conn true (put_job 7 late (register 7 new_worker)).
Definition r : reported :=
  mkReported (float_of_int 5000) 7000 (Some (float_of_int 5001)) None 3 (Some (float_of_int 5100)) None 0 1 (Some (float_of_int 5100)) None false false.
Definition gc : _GcSnapshot := mkGc None (float_of_int 2000) false None.
Definition now_mono : pyfloat := float_of_int 1026.
Definition now_wall : pyfloat := float_of_int 5126.
Definition h : WorkerHealth := _build_health settings w r gc 300 now_mono now_wall true false.
Definition data : pybytes := Eval vm_compute in match health_file h with Ok data => data | Raise _ => [] end.

Lemma written : health_file h = Ok data.
Proof. by vm_compute. Qed.
Lemma plain : json_plain (JObj (to_dict h)) = true.
Proof. by vm_compute. Qed.
Lemma reports : reportable settings w r gc 300 now_mono now_wall.
Proof.
  assert (Forall (fun k => 0 <= k < 2 ^ 128) (active w)) as Hids by (apply List.Forall_cons; [lia|apply List.Forall_nil]).
  split; [by vm_compute|done|by vm_compute|cbn; lia|by vm_compute|..].
  - repeat (apply List.Forall_cons; [by vm_compute|]). apply List.Forall_nil.
  - unfold nat_like. repeat (apply List.Forall_cons; [cbn; lia|]). apply List.Forall_nil.
  - exact Hids.
  - apply List.Forall_cons; [|apply List.Forall_nil]. intros _. by vm_compute.
Qed.
End HealthExample.

Lemma published_health_read_back_witness :
  _read_health_file (Some (Bytes HealthExample.data)) = Ok (Some (wire_view HealthExample.h)).
Proof.
  apply (published_health_read_back HealthExample.settings HealthExample.w HealthExample.r HealthExample.gc 300 HealthExample.now_mono
           HealthExample.now_wall true false HealthExample.data HealthExample.reports HealthExample.plain HealthExample.written).
Defined.
