(* ===== verification/HealthLiveness.v ===== *)
(** What the readers of a health snapshot conclude from it: whether its process is the
    live one it names ([interpret_worker_health] of [src/lubko/health.py]), whether the
    worker's loop is sound, and what the supervisor makes of it
    ([src/lubko/supervisor.py]). *)

From S2P Require Import Prelude PyStr PyNum Json ProcFs SupervisorCodec Store Programs HealthSnapshot.
From Corelib Require Import SpecFloat.

#[local] Open Scope Z_scope.
#[local] Arguments py : simpl never.

(** ** Text *)

(** [f"{f:.1f}"] *)
Definition format_tenths (f : pyfloat) : pystr :=
  match f with
  | S754_nan => py "nan"
  | S754_infinity negative => if negative then py "-inf" else py "inf"
  | S754_zero negative => if negative then py "-0.0" else py "0.0"
  | S754_finite negative m e =>
      let tenths := if 0 <=? e then 10 * Zpos m * 2 ^ e else div_round (10 * Zpos m) (2 ^ (- e)) in
      (if negative then py "-" else []) ++ int_repr (tenths / 10) ++ py "." ++ int_repr (tenths mod 10)
  end.

(** ** Operational readiness *)

Record OperationalReadiness := mkReadiness {
  op_ready : bool;
  op_reason : pystr;
  op_any_scan_overdue : bool;
  op_cancellation_scan_overdue : bool;
  op_recovery_overdue : bool;
  op_gc_overdue : bool;
  op_lease_safety_negative : bool;
  op_min_lease_safety_remaining_seconds : option pyfloat;
  op_unrecovered_db_deadline_breach : bool;
  op_unrecovered_db_error : bool;
  op_shutting_down : bool;
}.

(** [OperationalReadiness.to_dict] *)
Definition readiness_to_dict (o : OperationalReadiness) : dict :=
  [(py "ready", JBool (op_ready o)); (py "reason", JStr (op_reason o)); (py "any_scan_overdue", JBool (op_any_scan_overdue o));
   (py "cancellation_scan_overdue", JBool (op_cancellation_scan_overdue o)); (py "recovery_overdue", JBool (op_recovery_overdue o));
   (py "gc_overdue", JBool (op_gc_overdue o)); (py "lease_safety_negative", JBool (op_lease_safety_negative o));
   (py "min_lease_safety_remaining_seconds", json_opt JFloat (_finite_or_none (op_min_lease_safety_remaining_seconds o)));
   (py "unrecovered_db_deadline_breach", JBool (op_unrecovered_db_deadline_breach o));
   (py "unrecovered_db_error", JBool (op_unrecovered_db_error o)); (py "shutting_down", JBool (op_shutting_down o))].

Definition _db_deadline_breach_recovered (h : WorkerHealth) : bool :=
  match h_db_deadline_breached_at h, h_db_last_activity_at h with
  | None, _ => true
  | Some _, None => false
  | Some breached, Some activity => float_ltb breached activity
  end.

Definition _db_error_recovered (h : WorkerHealth) : bool :=
  match h_db_error_at h with
  | None => true
  | Some error =>
      if negb (h_db_connected h) then false
      else match h_db_connected_at h with None => false | Some connected => float_ltb error connected end
  end.

Definition lease_negative (h : WorkerHealth) : bool :=
  match h_min_lease_safety_remaining_seconds h with Some r => float_ltb r zero | None => false end.

Definition overdue_scans (h : WorkerHealth) : list pystr :=
  (if h_cancellation_scan_overdue h then [py "cancellation"] else []) ++ (if h_recovery_overdue h then [py "recovery"] else [])
  ++ (if h_gc_overdue h then [py "gc"] else []).

Definition degradations (h : WorkerHealth) : list pystr :=
  (if h_cancellation_scan_overdue h || h_recovery_overdue h || h_gc_overdue h
   then [py "overdue scans: " ++ join (py ", ") (overdue_scans h)] else [])
  ++ (if lease_negative h
      then match h_min_lease_safety_remaining_seconds h with
           | Some r => [py "lease safety negative: " ++ format_tenths r ++ py "s"] | None => [] end
      else [])
  ++ (if _db_deadline_breach_recovered h then [] else [py "unrecovered DB deadline breach"])
  ++ (if _db_error_recovered h then [] else [py "unrecovered DB error"])
  ++ (if h_shutting_down h then [py "shutting down"] else []).

Definition interpret_operational_readiness (h : WorkerHealth) : OperationalReadiness :=
  let reasons := degradations h in
  let ready := match reasons with [] => true | _ => false end in
  mkReadiness ready (if ready then py "ok" else join (py "; ") reasons)
    (h_cancellation_scan_overdue h || h_recovery_overdue h || h_gc_overdue h)
    (h_cancellation_scan_overdue h) (h_recovery_overdue h) (h_gc_overdue h) (lease_negative h)
    (h_min_lease_safety_remaining_seconds h) (negb (_db_deadline_breach_recovered h)) (negb (_db_error_recovered h)) (h_shutting_down h).

Definition _dead_operational (reason : pystr) : OperationalReadiness :=
  mkReadiness false reason false false false false false None false false false.

(** ** Liveness *)

Record EffectiveHealth := mkEffective {
  ef_snapshot : option WorkerHealth;
  ef_live : bool;
  ef_stale : bool;
  ef_reason : pystr;
  ef_operational : OperationalReadiness;
}.

(** What the readers ask: the clock, a file of the health directory, and about a
    process. *)
Inductive look : Type -> Type :=
  | Time : look pyfloat
  | ReadFile (name : pystr) : look (option file)
  | ReadCurrent : look (option file)
  | PinProcess (pid : Z) : look (res Z)
  | ReadProc : look procfs
  | SendNull (pidfd : Z) : look (res unit)
  | ClosePin (pidfd : Z) : look (res unit).

Abbreviation program := (Programs.method look unit).

(** [_process_is_live]: the state letter is all it needs. *)
Definition _process_is_live (pf : procfs) (pid : Z) : bool :=
  match pf_stat pf pid with
  | ReadOk stat =>
      let close_paren := rfind 41 stat in
      if close_paren =? -1 then false
      else match split_ws (drop (Z.to_nat (close_paren + 2)) stat) with
           | [] => false
           | state :: _ => negb (str_eqb state (py "Z") || str_eqb state (py "X"))
           end
  | ReadNotFound | ReadError => false
  end.

Definition about_pid (pid : Z) (what : pystr) : pystr := py "PID " ++ int_repr pid ++ what.

Definition _pinned_snapshot_process_live (h : WorkerHealth) : program (bool * pystr) :=
  let pid := h_pid h in
  pinned ← outcome (ask_res (PinProcess pid));
  match pinned with
  | Raise x => if is_os_error x then mret (false, about_pid pid (py " could not be pinned")) else raise x
  | Ok pidfd =>
      finally
        (pf ← ask ReadProc;
         match proc_start_ticks pf pid with
         | None => mret (false, about_pid pid (py " is not alive"))
         | Some ticks =>
             if negb (ticks =? h_start_time_ticks h) then
               mret (false, about_pid pid (py " start time " ++ int_repr ticks ++ py " != expected " ++ int_repr (h_start_time_ticks h)))
             else
               pf ← ask ReadProc;
               if negb (_process_is_live pf pid) then mret (false, about_pid pid (py " is a zombie or dead"))
               else
                 sent ← outcome (ask_res (SendNull pidfd));
                 match sent with
                 | Raise x => if is_os_error x then mret (false, about_pid pid (py " disappeared during liveness validation")) else raise x
                 | Ok _ => mret (h_alive h, py "ok")
                 end
         end)
        (ask_res (ClosePin pidfd))
  end.

Definition MAX_STALENESS_SECONDS : pyfloat := float_of_int 10.

Definition interpret_worker_health (snapshot : option WorkerHealth) (max_staleness_seconds : pyfloat) : program EffectiveHealth :=
  match snapshot with
  | None => mret (mkEffective None false false (py "no health snapshot") (_dead_operational (py "no health snapshot")))
  | Some h =>
      let operational := interpret_operational_readiness h in
      if negb (is_finite (h_published_at h)) then
        mret (mkEffective snapshot false true (py "non-finite published_at in snapshot") operational)
      else
        now ← ask Time;
        if float_ltb now (h_published_at h) then
          mret (mkEffective snapshot false true (py "published_at in snapshot is in the future") operational)
        else
          let age := float_sub now (h_published_at h) in
          if float_ltb max_staleness_seconds age then
            mret (mkEffective snapshot false true
                    (py "snapshot age " ++ format_tenths age ++ py "s exceeds " ++ float_repr max_staleness_seconds ++ py "s") operational)
          else if h_pid h <=? 0 then mret (mkEffective snapshot false false (py "invalid PID in snapshot") operational)
          else
            live ← _pinned_snapshot_process_live h;
            mret (mkEffective snapshot live.1 false live.2 operational)
  end.

Definition worker_health_payload (snapshot : option WorkerHealth) (max_staleness_seconds : pyfloat) : program dict :=
  effective ← interpret_worker_health snapshot max_staleness_seconds;
  let operational := ef_operational effective in
  mret [(py "snapshot", match ef_snapshot effective with Some h => JObj (to_dict h) | None => JNull end);
        (py "live", JBool (ef_live effective)); (py "stale", JBool (ef_stale effective)); (py "liveness_reason", JStr (ef_reason effective));
        (py "overall_reason",
         JStr (if op_ready operational then ef_reason effective else if ef_live effective then op_reason operational else ef_reason effective));
        (py "operational", JObj (readiness_to_dict operational))].

(** ** Reading *)

(** The name of an incarnation's file ([health_incarnation_path]). *)
Definition health_file_name (incarnation : pystr) : pystr := py "health-" ++ incarnation ++ py ".json".

Definition read_worker_health_by_incarnation (incarnation : pystr) : program (option WorkerHealth) :=
  match validate_incarnation_token incarnation with
  | Raise ValueError => mret None
  | Raise x => raise x
  | Ok _ => f ← ask (ReadFile (health_file_name incarnation)); of_res (_read_health_file f)
  end.

(** [read_worker_health]: what the stable link leads to, if it is one. *)
Definition read_worker_health : program (option WorkerHealth) :=
  f ← ask ReadCurrent; of_res (_read_health_file f).

(** ** The supervisor *)

(** Why the health of a child is not accepted. *)
Inductive health_verdict :=
  | HealthAccepted
  | NoSnapshot (token : pystr)
  | OtherPid (snapshot child : Z)
  | OtherTicks (snapshot child : Z)
  | OtherIncarnation (snapshot child : pystr)
  | NotLive (reason : pystr)
  | NotReady (reason : pystr).

Definition accepted (v : health_verdict) : bool := match v with HealthAccepted => true | _ => false end.

Definition _check_worker_health (child : WorkerChild) : program health_verdict :=
  snapshot ← read_worker_health_by_incarnation (ch_token child);
  match snapshot with
  | None => mret (NoSnapshot (ch_token child))
  | Some h =>
      if negb (h_pid h =? ch_pid child) then mret (OtherPid (h_pid h) (ch_pid child))
      else if negb (h_start_time_ticks h =? ch_start_time_ticks child) then mret (OtherTicks (h_start_time_ticks h) (ch_start_time_ticks child))
      else if negb (str_eqb (h_worker_incarnation h) (ch_token child)) then mret (OtherIncarnation (h_worker_incarnation h) (ch_token child))
      else
        effective ← interpret_worker_health snapshot MAX_STALENESS_SECONDS;
        if negb (ef_live effective) then mret (NotLive (ef_reason effective))
        else if negb (op_ready (ef_operational effective)) then mret (NotReady (op_reason (ef_operational effective)))
        else mret HealthAccepted
  end.

Definition _worker_health_proves_immediate_safety_breach (child : WorkerChild) : program bool :=
  snapshot ← read_worker_health_by_incarnation (ch_token child);
  match snapshot with
  | None => mret false
  | Some h =>
      if negb (h_pid h =? ch_pid child) || negb (h_start_time_ticks h =? ch_start_time_ticks child)
         || negb (str_eqb (h_worker_incarnation h) (ch_token child)) then mret false
      else
        effective ← interpret_worker_health snapshot MAX_STALENESS_SECONDS;
        if negb (ef_live effective) then mret false else mret (op_lease_safety_negative (ef_operational effective))
  end.
