(* ===== verification/HealthVerdicts.v ===== *)
(** The verdicts on a worker's health are exactly as strict as they should be: a snapshot
    counts as live only for the process it names, pinned while it is looked at; the
    supervisor accepts the health of a child, or takes its lease safety for breached,
    for no other process and no other reason; and what the worker measured reaches the
    supervisor. *)

From S2P Require Import Prelude PyStr PyNum FloatFacts Json JsonFacts Uuid ProcFs SupervisorCodec Store Programs WorkerSettings HealthSnapshot HealthBuild HealthLiveness.
From Corelib Require Import SpecFloat.

#[local] Open Scope Z_scope.
#[local] Arguments py : simpl never.

Abbreviation exchange := (Programs.exchange look).

(** ** Readiness *)

(** The worker's loop is sound: nothing is overdue, no lease is at risk, the database
    has recovered since its last failure, and the worker is not stopping. *)
Record sound (h : WorkerHealth) : Prop := {
  so_scans : h_cancellation_scan_overdue h = false /\ h_recovery_overdue h = false /\ h_gc_overdue h = false;
  so_lease : lease_negative h = false;
  so_deadline : match h_db_deadline_breached_at h with
                | None => True
                | Some breached => exists activity, h_db_last_activity_at h = Some activity /\ float_ltb breached activity = true
                end;
  so_error : match h_db_error_at h with
             | None => True
             | Some error => h_db_connected h = true /\ exists connected, h_db_connected_at h = Some connected /\ float_ltb error connected = true
             end;
  so_running : h_shutting_down h = false;
}.

Lemma deadline_recovered_exact h : _db_deadline_breach_recovered h = true <->
  match h_db_deadline_breached_at h with
  | None => True
  | Some breached => exists activity, h_db_last_activity_at h = Some activity /\ float_ltb breached activity = true
  end.
Proof.
  unfold _db_deadline_breach_recovered. destruct (h_db_deadline_breached_at h) as [b|]; [|done].
  destruct (h_db_last_activity_at h) as [a|]; split; [by exists a|by intros (? & [= <-] & ?)|done|by intros (? & ? & _)].
Qed.

Lemma error_recovered_exact h : _db_error_recovered h = true <->
  match h_db_error_at h with
  | None => True
  | Some error => h_db_connected h = true /\ exists connected, h_db_connected_at h = Some connected /\ float_ltb error connected = true
  end.
Proof.
  unfold _db_error_recovered. destruct (h_db_error_at h) as [b|]; [|done].
  destruct (h_db_connected h), (h_db_connected_at h) as [a|]; cbn;
    (split; [intros H; try done; eauto|intros (? & ? & ? & ?); try done; congruence]).
Qed.

Lemma ready_exact h : op_ready (interpret_operational_readiness h) = true <-> sound h.
Proof.
  assert (op_ready (interpret_operational_readiness h) = true <-> degradations h = []) as ->.
  { unfold interpret_operational_readiness. cbn. by destruct (degradations h). }
  pose proof (deadline_recovered_exact h) as Hd. pose proof (error_recovered_exact h) as He.
  assert (lease_negative h = true -> exists r, h_min_lease_safety_remaining_seconds h = Some r) as Hl.
  { unfold lease_negative. destruct (h_min_lease_safety_remaining_seconds h); [eauto|done]. }
  unfold degradations. split.
  - intros H. repeat match type of H with _ ++ _ = [] => apply app_eq_nil in H as [? H] end.
    destruct (h_cancellation_scan_overdue h) eqn:?, (h_recovery_overdue h) eqn:?, (h_gc_overdue h) eqn:?; try done.
    destruct (lease_negative h) eqn:Hn; [by destruct (Hl eq_refl) as (r & Hr); rewrite Hr in *|].
    destruct (_db_deadline_breach_recovered h) eqn:?; [|done]. destruct (_db_error_recovered h) eqn:?; [|done].
    destruct (h_shutting_down h) eqn:?; [done|]. split; tauto.
  - intros [(-> & -> & ->) -> Hd' He' ->]. cbn. by rewrite (proj2 Hd Hd'), (proj2 He He').
Qed.

(** ** Liveness *)

(** What has been looked at before a snapshot counts as live. *)
Definition live_look (h : WorkerHealth) (now : pyfloat) (fd : Z) (before after : procfs) : list exchange :=
  [Exchange Time now; Exchange (PinProcess (h_pid h)) (Ok fd); Exchange ReadProc before; Exchange ReadProc after;
   Exchange (SendNull fd) (Ok tt); Exchange (ClosePin fd) (Ok tt)].

(** The snapshot is neither from the future nor stale, and its process, as seen while it
    is pinned, is the one that the snapshot names, and runs. *)
Record live_proof (h : WorkerHealth) (limit now : pyfloat) (before after : procfs) : Prop := {
  lp_published : is_finite (h_published_at h) = true /\ float_ltb now (h_published_at h) = false;
  lp_fresh : float_ltb limit (float_sub now (h_published_at h)) = false;
  lp_process : 0 < h_pid h /\ proc_start_ticks before (h_pid h) = Some (h_start_time_ticks h);
  lp_running : _process_is_live after (h_pid h) = true;
  lp_alive : h_alive h = true;
}.

Lemma pinned_live h tr live reason m : runs (_pinned_snapshot_process_live h tt) tr (Ok (live, reason), m) -> live = true ->
  exists fd before after, tr = [Exchange (PinProcess (h_pid h)) (Ok fd); Exchange ReadProc before; Exchange ReadProc after;
      Exchange (SendNull fd) (Ok tt); Exchange (ClosePin fd) (Ok tt)]
    /\ proc_start_ticks before (h_pid h) = Some (h_start_time_ticks h) /\ _process_is_live after (h_pid h) = true /\ h_alive h = true.
Proof.
  intros H Hl. unfold _pinned_snapshot_process_live in H. cbv zeta in H.
  run_step H. run_step H. run_step H.
  2:{ run_through H. }
  apply runs_finally_inv in H as (r1 & [] & tr1 & r2 & [] & tr2 & H1 & H2 & -> & Hr).
  run_step H2.
  destruct x as [[]|]; [|done]. simplify_eq. run_through H1. destruct a0. exists a, x2, x4.
  repeat match goal with H : negb _ = false |- _ => apply negb_false_iff in H end. rewrite Heqo. repeat split; [f_equal; lia|done..].
Qed.

Lemma pinned_runs h fd before after : proc_start_ticks before (h_pid h) = Some (h_start_time_ticks h) ->
  _process_is_live after (h_pid h) = true ->
  runs (_pinned_snapshot_process_live h tt)
    [Exchange (PinProcess (h_pid h)) (Ok fd); Exchange ReadProc before; Exchange ReadProc after; Exchange (SendNull fd) (Ok tt);
     Exchange (ClosePin fd) (Ok tt)] (Ok (h_alive h, py "ok"), tt).
Proof.
  intros Ht Hl. unfold _pinned_snapshot_process_live. cbv zeta.
  eapply (runs_bind _ _ _ [_]); [apply runs_outcome, runs_ask_res_one|]. cbn beta iota.
  eapply (runs_finally _ _ _ [_; _; _]); [|apply runs_ask_res_one].
  eapply (runs_bind _ _ _ [_]); [apply runs_ask_one|]. rewrite Ht, Z.eqb_refl. cbn [negb].
  eapply (runs_bind _ _ _ [_]); [apply runs_ask_one|]. rewrite Hl. cbn [negb].
  eapply (runs_bind _ _ _ [_]); [apply runs_outcome, runs_ask_res_one|]. constructor.
Qed.

Lemma interpret_live h limit tr e m : runs (interpret_worker_health (Some h) limit tt) tr (Ok e, m) -> ef_live e = true ->
  exists now fd before after, tr = live_look h now fd before after /\ live_proof h limit now before after
    /\ ef_operational e = interpret_operational_readiness h.
Proof.
  unfold interpret_worker_health. cbv zeta. intros H Hl.
  run_step H; [by run_step H|]. do 2 run_step H. run_step H; [by run_step H|]. run_step H; [by run_step H|]. run_step H; [by run_step H|].
  apply runs_bind_inv in H as (tr1 & r1 & [] & H1 & H). destruct r1 as [[live why]|]; [|by destruct H as [_ H]].
  destruct H as (tr2 & -> & H). run_step H. cbn in Hl. destruct (pinned_live _ _ _ _ _ H1 Hl) as (fd & before & after & -> & Hp).
  eexists _, fd, before, after. destruct Hp as (Hp1 & Hp2 & Hp3). split; [reflexivity|]. split; [|done].
  repeat match goal with H : negb _ = false |- _ => apply negb_false_iff in H end.
  split; [by split|done|split; [lia|done]|done|done].
Qed.

Lemma live_interpret h limit now fd before after : live_proof h limit now before after ->
  runs (interpret_worker_health (Some h) limit tt) (live_look h now fd before after)
    (Ok (mkEffective (Some h) true false (py "ok") (interpret_operational_readiness h)), tt).
Proof.
  intros [[Hp1 Hp2] Hf [Hpid Ht] Hl Ha]. unfold interpret_worker_health, live_look. cbv zeta. rewrite Hp1. cbn [negb].
  eapply (runs_bind _ _ _ [_]); [apply runs_ask_one|]. rewrite Hp2, Hf. replace (h_pid h <=? 0) with false by lia. cbv iota.
  rewrite <-(app_nil_r (_ :: _)). eapply runs_bind; [by apply pinned_runs|]. cbn. rewrite Ha. constructor.
Qed.

(** ** The supervisor's verdicts *)

(** The snapshot names the child: its process, its start and its incarnation. *)
Definition names_child (child : WorkerChild) (h : WorkerHealth) : Prop :=
  h_pid h = ch_pid child /\ h_start_time_ticks h = ch_start_time_ticks child /\ h_worker_incarnation h = ch_token child.

Definition reads_own_file (child : WorkerChild) (f : option file) : exchange := Exchange (ReadFile (health_file_name (ch_token child))) f.

Lemma read_own_runs child f h tr : token_ok (ch_token child) -> _read_health_file f = Ok h ->
  tr = [reads_own_file child f] -> runs (read_worker_health_by_incarnation (ch_token child) tt) tr (Ok h, tt).
Proof.
  intros Ht Hf ->. unfold read_worker_health_by_incarnation. rewrite Ht, <-Hf.
  eapply (runs_bind _ _ _ [_] _ _ []); [apply runs_ask_one|]. constructor.
Qed.

Lemma read_own_inv child tr h : runs (read_worker_health_by_incarnation (ch_token child) tt) tr (Ok (Some h), tt) ->
  token_ok (ch_token child) /\ exists f, tr = [reads_own_file child f] /\ _read_health_file f = Ok (Some h).
Proof.
  unfold read_worker_health_by_incarnation, token_ok. intros H. destruct (validate_incarnation_token (ch_token child)) as [[]|[]]; try by run_step H.
  split; [done|]. do 2 run_step H. apply runs_of_res_inv in H as [-> H]. eexists _. split; [reflexivity|]. congruence.
Qed.

(** C34: The supervisor accepts the health of a child exactly when it has read a snapshot from
    the child's own file that names the child, that is fresh, whose process was alive and
    the named one while it was pinned, and that reports a sound loop. *)
Theorem health_accepted_exactly child tr :
  runs (_check_worker_health child tt) tr (Ok HealthAccepted, tt) <->
  exists f h now fd before after, tr = reads_own_file child f :: live_look h now fd before after
    /\ token_ok (ch_token child) /\ _read_health_file f = Ok (Some h) /\ names_child child h
    /\ live_proof h MAX_STALENESS_SECONDS now before after /\ sound h.
Proof.
  split.
  - unfold _check_worker_health. intros H. apply runs_bind_inv in H as (tr1 & r1 & [] & H1 & H).
    destruct r1 as [[h|]|]; [|by destruct H as (? & ? & H); run_step H|by destruct H as [_ H]]. destruct H as (tr2 & -> & H).
    apply read_own_inv in H1 as (Htok & f & -> & Hf). do 3 (run_step H; [by run_step H|]).
    apply runs_bind_inv in H as (tr3 & r3 & [] & H3 & H). destruct r3 as [e|]; [|by destruct H as [_ H]]. destruct H as (tr4 & -> & H).
    do 2 (run_step H; [by run_step H|]). run_step H.
    repeat match goal with H : negb _ = false |- _ => apply negb_false_iff in H end.
    destruct (interpret_live _ _ _ _ _ H3) as (now & fd & before & after & -> & Hp & Ho); [done|].
    exists f, h, now, fd, before, after. rewrite app_nil_r. split; [done|]. split; [done|]. split; [done|]. split.
    + split; [lia|]. split; [lia|by apply str_eqb_eq].
    + split; [done|]. apply ready_exact. congruence.
  - intros (f & h & now & fd & before & after & -> & Htok & Hf & (Hp & Ht & Hi) & Hlive & Hs). unfold _check_worker_health.
    eapply (runs_bind _ _ _ [_]); [by eapply read_own_runs|]. cbv iota. rewrite Hp, Ht, Hi, !Z.eqb_refl, str_eqb_refl. cbn [negb].
    rewrite <-(app_nil_r (live_look _ _ _ _ _)). eapply runs_bind; [by apply live_interpret|].
    cbn [ef_live ef_operational negb]. rewrite (proj2 (ready_exact h) Hs). constructor.
Qed.

(** Of a live child, the answer is what its snapshot says. *)
Lemma breach_answer child f h now fd before after :
  token_ok (ch_token child) -> _read_health_file f = Ok (Some h) -> names_child child h -> live_proof h MAX_STALENESS_SECONDS now before after ->
  runs (_worker_health_proves_immediate_safety_breach child tt)
    (reads_own_file child f :: live_look h now fd before after) (Ok (lease_negative h), tt).
Proof.
  intros Htok Hf (Hp & Ht & Hi) Hlive. unfold _worker_health_proves_immediate_safety_breach.
  eapply (runs_bind _ _ _ [_]); [by eapply read_own_runs|]. cbv iota. rewrite Hp, Ht, Hi, !Z.eqb_refl, str_eqb_refl. cbn [negb orb].
  rewrite <-(app_nil_r (live_look _ _ _ _ _)). eapply runs_bind; [by apply live_interpret|]. constructor.
Qed.

(** The supervisor takes a child's lease safety for breached exactly when it has read a
    snapshot from the child's own file that names the child, that is fresh, whose process
    was alive and the named one while it was pinned, and that reports a lease past its
    safe instant. *)
Theorem breach_proven_exactly child tr :
  runs (_worker_health_proves_immediate_safety_breach child tt) tr (Ok true, tt) <->
  exists f h now fd before after, tr = reads_own_file child f :: live_look h now fd before after
    /\ token_ok (ch_token child) /\ _read_health_file f = Ok (Some h) /\ names_child child h
    /\ live_proof h MAX_STALENESS_SECONDS now before after /\ lease_negative h = true.
Proof.
  split.
  - unfold _worker_health_proves_immediate_safety_breach. intros H. apply runs_bind_inv in H as (tr1 & r1 & [] & H1 & H).
    destruct r1 as [[h|]|]; [|by destruct H as (? & ? & H); run_step H|by destruct H as [_ H]]. destruct H as (tr2 & -> & H).
    apply read_own_inv in H1 as (Htok & f & -> & Hf). run_step H; [by run_step H|].
    apply runs_bind_inv in H as (tr3 & r3 & [] & H3 & H). destruct r3 as [e|]; [|by destruct H as [_ H]]. destruct H as (tr4 & -> & H).
    run_step H; [by run_step H|]. apply runs_mret_inv in H as [-> [= H]].
    repeat match goal with H : (_ || _) = false |- _ => apply orb_false_iff in H as [H ?] end.
    repeat match goal with H : negb _ = false |- _ => apply negb_false_iff in H end.
    destruct (interpret_live _ _ _ _ _ H3) as (now & fd & before & after & -> & Hp & Ho); [done|].
    exists f, h, now, fd, before, after. rewrite app_nil_r. split; [done|]. split; [done|]. split; [done|]. split.
    + split; [lia|]. split; [lia|by apply str_eqb_eq].
    + split; [done|]. by rewrite Ho in H.
  - intros (f & h & now & fd & before & after & -> & Htok & Hf & Hc & Hlive & <-). by apply breach_answer.
Qed.

(** ** From the worker to its supervisor *)

Section end_to_end.
Context (s : Settings) (w : WorkerWorld.worker) (r : reported) (gc : _GcSnapshot) (own_pid : Z) (now_mono now_wall : pyfloat).

Let h := _build_health s w r gc own_pid now_mono now_wall true false.

Lemma published_margin : Forall (fun j => leased j = true -> is_finite (remaining s now_mono j) = true) (map snd (registry w)) ->
  lease_negative (wire_view h) = true
  <-> exists k j, In (k, j) (registry w) /\ leased j = true /\ float_ltb (remaining s now_mono j) zero = true.
Proof.
  intros Hn. assert (Forall (fun j => leased j = true -> is_number (remaining s now_mono j) = true) (map snd (registry w))) as Hn'.
  { eapply List.Forall_impl; [|exact Hn]. cbn. intros j Hj Hl. by apply FloatFacts.finite_number, Hj. }
  pose proof (negative_margin s now_mono _ Hn') as H. pose proof (riskier_least s now_mono _ Hn') as Hleast.
  unfold lease_negative. cbn -[fold_left registry]. destruct (fold_left (riskier s now_mono) (map snd (registry w)) None) as [least|].
  - destruct Hleast as (_ & (j & Hin & Hl & ->) & _). rewrite List.Forall_forall in Hn. cbn. rewrite (Hn j Hin Hl), H.
    split.
    + intros (j' & [[k j''] [<- Hin']]%in_map_iff & ?). by exists k, j''.
    + intros (k & j' & Hin' & ?). exists j'. split; [|done]. apply in_map_iff. by exists (k, j').
  - cbn. split; [done|]. intros (k & j & Hin & Hl & _). rewrite List.Forall_forall in Hleast. rewrite Hleast in Hl; [done|].
    apply in_map_iff. by exists (k, j).
Qed.

(** What the worker has measured reaches its supervisor: reading the snapshot that the
    worker wrote, of a process that is live, it takes lease safety for breached exactly
    when a job that the worker has to keep leased is past its safe instant. *)
Theorem measured_breach_noticed child data now fd before after :
  reportable s w r gc own_pid now_mono now_wall -> json_plain (JObj (to_dict h)) = true -> health_file h = Ok data ->
  Forall (fun j => leased j = true -> is_finite (remaining s now_mono j) = true) (map snd (registry w)) ->
  names_child child h -> live_proof (wire_view h) MAX_STALENESS_SECONDS now before after ->
  exists b, runs (_worker_health_proves_immediate_safety_breach child tt)
      (reads_own_file child (Some (Bytes data)) :: live_look (wire_view h) now fd before after) (Ok b, tt)
    /\ (b = true <-> exists k j, In (k, j) (registry w) /\ leased j = true /\ float_ltb (remaining s now_mono j) zero = true).
Proof.
  intros Hr Hp Hd Hn Hc Hl. exists (lease_negative (wire_view h)). split; [|by apply published_margin].
  apply breach_answer; [|by apply health_read_back; [apply built_wf| |]|done|done].
  destruct Hc as (_ & _ & <-). by destruct Hr.
Qed.
End end_to_end.

Lemma measured_breach_noticed_witness :
  exists b, runs (_worker_health_proves_immediate_safety_breach ProcExample.child tt)
      (reads_own_file ProcExample.child (Some (Bytes HealthExample.data))
         :: live_look (wire_view HealthExample.h) (float_of_int 5130) 3 ProcExample.pf ProcExample.pf) (Ok b, tt)
    /\ (b = true <-> exists k j, In (k, j) (registry HealthExample.w) /\ leased j = true
          /\ float_ltb (remaining HealthExample.settings HealthExample.now_mono j) zero = true).
Proof.
  apply (measured_breach_noticed HealthExample.settings HealthExample.w HealthExample.r HealthExample.gc 300 HealthExample.now_mono HealthExample.now_wall).
  - exact HealthExample.reports.
  - exact HealthExample.plain.
  - exact HealthExample.written.
  - repeat (apply List.Forall_cons; [by vm_compute|]). apply List.Forall_nil.
  - by vm_compute.
  - split; by vm_compute.
Defined.
