(* ===== verification/HealthFiles.v ===== *)
(** The files around the health snapshots ([src/lubko/health.py]): the stable links that
    the supervisor publishes, and the evidence of earlier incarnations that it retires.

    Proved: with at most one failing call, the links are published or as they were, and
    at no moment lead anywhere else; the evidence kept is bounded and never that of the
    current incarnation is removed. *)

From S2P Require Import Prelude PyStr PyNum FloatFacts Json SupervisorCodec Store Programs HealthSnapshot HealthLiveness.
From Stdlib Require Import Permutation.
From Corelib Require Import SpecFloat.

#[local] Open Scope Z_scope.
#[local] Arguments py : simpl never.

(** ** The stable links *)

Inductive surface := HealthLink | LogLink.

#[export] Instance surface_eq_dec : EqDecision surface.
Proof. solve_decision. Defined.

(** A surface's link, or the link that is to replace it. *)
Inductive place := Stable (l : surface) | Temporary (l : surface).

#[export] Instance place_eq_dec : EqDecision place.
Proof. solve_decision. Defined.

Inductive link_call : Type -> Type :=
  | MakeParents (l : surface) : link_call (res unit)
  | ReadLink (l : surface) : link_call (res pystr)
  (** [unlink(missing_ok=True)] *)
  | Unlink (p : place) : link_call (res unit)
  | SymlinkTo (p : place) (target : pystr) : link_call (res unit)
  (** the temporary link takes the place of the stable one *)
  | ReplaceLink (l : surface) : link_call (res unit).

Abbreviation on_links := (Programs.method link_call unit).

Definition _read_symlink_target (l : surface) : on_links (option pystr) :=
  r ← outcome (ask_res (ReadLink l));
  match r with Ok target => mret (Some target) | Raise x => if is_os_error x then mret None else raise x end.

Definition _atomic_symlink_update (l : surface) (target_name : pystr) : on_links unit :=
  _ ← ask_res (Unlink (Temporary l));
  _ ← ask_res (SymlinkTo (Temporary l) target_name);
  ask_res (ReplaceLink l).

Definition _rollback_symlink (l : surface) (old_target : option pystr) : on_links unit :=
  match old_target with
  | None => ask_res (Unlink (Stable l))
  | Some target => _atomic_symlink_update l target
  end.

Definition health_target (incarnation : pystr) : pystr := py "health/" ++ health_file_name incarnation.
Definition log_target (incarnation : pystr) : pystr := py "logs/worker-" ++ incarnation ++ py ".log".

Definition publish_current_surfaces (incarnation : pystr) : on_links unit :=
  _ ← of_res (validate_incarnation_token incarnation);
  _ ← ask_res (MakeParents HealthLink);
  old_health_target ← _read_symlink_target HealthLink;
  _ ← _atomic_symlink_update HealthLink (health_target incarnation);
  r ← outcome (_ ← ask_res (MakeParents LogLink); _atomic_symlink_update LogLink (log_target incarnation));
  match r with
  | Ok _ => mret tt
  | Raise x => if is_os_error x then _ ← _rollback_symlink HealthLink old_health_target; raise x else raise x
  end.

(** ** The links as the file system keeps them *)

Definition links := place -> option pystr.
Definition put_link (p : place) (target : option pystr) (st : links) : links := fun q => if decide (q = p) then target else st q.

(** What may be answered to a call on [st], how the links are then, and how many calls
    have failed of themselves: one that fails changes nothing. *)
Definition happens (st : links) {B : Type} (c : link_call B) : B -> links -> nat -> Prop :=
  let fails {A} (r : res A) st' n := st' = st /\ n = 1%nat /\ exists x, r = Raise x /\ is_os_error x = true in
  match c in link_call B return B -> links -> nat -> Prop with
  | MakeParents _ => fun r st' n => (r = Ok tt /\ st' = st /\ n = 0%nat) \/ fails r st' n
  | ReadLink l => fun r st' n =>
      (r = match st (Stable l) with Some target => Ok target | None => Raise FileNotFoundError end /\ st' = st /\ n = 0%nat) \/ fails r st' n
  | Unlink p => fun r st' n => (r = Ok tt /\ st' = put_link p None st /\ n = 0%nat) \/ fails r st' n
  | SymlinkTo p target => fun r st' n =>
      (r = Ok tt /\ st p = None /\ st' = put_link p (Some target) st /\ n = 0%nat) \/ fails r st' n
  | ReplaceLink l => fun r st' n =>
      (exists target, r = Ok tt /\ st (Temporary l) = Some target
         /\ st' = put_link (Temporary l) None (put_link (Stable l) (Some target) st) /\ n = 0%nat) \/ fails r st' n
  end.

(** [acts st t seen n a st']: from [st], [t] may end with [a] in [st'], the links being
    as in [seen] after its calls, of which [n] fail. *)
Fixpoint acts {A : Type} (st : links) (t : tree link_call A) (seen : list links) (n : nat) (a : A) (st' : links) : Prop :=
  match t with
  | Done a' => seen = [] /\ n = 0%nat /\ a = a' /\ st' = st
  | Ask c k => exists b st1 n1 seen1 n2,
      happens st c b st1 n1 /\ acts st1 (k b) seen1 n2 a st' /\ seen = st1 :: seen1 /\ n = (n1 + n2)%nat
  end.

Lemma acts_seq {A B : Type} (t : tree link_call A) (f : A -> tree link_call B) st seen n b st' :
  acts st (mbind (M := tree link_call) f t) seen n b st' ->
  exists a st1 seen1 n1 seen2 n2, acts st t seen1 n1 a st1 /\ acts st1 (f a) seen2 n2 b st'
    /\ seen = seen1 ++ seen2 /\ n = (n1 + n2)%nat.
Proof.
  revert st seen n. induction t as [a|C c k IH]; cbn; intros st seen n H; [by exists a, st, [], 0%nat, seen, n|].
  destruct H as (x & st1 & n1 & seen1 & n2 & Hc & H & -> & ->).
  apply IH in H as (a & st2 & seen2 & m1 & seen3 & m2 & H1 & H2 & -> & ->).
  exists a, st2, (st1 :: seen2), (n1 + m1)%nat, seen3, m2. split; [by exists x, st1, n1, seen2, m1|]. split; [done|]. split; [done|lia].
Qed.

(** Each link leads where it led before, or to what is being published. *)
Definition consistent (st : links) (incarnation : pystr) (now : links) : Prop :=
  now (Stable HealthLink) ∈ [st (Stable HealthLink); Some (health_target incarnation)]
  /\ now (Stable LogLink) ∈ [st (Stable LogLink); Some (log_target incarnation)].

(** By the text of a program. *)
Lemma acts_bind {A B : Type} (m : on_links A) (f : A -> on_links B) st seen n b st' :
  acts st ((m ≫= f) tt) seen n (b, tt) st' ->
  exists r st1 seen1 n1, acts st (m tt) seen1 n1 (r, tt) st1 /\
    match r with
    | Ok a => exists seen2 n2, acts st1 (f a tt) seen2 n2 (b, tt) st' /\ seen = seen1 ++ seen2 /\ n = (n1 + n2)%nat
    | Raise x => b = Raise x /\ st' = st1 /\ seen = seen1 /\ n = n1
    end.
Proof.
  intros H. apply acts_seq in H as ([r []] & st1 & seen1 & n1 & seen2 & n2 & H1 & H2 & -> & ->). exists r, st1, seen1, n1. split; [done|].
  destruct r as [a|x]; [by exists seen2, n2|]. destruct H2 as (-> & -> & [= ->] & ->). rewrite app_nil_r. split; [done|]. split; [done|]. split; [done|lia].
Qed.
Lemma acts_ask_res {B : Type} (c : link_call (res B)) st seen n r st' :
  acts st (ask_res c tt) seen n (r, tt) st' -> seen = [st'] /\ happens st c r st' n.
Proof. intros (x & st1 & n1 & seen1 & n2 & Hc & (-> & -> & [= ->] & ->) & -> & ->). rewrite Nat.add_0_r. done. Qed.
Lemma acts_of_res {A : Type} (v : res A) st seen n r st' : acts st ((of_res v : on_links A) tt) seen n (r, tt) st' -> seen = [] /\ n = 0%nat /\ r = v /\ st' = st.
Proof. by intros (-> & -> & [= ->] & ->). Qed.
Lemma acts_outcome {A : Type} (m : on_links A) st seen n r st' :
  acts st (outcome m tt) seen n (r, tt) st' -> exists v, r = Ok v /\ acts st (m tt) seen n (v, tt) st'.
Proof.
  intros H. apply acts_seq in H as ([v []] & st1 & seen1 & n1 & seen2 & n2 & H1 & (-> & -> & [= ->] & ->) & -> & ->).
  rewrite app_nil_r, Nat.add_0_r. by exists v.
Qed.

(** A method that leaves the stable links other than [l] alone, and [l] as it was or
    leading to [target]: there when it returns, as before when it raises. *)
Definition updates (l : surface) (target : pystr) (m : on_links unit) : Prop :=
  forall st seen n r st', acts st (m tt) seen n (r, tt) st' ->
  (forall l', l' <> l -> Forall (fun s => s (Stable l') = st (Stable l')) (st' :: seen))
  /\ match r with
     | Ok _ => st' (Stable l) = Some target /\ Forall (fun s => s (Stable l) = st (Stable l) \/ s (Stable l) = Some target) seen
     | Raise x => is_os_error x = true /\ (1 <= n)%nat /\ Forall (fun s => s (Stable l) = st (Stable l)) (st' :: seen)
     end.

Ltac links := unfold put_link; repeat case_decide; simplify_eq; try done; try congruence.

Lemma update_link l target : updates l target (_atomic_symlink_update l target).
Proof.
  intros st seen n r st' H. unfold _atomic_symlink_update in H.
  apply acts_bind in H as (r1 & st1 & seen1 & n1 & [-> H1]%acts_ask_res & H).
  destruct H1 as [(-> & -> & ->)|(-> & -> & x & -> & Hx)].
  2:{ destruct H as (-> & -> & -> & ->). split; [intros l' Hl; by repeat constructor|]. split; [done|]. split; [done|by repeat constructor]. }
  destruct H as (seen2 & n2 & H & -> & ->).
  apply acts_bind in H as (r2 & st2 & seen3 & n3 & [-> H2]%acts_ask_res & H).
  destruct H2 as [(-> & Hnone & -> & ->)|(-> & -> & x & -> & Hx)].
  2:{ destruct H as (-> & -> & -> & ->). cbn. split; [intros l' Hl; by repeat constructor; links|]. split; [done|]. split; [done|by repeat constructor]. }
  destruct H as (seen4 & n4 & [-> H3]%acts_ask_res & -> & ->).
  destruct H3 as [(t & -> & Ht & -> & ->)|(-> & -> & x & -> & Hx)]; cbn.
  - assert (t = target) as -> by (unfold put_link in Ht; case_decide; congruence).
    split; [intros l' Hl; repeat constructor; by links|]. split; [by links|]. repeat constructor; by links || (left; by links) || (right; by links).
  - split; [intros l' Hl; by repeat constructor|]. split; [done|]. split; [lia|by repeat constructor].
Qed.

Lemma make_parents l st seen n r st' : acts st (ask_res (MakeParents l) tt) seen n (r, tt) st' ->
  st' = st /\ seen = [st] /\ (r = Ok tt /\ n = 0%nat \/ n = 1%nat /\ exists x, r = Raise x /\ is_os_error x = true).
Proof. intros [-> Hc]%acts_ask_res. destruct Hc as [(-> & -> & ->)|(-> & -> & x & -> & Hx)]; eauto 8. Qed.

Lemma read_target l st seen n r st' : acts st (_read_symlink_target l tt) seen n (r, tt) st' ->
  st' = st /\ seen = [st] /\ exists old, r = Ok old /\ (n = 0%nat -> old = st (Stable l)).
Proof.
  unfold _read_symlink_target. intros H. apply acts_bind in H as (r1 & st1 & seen1 & n1 & (v & -> & [-> Hc]%acts_ask_res)%acts_outcome & H).
  destruct H as (seen2 & n2 & H & -> & ->).
  destruct Hc as [(-> & -> & ->)|(-> & -> & x & -> & Hx)].
  - destruct (st (Stable l)) as [t|]; cbn in H; destruct H as (-> & -> & [= ->] & ->); eauto 8.
  - rewrite Hx in H. cbn in H. destruct H as (-> & -> & [= ->] & ->). split; [done|]. split; [done|]. exists None. by split.
Qed.

Lemma log_update incarnation :
  updates LogLink (log_target incarnation) (_ ← ask_res (MakeParents LogLink); _atomic_symlink_update LogLink (log_target incarnation)).
Proof.
  intros st seen n r st' H. apply acts_bind in H as (r1 & st1 & seen1 & n1 & (-> & -> & [[-> ->]|(-> & x & -> & Hx)])%make_parents & H).
  - destruct H as (seen2 & n2 & H & -> & ->). apply update_link in H as [Ho H]. split.
    + intros l' Hl. specialize (Ho l' Hl). rewrite List.Forall_cons_iff in *. destruct Ho as [? ?]. split; [done|]. by constructor.
    + destruct r as [[]|x].
      * destruct H as [? H]. split; [done|]. constructor; [by left|done].
      * destruct H as (? & ? & H). rewrite List.Forall_cons_iff in *. destruct H as [? ?]. split; [done|]. split; [done|]. split; [done|]. by constructor.
  - destruct H as (-> & -> & -> & ->). split; [intros l' Hl; by repeat constructor|]. split; [done|]. split; [done|by repeat constructor].
Qed.

Lemma rollback_link l old : forall st seen n r st',
  acts st (_rollback_symlink l old tt) seen n (r, tt) st' -> n = 0%nat ->
  (forall l', l' <> l -> Forall (fun s => s (Stable l') = st (Stable l')) (st' :: seen))
  /\ st' (Stable l) = old /\ Forall (fun s => s (Stable l) = st (Stable l) \/ s (Stable l) = old) seen.
Proof.
  intros st seen n r st' H ->. destruct old as [t|]; cbn [_rollback_symlink] in H.
  - apply update_link in H as [Ho H]. split; [done|]. destruct r as [[]|x]; [by destruct H|lia].
  - apply acts_ask_res in H as [-> [(-> & -> & _)|(_ & ? & _)]]; [|done]. split; [intros l' Hl; repeat constructor; by links|].
    split; [by links|]. apply List.Forall_cons; [right; by links|apply List.Forall_nil].
Qed.

(** The second link, after the first: it is updated, or the first is taken back. *)
Lemma second_link incarnation old st seen n r st' :
  acts st ((r ← outcome (_ ← ask_res (MakeParents LogLink); _atomic_symlink_update LogLink (log_target incarnation));
            match r with
            | Ok _ => mret tt
            | Raise x => if is_os_error x then _ ← _rollback_symlink HealthLink old; raise x else raise x
            end : on_links unit) tt) seen n (r, tt) st' -> (n <= 1)%nat ->
  Forall (fun s => (s (Stable HealthLink) = st (Stable HealthLink) \/ (n = 1%nat /\ s (Stable HealthLink) = old))
                   /\ (s (Stable LogLink) = st (Stable LogLink) \/ s (Stable LogLink) = Some (log_target incarnation))) (st' :: seen)
  /\ match r with
     | Ok _ => st' (Stable HealthLink) = st (Stable HealthLink) /\ st' (Stable LogLink) = Some (log_target incarnation)
     | Raise _ => n = 1%nat /\ st' (Stable HealthLink) = old /\ st' (Stable LogLink) = st (Stable LogLink)
     end.
Proof.
  intros H Hn. apply acts_bind in H as (r1 & st1 & seen1 & n1 & (v & -> & H1)%acts_outcome & H). destruct H as (seen2 & n2 & H & -> & ->).
  apply log_update in H1 as [Ho H1]. specialize (Ho HealthLink ltac:(done)). rewrite List.Forall_cons_iff in Ho. destruct Ho as [Hh1 Hhs].
  destruct v as [[]|x].
  - destruct H as (-> & -> & [= ->] & ->). rewrite app_nil_r, Nat.add_0_r in *. destruct H1 as [Hl1 Hls]. split; [|by split].
    constructor; [split; [by left|by right]|]. rewrite List.Forall_forall in *. split; [left; auto|auto].
  - destruct H1 as (Hx & Hn1 & Hl). rewrite List.Forall_cons_iff in Hl. destruct Hl as [Hl1 Hls]. rewrite Hx in H.
    apply acts_bind in H as (r2 & st2 & seen3 & n3 & H & Hr). assert (n1 = 1%nat /\ n2 = 0%nat) as [-> ->] by lia.
    assert (n3 = 0%nat) as -> by (destruct r2; [destruct Hr as (? & ? & _ & _ & ?); lia|by destruct Hr as (_ & _ & _ & ?)]).
    destruct (rollback_link _ _ _ _ _ _ _ H eq_refl) as (Hlog & Hold & Hseen). specialize (Hlog LogLink ltac:(done)).
    rewrite List.Forall_cons_iff in Hlog. destruct Hlog as [Hl2 Hl3].
    assert (r = Raise x /\ st' = st2 /\ seen2 = seen3 \/ r2 <> Ok tt /\ r = match r2 with Ok _ => Ok tt | Raise y => Raise y end /\ st' = st2 /\ seen2 = seen3) as Hend.
    { destruct r2 as [[]|y].
      - left. destruct Hr as (s4 & n4 & (-> & -> & [= ->] & ->) & -> & _). by rewrite app_nil_r.
      - right. by destruct Hr as (-> & -> & -> & _). }
    assert (st' = st2 /\ seen2 = seen3 /\ exists y, r = Raise y) as (-> & -> & y & ->).
    { destruct Hend as [(-> & -> & ->)|(Hr2 & -> & -> & ->)]; [eauto|]. destruct r2 as [[]|y]; [done|eauto]. }
    split; [|split; [done|]; split; [done|congruence]].
    constructor; [split; [by right|left; congruence]|]. apply Forall_app. split; rewrite List.Forall_forall in *.
    + intros s Hs. split; left; auto.
    + intros s Hs. split; [|left; rewrite (Hl3 s Hs); congruence]. destruct (Hseen s Hs) as [->|]; [by left|by right].
Qed.

(** Publishing the surfaces, when at most one of its calls fails of itself, either makes
    both links lead to the incarnation's files, or raises and leaves both links as they
    were; it succeeds when none fails; and at every moment each link leads where it led
    before or to the incarnation's file, so no reader finds it missing or torn. *)
Theorem surfaces_published_or_restored incarnation st seen n r st' :
  acts st (publish_current_surfaces incarnation tt) seen n (r, tt) st' -> (n <= 1)%nat ->
  Forall (consistent st incarnation) (st' :: seen)
  /\ (n = 0%nat -> token_ok incarnation -> r = Ok tt)
  /\ match r with
     | Ok _ => st' (Stable HealthLink) = Some (health_target incarnation) /\ st' (Stable LogLink) = Some (log_target incarnation)
     | Raise _ => st' (Stable HealthLink) = st (Stable HealthLink) /\ st' (Stable LogLink) = st (Stable LogLink)
     end.
Proof.
  intros H Hn. unfold publish_current_surfaces in H.
  assert (forall s : links, s (Stable HealthLink) = st (Stable HealthLink) \/ s (Stable HealthLink) = Some (health_target incarnation) ->
      s (Stable LogLink) = st (Stable LogLink) \/ s (Stable LogLink) = Some (log_target incarnation) -> consistent st incarnation s) as Hcons.
  { intros s H1 H2. split; apply list_elem_of_In; cbn; naive_solver. }
  assert (consistent st incarnation st) as Hst by (by apply Hcons; left).
  (* the token *)
  apply acts_bind in H as (rv & st1 & seen1 & n1 & (-> & -> & -> & ->)%acts_of_res & H).
  destruct (validate_incarnation_token incarnation) as [[]|x] eqn:Hv.
  2:{ destruct H as (-> & -> & -> & ->). split; [by repeat constructor|]. split; [|done]. unfold token_ok. by rewrite Hv. }
  destruct H as (seen2 & n2 & H & -> & ->). cbn [app plus] in *.
  (* the directory *)
  apply acts_bind in H as (r2 & st2 & seen3 & n3 & (-> & -> & [[-> ->]|(-> & x & -> & Hx)])%make_parents & H).
  2:{ destruct H as (-> & -> & -> & ->). split; [by repeat constructor|]. by split. }
  destruct H as (seen4 & n4 & H & -> & ->). cbn [app plus] in *.
  (* where the link led *)
  apply acts_bind in H as (r3 & st3 & seen5 & n5 & (-> & -> & old & -> & Hold)%read_target & H).
  destruct H as (seen6 & n6 & H & -> & ->). cbn [app] in *.
  (* the health link *)
  apply acts_bind in H as (r4 & st4 & seen7 & n7 & [Hlog Hhealth]%update_link & H).
  specialize (Hlog LogLink ltac:(done)). rewrite List.Forall_cons_iff in Hlog. destruct Hlog as [Hlog4 Hlog7].
  destruct r4 as [[]|x].
  2:{ destruct H as (-> & -> & -> & ->). destruct Hhealth as (Hx & Hn7 & Hh). rewrite List.Forall_cons_iff in Hh. destruct Hh as [Hh4 Hh7].
      split; [|split; [lia|done]]. constructor; [apply Hcons; by left|]. do 2 (constructor; [done|]).
      rewrite List.Forall_forall in *. intros s Hs. apply Hcons; left; auto. }
  destruct Hhealth as [Hh4 Hh7]. destruct H as (seen8 & n8 & H & -> & ->).
  apply second_link in H as [Hseen Hr]; [|lia]. rewrite Hh4, Hlog4 in *.
  assert (n8 = 1%nat -> old = st (Stable HealthLink)) as Hback by (intros ->; apply Hold; lia).
  split; [|split].
  - rewrite List.Forall_cons_iff in Hseen. destruct Hseen as [Hlast Hseen].
    assert (forall s : links, (s (Stable HealthLink) = Some (health_target incarnation) \/ (n8 = 1%nat /\ s (Stable HealthLink) = old))
        /\ (s (Stable LogLink) = st (Stable LogLink) \/ s (Stable LogLink) = Some (log_target incarnation)) -> consistent st incarnation s) as Hc.
    { intros s [[?|[? ?]] ?]; apply Hcons; auto. left. by rewrite <-Hback. }
    constructor; [by apply Hc|]. do 2 (constructor; [done|]). apply Forall_app. rewrite !List.Forall_forall in *. split; [|auto].
    intros s Hs. apply Hcons; [auto|left; auto].
  - intros Hn0 _. destruct r as [[]|x]; [done|]. destruct Hr. lia.
  - destruct r as [[]|x]; [done|]. destruct Hr as (Hn8 & -> & ->). by rewrite Hback.
Qed.

(** With two failures a link that was there is lost: when it cannot be read, what takes
    the publication back takes it for absent. *)
Example unread_target_lost :
  let before : links := fun p => match p with Stable HealthLink => Some (py "health/health-a.json") | _ => None end in
  exists seen after, acts before (publish_current_surfaces (py "b") tt) seen 2 (Raise OSError, tt) after
    /\ before (Stable HealthLink) <> None /\ after (Stable HealthLink) = None.
Proof.
  eexists _, _. split; [|split; [done|]].
  - cbn. exists (Ok tt). do 4 eexists. split; [left; eauto|]. split; [|done]. cbn.
    exists (Raise OSError). do 4 eexists. split; [right; eauto|]. split; [|done]. cbn.
    exists (Ok tt). do 4 eexists. split; [left; eauto|]. split; [|done]. cbn.
    exists (Ok tt). do 4 eexists. split; [left; eauto|]. split; [|done]. cbn.
    exists (Ok tt). do 4 eexists. split; [left; eauto 8|]. split; [|done]. cbn.
    exists (Raise OSError). do 4 eexists. split; [right; eauto|]. split; [|done]. cbn.
    exists (Ok tt). do 4 eexists. split; [left; eauto|]. split; [|done]. cbn. eauto 8.
  - done.
Qed.

Lemma surfaces_published_or_restored_witness :
  exists seen after, acts (fun _ => None) (publish_current_surfaces (py "b") tt) seen 0 (Ok tt, tt) after /\
    Forall (consistent (fun _ => None) (py "b")) (after :: seen)
    /\ (0%nat = 0%nat -> token_ok (py "b") -> (Ok tt : res unit) = Ok tt)
    /\ (after (Stable HealthLink) = Some (health_target (py "b")) /\ after (Stable LogLink) = Some (log_target (py "b"))).
Proof.
  assert (exists seen after, acts (fun _ => None) (publish_current_surfaces (py "b") tt) seen 0 (Ok tt, tt) after) as (seen & after & H).
  { do 2 eexists. cbn. exists (Ok tt). do 4 eexists. split; [left; eauto|]. split; [|done]. cbn.
    exists (Raise FileNotFoundError). do 4 eexists. split; [left; eauto|]. split; [|done]. cbn.
    exists (Ok tt). do 4 eexists. split; [left; eauto|]. split; [|done]. cbn.
    exists (Ok tt). do 4 eexists. split; [left; eauto|]. split; [|done]. cbn.
    exists (Ok tt). do 4 eexists. split; [left; eauto 8|]. split; [|done]. cbn.
    exists (Ok tt). do 4 eexists. split; [left; eauto|]. split; [|done]. cbn.
    exists (Ok tt). do 4 eexists. split; [left; eauto|]. split; [|done]. cbn.
    exists (Ok tt). do 4 eexists. split; [left; eauto|]. split; [|done]. cbn.
    exists (Ok tt). do 4 eexists. split; [left; eauto 8|]. split; [|done]. cbn. eauto 8. }
  exists seen, after. split; [exact H|].
  exact (surfaces_published_or_restored (py "b") (fun _ => None) seen 0 (Ok tt) after H ltac:(lia)).
Defined.

(** The evidence of superseded incarnations ([_prune_dir] of [src/lubko/health.py]).

    Proved: what is kept is recent and within its budget, what is recent is kept when the
    budget allows all of it, and nothing of the current incarnation is removed. *)

Definition _NANOSECONDS_PER_SECOND : positive := 1000000000.
Definition EVIDENCE_RETENTION_SECONDS : pyfloat := float_of_int (48 * 3600).
Definition MAX_RETAINED_EVIDENCE_FILES : Z := 8.
Definition MAX_RETAINED_EVIDENCE_BYTES : Z := 16 * 1024 * 1024.

Record _EvidenceWindow := mkWindow {
  win_now : pyfloat;
  retention_seconds : pyfloat;
  max_files : Z;
  max_bytes : Z;
}.

(** An entry of the directory: whether it is a file, and its modification time in
    nanoseconds and its size, unless [stat] fails. *)
Record found_entry := mkFound { en_name : pystr; en_is_file : bool; en_stat : option (Z * Z) }.

(** [n / d] of integers, the nearest float. *)
Definition true_division (n : Z) (d : positive) : pyfloat :=
  match n with Z0 => zero | Zpos p => float_of_ratio false p d | Zneg p => float_of_ratio true p d end.

(** A pattern of [Path.glob] without brackets or question marks. *)
Fixpoint glob (pattern name : pystr) : bool :=
  match pattern with
  | [] => match name with [] => true | _ => false end
  | c :: pattern =>
      if c =? 42 then (fix star name := glob pattern name || match name with [] => false | _ :: name => star name end) name
      else match name with [] => false | x :: name => (c =? x) && glob pattern name end
  end.

Definition starts_with (prefix s : pystr) : bool := match strip_prefix prefix s with Some _ => true | None => false end.

(** The current incarnation's file, or a rotation of it. *)
Definition is_current (keep_prefix name : pystr) : bool := str_eqb name keep_prefix || starts_with (keep_prefix ++ py ".") name.

(** Name, modification time and size. *)
Definition artifact : Type := pystr * Z * Z.

Definition superseded (keep_prefix pattern : pystr) (entries : list found_entry) : list artifact :=
  omap (fun e =>
    if negb (glob pattern (en_name e)) then None
    else if negb (en_is_file e) then None
    else if is_current keep_prefix (en_name e) then None
    else match en_stat e with None => Some (en_name e, 0, 0) | Some (mtime, size) => Some (en_name e, mtime, size) end) entries.

(** [sort(key=mtime, reverse=True)], which is stable. *)
Fixpoint insert_newest (a : artifact) (l : list artifact) : list artifact :=
  match l with
  | [] => [a]
  | b :: l => if b.1.2 <=? a.1.2 then a :: b :: l else b :: insert_newest a l
  end.
Definition newest_first (l : list artifact) : list artifact := foldr insert_newest [] l.

Section window.
Context (window : _EvidenceWindow).

Definition recent (a : artifact) : bool :=
  float_ltb (float_sub (win_now window) (true_division a.1.2 _NANOSECONDS_PER_SECOND)) (retention_seconds window).

(** The artifacts that are kept, and those that are unlinked. *)
Fixpoint retire (retained_files retained_bytes : Z) (l : list artifact) : list artifact * list artifact :=
  match l with
  | [] => ([], [])
  | a :: l =>
      let within_budget := (retained_files <? max_files window) && (retained_bytes + a.2 <=? max_bytes window) in
      if recent a && within_budget then
        let '(kept, removed) := retire (retained_files + 1) (retained_bytes + a.2) l in (a :: kept, removed)
      else let '(kept, removed) := retire retained_files retained_bytes l in (kept, a :: removed)
  end.

(** What is unlinked of a directory, in order; an unlinking that fails is passed over. *)
Definition _prune_dir (directory : option (list found_entry)) (keep_prefix pattern : pystr) : list pystr :=
  match directory with
  | None => []
  | Some entries => map (fun a => a.1.1) (retire 0 0 (newest_first (superseded keep_prefix pattern entries))).2
  end.
End window.

Definition prune_old_incarnation_artifacts (current_token : pystr) (now : pyfloat) (health_dir logs_dir : option (list found_entry)) : list pystr * list pystr :=
  let window := mkWindow now EVIDENCE_RETENTION_SECONDS MAX_RETAINED_EVIDENCE_FILES MAX_RETAINED_EVIDENCE_BYTES in
  (_prune_dir window health_dir (py "health-" ++ current_token ++ py ".json") (py "health-*.json"),
   _prune_dir window logs_dir (py "worker-" ++ current_token ++ py ".log") (py "worker-*.log*")).

(** ** What is kept *)

Definition bytes_of (l : list artifact) : Z := fold_right (fun a z => a.2 + z) 0 l.

Lemma insert_newest_perm a l : Permutation (insert_newest a l) (a :: l).
Proof.
  induction l as [|b l IH]; cbn; [done|]. destruct (b.1.2 <=? a.1.2); [done|]. rewrite IH. apply perm_swap.
Qed.
Lemma newest_first_perm l : Permutation (newest_first l) l.
Proof. induction l as [|a l IH]; cbn; [done|]. by rewrite insert_newest_perm, IH. Qed.

Lemma retire_perm window files bytes l : let '(kept, removed) := retire window files bytes l in Permutation (kept ++ removed) l.
Proof.
  revert files bytes. induction l as [|a l IH]; intros files bytes; cbn; [done|].
  destruct (recent window a && _); [specialize (IH (files + 1) (bytes + a.2))|specialize (IH files bytes)]; destruct (retire _ _ _ l) as [kept removed].
  - cbn. by constructor.
  - rewrite <-Permutation_middle. by constructor.
Qed.

Lemma retire_budget window files bytes l : files <= Z.max files (max_files window) ->
  let '(kept, _) := retire window files bytes l in
  files + Z.of_nat (length kept) <= Z.max files (max_files window) /\ bytes + bytes_of kept <= Z.max bytes (max_bytes window)
  /\ Forall (fun a => recent window a = true) kept.
Proof.
  revert files bytes. induction l as [|a l IH]; intros files bytes Hf; cbn; [split; [lia|]; split; [lia|constructor]|].
  destruct (recent window a) eqn:Hr; cbn [andb].
  2:{ specialize (IH files bytes Hf). by destruct (retire _ files bytes l). }
  destruct ((files <? max_files window) && (bytes + a.2 <=? max_bytes window)) eqn:Hb.
  2:{ specialize (IH files bytes Hf). by destruct (retire _ files bytes l). }
  specialize (IH (files + 1) (bytes + a.2) ltac:(lia)). destruct (retire _ (files + 1) (bytes + a.2) l) as [kept removed].
  destruct IH as (H1 & H2 & H3). cbn [length bytes_of fold_right]. fold (bytes_of kept). split; [lia|]. split; [lia|]. by constructor.
Qed.

Lemma bytes_not_negative l : Forall (fun a => 0 <= a.2) l -> 0 <= bytes_of l.
Proof. induction 1 as [|a l Ha Hl IH]; [done|]. unfold bytes_of in *. cbn. lia. Qed.
Lemma bytes_perm l l' : Permutation l l' -> bytes_of l = bytes_of l'.
Proof. unfold bytes_of. induction 1; cbn; lia. Qed.

(** When the budget allows all the recent artifacts, all of them are kept. *)
Lemma retire_complete window files bytes l : Forall (fun a => 0 <= a.2) l ->
  files + Z.of_nat (length l) <= max_files window -> bytes + bytes_of l <= max_bytes window ->
  Forall (fun a => recent window a = false) (retire window files bytes l).2.
Proof.
  revert files bytes. induction l as [|a l IH]; intros files bytes Hs Hf Hb; cbn; [constructor|].
  rewrite List.Forall_cons_iff in Hs. destruct Hs as [Ha Hs]. cbn [length bytes_of fold_right] in *. fold (bytes_of l) in *.
  pose proof (bytes_not_negative l Hs).
  replace ((files <? max_files window) && (bytes + a.2 <=? max_bytes window)) with true by lia. rewrite andb_true_r.
  destruct (recent window a) eqn:Hr.
  - specialize (IH (files + 1) (bytes + a.2) Hs ltac:(lia) ltac:(lia)). by destruct (retire _ _ _ l).
  - specialize (IH files bytes Hs ltac:(lia) ltac:(lia)). destruct (retire _ _ _ l). cbn in *. by constructor.
Qed.

(** After a pruning whose unlinkings succeed, the superseded artifacts that are left of a
    directory are recent, at most [max_files] and at most [max_bytes] together; nothing of
    the current incarnation is unlinked; and a recent artifact is unlinked only when the
    superseded ones exceed the budget. *)
Theorem evidence_bounded window entries keep pattern :
  0 <= max_files window -> 0 <= max_bytes window ->
  let found := superseded keep pattern entries in
  let '(kept, removed) := retire window 0 0 (newest_first found) in
  _prune_dir window (Some entries) keep pattern = map (fun a => a.1.1) removed
  /\ Permutation (kept ++ removed) found
  /\ (Z.of_nat (length kept) <= max_files window /\ bytes_of kept <= max_bytes window /\ Forall (fun a => recent window a = true) kept)
  /\ Forall (fun name => is_current keep name = false /\ glob pattern name = true) (_prune_dir window (Some entries) keep pattern)
  /\ (Forall (fun a => 0 <= a.2) found -> Z.of_nat (length found) <= max_files window -> bytes_of found <= max_bytes window ->
      Forall (fun a => recent window a = false) removed).
Proof.
  intros Hf Hb. cbv zeta. unfold _prune_dir.
  pose proof (retire_perm window 0 0 (newest_first (superseded keep pattern entries))) as Hp.
  pose proof (retire_budget window 0 0 (newest_first (superseded keep pattern entries)) ltac:(lia)) as Hbound.
  pose proof (retire_complete window 0 0 (newest_first (superseded keep pattern entries))) as Hall.
  destruct (retire _ _ _ _) as [kept removed]. cbn [snd] in *. split; [done|].
  rewrite newest_first_perm in Hp. split; [done|]. split; [destruct Hbound as (? & ? & ?); split; [lia|]; split; [lia|done]|]. split.
  - apply List.Forall_forall. intros name (a & <- & Ha)%in_map_iff.
    assert (In a (superseded keep pattern entries)) as Hin by (eapply Permutation_in; [exact Hp|apply in_app_iff; by right]).
    unfold superseded in Hin. apply list_elem_of_In, list_elem_of_omap in Hin as (e & _ & He).
    destruct (glob pattern (en_name e)) eqn:Hg; [|done]. destruct (en_is_file e); [|done]. destruct (is_current keep (en_name e)) eqn:Hc; [done|].
    cbn in He. by destruct (en_stat e) as [[? ?]|]; injection He as <-.
  - intros Hs Hlen Hsize. apply Hall.
    + by rewrite newest_first_perm.
    + rewrite newest_first_perm. exact Hlen.
    + rewrite (bytes_perm _ _ (newest_first_perm _)). lia.
Qed.

(** A temporary file that a crash leaves behind is never retired. *)
Example leftover_never_retired :
  glob (py "health-*.json") (py "health-tokq1w2e3.tmp") = false /\ glob (py "health-*.json") (py "health-tok.json") = true.
Proof. by vm_compute. Qed.

(** How the worker writes its snapshot ([write_worker_health] of [src/lubko/health.py]):
    to a temporary file that takes the place of the last one, or not at all.  A snapshot
    that finds no space is dropped and counted. *)

(** An operation that fails may have found no space ([_is_capacity_error]). *)
Inductive os_answer (A : Type) := Did (a : A) | OsFailed (capacity : bool).
Arguments Did {A} _.
Arguments OsFailed {A} _.

Inductive write_call : Type -> Type :=
  | MakeHealthDir : write_call (os_answer unit)
  | MakeTemporary (prefix : pystr) : write_call (os_answer pystr)
  | WriteTemporary (tmp text : pystr) : write_call (os_answer unit)
  | ReplaceInto (tmp name : pystr) : write_call (os_answer unit)
  (** with any failure suppressed *)
  | UnlinkTemporary (tmp : pystr) : write_call unit.

(** What is remembered is the number of snapshots dropped. *)
Abbreviation writing := (Programs.method write_call Z).
Abbreviation exchange := (Programs.exchange write_call).

(** The second operation, unless the first fails. *)
Definition and_then {A B : Type} (first : writing (os_answer A)) (second : A -> writing (os_answer B)) : writing (os_answer B) :=
  r ← first; match r with Did a => second a | OsFailed capacity => mret (OsFailed capacity) end.

Definition dropped (capacity : bool) : writing bool :=
  if capacity then _ ← update (Z.add 1); mret false else raise OSError.

Definition write_worker_health (h : WorkerHealth) : writing bool :=
  let token := h_worker_incarnation h in
  _ ← of_res (validate_incarnation_token token);
  opened ← and_then (ask MakeHealthDir) (fun _ => ask (MakeTemporary (py "health-" ++ token)));
  match opened with
  | OsFailed capacity => dropped capacity
  | Did tmp =>
      match json_dumps_sorted (JObj (to_dict h)) with
      | Raise x => _ ← ask (UnlinkTemporary tmp); raise x
      | Ok text =>
          written ← and_then (ask (WriteTemporary tmp (text ++ [10]))) (fun _ => ask (ReplaceInto tmp (health_file_name token)));
          match written with
          | Did _ => mret true
          | OsFailed capacity => _ ← ask (UnlinkTemporary tmp); dropped capacity
          end
      end
  end.

(** The exchanges of a snapshot that is published. *)
Definition publication (h : WorkerHealth) (tmp text : pystr) : list exchange :=
  [Exchange MakeHealthDir (Did tt); Exchange (MakeTemporary (py "health-" ++ h_worker_incarnation h)) (Did tmp);
   Exchange (WriteTemporary tmp (text ++ [10])) (Did tt); Exchange (ReplaceInto tmp (health_file_name (h_worker_incarnation h))) (Did tt)].

(** Whether the last snapshot was replaced, which file was made, which one unlinked. *)
Definition replaced (e : exchange) : bool :=
  let '@Exchange _ B c b := e in
  match c in write_call B return B -> bool with
  | ReplaceInto _ _ => fun b => match b with Did _ => true | OsFailed _ => false end
  | _ => fun _ => false
  end b.
Definition made (e : exchange) : option pystr :=
  let '@Exchange _ B c b := e in
  match c in write_call B return B -> option pystr with
  | MakeTemporary _ => fun b => match b with Did tmp => Some tmp | OsFailed _ => None end
  | _ => fun _ => None
  end b.
Definition unlinked (e : exchange) : option pystr :=
  let '@Exchange _ B c b := e in match c with UnlinkTemporary tmp => Some tmp | _ => None end.

(** A run that does not publish: nothing took the place of the last snapshot, and a
    temporary file that was made is unlinked. *)
Definition left_alone (tr : list exchange) : Prop :=
  Forall (fun e => replaced e = false) tr /\ forall tmp, In (Some tmp) (map made tr) -> In (Some tmp) (map unlinked tr).

Lemma and_then_inv {A B : Type} (first : write_call (os_answer A)) (second : A -> write_call (os_answer B)) n tr r m :
  runs (and_then (ask first) (fun a => ask (second a)) n) tr (r, m) ->
  m = n /\ ((exists capacity, tr = [Exchange first (OsFailed capacity)] /\ r = Ok (OsFailed capacity))
            \/ exists a b, tr = [Exchange first (Did a); Exchange (second a) b] /\ r = Ok b).
Proof.
  unfold and_then. intros H. apply runs_bind_inv in H as (tr1 & r1 & n1 & (x & -> & [= -> ->])%runs_ask_ok_inv & tr2 & -> & H).
  destruct x as [a|capacity].
  - apply runs_ask_ok_inv in H as (b & -> & [= -> ->]). split; [done|]. right. by exists a, b.
  - apply runs_mret_inv in H as [-> [= -> ->]]. split; [done|]. left. by exists capacity.
Qed.

Lemma dropped_inv capacity n tr r m : runs (dropped capacity n) tr (r, m) ->
  tr = [] /\ ((r = Ok false /\ m = n + 1) \/ (r = Raise OSError /\ m = n)).
Proof.
  unfold dropped. intros H. destruct capacity.
  - apply runs_bind_inv in H as (tr1 & r1 & n1 & [-> [= -> ->]]%runs_done_inv & tr2 & -> & [-> [= -> ->]]%runs_mret_inv).
    split; [done|]. left. split; [done|lia].
  - apply runs_raise_inv in H as [-> [= -> ->]]. split; [done|]. by right.
Qed.

(** Where a run of [write_worker_health] leaves things. *)
Definition written_or_dropped (h : WorkerHealth) (n : Z) (tr : list exchange) (r : res bool) (m : Z) : Prop :=
  match r with
  | Ok true => m = n /\ exists tmp text, json_dumps_sorted (JObj (to_dict h)) = Ok text /\ tr = publication h tmp text
  | Ok false => m = n + 1 /\ left_alone tr
  | Raise _ => m = n /\ left_alone tr
  end.

Lemma not_written h n tr r m : Forall (fun e => replaced e = false) tr ->
  (forall tmp, In (Some tmp) (map made tr) -> In (Some tmp) (map unlinked tr)) ->
  (r = Ok false /\ m = n + 1) \/ (exists x, r = Raise x /\ m = n) -> written_or_dropped h n tr r m.
Proof. intros H1 H2 [[-> ->]|(x & -> & ->)]; by repeat split. Qed.

(** The end of a run that gives its temporary file up. *)
Lemma given_up h n tmp tr1 tr2 r m : Forall (fun e => replaced e = false) tr1 ->
  (forall tmp', In (Some tmp') (map made tr1) -> tmp' = tmp) -> tr2 = [Exchange (UnlinkTemporary tmp) tt] ->
  (r = Ok false /\ m = n + 1) \/ (exists x, r = Raise x /\ m = n) -> written_or_dropped h n (tr1 ++ tr2) r m.
Proof.
  intros H1 H2 -> Hr. apply not_written; [|intros tmp'; rewrite !map_app, !in_app_iff|done].
  - apply Forall_app. split; [done|by repeat constructor].
  - intros [->%H2|[|[]]]; [by right; left|done].
Qed.

(** Writing a snapshot either puts the whole of it in the place of the last one, or
    leaves that alone and nothing behind; it counts the snapshots that it drops. *)
Theorem snapshot_written_or_dropped h n tr r m : runs (write_worker_health h n) tr (r, m) -> written_or_dropped h n tr r m.
Proof.
  intros H. unfold write_worker_health in H. cbv zeta in H.
  apply runs_bind_inv in H as (tr1 & r1 & n1 & [-> [= -> ->]]%runs_of_res_inv & H).
  destruct (validate_incarnation_token (h_worker_incarnation h)) as [[]|x].
  2:{ destruct H as [-> [= -> ->]]. apply not_written; [constructor|done|eauto]. }
  destruct H as (tr2 & -> & H). rewrite app_nil_l.
  apply runs_bind_inv in H as (tr3 & r3 & n3 & [-> H3]%and_then_inv & H).
  destruct H3 as [(capacity & -> & ->)|([] & opened & -> & ->)].
  { destruct H as (tr4 & -> & H). apply dropped_inv in H as [-> H]. apply not_written; [by repeat constructor|cbn; naive_solver|naive_solver]. }
  destruct H as (tr4 & -> & H). destruct opened as [tmp|capacity].
  2:{ apply dropped_inv in H as [-> H]. apply not_written; [by repeat constructor|cbn; naive_solver|naive_solver]. }
  destruct (json_dumps_sorted (JObj (to_dict h))) as [text|x] eqn:Htext.
  2:{ apply runs_bind_inv in H as (tr5 & r5 & n5 & ([] & -> & [= -> ->])%runs_ask_ok_inv & tr6 & -> & [-> [= -> ->]]%runs_raise_inv).
      rewrite app_nil_r. apply (given_up h n tmp); [by repeat constructor|cbn; naive_solver|done|eauto]. }
  apply runs_bind_inv in H as (tr5 & r5 & n5 & [-> H5]%and_then_inv & H).
  assert (forall capacity tr6, runs ((_ ← ask (UnlinkTemporary tmp); dropped capacity : writing bool) n) tr6 (r, m) ->
      tr6 = [Exchange (UnlinkTemporary tmp) tt] /\ ((r = Ok false /\ m = n + 1) \/ (exists x, r = Raise x /\ m = n))) as Hdrop.
  { intros capacity tr6 Hd. apply runs_bind_inv in Hd as (tr7 & r7 & n7 & ([] & -> & [= -> ->])%runs_ask_ok_inv & tr8 & -> & [-> Hd]%dropped_inv).
    split; [done|naive_solver]. }
  destruct H5 as [(capacity & -> & ->)|([] & written & -> & ->)]; destruct H as (tr6 & -> & H).
  { apply Hdrop in H as [-> H]. rewrite app_assoc. apply (given_up h n tmp); [by repeat constructor|cbn; naive_solver|done|done]. }
  destruct written as [[]|capacity].
  - apply runs_mret_inv in H as [-> [= -> ->]]. split; [done|]. by exists tmp, text.
  - apply Hdrop in H as [-> H]. rewrite app_assoc. apply (given_up h n tmp); [by repeat constructor|cbn; naive_solver|done|done].
Qed.
