(* ===== verification/Deploy.v ===== *)
(** Supervised deployments ([src/lubko/deployctl.py]): what a deployment command asks,
    when a pending mission is confirmed or due to be rolled back, the settlement with the
    supervisor, and the rollback. *)

From S2P Require Import Prelude PyStr PyNum Json JsonFacts ProcFs LifecycleState SupervisorCodec Store Mission Programs.
From Corelib Require Import SpecFloat.

#[local] Open Scope Z_scope.
#[local] Arguments py : simpl never.

Record Options := mkOptions {
  opt_repo : pystr;
  opt_uv_path : pystr;
  confirm_window_seconds : pyfloat;
  opt_stop_grace_seconds : pyfloat;
  postgres_timeout_seconds : pyfloat;
  lock_timeout_seconds : pyfloat;
  validation_timeout_seconds : pyfloat;
  opt_git_timeout_seconds : pyfloat;
  cli_timeout_seconds : pyfloat;
  source_url : option pystr;
}.

Definition DEFAULT_POSTGRES_TIMEOUT_SECONDS : pyfloat := float_of_int 5.
Definition DEFAULT_REQUEST_TIMEOUT_SECONDS : pyfloat := float_of_int 60.

(** A candidate behind its gate: its [Popen] object, the gate, its identity. *)
Record GatedWorker := mkGatedWorker { gw_proc : Z; gate_writer : Z; gw_meta : WorkerMeta }.

(** ** Questions to the world *)

Inductive dcall : Type -> Type :=
  (** the mission's file, read as text and written durably *)
  | ReadMissionText : dcall (res pystr)
  | WriteMission (s : RollbackState) : dcall (res unit)
  (** the deployment lock, the lock of the generations *)
  | LockDeploy (timeout : pyfloat) : dcall (res unit)
  | UnlockDeploy : dcall unit
  | LockGenerations : dcall (res unit)
  | UnlockGenerations : dcall unit
  (** the supervisor ([supervise.py], [supervise_client.py]) *)
  | SupervisorRunning : dcall (res bool)
  | ReadStateClient : dcall (res SupervisorState)
  | ReadDesiredClient : dcall (res (option SupervisorDesired))
  | ReadStatus : dcall (res (option SupervisorStatus))
  | RequestRun (commit repo uv_path worker_id : pystr) : dcall (res Z)
  | WaitForGeneration (generation : Z) (timeout : pyfloat) : dcall (res bool)
  | WaitUntilReady (generation : Z) (timeout : pyfloat) (commit : pystr) : dcall (res bool)
  | NextGeneration : dcall (res Z)
  | AllocateGeneration : dcall (res Z)
  (** processes *)
  | Wall : dcall pyfloat
  | Sleep : dcall unit
  | Proc : dcall procfs
  | WorkerId : dcall pystr
  | StopWorker (meta : WorkerMeta) (grace : pyfloat) : dcall (res bool)
  | ReadMetaStrict : dcall (res (option WorkerMeta))
  | ReadMeta : dcall (res (option WorkerMeta))
  | WriteMeta (meta : WorkerMeta) : dcall (res unit)
  | SpawnGatedPrevious (repo uv_path commit : pystr) (previous : WorkerMeta) : dcall (res (option GatedWorker))
  | SpawnGatedCandidate (o : Options) (commit : pystr) : dcall (res GatedWorker)
  | AbortGated (g : GatedWorker) : dcall (res unit)
  | ReleaseGate (writer : Z) : dcall (res unit)
  | WaitForReleased (meta : WorkerMeta) : dcall (res bool)
  | CheckPostgres (timeout : pyfloat) : dcall (res bool)
  | ForkWatchdog (timeout : pyfloat) : dcall (res unit)
  | Failpoint (name : pystr) : dcall (res unit)
  (** the checkout and the sealed command line ([cli.py]) *)
  | RequireExactCommit (repo commit : pystr) : dcall (res unit)
  | RequireCleanCheckout (repo : pystr) : dcall (res unit)
  | FetchFromAuthority (repo commit url : pystr) : dcall (res unit)
  | Checkout (repo commit : pystr) (timeout : pyfloat) (force : bool) : dcall (res bool)
  | RunValidation (repo : pystr) : dcall (res bool)
  | BuildCliRoot (repo commit : pystr) : dcall (res unit)
  | RemoveCliRoot (commit : pystr) : dcall (res unit)
  | ReconcilePointer (commit : pystr) : dcall (res bool)
  | SetCurrent (commit : pystr) : dcall (res unit)
  | GcCliRoots (commit previous : pystr) : dcall (res unit)
  (** startup artifacts ([startup_contract.py]), the snapshot and the receipt *)
  | ResolveBinHome : dcall (res pystr)
  | SnapshotArtifacts (bin_home : pystr) : dcall (res dict)
  | WriteSnapshot (snapshot : dict) : dcall (res unit)
  | ReadSnapshotText : dcall (res pystr)
  | RemoveSnapshot : dcall (res unit)
  | RestoreArtifacts (snapshot : dict) (bin_home : pystr) : dcall (res unit)
  | LauncherMode (bin_home : pystr) : dcall (res Z)
  | WriteReceipt (receipt : dict) : dcall (res unit)
  | ReadReceiptText : dcall (res pystr)
  | RemoveReceipt : dcall (res unit)
  | StageCandidate (commit : pystr) : dcall (res unit)
  | WriteStagingManifest (commit bin_home : pystr) : dcall (res unit)
  | ReadStagingManifest : dcall (res (option dict))
  | PromoteStaged (commit confirmed_commit bin_home : pystr) : dcall (res (option pystr))
  | VerifyActive (authority : dict) (bin_home : pystr) : dcall (res (option pystr))
  | CleanupStaging (bin_home : pystr) : dcall (res unit)
  (** the initiating job's row *)
  | WaitForDurableSuccess (deadline : pyfloat) : dcall (res unit)
  | SendResponse : dcall unit.

Abbreviation method := (Programs.method dcall unit).

(** [try: m except caught: handler] *)
Definition except {A} (caught : exn -> bool) (m : method A) (handler : exn -> method A) : method A :=
  r ← outcome m;
  match r with Ok a => mret a | Raise x => if caught x then handler x else raise x end.

Definition only (x y : exn) : bool := bool_decide (y = x).

Definition with_generation_lock {A} (m : method A) : method A := _ ← ask_res LockGenerations; finally m (ask UnlockGenerations).
Definition with_deploy_lock {A} (timeout : pyfloat) (m : method A) : method A :=
  except (only LockTimeoutError) (_ ← ask_res (LockDeploy timeout); finally m (ask UnlockDeploy)) (fun _ => raise DeployCtlError).

Definition worker_alive_now (meta : WorkerMeta) : method bool := pf ← ask Proc; of_res (worker_alive pf meta).

(** ** The mission's file *)

Definition _read_state : method (option RollbackState) :=
  raw ← outcome (ask_res ReadMissionText);
  match raw with
  | Ok raw => s ← of_res (rollback_of_text raw); mret (Some s)
  | Raise FileNotFoundError => mret None
  | Raise x => if is_os_error x then raise DeployCtlError else raise x
  end.

Definition _write_state (s : RollbackState) : method unit := ask_res (WriteMission s).

Definition with_deadline (deadline : pyfloat) (s : RollbackState) : RollbackState :=
  mkRollback (rb_schema_version s) (rb_generation s) (rb_status s) (rb_commit s) (rb_previous_commit s) deadline (rb_repo s)
    (rb_uv_path s) (rb_stop_grace_seconds s) (rb_git_timeout_seconds s) (rb_previous_retiring s) (rb_previous_meta s)
    (rb_new_meta s) (rb_supervisor_owned s) (rb_previous_restart_meta s) (rb_previous_restart_released s).
Definition with_retiring (s : RollbackState) : RollbackState :=
  mkRollback (rb_schema_version s) (rb_generation s) (rb_status s) (rb_commit s) (rb_previous_commit s) (rb_deadline s) (rb_repo s)
    (rb_uv_path s) (rb_stop_grace_seconds s) (rb_git_timeout_seconds s) true (rb_previous_meta s)
    (rb_new_meta s) (rb_supervisor_owned s) (rb_previous_restart_meta s) (rb_previous_restart_released s).
Definition with_restart (meta : option WorkerMeta) (released : bool) (s : RollbackState) : RollbackState :=
  mkRollback (rb_schema_version s) (rb_generation s) (rb_status s) (rb_commit s) (rb_previous_commit s) (rb_deadline s) (rb_repo s)
    (rb_uv_path s) (rb_stop_grace_seconds s) (rb_git_timeout_seconds s) (rb_previous_retiring s) (rb_previous_meta s)
    (rb_new_meta s) (rb_supervisor_owned s) meta released.

(** ** The supervisor's authority over a mission *)

Definition _supervised_mission_active (s : RollbackState) : method bool :=
  st ← ask_res ReadStateClient;
  if negb (bool_decide (st_commit st = Some (rb_commit s))) then mret false
  else match st_child st with
       | None => mret false
       | Some child =>
           pf ← ask Proc;
           if negb (child_alive pf child) then mret false else mret (rb_generation s <=? st_applied_generation st)
       end.

Definition _mission_candidate_alive (s : RollbackState) : method bool :=
  match rb_supervisor_owned s with
  | Some false => match rb_new_meta s with None => mret false | Some meta => worker_alive_now meta end
  | _ => running ← ask_res SupervisorRunning; if negb running then mret false else _supervised_mission_active s
  end.

Definition _supervised_confirmation_authority_matches (s : RollbackState) (desired : option SupervisorDesired)
    (status : option SupervisorStatus) : bool :=
  match desired, status with
  | Some d, Some v =>
      if negb (bool_decide (ss_commit v = Some (rb_commit s))) then false
      else if de_generation d <? rb_generation s then ss_applied_generation v =? rb_generation s
      else str_eqb (de_commit d) (rb_commit s)
           && ((rb_generation s <=? ss_applied_generation v) && (ss_applied_generation v <=? de_generation d))
  | _, _ => false
  end.

(** [==] of two children, field by field *)
Definition child_eqb (a b : WorkerChild) : bool :=
  (ch_pid a =? ch_pid b) && (ch_pgid a =? ch_pgid b) && (ch_sid a =? ch_sid b) && (ch_start_time_ticks a =? ch_start_time_ticks b)
  && str_eqb (ch_token a) (ch_token b) && str_eqb (ch_worker_id a) (ch_worker_id b) && SFeqb (ch_spawned_at a) (ch_spawned_at b).

(** The part of the proof that the records show. *)
Definition settled (commit : pystr) (generation : Z) (d : SupervisorDesired) (v : SupervisorStatus) : bool :=
  str_eqb (de_commit d) commit && (de_generation d =? generation)
  && bool_decide (ss_commit v = Some commit) && (ss_applied_generation v =? generation).
Definition queue_ready (v : SupervisorStatus) : bool := match ss_ready v with Some true => negb (ss_holding v) | _ => false end.
Definition tracks (commit : pystr) (generation : Z) (st : SupervisorState) (child : WorkerChild) : bool :=
  bool_decide (st_commit st = Some commit) && (st_applied_generation st =? generation) && st_ready st && negb (is_holding st)
  && match st_child st with Some c => child_eqb c child | None => false end.

Definition _supervised_terminalization_authority_matches (expected_commit : pystr) (expected_generation : Z)
    (desired : option SupervisorDesired) (status : option SupervisorStatus) : method bool :=
  match desired, status with
  | Some d, Some v =>
      if negb (settled expected_commit expected_generation d v) then mret false
      else match queue_ready v, ss_child v with
           | true, Some child =>
               st ← ask_res ReadStateClient;
               if negb (tracks expected_commit expected_generation st child) then mret false
               else pf ← ask Proc; mret (child_alive pf child)
           | _, _ => mret false
           end
  | _, _ => mret false
  end.

(** [read_desired_client], an intent that cannot be trusted being an outcome. *)
Definition trusted_desired (untrusted : method (option SupervisorDesired)) : method (option SupervisorDesired) :=
  except (only DesiredIntentError) (ask_res ReadDesiredClient) (fun _ => untrusted).

Definition _supervised_mission_authoritative (s : RollbackState) : method bool :=
  st ← ask_res ReadStateClient;
  desired ← outcome (ask_res ReadDesiredClient);
  match desired with
  | Raise x => if only DesiredIntentError x then mret false else raise x
  | Ok desired =>
      status ← ask_res ReadStatus;
      mret match status with
           | None => false
           | Some v => bool_decide (st_commit st = ss_commit v) && (st_applied_generation st =? ss_applied_generation v)
                       && _supervised_confirmation_authority_matches s desired status
           end
  end.

Definition _require_known_confirmation_ownership (s : RollbackState) : method unit :=
  match rb_supervisor_owned s with None => raise DeployCtlError | Some _ => mret tt end.

Definition _require_confirmation_authority (s : RollbackState) : method unit :=
  _ ← _require_known_confirmation_ownership s;
  match rb_supervisor_owned s with
  | Some false => mret tt
  | _ =>
      running ← ask_res SupervisorRunning;
      if negb running then mret tt
      else
        desired ← trusted_desired (raise DeployCtlError);
        status ← ask_res ReadStatus;
        if negb (_supervised_confirmation_authority_matches s desired status) then raise DeployCtlError else mret tt
  end.

(** A legacy mission's candidate is lost, or out of time. *)
Definition legacy_due (s : RollbackState) : method bool :=
  match rb_new_meta s with
  | None => mret true
  | Some meta =>
      now ← ask Wall;
      if float_leb (rb_deadline s) now then mret true else alive ← worker_alive_now meta; mret (negb alive)
  end.

Definition _pending_mission_rollback_due (s : RollbackState) : method bool :=
  match rb_supervisor_owned s with
  | Some false => legacy_due s
  | _ =>
      running ← ask_res SupervisorRunning;
      if negb running then mret true
      else
        authoritative ← _supervised_mission_authoritative s;
        if negb authoritative then mret true
        else
          now ← ask Wall;
          if float_ltb now (rb_deadline s) then mret false
          else
            status ← ask_res ReadStatus;
            match status with
            | None => mret true
            | Some v =>
                if negb (bool_decide (ss_commit v = Some (rb_commit s))) || (ss_applied_generation v <? rb_generation s) || negb (queue_ready v)
                then mret true
                else active ← _supervised_mission_active s; mret (negb active)
            end
  end.

(** ** Settlement *)

Definition FAILPOINT_MISSION_CONFIRM : pystr := py "mission_confirm".

Definition settle_desired (commit repo uv_path : pystr) : method Z :=
  worker_id ← ask WorkerId;
  desired ← trusted_desired (raise DeployCtlError);
  generation ←
    (match desired with
     | Some d =>
         if str_eqb (de_commit d) commit then mret (de_generation d)
         else except (only GenerationLockTimeoutError) (ask_res (RequestRun commit repo uv_path worker_id)) (fun _ => raise DeployCtlError)
     | None => except (only GenerationLockTimeoutError) (ask_res (RequestRun commit repo uv_path worker_id)) (fun _ => raise DeployCtlError)
     end);
  _ ← ask_res (Failpoint FAILPOINT_MISSION_CONFIRM);
  applied ← ask_res (WaitForGeneration generation DEFAULT_REQUEST_TIMEOUT_SECONDS);
  if negb applied then raise DeployCtlError
  else
    ready ← ask_res (WaitUntilReady generation DEFAULT_REQUEST_TIMEOUT_SECONDS commit);
    if negb ready then raise DeployCtlError else mret generation.

(** ** Rollback of a legacy mission *)

Definition _clear_previous_restart_obligation (s : RollbackState) : method unit := _write_state (with_restart None false s).

(** Every field of its identity, and the token. *)
Definition same_worker (a b : WorkerMeta) : bool :=
  bool_decide (meta_pid a = meta_pid b) && bool_decide (meta_pgid a = meta_pgid b) && bool_decide (meta_sid a = meta_sid b)
  && bool_decide (meta_start_time_ticks a = meta_start_time_ticks b) && bool_decide (meta_token a = meta_token b).

(** Whether durable metadata decides, and the worker to adopt. *)
Definition _durable_previous_worker (s : RollbackState) : method (bool * option WorkerMeta) :=
  current ← outcome (ask_res ReadMetaStrict);
  match current with
  | Raise WorkerMetadataError => mret (true, None)
  | Raise x => raise x
  | Ok None => mret (false, None)
  | Ok (Some current) =>
      alive ← worker_alive_now current;
      if negb alive then mret (false, None)
      else
        let exact_previous := str_eqb (meta_state current) STATE_RUNNING && str_eqb (meta_repo current) (rb_repo s)
                              && bool_decide (meta_git_commit current = Some (rb_previous_commit s)) in
        if negb exact_previous then mret (true, None)
        else if rb_previous_retiring s && same_worker current (rb_previous_meta s) then mret (false, None)
        else mret (true, Some current)
  end.

(** [not stop_worker(meta, grace) or worker_alive(meta)] *)
Definition outlives_stop (s : RollbackState) (meta : WorkerMeta) : method bool :=
  stopped ← ask_res (StopWorker meta (rb_stop_grace_seconds s));
  if negb stopped then mret true else worker_alive_now meta.

Definition _recover_previous_restart (s : RollbackState) : method (bool * option WorkerMeta) :=
  match rb_previous_restart_meta s with
  | None => mret (false, None)
  | Some meta =>
      if negb (rb_previous_restart_released s) then
        alive ← worker_alive_now meta;
        outlived ← (if (alive : bool) then outlives_stop s meta else mret false);
        if (outlived : bool) then mret (true, None) else _ ← _clear_previous_restart_obligation s; mret (false, None)
      else
        alive ← worker_alive_now meta;
        if negb alive then _ ← _clear_previous_restart_obligation s; mret (false, None)
        else
          released ← ask_res (WaitForReleased meta);
          reachable ← (if (released : bool) then ask_res (CheckPostgres DEFAULT_POSTGRES_TIMEOUT_SECONDS) else mret false);
          if (reachable : bool) then mret (true, Some meta)
          else
            outlived ← outlives_stop s meta;
            if (outlived : bool) then mret (true, None) else _ ← _clear_previous_restart_obligation s; mret (false, None)
  end.

Definition _spawn_previous_worker (s : RollbackState) (previous : WorkerMeta) : method (option WorkerMeta) :=
  gated ← ask_res (SpawnGatedPrevious (rb_repo s) (rb_uv_path s) (rb_previous_commit s) previous);
  match gated with
  | None => mret None
  | Some gated =>
      let write_or_abort state := except (only DurabilityError) (_write_state state) (fun x => _ ← ask_res (AbortGated gated); raise x) in
      let prepared := with_restart (Some (gw_meta gated)) false s in
      _ ← write_or_abort prepared;
      released ← outcome (ask_res (ReleaseGate (gate_writer gated)));
      match released with
      | Raise DeployCtlError => _ ← ask_res (AbortGated gated); _ ← _clear_previous_restart_obligation prepared; mret None
      | Raise x => raise x
      | Ok _ =>
          let released := with_restart (Some (gw_meta gated)) true s in
          _ ← write_or_abort released;
          waited ← ask_res (WaitForReleased (gw_meta gated));
          reachable ← (if (waited : bool) then ask_res (CheckPostgres DEFAULT_POSTGRES_TIMEOUT_SECONDS) else mret false);
          if negb reachable then _ ← ask_res (AbortGated gated); _ ← _clear_previous_restart_obligation released; mret None
          else mret (Some (gw_meta gated))
      end
  end.

Definition _restart_previous (s : RollbackState) : method (option WorkerMeta) :=
  durable ← _durable_previous_worker s;
  if (durable.1 : bool) then mret durable.2
  else
    restart ← _recover_previous_restart s;
    if (restart.1 : bool) then mret restart.2
    else
      let previous := rb_previous_meta s in
      reusable ← (if negb (rb_previous_retiring s) then worker_alive_now previous else mret false);
      if (reusable : bool) then mret (Some previous)
      else
        alive ← worker_alive_now previous;
        stopped ← (if (alive : bool) then ask_res (StopWorker previous (rb_stop_grace_seconds s)) else mret true);
        if negb stopped then mret None else _spawn_previous_worker s previous.

Definition _retire_candidate_locked (s : RollbackState) : method bool :=
  match rb_new_meta s with
  | None => mret false
  | Some meta =>
      stopped ← ask_res (StopWorker meta (rb_stop_grace_seconds s));
      if negb stopped then mret false else alive ← worker_alive_now meta; mret (negb alive)
  end.

(** ** Startup artifacts *)

Definition STARTUP_LAUNCHER_MODE : Z := 493.
Definition SNAPSHOT_KNOWN_KEYS : list pystr := [py "contract"; py "definition"; py "launcher"].

Definition snapshot_value (v : json) : bool :=
  match v with
  | JNull => true
  | JArr l => forallb (fun b => match b with JInt z => (0 <=? z) && (z <=? 255) | _ => false end) l
  | _ => false
  end.

(** What a reader of one of the two files gets of it: its object, or nothing. *)
Definition text_object (raw : res pystr) : res (option dict) :=
  match raw with
  | Raise x => if is_os_error x then Ok None else Raise x
  | Ok raw =>
      match json_loads raw with
      | Ok (JObj d) => Ok (Some d)
      | Ok _ => Ok None
      | Raise x => if is_value_error x then Ok None else Raise x
      end
  end.

Definition snapshot_of (d : dict) : option dict :=
  if negb (forallb (dict_mem d) SNAPSHOT_KNOWN_KEYS && forallb (fun kv => mem_str kv.1 SNAPSHOT_KNOWN_KEYS) d) then None
  else if forallb (fun k => snapshot_value (dict_get d k)) SNAPSHOT_KNOWN_KEYS then Some (map (fun k => (k, dict_get d k)) SNAPSHOT_KNOWN_KEYS)
  else None.

Definition receipt_of (d : dict) : option dict := match dict_get d (py "commit") with JStr _ => Some d | _ => None end.

Definition _read_pre_confirmation_snapshot : method (option dict) :=
  raw ← outcome (ask_res ReadSnapshotText);
  d ← of_res (text_object raw);
  mret (match d with Some d => snapshot_of d | None => None end).

Definition _read_confirmation_receipt : method (option dict) :=
  raw ← outcome (ask_res ReadReceiptText);
  d ← of_res (text_object raw);
  mret (match d with Some d => receipt_of d | None => None end).

Definition _verify_restored_launcher_mode (bin_home : pystr) (had_launcher : bool) : method bool :=
  if negb had_launcher then mret true
  else
    mode ← outcome (ask_res (LauncherMode bin_home));
    match mode with
    | Raise x => if is_os_error x then mret false else raise x
    | Ok mode => mret (Z.land mode 511 =? STARTUP_LAUNCHER_MODE)
    end.

Definition durability_or_os (x : exn) : bool := only DurabilityError x || is_os_error x.

Definition _restore_pre_confirmation_artifacts (bin_home : pystr) : method bool :=
  snapshot ← _read_pre_confirmation_snapshot;
  match snapshot with
  | None => mret false
  | Some snapshot =>
      restored ← outcome (ask_res (RestoreArtifacts snapshot bin_home));
      match restored with
      | Raise x => if durability_or_os x then mret false else raise x
      | Ok _ => _verify_restored_launcher_mode bin_home (match dict_get snapshot (py "launcher") with JNull => false | _ => true end)
      end
  end.

(** [with suppress(DurabilityError, FileNotFoundError, OSError)] *)
Definition suppressed (m : method unit) : method unit := except durability_or_os m (fun _ => mret tt).
Definition _remove_pre_confirmation_artifacts : method unit := suppressed (ask_res RemoveSnapshot).
Definition _remove_confirmation_receipt : method unit := suppressed (ask_res RemoveReceipt).

Definition RECEIPT_KEYS : list pystr :=
  [py "contract_hash"; py "contract_size"; py "definition_hash"; py "definition_size"; py "launcher_hash"; py "launcher_size"].
Definition _write_confirmation_receipt (commit : pystr) (manifest : dict) : method unit :=
  ask_res (WriteReceipt ((py "commit", JStr commit) :: map (fun k => (k, dict_get manifest k)) RECEIPT_KEYS)).

Definition os_or_value (x : exn) : bool := is_os_error x || is_value_error x.

(** Whether all is restored, and whether from a snapshot. *)
Definition _restore_cli_and_startup_artifacts (commit previous_commit : pystr) : method (bool * bool) :=
  _ ← ask_res (RemoveCliRoot commit);
  _ ← ask_res (ReconcilePointer previous_commit);
  bin_home ← outcome (ask_res ResolveBinHome);
  match bin_home with
  | Raise x => if os_or_value x then mret (false, false) else raise x
  | Ok bin_home =>
      receipt ← _read_confirmation_receipt;
      snapshot ← _read_pre_confirmation_snapshot;
      match snapshot, receipt with
      | Some _, _ =>
          restored ← _restore_pre_confirmation_artifacts bin_home;
          if negb restored then mret (false, false) else mret (true, true)
      | None, Some _ => mret (false, false)
      | None, None =>
          _ ← ask_res (CleanupStaging bin_home);
          _ ← _remove_confirmation_receipt;
          mret (true, false)
      end
  end.

Definition _cleanup_rollback_evidence (snapshot_was_restored : bool) : method unit :=
  _ ← (if snapshot_was_restored then
         bin_home ← outcome (ask_res ResolveBinHome);
         _ ← match bin_home with
             | Raise x => if os_or_value x then mret tt else raise x
             | Ok bin_home => ask_res (CleanupStaging bin_home)
             end;
         _remove_pre_confirmation_artifacts
       else mret tt);
  _remove_confirmation_receipt.

(** ** Rollback *)

Definition _restore_previous_locked (s : RollbackState) : method (bool * bool) :=
  restored ← ask_res (Checkout (rb_repo s) (rb_previous_commit s) (rb_git_timeout_seconds s) true);
  if negb restored then mret (false, false)
  else
    worker ← _restart_previous s;
    match worker with
    | None => mret (false, false)
    | Some meta => _ ← ask_res (WriteMeta meta); _restore_cli_and_startup_artifacts (rb_commit s) (rb_previous_commit s)
    end.

Definition _rollback_legacy_locked (s : RollbackState) : method bool :=
  dead ← _retire_candidate_locked s;
  if negb dead then mret false
  else
    restored ← _restore_previous_locked s;
    if negb restored.1 then mret false
    else
      _ ← _write_state (with_restart None false (with_status ROLLED_BACK_STATUS s));
      _ ← _cleanup_rollback_evidence restored.2;
      mret true.

Definition _rollback_locked_body (s : RollbackState) (expected_generation : Z) : method unit :=
  desired ← trusted_desired (raise DeployCtlError);
  status ← ask_res ReadStatus;
  proven ← _supervised_terminalization_authority_matches (rb_previous_commit s) expected_generation desired status;
  if negb proven then raise DeployCtlError else mret tt.

(** [try: with generation_lock(): m except GenerationLockTimeoutError] *)
Definition generation_locked {A} (m : method A) : method A :=
  except (only GenerationLockTimeoutError) (with_generation_lock m) (fun _ => raise DeployCtlError).

Definition _finalize_supervised_rollback (s : RollbackState) (expected_generation : Z) : method RollbackState :=
  _ ← generation_locked (_rollback_locked_body s expected_generation);
  restored ← _restore_cli_and_startup_artifacts (rb_commit s) (rb_previous_commit s);
  if negb restored.1 then raise DeployCtlError
  else
    _ ← generation_locked (_rollback_locked_body s expected_generation);
    let terminal := with_status ROLLED_BACK_STATUS s in
    _ ← _write_state terminal;
    _ ← _cleanup_rollback_evidence restored.2;
    mret terminal.

(** The facts that the mission's gates look at. *)
Definition _mission_authority_facts (status : option pystr) (ready : bool) : method AuthorityFacts :=
  read ← outcome _read_state;
  match read with
  | Raise x =>
      if only DeployCtlError x
      then mret (mkFacts 0 0 status None None None None false false false ready (bool_decide (status = Some PENDING)) true false false false false false false)
      else raise x
  | Ok _ => mret (mkFacts 0 0 status None None None None false false false ready (bool_decide (status = Some PENDING)) false false false false false false false)
  end.

Definition FAILPOINT_MISSION_ROLLBACK : pystr := py "mission_rollback".

Definition _rollback_locked (s : RollbackState) : method bool :=
  if negb (str_eqb (rb_status s) PENDING) then mret true
  else
    _ ← ask_res (Failpoint FAILPOINT_MISSION_ROLLBACK);
    facts ← _mission_authority_facts (Some (rb_status s)) false;
    if negb (authorize_mission_rollback facts) then mret false
    else match rb_supervisor_owned s with
         | None => mret false
         | Some false => _rollback_legacy_locked s
         | Some true =>
             running ← ask_res SupervisorRunning;
             if negb running then mret false
             else
               generation ← outcome (settle_desired (rb_previous_commit s) (rb_repo s) (rb_uv_path s));
               match generation with
               | Raise x => if only DeployCtlError x then mret false else raise x
               | Ok generation =>
                   finalized ← outcome (_finalize_supervised_rollback s generation);
                   match finalized with
                   | Raise x => if only DeployCtlError x then mret false else raise x
                   | Ok _ => mret true
                   end
               end
         end.
