(* ===== verification/DeployMissions.v ===== *)
(** The missions of supervised deployments ([src/lubko/deployctl.py]): preparing a
    candidate, handing over to it, confirming it, and the two that take it back, the
    status command and the watchdog. *)

From S2P Require Import Prelude PyStr PyNum Json JsonFacts ProcFs LifecycleState SupervisorCodec Store Mission Programs Deploy.

#[local] Open Scope Z_scope.
#[local] Arguments py : simpl never.

Definition commit_of (meta : option WorkerMeta) : option pystr := match meta with Some m => meta_git_commit m | None => None end.
Definition mission_status_of (s : option RollbackState) : option pystr := match s with Some s => Some (rb_status s) | None => None end.

(** ** Publishing and handing over *)

Definition FAILPOINT_MISSION_PUBLISH : pystr := py "mission_publish".

(** [except DeployCtlError: undo; raise] *)
Definition undoing {A} (m : method A) (undo : method unit) : method A := except (only DeployCtlError) m (fun x => _ ← undo; raise x).

Definition publish_mission (s : RollbackState) (lock_timeout : pyfloat) : method unit :=
  _ ← _write_state s;
  _ ← ask_res (Failpoint FAILPOINT_MISSION_PUBLISH);
  undoing (ask_res (ForkWatchdog lock_timeout)) (_ ← _rollback_locked s; mret tt).

Definition _wait_for_supervisor_mission (s : RollbackState) (confirm_window : pyfloat) : method RollbackState :=
  applied ← ask_res (WaitForGeneration (rb_generation s) DEFAULT_REQUEST_TIMEOUT_SECONDS);
  if negb applied then raise DeployCtlError
  else
    ready ← ask_res (WaitUntilReady (rb_generation s) DEFAULT_REQUEST_TIMEOUT_SECONDS (rb_commit s));
    if negb ready then raise DeployCtlError
    else
      now ← ask Wall;
      let live := with_deadline (float_add now confirm_window) s in
      _ ← _write_state live;
      mret live.

Definition abort_if_gated (gated : option GatedWorker) : method unit :=
  match gated with Some g => ask_res (AbortGated g) | None => mret tt end.

Definition _abort_mission (gated : option GatedWorker) (s : RollbackState) : method unit :=
  _ ← abort_if_gated gated;
  _ ← ask_res (Checkout (rb_repo s) (rb_previous_commit s) (rb_git_timeout_seconds s) true);
  ask_res (RemoveCliRoot (rb_commit s)).

Definition _complete_supervisor_owned_handoff (o : Options) (s : RollbackState) (gated : option GatedWorker) : method RollbackState :=
  match gated with
  | Some g => _ ← ask_res (AbortGated g); raise DeployCtlError
  | None => _ ← publish_mission s (lock_timeout_seconds o); _wait_for_supervisor_mission s (confirm_window_seconds o)
  end.

Definition _release_legacy_gated_candidate (o : Options) (retiring : RollbackState) (gated : GatedWorker) : method RollbackState :=
  stopped ← ask_res (StopWorker (rb_previous_meta retiring) (opt_stop_grace_seconds o));
  if negb stopped then raise DeployCtlError
  else
    _ ← ask_res (ReleaseGate (gate_writer gated));
    waited ← ask_res (WaitForReleased (gw_meta gated));
    if negb waited then raise DeployCtlError
    else
      now ← ask Wall;
      let live := with_deadline (float_add now (confirm_window_seconds o)) retiring in
      _ ← _write_state live;
      mret live.

Definition _complete_legacy_handoff (o : Options) (s : RollbackState) (gated : option GatedWorker) : method RollbackState :=
  match gated with
  | None => raise DeployCtlError
  | Some g =>
      running ← ask_res SupervisorRunning;
      if (running : bool) then _ ← ask_res (AbortGated g); _ ← _rollback_locked s; raise DeployCtlError
      else
        let retiring := with_retiring s in
        _ ← _write_state retiring;
        undoing (_release_legacy_gated_candidate o retiring g) (_ ← ask_res (AbortGated g); _ ← _rollback_locked retiring; mret tt)
  end.

Definition _complete_handoff (o : Options) (s : RollbackState) (gated : option GatedWorker) : method RollbackState :=
  match rb_supervisor_owned s with
  | Some true => _complete_supervisor_owned_handoff o s gated
  | Some false => _complete_legacy_handoff o s gated
  | None => _ ← abort_if_gated gated; raise DeployCtlError
  end.

(** ** Preparing *)

Definition terminal_status (status : pystr) : bool := str_eqb status CONFIRMED_STATUS || str_eqb status ROLLED_BACK_STATUS.

Definition _cleanup_pending_locked : method unit :=
  mission ← _read_state;
  match mission with
  | None => mret tt
  | Some s =>
      if terminal_status (rb_status s) then mret tt
      else if negb (str_eqb (rb_status s) PENDING) then raise DeployCtlError
      else
        _ ← match rb_supervisor_owned s with
            | Some false =>
                alive ← _mission_candidate_alive s;
                in_time ← (if (alive : bool) then (now ← ask Wall; mret (float_ltb now (rb_deadline s))) else mret false);
                if (in_time : bool) then raise DeployCtlError else mret tt
            | _ => due ← _pending_mission_rollback_due s; if negb due then raise DeployCtlError else mret tt
            end;
        restored ← _rollback_locked s;
        if negb restored then raise DeployCtlError else mret tt
  end.

Definition _provenance_fetch (o : Options) (commit : pystr) : method unit :=
  match source_url o with
  | None => mret tt
  | Some url => _ ← ask_res (FetchFromAuthority (opt_repo o) commit url); ask_res (RequireExactCommit (opt_repo o) commit)
  end.

Definition _restore_previous_prep (o : Options) (previous_commit candidate_commit : pystr) : method unit :=
  _ ← ask_res (Checkout (opt_repo o) previous_commit (opt_git_timeout_seconds o) true);
  ask_res (RemoveCliRoot candidate_commit).

Definition _candidate_identity (o : Options) (commit : pystr) (supervised : bool) : method (option GatedWorker * option WorkerMeta) :=
  if supervised then mret (None, None)
  else gated ← ask_res (SpawnGatedCandidate o commit); mret (Some gated, Some (gw_meta gated)).

Definition _publish_legacy_mission (s : RollbackState) (gated : option GatedWorker) (lock_timeout : pyfloat) : method unit :=
  _ ← _write_state s;
  undoing (ask_res (ForkWatchdog lock_timeout)) (_ ← abort_if_gated gated; _ ← _rollback_locked s; mret tt).

(** [next_mission_generation]: [NextGeneration] is [supervise.next_generation],
    [AllocateGeneration] asks the daemon when there is no state token. *)
Definition next_mission_generation : method Z :=
  r ← outcome (except (only GenerationLockTimeoutError)
                 (with_generation_lock (except (only MissionAuthorityError) (ask_res NextGeneration) (fun _ => raise DeployCtlError)))
                 (fun _ => raise DeployCtlError));
  match r with
  | Raise SupervisorStateTokenError => except is_os_error (ask_res AllocateGeneration) (fun _ => raise DeployCtlError)
  | _ => of_res r
  end.

(** The worker that is known to be good, if one is alive. *)
Definition known_good : method (WorkerMeta * pystr) :=
  previous ← ask_res ReadMeta;
  match previous with
  | None => raise DeployCtlError
  | Some meta =>
      alive ← worker_alive_now meta;
      match meta_git_commit meta with
      | Some commit => if negb alive then raise DeployCtlError else mret (meta, commit)
      | None => raise DeployCtlError
      end
  end.

(** The candidate is checked out, validated, and its command line built. *)
Definition candidate_built (o : Options) (previous_commit commit : pystr) : method unit :=
  _ ← _provenance_fetch o commit;
  _ ← ask_res (RequireCleanCheckout (opt_repo o));
  checked_out ← ask_res (Checkout (opt_repo o) commit (opt_git_timeout_seconds o) false);
  if negb checked_out then raise DeployCtlError
  else
    valid ← ask_res (RunValidation (opt_repo o));
    if negb valid then _ ← _restore_previous_prep o previous_commit commit; raise DeployCtlError
    else except (only CliError) (ask_res (BuildCliRoot (opt_repo o) commit)) (fun _ => _ ← _restore_previous_prep o previous_commit commit; raise DeployCtlError).

Definition _prepare_locked (o : Options) (commit : pystr) (supervised : bool) : method (RollbackState * option GatedWorker) :=
  _ ← _cleanup_pending_locked;
  known ← known_good;
  let '(previous, previous_commit) := known : WorkerMeta * pystr in
  _ ← ask_res (RequireExactCommit (opt_repo o) previous_commit);
  _ ← ask_res (RequireExactCommit (opt_repo o) commit);
  if str_eqb commit previous_commit then raise DeployCtlError
  else
    _ ← candidate_built o previous_commit commit;
    candidate ← _candidate_identity o commit supervised;
    let '(gated, new_meta) := candidate : option GatedWorker * option WorkerMeta in
    reachable ← ask_res (CheckPostgres (postgres_timeout_seconds o));
    if negb reachable then _ ← abort_if_gated gated; _ ← _restore_previous_prep o previous_commit commit; raise DeployCtlError
    else
      existing ← _read_state;
      facts ← _mission_authority_facts (mission_status_of existing) false;
      if negb (authorize_mission_publish facts) then _ ← _restore_previous_prep o previous_commit commit; raise DeployCtlError
      else
        generation ← next_mission_generation;
        now ← ask Wall;
        let s := mkRollback ROLLBACK_SCHEMA_VERSION generation PENDING commit previous_commit (float_add now (confirm_window_seconds o))
                   (opt_repo o) (opt_uv_path o) (opt_stop_grace_seconds o) (opt_git_timeout_seconds o) false previous new_meta
                   (Some supervised) None false in
        _ ← (if negb supervised then _publish_legacy_mission s gated (lock_timeout_seconds o) else mret tt);
        mret (s, gated).

Definition _deploy_locked (o : Options) (commit : pystr) : method RollbackState :=
  supervised ← ask_res SupervisorRunning;
  prepared ← _prepare_locked o commit supervised;
  let '(s, gated) := prepared : RollbackState * option GatedWorker in
  _complete_handoff o s gated.

Definition HANDOFF_DURABLE_WAIT_SECONDS : pyfloat := float_of_int 60.

(** The helper of a checkout that a job asked for. *)
Definition _helper_locked (o : Options) (commit : pystr) : method unit :=
  supervised ← ask_res SupervisorRunning;
  prepared ← _prepare_locked o commit supervised;
  let '(s, gated) := prepared : RollbackState * option GatedWorker in
  now ← ask Wall;
  _ ← ask SendResponse;
  waited ← outcome (ask_res (WaitForDurableSuccess (float_add now HANDOFF_DURABLE_WAIT_SECONDS)));
  match waited with
  | Raise x => if only DeployCtlError x then _abort_mission gated s else raise x
  | Ok _ => except (only DeployCtlError) (_ ← _complete_handoff o s gated; mret tt) (fun _ => mret tt)
  end.

(** ** Confirming *)

(** The responses; the text of an error is dropped. *)
Inductive response :=
  | ConfirmResponse (commit : pystr)
  | ConfirmFailure (commit : pystr)
  | StatusIdle (known_commit last_outcome : option pystr)
  | StatusPending (proposed_commit previous_commit : pystr) (deadline : pyfloat).

(** A refusal that first takes the mission back, as far as that goes. *)
Definition _confirmation_rollback_error {A} (s : RollbackState) : method A := _ ← _rollback_locked s; raise DeployCtlError.

Definition _confirmation_state (requested : json) : method RollbackState :=
  mission ← _read_state;
  match mission with
  | None => raise DeployCtlError
  | Some s =>
      let names_commit := match requested with JStr c => str_eqb c (rb_commit s) | _ => false end in
      if str_eqb (rb_status s) CONFIRMED_STATUS then if negb names_commit then raise DeployCtlError else mret s
      else if negb (str_eqb (rb_status s) PENDING) then raise DeployCtlError
      else
        _ ← _require_known_confirmation_ownership s;
        due ← _pending_mission_rollback_due s;
        if (due : bool) then _confirmation_rollback_error s
        else if negb names_commit then _confirmation_rollback_error s
        else _ ← _require_confirmation_authority s; mret s
  end.

Definition _authorize_confirmation (s : RollbackState) : method unit :=
  due ← _pending_mission_rollback_due s;
  if (due : bool) then _confirmation_rollback_error s
  else
    facts ← _mission_authority_facts (Some (rb_status s)) true;
    if negb (authorize_mission_confirm facts) then _confirmation_rollback_error s else _require_confirmation_authority s.

Definition _prepare_confirmation_candidate (s : RollbackState) : method (option Z) :=
  _ ← _require_known_confirmation_ownership s;
  match rb_supervisor_owned s with
  | Some false =>
      _ ← except (only CliError) (ask_res (BuildCliRoot (rb_repo s) (rb_commit s))) (fun _ => _confirmation_rollback_error s);
      match rb_new_meta s with
      | None => _confirmation_rollback_error s
      | Some meta => _ ← ask_res (WriteMeta meta); mret None
      end
  | _ =>
      running ← ask_res SupervisorRunning;
      if negb running then _confirmation_rollback_error s
      else generation ← settle_desired (rb_commit s) (rb_repo s) (rb_uv_path s); mret (Some generation)
  end.

Definition _confirmation_locked_body (s : RollbackState) (expected_generation : Z) : method RollbackState :=
  desired ← trusted_desired (raise DeployCtlError);
  status ← ask_res ReadStatus;
  proven ← _supervised_terminalization_authority_matches (rb_commit s) expected_generation desired status;
  if negb proven then raise DeployCtlError
  else
    let terminal := with_status CONFIRMED_STATUS s in
    _ ← _write_state terminal;
    mret terminal.

Definition activate_cli (s : RollbackState) : method unit :=
  _ ← except (only CliError) (ask_res (SetCurrent (rb_commit s))) (fun _ => mret tt);
  ask_res (GcCliRoots (rb_commit s) (rb_previous_commit s)).

Definition _finalize_supervised_confirmation (s : RollbackState) (expected_generation : Z) : method RollbackState :=
  terminal ← generation_locked (_confirmation_locked_body s expected_generation);
  _ ← activate_cli s;
  mret terminal.

Definition _finalize_confirmation (s : RollbackState) (expected_generation : option Z) : method RollbackState :=
  _ ← _require_known_confirmation_ownership s;
  match rb_supervisor_owned s with
  | Some true =>
      running ← ask_res SupervisorRunning;
      if negb running then raise DeployCtlError
      else match expected_generation with
           | None => raise DeployCtlError
           | Some generation => _finalize_supervised_confirmation s generation
           end
  | _ =>
      let terminal := with_status CONFIRMED_STATUS s in
      _ ← _write_state terminal;
      _ ← activate_cli terminal;
      mret terminal
  end.

Definition bin_home_or_fail : method pystr :=
  except os_or_value (ask_res ResolveBinHome) (fun _ => raise DeployCtlError).

Definition _stage_candidate_startup_artifacts (commit : pystr) : method unit := ask_res (StageCandidate commit).

Definition _pre_terminalize (s : RollbackState) : method (option Z) :=
  _ ← _authorize_confirmation s;
  expected_generation ← _prepare_confirmation_candidate s;
  _ ← _stage_candidate_startup_artifacts (rb_commit s);
  bin_home ← bin_home_or_fail;
  _ ← ask_res (WriteStagingManifest (rb_commit s) bin_home);
  mret expected_generation.

Definition _write_snapshot_or_fail (bin_home : pystr) : method unit :=
  except durability_or_os (raw ← ask_res (SnapshotArtifacts bin_home); ask_res (WriteSnapshot raw)) (fun _ => raise DeployCtlError).

Definition _durable_mission_matches (s : RollbackState) : method bool :=
  durable ← outcome _read_state;
  match durable with
  | Raise x => if only DeployCtlError x then mret false else raise x
  | Ok None => mret false
  | Ok (Some durable) =>
      mret (str_eqb (rb_status durable) CONFIRMED_STATUS && str_eqb (rb_commit durable) (rb_commit s)
            && bool_decide (rb_supervisor_owned durable = rb_supervisor_owned s))
  end.

(** [_finalize_post_promotion]: the receipt, then the staged artifacts go. *)
Definition _finalize_post_promotion (commit : pystr) (manifest : dict) (bin_home : pystr) : method unit :=
  _ ← except durability_or_os (_write_confirmation_receipt commit manifest) (fun _ => raise DeployCtlError);
  ask_res (CleanupStaging bin_home).

(** The receipt, when there is a manifest, then the snapshot goes: the end of every
    confirmation that succeeds. *)
Definition conclude (commit : pystr) (manifest : option dict) (bin_home : pystr) : method response :=
  recorded ← outcome (match manifest with None => mret tt | Some m => _finalize_post_promotion commit m bin_home end);
  match recorded with
  | Raise x => if only DeployCtlError x then mret (ConfirmFailure commit) else raise x
  | Ok _ => _ ← _remove_pre_confirmation_artifacts; mret (ConfirmResponse commit)
  end.

Definition _confirmed_idempotent_response (s : RollbackState) : method response :=
  bin_home ← outcome (ask_res ResolveBinHome);
  match bin_home with
  | Raise x => if os_or_value x then mret (ConfirmFailure (rb_commit s)) else raise x
  | Ok bin_home =>
      receipt ← _read_confirmation_receipt;
      intact ← match receipt with
               | Some receipt =>
                   let names_commit := match dict_get receipt (py "commit") with JStr c => str_eqb c (rb_commit s) | _ => false end in
                   if negb names_commit then mret false
                   else drift ← ask_res (VerifyActive receipt bin_home); mret (match drift with None => true | Some _ => false end)
               | None => mret false
               end;
      if (intact : bool) then mret (ConfirmResponse (rb_commit s))
      else
        manifest ← ask_res ReadStagingManifest;
        promotion_error ← ask_res (PromoteStaged (rb_commit s) (rb_commit s) bin_home);
        match promotion_error with
        | Some _ => mret (ConfirmFailure (rb_commit s))
        | None =>
            drift ← match manifest with None => mret None | Some m => ask_res (VerifyActive m bin_home) end;
            match drift with
            | Some _ => mret (ConfirmFailure (rb_commit s))
            | None => conclude (rb_commit s) manifest bin_home
            end
        end
  end.

Definition _confirm_locked (requested : json) : method response :=
  s ← _confirmation_state requested;
  if str_eqb (rb_status s) CONFIRMED_STATUS then _confirmed_idempotent_response s
  else
    bin_home ← bin_home_or_fail;
    _ ← _write_snapshot_or_fail bin_home;
    terminal ← outcome (generation ← _pre_terminalize s; _finalize_confirmation s generation);
    match terminal with
    | Raise x =>
        terminalized ← _durable_mission_matches s;
        _ ← (if negb terminalized then _ ← ask_res (CleanupStaging bin_home); _remove_pre_confirmation_artifacts else mret tt);
        raise x
    | Ok s =>
        manifest ← ask_res ReadStagingManifest;
        promotion_error ← ask_res (PromoteStaged (rb_commit s) (rb_commit s) bin_home);
        match promotion_error with
        | Some _ => mret (ConfirmFailure (rb_commit s))
        | None => conclude (rb_commit s) manifest bin_home
        end
    end.

Definition _handle_confirm (o : Options) (requested : json) : method response :=
  with_deploy_lock (lock_timeout_seconds o) (_confirm_locked requested).

(** ** The status command *)

Definition _cli_target_commit (mission : option RollbackState) : method (option pystr) :=
  desired ← outcome (ask_res ReadDesiredClient);
  match desired with
  | Raise x => if only DesiredIntentError x then mret None else raise x
  | Ok desired =>
      let migrating := match desired with
                       | Some d => de_migration d && match mission with None => true | Some s => rb_generation s <=? de_generation d end
                       | None => false
                       end in
      if migrating then mret None
      else match mission with
           | None => meta ← ask_res ReadMeta; mret (commit_of meta)
           | Some s =>
               mret (Some (if str_eqb (rb_status s) PENDING then rb_previous_commit s
                           else if str_eqb (rb_status s) CONFIRMED_STATUS then rb_commit s else rb_previous_commit s))
           end
  end.

Definition _reconcile_cli (mission : option RollbackState) : method unit :=
  target ← _cli_target_commit mission;
  match target with None => mret tt | Some commit => _ ← ask_res (ReconcilePointer commit); mret tt end.

Definition _enforce_pending_rollback : method (option RollbackState * option WorkerMeta) :=
  mission ← _read_state;
  due ← match mission with
        | Some s => if str_eqb (rb_status s) PENDING then _pending_mission_rollback_due s else mret false
        | None => mret false
        end;
  mission ← match mission with
            | Some s => if (due : bool) then _ ← _rollback_locked s; _read_state else mret mission
            | None => mret mission
            end;
  meta ← ask_res ReadMeta;
  _ ← _reconcile_cli mission;
  mret (mission, meta).

Definition _handle_status (o : Options) : method response :=
  enforced ← with_deploy_lock (lock_timeout_seconds o) _enforce_pending_rollback;
  let '(mission, meta) := enforced : option RollbackState * option WorkerMeta in
  mret match mission with
       | None => StatusIdle (commit_of meta) None
       | Some s =>
           if str_eqb (rb_status s) PENDING then StatusPending (rb_commit s) (rb_previous_commit s) (rb_deadline s)
           else StatusIdle (Some (if str_eqb (rb_status s) CONFIRMED_STATUS then rb_commit s else rb_previous_commit s)) (Some (rb_status s))
       end.

(** ** The checkout command, without a job and in its helper *)

Definition deploy_manually (o : Options) (commit : pystr) : method RollbackState :=
  with_deploy_lock (lock_timeout_seconds o) (mission ← _read_state; _ ← _reconcile_cli mission; _deploy_locked o commit).

Definition lock_or_deploy_error (x : exn) : bool := only DeployCtlError x || only LockTimeoutError x.

(** Errors go to the job that waits for the helper's answer. *)
Definition run_helper (o : Options) (commit : pystr) : method unit :=
  except (fun x => lock_or_deploy_error x || is_os_error x)
    (_ ← ask_res (LockDeploy (lock_timeout_seconds o)); finally (_helper_locked o commit) (ask UnlockDeploy))
    (fun _ => ask SendResponse).

(** ** The watchdog *)

Definition _watchdog_rollback_attempt (lock_timeout : pyfloat) : method bool :=
  except lock_or_deploy_error
    (_ ← ask_res (LockDeploy lock_timeout);
     finally (mission ← _read_state;
              match mission with
              | Some s => if str_eqb (rb_status s) PENDING then _rollback_locked s else mret false
              | None => mret false
              end) (ask UnlockDeploy))
    (fun _ => mret false).

(** [fuel] turns of the watchdog: whether it has ended. *)
Fixpoint _watchdog_main (fuel : nat) (lock_timeout : pyfloat) : method bool :=
  match fuel with
  | O => mret false
  | S fuel =>
      mission ← outcome _read_state;
      match mission with
      | Raise x => if only DeployCtlError x then _ ← ask Sleep; _watchdog_main fuel lock_timeout else raise x
      | Ok None => mret true
      | Ok (Some s) =>
          if terminal_status (rb_status s) then mret true
          else
            should_rollback ← match rb_supervisor_owned s with
                              | Some false => legacy_due s
                              | _ => running ← ask_res SupervisorRunning;
                                     if negb running then mret false else _pending_mission_rollback_due s
                              end;
            rolled_back ← (if (should_rollback : bool) then _watchdog_rollback_attempt lock_timeout else mret false);
            if (rolled_back : bool) then mret true else _ ← ask Sleep; _watchdog_main fuel lock_timeout
      end
  end.
