(* ===== verification/DeployRules.v ===== *)
(** What the commands of a deployment may do, and when: rules over the history of a run
    ([src/lubko/deployctl.py]), and what every part of a deployment keeps of it. *)

From S2P Require Import Prelude PyStr PyNum Json ProcFs LifecycleState SupervisorCodec Store Mission Programs Deploy DeployMissions.

#[local] Open Scope Z_scope.
#[local] Arguments py : simpl never.

Create HintDb deploy discriminated.

Abbreviation exchange := (Programs.exchange dcall).
(** What has been asked and answered, the latest first. *)
Abbreviation history := (list exchange).

Definition reading (X : Type) : Type := forall B : Type, dcall B -> B -> option X.

Fixpoint latest {X} (f : reading X) (h : history) : option X :=
  match h with
  | [] => None
  | Exchange c b :: h => match f _ c b with Some x => Some x | None => latest f h end
  end.

Fixpoint ever (f : reading bool) (h : history) : bool :=
  match h with
  | [] => false
  | Exchange c b :: h => match f _ c b with Some true => true | _ => ever f h end
  end.

Definition answered {A} (r : res A) : bool := match r with Ok _ => true | Raise _ => false end.
Definition yes (r : res bool) : bool := match r with Ok true => true | _ => false end.
Definition when (b : bool) : option bool := if b then Some b else None.

(** ** What a history shows *)

Definition deploy_lock : reading bool := fun B c => match c in dcall B return B -> option bool with
  | LockDeploy _ => fun r => when (answered r) | UnlockDeploy => fun _ => Some false | _ => fun _ => None end.
Definition generation_lock : reading bool := fun B c => match c in dcall B return B -> option bool with
  | LockGenerations => fun r => when (answered r) | UnlockGenerations => fun _ => Some false | _ => fun _ => None end.
Definition held (lock : reading bool) (h : history) : bool := default false (latest lock h).

#[global] Arguments held : simpl never.

(** The part of a history after the generation lock was last taken. *)
Fixpoint since_locked (h : history) : history :=
  match h with
  | [] => []
  | Exchange c b :: h => match generation_lock _ c b with Some true => [] | _ => Exchange c b :: since_locked h end
  end.

Definition desired_read : reading (option SupervisorDesired) := fun B c => match c in dcall B return B -> _ with
  | ReadDesiredClient => fun r => match r with Ok d => Some d | Raise _ => None end | _ => fun _ => None end.
Definition status_read : reading (option SupervisorStatus) := fun B c => match c in dcall B return B -> _ with
  | ReadStatus => fun r => match r with Ok d => Some d | Raise _ => None end | _ => fun _ => None end.
Definition state_read : reading SupervisorState := fun B c => match c in dcall B return B -> _ with
  | ReadStateClient => fun r => match r with Ok d => Some d | Raise _ => None end | _ => fun _ => None end.
Definition processes_read : reading procfs := fun B c => match c in dcall B return B -> _ with
  | Proc => fun pf => Some pf | _ => fun _ => None end.

(** The supervisor was waited for until it was ready with [commit] at [generation]. *)
Definition was_ready (commit : pystr) (generation : Z) : reading bool := fun B c => match c in dcall B return B -> _ with
  | WaitUntilReady g _ c => fun r => when (yes r && (g =? generation) && str_eqb c commit) | _ => fun _ => None end.

(** Everything read since the generation lock was taken agrees that the supervisor runs
    [commit], at the generation it wants, is ready for the queue, and that its child is
    alive. *)
Definition settled_since (commit : pystr) (h : history) : option Z :=
  let h := since_locked h in
  match latest desired_read h, latest status_read h, latest state_read h, latest processes_read h with
  | Some (Some d), Some (Some v), Some st, Some pf =>
      match ss_child v with
      | Some child =>
          if settled commit (de_generation d) d v && queue_ready v && tracks commit (de_generation d) st child && child_alive pf child
          then Some (de_generation d) else None
      | None => None
      end
  | _, _, _, _ => None
  end.

Definition proven (commit : pystr) (h : history) : bool :=
  match settled_since commit h with Some g => ever (was_ready commit g) h | None => false end.

(** A worker that was stopped, and after that seen dead. *)
Definition stop_of (meta : WorkerMeta) : reading bool := fun B c => match c in dcall B return B -> _ with
  | StopWorker m _ => fun r => when (yes r && same_worker m meta) | _ => fun _ => None end.
Fixpoint retired (meta : WorkerMeta) (h : history) : bool :=
  match h with
  | [] => false
  | Exchange c b :: h =>
      match processes_read _ c b with
      | Some pf => match worker_alive pf meta with Ok false => ever (stop_of meta) h | _ => false end
      | None => false
      end || retired meta h
  end.
Definition seen_alive (meta : WorkerMeta) : reading bool := fun B c => match c in dcall B return B -> _ with
  | Proc => fun pf => when (match worker_alive pf meta with Ok true => true | _ => false end) | _ => fun _ => None end.
Definition recorded (meta : WorkerMeta) : reading bool := fun B c => match c in dcall B return B -> _ with
  | WriteMeta m => fun r => when (answered r && same_worker m meta) | _ => fun _ => None end.

Definition checked_out : reading pystr := fun B c => match c in dcall B return B -> _ with
  | Checkout _ commit _ _ => fun r => if yes r then Some commit else None | _ => fun _ => None end.
Definition on_commit (commit : pystr) (h : history) : bool := match latest checked_out h with Some c => str_eqb c commit | None => false end.
Definition root_removed (commit : pystr) : reading bool := fun B c => match c in dcall B return B -> _ with
  | RemoveCliRoot c => fun r => when (answered r && str_eqb c commit) | _ => fun _ => None end.
Definition repointed (commit : pystr) : reading bool := fun B c => match c in dcall B return B -> _ with
  | ReconcilePointer c => fun r => when (answered r && str_eqb c commit) | _ => fun _ => None end.
(** The command line of [commit] is gone and the one of [previous] was asked for. *)
Definition reverted (commit previous : pystr) (h : history) : bool := ever (root_removed commit) h && ever (repointed previous) h.

(** The mission, as it was read or written. *)
Definition mission_read : reading (option RollbackState) := fun B c => match c in dcall B return B -> _ with
  | ReadMissionText => fun r => match r with
                                | Ok raw => match rollback_of_text raw with Ok s => Some (Some s) | Raise _ => None end
                                | Raise x => if only FileNotFoundError x then Some None else None
                                end
  | _ => fun _ => None end.
Definition mission_written : reading (RollbackState * bool) := fun B c => match c in dcall B return B -> _ with
  | WriteMission s => fun r => Some (s, answered r) | _ => fun _ => None end.

Definition mission_seen (f : RollbackState -> bool) : reading bool := fun B c b =>
  when (match mission_read B c b, mission_written B c b with Some (Some s), _ => f s | _, Some (s, w) => w && f s | _, _ => false end).
Definition confirmed_for (commit : pystr) : reading bool := mission_seen (fun s => str_eqb (rb_status s) CONFIRMED_STATUS && str_eqb (rb_commit s) commit).

(** The generation of a mission that was read, or that was asked to be written. *)
Definition known_generation (g : Z) : reading bool := fun B c b =>
  when (match mission_read B c b, mission_written B c b with Some (Some s), _ | _, Some (s, _) => rb_generation s =? g | _, _ => false end).
Definition allocated (g : Z) : reading bool := fun B c => match c in dcall B return B -> _ with
  | NextGeneration | AllocateGeneration => fun r => when (match r with Ok g' => g' =? g | Raise _ => false end) | _ => fun _ => None end.
(** Since the deployment lock was taken no mission was written, and one was read that is
    not pending, or none at all. *)
Definition unclaimed : reading bool := fun B c b =>
  match mission_read B c b, mission_written B c b, deploy_lock B c b with
  | Some None, _, _ => Some true
  | Some (Some s), _, _ => if str_eqb (rb_status s) PENDING then None else Some true
  | _, Some _, _ | _, _, Some _ => Some false
  | _, _, _ => None
  end.
Definition free (h : history) : bool := default false (latest unclaimed h).

(** ** The rules *)

Definition rule : Type := history -> forall B : Type, dcall B -> bool.

(** Each lock is taken when it is not held, and given back when it is; what waits for
    the supervisor, or takes the generation lock itself, is not asked under it. *)
Definition lock_rule : rule := fun h B c =>
  match c with
  | LockDeploy _ => negb (held deploy_lock h)
  | UnlockDeploy => held deploy_lock h
  | LockGenerations | RequestRun _ _ _ _ | WaitForGeneration _ _ | WaitUntilReady _ _ _ | AllocateGeneration =>
      negb (held generation_lock h)
  | UnlockGenerations | NextGeneration => held generation_lock h
  | _ => true
  end.

Definition may_confirm (h : history) (s : RollbackState) : bool :=
  match rb_supervisor_owned s, rb_new_meta s with
  | Some true, _ => held generation_lock h && proven (rb_commit s) h
  | Some false, Some meta => ever (seen_alive meta) h && ever (recorded meta) h
  | _, _ => false
  end.

Definition may_roll_back (h : history) (s : RollbackState) : bool :=
  reverted (rb_commit s) (rb_previous_commit s) h
  && match rb_supervisor_owned s, rb_new_meta s with
     | Some true, _ => proven (rb_previous_commit s) h
     | Some false, Some meta => retired meta h && on_commit (rb_previous_commit s) h
     | _, _ => false
     end.

(** A mission that is not over is one already known, or takes the place of none. *)
Definition may_keep_pending (h : history) (s : RollbackState) : bool :=
  ever (known_generation (rb_generation s)) h || (free h && ever (allocated (rb_generation s)) h).

Definition mission_rule : rule := fun h B c =>
  match c with
  | WriteMission s =>
      held deploy_lock h
      && (if str_eqb (rb_status s) CONFIRMED_STATUS then may_confirm h s
          else if str_eqb (rb_status s) ROLLED_BACK_STATUS then may_roll_back h s
          else str_eqb (rb_status s) PENDING && may_keep_pending h s)
  | _ => true
  end.

(** The startup artifacts of a candidate are promoted, and its command line is made the
    current one, once it is confirmed. *)
Definition promotion_rule : rule := fun h B c =>
  match c with
  | PromoteStaged commit confirmed_commit _ => str_eqb commit confirmed_commit && ever (confirmed_for commit) h
  | SetCurrent commit => ever (confirmed_for commit) h
  | _ => true
  end.

Definition both (r1 r2 : rule) : rule := fun h B c => r1 h B c && r2 h B c.
Definition all_rules : rule := both lock_rule (both mission_rule promotion_rule).

(** Every question of the run is one that the rule allows at that point. *)
Definition obeys (r : rule) (tr : list exchange) : Prop :=
  forall before (B : Type) (c : dcall B) (b : B) after, tr = before ++ Exchange c b :: after -> r (rev before) B c = true.

(** ** Runs that obey *)

Definition step (r : rule) : history -> forall B : Type, dcall B -> B -> option history :=
  fun h B c b => if r h B c then Some (Exchange c b :: h) else None.

Lemma accepts_obeys r h tr h' : accepts (step r) h tr = Some h' ->
  h' = rev tr ++ h /\ forall before (B : Type) (c : dcall B) (b : B) after, tr = before ++ Exchange c b :: after -> r (rev before ++ h) B c = true.
Proof.
  revert h. induction tr as [|[B c b] tr IH]; cbn; intros h H.
  - injection H as <-. split; [done|]. by intros [].
  - unfold step in H. destruct (r h B c) eqn:Hr; [|done]. apply IH in H as [-> Hall]. split; [by rewrite <-app_assoc|].
    intros [|e before] B' c' b' after Ht.
    + apply (f_equal (fun l => match l with Exchange c _ :: _ => r h _ c | [] => true end)) in Ht. cbn in *. by rewrite <-Ht.
    + injection Ht as <- ->. cbn. rewrite <-app_assoc. by apply (Hall before B' c' b' after).
Qed.

(** The questions that no rule and no fact about locks looks at. *)
Definition quiet {B} (c : dcall B) : bool :=
  match c with
  | LockDeploy _ | UnlockDeploy | LockGenerations | UnlockGenerations | NextGeneration | WriteMission _ | PromoteStaged _ _ _
  | SetCurrent _ | Checkout _ _ _ _ => false
  | _ => true
  end.

(** A fact that the quiet questions leave as it is. *)
Definition steady (F : history -> Prop) : Prop := forall (B : Type) (c : dcall B) b h, quiet c = true -> F h -> F (Exchange c b :: h).
(** And that writing a pending mission leaves as it is. *)
Record stable (F : history -> Prop) : Prop := {
  st_quiet : steady F;
  st_pending s b h : str_eqb (rb_status s) PENDING = true -> F h -> F (Exchange (WriteMission s) b :: h);
}.
(** A fact that nothing takes away. *)
Definition lasts (F : history -> Prop) : Prop := forall e h, F h -> F (e :: h).

Lemma lasts_stable F : lasts F -> stable F.
Proof. intros H. split; [intros B c b h _|intros s b h _]; apply H. Qed.
Lemma lasts_steady F : lasts F -> steady F.
Proof. intros H. apply st_quiet, lasts_stable, H. Qed.
Lemma lasts_true : lasts (fun _ => True).
Proof. done. Qed.
Lemma lasts_ever f : lasts (fun h => ever f h = true).
Proof. intros [B c b] h H. cbn. by destruct (f B c b) as [[]|]. Qed.
Lemma lasts_retired meta : lasts (fun h => retired meta h = true).
Proof. intros [B c b] h H. cbn. rewrite H. apply orb_true_r. Qed.
Lemma lasts_and F G : lasts F -> lasts G -> lasts (fun h => F h /\ G h).
Proof. intros HF HG e h [? ?]. split; [by apply HF|by apply HG]. Qed.
Lemma stable_and F G : stable F -> stable G -> stable (fun h => F h /\ G h).
Proof.
  intros [F1 F2] [G1 G2]. split.
  - intros B c b h Hq [HF HG]. split; [by apply F1|by apply G1].
  - intros s b h Hs [HF HG]. split; [by apply F2|by apply G2].
Qed.
Lemma stable_on_commit commit : stable (fun h => on_commit commit h = true).
Proof. split; unfold on_commit; [|done]. intros B c b h Hq H. by destruct c. Qed.

(** Under the deployment lock or not, and not under the generation lock. *)
Definition under (deploying : bool) (F : history -> Prop) (h : history) : Prop := held deploy_lock h = deploying /\ held generation_lock h = false /\ F h.
Abbreviation inside := (under true).
Abbreviation outside := (under false).
(** Under both. *)
Definition within (F : history -> Prop) (h : history) : Prop := held deploy_lock h = true /\ held generation_lock h = true /\ F h.

(** ** What every part keeps *)

Abbreviation allowed := (step all_rules).
Abbreviation facts := (history -> Prop).

Section parts.
Context (deploying : bool) (F : facts) (HF : steady F).

#[local] Abbreviation K m := (keeps (memory := unit) allowed (fun _ => under deploying F) m).

Lemma quiet_harmless {B} (c : dcall B) : quiet c = true -> harmless (memory := unit) allowed (fun _ => under deploying F) c.
Proof.
  intros Hq d h b (Hd & Hg & Hh). exists (Exchange c b :: h). unfold step.
  assert (all_rules h B c = true) as -> by (destruct c; try discriminate Hq; unfold all_rules, both, lock_rule; by rewrite ?Hg).
  split; [done|]. unfold under, held. split_and!; [..|by apply HF]; by destruct c.
Qed.

Lemma keeps_quiet {B} (c : dcall B) : quiet c = true -> K (ask c).
Proof. intros H. by apply keeps_ask, quiet_harmless. Qed.
Lemma keeps_quiet_res {B} (c : dcall (res B)) : quiet c = true -> K (ask_res c).
Proof. intros H. by apply keeps_ask_res, quiet_harmless. Qed.

Lemma keeps_except {A} (r : rule) (I : unit -> history -> Prop) caught (m : method A) handler :
  keeps (step r) I m -> (forall x, keeps (step r) I (handler x)) -> keeps (step r) I (except caught m handler).
Proof.
  intros Hm Hh. unfold except. apply keeps_bind; [by apply keeps_outcome|]. intros [a|x]; [apply keeps_ret|].
  destruct (caught x); [done|apply keeps_raise].
Qed.

Lemma pending_cases s : str_eqb (rb_status s) PENDING = true ->
  str_eqb (rb_status s) CONFIRMED_STATUS = false /\ str_eqb (rb_status s) ROLLED_BACK_STATUS = false.
Proof. intros ->%str_eqb_eq. by vm_compute. Qed.

End parts.

Lemma keeps_pending F s : stable F -> str_eqb (rb_status s) PENDING = true -> (forall h, F h -> may_keep_pending h s = true) -> keeps (memory := unit) allowed (fun _ => inside F) (_write_state s).
Proof.
  intros HS Hs Hk. apply keeps_ask_res. intros d h b (Hd & Hg & Hh). exists (Exchange (WriteMission s) b :: h).
  destruct (pending_cases s Hs) as [Hc Hr]. unfold step, all_rules, both. cbn. rewrite Hd, Hc, Hr, Hs, Hk by done.
  split; [done|]. split_and!; [done..|by apply (st_pending F HS)].
Qed.

(** Walk the text of a part, its questions all quiet. *)
Ltac part_step :=
  first
    [ solve [eauto 3 with deploy]
    | lazymatch goal with |- keeps _ _ (except _ _ _) => apply keeps_except; [|intros ?] end
    | keep_step ltac:(apply quiet_harmless; [first [eassumption|apply st_quiet; eassumption|solve [auto with deploy]]|reflexivity]) ltac:(idtac) ].
Ltac part := repeat part_step.

Section quiet_parts.
Context (deploying : bool) (F : facts) (HF : steady F).
#[local] Abbreviation K m := (keeps (memory := unit) allowed (fun _ => under deploying F) m).

Lemma alive_now_kept m : K (worker_alive_now m).
Proof. unfold worker_alive_now. part. Qed.
#[local] Hint Resolve alive_now_kept : deploy.
Lemma mission_read_kept : K _read_state.
Proof. unfold _read_state. part. Qed.
#[local] Hint Resolve mission_read_kept : deploy.
Lemma mission_active_kept s : K (_supervised_mission_active s).
Proof. unfold _supervised_mission_active. part. Qed.
#[local] Hint Resolve mission_active_kept : deploy.
Lemma candidate_alive_kept s : K (_mission_candidate_alive s).
Proof. unfold _mission_candidate_alive. part. Qed.
Lemma authoritative_kept s : K (_supervised_mission_authoritative s).
Proof. unfold _supervised_mission_authoritative. part. Qed.
#[local] Hint Resolve authoritative_kept : deploy.
Lemma ownership_kept s : K (_require_known_confirmation_ownership s).
Proof. unfold _require_known_confirmation_ownership. part. Qed.
#[local] Hint Resolve ownership_kept : deploy.
Lemma confirmation_authority_kept s : K (_require_confirmation_authority s).
Proof. unfold _require_confirmation_authority, trusted_desired. part. Qed.
Lemma legacy_due_kept s : K (legacy_due s).
Proof. unfold legacy_due. part. Qed.
#[local] Hint Resolve legacy_due_kept : deploy.
Lemma rollback_due_kept s : K (_pending_mission_rollback_due s).
Proof. unfold _pending_mission_rollback_due. part. Qed.
Lemma settlement_kept c r u : K (settle_desired c r u).
Proof. unfold settle_desired, trusted_desired. part. Qed.
Lemma durable_previous_kept s : K (_durable_previous_worker s).
Proof. unfold _durable_previous_worker. part. Qed.
Lemma outlives_kept s m : K (outlives_stop s m).
Proof. unfold outlives_stop. part. Qed.
Lemma snapshot_kept : K _read_pre_confirmation_snapshot.
Proof. unfold _read_pre_confirmation_snapshot. part. Qed.
#[local] Hint Resolve snapshot_kept : deploy.
Lemma receipt_kept : K _read_confirmation_receipt.
Proof. unfold _read_confirmation_receipt. part. Qed.
Lemma restore_artifacts_kept b : K (_restore_pre_confirmation_artifacts b).
Proof. unfold _restore_pre_confirmation_artifacts, _verify_restored_launcher_mode. part. Qed.
Lemma remove_snapshot_kept : K _remove_pre_confirmation_artifacts.
Proof. unfold _remove_pre_confirmation_artifacts, suppressed. part. Qed.
#[local] Hint Resolve remove_snapshot_kept : deploy.
Lemma remove_receipt_kept : K _remove_confirmation_receipt.
Proof. unfold _remove_confirmation_receipt, suppressed. part. Qed.
#[local] Hint Resolve remove_receipt_kept : deploy.
Lemma cleanup_kept r : K (_cleanup_rollback_evidence r).
Proof. unfold _cleanup_rollback_evidence. part. Qed.
Lemma mission_facts_kept st r : K (_mission_authority_facts st r).
Proof. unfold _mission_authority_facts. part. Qed.
Lemma abort_gated_kept g : K (abort_if_gated g).
Proof. unfold abort_if_gated. part. Qed.
End quiet_parts.
#[export] Hint Resolve alive_now_kept mission_read_kept mission_active_kept candidate_alive_kept authoritative_kept ownership_kept
  confirmation_authority_kept legacy_due_kept rollback_due_kept settlement_kept durable_previous_kept outlives_kept snapshot_kept receipt_kept
  restore_artifacts_kept remove_snapshot_kept remove_receipt_kept cleanup_kept mission_facts_kept abort_gated_kept : deploy.

#[export] Hint Resolve st_quiet : deploy.

(** Putting the previous worker back, for a mission that is known. *)
Section restarts.
Context (F : facts) (HF : stable F) (s : RollbackState) (Hs : str_eqb (rb_status s) PENDING = true).
Context (Hk : forall h, F h -> ever (known_generation (rb_generation s)) h = true).
#[local] Abbreviation K m := (keeps (memory := unit) allowed (fun _ => inside F) m).

Lemma rewrite_kept s' : rb_status s' = rb_status s -> rb_generation s' = rb_generation s -> K (_write_state s').
Proof.
  intros H1 H2. apply keeps_pending; [done|by rewrite H1|]. intros h Hh. unfold may_keep_pending. by rewrite H2, Hk.
Qed.
#[local] Hint Extern 1 (keeps _ _ (_write_state _)) => (apply rewrite_kept; reflexivity) : deploy.
#[local] Hint Extern 1 (keeps _ _ (_clear_previous_restart_obligation _)) => (apply rewrite_kept; reflexivity) : deploy.

Lemma recover_kept : K (_recover_previous_restart s).
Proof using Hk Hs HF. unfold _recover_previous_restart. part. Qed.
Lemma spawn_previous_kept p : K (_spawn_previous_worker s p).
Proof using Hk Hs HF. unfold _spawn_previous_worker. part. Qed.
#[local] Hint Resolve recover_kept spawn_previous_kept : deploy.
Lemma restart_kept : K (_restart_previous s).
Proof using Hk Hs HF. unfold _restart_previous. part. Qed.
End restarts.
