(* ===== verification/DeployTheorems.v ===== *)
(** What every run of a deployment command obeys ([src/lubko/deployctl.py]). *)

From S2P Require Import Prelude PyStr PyNum Json ProcFs LifecycleState SupervisorCodec Store Mission MissionTheorems Programs Deploy DeployMissions DeployRules.

#[local] Open Scope Z_scope.
#[local] Arguments py : simpl never.

(** The mission is over: it was read so, or there is none, or it was rolled back. *)
Definition mission_over : reading bool := fun B c b =>
  when (match mission_read B c b, mission_written B c b with
        | Some None, _ => true
        | Some (Some s), _ => terminal_status (rb_status s)
        | None, Some (s, w) => w && str_eqb (rb_status s) ROLLED_BACK_STATUS
        | None, None => false
        end).

Abbreviation W P m Q := (watched (memory := unit) allowed (fun _ => P) m (fun r _ => Q r)).

(** [m] stays under the deployment lock, keeps [F], and what it returns comes with [G]. *)
Definition ending {A} (F : facts) (G : A -> facts) : res A -> facts := fun r h =>
  inside F h /\ match r with Ok a => G a h | Raise _ => True end.
Abbreviation E F m G := (W (inside F) m (ending F G)).
Abbreviation K F m := (keeps (memory := unit) allowed (fun _ => inside F) m).

Lemma before {A} (F F1 : facts) (m : method A) Q : (forall h, F h -> F1 h) -> W (inside F1) m Q -> W (inside F) m Q.
Proof. intros HF Hm. eapply watched_mono; [exact Hm|intros _ h (?&?&?); split_and!; auto|done]. Qed.
Lemma after {A} (F F0 : facts) (m : method A) (M G : A -> facts) :
  E F m M -> (forall h, F h -> F0 h) -> (forall a h, F h -> M a h -> G a h) -> W (inside F) m (ending F0 G).
Proof.
  intros Hm HF HG. eapply watched_mono; [exact Hm|done|]. intros [a|x] _ h [(?&?&?) ?]; (split; [split_and!; auto|]); [by apply HG|done].
Qed.
Lemma after_kept {A} (F F0 : facts) (m : method A) (G : A -> facts) :
  K F m -> (forall h, F h -> F0 h) -> (forall a h, F h -> G a h) -> W (inside F) m (ending F0 G).
Proof. intros Hm HF HG. apply (after F F0 m (fun _ _ => True)); [|done|by auto]. eapply watched_mono; [exact Hm|done|by intros []]. Qed.

Lemma then_from {A B} (F F1 F0 : facts) (m : method A) (f : A -> method B) M G : (forall h, F1 h -> F0 h) ->
  W (inside F) m (ending F1 M) -> (forall a, W (inside (fun h => F1 h /\ M a h)) (f a) (ending F0 G)) -> W (inside F) (m ≫= f) (ending F0 G).
Proof.
  intros HF Hm Hf. eapply watched_bind; [exact Hm| |].
  - intros a. eapply watched_mono; [exact (Hf a)|intros _ h [(?&?&?) ?]; by repeat split|done].
  - intros x _ h [(?&?&?) _]. split; [split_and!; auto|done].
Qed.

Lemma watched_assume {A} (fact : Prop) (P : history -> Prop) (m : method A) (Q : res A -> facts) : (forall h, P h -> fact) -> (fact -> W P m Q) -> W P m Q.
Proof. intros HP Hm d h H. exact (Hm (HP h H) d h H). Qed.

(** The parts of a method in turn; [F0] is what is promised at the end. *)
Section turns.
Context (F F0 : facts) (HF : forall h, F h -> F0 h).

Lemma then_ends {A B} (m : method A) (f : A -> method B) M G :
  E F m M -> (forall a, W (inside (fun h => F h /\ M a h)) (f a) (ending F0 G)) -> W (inside F) (m ≫= f) (ending F0 G).
Proof. by apply then_from. Qed.
Lemma then_kept {A B} (m : method A) (f : A -> method B) G :
  K F m -> (forall a, W (inside F) (f a) (ending F0 G)) -> W (inside F) (m ≫= f) (ending F0 G).
Proof.
  intros Hm Hf. eapply watched_keeps; [exact Hm| |exact Hf]. intros x _ h (?&?&?). split; [split_and!; auto|done].
Qed.
Lemma then_ret {A} (a : A) (G : A -> facts) : (forall h, F h -> G a h) -> W (inside F) (mret a) (ending F0 G).
Proof. intros HG. apply watched_ret. intros _ h (?&?&?). split; [split_and!|]; by auto. Qed.
Lemma then_raise {A} x (G : A -> facts) : W (inside F) (raise x) (ending F0 G).
Proof. apply watched_raise. intros _ h (?&?&?). split; [split_and!|]; by auto. Qed.

Lemma then_ask_res {B C} (c : dcall (res B)) (f : B -> method C) (M : B -> facts) G : steady F -> quiet c = true ->
  (forall b h, F h -> M b (Exchange c (Ok b) :: h)) -> (forall b, W (inside (fun h => F h /\ M b h)) (f b) (ending F0 G)) ->
  W (inside F) (ask_res c ≫= f) (ending F0 G).
Proof.
  intros Hst Hq HM. apply then_ends. apply watched_ask_res. intros d h r H. destruct (quiet_harmless true F Hst c Hq d h r H) as (h' & Hs & Hi).
  exists h'. split; [done|]. split; [done|]. destruct r as [b|x]; [|done]. unfold step in Hs. destruct (all_rules h _ c); [|done].
  injection Hs as <-. apply HM, H.
Qed.
Lemma then_ask {B C} (c : dcall B) (f : B -> method C) (M : B -> facts) G : steady F -> quiet c = true ->
  (forall b h, F h -> M b (Exchange c b :: h)) -> (forall b, W (inside (fun h => F h /\ M b h)) (f b) (ending F0 G)) ->
  W (inside F) (ask c ≫= f) (ending F0 G).
Proof.
  intros Hst Hq HM. apply then_ends. apply watched_ask. intros d h b H. destruct (quiet_harmless true F Hst c Hq d h b H) as (h' & Hs & Hi).
  exists h'. split; [done|]. split; [done|]. unfold step in Hs. destruct (all_rules h _ c); [|done]. injection Hs as <-. apply HM, H.
Qed.
End turns.

Lemma outcome_ends {A} (F F0 : facts) (m : method A) (M : A -> facts) : W (inside F) m (ending F0 M) ->
  W (inside F) (outcome m) (ending F0 (fun r h => match r with Ok a => M a h | Raise _ => True end)).
Proof.
  intros Hm. eapply watched_mono; [apply (watched_outcome _ _ _ (fun r _ => ending F0 M r)), Hm|done|]. intros [[a|x]|x] _ h H; [exact H|exact H|done].
Qed.

(** The generation it returns is one at which the supervisor was ready. *)
Lemma settle_ends (F : facts) commit repo uv_path : stable F -> E F (settle_desired commit repo uv_path) (fun g h => ever (was_ready commit g) h = true).
Proof.
  intros HF. unfold settle_desired. do 3 (apply then_kept; [done|unfold trusted_desired; part|]; intros ?).
  apply then_kept; [done|part|]. intros ?. apply then_kept; [done|part|]. intros [|]; cbn [negb]; [|by apply then_raise].
  match goal with |- context [WaitUntilReady ?g _ _] => apply then_ask_res with (M := fun ready h => ready = true -> ever (was_ready commit g) h = true) end; [done|by apply st_quiet|done| |].
  { intros b h _ ->. cbn. by rewrite Z.eqb_refl, str_eqb_refl. }
  intros [|]; cbn [negb]; [|by apply then_raise; intros h [? _]]. apply then_ret; [by intros h [? _]|]. intros h [_ H]. by apply H.
Qed.

Lemma same_worker_refl m : same_worker m m = true.
Proof. unfold same_worker. by rewrite !bool_decide_true. Qed.

(** Writing a mission that the rule allows. *)
Lemma write_ends (F0 F : facts) s (G : facts) : (forall h, F h -> F0 h) -> lasts F0 -> (forall h, inside F h -> mission_rule h _ (WriteMission s) = true) ->
  (forall h, F h -> G (Exchange (WriteMission s) (Ok tt) :: h)) -> W (inside F) (_write_state s) (ending F0 (fun _ => G)).
Proof.
  intros HF HL Hrule HG. apply watched_ask_res. intros d h r H. exists (Exchange (WriteMission s) r :: h).
  assert (mission_rule h _ (WriteMission s) = true) as Hm by (by apply Hrule). destruct H as (?&?&?).
  split; [unfold step, all_rules, both; by rewrite Hm|]. split; [split_and!; [done..|by apply HL, HF]|]. destruct r as [[]|]; [by apply HG|done].
Qed.

(** ** Under the generation lock *)

(** After the generation lock was taken, and [h0] was answered since. *)
Definition just_locked (F : facts) : facts := fun h => within F h /\ since_locked h = [].

Lemma generation_locked_ends {A} (F : facts) (m : method A) (G : A -> facts) : lasts F -> (forall a h, G a h -> G a (Exchange UnlockGenerations tt :: h)) ->
  W (just_locked F) m (fun r h => within F h /\ match r with Ok a => G a h | Raise _ => True end) -> E F (generation_locked m) G.
Proof.
  intros HL HG Hm. unfold generation_locked, except, with_generation_lock.
  eapply watched_bind with (M := fun r _ h => match r with Ok r => ending F G r h | Raise _ => False end); [|
    intros [a|x]; [by apply watched_ret|]; destruct (only _ x); apply watched_raise; intros _ h [? _]; by split |done].
  apply watched_outcome with (Q := fun r _ => ending F G r). eapply watched_bind with (M := fun r _ h => match r with Ok _ => just_locked F h | Raise _ => inside F h end).
  - apply watched_ask_res. intros d h r (Hd & Hg & HF). exists (Exchange LockGenerations r :: h).
    split; [unfold step, all_rules, both, lock_rule; by rewrite Hg|].
    destruct r as [[]|x]; split_and!; try done; [split_and!; [done..|by apply HL]|by apply HL].
  - intros _. eapply watched_finally; [exact Hm|]. intros r. apply watched_ask.
    intros d h [] [(Hd & Hg & HF) Hr]. exists (Exchange UnlockGenerations tt :: h).
    split; [unfold step, all_rules, both, lock_rule; by rewrite Hg|]. split; [split_and!; [done..|by apply HL]|].
    destruct r; [by apply HG|done].
  - intros x _ h H. by split.
Qed.

(** What is only read under the lock. *)
Definition just_read {B} (c : dcall B) : bool := match c with ReadDesiredClient | ReadStatus | ReadStateClient | Proc => true | _ => false end.
Definition lately (f : history -> Prop) (F : facts) : facts := fun h => within F h /\ f (since_locked h).

Lemma read_accepted {B} (c : dcall B) (F : facts) h b : just_read c = true -> lasts F -> within F h ->
  allowed h B c b = Some (Exchange c b :: h) /\ within F (Exchange c b :: h) /\ since_locked (Exchange c b :: h) = Exchange c b :: since_locked h.
Proof.
  intros Hc HL (Hd & Hg & HF). apply (HL (Exchange c b)) in HF. unfold step. destruct c; try discriminate Hc; by repeat split.
Qed.

Lemma then_read_res {B C} (F : facts) (c : dcall (res B)) (k : B -> method C) (P : history -> Prop) (M : B -> history -> Prop) (Q : res C -> facts) :
  just_read c = true -> lasts F -> (forall b h, P h -> M b (Exchange c (Ok b) :: h)) -> (forall x h, within F h -> Q (Raise x) h) ->
  (forall b, W (lately (M b) F) (k b) Q) -> W (lately P F) (ask_res c ≫= k) Q.
Proof.
  intros Hc HL HM HQ Hk. eapply watched_bind with (M := fun r _ h => match r with Ok b => lately (M b) F h | Raise _ => within F h end); [|exact Hk|by auto].
  apply watched_ask_res. intros d h r [Hw HP]. destruct (read_accepted c F h r Hc HL Hw) as (H1 & H2 & H3). exists (Exchange c r :: h).
  split; [exact H1|]. destruct r as [b|x]; [|done]. split; [done|]. rewrite H3. by apply HM.
Qed.
Lemma then_read {B C} (F : facts) (c : dcall B) (k : B -> method C) (P : history -> Prop) (M : B -> history -> Prop) (Q : res C -> facts) :
  just_read c = true -> lasts F -> (forall b h, P h -> M b (Exchange c b :: h)) -> (forall x h, within F h -> Q (Raise x) h) ->
  (forall b, W (lately (M b) F) (k b) Q) -> W (lately P F) (ask c ≫= k) Q.
Proof.
  intros Hc HL HM HQ Hk. eapply watched_bind with (M := fun r _ h => match r with Ok b => lately (M b) F h | Raise _ => False end); [|exact Hk|by intros].
  apply watched_ask. intros d h b [Hw HP]. destruct (read_accepted c F h b Hc HL Hw) as (H1 & H2 & H3). exists (Exchange c b :: h).
  split; [exact H1|]. split; [done|]. rewrite H3. by apply HM.
Qed.

(** The desired intent, the status and the proof that [commit] is settled: what follows
    them when they hold has the proof. *)
Definition terminalization {A} (commit : pystr) (g : Z) (k : method A) : method A :=
  desired ← trusted_desired (raise DeployCtlError);
  status ← ask_res ReadStatus;
  p ← _supervised_terminalization_authority_matches commit g desired status;
  if negb p then raise DeployCtlError else k.

Lemma authority_read (F : facts) commit g desired status : lasts F -> (forall h, F h -> ever (was_ready commit g) h = true) ->
  W (lately (fun h => latest desired_read h = Some desired /\ latest status_read h = Some status) F)
    (_supervised_terminalization_authority_matches commit g desired status)
    (fun r h => within F h /\ (r = Ok true -> proven commit h = true)).
Proof.
  intros HL Hg. unfold _supervised_terminalization_authority_matches.
  assert (forall r P, r <> Ok true -> W (lately P F) (of_res r) (fun r h => within F h /\ (r = Ok true -> proven commit h = true))) as Hno.
  { intros r P Hr. apply watched_of_res. intros _ h [Hw _]. by split. }
  destruct desired as [d|], status as [v|]; try (by apply (Hno (Ok false))).
  destruct (settled commit g d v) eqn:Hsettled; cbn [negb]; [|by apply (Hno (Ok false))].
  destruct (queue_ready v) eqn:Hqueue; [|by apply (Hno (Ok false))]. destruct (ss_child v) as [child|] eqn:Hchild; [|by apply (Hno (Ok false))].
  apply then_read_res with (M := fun st h => (latest desired_read h = Some (Some d) /\ latest status_read h = Some (Some v)) /\ latest state_read h = Some st);
    [done..|by intros b h [? ?]|by intros|].
  intros st. destruct (tracks commit g st child) eqn:Htracks; cbn [negb]; [|by apply (Hno (Ok false))].
  apply then_read with (M := fun pf h => ((latest desired_read h = Some (Some d) /\ latest status_read h = Some (Some v)) /\ latest state_read h = Some st)
                                         /\ latest processes_read h = Some pf); [done..|by intros b h [[? ?] ?]|by intros|].
  intros pf. apply watched_ret. intros _ h [Hw (((H1 & H2) & H3) & H4)]. split; [done|]. intros [= Halive].
  assert (de_generation d = g) as Hgen. { unfold settled in Hsettled. lia. }
  unfold proven, settled_since. rewrite H1, H2, H3, H4, Hchild, Hgen, Hsettled, Hqueue, Htracks, Halive. cbn. apply Hg, Hw.
Qed.

Lemma terminalization_ends {A} (F : facts) commit g (k : method A) (Q : res A -> facts) : lasts F -> (forall h, F h -> ever (was_ready commit g) h = true) ->
  (forall x h, within F h -> Q (Raise x) h) -> W (fun h => within F h /\ proven commit h = true) k Q ->
  W (just_locked F) (terminalization commit g k) Q.
Proof.
  intros HL Hg HQ Hk. unfold terminalization.
  eapply watched_bind with (M := fun r _ h => match r with Ok desired => lately (fun h => latest desired_read h = Some desired) F h | Raise _ => within F h end); [| |by auto].
  { unfold trusted_desired, except. eapply watched_bind with (M := fun r _ h => match r with Ok (Ok desired) => lately (fun h => latest desired_read h = Some desired) F h
      | Ok (Raise _) => within F h | Raise _ => False end); [|intros [desired|x]; [by apply watched_ret|]; destruct (only _ x); by apply watched_raise|done].
    apply (watched_outcome _ _ _ (fun r _ h => match r with Ok desired => lately (fun h => latest desired_read h = Some desired) F h | Raise _ => within F h end)).
    apply watched_ask_res. intros d h r [Hw _]. destruct (read_accepted ReadDesiredClient F h r eq_refl HL Hw) as (H1 & H2 & H3).
    exists (Exchange ReadDesiredClient r :: h). split; [exact H1|]. destruct r; [|done]. split; [done|]. by rewrite H3. }
  intros desired. apply then_read_res with (M := fun status h => latest desired_read h = Some desired /\ latest status_read h = Some status); [done..|by intros b h|by auto|].
  intros status. eapply watched_bind; [by apply authority_read| |by intros x _ h [? _]; apply HQ].
  intros [|]; cbn [negb]; [|apply watched_raise; intros _ h [? _]; by apply HQ].
  eapply watched_mono; [exact Hk|intros _ h [? H]; by auto|done].
Qed.

(** ** Rolling a mission back *)

Section rollback.
Context (s : RollbackState) (Hpending : str_eqb (rb_status s) PENDING = true).

Definition known : facts := fun h => ever (known_generation (rb_generation s)) h = true.
Lemma known_lasts : lasts known.
Proof using. apply lasts_ever. Qed.

Definition candidate_retired : facts := fun h => exists meta, rb_new_meta s = Some meta /\ retired meta h = true.
Lemma candidate_retired_lasts : lasts candidate_retired.
Proof using. intros e h (meta & ? & H). exists meta. split; [done|]. by apply lasts_retired. Qed.

Lemma retire_ends F : lasts F -> E F (_retire_candidate_locked s) (fun dead h => dead = true -> candidate_retired h).
Proof using.
  intros HF. unfold _retire_candidate_locked. destruct (rb_new_meta s) as [meta|] eqn:Hm; [|by apply then_ret].
  apply then_ask_res with (M := fun stopped h => stopped = true -> ever (stop_of meta) h = true); [done|by apply lasts_steady|done| |].
  { intros b h _ ->. cbn. by rewrite same_worker_refl. }
  intros [|]; cbn [negb]; [|by apply then_ret; [intros h [? _]|]].
  apply before with (F1 := fun h => F h /\ ever (stop_of meta) h = true); [intros h [? H]; by auto|].
  assert (lasts (fun h => F h /\ ever (stop_of meta) h = true)) as HL by (by apply lasts_and, lasts_ever).
  eapply then_ends with (M := fun alive h => alive = false -> retired meta h = true); [by intros h [? _]| |].
  - unfold worker_alive_now. apply then_ask with (M := fun pf h => worker_alive pf meta = Ok false -> retired meta h = true);
      [done|by apply lasts_steady|done| |].
    + intros pf h [_ Hs] Ha. cbn. by rewrite Ha, Hs.
    + intros pf. apply watched_of_res. intros _ h (?&?&[? ?] & Ha). split; [by split_and!|].
      destruct (worker_alive pf meta) as [[|]|x]; [done|intros _; by apply Ha|done].
  - intros alive. apply then_ret; [by intros h [[? _] _]|]. intros h [_ Ha]. destruct alive; [done|].
    intros _. exists meta. split; [done|by apply Ha].
Qed.

Definition cli_reverted : facts := fun h => reverted (rb_commit s) (rb_previous_commit s) h = true.
Lemma cli_reverted_lasts : lasts cli_reverted.
Proof using. intros e h [H1 H2]%andb_prop. apply andb_true_intro. split; by apply lasts_ever. Qed.

Lemma restore_cli_ends F : stable F ->
  E F (_restore_cli_and_startup_artifacts (rb_commit s) (rb_previous_commit s)) (fun _ => cli_reverted).
Proof using.
  intros HF. unfold _restore_cli_and_startup_artifacts.
  apply then_ask_res with (M := fun _ h => ever (root_removed (rb_commit s)) h = true); [done|by apply st_quiet|done| |].
  { intros b h _. cbn. by rewrite str_eqb_refl. }
  intros _. apply then_ask_res with (M := fun _ h => ever (repointed (rb_previous_commit s)) h = true);
    [by intros h [? _]|apply st_quiet, stable_and; [done|apply lasts_stable, lasts_ever]|done| |].
  { intros b h _. cbn. by rewrite str_eqb_refl. }
  intros _.
  assert (stable (fun h => (F h /\ ever (root_removed (rb_commit s)) h = true) /\ ever (repointed (rb_previous_commit s)) h = true)) as HS
    by (repeat apply stable_and; [done|apply lasts_stable, lasts_ever..]).
  apply after_kept; [part|by intros h [[? _] _]|]. intros _ h [[_ H1] H2]. apply andb_true_intro. by split.
Qed.

Lemma restore_previous_ends : E (fun h => known h /\ candidate_retired h) (_restore_previous_locked s)
  (fun restored h => restored.1 = true -> on_commit (rb_previous_commit s) h = true /\ cli_reverted h).
Proof using Hpending.
  set (F := fun h => known h /\ candidate_retired h).
  assert (lasts F) as HL by (apply lasts_and; [apply known_lasts|apply candidate_retired_lasts]).
  unfold _restore_previous_locked.
  apply then_ends with (M := fun restored h => restored = true -> on_commit (rb_previous_commit s) h = true); [done| |].
  { apply watched_ask_res. intros d h r (?&?&?). exists (Exchange (Checkout (rb_repo s) (rb_previous_commit s) (rb_git_timeout_seconds s) true) r :: h).
    split; [done|]. split; [split_and!; [done..|by apply HL]|]. destruct r as [b|x]; [|done]. intros ->. unfold on_commit. cbn. by rewrite str_eqb_refl. }
  intros [|]; cbn [negb]; [|by apply then_ret; [intros h [? _]|]].
  apply before with (F1 := fun h => F h /\ on_commit (rb_previous_commit s) h = true); [intros h [? H]; by auto|].
  assert (stable (fun h => F h /\ on_commit (rb_previous_commit s) h = true)) as HS
    by (apply stable_and; [by apply lasts_stable|apply stable_on_commit]).
  apply then_kept; [by intros h [? _]|apply restart_kept; [done|done|by intros h [[? _] _]]|].
  intros [meta|]; [|by apply then_ret; [intros h [? _]|]].
  apply then_kept; [by intros h [? _]|part|]. intros _.
  eapply after; [by apply restore_cli_ends|by intros h [? _]|]. intros restored h [_ H] Hr _. by split.
Qed.

Lemma evidence_cleaned {A} snap (a : A) (G : A -> facts) : (forall h, ever mission_over h = true -> G a h) ->
  W (inside (fun h => known h /\ ever mission_over h = true)) (_ ← _cleanup_rollback_evidence snap; mret a) (ending known G).
Proof using.
  intros HG. assert (stable (fun h => known h /\ ever mission_over h = true)) as HS by (apply lasts_stable, lasts_and; apply lasts_ever).
  apply then_kept; [by intros h [? _]|part|]. intros _. apply then_ret; [by intros h [? _]|]. intros h [_ H]. by apply HG.
Qed.

Lemma rollback_legacy_ends : rb_supervisor_owned s = Some false -> E known (_rollback_legacy_locked s) (fun done h => done = true -> ever mission_over h = true).
Proof using Hpending.
  intros Hown. unfold _rollback_legacy_locked. eapply then_ends; [done|apply retire_ends, known_lasts|].
  intros [|]; cbn [negb]; [|by apply then_ret; [intros h [? _]|]].
  apply before with (F1 := fun h => known h /\ candidate_retired h); [intros h [? H]; by auto|].
  eapply then_ends; [by intros h [? _]|apply restore_previous_ends|]. intros [[|] snap]; cbn [negb fst snd]; [|by apply then_ret; [intros h [[? _] _]|]].
  set (s' := with_restart None false (with_status ROLLED_BACK_STATUS s)).
  apply then_from with (F1 := known) (M := fun _ h => ever mission_over h = true); [done| |].
  - apply write_ends; [by intros h [[? _] _]|apply known_lasts| |done].
    intros h (Hd & _ & (_ & meta & Hm & Hdead) & H). destruct (H eq_refl) as [Hc Hr]. unfold mission_rule, may_roll_back. cbn.
    rewrite Hd, Hown, Hm, Hdead, Hc, Hr. done.
  - intros _. by apply evidence_cleaned.
Qed.

Lemma rollback_proof_ends F g : lasts F -> (forall h, F h -> ever (was_ready (rb_previous_commit s) g) h = true) ->
  E F (generation_locked (_rollback_locked_body s g)) (fun _ h => proven (rb_previous_commit s) h = true).
Proof using.
  intros HL Hg. apply generation_locked_ends; [done|by intros|]. apply (terminalization_ends F (rb_previous_commit s) g (mret tt)); [done..|by intros x h|].
  by apply watched_ret.
Qed.

Lemma finalize_rollback_ends g F : F = (fun h => known h /\ ever (was_ready (rb_previous_commit s) g) h = true) -> rb_supervisor_owned s = Some true ->
  W (inside F) (_finalize_supervised_rollback s g) (ending known (fun _ h => ever mission_over h = true)).
Proof using Hpending.
  intros HFe Hown. assert (lasts F) as HL by (rewrite HFe; apply lasts_and; apply lasts_ever).
  assert (forall h, F h -> ever (was_ready (rb_previous_commit s) g) h = true) as Hg by (rewrite HFe; by intros h [_ ?]).
  assert (forall h, F h -> known h) as Hk by (rewrite HFe; by intros h [? _]).
  unfold _finalize_supervised_rollback. eapply then_ends; [done|by apply rollback_proof_ends|]. intros ?. apply before with (F1 := F); [by intros h [? _]|].
  eapply then_ends; [done|apply restore_cli_ends; by apply lasts_stable|]. intros [[|] snap]; cbn [negb fst snd]; [|apply then_raise; intros h [? _]; by apply Hk].
  assert (lasts (fun h => F h /\ cli_reverted h)) as HL2 by (apply lasts_and; [done|apply cli_reverted_lasts]).
  eapply then_ends; [by intros h [? _]; apply Hk|apply rollback_proof_ends; [done|by intros h [? _]; apply Hg]|]. intros ?.
  apply then_from with (F1 := known) (M := fun _ h => ever mission_over h = true); [done| |].
  - apply write_ends; [by intros h [[? _] _]; apply Hk|apply known_lasts| |done].
    intros h (Hd & _ & (_ & Hr) & Hp). unfold mission_rule, may_roll_back. cbn. by rewrite Hd, Hr, Hown, Hp.
  - intros _. by apply evidence_cleaned.
Qed.

Lemma rollback_ends : E known (_rollback_locked s) (fun done h => done = true -> ever mission_over h = true).
Proof using Hpending.
  assert (stable known) as HS by apply lasts_stable, known_lasts.
  unfold _rollback_locked. rewrite Hpending. cbn [negb].
  apply then_kept; [done|part|]. intros _. apply then_kept; [done|part|]. intros f.
  destruct (negb (authorize_mission_rollback f)); [by apply then_ret|].
  destruct (rb_supervisor_owned s) as [[|]|] eqn:Hown; [|by apply rollback_legacy_ends|by apply then_ret].
  apply then_kept; [done|part|]. intros [|]; cbn [negb]; [|by apply then_ret].
  eapply then_ends; [done|by apply outcome_ends, settle_ends|].
  intros [g|x]; [|destruct (only _ x); [by apply then_ret; [intros h [? _]|]|by apply then_raise; intros h [? _]]].
  eapply then_from; [|by apply outcome_ends, (finalize_rollback_ends g)|]; [done|].
  intros [m|x]; [apply then_ret; [by intros h [? _]|by intros h [_ H] _]|].
  destruct (only _ x); [by apply then_ret; [intros h [? _]|]|by apply then_raise; intros h [? _]].
Qed.
Lemma rollback_kept : K known (_rollback_locked s).
Proof using Hpending. eapply watched_mono; [exact rollback_ends|done|by intros r d h [? _]]. Qed.
End rollback.

(** ** Reading the mission *)

Abbreviation nothing := (fun _ : history => True).
Lemma nothing_steady : steady nothing.
Proof. done. Qed.
#[export] Hint Resolve nothing_steady : deploy.

Definition is_pending (s : RollbackState) : bool := str_eqb (rb_status s) PENDING.

Definition shown (m : option RollbackState) : facts := fun h =>
  match m with
  | Some s => known s h /\ (terminal_status (rb_status s) = true -> ever mission_over h = true)
              /\ (str_eqb (rb_status s) CONFIRMED_STATUS = true -> ever (confirmed_for (rb_commit s)) h = true)
  | None => ever mission_over h = true
  end.
Lemma shown_lasts m : lasts (shown m).
Proof. destruct m as [s|]; [|apply lasts_ever]. intros e h (H1 & H2 & H3). split_and!; [by apply lasts_ever|..]; intros; apply lasts_ever; auto. Qed.

Definition found (m : option RollbackState) : facts := fun h =>
  shown m h /\ (match m with Some s => is_pending s | None => false end = false -> free h = true).

Lemma text_found raw s h : rollback_of_text raw = Ok s -> found (Some s) (Exchange ReadMissionText (Ok raw) :: h).
Proof.
  intros Hs. unfold found, shown, known, free. cbn. unfold confirmed_for, mission_seen, known_generation, mission_over. cbn. rewrite Hs.
  split; [split_and!|].
  - by rewrite Z.eqb_refl.
  - by intros ->.
  - intros ->. by rewrite str_eqb_refl.
  - unfold is_pending, unclaimed. cbn. rewrite Hs. by intros ->.
Qed.

Lemma read_under deploying F : steady F ->
  W (under deploying F) _read_state (fun r h => under deploying F h /\ match r with Ok m => found m h | Raise _ => True end).
Proof.
  intros HF d h H. cbn. intros r. destruct (quiet_harmless deploying F HF ReadMissionText eq_refl d h r H) as (h' & Hs & Hi). rewrite Hs.
  unfold step in Hs. destruct (all_rules h _ _); [|done]. injection Hs as <-. destruct r as [raw|x]; cbn.
  - destruct (rollback_of_text raw) as [s|x] eqn:Ht; cbn; [|done]. split; [done|]. by apply text_found.
  - by destruct x.
Qed.
Lemma read_ends F : steady F -> E F _read_state found.
Proof. apply read_under. Qed.

(** Kept under the deployment lock, with nothing to remember. *)
Abbreviation safely m := (W (inside nothing) m (ending nothing (fun _ _ => True))).

Lemma kept_safely {A} (F : facts) (m : method A) : K F m -> W (inside F) m (ending nothing (fun _ _ => True)).
Proof. intros H. by apply after_kept. Qed.

Lemma rollback_safely s : is_pending s = true -> W (inside (known s)) (_rollback_locked s) (ending nothing (fun done h => done = true -> ever mission_over h = true)).
Proof. intros H. by eapply after; [by apply rollback_ends|..]. Qed.

(** ** Publishing *)

Lemma cleanup_pending_ends : safely _cleanup_pending_locked.
Proof.
  unfold _cleanup_pending_locked. eapply then_ends; [done|by apply read_ends|].
  intros [s|]; [|by apply then_ret]. destruct (terminal_status (rb_status s)); [by apply then_ret|].
  destruct (str_eqb (rb_status s) PENDING) eqn:Hs; cbn [negb]; [|by apply then_raise].
  apply before with (F1 := known s); [by intros h (_ & [? _] & _)|]. assert (steady (known s)) as HS by apply lasts_steady, known_lasts.
  apply then_kept; [done|part|]. intros _. eapply then_from; [done|by apply rollback_safely|]. intros [|]; [by apply then_ret|by apply then_raise].
Qed.

(** A generation that was allocated, under the generation lock or by the supervisor. *)
Lemma next_ends : E (fun h => free h = true) next_mission_generation (fun g h => ever (allocated g) h = true).
Proof.
  set (taken := fun gens h => held deploy_lock h = true /\ held generation_lock h = gens /\ free h = true).
  set (got := fun (gens : bool) (r : res Z) h => taken gens h /\ match r with Ok g => ever (allocated g) h = true | Raise _ => True end).
  assert (forall (c : dcall (res Z)) gens, c = NextGeneration \/ c = AllocateGeneration -> gens = (match c with NextGeneration => true | _ => false end) ->
    W (taken gens) (ask_res c) (got gens)) as Hask.
  { intros c gens Hc ->. apply watched_ask_res. intros d h r (Hd & Hg & Hf). exists (Exchange c r :: h). unfold step, all_rules, both, lock_rule, mission_rule, promotion_rule.
    destruct Hc as [->| ->]; cbn in Hg; rewrite Hg; (split; [done|]); (split; [by split_and!|]); destruct r; [cbn; by rewrite Z.eqb_refl|done|cbn; by rewrite Z.eqb_refl|done]. }
  assert (forall caught x gens m, W (taken gens) m (got gens) -> W (taken gens) (except caught m (fun _ => raise x)) (got gens)) as Hexcept.
  { intros caught x gens m Hm. unfold except. eapply watched_bind with (M := fun r _ h => match r with Ok r => got gens r h | Raise _ => False end);
      [by apply (watched_outcome _ _ _ (fun r _ => got gens r))| |done].
    intros [g|y]; [by apply watched_ret|]. destruct (caught y); apply watched_raise; intros _ h [? _]; by split. }
  unfold next_mission_generation. eapply watched_bind with (M := fun r _ h => match r with Ok r => got false r h | Raise _ => False end); [| |done].
  - apply (watched_outcome _ _ _ (fun r _ => got false r)). apply Hexcept. unfold with_generation_lock.
    eapply watched_bind with (M := fun r _ => taken (match r with Ok _ => true | Raise _ => false end)); [| |by intros x _ h ?].
    + apply watched_ask_res. intros d h r (Hd & Hg & Hf). exists (Exchange LockGenerations r :: h). unfold step, all_rules, both, lock_rule. rewrite Hg.
      split; [done|]. by destruct r; split_and!.
    + intros _. eapply watched_finally with (M := fun r _ => got true r); [apply Hexcept, Hask; auto|]. intros r. apply watched_ask.
      intros d h [] [(Hd & Hg & Hf) Hr]. exists (Exchange UnlockGenerations tt :: h). unfold step, all_rules, both, lock_rule. rewrite Hg.
      split; [done|]. split; [by split_and!|]. destruct r; [by apply lasts_ever|done].
  - intros [g|x]; [by apply watched_of_res|].
    assert (W (got false (Raise x)) (of_res (Raise x)) (got false)) as Hr by (by apply watched_of_res).
    destruct x; try exact Hr. eapply watched_mono; [apply Hexcept, Hask; auto|by intros d h [? _]|done].
Qed.

Definition claimed (s : RollbackState) : facts := fun h => may_keep_pending h s = true.
Lemma free_steady : steady (fun h => free h = true).
Proof.
  intros B c b h Hq Hf. unfold free in *. cbn [latest]. destruct (unclaimed B c b) eqn:Hu; [|done].
  destruct c; try discriminate Hq; unfold unclaimed in Hu; cbn in Hu; try discriminate Hu. by repeat case_match; simplify_eq.
Qed.
Lemma claimed_steady s : steady (claimed s).
Proof.
  intros B c b h Hq [H|[H1 H2]%andb_prop]%orb_prop; unfold claimed, may_keep_pending; apply orb_true_intro; [left; by apply lasts_ever|right].
  apply andb_true_intro. split; [by apply free_steady|by apply lasts_ever].
Qed.
#[local] Hint Resolve claimed_steady : deploy.

(** Writing it claims it. *)
Lemma claim_written s : is_pending s = true -> W (inside (claimed s)) (_write_state s) (ending (known s) (fun _ _ => True)).
Proof.
  intros Hs. destruct (pending_cases s Hs) as [Hc Hr]. apply watched_ask_res. intros d h r (Hd & Hg & Hk). exists (Exchange (WriteMission s) r :: h).
  unfold step, all_rules, both, mission_rule. unfold is_pending in Hs. rewrite Hd, Hc, Hr, Hs, Hk. split; [done|].
  split; [split_and!; [done..|]|by destruct r]. unfold known. cbn. unfold known_generation. cbn. by rewrite Z.eqb_refl.
Qed.

Lemma undoing_ends {A} (F F0 : facts) (m : method A) undo (G : A -> facts) : (forall h, F h -> F0 h) -> E F m G -> W (inside F) undo (ending F0 (fun _ _ => True)) ->
  W (inside F) (undoing m undo) (ending F0 G).
Proof.
  intros HF Hm Hu. unfold undoing, except. eapply then_from; [|by apply outcome_ends, Hm|]; [done|].
  intros [a|x]; [by apply then_ret; [intros h [? _]; auto|intros h [_ ?]]|]. apply before with (F1 := F); [by intros h [? _]|].
  destruct (only _ x); [|by apply then_raise]. eapply then_from; [|exact Hu|]; [done|]. intros ?. by apply then_raise; intros h [? _].
Qed.

Section handoff.
Context (s : RollbackState) (Hs : is_pending s = true).
#[local] Hint Extern 0 (steady (known _)) => (apply lasts_steady, known_lasts) : deploy.
#[local] Hint Extern 0 (stable (known _)) => (apply lasts_stable, known_lasts) : deploy.

Lemma rewrite_ends s' : rb_status s' = rb_status s -> rb_generation s' = rb_generation s -> K (known s) (_write_state s').
Proof using Hs. intros H1 H2. eapply (rewrite_kept (known s) ltac:(apply lasts_stable, known_lasts) s); auto. Qed.

Lemma checkout_kept F r c t b : lasts F -> K F (ask_res (Checkout r c t b)).
Proof using. intros HL. apply keeps_ask_res. intros d h a (?&?&?). exists (Exchange (Checkout r c t b) a :: h). split; [done|]. split_and!; [done..|by apply HL]. Qed.

Lemma rollback_of_kept s' : rb_status s' = rb_status s -> rb_generation s' = rb_generation s -> K (known s) (_ ← _rollback_locked s'; mret tt).
Proof using Hs. intros H1 H2. apply keeps_bind; [|intros; apply keeps_ret]. unfold known. rewrite <-H2. apply rollback_kept. by rewrite H1. Qed.

Lemma publish_ends t : W (inside (claimed s)) (publish_mission s t) (ending (known s) (fun _ _ => True)).
Proof using Hs.
  unfold publish_mission. eapply then_from; [|by apply claim_written|]; [done|]. intros ?. apply before with (F1 := known s); [by intros h [? _]|].
  assert (steady (known s)) as HS by apply lasts_steady, known_lasts. apply then_kept; [done|part|]. intros _.
  apply undoing_ends; [done|apply after_kept; [part|done..]|]. apply after_kept; [by apply rollback_of_kept|done..].
Qed.

Lemma wait_kept w : K (known s) (_wait_for_supervisor_mission s w).
Proof using Hs.
  assert (steady (known s)) as HS by apply lasts_steady, known_lasts. unfold _wait_for_supervisor_mission. repeat (part; try (by apply rewrite_ends)).
Qed.

(** What a prepared mission has. *)
Definition prepared : facts := fun h => claimed s h /\ (rb_supervisor_owned s = Some false -> known s h).
Lemma prepared_steady : steady prepared.
Proof using. intros B c b h Hq [H1 H2]. split; [by apply claimed_steady|]. intros Ho. by apply known_lasts, H2. Qed.

Lemma legacy_handoff_kept o g : K (known s) (_complete_legacy_handoff o s g).
Proof using Hs.
  assert (steady (known s)) as HS by apply lasts_steady, known_lasts.
  assert (forall s', rb_status s' = rb_status s -> rb_generation s' = rb_generation s -> K (known s) (_rollback_locked s')) as Hroll.
  { intros s' H1 H2. unfold known. rewrite <-H2. apply rollback_kept. by rewrite H1. }
  unfold _complete_legacy_handoff, undoing, _release_legacy_gated_candidate.
  repeat (part; try (by apply rewrite_ends); try (by apply Hroll)).
Qed.

Lemma handoff_ends o g : W (inside prepared) (_complete_handoff o s g) (ending nothing (fun _ _ => True)).
Proof using Hs.
  unfold _complete_handoff. destruct (rb_supervisor_owned s) as [[|]|] eqn:Ho.
  - apply before with (F1 := claimed s); [by intros h [? _]|]. unfold _complete_supervisor_owned_handoff.
    assert (steady (claimed s)) as HC by apply claimed_steady. destruct g as [g|]; [apply (kept_safely (claimed s)); part|].
    eapply then_from; [|by apply publish_ends|]; [done|]. intros ?. apply before with (F1 := known s); [by intros h [? _]|].
    apply (kept_safely (known s)), wait_kept.
  - apply before with (F1 := known s); [intros h [_ H]; by apply H|]. apply (kept_safely (known s)), legacy_handoff_kept.
  - apply (kept_safely prepared). assert (steady prepared) as HP by apply prepared_steady. part.
Qed.
End handoff.

#[export] Hint Extern 1 (keeps _ _ (ask_res (Checkout _ _ _ _))) => (apply checkout_kept; done) : deploy.

Lemma restore_prep_kept o p c : K nothing (_restore_previous_prep o p c).
Proof. unfold _restore_previous_prep. part. Qed.
#[export] Hint Resolve restore_prep_kept : deploy.
Lemma abort_mission_kept g s : K nothing (_abort_mission g s).
Proof. unfold _abort_mission. part. Qed.
Lemma built_kept o p c : K nothing (candidate_built o p c).
Proof. unfold candidate_built, _provenance_fetch. part. Qed.
#[export] Hint Resolve abort_mission_kept built_kept : deploy.

(** Give up, under the lock. *)
Ltac refuse := apply (before _ nothing); [done|]; repeat (apply then_kept; [done|part|]; intros ?); apply then_raise.

Definition prepared_result (r : RollbackState * option GatedWorker) : facts := fun h => is_pending r.1 = true /\ prepared r.1 h.

Lemma facts_ends F status ready : steady F -> E F (_mission_authority_facts status ready) (fun f _ => mission_status f = status).
Proof.
  intros HF. unfold _mission_authority_facts. apply then_kept; [done|part|]. intros [m|x]; [by apply then_ret|].
  destruct (only _ x); [by apply then_ret|by apply then_raise].
Qed.

Lemma legacy_published s gated t : is_pending s = true -> W (inside (claimed s)) (_publish_legacy_mission s gated t) (ending (known s) (fun _ _ => True)).
Proof.
  intros Hs. unfold _publish_legacy_mission. eapply then_from; [|by apply claim_written|]; [done|]. intros ?. apply before with (F1 := known s); [by intros h [? _]|].
  assert (steady (known s)) as HS by apply lasts_steady, known_lasts.
  apply undoing_ends; [done|apply after_kept; [part|done..]|]. apply then_kept; [done|part|]. intros _. apply after_kept; [by apply rollback_of_kept|done..].
Qed.

(** With no mission in its way, a new one is claimed. *)
Lemma mission_claimed o commit previous previous_commit gated new_meta supervised :
  W (inside (fun h => free h = true))
    (generation ← next_mission_generation;
     now ← ask Wall;
     let s := mkRollback ROLLBACK_SCHEMA_VERSION generation PENDING commit previous_commit (float_add now (confirm_window_seconds o))
                (opt_repo o) (opt_uv_path o) (opt_stop_grace_seconds o) (opt_git_timeout_seconds o) false previous new_meta
                (Some supervised) None false in
     _ ← (if negb supervised then _publish_legacy_mission s gated (lock_timeout_seconds o) else mret tt);
     mret (s, gated)) (ending nothing prepared_result).
Proof.
  eapply then_ends; [done|apply next_ends|]. intros g. set (F := fun h => free h = true /\ ever (allocated g) h = true).
  assert (steady F) as HF by (intros B c b h Hq [? ?]; split; [by apply free_steady|by apply lasts_ever]).
  apply then_kept; [done|part|]. intros now. cbv zeta. match goal with |- context [mret (?x, gated)] => set (s := x) end.
  assert (is_pending s = true) as Hs by (by vm_compute).
  assert (forall h, F h -> claimed s h) as Hclaim.
  { intros h [H1 H2]. unfold claimed, may_keep_pending. cbn. rewrite H1, H2. apply orb_true_r. }
  destruct supervised; cbn [negb].
  - apply then_kept; [done|apply keeps_ret|]. intros _. apply then_ret; [done|]. intros h H. split; [exact Hs|]. split; [by apply Hclaim|done].
  - apply before with (F1 := claimed s); [done|].
    eapply then_from with (F1 := known s) (M := fun _ _ => True); [done|by apply legacy_published|]. intros _. apply then_ret; [done|].
    intros h [H _]. split; [exact Hs|]. split; [|done]. unfold claimed, may_keep_pending. apply orb_true_intro. left. exact H.
Qed.

Lemma prepare_ends o commit supervised : E nothing (_prepare_locked o commit supervised) prepared_result.
Proof.
  unfold _prepare_locked. eapply then_from; [|apply cleanup_pending_ends|]; [done|]. intros ?. apply before with (F1 := nothing); [done|].
  apply then_kept; [done|unfold known_good; part|]. intros [previous previous_commit]. do 2 (apply then_kept; [done|part|]; intros _).
  destruct (str_eqb commit previous_commit); [by apply then_raise|]. apply then_kept; [done|part|]. intros _.
  apply then_kept; [done|unfold _candidate_identity; part|]. intros [gated new_meta]. apply then_kept; [done|part|].
  intros [|]; cbn [negb]; [|by refuse]. eapply then_ends; [done|by apply read_ends|]. intros existing.
  destruct (match existing with Some s => is_pending s | None => false end) eqn:Hex.
  - apply before with (F1 := nothing); [done|]. eapply then_ends; [done|by apply facts_ends|]. intros f.
    destruct (authorize_mission_publish f) eqn:Hf; cbn [negb]; [|by refuse].
    apply watched_false. intros _ h (_ & _ & _ & Hst). unfold authorize_mission_publish, status_is in Hf. rewrite Hst in Hf.
    destruct existing as [e|]; [|done]. cbn in Hf. unfold is_pending in Hex. rewrite Hex in Hf. by destruct (durable_malformed f).
  - apply before with (F1 := fun h => free h = true); [intros h (_ & _ & H); by apply H|]. apply then_kept; [done| |].
    + assert (steady (fun h => free h = true)) as HF by apply free_steady. part.
    + intros f. destruct (authorize_mission_publish f); cbn [negb]; [|by refuse]. apply mission_claimed.
Qed.

Lemma deploy_ends o commit : safely (_deploy_locked o commit).
Proof.
  unfold _deploy_locked. apply then_kept; [done|part|]. intros supervised. eapply then_ends; [done|apply prepare_ends|].
  intros [s gated]. destruct (is_pending s) eqn:Hs; [|apply watched_false; intros _ h (_ & _ & _ & H & _); cbn in H; congruence].
  apply before with (F1 := prepared s); [by intros h (_ & _ & ?)|]. by apply handoff_ends.
Qed.

Lemma helper_ends o commit : safely (_helper_locked o commit).
Proof.
  unfold _helper_locked. apply then_kept; [done|part|]. intros supervised. eapply then_ends; [done|apply prepare_ends|].
  intros [s gated]. destruct (is_pending s) eqn:Hs; [|apply watched_false; intros _ h (_ & _ & _ & H & _); cbn in H; congruence].
  apply before with (F1 := prepared s); [by intros h (_ & _ & ?)|]. assert (steady (prepared s)) as HP by apply prepared_steady.
  do 2 (apply then_kept; [done|part|]; intros ?). apply then_kept; [done|part|]. intros [u|x].
  - unfold except. eapply then_from with (F1 := nothing) (M := fun _ _ => True); [done| |].
    + eapply watched_mono; [apply outcome_ends|intros d h H; exact H|].
      * eapply then_from; [|by apply handoff_ends|]; [done|]. intros ?. by apply then_ret with (G := fun _ _ => True).
      * intros [r|y] _ h [? _]; by split.
    + intros [?|y]; [by apply then_ret|]. destruct (only _ y); [by apply then_ret|by apply then_raise].
  - apply before with (F1 := nothing); [done|]. destruct (only _ x); [apply after_kept; [part|done..]|by apply then_raise].
Qed.

(** ** Confirming *)

Lemma refusal_ends {A} s (Q : A -> facts) : is_pending s = true -> W (inside (known s)) (_confirmation_rollback_error s) (ending nothing Q).
Proof.
  intros Hs. unfold _confirmation_rollback_error. eapply then_from; [|by apply rollback_safely|]; [done|]. intros ?. by apply then_raise.
Qed.

Section confirmation.
Context (s : RollbackState) (Hs : is_pending s = true).

(** A legacy mission's candidate was seen alive. *)
Definition seen_running : facts := fun h => rb_supervisor_owned s = Some false -> exists meta, rb_new_meta s = Some meta /\ ever (seen_alive meta) h = true.
Lemma seen_running_lasts : lasts seen_running.
Proof using. intros e h H Ho. destruct (H Ho) as (meta & ? & ?). exists meta. split; [done|by apply lasts_ever]. Qed.

Lemma due_ends F : lasts F -> E F (_pending_mission_rollback_due s) (fun due h => due = false -> seen_running h).
Proof using.
  intros HF. assert (steady F) as HS by by apply lasts_steady.
  destruct (rb_supervisor_owned s) as [[|]|] eqn:Ho; [by apply after_kept; [part|done|intros a h _ _ H; congruence]| |by apply after_kept; [part|done|intros a h _ _ H; congruence]].
  unfold _pending_mission_rollback_due, legacy_due. rewrite Ho. destruct (rb_new_meta s) as [meta|] eqn:Hm; [|by apply then_ret].
  apply then_kept; [done|part|]. intros now. destruct (float_leb _ now); [by apply then_ret|].
  eapply then_ends with (M := fun alive h => alive = true -> ever (seen_alive meta) h = true); [done| |].
  - unfold worker_alive_now. apply then_ask with (M := fun pf h => worker_alive pf meta = Ok true -> ever (seen_alive meta) h = true); [done..| |].
    { intros pf h _ Ha. cbn. by rewrite Ha. }
    intros pf. apply watched_of_res. intros _ h (?&?& HF' & H). split; [by split_and!|]. destruct (worker_alive pf meta) as [[|]|]; [|done..]. intros _. by apply H.
  - intros alive. apply then_ret; [by intros h [? _]|]. intros h [_ H] Ha _. exists meta. split; [done|]. apply H. by destruct alive.
Qed.

Definition ready_to_confirm (expected : option Z) : facts := fun h =>
  match rb_supervisor_owned s with
  | Some true => forall g, expected = Some g -> ever (was_ready (rb_commit s) g) h = true
  | Some false => exists meta, rb_new_meta s = Some meta /\ ever (seen_alive meta) h = true /\ ever (recorded meta) h = true
  | None => False
  end.
Lemma ready_lasts g : lasts (ready_to_confirm g).
Proof using.
  intros e h. unfold ready_to_confirm. destruct (rb_supervisor_owned s) as [[|]|]; [|intros (meta & ? & ? & ?); exists meta; split_and!; [done|by apply lasts_ever..]|done].
  intros H g' Hg. by apply lasts_ever, H.
Qed.

Lemma authorize_ends : W (inside (known s)) (_authorize_confirmation s) (ending nothing (fun _ h => known s h /\ seen_running h)).
Proof using Hs.
  assert (lasts (fun h => known s h /\ seen_running h)) as HL by (apply lasts_and; [apply known_lasts|apply seen_running_lasts]).
  assert (steady (known s)) as HK by apply lasts_steady, known_lasts.
  unfold _authorize_confirmation. eapply then_ends; [done|apply due_ends, known_lasts|].
  intros [|]; [apply before with (F1 := known s); [by intros h [? _]|by apply refusal_ends]|].
  apply before with (F1 := fun h => known s h /\ seen_running h); [intros h [? H]; by auto|]. assert (steady (fun h => known s h /\ seen_running h)) as HS by by apply lasts_steady.
  apply then_kept; [done|part|]. intros f. destruct (authorize_mission_confirm f); cbn [negb].
  - apply after_kept; [part|done|done].
  - apply before with (F1 := known s); [by intros h [? _]|by apply refusal_ends].
Qed.

Lemma candidate_ends : W (inside (fun h => known s h /\ seen_running h)) (_prepare_confirmation_candidate s) (ending nothing (fun g h => known s h /\ ready_to_confirm g h)).
Proof using Hs.
  set (F := fun h => known s h /\ seen_running h). assert (lasts F) as HL by (apply lasts_and; [apply known_lasts|apply seen_running_lasts]).
  assert (steady F) as HS by by apply lasts_steady. assert (forall h, F h -> known s h) as HK by by intros h [? _].
  unfold _prepare_confirmation_candidate, _require_known_confirmation_ownership, ready_to_confirm.
  destruct (rb_supervisor_owned s) as [[|]|] eqn:Ho; [| |by apply then_raise].
  - apply then_kept; [done|apply keeps_ret|]. intros _. apply then_kept; [done|part|]. intros [|]; cbn [negb]; [|apply before with (F1 := known s); [done|by apply refusal_ends]].
    eapply then_ends; [done|by apply settle_ends, lasts_stable|]. intros g. apply then_ret; [done|]. intros h [? ?]. split; [by apply HK|]. by intros g' [= <-].
  - apply then_kept; [done|apply keeps_ret|]. intros _. eapply then_from with (F1 := nothing) (M := fun _ h => F h); [done| |].
    + unfold except. apply then_kept; [done|part|]. intros [u|x]; [by apply then_ret|]. destruct (only _ x); [|by apply then_raise].
      apply before with (F1 := known s); [done|by apply refusal_ends].
    + intros _. destruct (rb_new_meta s) as [meta|] eqn:Hm; [|apply before with (F1 := known s); [by intros h [_ ?]; apply HK|by apply refusal_ends]].
      apply before with (F1 := F); [by intros h [_ ?]|].
      apply then_ask_res with (M := fun _ h => ever (recorded meta) h = true); [done..| |].
      { intros b h _. cbn. by rewrite same_worker_refl. }
      intros _. apply then_ret; [done|]. intros h [[? Hr] ?]. split; [done|]. destruct (Hr Ho) as (meta' & Hm' & ?).
      exists meta'. rewrite <-Hm, Hm'. by simplify_eq.
Qed.

Lemma pre_terminalize_ends : W (inside (known s)) (_pre_terminalize s) (ending nothing (fun g h => known s h /\ ready_to_confirm g h)).
Proof using Hs.
  unfold _pre_terminalize. eapply then_from; [|by apply authorize_ends|]; [done|]. intros ?.
  apply before with (F1 := fun h => known s h /\ seen_running h); [by intros h [_ ?]|]. eapply then_from; [|by apply candidate_ends|]; [done|]. intros g.
  assert (steady (fun h => nothing h /\ known s h /\ ready_to_confirm g h)) as HS
    by (apply lasts_steady, lasts_and; [done|apply lasts_and; [apply known_lasts|apply ready_lasts]]).
  unfold _stage_candidate_startup_artifacts, bin_home_or_fail. do 3 (apply then_kept; [done|part|]; intros ?).
  apply then_ret; [done|]. by intros h [_ ?].
Qed.

(** Confirmed: what its finalization returns. *)
Definition finalized (t : RollbackState) : facts := fun h => rb_commit t = rb_commit s /\ ever (confirmed_for (rb_commit s)) h = true.
Lemma confirmed_written b h : ever (confirmed_for (rb_commit s)) (Exchange (WriteMission (with_status CONFIRMED_STATUS s)) (Ok b) :: h) = true.
Proof using. destruct b. cbn. unfold confirmed_for, mission_seen. cbn. by rewrite !str_eqb_refl. Qed.

Lemma activate_ends t : rb_commit t = rb_commit s ->
  W (inside (fun h => ever (confirmed_for (rb_commit s)) h = true)) (_ ← activate_cli t; mret (with_status CONFIRMED_STATUS s)) (ending nothing finalized).
Proof using.
  intros Ht. set (F := fun h => ever (confirmed_for (rb_commit s)) h = true). assert (lasts F) as HL by apply lasts_ever. assert (steady F) as HS by by apply lasts_steady.
  apply then_kept; [done| |intros _; by apply then_ret]. unfold activate_cli. rewrite Ht. apply keeps_bind; [|intros _; part].
  apply keeps_except; [|intros; apply keeps_ret]. apply keeps_ask_res. intros d h r (Hd & Hg & HF). exists (Exchange (SetCurrent (rb_commit s)) r :: h).
  unfold step, all_rules, both, promotion_rule. rewrite HF. split; [done|]. split_and!; [done..|by apply HL].
Qed.

Lemma finalize_ends g : W (inside (fun h => known s h /\ ready_to_confirm g h)) (_finalize_confirmation s g) (ending nothing finalized).
Proof using Hs.
  set (F := fun h => known s h /\ ready_to_confirm g h). assert (lasts F) as HL by (apply lasts_and; [apply known_lasts|apply ready_lasts]).
  assert (steady F) as HS by by apply lasts_steady.
  unfold _finalize_confirmation. apply then_kept; [done|part|]. intros _.
  destruct (rb_supervisor_owned s) as [[|]|] eqn:Ho; [| |apply watched_false; intros _ h (_ & _ & _ & H); unfold ready_to_confirm in H; by rewrite Ho in H].
  - apply then_kept; [done|part|]. intros [|]; cbn [negb]; [|by apply then_raise]. destruct g as [g|]; [|by apply then_raise].
    assert (forall h, F h -> ever (was_ready (rb_commit s) g) h = true) as Hg by (intros h [_ H]; unfold ready_to_confirm in H; rewrite Ho in H; by apply H).
    unfold _finalize_supervised_confirmation. eapply then_from with (F1 := nothing); [done| |].
    + eapply after; [apply (generation_locked_ends F _ (fun t h => t = with_status CONFIRMED_STATUS s /\ ever (confirmed_for (rb_commit s)) h = true)); [done|
        by intros t h [-> H]; split; [|by apply lasts_ever]|]|done|by intros t h _ H; exact H].
      apply (terminalization_ends F (rb_commit s) g (_ ← _write_state (with_status CONFIRMED_STATUS s); mret (with_status CONFIRMED_STATUS s))); [done..|].
      eapply watched_bind with (M := fun r _ h => within F h /\ match r with Ok _ => ever (confirmed_for (rb_commit s)) h = true | Raise _ => True end).
      * apply watched_ask_res. intros d h r ((Hd & Hl & HF) & Hp). exists (Exchange (WriteMission (with_status CONFIRMED_STATUS s)) r :: h).
        unfold step, all_rules, both, mission_rule, may_confirm. cbn -[may_confirm]. rewrite Hd, Hl, Ho, Hp. split; [done|].
        split; [split_and!; [done..|by apply HL]|]. destruct r as [b|]; [apply confirmed_written|done].
      * intros _. apply watched_ret. intros _ h [Hw Hc]. by split_and!.
      * by intros x _ h [? _].
    + intros t. apply watched_assume with (fact := t = with_status CONFIRMED_STATUS s); [by intros h (_ & _ & _ & ? & _)|]. intros ->.
      apply before with (F1 := fun h => ever (confirmed_for (rb_commit s)) h = true); [by intros h (_ & _ & ?)|]. by apply activate_ends.
  - apply then_from with (F1 := nothing) (M := fun _ h => ever (confirmed_for (rb_commit s)) h = true); [done| |].
    + apply watched_ask_res. intros d h r (Hd & Hg & HF). exists (Exchange (WriteMission (with_status CONFIRMED_STATUS s)) r :: h).
      destruct HF as [? Hr]. unfold ready_to_confirm in Hr. rewrite Ho in Hr. destruct Hr as (meta & Hm & Ha & Hw).
      unfold step, all_rules, both, mission_rule, may_confirm. cbn. rewrite Hd, Ho, Hm, Ha, Hw. split; [done|]. split; [by split_and!|].
      destruct r as [b|]; [apply confirmed_written|done].
    + intros _. apply before with (F1 := fun h => ever (confirmed_for (rb_commit s)) h = true); [by intros h [_ ?]|]. by apply activate_ends.
Qed.
End confirmation.

Lemma confirmation_state_ends requested : E nothing (_confirmation_state requested) (fun s h =>
  if str_eqb (rb_status s) CONFIRMED_STATUS then ever (confirmed_for (rb_commit s)) h = true else is_pending s = true /\ known s h).
Proof.
  unfold _confirmation_state. eapply then_ends; [done|by apply read_ends|]. intros [s|]; [|by apply then_raise].
  destruct (str_eqb (rb_status s) CONFIRMED_STATUS) eqn:Hc.
  - destruct (match requested with JStr c => str_eqb c (rb_commit s) | _ => false end); cbn [negb]; [|by apply then_raise].
    apply then_ret; [done|]. rewrite Hc. intros h (_ & (_ & _ & H) & _). by apply H.
  - destruct (str_eqb (rb_status s) PENDING) eqn:Hs; cbn [negb]; [|by apply then_raise]. apply before with (F1 := known s); [by intros h (_ & [? _] & _)|].
    assert (steady (known s)) as HK by apply lasts_steady, known_lasts. apply then_kept; [done|part|]. intros _.
    apply then_kept; [done|part|]. intros [|]; [by apply refusal_ends|].
    destruct (match requested with JStr c => str_eqb c (rb_commit s) | _ => false end); cbn [negb]; [|by apply refusal_ends].
    apply then_kept; [done|part|]. intros _. apply then_ret; [done|]. rewrite Hc. by intros h ?.
Qed.

(** Promotion, for a commit that is confirmed, and what ends a confirmation. *)
Lemma promote_kept c b : K (fun h => ever (confirmed_for c) h = true) (ask_res (PromoteStaged c c b)).
Proof.
  apply keeps_ask_res. intros d h r (Hd & Hg & HF). exists (Exchange (PromoteStaged c c b) r :: h). unfold step, all_rules, both, promotion_rule.
  rewrite HF, str_eqb_refl. split; [done|]. split_and!; [done..|by apply lasts_ever].
Qed.

Lemma conclude_kept F c m b : steady F -> K F (conclude c m b).
Proof. intros HF. unfold conclude, _finalize_post_promotion, _write_confirmation_receipt. part. Qed.

Lemma idempotent_kept s : K (fun h => ever (confirmed_for (rb_commit s)) h = true) (_confirmed_idempotent_response s).
Proof.
  set (F := fun h => ever (confirmed_for (rb_commit s)) h = true). assert (steady F) as HS by apply lasts_steady, lasts_ever.
  unfold _confirmed_idempotent_response. repeat (part; try apply promote_kept; try by apply conclude_kept).
Qed.

Lemma confirm_ends requested : safely (_confirm_locked requested).
Proof.
  unfold _confirm_locked. eapply then_ends; [done|apply confirmation_state_ends|]. intros s.
  destruct (str_eqb (rb_status s) CONFIRMED_STATUS) eqn:Hc.
  - apply before with (F1 := fun h => ever (confirmed_for (rb_commit s)) h = true); [intros h [_ H]; by rewrite Hc in H|]. apply after_kept; [apply idempotent_kept|done..].
  - apply watched_assume with (fact := is_pending s = true); [intros h (_ & _ & _ & H); rewrite Hc in H; by destruct H|]. intros Hs.
    apply before with (F1 := known s); [intros h [_ H]; rewrite Hc in H; by destruct H|]. assert (steady (known s)) as HK by apply lasts_steady, known_lasts.
    apply then_kept; [done|unfold bin_home_or_fail; part|]. intros b. apply then_kept; [done|unfold _write_snapshot_or_fail; part|]. intros _.
    eapply then_from with (F1 := nothing); [done| |].
    + apply outcome_ends. eapply then_from; [|by apply pre_terminalize_ends|]; [done|]. intros g.
      eapply before; [|by apply (finalize_ends s Hs g)]. by intros h [_ ?].
    + intros [t|x].
      * apply watched_assume with (fact := rb_commit t = rb_commit s); [by intros h (_ & _ & _ & ? & _)|]. intros ->.
        set (F := fun h => ever (confirmed_for (rb_commit s)) h = true). assert (steady F) as HS by apply lasts_steady, lasts_ever.
        apply before with (F1 := F); [by intros h (_ & _ & ?)|]. apply after_kept; [|done..].
        repeat (part; try apply promote_kept; try by apply conclude_kept).
      * apply before with (F1 := nothing); [done|]. unfold _durable_mission_matches. apply after_kept; [part|done..].
Qed.

(** ** The status command, the watchdog, and everything that runs *)

Lemma cli_kept m : K nothing (_reconcile_cli m).
Proof. unfold _reconcile_cli, _cli_target_commit. part. Qed.

Lemma enforce_ends : safely _enforce_pending_rollback.
Proof.
  unfold _enforce_pending_rollback. eapply then_ends; [done|by apply read_ends|]. intros m.
  eapply then_from with (F1 := fun h => match m with Some s => known s h | None => True end) (M := fun due h => due = true -> match m with Some s => is_pending s = true | None => True end); [done| |].
  - destruct m as [s|]; [|by apply then_ret]. apply before with (F1 := known s); [by intros h (_ & [? _] & _)|].
    assert (steady (known s)) as HK by apply lasts_steady, known_lasts. unfold is_pending. destruct (str_eqb (rb_status s) PENDING); [|by apply then_ret].
    apply after_kept; [part|done..].
  - intros due. eapply then_from with (F1 := nothing) (M := fun _ _ => True); [done| |].
    + destruct m as [s|]; [|by apply then_ret]. destruct due; [|by apply then_ret].
      apply watched_assume with (fact := is_pending s = true); [intros h (_ & _ & _ & H); by apply H|]. intros Hs.
      apply before with (F1 := known s); [by intros h [? _]|]. eapply then_from; [|by apply rollback_safely|]; [done|]. intros ?.
      apply before with (F1 := nothing); [done|]. apply after_kept; [part|done..].
    + intros m'. apply before with (F1 := nothing); [done|]. apply then_kept; [done|part|]. intros meta.
      apply then_kept; [done|apply cli_kept|]. intros _. by apply then_ret.
Qed.

(** Taking the lock of a deployment, and giving it back. *)
Definition over {A} (G : A -> facts) (r : res A) : facts := fun h => outside nothing h /\ match r with Ok a => G a h | Raise _ => True end.
Abbreviation O m G := (W (outside nothing) m (over G)).

Lemma locked_ends {A} t (m : method A) (G : A -> facts) : (forall a, lasts (G a)) -> W (inside nothing) m (ending nothing G) ->
  O (_ ← ask_res (LockDeploy t); finally m (ask UnlockDeploy)) G.
Proof.
  intros HG Hm. eapply watched_bind with (M := fun r _ h => match r with Ok _ => inside nothing h | Raise _ => outside nothing h end); [| |by intros x _ h ?].
  - apply watched_ask_res. intros d h r (Hd & Hg & _). exists (Exchange (LockDeploy t) r :: h). unfold step, all_rules, both, lock_rule. rewrite Hd.
    split; [done|]. by destruct r; split_and!.
  - intros _. eapply watched_finally; [exact Hm|]. intros r. apply watched_ask. intros d h [] [(Hd & Hg & _) Hr].
    exists (Exchange UnlockDeploy tt :: h). unfold step, all_rules, both, lock_rule. rewrite Hd. split; [done|]. split; [by split_and!|].
    destruct r; [by apply HG|done].
Qed.

Lemma except_ends {A} caught (m : method A) handler (G : A -> facts) : O m G -> (forall x, O (handler x) G) -> O (except caught m handler) G.
Proof.
  intros Hm Hh. unfold except. eapply watched_bind with (M := fun r _ h => match r with Ok r => over G r h | Raise _ => False end);
    [by apply (watched_outcome _ _ _ (fun r _ => over G r))| |done].
  intros [a|x]; [by apply watched_ret|]. destruct (caught x); [|by apply watched_raise; intros _ h [? _]].
  eapply watched_mono; [apply Hh|by intros _ h [? _]|done].
Qed.

Lemma deploy_locked_ends {A} t (m : method A) : safely m -> O (with_deploy_lock t m) (fun _ _ => True).
Proof. intros Hm. apply except_ends; [by apply locked_ends|]. intros x. apply watched_raise. by intros _ h ?. Qed.

Abbreviation KO m := (keeps (memory := unit) allowed (fun _ => outside nothing) m).

Lemma attempt_ends t : O (_watchdog_rollback_attempt t) (fun done h => done = true -> ever mission_over h = true).
Proof.
  apply except_ends; [|intros x; by apply watched_ret]. apply locked_ends; [intros a e h H Ha; by apply lasts_ever, H|].
  eapply then_ends; [done|by apply read_ends|]. intros [s|]; [|by apply then_ret].
  destruct (str_eqb (rb_status s) PENDING) eqn:Hs; [|by apply then_ret].
  apply before with (F1 := known s); [by intros h (_ & [? _] & _)|]. by apply rollback_safely.
Qed.

Lemma none_found : forall h, found None h -> ever mission_over h = true.
Proof. by intros h [? _]. Qed.

(** The watchdog ends only when the mission is over. *)
Lemma watchdog_ends fuel t : O (_watchdog_main fuel t) (fun ended h => ended = true -> ever mission_over h = true).
Proof.
  induction fuel as [|fuel IH]; cbn [_watchdog_main]; [apply watched_ret; intros d h H; by split|].
  assert (forall P, (forall h, P h -> outside nothing h) -> W P (_ ← ask Sleep; _watchdog_main fuel t) (over (fun ended h => ended = true -> ever mission_over h = true))) as Hnext.
  { intros P HP. eapply watched_mono with (P := fun _ => outside nothing); [|by intros _|intros r d h H; exact H]. eapply watched_keeps; [part|intros x _ h H; by split|intros _; exact IH]. }
  eapply watched_bind with (M := fun r _ h => match r with Ok (Ok m) => outside nothing h /\ found m h | _ => outside nothing h end); [| |intros x _ h H; by split].
  { eapply watched_mono; [apply (watched_outcome _ _ _ (fun r _ h => outside nothing h /\ match r with Ok m => found m h | Raise _ => True end)); by apply read_under|intros d h H; exact H|].
    intros [[m|x]|x] _ h; [done|by intros [? _]|done]. }
  intros [[s|]|x]; [|apply watched_ret; intros _ h [? [? _]]; by split|destruct (only _ x); [by apply Hnext|apply watched_raise; intros _ h H; by split]].
  destruct (terminal_status (rb_status s)) eqn:Hterm; [apply watched_ret; intros _ h [? [(_ & H & _) _]]; split; [done|by intros _; apply H]|].
  eapply watched_mono with (P := fun _ => outside nothing); [|by intros _ h [? _]|intros r d h H; exact H].
  eapply watched_keeps; [|intros x _ h H; by split|intros due]; [destruct (rb_supervisor_owned s) as [[|]|]; part|].
  eapply watched_bind with (M := fun r _ => over (fun done h => done = true -> ever mission_over h = true) r); [|intros [|]|by intros x _ h [? _]; split].
  - destruct due; [apply attempt_ends|apply watched_ret; intros _ h H; by split].
  - by apply watched_ret.
  - apply Hnext. by intros h [? _].
Qed.

(** What runs, as separate processes: the three requests, the helper of a job's
    checkout, and the watchdog of a mission. *)
Inductive role :=
  | ConfirmRequest (requested : json)
  | StatusRequest
  | CheckoutRequest (commit : pystr)
  | CheckoutHelper (commit : pystr)
  | Watchdog (turns : nat) (lock_timeout : pyfloat).

Definition process (o : Options) (r : role) : method unit :=
  match r with
  | ConfirmRequest requested => _ ← _handle_confirm o requested; mret tt
  | StatusRequest => _ ← _handle_status o; mret tt
  | CheckoutRequest commit => _ ← deploy_manually o commit; mret tt
  | CheckoutHelper commit => run_helper o commit
  | Watchdog turns t => _ ← _watchdog_main turns t; mret tt
  end.

Lemma done_ends {A B} (m : method A) (f : A -> B) G : O m G -> O (a ← m; mret (f a)) (fun _ _ => True).
Proof.
  intros Hm. eapply watched_bind; [exact Hm|intros a; apply watched_ret; intros _ h [? _]; by split|intros x _ h [? _]; by split].
Qed.

Lemma process_ends o r : O (process o r) (fun _ _ => True).
Proof.
  destruct r as [requested| |commit|commit|turns t]; cbn [process].
  - apply (done_ends (_handle_confirm o requested) (fun _ => tt) (fun _ _ => True)). unfold _handle_confirm. apply deploy_locked_ends, confirm_ends.
  - apply (done_ends (_handle_status o) (fun _ => tt) (fun _ _ => True)). unfold _handle_status.
    eapply watched_bind; [apply deploy_locked_ends, enforce_ends| |].
    + intros [m meta]. apply watched_ret. intros d h H. exact H.
    + intros x d h H. exact H.
  - apply (done_ends (deploy_manually o commit) (fun _ => tt) (fun _ _ => True)). unfold deploy_manually. apply deploy_locked_ends. eapply then_ends; [done|by apply read_ends|]. intros m.
    apply before with (F1 := nothing); [done|]. apply then_kept; [done|apply cli_kept|]. intros _. apply deploy_ends.
  - apply except_ends; [apply locked_ends; [done|apply helper_ends]|]. intros x.
    apply watched_kept with (I := fun _ => outside nothing); [part|done|]. intros r d h H. split; [exact H|by destruct r].
  - eapply (done_ends (_watchdog_main turns t) (fun _ => tt)), watchdog_ends.
Qed.

Lemma process_obeys o r tr a : runs (process o r tt) tr a ->
  obeys all_rules tr /\ held deploy_lock (rev tr) = false /\ held generation_lock (rev tr) = false.
Proof.
  intros Hr. destruct (watched_runs allowed (fun _ => outside nothing) _ (fun r _ => over (fun _ _ => True) r) tt [] tr a (process_ends o r)) as (h & Ha & (Hd & Hg & _) & _); [done|exact Hr|].
  destruct (accepts_obeys _ _ _ _ Ha) as [-> Hall]. rewrite app_nil_r in Hd, Hg. split; [|by split].
  intros bef B c b aft Ht. rewrite <-(app_nil_r (rev bef)). by eapply Hall.
Qed.

Lemma obeys_weaker (r r' : rule) tr : (forall h B c, r h B c = true -> r' h B c = true) -> obeys r tr -> obeys r' tr.
Proof. intros Hr Ho bef B c b aft Ht. by eapply Hr, Ho. Qed.

(** ** What the runs obey *)

(** C32: A request, a helper or a watchdog writes the mission only under the
    deployment lock. It confirms a supervisor's mission only under
    the generation lock, when the latest readings since that lock was taken show
    the supervisor settled on that commit, ready for the queue, with a live child,
    at a generation it was waited for until ready; it rolls one back only when the
    readings since the lock was last taken (it may be given back) show this of the
    previous commit, the candidate's command line was removed and the previous one
    asked for. A legacy mission is confirmed only when its candidate was seen
    alive and recorded, and rolled back only when the candidate was stopped and
    then seen dead, with the previous commit checked out. A mission of unknown
    ownership is never ended. A pending one is written only at the generation of
    one already read or written, or, when since the deployment lock was taken the
    mission was read as over or absent, at a generation allocated in the run. *)
Theorem missions_ended_proven o r tr a : runs (process o r tt) tr a -> obeys mission_rule tr.
Proof.
  intros Hr. destruct (process_obeys o r tr a Hr) as [H _]. eapply obeys_weaker; [|exact H].
  by intros h B c [_ [? _]%andb_prop]%andb_prop.
Qed.


(** In every run each lock is taken only when it is not held and is given back when it
    is, nothing that waits for the supervisor is asked under the generation lock, and
    no lock is held at the end. *)
Theorem deployment_locks_paired o r tr a : runs (process o r tt) tr a ->
  obeys lock_rule tr /\ held deploy_lock (rev tr) = false /\ held generation_lock (rev tr) = false.
Proof.
  intros Hr. destruct (process_obeys o r tr a Hr) as [H Hl]. split; [|exact Hl]. eapply obeys_weaker; [|exact H]. by intros h B c [? _]%andb_prop.
Qed.

(** The watchdog keeps its authority until the mission is over: it ends normally only
    when it read that there is none or that it is over, or rolled it back. *)
Theorem watchdog_stays fuel t tr d : runs (_watchdog_main fuel t tt) tr (Ok true, d) -> ever mission_over (rev tr) = true.
Proof.
  intros Hr. destruct (watched_runs allowed (fun _ => outside nothing) _ (fun r _ => over (fun ended h => ended = true -> ever mission_over h = true) r) tt [] tr (Ok true, d) (watchdog_ends fuel t)) as (h & Ha & _ & H); [done|exact Hr|].
  destruct (accepts_obeys _ _ _ _ Ha) as [-> _]. rewrite app_nil_r in H. by apply H.
Qed.

(** ** The candidate goes first *)

(** What rolling back a legacy mission changes: the checkout, the workers, the command
    line, the startup artifacts and the mission; all of it once its candidate was
    stopped and seen dead. *)
Definition legacy_rule (s : RollbackState) : rule := fun h B c =>
  match c with
  | Checkout _ _ _ _ | SpawnGatedPrevious _ _ _ _ | ReleaseGate _ | WriteMeta _ | WriteMission _ | RemoveCliRoot _ | ReconcilePointer _
  | RestoreArtifacts _ _ | CleanupStaging _ | RemoveSnapshot | RemoveReceipt =>
      match rb_new_meta s with Some meta => retired meta h | None => false end
  | _ => true
  end.

Section legacy.
Context (s : RollbackState).
Abbreviation watch := (step (legacy_rule s)).

Lemma retired_harmless {B} (c : dcall B) : harmless (memory := unit) watch (fun _ => candidate_retired s) c.
Proof.
  intros d h b H. exists (Exchange c b :: h). pose proof H as (meta & Hm & Hr). unfold step.
  assert (legacy_rule s h B c = true) as -> by (destruct c; cbn; by rewrite ?Hm). split; [done|by apply candidate_retired_lasts].
Qed.
Lemma neutral_harmless {B} (c : dcall B) : (forall h, legacy_rule s h B c = true) -> harmless (memory := unit) watch (fun _ => nothing) c.
Proof. intros H d h b _. exists (Exchange c b :: h). unfold step. by rewrite H. Qed.
End legacy.

Ltac legacy_step known := first [lazymatch goal with |- keeps _ _ (except _ _ _) => apply keeps_except; [|intros ?] end | keep_step known ltac:(idtac)].

Lemma retire_first s : watched (memory := unit) (step (legacy_rule s)) (fun _ => nothing) (_retire_candidate_locked s) (fun r _ h => r = Ok true -> candidate_retired s h).
Proof.
  unfold _retire_candidate_locked. destruct (rb_new_meta s) as [meta|] eqn:Hm; [|by apply watched_ret].
  unfold worker_alive_now. intros d h _. cbn. intros [[|]|x]; cbn; try (intros ?; discriminate). intros pf.
  destruct (worker_alive pf meta) as [[|]|x] eqn:Ha; rewrite ?Ha; cbn; rewrite ?Ha; cbn; try (intros ?; discriminate).
  intros _. exists meta. split; [done|]. cbn. by rewrite Ha, same_worker_refl.
Qed.

Lemma restore_after s : keeps (memory := unit) (step (legacy_rule s)) (fun _ => candidate_retired s) (_restore_previous_locked s).
Proof.
  unfold _restore_previous_locked, _restart_previous, _durable_previous_worker, _recover_previous_restart, _spawn_previous_worker, outlives_stop,
    _clear_previous_restart_obligation, _write_state, _restore_cli_and_startup_artifacts, _read_confirmation_receipt,
    _restore_pre_confirmation_artifacts, _read_pre_confirmation_snapshot, _verify_restored_launcher_mode, _remove_confirmation_receipt, suppressed, worker_alive_now.
  repeat legacy_step ltac:(apply retired_harmless).
Qed.

(** The candidate goes first: whatever is answered, rolling back a legacy mission
    touches the checkout, the previous worker, the metadata of the worker, the command
    line, the startup artifacts and the mission only after the candidate was stopped
    and then seen dead. *)
Theorem candidate_retired_first s tr a : rb_supervisor_owned s = Some false -> runs (_rollback_locked s tt) tr a -> obeys (legacy_rule s) tr.
Proof.
  intros Ho Hr.
  assert (watched (memory := unit) (step (legacy_rule s)) (fun _ => nothing) (_rollback_locked s) (fun _ _ => nothing)) as Hw.
  { unfold _rollback_locked. rewrite Ho. destruct (negb _); [by apply watched_ret|].
    do 2 (eapply watched_keeps; [|done|intros ?]; [unfold _mission_authority_facts, _read_state; repeat legacy_step ltac:(by apply neutral_harmless)|]).
    destruct (negb _); [by apply watched_ret|]. unfold _rollback_legacy_locked. eapply watched_bind; [apply retire_first| |done].
    intros [|]; [|by apply watched_ret]. eapply watched_kept with (I := fun _ => candidate_retired s); [|by intros _ h H; apply H|intros ? ? ? ?; exact I].
    cbn [negb]. apply keeps_bind; [apply restore_after|intros restored].
    unfold _cleanup_rollback_evidence, _remove_confirmation_receipt, _remove_pre_confirmation_artifacts, suppressed, _write_state.
    repeat legacy_step ltac:(apply retired_harmless). }
  destruct (watched_runs _ _ _ _ tt [] tr a Hw I Hr) as (h & Ha & _). destruct (accepts_obeys _ _ _ _ Ha) as [_ Hall].
  intros bef B c b aft Ht. rewrite <-(app_nil_r (rev bef)). by eapply Hall.
Qed.

(** ** A concrete deployment *)

Module DeployExample.
(** A supervisor that runs [w_commit] at generation [w_generation], at the time [w_now]. *)
Record world := mkWorld { w_commit : pystr; w_generation : Z; w_now : pyfloat }.
Definition to_a : world := mkWorld commit_a 7 (float_of_int 10).
Definition back_to_b : world := mkWorld commit_b 8 (float_of_int 10).

Definition child : WorkerChild := mkChild 300 300 300 7000 (py "tok2") (py "w-1") (float_of_int 1).

Definition desired (w : world) : SupervisorDesired :=
  mkDesired 1 (w_generation w) (w_commit w) (py "/srv/lubko") (py "/usr/bin/uv") None false (float_of_int 1) false.
Definition status (w : world) : SupervisorStatus :=
  mkStatus 1 10 20 (float_of_int 1) (w_generation w) MODE_RUN (Some (w_commit w)) (Some child) INTENT_RUN 0 None None None
    (Some true) (Some true) None None false None None (float_of_int 1) 0.
Definition state (w : world) : SupervisorState :=
  mkState 1 (w_generation w) MODE_RUN (Some (w_commit w)) (Some child) None false false None false INTENT_RUN 0 None None None true
    None None None.

Definition text_of (s : RollbackState) : pystr := dump_text (JObj (rollback_to_dict s)).
Definition options : Options :=
  mkOptions (py "/srv/lubko") (py "/usr/bin/uv") half_minute half_minute half_minute half_minute half_minute half_minute half_minute None.

(** The answers; what is remembered is the mission's text. The command line's pointer
    cannot be switched. *)
Definition answer (w : world) (raw : pystr) (B : Type) (c : dcall B) : B * pystr :=
  match c in dcall B return B * pystr with
  | ReadMissionText => (Ok raw, raw)
  | WriteMission s => (Ok tt, text_of s)
  | SupervisorRunning | WaitForGeneration _ _ | WaitUntilReady _ _ _ | StopWorker _ _ | WaitForReleased _ | CheckPostgres _ | Checkout _ _ _ _
  | RunValidation _ => (Ok true, raw)
  | ReconcilePointer _ => (Ok false, raw)
  | ReadStateClient => (Ok (state w), raw)
  | ReadDesiredClient => (Ok (Some (desired w)), raw)
  | ReadStatus => (Ok (Some (status w)), raw)
  | RequestRun _ _ _ _ | NextGeneration | AllocateGeneration => (Ok (w_generation w), raw)
  | Wall => (w_now w, raw)
  | Proc => (ProcExample.pf, raw)
  | WorkerId => (py "w1", raw)
  | ReadMetaStrict | ReadMeta => (Ok (Some old_worker), raw)
  | SpawnGatedPrevious _ _ _ _ => (Ok None, raw)
  | SpawnGatedCandidate _ _ => (Raise DeployCtlError, raw)
  | ResolveBinHome => (Ok (py "/home/bin"), raw)
  | SnapshotArtifacts _ => (Ok [], raw)
  | ReadSnapshotText | ReadReceiptText => (Raise FileNotFoundError, raw)
  | LauncherMode _ => (Ok 493, raw)
  | ReadStagingManifest => (Ok (Some []), raw)
  | PromoteStaged _ _ _ | VerifyActive _ _ => (Ok None, raw)
  | UnlockDeploy | UnlockGenerations | Sleep | SendResponse => (tt, raw)
  | LockDeploy _ | LockGenerations | WriteMeta _ | AbortGated _ | ReleaseGate _ | ForkWatchdog _ | Failpoint _ | RequireExactCommit _ _
  | RequireCleanCheckout _ | FetchFromAuthority _ _ _ | BuildCliRoot _ _ | RemoveCliRoot _ | SetCurrent _ | GcCliRoots _ _ | WriteSnapshot _
  | RemoveSnapshot | RestoreArtifacts _ _ | WriteReceipt _ | RemoveReceipt | StageCandidate _ | WriteStagingManifest _ _ | CleanupStaging _
  | WaitForDurableSuccess _ => (Ok tt, raw)
  end.

Definition run (w : world) (r : role) : list exchange * (res unit * unit) :=
  drive (answer w) (process options r tt) (text_of (a_mission half_minute)).

(** The missions written, and whether the generation lock was held. *)
Fixpoint written (h : history) : list (RollbackState * bool) :=
  match h with
  | [] => []
  | Exchange c b :: h => match mission_written _ c b with Some (s, _) => [(s, held generation_lock h)] | None => [] end ++ written h
  end.
Definition confirming : list exchange := (run to_a (ConfirmRequest (JStr commit_a))).1.
Definition rolling_back : list exchange := (run back_to_b StatusRequest).1.
End DeployExample.

Example confirmed_under_lock :
  map (fun sw => (rb_status sw.1, sw.2)) (DeployExample.written (rev DeployExample.confirming)) = [(CONFIRMED_STATUS, true)].
Proof. vm_compute. reflexivity. Qed.
Example rolled_back_after_unlock :
  map (fun sw => (rb_status sw.1, sw.2)) (DeployExample.written (rev DeployExample.rolling_back)) = [(ROLLED_BACK_STATUS, false)].
Proof. vm_compute. reflexivity. Qed.

Lemma missions_ended_proven_witness :
  obeys mission_rule DeployExample.confirming
  /\ map (fun sw => (rb_status sw.1, sw.2)) (DeployExample.written (rev DeployExample.confirming)) = [(CONFIRMED_STATUS, true)].
Proof.
  split; [|vm_compute; reflexivity].
  apply (missions_ended_proven DeployExample.options (ConfirmRequest (JStr commit_a)) _ (DeployExample.run DeployExample.to_a (ConfirmRequest (JStr commit_a))).2), drive_runs.
Defined.


(** A legacy mission whose candidate is not in the process table. *)
Definition legacy_mission : RollbackState :=
  mkRollback ROLLBACK_SCHEMA_VERSION 7 PENDING commit_a commit_b half_minute (py "/srv/lubko") (py "/usr/bin/uv") half_minute half_minute false
    old_worker (Some (mkMeta 1 STATE_RUNNING (Some 500) (Some 500) (Some 500) (Some 9000) (Some (py "tok")) (py "/srv/lubko") (Some commit_a)
      (Some (py "w2")) [] (Some half_minute) None)) (Some false) None false.
Definition legacy_run : list exchange * (res bool * unit) :=
  drive (DeployExample.answer DeployExample.to_a) (_rollback_locked legacy_mission tt) (DeployExample.text_of legacy_mission).

Lemma candidate_retired_first_witness :
  obeys (legacy_rule legacy_mission) legacy_run.1
  /\ ever (fun B c b => match c with Checkout _ commit _ _ => when (str_eqb commit commit_b) | _ => None end) legacy_run.1 = true.
Proof.
  split; [|vm_compute; reflexivity]. apply (candidate_retired_first legacy_mission _ legacy_run.2); [reflexivity|apply drive_runs].
Defined.

(** The watchdog of a supervised mission ends with the exception of a supervisor that
    stopped answering, its mission still pending. *)
Definition refusing (raw : pystr) (B : Type) (c : dcall B) : B * pystr :=
  match c in dcall B return B * pystr -> B * pystr with
  | ReadStateClient => fun _ => (Raise OSError, raw)
  | _ => fun answered => answered
  end (DeployExample.answer DeployExample.to_a raw B c).
Example watchdog_dies turns t :
  (drive refusing (_watchdog_main (S turns) t tt) (DeployExample.text_of (a_mission half_minute))).2 = (Raise OSError, tt).
Proof. vm_compute. reflexivity. Qed.

(** A confirmation whose last steps fail, with the mission unreadable after that, drops
    the staged artifacts and the snapshot of a mission it has confirmed. *)
Definition flaky (raw : pystr) (B : Type) (c : dcall B) : B * pystr :=
  match c in dcall B return B * pystr -> B * pystr with
  | GcCliRoots _ _ => fun _ => (Raise OSError, [])
  | ReadMissionText => fun answered => match raw with [] => (Raise OSError, []) | _ => answered end
  | _ => fun answered => answered
  end (DeployExample.answer DeployExample.to_a raw B c).
Definition flaky_run : list exchange :=
  (drive flaky (process DeployExample.options (ConfirmRequest (JStr commit_a)) tt) (DeployExample.text_of (a_mission half_minute))).1.
Definition snapshot_removed : reading bool := fun B c => match c in dcall B return B -> _ with
  | RemoveSnapshot => fun r => when (answered r) | _ => fun _ => None end.
Example confirmed_evidence_dropped :
  map (fun sw => rb_status sw.1) (DeployExample.written (rev flaky_run)) = [CONFIRMED_STATUS] /\ ever snapshot_removed flaky_run = true.
Proof. vm_compute. by split. Qed.

(** With neither a snapshot nor a receipt, the staged artifacts are gone before the
    mission is rolled back; the command line's pointer was asked for in vain. *)
Definition staging_removed : reading bool := fun B c => match c in dcall B return B -> _ with
  | CleanupStaging _ => fun r => when (answered r) | _ => fun _ => None end.
Definition pointer_refused : reading bool := fun B c => match c in dcall B return B -> _ with
  | ReconcilePointer _ => fun r => when (answered r && negb (yes r)) | _ => fun _ => None end.
Fixpoint ended_after (f : reading bool) (h : history) : bool :=
  match h with
  | [] => false
  | Exchange c b :: h => match mission_written _ c b with Some (s, _) => terminal_status (rb_status s) && ever f h | None => ended_after f h end
  end.
Example staging_removed_first :
  ended_after staging_removed (rev DeployExample.rolling_back) = true /\ ended_after pointer_refused (rev DeployExample.rolling_back) = true.
Proof. vm_compute. by split. Qed.
